(* ===== verification/_CoqProject ===== *)
-Q . S2P
Prelude.v
Cutils.v
DynBuf.v
Utf8.v
ListHead.v
CharRange.v
Sorting.v
UnicodeTables.v
UnicodeLookup.v
Normalize.v
UniProps.v
RegexpOp.v
RegexpExec.v
RegexpParse.v
RegexpCompile.v
RegexpCode.v
RegexpFrag.v
RegexpText.v
RegexpSafe.v
RegexpLogic.v
RegexpRange.v
RegexpEmit.v
RegexpScan.v
RegexpGen.v
RegexpQuant.v
RegexpVerified.v
GcObjects.v
GcRuntime.v
GcTrial.v
GcFree.v
GcSteps.v
GcSweep.v
GcCollect.v
JsValues.v
MapRecords.v
MapSpec.v
MapRefine.v
BfLimbs.v
BfRound.v
BfMul.v
BfCmp.v
BfAdd.v
AtomTable.v
AtomInv.v
AtomHash.v
AtomNew.v
AtomNumber.v
AtomCalls.v
AtomSpec.v
AtomRel.v
AtomRefine.v
AtomVerified.v
StringBuf.v
