(* ===== verification/Prelude.v ===== *)
(** * Verification of the QuickJS C engine embedded in quickjs-rs

    The repository wraps the QuickJS JavaScript engine for Rust.  The engine is
    C code under src/libquickjs-sys/embed/quickjs; file names below are relative
    to it.  It is layered: [cutils] and [list.h] are helpers of every other
    part, [libunicode] works on tables that [libunicode-table.h] holds,
    [libregexp] compiles and runs regular expressions over [libunicode]'s
    character ranges, [libbf] is arbitrary precision arithmetic, and [quickjs.c]
    is the engine on top of them.

    ** How code is modelled

    A C function is a Rocq function that returns an [outcome]: a value, or the
    fault (an access out of bounds, a failing [assert], a use of released
    memory, ...) that ends the run.  A theorem that a call returns [Ret] therefore
    rules all faults out.  Integers are [Z] with the wrap-around of their width
    written out ([u32], [i32], ...); arrays and memories are lists that are read
    and written with a bounds check ([rd], [wr]); state is passed and returned.
    A [for(;;)] loop is [loop] with fuel: the fuel is an argument where the code
    may run for ever (the matcher, [forEach]), else an expression of the input
    that the theorems show to be enough, since they promise a result.  Memory
    allocation is a type class ([Allocator], [MapAllocator], [AtomAllocator]): any request may be
    refused, so the error paths are in the theorems.  [wp m Q] says that [m]
    returns a value with [Q]; the component files prove their lemmas with it.

    ** The files

    - [Prelude]: outcomes, machine integers, arrays, loops, [wp], tactics.
    - [Cutils] ([cutils.h], [cutils.c]): bit counts, unaligned access, byte
      order, bounded strings.  [DynBuf]: growing buffers, refining a byte list
      with an error flag.  [Utf8]: encoder and decoder, inverse to one another.
      [Sorting]: [rqsort] over byte memory: it sorts for an order, and stays in
      the array and permutes it for any comparator, a stateful one too.
    - [ListHead] ([list.h]): the links of intrusive lists.
    - [CharRange], [UnicodeTables], [UnicodeLookup], [Normalize], [UniProps]
      ([libunicode.c], [libunicode-table.h]): sets of characters and their
      operations, the tables, case conversion, normalization and the sets of
      Unicode properties, each against a direct reading of the tables.
    - [RegexpOp], [RegexpExec], [RegexpParse], [RegexpCompile] ([libregexp.c]):
      opcodes, matcher, parser and compiler.  [RegexpCode] to [RegexpVerified]:
      every pattern that compiles gives code with operands in range, jumps to
      instructions and a static stack depth ([lre_compile_verified]), and the
      matcher has no fault on such code and any text ([lre_compile_exec_safe]).
      An embedder that refuses objects of 2^31 bytes is assumed there
      ([SmallAllocator]), as the compiler keeps offsets in an [int].
    - [GcObjects], [GcRuntime], [GcFree] ([quickjs.c]): the collected objects
      with their mark functions, trial deletion, finalizers and [JS_RunGC].
      [GcTrial], [GcSteps], [GcSweep], [GcCollect]: a run of the collector
      releases exactly the objects that cannot be reached from outside
      ([JS_RunGC_collects]) and leaves exact counts ([JS_RunGC_counts]).  The
      theorems ask that garbage is no key of a weak map nor a weak map, and that
      its suspended frames share no open variable with a closure in use:
      [captured_variable_dangles] shows that the code is wrong otherwise.
    - [JsValues], [MapRecords] ([quickjs.c]): values and their equality, hash
      table, records and iterators of Map, Set, WeakMap and WeakSet.  [MapSpec]:
      the list of entries of the language specification.  [MapRefine]: every
      sequence of calls answers as the specification may
      ([map_calls_refine_spec]), and the end of a map gives back what it took.
      Keys are the values the engine makes of a number when it normalises it:
      [map_misses_double] shows what happens with one that is not.  A table has
      less than 2^31 chains, that is, 2^35 bytes of memory.
    - [AtomTable], [AtomCalls] ([quickjs.c], [quickjs-atom.h]): the table of
      atoms (interned strings, symbols, small numbers) with its hash chains and
      free entries, the references to strings and atoms, and the calls the
      engine makes.  [AtomSpec]: atoms as objects with a text, a kind and
      counts.  [AtomInv], [AtomHash], [AtomNew], [AtomNumber]: the invariant of
      the table, and that each operation preserves it.  [AtomRel],
      [AtomRefine], [AtomVerified]: every sequence of calls after the start of
      a runtime answers as the specification may ([atom_calls_refine_spec]);
      equal strings are equal atoms ([atoms_canonical]), numbers are read back
      ([atom_number_roundtrip]) and the end of the runtime releases each atom
      ([free_atoms_releases]).  An allocator that refuses arrays of more than
      4 GiB is assumed ([SmallArrays]): [atom_array_size_overflows] shows why.
      The strings of [quickjs.c] are counted without a bound.
    - [BfLimbs], [BfRound], [BfMul], [BfCmp], [BfAdd] ([libbf.c]): arithmetic on
      arrays of 64-bit limbs (sums, shifts, the schoolbook product, division by
      a limb and by an array) and the floating point numbers: an exact number is
      rounded to a precision in each of the seven modes, with the exponent
      range, subnormal numbers and the status flags ([bf_round_correct]);
      [bf_add], [bf_sub], [bf_mul] and [bf_mul_2exp] round the exact result
      ([bf_add_correct], [bf_mul_correct]) and [bf_cmp] is the order of the
      values.  Numbers are those the library makes, with less than 2^54 limbs
      and exponents between -2^61 and 2^61 ([bf_wf]); products are those below
      the threshold of the Fourier transform (100 limbs) and quotients those
      below that of the recursive division (50 limbs), which are not modelled;
      sums exclude the flag of radix point precision and products the faithful
      mode.  A refused request for memory is a result.

    ** What is not modelled

    The parser, the bytecode compiler and interpreter of [quickjs.c], shapes,
    properties, string buffers and the built-in objects other than maps (of
    the atoms, [JS_AtomIsNumericIndex]: the conversions between doubles and
    text are not modelled), [quickjs-libc.c] (files,
    processes, timers) and the command line tools (input and output), the
    generator of the Unicode tables (its output is modelled), and the Rust
    wrapper (foreign-function glue).  Of [libbf.c]: the Fourier transform, the
    recursive division, [bf_div], square roots of numbers, conversion from and
    to text, transcendental functions and decimal numbers.  In
    the modelled parts: memory that is not an object of the collector (strings,
    tables) is not followed by the Gc files; a map's own reference count, big
    floats and decimals are not followed by the Map files; [cr_dump],
    [lre_dump_bytecode] and the like are debugging output. *)

From stdpp Require Export base tactics list numbers option strings.
From Stdlib Require Export Ascii Lia.
#[global] Open Scope Z_scope.
#[global] Set Default Goal Selector "!".

(** ** Outcomes

    A C computation either returns a value or has a fault.  [OutOfBounds] is
    an access outside the object, [NullDeref] a use of a null pointer,
    [Uninitialised] a use of an object before its initialisation or after its
    release, [AssertFailed] a failing [assert],
    [Aborted] a call of [abort], [OutOfFuel] a loop that used up the fuel its
    model was given (every theorem that promises a result rules it out). *)

Inductive fault := OutOfBounds | NullDeref | Uninitialised | AssertFailed | Aborted | OutOfFuel.

Inductive outcome (A : Type) : Type :=
  | Ret (a : A)
  | Fault (f : fault).
Arguments Ret {A} a.
Arguments Fault {A} f.

#[export] Instance fault_eq_dec : EqDecision fault.
Proof. solve_decision. Defined.
#[export] Instance outcome_eq_dec `{EqDecision A} : EqDecision (outcome A).
Proof. solve_decision. Defined.

#[export] Instance outcome_ret : MRet outcome := fun A a => Ret a.
#[export] Instance outcome_bind : MBind outcome := fun A B k m =>
  match m with Ret a => k a | Fault f => Fault f end.
#[export] Instance outcome_fmap : FMap outcome := fun A B g m =>
  match m with Ret a => Ret (g a) | Fault f => Fault f end.

(** [assert(b)] of the C code. *)
Definition c_assert (b : bool) : outcome () := if b then Ret () else Fault AssertFailed.

(** ** Machine integers

    A [w]-bit unsigned value is a [Z] in [0, 2^w); conversions wrap. *)

Definition uwrap (w x : Z) : Z := x mod 2 ^ w.
Definition swrap (w x : Z) : Z :=
  let y := x mod 2 ^ w in if y <? 2 ^ (w - 1) then y else y - 2 ^ w.

Definition u8 (x : Z) : Z := uwrap 8 x.
Definition u16 (x : Z) : Z := uwrap 16 x.
Definition u32 (x : Z) : Z := uwrap 32 x.
Definition u64 (x : Z) : Z := uwrap 64 x.
Definition i8 (x : Z) : Z := swrap 8 x.
Definition i16 (x : Z) : Z := swrap 16 x.
Definition i32 (x : Z) : Z := swrap 32 x.
Definition i64 (x : Z) : Z := swrap 64 x.

Definition INT32_MAX : Z := 2147483647.
Definition UINT32_MAX : Z := 4294967295.

(** The truth value of a C comparison used as an integer. *)
Definition b2z (b : bool) : Z := if b then 1 else 0.

(** Character constants ['x'] of the C code. *)
Definition ch (a : ascii) : Z := Z.of_nat (nat_of_ascii a).
(** String constants, without the terminating zero. *)
Fixpoint str (s : string) : list Z :=
  match s with
  | EmptyString => []
  | String a s' => ch a :: str s'
  end.

(** ** Arrays

    An object of [length l] cells indexed by a C integer.  [rd] and [wr] are
    the accesses [l[i]] and [l[i] = v]; [rd_range] and [wr_range] are the two
    sides of [memcpy]/[memmove]. *)

Definition zlen {A} (l : list A) : Z := Z.of_nat (length l).

Definition rd {A} (l : list A) (i : Z) : outcome A :=
  if i <? 0 then Fault OutOfBounds
  else match l !! Z.to_nat i with
       | Some v => Ret v
       | None => Fault OutOfBounds
       end.

Definition wr {A} (l : list A) (i : Z) (v : A) : outcome (list A) :=
  if (0 <=? i) && (i <? zlen l) then Ret (<[Z.to_nat i := v]> l)
  else Fault OutOfBounds.

Definition rd_range {A} (l : list A) (off n : Z) : outcome (list A) :=
  if (0 <=? off) && (0 <=? n) && (off + n <=? zlen l)
  then Ret (take (Z.to_nat n) (drop (Z.to_nat off) l))
  else Fault OutOfBounds.

Definition wr_range {A} (l : list A) (off : Z) (d : list A) : outcome (list A) :=
  if (0 <=? off) && (off + zlen d <=? zlen l)
  then Ret (take (Z.to_nat off) l ++ d ++ drop (Z.to_nat (off + zlen d)) l)
  else Fault OutOfBounds.

(** ** Loops

    [loop fuel body s] is [for(;;)] with the loop-carried variables [s]:
    [body] returns [inl s'] to go on and [inr r] to leave with [r]. *)

Fixpoint loop {S R : Type} (fuel : nat) (body : S -> outcome (S + R)) (s : S) : outcome R :=
  match fuel with
  | O => Fault OutOfFuel
  | Datatypes.S fuel' =>
      match body s with
      | Ret (inl s') => loop fuel' body s'
      | Ret (inr r) => Ret r
      | Fault f => Fault f
      end
  end.

(** [for] over the elements of a list. *)
Fixpoint foldM {A B : Type} (f : B -> A -> outcome B) (b : B) (l : list A) : outcome B :=
  match l with
  | [] => Ret b
  | x :: l' => match f b x with Ret b' => foldM f b' l' | Fault e => Fault e end
  end.

(** [wp m Q]: [m] returns (no fault, no lack of fuel) a value satisfying [Q]. *)
Definition wp {A} (m : outcome A) (Q : A -> Prop) : Prop :=
  match m with Ret a => Q a | Fault _ => False end.

(** ** Generic lemmas *)

Create HintDb cmodel.
Create HintDb zlen.

Lemma wp_ret {A} (a : A) (Q : A -> Prop) : Q a -> wp (Ret a) Q.
Proof. done. Qed.

Lemma wp_bind {A B} (m : outcome A) (k : A -> outcome B) (Q : B -> Prop) :
  wp m (fun a => wp (k a) Q) -> wp (m ≫= k) Q.
Proof. by destruct m. Qed.

Lemma wp_mono {A} (m : outcome A) (P Q : A -> Prop) :
  wp m P -> (forall a, P a -> Q a) -> wp m Q.
Proof. destruct m; simpl; auto. Qed.

Lemma wp_and {A} (m : outcome A) (P Q : A -> Prop) :
  wp m P -> wp m Q -> wp m (fun a => P a /\ Q a).
Proof. destruct m; simpl; auto. Qed.

Lemma wp_elim {A} (m : outcome A) (Q : A -> Prop) :
  wp m Q <-> exists a, m = Ret a /\ Q a.
Proof.
  destruct m as [a|f]; simpl; split; intros H; try naive_solver.
Qed.

Lemma wp_run {A} (m : outcome A) (a : A) (Q : A -> Prop) :
  m = Ret a -> wp m Q -> Q a.
Proof. by intros ->. Qed.

(** Total correctness of a loop: an invariant and a decreasing measure. *)
Lemma wp_loop {S R : Type} (I : S -> Prop) (m : S -> Z) (Q : R -> Prop)
    (body : S -> outcome (S + R)) :
  (forall s, I s ->
     wp (body s) (fun r => match r with
                           | inl s' => I s' /\ 0 <= m s' < m s
                           | inr r => Q r
                           end)) ->
  forall fuel s, I s -> 0 <= m s < Z.of_nat fuel -> wp (loop fuel body s) Q.
Proof.
  intros Hbody fuel. induction fuel as [|fuel IH]; intros s HI Hm; [lia|].
  simpl. specialize (Hbody s HI). destruct (body s) as [[s'|r]|f]; simpl in *; try done.
  destruct Hbody as [HI' Hm']. apply IH; [done|lia].
Qed.

(** The same with a measure that is not a function of the loop variables. *)
Lemma wp_loop_ghost {S R : Type} (I : S -> Z -> Prop) (Q : R -> Prop)
    (body : S -> outcome (S + R)) :
  (forall s m, I s m ->
     wp (body s) (fun r => match r with
                           | inl s' => exists m', I s' m' /\ 0 <= m' < m
                           | inr r => Q r
                           end)) ->
  forall fuel s m, I s m -> 0 <= m < Z.of_nat fuel -> wp (loop fuel body s) Q.
Proof.
  intros Hbody fuel. induction fuel as [|fuel IH]; intros s m HI Hm; [lia|].
  simpl. specialize (Hbody s m HI). destruct (body s) as [[s'|r]|f]; simpl in *; try done.
  destruct Hbody as (m' & HI' & Hm'). apply (IH s' m'); [done|lia].
Qed.

Lemma foldM_ext {A B : Type} (f g : B -> A -> outcome B) :
  (forall b x, f b x = g b x) -> forall l b, foldM f b l = foldM g b l.
Proof.
  intros H l. induction l as [|x l IH]; intros b; cbn [foldM]; [done|].
  rewrite H. by destruct (g b x).
Qed.

Lemma wp_foldM {A B : Type} (I : B -> list A -> Prop) (f : B -> A -> outcome B) (Q : B -> Prop) :
  (forall b x l, I b (x :: l) -> wp (f b x) (fun b' => I b' l)) ->
  (forall b, I b [] -> Q b) ->
  forall l b, I b l -> wp (foldM f b l) Q.
Proof.
  intros Hf HQ l. induction l as [|x l IH]; intros b Hb; cbn [foldM]; [by apply HQ|].
  specialize (Hf b x l Hb). destruct (f b x); [by apply IH|done].
Qed.

(** More fuel does not change a result. *)
Lemma loop_mono {S R : Type} (body : S -> outcome (S + R)) fuel fuel' s r :
  loop fuel body s = Ret r -> (fuel <= fuel')%nat -> loop fuel' body s = Ret r.
Proof.
  revert fuel' s. induction fuel as [|fuel IH]; intros fuel' s H Hle; [done|].
  destruct fuel' as [|fuel']; [lia|]. simpl in *.
  destruct (body s) as [[s'|r']|f]; try done. apply IH; [done|lia].
Qed.

Lemma zlen_nonneg {A} (l : list A) : 0 <= zlen l.
Proof. unfold zlen. lia. Qed.

Lemma zlen_app {A} (l k : list A) : zlen (l ++ k) = zlen l + zlen k.
Proof. unfold zlen. rewrite length_app. lia. Qed.

Lemma zlen_cons {A} (x : A) (l : list A) : zlen (x :: l) = 1 + zlen l.
Proof. unfold zlen. simpl. lia. Qed.

Lemma zlen_nil {A} : zlen (@nil A) = 0.
Proof. done. Qed.

Lemma zlen_insert {A} i (x : A) (l : list A) : zlen (<[i := x]> l) = zlen l.
Proof. unfold zlen. by rewrite length_insert. Qed.

Lemma zlen_take {A} n (l : list A) : zlen (take n l) = Z.min (Z.of_nat n) (zlen l).
Proof. unfold zlen. rewrite length_take. lia. Qed.

Lemma zlen_drop {A} n (l : list A) : zlen (drop n l) = Z.max 0 (zlen l - Z.of_nat n).
Proof. unfold zlen. rewrite length_drop. lia. Qed.

#[export] Hint Rewrite @zlen_app @zlen_cons @zlen_nil @zlen_insert : zlen.

Lemma rd_Ret {A} (l : list A) i v :
  rd l i = Ret v <-> 0 <= i /\ l !! Z.to_nat i = Some v.
Proof.
  unfold rd. destruct (Z.ltb_spec i 0).
  - naive_solver lia.
  - destruct (l !! Z.to_nat i); naive_solver.
Qed.

Lemma rd_ok {A} (l : list A) i :
  0 <= i < zlen l -> exists v, l !! Z.to_nat i = Some v /\ rd l i = Ret v.
Proof.
  intros [H0 H1]. destruct (l !! Z.to_nat i) as [v|] eqn:E.
  - exists v. split; [done|]. apply rd_Ret. auto.
  - apply lookup_ge_None in E. unfold zlen in H1. lia.
Qed.

Lemma rd_bounds {A} (l : list A) i v : rd l i = Ret v -> 0 <= i < zlen l.
Proof.
  rewrite rd_Ret. intros [H0 H1]. apply lookup_lt_Some in H1. unfold zlen. lia.
Qed.

(** Reading behind a prefix. *)
Lemma rd_app_r {A} (pre l : list A) k i : 0 <= k -> i = zlen pre + k -> rd (pre ++ l) i = rd l k.
Proof.
  intros Hk ->. unfold rd, zlen. rewrite (proj2 (Z.ltb_ge k 0)), (proj2 (Z.ltb_ge _ 0)) by lia.
  rewrite lookup_app_r by lia. by replace (Z.to_nat (Z.of_nat (length pre) + k) - length pre)%nat with (Z.to_nat k) by lia.
Qed.

Lemma wp_rd {A} (l : list A) i (Q : A -> Prop) :
  0 <= i < zlen l -> (forall v, l !! Z.to_nat i = Some v -> Q v) -> wp (rd l i) Q.
Proof. intros H HQ. destruct (rd_ok l i H) as (v & Hv & ->). simpl. auto. Qed.

Lemma wr_ok {A} (l : list A) i v :
  0 <= i < zlen l -> wr l i v = Ret (<[Z.to_nat i := v]> l).
Proof. intros H. unfold wr. by rewrite (proj2 (Z.leb_le 0 i)), (proj2 (Z.ltb_lt i _)) by lia. Qed.

Lemma wp_wr {A} (l : list A) i v (Q : list A -> Prop) :
  0 <= i < zlen l -> Q (<[Z.to_nat i := v]> l) -> wp (wr l i v) Q.
Proof. intros H HQ. by rewrite wr_ok. Qed.

Lemma rd_range_ok {A} (l : list A) off n :
  0 <= off -> 0 <= n -> off + n <= zlen l ->
  rd_range l off n = Ret (take (Z.to_nat n) (drop (Z.to_nat off) l)).
Proof.
  intros. unfold rd_range.
  by rewrite (proj2 (Z.leb_le 0 off)), (proj2 (Z.leb_le 0 n)), (proj2 (Z.leb_le _ (zlen l))) by lia.
Qed.

Lemma wr_range_ok {A} (l : list A) off (d : list A) :
  0 <= off -> off + zlen d <= zlen l ->
  wr_range l off d = Ret (take (Z.to_nat off) l ++ d ++ drop (Z.to_nat (off + zlen d)) l).
Proof.
  intros. unfold wr_range.
  by rewrite (proj2 (Z.leb_le 0 off)), (proj2 (Z.leb_le _ (zlen l))) by lia.
Qed.

Lemma zlen_wr_range {A} (l : list A) off (d : list A) :
  0 <= off -> off + zlen d <= zlen l ->
  zlen (take (Z.to_nat off) l ++ d ++ drop (Z.to_nat (off + zlen d)) l) = zlen l.
Proof.
  intros. rewrite !zlen_app, zlen_take, zlen_drop. pose proof (zlen_nonneg d). lia.
Qed.

(** Reading back what was written. *)
Lemma rd_wr_range {A} (l : list A) off (d : list A) :
  0 <= off -> off + zlen d <= zlen l ->
  take (length d) (drop (Z.to_nat off)
    (take (Z.to_nat off) l ++ d ++ drop (Z.to_nat (off + zlen d)) l)) = d.
Proof.
  intros H0 H1. rewrite drop_app_length'.
  - by rewrite take_app_length.
  - rewrite length_take. unfold zlen in H1. lia.
Qed.

Lemma uwrap_range w x : 0 <= w -> 0 <= uwrap w x < 2 ^ w.
Proof. intros. apply Z.mod_pos_bound. lia. Qed.

Lemma uwrap_small w x : 0 <= x < 2 ^ w -> uwrap w x = x.
Proof. intros. by apply Z.mod_small. Qed.

Lemma u8_range x : 0 <= u8 x < 256.
Proof. apply (uwrap_range 8). lia. Qed.
Lemma u16_range x : 0 <= u16 x < 65536.
Proof. apply (uwrap_range 16). lia. Qed.
Lemma u32_range x : 0 <= u32 x < 4294967296.
Proof. apply (uwrap_range 32). lia. Qed.
Lemma u64_range x : 0 <= u64 x < 2 ^ 64.
Proof. apply (uwrap_range 64). lia. Qed.

Lemma u8_small x : 0 <= x < 256 -> u8 x = x.
Proof. intros. by apply uwrap_small. Qed.
Lemma u16_small x : 0 <= x < 65536 -> u16 x = x.
Proof. intros. by apply uwrap_small. Qed.
Lemma u32_small x : 0 <= x < 4294967296 -> u32 x = x.
Proof. intros. by apply uwrap_small. Qed.
Lemma u64_small x : 0 <= x < 2 ^ 64 -> u64 x = x.
Proof. intros. by apply uwrap_small. Qed.

Lemma swrap_small w x : 0 < w -> - 2 ^ (w - 1) <= x < 2 ^ (w - 1) -> swrap w x = x.
Proof.
  intros Hw Hx. unfold swrap.
  assert (2 ^ w = 2 * 2 ^ (w - 1)) as E.
  { rewrite <- Z.pow_succ_r by lia. f_equal. lia. }
  destruct (decide (0 <= x)).
  - rewrite Z.mod_small by lia. destruct (Z.ltb_spec x (2 ^ (w - 1))); lia.
  - replace (x mod 2 ^ w) with (x + 2 ^ w).
    + destruct (Z.ltb_spec (x + 2 ^ w) (2 ^ (w - 1))); lia.
    + rewrite <- (Z.mod_add x 1) by lia. rewrite Z.mod_small; lia.
Qed.

Lemma i32_small x : - 2147483648 <= x < 2147483648 -> i32 x = x.
Proof. intros. apply swrap_small; lia. Qed.

Lemma swrap_uwrap w x : 0 < w -> swrap w (uwrap w x) = swrap w x.
Proof. intros. unfold swrap, uwrap. rewrite Z.mod_mod; [done|]. lia. Qed.

(** ** Sums over lists *)

Section Sum.
Context {A : Type} (f : A -> Z).

Definition lsum (l : list A) : Z := foldr (fun x n => f x + n) 0 l.
#[global] Arguments lsum : simpl never.

Lemma lsum_cons x l : lsum (x :: l) = f x + lsum l.
Proof. done. Qed.
Lemma lsum_app l k : lsum (l ++ k) = lsum l + lsum k.
Proof. induction l as [|x l IH]; [done|]. cbn [app]. rewrite !lsum_cons, IH. lia. Qed.
Lemma lsum_Permutation l k : l ≡ₚ k -> lsum l = lsum k.
Proof. induction 1; rewrite ?lsum_cons; lia. Qed.
Lemma lsum_insert l i x y : l !! i = Some x -> lsum (<[i := y]> l) = lsum l - f x + f y.
Proof.
  revert i. induction l as [|z l IH]; intros [|i] E; simplify_eq/=; rewrite !lsum_cons; [lia|]. rewrite (IH i E). lia.
Qed.
Lemma lsum_nonneg l : (forall x, x ∈ l -> 0 <= f x) -> 0 <= lsum l.
Proof.
  induction l as [|x l IH]; intros Hf; [done|]. rewrite lsum_cons. pose proof (Hf x (list_elem_of_here _ _)).
  enough (0 <= lsum l) by lia. apply IH. intros y Hy. apply Hf. by constructor.
Qed.
End Sum.

(** Rewrites the comparison under an [if] into hypotheses, one case each. *)
Ltac bcase :=
  match goal with
  | |- context [if ?b then _ else _] => destruct b eqn:?
  | |- context [match ?b with true => _ | false => _ end] => destruct b eqn:?
  end.

(** Turns boolean comparisons of hypotheses into arithmetic facts. *)
Ltac breflect :=
  repeat match goal with
  | H : (_ && _)%bool = true |- _ => apply andb_true_iff in H; destruct H
  | H : (_ || _)%bool = false |- _ => apply orb_false_iff in H; destruct H
  | H : negb _ = true |- _ => apply negb_true_iff in H
  | H : negb _ = false |- _ => apply negb_false_iff in H
  | H : (_ <? _) = true |- _ => apply Z.ltb_lt in H
  | H : (_ <? _) = false |- _ => apply Z.ltb_ge in H
  | H : (_ <=? _) = true |- _ => apply Z.leb_le in H
  | H : (_ <=? _) = false |- _ => apply Z.leb_gt in H
  | H : (_ =? _) = true |- _ => apply Z.eqb_eq in H
  | H : (_ =? _) = false |- _ => apply Z.eqb_neq in H
  | H : (_ >? _) = true |- _ => apply Z.gtb_lt in H
  | H : (_ >=? _) = true |- _ => apply Z.geb_le in H
  end.

(** One symbolic-execution step of a [wp] goal. *)
Ltac wp_step :=
  lazymatch goal with
  | |- wp (Ret _) _ => apply wp_ret
  | |- wp (mret _) _ => apply wp_ret
  | |- wp (_ ≫= _) _ => apply wp_bind
  | |- wp (rd _ _) _ => apply wp_rd; [|intros]
  | |- wp (wr _ _ _) _ => apply wp_wr
  end.
