(* ===== verification/Cutils.v ===== *)
(** * Helpers of [cutils.c] and [cutils.h]

    [Module Bits]: integer helpers, byte order, unaligned access, [from_hex].
    [Module CStr]: the zero-terminated string helpers [pstrcpy], [pstrcat],
    [strstart] and [has_suffix].  A [char *] into an object is the object (a
    list of cells) and an offset; every access is bounds-checked. *)

From S2P Require Import Prelude.

Module Bits.

Definition max_int (a b : Z) : Z := if b <? a then a else b.
Definition min_int (a b : Z) : Z := if a <? b then a else b.
Definition max_uint32 (a b : Z) : Z := if b <? a then a else b.
Definition min_uint32 (a b : Z) : Z := if a <? b then a else b.
Definition max_int64 (a b : Z) : Z := if b <? a then a else b.
Definition min_int64 (a b : Z) : Z := if a <? b then a else b.

(** The compiler intrinsics used by the two branches of [#ifdef _MSC_VER];
    all are meaningful for [a <> 0] only. *)
Definition builtin_clz (w a : Z) : Z := w - 1 - Z.log2 a.
Definition builtin_ctz (a : Z) : Z := Z.log2 (Z.land a (- a)).
Definition BitScanReverse (a : Z) : Z := Z.log2 a.
Definition BitScanForward (a : Z) : Z := Z.log2 (Z.land a (- a)).

Definition clz32 (msvc : bool) (a : Z) : Z :=
  if msvc then Z.lxor 31 (BitScanReverse a) else builtin_clz 32 a.
Definition clz64 (msvc : bool) (a : Z) : Z :=
  if msvc then (if a =? 0 then 64 else 63 - BitScanReverse a) else builtin_clz 64 a.
Definition ctz32 (msvc : bool) (a : Z) : Z :=
  if msvc then Z.lxor 31 (BitScanForward a) else builtin_ctz a.
Definition ctz64 (msvc : bool) (a : Z) : Z :=
  if msvc then (if a =? 0 then 64 else BitScanForward a) else builtin_ctz a.

(** Little-endian layout of the packed accessors ([WORDS_BIGENDIAN] is
    undefined). *)
Fixpoint le_bytes (n : nat) (v : Z) : list Z :=
  match n with
  | O => []
  | S n' => v mod 256 :: le_bytes n' (v / 256)
  end.
Fixpoint le_val (l : list Z) : Z :=
  match l with
  | [] => 0
  | b :: l' => b + 256 * le_val l'
  end.

Definition get_u8 (tab : list Z) (p : Z) : outcome Z := rd tab p.
Definition get_i8 (tab : list Z) (p : Z) : outcome Z := i8 <$> rd tab p.
Definition get_u16 (tab : list Z) (p : Z) : outcome Z := le_val <$> rd_range tab p 2.
Definition get_i16 (tab : list Z) (p : Z) : outcome Z := i16 <$> get_u16 tab p.
Definition get_u32 (tab : list Z) (p : Z) : outcome Z := le_val <$> rd_range tab p 4.
Definition get_i32 (tab : list Z) (p : Z) : outcome Z := i32 <$> get_u32 tab p.
Definition get_u64 (tab : list Z) (p : Z) : outcome Z := le_val <$> rd_range tab p 8.
Definition get_i64 (tab : list Z) (p : Z) : outcome Z := i64 <$> get_u64 tab p.
Definition put_u8 (tab : list Z) (p val : Z) : outcome (list Z) := wr tab p (u8 val).
Definition put_u16 (tab : list Z) (p val : Z) : outcome (list Z) := wr_range tab p (le_bytes 2 val).
Definition put_u32 (tab : list Z) (p val : Z) : outcome (list Z) := wr_range tab p (le_bytes 4 val).
Definition put_u64 (tab : list Z) (p val : Z) : outcome (list Z) := wr_range tab p (le_bytes 8 val).

Definition bswap16 (x : Z) : Z := u16 (Z.lor (Z.shiftr x 8) (Z.shiftl x 8)).
Definition bswap32 (v : Z) : Z :=
  Z.lor (Z.lor (Z.shiftr (Z.land v 0xff000000) 24) (Z.shiftr (Z.land v 0x00ff0000) 8))
        (Z.lor (u32 (Z.shiftl (Z.land v 0x0000ff00) 8)) (u32 (Z.shiftl (Z.land v 0x000000ff) 24))).
Definition bswap64 (v : Z) : Z :=
  Z.lor (Z.lor (Z.lor (Z.shiftr (Z.land v (Z.shiftl 0xff 56)) 56)
                      (Z.shiftr (Z.land v (Z.shiftl 0xff 48)) 40))
               (Z.lor (Z.shiftr (Z.land v (Z.shiftl 0xff 40)) 24)
                      (Z.shiftr (Z.land v (Z.shiftl 0xff 32)) 8)))
        (Z.lor (Z.lor (u64 (Z.shiftl (Z.land v (Z.shiftl 0xff 24)) 8))
                      (u64 (Z.shiftl (Z.land v (Z.shiftl 0xff 16)) 24)))
               (Z.lor (u64 (Z.shiftl (Z.land v (Z.shiftl 0xff 8)) 40))
                      (u64 (Z.shiftl (Z.land v 0xff) 56)))).

Definition from_hex (c : Z) : Z :=
  if (ch "0" <=? c) && (c <=? ch "9") then c - ch "0"
  else if (ch "A" <=? c) && (c <=? ch "F") then c - ch "A" + 10
  else if (ch "a" <=? c) && (c <=? ch "f") then c - ch "a" + 10
  else -1.

(** ** Lemmas *)

Lemma le_bytes_length n v : length (le_bytes n v) = n.
Proof. revert v. induction n; intros; simpl; auto. Qed.

Lemma le_bytes_range n v : Forall (fun b => 0 <= b < 256) (le_bytes n v).
Proof.
  revert v. induction n as [|n IH]; intros v; simpl; constructor; auto.
  apply Z.mod_pos_bound. lia.
Qed.

Lemma le_val_bytes n v : le_val (le_bytes n v) = v mod 256 ^ Z.of_nat n.
Proof.
  revert v. induction n as [|n IH]; intros v.
  - simpl. by rewrite Z.mod_1_r.
  - simpl le_bytes. simpl le_val. rewrite IH, Nat2Z.inj_succ, Z.pow_succ_r by lia.
    rewrite Z.rem_mul_r by lia. lia.
Qed.

Lemma le_val_range l :
  Forall (fun b => 0 <= b < 256) l -> 0 <= le_val l < 256 ^ zlen l.
Proof.
  induction 1 as [|b l Hb Hl IH]; [done|]. simpl le_val.
  rewrite zlen_cons, Z.pow_add_r by (pose proof (zlen_nonneg l); lia). lia.
Qed.

Lemma le_bytes_val l :
  Forall (fun b => 0 <= b < 256) l -> le_bytes (length l) (le_val l) = l.
Proof.
  induction 1 as [|b l Hb Hl IH]; [done|]. simpl. f_equal.
  - rewrite (Z.mul_comm 256), Z.mod_add by lia. by apply Z.mod_small.
  - by rewrite (Z.mul_comm 256), Z.div_add, Z.div_small by lia.
Qed.

Lemma zlen_le_bytes n v : zlen (le_bytes n v) = Z.of_nat n.
Proof. unfold zlen. by rewrite le_bytes_length. Qed.

(** Reading a [n]-byte field after writing it. *)
Lemma get_put_le (n : nat) tab p v tab' :
  wr_range tab p (le_bytes n v) = Ret tab' ->
  le_val <$> rd_range tab' p (Z.of_nat n) = Ret (v mod 256 ^ Z.of_nat n).
Proof.
  intros H. assert (0 <= p /\ p + Z.of_nat n <= zlen tab) as [Hp Hl].
  { unfold wr_range in H. rewrite zlen_le_bytes in H.
    destruct ((0 <=? p) && (p + Z.of_nat n <=? zlen tab)) eqn:E; [|done]. breflect. lia. }
  rewrite wr_range_ok in H by (rewrite ?zlen_le_bytes; lia). injection H as <-.
  rewrite rd_range_ok; [|lia|lia|rewrite zlen_wr_range; rewrite ?zlen_le_bytes; lia].
  rewrite Nat2Z.id. rewrite <- (le_bytes_length n v) at 1.
  rewrite rd_wr_range by (rewrite ?zlen_le_bytes; lia). cbn [fmap outcome_fmap].
  by rewrite le_val_bytes.
Qed.

Lemma land_neg_log2 a : 0 < a ->
  exists k q, a = 2 ^ k * (2 * q + 1) /\ 0 <= k /\ Z.log2 (Z.land a (- a)) = k.
Proof.
  destruct a as [|p|p]; try lia. intros _. induction p as [p IH|p IH|].
  - exists 0, (Zpos p). split; [lia|]. split; [lia|].
    assert (Z.land (Z.pos p~1) (- Z.pos p~1) = 1) as ->; [|done].
    apply Z.bits_inj'. intros i Hi. rewrite Z.land_spec.
    destruct (decide (i = 0)) as [->|Hne]; [done|].
    rewrite Z.bits_opp by lia.
    replace (Z.pred (Z.pos p~1)) with (2 * Zpos p) by lia.
    replace (Z.pos p~1) with (2 * Zpos p + 1) by lia.
    replace i with (Z.succ (i - 1)) by lia.
    rewrite Z.testbit_odd_succ, Z.testbit_even_succ by lia.
    rewrite andb_negb_r. symmetry. replace 1 with (2 * 0 + 1) by lia.
    rewrite Z.testbit_odd_succ by lia. apply Z.testbit_0_l.
  - destruct IH as (k & q & E & Hk & Hl). exists (k + 1), q.
    rewrite Pos2Z.inj_xO. split; [rewrite Z.pow_add_r by lia; lia|]. split; [lia|].
    rewrite <- Z.mul_opp_r.
    replace (Z.land (2 * Z.pos p) (2 * - Z.pos p)) with (2 * Z.land (Z.pos p) (- Z.pos p)).
    + rewrite Z.log2_double; [lia|].
      assert (0 <= Z.land (Z.pos p) (- Z.pos p)) by (apply Z.land_nonneg; lia).
      assert (Z.land (Z.pos p) (- Z.pos p) <> 0); [|lia].
      intros Hz. apply (f_equal (fun z => Z.testbit z k)) in Hz.
      rewrite Z.land_spec, Z.testbit_0_l, Z.bits_opp, E in Hz by lia.
      assert (Z.testbit (2 ^ k * (2 * q + 1)) k = true) as Ht.
      { replace k with (0 + k) at 2 by lia. rewrite (Z.mul_comm (2 ^ k)).
        rewrite <- Z.shiftl_mul_pow2, Z.shiftl_spec by lia.
        replace (0 + k - k) with 0 by lia. apply Z.testbit_odd_0. }
      rewrite Ht in Hz. simpl in Hz. apply negb_false_iff in Hz.
      rewrite (Z.testbit_true _ k) in Hz by lia.
      assert (Z.pred (2 ^ k * (2 * q + 1)) / 2 ^ k = 2 * q) as Hd.
      { symmetry. apply Z.div_unique with (2 ^ k - 1); [left; lia|]. lia. }
      rewrite Hd, Z.mul_comm, Z.mod_mul in Hz; lia.
    + rewrite <- !(Z.mul_comm _ 2). change 2 with (2 ^ 1). rewrite <- !Z.shiftl_mul_pow2 by lia.
      by rewrite Z.shiftl_land.
  - exists 0, 0. done.
Qed.

(** The GCC branch of [ctz32]/[ctz64] counts the trailing zero bits. *)
Lemma builtin_ctz_spec a : 0 < a ->
  exists q, a = 2 ^ builtin_ctz a * (2 * q + 1) /\ 0 <= builtin_ctz a.
Proof.
  intros H. destruct (land_neg_log2 a H) as (k & q & E & Hk & Hl).
  exists q. unfold builtin_ctz. rewrite Hl. done.
Qed.

Lemma lxor_31 i : 0 <= i < 32 -> Z.lxor 31 i = 31 - i.
Proof.
  intros H.
  assert (exists n, i = Z.of_nat n /\ (n < 32)%nat) as (n & -> & Hn).
  { exists (Z.to_nat i). lia. }
  do 32 (destruct n as [|n]; [reflexivity|]). lia.
Qed.

(** A bit of a shifted, masked piece of [bswap32]/[bswap64]. *)
Lemma testbit_small v i : 0 <= v < 2 ^ i -> Z.testbit v i = false.
Proof.
  intros H. destruct (decide (i < 0)); [by apply Z.testbit_neg_r|].
  rewrite Z.testbit_false by lia. by rewrite Z.div_small by lia.
Qed.

Lemma le_val_4 v : 0 <= v < 2 ^ 32 ->
  v = v mod 256 + 256 * (v / 256 mod 256) + 65536 * (v / 65536 mod 256) + 16777216 * (v / 16777216).
Proof. intros. Z.div_mod_to_equations. lia. Qed.

(** Byte [k] of [v] isolated by a mask, and moved. *)
Lemma mask_byte v k : 0 <= k -> Z.land v (Z.shiftl 255 (8 * k)) = Z.shiftl (v / 2 ^ (8 * k) mod 256) (8 * k).
Proof.
  intros Hk. apply Z.bits_inj'. intros i Hi.
  rewrite Z.land_spec, !Z.shiftl_spec by lia.
  destruct (decide (i < 8 * k)).
  - rewrite !(Z.testbit_neg_r _ (i - 8 * k)) by lia. apply andb_false_r.
  - change 256 with (2 ^ 8). change 255 with (Z.ones 8).
    destruct (decide (i - 8 * k < 8)).
    + rewrite Z.ones_spec_low, Z.mod_pow2_bits_low, andb_true_r by lia.
      rewrite Z.div_pow2_bits by lia. f_equal. lia.
    + rewrite Z.ones_spec_high, Z.mod_pow2_bits_high by lia. apply andb_false_r.
Qed.

Lemma byte_range x : 0 <= x mod 256 < 256.
Proof. apply Z.mod_pos_bound. lia. Qed.

(** Disjoint fields: [lor] is addition. *)
Lemma lor_add a b n : 0 <= n -> 0 <= a < 2 ^ n -> Z.lor a (b * 2 ^ n) = a + b * 2 ^ n.
Proof.
  intros Hn Ha. rewrite <- Z.add_lor_land, <- (Z.add_0_r (Z.lor _ _)) at 1. f_equal.
  symmetry. apply Z.bits_inj'. intros i Hi. rewrite Z.land_spec, Z.testbit_0_l.
  rewrite <- Z.shiftl_mul_pow2, Z.shiftl_spec by lia.
  destruct (decide (i < n)).
  - rewrite (Z.testbit_neg_r _ (i - n)) by lia. apply andb_false_r.
  - rewrite (testbit_small a i); [done|].
    split; [lia|]. eapply Z.lt_le_trans; [apply Ha|]. apply Z.pow_le_mono_r; lia.
Qed.

Lemma mask_right v k m : 0 <= m <= 8 * k ->
  Z.shiftr (Z.land v (Z.shiftl 255 (8 * k))) m = (v / 2 ^ (8 * k) mod 256) * 2 ^ (8 * k - m).
Proof.
  intros H. rewrite mask_byte by lia. rewrite Z.shiftr_shiftl_l by lia.
  by rewrite Z.shiftl_mul_pow2 by lia.
Qed.

Lemma mask_left v k m : 0 <= k -> 0 <= m ->
  Z.shiftl (Z.land v (Z.shiftl 255 (8 * k))) m = (v / 2 ^ (8 * k) mod 256) * 2 ^ (8 * k + m).
Proof.
  intros Hk H. rewrite mask_byte by lia. rewrite Z.shiftl_shiftl by lia.
  by rewrite Z.shiftl_mul_pow2 by lia.
Qed.

Ltac name_bytes :=
  repeat match goal with
  | |- context [?x mod 256] =>
      pose proof (byte_range x); let b := fresh "b" in set (b := x mod 256) in *; clearbody b
  end.

Lemma bswap16_rev v : 0 <= v < 2 ^ 16 -> bswap16 v = le_val (rev (le_bytes 2 v)).
Proof.
  intros H. unfold bswap16, u16, uwrap.
  rewrite Z.shiftr_div_pow2, Z.shiftl_mul_pow2 by lia.
  rewrite lor_add by (Z.div_mod_to_equations; lia). simpl. Z.div_mod_to_equations. lia.
Qed.

Lemma bswap32_rev v : bswap32 v = le_val (rev (le_bytes 4 v)).
Proof.
  unfold bswap32, u32, uwrap.
  change 0xff000000 with (Z.shiftl 255 (8 * 3)). change 0x00ff0000 with (Z.shiftl 255 (8 * 2)).
  change 0x0000ff00 with (Z.shiftl 255 (8 * 1)). change 0x000000ff with (Z.shiftl 255 (8 * 0)).
  rewrite !mask_right, !mask_left by lia.
  simpl le_bytes. rewrite !Z.div_div by lia. simpl rev. simpl le_val.
  change (2 ^ (8 * 3)) with (256 * 256 * 256). change (2 ^ (8 * 2)) with (256 * 256).
  change (2 ^ (8 * 1)) with 256. change (2 ^ (8 * 0)) with 1. rewrite Z.div_1_r.
  name_bytes. rewrite !(Z.mod_small (_ * _)) by lia.
  rewrite (Z.mul_1_r _ : _ * 2 ^ (8 * 3 - 24) = _).
  rewrite lor_add by lia. rewrite (lor_add (b1 * _) b2) by lia.
  replace (b1 * 2 ^ (8 * 1 + 8) + b2 * 2 ^ (8 * 0 + 24))
    with ((b1 + b2 * 256) * 2 ^ 16) by lia.
  rewrite lor_add by lia. lia.
Qed.

Lemma lor_fields n a c : 0 <= n -> 0 <= a < 2 ^ n -> c mod 2 ^ n = 0 -> Z.lor a c = a + c.
Proof.
  intros Hn Ha Hc. apply Z.div_exact in Hc; [|lia]. rewrite Hc, (Z.mul_comm (2 ^ n)).
  by apply lor_add.
Qed.

Ltac no_lor t := lazymatch t with context [Z.lor] => fail | _ => idtac end.
Ltac lor_sum n :=
  match goal with
  | |- context [Z.lor ?a ?c] =>
      no_lor a; no_lor c;
      rewrite (lor_fields n a c) by (try (Z.div_mod_to_equations; lia); lia)
  end.

Lemma bswap64_rev v : bswap64 v = le_val (rev (le_bytes 8 v)).
Proof.
  unfold bswap64, u64, uwrap.
  change 56 with (8 * 7) at 1. change 48 with (8 * 6) at 1. change 40 with (8 * 5) at 2.
  change 32 with (8 * 4). change 24 with (8 * 3) at 2. change 16 with (8 * 2).
  change (Z.shiftl 255 8) with (Z.shiftl 255 (8 * 1)).
  change (Z.land v 255) with (Z.land v (Z.shiftl 255 (8 * 0))).
  rewrite !mask_right, !mask_left by lia.
  simpl le_bytes. rewrite !Z.div_div by lia. simpl rev. simpl le_val.
  repeat match goal with
  | |- context [2 ^ ?k] => let n := eval vm_compute in (2 ^ k) in change (2 ^ k) with n
  end.
  repeat match goal with
  | |- context [Z.pos ?j * Z.pos ?k] =>
      let n := eval vm_compute in (Z.pos j * Z.pos k) in change (Z.pos j * Z.pos k) with n
  end.
  rewrite Z.div_1_r. name_bytes. rewrite !(Z.mod_small (_ * _)) by lia.
  lor_sum 8. lor_sum 24. lor_sum 16. lor_sum 40. lor_sum 56. lor_sum 48. lor_sum 32. lia.
Qed.

Lemma log2_lt a w : 0 < a < 2 ^ w -> 0 <= Z.log2 a < w.
Proof. intros H. split; [apply Z.log2_nonneg|]. apply Z.log2_lt_pow2; lia. Qed.

Lemma ctz_lt a w : 0 < a < 2 ^ w -> 0 <= builtin_ctz a < w.
Proof.
  intros H. destruct (builtin_ctz_spec a) as (q & E & Hk); [lia|]. split; [done|].
  assert (0 <= w).
  { destruct (decide (w < 0)); [|lia]. rewrite Z.pow_neg_r in H; lia. }
  apply (Z.pow_lt_mono_r_iff 2); [lia|lia|].
  assert (0 < 2 ^ builtin_ctz a) by (apply Z.pow_pos_nonneg; lia).
  assert (0 < 2 * q + 1).
  { apply (Z.mul_pos_cancel_l (2 ^ builtin_ctz a)); [done|]. rewrite <- E. lia. }
  nia.
Qed.

Lemma byte_swap_involutive n v :
  le_val (rev (le_bytes n (le_val (rev (le_bytes n v))))) = v mod 256 ^ Z.of_nat n.
Proof.
  rewrite <- (le_bytes_length n v) at 1. rewrite <- length_rev at 1.
  rewrite le_bytes_val by (apply Forall_rev, le_bytes_range).
  by rewrite rev_involutive, le_val_bytes.
Qed.



(** C40: the MSVC branch of [ctz32] computes [31 - ctz]: it differs from the
    other branch, which counts trailing zeros, on every non-zero argument. *)
Theorem ctz32_msvc_wrong a :
  0 < a < 2 ^ 32 ->
  (exists q, a = 2 ^ ctz32 false a * (2 * q + 1)) /\
  ctz32 true a = 31 - ctz32 false a /\ ctz32 true a <> ctz32 false a.
Proof.
  intros H. unfold ctz32, BitScanForward. fold (builtin_ctz a).
  pose proof (ctz_lt a 32 H). rewrite lxor_31 by lia.
  destruct (builtin_ctz_spec a) as (q & E & _); [lia|].
  split; [by exists q|]. split; lia.
Qed.

Lemma ctz32_msvc_wrong_witness :
  (exists q, 8 = 2 ^ ctz32 false 8 * (2 * q + 1)) /\
  ctz32 true 8 = 31 - ctz32 false 8 /\ ctz32 true 8 <> ctz32 false 8.
Proof. apply (ctz32_msvc_wrong 8). lia. Defined.

(** [bswap16], [bswap32] and [bswap64] reverse the bytes of the
    little-endian layout and are their own inverses. *)
Theorem bswap_correct v :
  (0 <= v < 2 ^ 16 -> bswap16 v = le_val (rev (le_bytes 2 v)) /\ bswap16 (bswap16 v) = v) /\
  (0 <= v < 2 ^ 32 -> bswap32 v = le_val (rev (le_bytes 4 v)) /\ bswap32 (bswap32 v) = v) /\
  (0 <= v < 2 ^ 64 -> bswap64 v = le_val (rev (le_bytes 8 v)) /\ bswap64 (bswap64 v) = v).
Proof.
  split; [|split]; intros H.
  - assert (0 <= bswap16 v < 2 ^ 16) by apply u16_range.
    split; [by apply bswap16_rev|]. rewrite bswap16_rev, (bswap16_rev v) by lia.
    rewrite byte_swap_involutive. by apply Z.mod_small.
  - split; [by apply bswap32_rev|]. rewrite !bswap32_rev, byte_swap_involutive.
    by apply Z.mod_small.
  - split; [by apply bswap64_rev|]. rewrite !bswap64_rev, byte_swap_involutive.
    by apply Z.mod_small.
Qed.

Lemma bswap_correct_witness :
  bswap32 0x11223344 = le_val (rev (le_bytes 4 0x11223344)) /\ bswap32 (bswap32 0x11223344) = 0x11223344.
Proof. apply (proj1 (proj2 (bswap_correct 0x11223344))). lia. Defined.

(** A field written with [put_u16]/[put_u32]/[put_u64] reads back as the
    value modulo the field's width, and as the signed value with the signed
    accessors. *)
Theorem put_get_roundtrip tab tab' p v :
  (put_u16 tab p v = Ret tab' -> get_u16 tab' p = Ret (u16 v) /\ get_i16 tab' p = Ret (i16 v)) /\
  (put_u32 tab p v = Ret tab' -> get_u32 tab' p = Ret (u32 v) /\ get_i32 tab' p = Ret (i32 v)) /\
  (put_u64 tab p v = Ret tab' -> get_u64 tab' p = Ret (u64 v) /\ get_i64 tab' p = Ret (i64 v)).
Proof.
  unfold put_u16, put_u32, put_u64, get_i16, get_i32, get_i64, get_u16, get_u32, get_u64.
  split; [|split]; intros H; apply get_put_le in H.
  - change (Z.of_nat 2) with 2 in H. rewrite H. cbn [fmap outcome_fmap]. split; [done|].
    f_equal. apply (swrap_uwrap 16). lia.
  - change (Z.of_nat 4) with 4 in H. rewrite H. cbn [fmap outcome_fmap]. split; [done|].
    f_equal. apply (swrap_uwrap 32). lia.
  - change (Z.of_nat 8) with 8 in H. rewrite H. cbn [fmap outcome_fmap]. split; [done|].
    f_equal. apply (swrap_uwrap 64). lia.
Qed.

Lemma put_get_roundtrip_witness :
  get_u16 [9; 0xfe; 0xff; 9] 1 = Ret (u16 (-2)) /\ get_i16 [9; 0xfe; 0xff; 9] 1 = Ret (i16 (-2)).
Proof. apply (proj1 (put_get_roundtrip [9; 9; 9; 9] [9; 0xfe; 0xff; 9] 1 (-2))). reflexivity. Defined.

End Bits.

Module CStr.

(** [strlen(mem + p)] *)
Definition strlen (mem : list Z) (p : Z) : outcome Z :=
  loop (S (length mem))
    (fun i => c ← rd mem (p + i); if c =? 0 then Ret (inr i) else Ret (inl (i + 1))) 0.

(** [memcmp(a + p, b + q, n) == 0] *)
Definition memcmp_eq (a : list Z) (p : Z) (b : list Z) (q n : Z) : outcome bool :=
  x ← rd_range a p n; y ← rd_range b q n; Ret (bool_decide (x = y)).

(** [pstrcpy(mem + buf, buf_size, s)]; the result is the updated object. *)
Definition pstrcpy (mem : list Z) (buf buf_size : Z) (s : list Z) : outcome (list Z) :=
  if buf_size <=? 0 then Ret mem
  else
    loop (S (length s))
      (fun '(q, i, m) =>
         c ← rd s i;
         if (c =? 0) || (buf + buf_size - 1 <=? q)
         then m' ← wr m q 0; Ret (inr m')
         else m' ← wr m q c; Ret (inl (q + 1, i + 1, m')))
      (buf, 0, mem).

Definition pstrcat (buf : list Z) (buf_size : Z) (s : list Z) : outcome (list Z) :=
  len ← strlen buf 0;
  if len <? buf_size then pstrcpy buf len (buf_size - len) s else Ret buf.

(** [strstart(str, val, &ptr)]: [Some p] is a return value of 1 with [*ptr]
    at offset [p] of [str]. *)
Definition strstart (s val : list Z) : outcome (option Z) :=
  loop (S (length val))
    (fun p =>
       q ← rd val p;
       if q =? 0 then Ret (inr (Some p))
       else c ← rd s p; if c =? q then Ret (inl (p + 1)) else Ret (inr None)) 0.

Definition has_suffix (s suffix : list Z) : outcome bool :=
  len ← strlen s 0;
  slen ← strlen suffix 0;
  if slen <=? len then memcmp_eq s (len - slen) suffix 0 slen else Ret false.

(** ** Specification and lemmas *)

(** A list of non-zero bytes, and the C string it makes. *)
Definition nonzero (t : list Z) : Prop := Forall (fun c => c <> 0) t.
Definition cstr (t : list Z) : list Z := t ++ [0].

Lemma lookup_mid {A} (pre t post : list A) x :
  (pre ++ t ++ x :: post) !! (length pre + length t)%nat = Some x.
Proof. rewrite app_assoc, lookup_app_r, length_app by (rewrite length_app; lia). by rewrite Nat.sub_diag. Qed.

Lemma rd_app_mid {A} (pre post : list A) x i :
  i = zlen pre -> rd (pre ++ x :: post) i = Ret x.
Proof.
  intros ->. apply rd_Ret. split; [apply zlen_nonneg|].
  unfold zlen. rewrite Nat2Z.id. by apply list_lookup_middle.
Qed.

Lemma wr_app_mid {A} (pre post : list A) x y i :
  i = zlen pre -> wr (pre ++ x :: post) i y = Ret (pre ++ y :: post).
Proof.
  intros ->. rewrite wr_ok.
  - f_equal. unfold zlen. rewrite Nat2Z.id. rewrite insert_app_r_alt by lia.
    by rewrite Nat.sub_diag.
  - rewrite zlen_app, zlen_cons. pose proof (zlen_nonneg pre). pose proof (zlen_nonneg post). lia.
Qed.

Lemma rd_split {A} (pre t t1 t2 post : list A) c i :
  t = t1 ++ c :: t2 -> i = zlen pre + zlen t1 -> rd (pre ++ t ++ post) i = Ret c.
Proof.
  intros -> ->. rewrite <- app_assoc, (app_assoc pre). simpl. apply rd_app_mid. by rewrite zlen_app.
Qed.

Lemma rd_split0 {A} (t t1 t2 post : list A) c i :
  t = t1 ++ c :: t2 -> i = zlen t1 -> rd (t ++ post) i = Ret c.
Proof. intros. by apply (rd_split [] t t1 t2 post c i). Qed.

Lemma nonzero_app_inv t t' : nonzero (t ++ t') -> nonzero t /\ nonzero t'.
Proof. apply Forall_app. Qed.

Lemma strlen_spec (pre t post : list Z) :
  nonzero t -> strlen (pre ++ cstr t ++ post) (zlen pre) = Ret (zlen t).
Proof.
  intros Hnz. unfold cstr. rewrite <- app_assoc. simpl.
  assert (forall t1 t2 fuel, t = t1 ++ t2 -> (length t2 < fuel)%nat ->
    loop fuel (fun i => c ← rd (pre ++ t ++ 0 :: post) (zlen pre + i);
       if c =? 0 then Ret (inr i) else Ret (inl (i + 1))) (zlen t1) = Ret (zlen t)) as H.
  { intros t1 t2. revert t1. induction t2 as [|c t2 IH]; intros t1 fuel Ht Hf;
      (destruct fuel as [|fuel]; [simpl in Hf; lia|]); simpl.
    - rewrite app_nil_r in Ht. subst t1.
      rewrite (app_assoc pre t), (rd_app_mid (pre ++ t)) by (by rewrite zlen_app). done.
    - assert (nonzero (c :: t2)) as Hc by (apply (nonzero_app_inv t1); by rewrite <- Ht).
      apply Forall_cons in Hc as [Hc _].
      rewrite (rd_split pre t t1 t2 (0 :: post) c) by done. simpl.
      rewrite (proj2 (Z.eqb_neq c 0) Hc).
      replace (zlen t1 + 1) with (zlen (t1 ++ [c])) by (rewrite zlen_app; done).
      rewrite (IH (t1 ++ [c])); [done| |simpl in Hf; lia].
      by rewrite <- app_assoc. }
  apply (H [] t); [done|]. rewrite !length_app. simpl. lia.
Qed.

Lemma strlen_cstr t : nonzero t -> strlen (cstr t) 0 = Ret (zlen t).
Proof. intros H. pose proof (strlen_spec [] t [] H) as E. by rewrite app_nil_r in E. Qed.

(** What [pstrcpy] leaves in the destination: the longest prefix that fits,
    zero-terminated, and the rest of the object unchanged. *)
Lemma pstrcpy_spec (pre dst post t : list Z) rest :
  nonzero t -> dst <> [] ->
  let n := Nat.min (length t) (length dst - 1) in
  pstrcpy (pre ++ dst ++ post) (zlen pre) (zlen dst) (cstr t ++ rest) =
    Ret (pre ++ (cstr (take n t) ++ drop (S n) dst) ++ post).
Proof.
  intros Hnz Hd n. unfold pstrcpy.
  destruct (Z.leb_spec (zlen dst) 0) as [Hz|_].
  { destruct dst; [done|]. rewrite zlen_cons in Hz. pose proof (zlen_nonneg dst). lia. }
  replace (cstr t ++ rest) with (t ++ 0 :: rest) by (unfold cstr; by rewrite <- app_assoc).
  set (body := fun '(q, i, m) => _).
  assert (forall (done_ d : list Z) (t2 : list Z) fuel,
    t = done_ ++ t2 -> d <> [] -> (length t2 < fuel)%nat ->
    zlen dst = zlen done_ + zlen d ->
    let k := Nat.min (length t2) (length d - 1) in
    loop fuel body (zlen pre + zlen done_, zlen done_, pre ++ done_ ++ d ++ post) =
      Ret (pre ++ done_ ++ (cstr (take k t2) ++ drop (S k) d) ++ post)) as H.
  { intros done_ d t2. revert done_ d. induction t2 as [|c t2 IH];
      intros done_ d fuel Ht Hd' Hf Hl k; (destruct fuel as [|fuel]; [simpl in Hf; lia|]);
      destruct d as [|x d]; try done; simpl.
    - rewrite app_nil_r in Ht. subst done_. rewrite rd_app_mid by done. simpl.
      rewrite (app_assoc pre t), wr_app_mid by (by rewrite zlen_app).
      simpl. by rewrite <- app_assoc.
    - assert (c <> 0) as Hc.
      { assert (nonzero (c :: t2)) as H by (apply (nonzero_app_inv done_); by rewrite <- Ht).
        by apply Forall_cons in H as [? _]. }
      rewrite (rd_split0 t done_ t2 (0 :: rest) c) by done.
      simpl. rewrite (proj2 (Z.eqb_neq c 0) Hc). simpl.
      rewrite zlen_cons in Hl.
      destruct (Z.leb_spec (zlen pre + zlen dst - 1) (zlen pre + zlen done_)) as [Hq|Hq].
      + assert (d = []) as -> by (apply nil_length_inv; unfold zlen in *; lia).
        rewrite (app_assoc pre done_), wr_app_mid by (by rewrite zlen_app).
        simpl. by rewrite <- app_assoc.
      + destruct d as [|y d]; [rewrite zlen_nil in Hl; lia|].
        rewrite (app_assoc pre done_), wr_app_mid by (by rewrite zlen_app). simpl.
        replace (zlen pre + zlen done_ + 1) with (zlen pre + zlen (done_ ++ [c]))
          by (rewrite zlen_app, zlen_cons, zlen_nil; lia).
        replace (zlen done_ + 1) with (zlen (done_ ++ [c])) by (rewrite zlen_app; done).
        replace ((pre ++ done_) ++ c :: y :: d ++ post)
          with (pre ++ (done_ ++ [c]) ++ (y :: d) ++ post) by (by rewrite <- !app_assoc).
        rewrite (IH (done_ ++ [c]) (y :: d) fuel); try done.
        * simpl. rewrite Nat.sub_0_r. unfold cstr. by rewrite <- !app_assoc.
        * by rewrite <- app_assoc.
        * simpl in Hf. lia.
        * rewrite zlen_app, zlen_cons, zlen_nil. lia. }
  specialize (H [] dst t (S (length (t ++ 0 :: rest)))).
  change (zlen []) with 0 in H. rewrite Z.add_0_r in H. apply H; try done.
  rewrite !length_app. simpl. lia.
Qed.

Lemma strstart_spec (t v : list Z) (r1 r2 : list Z) :
  nonzero t -> nonzero v ->
  strstart (cstr t ++ r1) (cstr v ++ r2) =
    Ret (if decide (v `prefix_of` t) then Some (zlen v) else None).
Proof.
  intros Ht Hv. unfold strstart, cstr. rewrite <- !app_assoc. cbn [app].
  assert (forall d t2 v2 fuel, t = d ++ t2 -> v = d ++ v2 -> (length v2 < fuel)%nat ->
    loop fuel (fun p => q ← rd (v ++ 0 :: r2) p;
       if q =? 0 then Ret (inr (Some p))
       else c ← rd (t ++ 0 :: r1) p; if c =? q then Ret (inl (p + 1)) else Ret (inr None)) (zlen d)
    = Ret (if decide (v2 `prefix_of` t2) then Some (zlen v) else None)) as H.
  { intros d t2 v2. revert d t2. induction v2 as [|c v2 IH]; intros d t2 fuel Et Ev Hf;
      (destruct fuel as [|fuel]; [simpl in Hf; lia|]); cbn [loop].
    - rewrite app_nil_r in Ev. subst d. rewrite (rd_app_mid v r2 0 (zlen v)) by done. cbn [mbind outcome_bind].
      try (rewrite decide_True by apply prefix_nil); done.
    - assert (c <> 0) as Hc.
      { assert (nonzero (c :: v2)) as H by (apply (nonzero_app_inv d); by rewrite <- Ev).
        by apply Forall_cons in H as [? _]. }
      rewrite (rd_split0 v d v2 (0 :: r2) c) by done. cbn [mbind outcome_bind].
      rewrite (proj2 (Z.eqb_neq c 0) Hc). cbn [mbind outcome_bind].
      destruct t2 as [|c' t2].
      + rewrite app_nil_r in Et. subst d. rewrite (rd_app_mid t r1 0 (zlen t)) by done. cbn [mbind outcome_bind].
        destruct (Z.eqb_spec 0 c); [lia|].
        rewrite decide_False; [done|]. intros [k Hk]. done.
      + rewrite (rd_split0 t d t2 (0 :: r1) c') by done. cbn [mbind outcome_bind].
        destruct (Z.eqb_spec c' c) as [->|Hne].
        * replace (zlen d + 1) with (zlen (d ++ [c])) by (rewrite zlen_app; done).
          rewrite (IH (d ++ [c]) t2).
          -- destruct (decide (v2 `prefix_of` t2)) as [Hp|Hp].
             ++ rewrite decide_True; [done|]. by apply prefix_cons.
             ++ rewrite decide_False; [done|]. intros Hp'. by apply prefix_cons_inv_2 in Hp'.
          -- by rewrite <- app_assoc.
          -- by rewrite <- app_assoc.
          -- simpl in Hf. lia.
        * rewrite decide_False; [done|]. intros Hp. apply prefix_cons_inv_1 in Hp. done. }
  apply (H [] t v (S (length (v ++ 0 :: r2)))); try done. rewrite length_app. simpl. lia.
Qed.

Lemma has_suffix_spec (t v : list Z) (r1 r2 : list Z) :
  nonzero t -> nonzero v ->
  has_suffix (cstr t ++ r1) (cstr v ++ r2) = Ret (bool_decide (v `suffix_of` t)).
Proof.
  intros Ht Hv. unfold has_suffix.
  rewrite (strlen_spec [] t r1 Ht : strlen (cstr t ++ r1) 0 = _).
  rewrite (strlen_spec [] v r2 Hv : strlen (cstr v ++ r2) 0 = _). cbn [mbind outcome_bind].
  unfold zlen. destruct (Z.leb_spec (Z.of_nat (length v)) (Z.of_nat (length t))) as [Hle|Hgt].
  - unfold memcmp_eq, cstr. rewrite <- !app_assoc.
    rewrite !rd_range_ok by (unfold zlen; rewrite ?length_app; lia). cbn [mbind outcome_bind].
    rewrite Nat2Z.id, <- Nat2Z.inj_sub, Nat2Z.id by lia. change (Z.to_nat 0) with 0%nat.
    rewrite drop_0, take_app_length, drop_app_le by lia.
    rewrite take_app_length' by (rewrite length_drop; lia).
    f_equal. apply bool_decide_ext. split.
    + intros E. exists (take (length t - length v) t). rewrite <- E at 2. by rewrite take_drop.
    + intros [k ->]. rewrite length_app. rewrite Nat.add_sub. by rewrite drop_app_length.
  - f_equal. symmetry. apply bool_decide_eq_false_2. intros [k ->].
    rewrite length_app in Hgt. lia.
Qed.

(** C38: [pstrcat] on a buffer of [buf_size] cells that holds the string [t]
    leaves [t] followed by as much of [s] as fits, zero-terminated, never
    writes outside the buffer and keeps its size. *)
Theorem pstrcat_correct (t tail s rest : list Z) :
  nonzero t -> nonzero s ->
  let buf := cstr t ++ tail in
  let n := Nat.min (length s) (length tail) in
  pstrcat buf (zlen buf) (cstr s ++ rest) = Ret (t ++ cstr (take n s) ++ drop n tail) /\
  zlen (t ++ cstr (take n s) ++ drop n tail) = zlen buf.
Proof.
  intros Ht Hs buf n. split.
  - unfold pstrcat. subst buf. rewrite (strlen_spec [] t tail Ht : strlen (cstr t ++ tail) 0 = _).
    cbn [mbind outcome_bind].
    replace (cstr t ++ tail) with (t ++ 0 :: tail) by (unfold cstr; by rewrite <- app_assoc).
    rewrite zlen_app, zlen_cons. pose proof (zlen_nonneg tail).
    destruct (Z.ltb_spec (zlen t) (zlen t + (1 + zlen tail))); [|lia].
    pose proof (pstrcpy_spec t (0 :: tail) [] s rest Hs) as E.
    rewrite app_nil_r in E. rewrite zlen_cons in E.
    replace (zlen t + (1 + zlen tail) - zlen t) with (1 + zlen tail) by lia.
    rewrite E by done. cbn [length]. rewrite Nat.sub_succ, Nat.sub_0_r.
    by rewrite app_nil_r.
  - subst buf. unfold cstr, zlen. rewrite !length_app, length_take, length_drop. simpl.
    subst n. lia.
Qed.

Lemma pstrcat_correct_witness :
  pstrcat (cstr (str "ab") ++ [7; 7]) 5 (cstr (str "xyz") ++ []) = Ret (str "abxy" ++ [0]) /\
  zlen (str "abxy" ++ [0]) = 5.
Proof.
  apply (pstrcat_correct (str "ab") [7; 7] (str "xyz") []); repeat constructor; done.
Defined.

(** [strstart] answers whether [val] is a prefix of [str] and where the
    rest starts; [has_suffix] answers whether it is a suffix. *)
Theorem strstart_has_suffix_correct (t v r1 r2 : list Z) :
  nonzero t -> nonzero v ->
  strstart (cstr t ++ r1) (cstr v ++ r2) =
    Ret (if decide (v `prefix_of` t) then Some (zlen v) else None) /\
  has_suffix (cstr t ++ r1) (cstr v ++ r2) = Ret (bool_decide (v `suffix_of` t)).
Proof. intros Ht Hv. split; [by apply strstart_spec|by apply has_suffix_spec]. Qed.

Lemma strstart_has_suffix_correct_witness :
  strstart (cstr (str "foobar") ++ []) (cstr (str "foo") ++ []) = Ret (Some 3) /\
  has_suffix (cstr (str "foobar") ++ []) (cstr (str "foo") ++ []) = Ret false.
Proof.
  apply (strstart_has_suffix_correct (str "foobar") (str "foo") [] []); repeat constructor; done.
Defined.

End CStr.
