(* ===== verification/DynBuf.v ===== *)
(** * Dynamic buffers ([DynBuf] of [cutils.c], [dbuf_insert] of [libregexp.c])

    The allocator is a parameter ([Allocator]): [realloc_func] is supplied by
    the embedder ([js_realloc_rt] or the C library).  A buffer keeps its whole
    allocated region, so the scratch space beyond [size] is part of the state. *)

From S2P Require Import Prelude Cutils.

(** The contract of [realloc(ptr, n * cell)] for an object of cells: failure,
    or an object of [n] cells that keeps the old contents; no object is larger
    than [PTRDIFF_MAX] bytes. *)
Class Allocator := {
  realloc_func : Z -> list Z -> Z -> option (list Z);
  realloc_length : forall cell p n q, 0 <= n -> realloc_func cell p n = Some q -> zlen q = n;
  realloc_keeps : forall cell p n q, zlen p <= n -> realloc_func cell p n = Some q ->
    p `prefix_of` q;
  realloc_max : forall cell p n q, realloc_func cell p n = Some q -> n * cell < 2 ^ 63;
}.

(** An allocator that refuses requests of more than [limit] bytes; used to run
    the model on concrete inputs. *)
#[program] Definition bounded_allocator (limit : Z) : Allocator := {|
  realloc_func cell p n :=
    if (n * cell <=? limit) && (n * cell <? 2 ^ 63)
    then Some (take (Z.to_nat n) (p ++ replicate (Z.to_nat n) 0)) else None |}.
Next Obligation.
  intros limit cell p n q Hn H. simpl in H. destruct ((n * cell <=? limit) && (n * cell <? 2 ^ 63)) eqn:E; [|done].
  injection H as <-. rewrite zlen_take, zlen_app. unfold zlen. rewrite length_replicate. lia.
Qed.
Next Obligation.
  intros limit cell p n q Hn H. simpl in H. destruct ((n * cell <=? limit) && (n * cell <? 2 ^ 63)) eqn:E; [|done].
  injection H as <-. rewrite take_app_ge by (unfold zlen in Hn; lia).
  by apply prefix_app_r.
Qed.
Next Obligation.
  intros limit cell p n q H. simpl in H.
  destruct ((n * cell <=? limit) && (n * cell <? 2 ^ 63)) eqn:E; [|done]. breflect. lia.
Qed.

Record DynBuf := mkDynBuf {
  buf : list Z;             (* the allocated region *)
  size : Z;
  allocated_size : Z;
  error : bool;             (* an allocation failed *)
  has_realloc : bool;       (* realloc_func != NULL *)
}.

Definition set_error (s : DynBuf) : DynBuf :=
  mkDynBuf (buf s) (size s) (allocated_size s) true (has_realloc s).
Definition set_buf (s : DynBuf) (b : list Z) : DynBuf :=
  mkDynBuf b (size s) (allocated_size s) (error s) (has_realloc s).
Definition set_size (s : DynBuf) (n : Z) : DynBuf :=
  mkDynBuf (buf s) n (allocated_size s) (error s) (has_realloc s).

(** [dbuf_init2(s, opaque, realloc_func)]; a null [realloc_func] is replaced
    by the default one. *)
Definition dbuf_init2 : DynBuf := mkDynBuf [] 0 0 false true.
Definition dbuf_init : DynBuf := dbuf_init2.

Section Ops.
Context `{Allocator}.

(** Return value (0 or -1) and new state. *)
Definition dbuf_realloc (s : DynBuf) (new_size : Z) : outcome (Z * DynBuf) :=
  if allocated_size s <? new_size then
    if error s then Ret (-1, s)
    else
      let size_ := u64 (allocated_size s * 3) / 2 in
      let new_size := if new_size <? size_ then size_ else new_size in
      if has_realloc s then
        match realloc_func 1 (buf s) new_size with
        | None => Ret (-1, set_error s)
        | Some new_buf =>
            Ret (0, mkDynBuf new_buf (size s) new_size (error s) (has_realloc s))
        end
      else Fault NullDeref
  else Ret (0, s).

Definition dbuf_write (s : DynBuf) (offset : Z) (data : list Z) : outcome (Z * DynBuf) :=
  let end_ := u64 (offset + zlen data) in
  '(r, s) ← dbuf_realloc s end_;
  if r =? 0 then
    b ← wr_range (buf s) offset data;
    let s := set_buf s b in
    Ret (0, if size s <? end_ then set_size s end_ else s)
  else Ret (-1, s).

Definition dbuf_put (s : DynBuf) (data : list Z) : outcome (Z * DynBuf) :=
  '(r, s) ← (if allocated_size s <? u64 (size s + zlen data)
             then dbuf_realloc s (u64 (size s + zlen data)) else Ret (0, s));
  if r =? 0 then
    b ← wr_range (buf s) (size s) data;
    Ret (0, set_size (set_buf s b) (u64 (size s + zlen data)))
  else Ret (-1, s).

Definition dbuf_put_self (s : DynBuf) (offset len : Z) : outcome (Z * DynBuf) :=
  '(r, s) ← (if allocated_size s <? u64 (size s + len)
             then dbuf_realloc s (u64 (size s + len)) else Ret (0, s));
  if r =? 0 then
    data ← rd_range (buf s) offset len;
    b ← wr_range (buf s) (size s) data;
    Ret (0, set_size (set_buf s b) (u64 (size s + len)))
  else Ret (-1, s).

Definition dbuf_putc (s : DynBuf) (c : Z) : outcome (Z * DynBuf) := dbuf_put s [u8 c].

(** [dbuf_putstr(s, str)] *)
Definition dbuf_putstr (s : DynBuf) (cs : list Z) : outcome (Z * DynBuf) :=
  len ← CStr.strlen cs 0;
  data ← rd_range cs 0 len;
  dbuf_put s data.

Definition dbuf_put_u16 (s : DynBuf) (val : Z) : outcome (Z * DynBuf) :=
  dbuf_put s (Bits.le_bytes 2 val).
Definition dbuf_put_u32 (s : DynBuf) (val : Z) : outcome (Z * DynBuf) :=
  dbuf_put s (Bits.le_bytes 4 val).
Definition dbuf_put_u64 (s : DynBuf) (val : Z) : outcome (Z * DynBuf) :=
  dbuf_put s (Bits.le_bytes 8 val).

(** [dbuf_printf]: [out] is the text [vsnprintf] formats; the second call
    writes at most [allocated_size - size] bytes, the last one zero. *)
Definition dbuf_printf (s : DynBuf) (out : list Z) : outcome (Z * DynBuf) :=
  let len := zlen out in
  if len <? 128 then dbuf_put s out
  else
    '(r, s) ← dbuf_realloc s (u64 (size s + len + 1));
    if r =? 0 then
      let room := allocated_size s - size s in
      b ← wr_range (buf s) (size s) (take (Z.to_nat (room - 1)) out ++ [0]);
      Ret (0, set_size (set_buf s b) (u64 (size s + len)))
    else Ret (-1, s).

(** [dbuf_free]: the region is released and the whole struct zeroed, the
    [realloc_func] pointer included. *)
Definition dbuf_free (s : DynBuf) : DynBuf := mkDynBuf [] 0 0 false false.

Definition dbuf_error (s : DynBuf) : bool := error s.
Definition dbuf_set_error (s : DynBuf) : DynBuf := set_error s.

(** [dbuf_insert] of [libregexp.c]: open a gap of [len] bytes at [pos]. *)
Definition dbuf_insert (s : DynBuf) (pos len : Z) : outcome (Z * DynBuf) :=
  '(r, s) ← dbuf_realloc s (u64 (size s + len));
  if r =? 0 then
    data ← rd_range (buf s) pos (size s - pos);
    b ← wr_range (buf s) (pos + len) data;
    Ret (0, set_size (set_buf s b) (u64 (size s + len)))
  else Ret (-1, s).

(** ** Invariant and abstraction *)

(** The bytes a client has written. *)
Definition dbuf_data (s : DynBuf) : list Z := take (Z.to_nat (size s)) (buf s).

Record wf (s : DynBuf) : Prop := {
  wf_region : zlen (buf s) = allocated_size s;
  wf_size : 0 <= size s <= allocated_size s;
  wf_bound : allocated_size s < 2 ^ 63;
  wf_live : has_realloc s = true;
}.

Lemma dbuf_init_wf : wf dbuf_init2 /\ dbuf_data dbuf_init2 = [].
Proof. split; [split|]; done. Qed.

Lemma zlen_data s : wf s -> zlen (dbuf_data s) = size s.
Proof. intros [Hr Hs _ _]. unfold dbuf_data. rewrite zlen_take. lia. Qed.

(** The region as the data and what lies beyond. *)
Lemma dbuf_split s d : wf s -> dbuf_data s = d ->
  exists rest, buf s = d ++ rest /\ zlen rest = allocated_size s - zlen d.
Proof.
  intros Hw Hd. pose proof (zlen_data s Hw) as Hz. pose proof Hw as [Hr Hs _ _].
  assert (buf s = d ++ drop (Z.to_nat (size s)) (buf s)) as E by (rewrite <- Hd; symmetry; apply take_drop).
  eexists. split; [exact E|]. rewrite E in Hr. rewrite zlen_app in Hr. lia.
Qed.
Lemma dbuf_join s d rest : wf s -> zlen d = size s -> zlen (d ++ rest) = allocated_size s ->
  wf (set_buf s (d ++ rest)) /\ dbuf_data (set_buf s (d ++ rest)) = d.
Proof.
  intros [Hr Hs Hb Hl] Hd Hz. split; [split; done|]. unfold dbuf_data. cbn [buf size set_buf].
  apply take_app_length'. unfold zlen in *. lia.
Qed.

(** What a [realloc] step leaves unchanged. *)
Definition same_data (s s' : DynBuf) : Prop :=
  wf s' /\ dbuf_data s' = dbuf_data s /\ size s' = size s.

Lemma dbuf_realloc_spec s n :
  wf s -> 0 <= n ->
  wp (dbuf_realloc s n) (fun '(r, s') =>
    same_data s s' /\
    ((r = 0 /\ n <= allocated_size s' /\ error s' = error s /\
      (allocated_size s < n -> allocated_size s * 3 < 2 ^ 64 ->
       allocated_size s * 3 / 2 <= allocated_size s')) \/
     (r = -1 /\ error s' = true /\ allocated_size s < n))).
Proof.
  intros [Hr Hs Hb Hl] Hn. unfold dbuf_realloc, same_data.
  destruct (Z.ltb_spec (allocated_size s) n) as [Hlt|Hge]; simpl.
  2:{ split; [done|]. left. repeat split; lia. }
  destruct (error s) eqn:Ee; [split; [done|right; auto]|]. rewrite Hl.
  set (k := u64 (allocated_size s * 3) / 2).
  set (m := if n <? k then k else n).
  assert (Hm : n <= m /\ k <= m) by (subst m; destruct (Z.ltb_spec n k); lia).
  destruct (realloc_func 1 (buf s) m) as [q|] eqn:E; simpl.
  - assert (zlen q = m) as Hq by (eapply realloc_length; [|done]; lia).
    pose proof (realloc_max _ _ _ _ E) as Hmax.
    assert (zlen (buf s) <= m) as Hkp by lia.
    destruct (realloc_keeps _ _ _ _ Hkp E) as [rest ->].
    split; [split; [split; simpl; lia || done|]|].
    + split; [|done]. unfold dbuf_data. simpl. rewrite take_app_le; [done|].
      unfold zlen in Hr. lia.
    + left. repeat split; simpl; try lia. intros _ Hw. subst k.
      rewrite u64_small in Hm by lia. lia.
  - split; [done|]. right. repeat split; done || lia.
Qed.

(** Writing [d] at [size] within the region appends [d] to the data. *)
Lemma write_end s d b :
  wf s -> size s + zlen d <= allocated_size s ->
  wr_range (buf s) (size s) d = Ret b ->
  let s' := set_size (set_buf s b) (size s + zlen d) in
  wf s' /\ dbuf_data s' = dbuf_data s ++ d.
Proof.
  intros [Hr Hs Hb Hl] Hd Hw s'. rewrite wr_range_ok in Hw by lia. injection Hw as <-.
  pose proof (zlen_nonneg d). split; [split; simpl; try lia; try done|].
  - rewrite zlen_wr_range; lia.
  - unfold dbuf_data. simpl. rewrite app_assoc, take_app_length'; [done|].
    rewrite length_app, length_take. unfold zlen in *. lia.
Qed.

Lemma dbuf_put_spec s d :
  wf s -> size s + zlen d < 2 ^ 64 ->
  wp (dbuf_put s d) (fun '(r, s') =>
    wf s' /\
    ((r = 0 /\ dbuf_data s' = dbuf_data s ++ d /\ error s' = error s) \/
     (r = -1 /\ dbuf_data s' = dbuf_data s /\ error s' = true))).
Proof.
  intros Hwf Hlt. pose proof (zlen_nonneg d). unfold dbuf_put.
  pose proof (wf_size s Hwf). rewrite !u64_small by lia.
  apply wp_bind.
  apply (wp_mono _ (fun '(r, s1) => same_data s s1 /\
    ((r = 0 /\ size s + zlen d <= allocated_size s1 /\ error s1 = error s) \/ (r = -1 /\ error s1 = true)))).
  { destruct (Z.ltb_spec (allocated_size s) (size s + zlen d)).
    - eapply wp_mono; [apply dbuf_realloc_spec; [done|lia]|]. intros [r s1]. naive_solver.
    - simpl. split; [done|]. left. split; [done|]. split; [lia|done]. }
  intros [r s1] [(Hwf1 & Hdat & Hsz) [(-> & Hroom & He)|(-> & He)]]; simpl.
  - rewrite <- Hsz in Hroom.
    destruct (wr_range (buf s1) (size s1) d) as [b|f] eqn:Ew.
    + simpl. rewrite u64_small by lia.
      destruct (write_end s1 d b Hwf1 Hroom Ew) as [Hwf' Hd']. split; [done|].
      left. rewrite Hd', Hdat. auto.
    + rewrite wr_range_ok in Ew; [done| |]; destruct Hwf1; lia.
  - split; [done|]. right. auto.
Qed.

(** A sequence of [dbuf_put] calls whose results are ignored, as the emitters
    of [libregexp.c] and the bytecode writer do. *)
Fixpoint dbuf_put_all (s : DynBuf) (ds : list (list Z)) : outcome DynBuf :=
  match ds with
  | [] => Ret s
  | d :: ds' => '(_, s) ← dbuf_put s d; dbuf_put_all s ds'
  end.

Lemma dbuf_put_all_spec ds : forall s,
  wf s -> size s + zlen (concat ds) < 2 ^ 64 ->
  wp (dbuf_put_all s ds) (fun s' =>
    wf s' /\ (error s = true -> error s' = true) /\
    (error s' = false -> dbuf_data s' = dbuf_data s ++ concat ds)).
Proof.
  induction ds as [|d ds IH]; intros s Hwf Hlt; simpl.
  - split; [done|]. split; [done|]. by rewrite app_nil_r.
  - simpl in Hlt. rewrite zlen_app in Hlt. pose proof (zlen_nonneg (concat ds)).
    apply wp_bind. eapply wp_mono; [apply dbuf_put_spec; [done|lia]|].
    intros [r s1] [Hwf1 Hcase].
    assert (size s1 + zlen (concat ds) < 2 ^ 64) as Hlt1.
    { rewrite <- (zlen_data s1 Hwf1). pose proof (zlen_data s Hwf).
      destruct Hcase as [(_ & -> & _)|(_ & -> & _)]; rewrite ?zlen_app; pose proof (zlen_nonneg d); lia. }
    eapply wp_mono; [apply (IH s1 Hwf1 Hlt1)|]. simpl. intros s2 (Hwf2 & Hst & Hd2).
    split; [done|]. destruct Hcase as [(_ & Hd & He)|(_ & Hd & He)].
    + rewrite He in Hst. split; [done|]. intros E. rewrite (Hd2 E), Hd. by rewrite <- app_assoc.
    + split; [auto|]. intros E. rewrite (Hst He) in E. done.
Qed.

Lemma dbuf_insert_spec s pos len :
  wf s -> 0 <= pos <= size s -> 0 <= len -> size s + len < 2 ^ 64 ->
  wp (dbuf_insert s pos len) (fun '(r, s') =>
    wf s' /\
    ((r = 0 /\ error s' = error s /\ exists gap, zlen gap = len /\
      dbuf_data s' = take (Z.to_nat pos) (dbuf_data s) ++ gap ++ drop (Z.to_nat pos) (dbuf_data s)) \/
     (r = -1 /\ dbuf_data s' = dbuf_data s /\ error s' = true))).
Proof.
  intros Hwf Hp Hl Hlt. unfold dbuf_insert. rewrite u64_small by lia. apply wp_bind.
  eapply wp_mono; [apply dbuf_realloc_spec; [done|lia]|].
  intros [r s1] [(Hwf1 & Hdat & Hsz) [(-> & Hroom & He & _)|(-> & He & _)]]; simpl; [|naive_solver].
  assert (Hreg := wf_region s1 Hwf1). assert (Hsize := wf_size s1 Hwf1).
  rewrite rd_range_ok by lia. simpl.
  set (tl := take (Z.to_nat (size s1 - pos)) (drop (Z.to_nat pos) (buf s1))).
  assert (zlen tl = size s1 - pos) as Htl by (subst tl; rewrite zlen_take, zlen_drop; lia).
  rewrite wr_range_ok by lia. simpl. rewrite Hsz, u64_small by lia.
  assert (wf_b := wf_bound s1 Hwf1). assert (wf_l := wf_live s1 Hwf1).
  split; [split; simpl; try lia; try done; rewrite zlen_wr_range; lia|].
  left. split; [done|]. split; [done|].
  exists (take (Z.to_nat len) (drop (Z.to_nat pos) (buf s1))).
  split; [rewrite zlen_take, zlen_drop; lia|].
  rewrite <- Hdat. unfold dbuf_data. simpl.
  rewrite app_assoc, take_app_length' by (rewrite length_app, length_take; unfold zlen in *; lia).
  rewrite take_take, Nat.min_l by lia.
  rewrite app_assoc, take_take_drop, <- Z2Nat.inj_add by lia. f_equal.
  subst tl. rewrite take_drop_commute. do 2 f_equal. lia.
Qed.

(** C20: a [DynBuf] refines an append-only byte sequence.  After any sequence of
    [dbuf_put] calls whose return values are ignored the buffer is well
    formed, the error flag is sticky, and if it is clear the contents are the
    old contents followed by all the data; no call writes outside the
    allocated region. *)
Theorem dbuf_appends (s : DynBuf) (ds : list (list Z)) :
  wf s -> size s + zlen (concat ds) < 2 ^ 64 ->
  exists s', dbuf_put_all s ds = Ret s' /\ wf s' /\
    (error s = true -> error s' = true) /\
    (error s' = false -> dbuf_data s' = dbuf_data s ++ concat ds).
Proof. intros Hwf Hlt. apply wp_elim, dbuf_put_all_spec; done. Qed.

(** C37: [dbuf_insert] opens a gap of [len] bytes at [pos] and keeps every
    byte, or reports the allocation failure and changes nothing. *)
Theorem dbuf_insert_correct s pos len :
  wf s -> 0 <= pos <= size s -> 0 <= len -> size s + len < 2 ^ 64 ->
  exists r s', dbuf_insert s pos len = Ret (r, s') /\ wf s' /\
    ((r = 0 /\ error s' = error s /\ exists gap, zlen gap = len /\
      dbuf_data s' = take (Z.to_nat pos) (dbuf_data s) ++ gap ++ drop (Z.to_nat pos) (dbuf_data s)) \/
     (r = -1 /\ dbuf_data s' = dbuf_data s /\ error s' = true)).
Proof.
  intros Hwf Hp Hl Hlt. pose proof (dbuf_insert_spec s pos len Hwf Hp Hl Hlt) as Hw.
  apply wp_elim in Hw as ([r s'] & E & Hw). exists r, s'. auto.
Qed.

End Ops.

(** Overlapping scratch use: a buffer of five bytes, two of them written. *)
Definition sample : DynBuf := mkDynBuf [1; 2; 0; 0; 0] 2 5 false true.

Lemma sample_wf : @wf sample.
Proof. split; simpl; done || lia. Qed.

Lemma dbuf_appends_witness :
  exists s', @dbuf_put_all (bounded_allocator 16) sample [[3; 4; 5]; [6; 7]] = Ret s' /\ @wf s' /\
    (error sample = true -> error s' = true) /\
    (error s' = false -> dbuf_data s' = [1; 2] ++ [3; 4; 5; 6; 7]).
Proof.
  apply (@dbuf_appends (bounded_allocator 16) sample [[3; 4; 5]; [6; 7]] sample_wf). reflexivity.
Defined.

Lemma dbuf_insert_correct_witness :
  exists r s', @dbuf_insert (bounded_allocator 16) sample 1 2 = Ret (r, s') /\ @wf s' /\
    ((r = 0 /\ error s' = error sample /\ exists gap, zlen gap = 2 /\
      dbuf_data s' = [1] ++ gap ++ [2]) \/
     (r = -1 /\ dbuf_data s' = dbuf_data sample /\ error s' = true)).
Proof.
  apply (@dbuf_insert_correct (bounded_allocator 16) sample 1 2 sample_wf); simpl; lia.
Defined.
