(* ===== verification/Utf8.v ===== *)
(** * UTF-8 encoding and decoding ([unicode_to_utf8], [unicode_from_utf8] of
    [cutils.c])

    Code points have up to 31 bits and sequences up to six bytes, as in the
    code.  The encoder's result is the list of bytes stored in [buf] (its
    length is the C return value); the decoder reads the object [mem] at [p]
    and returns the code point and the new [*pp], or [None] for -1. *)

From S2P Require Import Prelude Cutils.

Definition UTF8_CHAR_LEN_MAX : Z := 6.

Definition utf8_lead (c sh tag : Z) : Z := u8 (Z.lor (Z.shiftr c sh) tag).
Definition utf8_cont (c sh : Z) : Z := u8 (Z.lor (Z.land (Z.shiftr c sh) 0x3f) 0x80).

Definition unicode_to_utf8 (c : Z) : list Z :=
  if c <? 0x80 then [u8 c]
  else if c <? 0x800 then [utf8_lead c 6 0xc0; utf8_cont c 0]
  else if c <? 0x10000 then [utf8_lead c 12 0xe0; utf8_cont c 6; utf8_cont c 0]
  else if c <? 0x00200000 then
    [utf8_lead c 18 0xf0; utf8_cont c 12; utf8_cont c 6; utf8_cont c 0]
  else if c <? 0x04000000 then
    [utf8_lead c 24 0xf8; utf8_cont c 18; utf8_cont c 12; utf8_cont c 6; utf8_cont c 0]
  else if c <? 0x80000000 then
    [utf8_lead c 30 0xfc; utf8_cont c 24; utf8_cont c 18; utf8_cont c 12; utf8_cont c 6;
     utf8_cont c 0]
  else [].

Definition utf8_min_code : list Z := [0x80; 0x800; 0x10000; 0x00200000; 0x04000000].
Definition utf8_first_code_mask : list Z := [0x1f; 0xf; 0x7; 0x3; 0x1].

(** The [switch(c)]: the number of continuation bytes, [None] for [default]. *)
Definition utf8_seq_len (c : Z) : option Z :=
  if (0xc0 <=? c) && (c <=? 0xdf) then Some 1
  else if (0xe0 <=? c) && (c <=? 0xef) then Some 2
  else if (0xf0 <=? c) && (c <=? 0xf7) then Some 3
  else if (0xf8 <=? c) && (c <=? 0xfb) then Some 4
  else if (0xfc <=? c) && (c <=? 0xfd) then Some 5
  else None.

(** [for(i = 0; i < l; i++)]: accumulate [l] continuation bytes. *)
Fixpoint utf8_conts (mem : list Z) (p c : Z) (l : nat) : outcome (option (Z * Z)) :=
  match l with
  | O => Ret (Some (c, p))
  | S l' =>
      b ← rd mem p;
      if (b <? 0x80) || (0xc0 <=? b) then Ret None
      else utf8_conts mem (p + 1) (Z.lor (Z.shiftl c 6) (Z.land b 0x3f)) l'
  end.

Definition unicode_from_utf8 (mem : list Z) (p max_len : Z) : outcome (option (Z * Z)) :=
  c ← rd mem p;
  if c <? 0x80 then Ret (Some (c, p + 1))
  else
    match utf8_seq_len c with
    | None => Ret None
    | Some l =>
        if max_len - 1 <? l then Ret None
        else
          mask ← rd utf8_first_code_mask (l - 1);
          r ← utf8_conts mem (p + 1) (Z.land c mask) (Z.to_nat l);
          match r with
          | None => Ret None
          | Some (c, p') =>
              min_code ← rd utf8_min_code (l - 1);
              if c <? min_code then Ret None else Ret (Some (c, p'))
          end
    end.

(** ** Arithmetic form of the bit operations *)

Lemma land_63 x : Z.land x 0x3f = x mod 64.
Proof. apply (Z.land_ones x 6). lia. Qed.

Lemma cont_arith c sh : 0 <= c -> 0 <= sh -> utf8_cont c sh = 128 + c / 2 ^ sh mod 64.
Proof.
  intros Hc Hs. unfold utf8_cont. rewrite Z.shiftr_div_pow2, land_63 by lia.
  pose proof (Z.mod_pos_bound (c / 2 ^ sh) 64).
  rewrite (Bits.lor_add _ 2 6) by lia. rewrite u8_small; lia.
Qed.

(** A lead byte is tag plus payload when the payload fits under the tag. *)
Lemma lead_arith c sh k t : 0 <= c -> 0 <= sh -> 0 <= k <= 7 -> 0 <= t ->
  c / 2 ^ sh < 2 ^ k -> t * 2 ^ k < 256 - 2 ^ k + 1 ->
  utf8_lead c sh (t * 2 ^ k) = t * 2 ^ k + c / 2 ^ sh.
Proof.
  intros Hc Hs Hk Ht Hlt Hb. unfold utf8_lead. rewrite Z.shiftr_div_pow2 by lia.
  assert (0 <= c / 2 ^ sh) by (apply Z.div_pos; lia).
  rewrite Bits.lor_add by lia. rewrite u8_small; lia.
Qed.

Lemma acc_arith c b : 0 <= c -> Z.lor (Z.shiftl c 6) (Z.land b 0x3f) = c * 64 + b mod 64.
Proof.
  intros Hc. rewrite land_63, Z.shiftl_mul_pow2, Z.lor_comm by lia.
  pose proof (Z.mod_pos_bound b 64). rewrite Bits.lor_add by lia. lia.
Qed.

(** The value of a run of continuation bytes after the accumulator [c]. *)
Fixpoint conts_val (c : Z) (bs : list Z) : Z :=
  match bs with
  | [] => c
  | b :: bs' => conts_val (c * 64 + b mod 64) bs'
  end.

Definition is_cont (b : Z) : Prop := 0x80 <= b < 0xc0.

Lemma utf8_conts_ok bs : forall pre post c,
  Forall is_cont bs -> 0 <= c ->
  utf8_conts (pre ++ bs ++ post) (zlen pre) c (length bs) =
    Ret (Some (conts_val c bs, zlen pre + zlen bs)).
Proof.
  induction bs as [|b bs IH]; intros pre post c Hb Hc; simpl.
  - by rewrite zlen_nil, Z.add_0_r.
  - apply Forall_cons in Hb as [Hb Hbs]. rewrite CStr.rd_app_mid by done. simpl.
    unfold is_cont in Hb.
    rewrite (proj2 (Z.ltb_ge b 0x80)), (proj2 (Z.leb_gt 0xc0 b)) by lia. simpl.
    rewrite acc_arith by done.
    specialize (IH (pre ++ [b]) post (c * 64 + b mod 64)).
    rewrite <- app_assoc, zlen_app in IH. simpl in IH. change (zlen [b]) with 1 in IH.
    rewrite IH; [|done|].
    + rewrite zlen_cons. do 3 f_equal. lia.
    + pose proof (Z.mod_pos_bound b 64). lia.
Qed.

(** Conversely, a successful run read exactly such bytes. *)
Lemma utf8_conts_inv l : forall pre rest c c' p',
  utf8_conts (pre ++ rest) (zlen pre) c l = Ret (Some (c', p')) -> 0 <= c ->
  exists bs post, rest = bs ++ post /\ length bs = l /\ Forall is_cont bs /\
    c' = conts_val c bs /\ p' = zlen pre + Z.of_nat l.
Proof.
  induction l as [|l IH]; intros pre rest c c' p' H Hc; cbn [utf8_conts] in H.
  - injection H as <- <-. exists [], rest. repeat split; [constructor|lia].
  - destruct rest as [|b rest].
    { rewrite app_nil_r in H. destruct (rd pre (zlen pre)) eqn:E; [|done].
      apply rd_bounds in E. lia. }
    rewrite CStr.rd_app_mid in H by done. cbn [mbind outcome_bind] in H.
    destruct ((b <? 0x80) || (0xc0 <=? b)) eqn:Eb; [done|]. breflect.
    rewrite acc_arith in H by done.
    assert (0 <= c * 64 + b mod 64) as Hc' by (pose proof (Z.mod_pos_bound b 64); lia).
    specialize (IH (pre ++ [b]) rest (c * 64 + b mod 64) c' p'). rewrite <- app_assoc, zlen_app in IH.
    destruct (IH H Hc') as (bs & post & -> & Hl & Hbs & -> & ->).
    exists (b :: bs), post. split; [done|]. split; [simpl; lia|].
    split; [constructor; [unfold is_cont; lia|done]|]. split; [done|].
    change (zlen [b]) with 1. lia.
Qed.

(** Decoding a lead byte [b] with [l] continuation bytes. *)
Lemma from_utf8_lead b l mask minc bs pre post max_len :
  0x80 <= b -> utf8_seq_len b = Some l -> l <= max_len - 1 ->
  utf8_first_code_mask !! Z.to_nat (l - 1) = Some mask ->
  utf8_min_code !! Z.to_nat (l - 1) = Some minc ->
  1 <= l -> zlen bs = l -> Forall is_cont bs -> 0 <= mask ->
  minc <= conts_val (Z.land b mask) bs ->
  unicode_from_utf8 (pre ++ (b :: bs) ++ post) (zlen pre) max_len =
    Ret (Some (conts_val (Z.land b mask) bs, zlen pre + zlen (b :: bs))).
Proof.
  intros Hb Hl Hmax Hmask Hmin Hl1 Hlen Hbs Hm0 Hv. unfold unicode_from_utf8.
  cbn [app]. rewrite CStr.rd_app_mid by done. cbn [mbind outcome_bind].
  rewrite (proj2 (Z.ltb_ge b 0x80)), Hl by lia.
  rewrite (proj2 (Z.ltb_ge (max_len - 1) l)) by lia.
  rewrite (proj2 (rd_Ret utf8_first_code_mask (l - 1) mask)) by (split; [lia|done]).
  cbn [mbind outcome_bind].
  pose proof (utf8_conts_ok bs (pre ++ [b]) post (Z.land b mask) Hbs) as E.
  rewrite <- app_assoc, zlen_app in E. cbn [app] in E. change (zlen [b]) with 1 in E.
  replace (Z.to_nat l) with (length bs) by (unfold zlen in Hlen; lia).
  rewrite E by (apply Z.land_nonneg; lia). cbn [mbind outcome_bind].
  rewrite (proj2 (rd_Ret utf8_min_code (l - 1) minc)) by (split; [lia|done]).
  cbn [mbind outcome_bind]. rewrite (proj2 (Z.ltb_ge _ minc)) by lia.
  rewrite zlen_cons. do 3 f_equal. lia.
Qed.

Lemma cont_is_cont c sh : 0 <= c -> 0 <= sh -> is_cont (utf8_cont c sh).
Proof.
  intros. rewrite cont_arith by done. unfold is_cont.
  pose proof (Z.mod_pos_bound (c / 2 ^ sh) 64). lia.
Qed.

Lemma cont_payload c sh : 0 <= c -> 0 <= sh -> utf8_cont c sh mod 64 = c / 2 ^ sh mod 64.
Proof.
  intros. rewrite cont_arith by done. rewrite <- (Z.mod_add _ (-2)) by lia.
  rewrite <- (Z.mod_mod (c / 2 ^ sh) 64) at 2 by lia. f_equal. lia.
Qed.

(** One continuation byte carries six bits. *)
Lemma acc_step c sh : 0 <= c -> 0 <= sh ->
  c / 2 ^ (sh + 6) * 64 + utf8_cont c sh mod 64 = c / 2 ^ sh.
Proof.
  intros Hc Hs. rewrite cont_payload by done. rewrite Z.pow_add_r by lia.
  rewrite <- Z.div_div by lia. change (2 ^ 6) with 64.
  pose proof (Z.div_mod (c / 2 ^ sh) 64). lia.
Qed.

(** The continuation bytes of [c] after its top bits, most significant first. *)
Fixpoint conts_of (c : Z) (l : nat) : list Z :=
  match l with
  | O => []
  | S l' => utf8_cont c (6 * Z.of_nat l') :: conts_of c l'
  end.

Lemma conts_of_length c l : length (conts_of c l) = l.
Proof. induction l; simpl; auto. Qed.

Lemma conts_of_cont c l : 0 <= c -> Forall is_cont (conts_of c l).
Proof. intros. induction l; simpl; constructor; auto. apply cont_is_cont; lia. Qed.

Lemma conts_of_val c l : 0 <= c -> conts_val (c / 2 ^ (6 * Z.of_nat l)) (conts_of c l) = c.
Proof.
  intros Hc. induction l as [|l IH]; simpl; [by rewrite Z.div_1_r|].
  replace (6 * Z.of_nat (S l)) with (6 * Z.of_nat l + 6) by lia.
  rewrite acc_step by lia. done.
Qed.

(** The encoder, one line per sequence length. *)
Definition enc (l : nat) (tag c : Z) : list Z := utf8_lead c (6 * Z.of_nat l) tag :: conts_of c l.

Lemma to_utf8_enc c : 0x80 <= c < 0x80000000 ->
  exists l k t mask minc : Z,
    unicode_to_utf8 c = enc (Z.to_nat l) (t * 2 ^ k) c /\
    1 <= l <= 5 /\ k = 6 - l /\ mask = 2 ^ k - 1 /\ t = 2 ^ (l + 2) - 2 /\
    utf8_first_code_mask !! Z.to_nat (l - 1) = Some mask /\
    utf8_min_code !! Z.to_nat (l - 1) = Some minc /\
    minc <= c /\ c / 2 ^ (6 * l) < 2 ^ k /\
    (forall x, 0 <= x < 2 ^ k -> utf8_seq_len (t * 2 ^ k + x) = Some l).
Proof.
  intros Hc. unfold unicode_to_utf8.
  rewrite (proj2 (Z.ltb_ge c 0x80)) by lia.
  assert (Hseq : forall l t k x, 1 <= l <= 5 -> t = 2 ^ (l + 2) - 2 -> k = 6 - l ->
            0 <= x < 2 ^ k -> utf8_seq_len (t * 2 ^ k + x) = Some l).
  { intros l t k x Hl -> -> Hx.
    assert (l = 1 \/ l = 2 \/ l = 3 \/ l = 4 \/ l = 5) as [->|[->|[->|[->| ->]]]] by lia;
      cbn in Hx |- *; unfold utf8_seq_len; repeat (case_match; breflect; try lia; try done). }
  destruct (Z.ltb_spec c 0x800).
  { exists 1, 5, 6, 31, 0x80. repeat split; try done; try lia; [Z.div_mod_to_equations; lia|].
    intros. by apply Hseq. }
  destruct (Z.ltb_spec c 0x10000).
  { exists 2, 4, 14, 15, 0x800. repeat split; try done; try lia; [Z.div_mod_to_equations; lia|].
    intros. by apply Hseq. }
  destruct (Z.ltb_spec c 0x200000).
  { exists 3, 3, 30, 7, 0x10000. repeat split; try done; try lia; [Z.div_mod_to_equations; lia|].
    intros. by apply Hseq. }
  destruct (Z.ltb_spec c 0x4000000).
  { exists 4, 2, 62, 3, 0x200000. repeat split; try done; try lia; [Z.div_mod_to_equations; lia|].
    intros. by apply Hseq. }
  destruct (Z.ltb_spec c 0x80000000); [|lia].
  exists 5, 1, 126, 1, 0x4000000. repeat split; try done; try lia; [Z.div_mod_to_equations; lia|].
  intros. by apply Hseq.
Qed.

(** The bytes determine the value: dividing by [64^n] gives back the
    accumulator and the payloads are the base-64 digits. *)
Lemma conts_val_digits bs : forall x,
  0 <= x -> Forall is_cont bs ->
  conts_val x bs / 2 ^ (6 * zlen bs) = x /\ conts_of (conts_val x bs) (length bs) = bs /\
  0 <= conts_val x bs.
Proof.
  induction bs as [|b bs IH]; intros x Hx Hb; cbn [conts_val conts_of length].
  - change (2 ^ (6 * zlen (@nil Z))) with 1. rewrite Z.div_1_r. done.
  - apply Forall_cons in Hb as [Hb Hbs]. pose proof (Z.mod_pos_bound b 64).
    destruct (IH (x * 64 + b mod 64)) as (Hd & Hc & Hp); [lia|done|].
    pose proof (zlen_nonneg bs). split; [|split; [|done]].
    + rewrite zlen_cons. replace (6 * (1 + zlen bs)) with (6 * zlen bs + 6) by lia.
      rewrite Z.pow_add_r, <- Z.div_div by lia. rewrite Hd. change (2 ^ 6) with 64.
      rewrite Z.div_add_l, Z.div_small by lia. lia.
    + f_equal; [|done]. rewrite cont_arith by lia. fold (zlen bs). rewrite Hd.
      rewrite (Z.add_comm (x * 64)), Z.mod_add, Z.mod_mod by lia. unfold is_cont in Hb.
      Z.div_mod_to_equations. lia.
Qed.

(** C23: encoding a code point below [2^31] and decoding it gives the code
    point back and leaves the pointer just after the sequence. *)
Theorem utf8_roundtrip c pre post max_len :
  0 <= c < 0x80000000 -> zlen (unicode_to_utf8 c) <= max_len ->
  unicode_from_utf8 (pre ++ unicode_to_utf8 c ++ post) (zlen pre) max_len =
    Ret (Some (c, zlen pre + zlen (unicode_to_utf8 c))).
Proof.
  intros Hc Hmax. destruct (Z.ltb_spec c 0x80).
  - unfold unicode_to_utf8. rewrite (proj2 (Z.ltb_lt c 0x80)) by lia.
    unfold unicode_from_utf8. cbn [app]. rewrite CStr.rd_app_mid by done. cbn [mbind outcome_bind].
    rewrite u8_small, (proj2 (Z.ltb_lt c 0x80)) by lia. done.
  - destruct (to_utf8_enc c) as (l & k & t & mask & minc & E & Hl & Hk & Hm & Ht & Hmask & Hmin & Hge & Hlt & Hseq);
      [lia|]. rewrite E in Hmax |- *. unfold enc in *.
    assert (0 <= c / 2 ^ (6 * l)) by (apply Z.div_pos; lia).
    assert (t * 2 ^ k = 256 - 2 * 2 ^ k) as Htk.
    { subst t k. rewrite Z.mul_sub_distr_r, <- Z.pow_add_r by lia.
      replace (l + 2 + (6 - l)) with 8 by lia. lia. }
    assert (2 ^ 1 <= 2 ^ k <= 2 ^ 5) by (split; apply Z.pow_le_mono_r; lia).
    assert (Hlead : utf8_lead c (6 * Z.of_nat (Z.to_nat l)) (t * 2 ^ k) = t * 2 ^ k + c / 2 ^ (6 * l)).
    { rewrite Z2Nat.id by lia.
      apply lead_arith; lia. }
    rewrite Hlead in *.
    assert (Hland : Z.land (t * 2 ^ k + c / 2 ^ (6 * l)) mask = c / 2 ^ (6 * l)).
    { subst mask. rewrite <- (Z.ones_equiv k : _ = 2 ^ k - 1), Z.land_ones by lia.
      rewrite Z.add_comm, Z.mod_add by lia. apply Z.mod_small. lia. }
    pose proof (conts_of_val c (Z.to_nat l)) as Hval. rewrite Z2Nat.id in Hval by lia.
    assert (zlen (conts_of c (Z.to_nat l)) = l) as Hzl.
    { unfold zlen. rewrite conts_of_length. lia. }
    rewrite zlen_cons, Hzl in Hmax.
    rewrite (from_utf8_lead _ l mask minc); try done; [by rewrite Hland, Hval by lia|..].
    + lia.
    + apply Hseq. lia.
    + lia.
    + lia.
    + apply conts_of_cont. lia.
    + subst mask. assert (0 < 2 ^ k) by (apply Z.pow_pos_nonneg; lia). lia.
    + rewrite Hland, Hval by lia. done.
Qed.

Lemma utf8_roundtrip_witness :
  unicode_from_utf8 ([1] ++ unicode_to_utf8 0x20ac ++ [0]) 1 6 = Ret (Some (0x20ac, 4)).
Proof. apply (utf8_roundtrip 0x20ac [1] [0] 6); vm_compute; [split; congruence|congruence]. Defined.

(** The class of a code point is fixed by the bounds of its length. *)
Lemma enc_class c l k t minc :
  1 <= l <= 5 -> k = 6 - l -> t = 2 ^ (l + 2) - 2 ->
  utf8_min_code !! Z.to_nat (l - 1) = Some minc -> minc <= c ->
  c / 2 ^ (6 * l) < 2 ^ k ->
  unicode_to_utf8 c = enc (Z.to_nat l) (t * 2 ^ k) c /\ c < 0x80000000.
Proof.
  intros Hl -> -> Hmin Hge Hlt. unfold unicode_to_utf8.
  assert (l = 1 \/ l = 2 \/ l = 3 \/ l = 4 \/ l = 5) as [->|[->|[->|[->| ->]]]] by lia;
    cbn in Hmin, Hlt; injection Hmin as <-; Z.div_mod_to_equations;
    repeat (case_match; breflect; try lia; try (split; [reflexivity|lia])).
Qed.

Lemma seq_len_lead b l : utf8_seq_len b = Some l ->
  exists x, 1 <= l <= 5 /\ 0 <= x < 2 ^ (6 - l) /\ b = (2 ^ (l + 2) - 2) * 2 ^ (6 - l) + x.
Proof.
  unfold utf8_seq_len. intros H.
  repeat (case_match; breflect; simplify_eq);
    [exists (b - 0xc0)|exists (b - 0xe0)|exists (b - 0xf0)|exists (b - 0xf8)|exists (b - 0xfc)]; lia.
Qed.

(** C22: the decoder accepts only what the encoder produces: an accepted
    sequence is the encoding of the returned code point (in particular no
    overlong form is accepted), it has at most [max_len] bytes and the pointer
    moves by exactly its length. *)
Theorem utf8_decode_canonical pre rest max_len c p' :
  Forall (fun b => 0 <= b < 256) rest -> 1 <= max_len ->
  unicode_from_utf8 (pre ++ rest) (zlen pre) max_len = Ret (Some (c, p')) ->
  0 <= c < 0x80000000 /\ p' = zlen pre + zlen (unicode_to_utf8 c) /\
  zlen (unicode_to_utf8 c) <= max_len /\
  exists post, rest = unicode_to_utf8 c ++ post.
Proof.
  intros Hby Hmax H. destruct rest as [|b rest].
  { rewrite app_nil_r in H. unfold unicode_from_utf8 in H.
    destruct (rd pre (zlen pre)) eqn:E; [|done]. apply rd_bounds in E. lia. }
  apply Forall_cons in Hby as [Hb Hrest]. unfold unicode_from_utf8 in H.
  rewrite CStr.rd_app_mid in H by done. cbn [mbind outcome_bind] in H.
  destruct (Z.ltb_spec b 0x80) as [Hlow|Hhigh].
  { injection H as -> <-. unfold unicode_to_utf8. rewrite (proj2 (Z.ltb_lt c 0x80)) by lia.
    rewrite u8_small by lia. change (zlen [c]) with 1. repeat split; try lia. by exists rest. }
  destruct (utf8_seq_len b) as [l|] eqn:El; [|done].
  destruct (Z.ltb_spec (max_len - 1) l); [done|].
  destruct (seq_len_lead b l El) as (x & Hl & Hx & Eb).
  destruct (rd utf8_first_code_mask (l - 1)) as [mask|] eqn:Em; [|done].
  apply rd_Ret in Em as [_ Em]. cbn [mbind outcome_bind] in H.
  assert (mask = 2 ^ (6 - l) - 1) as ->.
  { assert (l = 1 \/ l = 2 \/ l = 3 \/ l = 4 \/ l = 5) as [->|[->|[->|[->| ->]]]] by lia;
      cbn in Em; by injection Em as <-. }
  assert (Z.land b (2 ^ (6 - l) - 1) = x) as Hland.
  { rewrite <- (Z.ones_equiv (6 - l) : _ = 2 ^ (6 - l) - 1), Z.land_ones by lia.
    rewrite Eb, Z.add_comm, Z.mod_add by lia. apply Z.mod_small. lia. }
  rewrite Hland in H.
  destruct (utf8_conts (pre ++ b :: rest) (zlen pre + 1) x (Z.to_nat l)) as [[[c1 p1]|]|] eqn:Ec; try done.
  cbn [mbind outcome_bind] in H.
  assert (pre ++ b :: rest = (pre ++ [b]) ++ rest) as Eapp by (by rewrite <- app_assoc).
  rewrite Eapp in Ec. replace (zlen pre + 1) with (zlen (pre ++ [b])) in Ec by (rewrite zlen_app; done).
  apply utf8_conts_inv in Ec as (bs & post & -> & Hlen & Hbs & -> & ->); [|lia].
  destruct (conts_val_digits bs x) as (Hd & Hco & Hp); [lia|done|].
  assert (zlen bs = l) as Hzl by (unfold zlen; lia). rewrite Hzl in Hd.
  destruct (rd utf8_min_code (l - 1)) as [minc|] eqn:Emin; [|done].
  apply rd_Ret in Emin as [_ Emin]. cbn [mbind outcome_bind] in H.
  destruct (Z.ltb_spec (conts_val x bs) minc); [done|]. injection H as <- <-.
  destruct (enc_class (conts_val x bs) l (6 - l) (2 ^ (l + 2) - 2) minc) as [Henc Hlt];
    try done; [lia|].
  assert (unicode_to_utf8 (conts_val x bs) = b :: bs) as ->.
  { rewrite Henc. unfold enc. replace (conts_of _ _) with bs by (by rewrite <- Hlen). f_equal. rewrite Z2Nat.id, Eb by lia.
    assert ((2 ^ (l + 2) - 2) * 2 ^ (6 - l) = 256 - 2 * 2 ^ (6 - l)) as Htk.
    { rewrite Z.mul_sub_distr_r, <- Z.pow_add_r by lia.
      replace (l + 2 + (6 - l)) with 8 by lia. lia. }
    assert (2 ^ 1 <= 2 ^ (6 - l) <= 2 ^ 5) by (split; apply Z.pow_le_mono_r; lia).
    pose proof (Z.pow_le_mono_r 2 1 (l + 2)). rewrite lead_arith; lia. }
  rewrite zlen_app, !(zlen_cons b), Hzl. change (zlen (@nil Z)) with 0.
  repeat split; try lia. by exists post.
Qed.

Lemma utf8_decode_canonical_witness :
  0 <= 0xe9 < 0x80000000 /\ 2 = 0 + zlen (unicode_to_utf8 0xe9) /\ zlen (unicode_to_utf8 0xe9) <= 6 /\
  exists post, [0xc3; 0xa9; 0x41] = unicode_to_utf8 0xe9 ++ post.
Proof.
  apply (utf8_decode_canonical [] [0xc3; 0xa9; 0x41] 6 0xe9 2).
  - repeat constructor; lia.
  - lia.
  - reflexivity.
Defined.
