(* ===== verification/ListHead.v ===== *)
(** * Intrusive doubly-linked lists ([list.h])

    A heap maps the address of each [struct list_head] to its two fields;
    address 0 is [NULL].  A list is a head and the elements on the circular
    chain through it. *)

From stdpp Require Import gmap.
From S2P Require Import Prelude.

Record heap := mkHeap { prevs : gmap Z Z; nexts : gmap Z Z }.

Definition ld (m : gmap Z Z) (p : Z) : outcome Z :=
  match m !! p with Some v => Ret v | None => Fault NullDeref end.
Definition get_prev (h : heap) (p : Z) : outcome Z := ld (prevs h) p.
Definition get_next (h : heap) (p : Z) : outcome Z := ld (nexts h) p.
Definition set_prev (h : heap) (p v : Z) : outcome heap :=
  _ ← get_prev h p; Ret (mkHeap (<[p := v]> (prevs h)) (nexts h)).
Definition set_next (h : heap) (p v : Z) : outcome heap :=
  _ ← get_next h p; Ret (mkHeap (prevs h) (<[p := v]> (nexts h))).

Definition init_list_head (h : heap) (head : Z) : outcome heap :=
  h ← set_prev h head head; set_next h head head.

(** [__list_add(el, prev, next)] *)
Definition list_add_between (h : heap) (el prev next : Z) : outcome heap :=
  h ← set_next h prev el;
  h ← set_prev h el prev;
  h ← set_next h el next;
  set_prev h next el.

Definition list_add (h : heap) (el head : Z) : outcome heap :=
  next ← get_next h head; list_add_between h el head next.

Definition list_add_tail (h : heap) (el head : Z) : outcome heap :=
  prev ← get_prev h head; list_add_between h el prev head.

Definition list_del (h : heap) (el : Z) : outcome heap :=
  prev ← get_prev h el;
  next ← get_next h el;
  h ← set_next h prev next;
  h ← set_prev h next prev;
  h ← set_prev h el 0;
  set_next h el 0.

Definition list_empty (h : heap) (el : Z) : outcome bool :=
  next ← get_next h el; Ret (next =? el).

(** The elements [list_for_each] visits, in order. *)
Definition list_for_each (fuel : nat) (h : heap) (head : Z) : outcome (list Z) :=
  first ← get_next h head;
  loop fuel (fun '(el, acc) =>
    if el =? head then Ret (inr acc)
    else nx ← get_next h el; Ret (inl (nx, acc ++ [el]))) (first, []).

Definition list_for_each_prev (fuel : nat) (h : heap) (head : Z) : outcome (list Z) :=
  first ← get_prev h head;
  loop fuel (fun '(el, acc) =>
    if el =? head then Ret (inr acc)
    else pv ← get_prev h el; Ret (inl (pv, acc ++ [el]))) (first, []).

(** [list_for_each_safe]: the body may change the heap at [el]; the element
    after it is read before the body runs. *)
Definition list_for_each_safe (fuel : nat) (body : heap -> Z -> outcome heap) (h : heap) (head : Z)
  : outcome heap :=
  el ← get_next h head;
  el1 ← get_next h el;
  loop fuel (fun '(el, el1, h) =>
    if el =? head then Ret (inr h)
    else h ← body h el; el2 ← get_next h el1; Ret (inl (el1, el2, h))) (el, el1, h).

(** ** Representation *)

(** The last element of [l], [a] if there is none. *)
Fixpoint lastd (a : Z) (l : list Z) : Z :=
  match l with [] => a | x :: l' => lastd x l' end.

Lemma lastd_snoc a l z : lastd a (l ++ [z]) = z.
Proof. revert a. induction l; simpl; auto. Qed.

Fixpoint chain (h : heap) (a : Z) (l : list Z) (b : Z) : Prop :=
  match l with
  | [] => nexts h !! a = Some b /\ prevs h !! b = Some a
  | x :: l' => nexts h !! a = Some x /\ prevs h !! x = Some a /\ chain h x l' b
  end.

(** [head] heads a circular list of the elements [els]. *)
Definition dll (h : heap) (head : Z) (els : list Z) : Prop :=
  chain h head els head /\ NoDup (head :: els).

(** A [struct list_head] at [p] exists. *)
Definition allocated (h : heap) (p : Z) : Prop :=
  is_Some (prevs h !! p) /\ is_Some (nexts h !! p).

Lemma chain_app h a l1 x l2 b :
  chain h a (l1 ++ x :: l2) b <-> chain h a l1 x /\ chain h x l2 b.
Proof. revert a. induction l1 as [|y l1 IH]; intros a; simpl; [tauto|]. rewrite IH. tauto. Qed.

(** A chain does not depend on the [next] field of cells it does not leave and
    the [prev] field of cells it does not enter. *)
Lemma chain_frame h h' a l b :
  (forall p, p ∈ a :: l -> nexts h' !! p = nexts h !! p) ->
  (forall p, p ∈ l ++ [b] -> prevs h' !! p = prevs h !! p) ->
  chain h a l b -> chain h' a l b.
Proof.
  revert a. induction l as [|x l IH]; intros a Hn Hp; simpl.
  - rewrite Hn, Hp by set_solver. done.
  - rewrite Hn by set_solver. rewrite (Hp x) by set_solver.
    intros (H1 & H2 & H3). split_and!; [done|done|]. apply IH; [set_solver|set_solver|done].
Qed.

Lemma chain_next h a l b : chain h a l b -> nexts h !! a = Some (hd b l).
Proof. destruct l; simpl; [intros [? _]|intros (? & _)]; done. Qed.

Lemma chain_prev h a l b : chain h a l b -> prevs h !! b = Some (lastd a l).
Proof.
  revert a. induction l as [|x l IH]; intros a; simpl; [by intros [_ ?]|].
  intros (_ & _ & H). by apply IH.
Qed.

Lemma get_next_ok h p v : nexts h !! p = Some v -> get_next h p = Ret v.
Proof. unfold get_next, ld. by intros ->. Qed.
Lemma get_prev_ok h p v : prevs h !! p = Some v -> get_prev h p = Ret v.
Proof. unfold get_prev, ld. by intros ->. Qed.
Lemma set_next_ok h p v : is_Some (nexts h !! p) ->
  set_next h p v = Ret (mkHeap (prevs h) (<[p := v]> (nexts h))).
Proof. intros [w E]. unfold set_next. by rewrite (get_next_ok _ _ _ E). Qed.
Lemma set_prev_ok h p v : is_Some (prevs h !! p) ->
  set_prev h p v = Ret (mkHeap (<[p := v]> (prevs h)) (nexts h)).
Proof. intros [w E]. unfold set_prev. by rewrite (get_prev_ok _ _ _ E). Qed.

(** The heap after linking [el] between [p] and [n]. *)
Definition linked (h : heap) (el p n : Z) : heap :=
  mkHeap (<[n := el]> (<[el := p]> (prevs h))) (<[el := n]> (<[p := el]> (nexts h))).

Lemma lookup_insert_is_Some' {V} (m : gmap Z V) i j v :
  is_Some (m !! j) -> is_Some (<[i := v]> m !! j).
Proof. intros. destruct (decide (i = j)) as [->|]; [rewrite lookup_insert_eq|rewrite lookup_insert_ne]; eauto. Qed.

Lemma list_add_between_ok h el p n :
  allocated h el -> is_Some (nexts h !! p) -> is_Some (prevs h !! n) ->
  list_add_between h el p n = Ret (linked h el p n).
Proof.
  intros [He1 He2] Hp Hn. unfold list_add_between.
  rewrite set_next_ok by done. cbn [mbind outcome_bind].
  rewrite set_prev_ok by done. cbn [mbind outcome_bind].
  rewrite set_next_ok by (simpl; by apply lookup_insert_is_Some'). cbn [mbind outcome_bind].
  rewrite set_prev_ok by (simpl; by apply lookup_insert_is_Some'). done.
Qed.

(** [NoDup] of a list as non-membership facts about its named elements. *)
Lemma NoDup_mid (x : Z) l1 l2 : NoDup (l1 ++ x :: l2) <-> x ∉ l1 /\ x ∉ l2 /\ NoDup (l1 ++ l2).
Proof. rewrite <- Permutation_middle, NoDup_cons, not_elem_of_app. tauto. Qed.

Ltac facts :=
  repeat match goal with
  | H : NoDup (_ :: _) |- _ => apply NoDup_cons in H as [? ?]
  | H : NoDup (_ ++ _ :: _) |- _ => apply NoDup_mid in H as (? & ? & ?)
  | H : _ ∉ _ :: _ |- _ => apply not_elem_of_cons in H as [? ?]
  | H : _ ∉ _ ++ _ |- _ => apply not_elem_of_app in H as [? ?]
  end.
Ltac nodup :=
  facts;
  repeat match goal with
  | |- _ ∉ _ :: _ => apply not_elem_of_cons; split
  | |- _ ∉ _ ++ _ => apply not_elem_of_app; split
  | |- _ ∉ [] => apply not_elem_of_nil
  end; try done; try congruence.

(** A chain is unchanged by writes to cells outside it. *)
Lemma chain_frame4 h a l b p1 v1 p2 v2 n1 w1 n2 w2 :
  p1 ∉ l ++ [b] -> p2 ∉ l ++ [b] -> n1 ∉ a :: l -> n2 ∉ a :: l ->
  chain h a l b ->
  chain (mkHeap (<[p1 := v1]> (<[p2 := v2]> (prevs h))) (<[n1 := w1]> (<[n2 := w2]> (nexts h)))) a l b.
Proof.
  intros H1 H2 H3 H4. apply chain_frame; simpl; intros p Hp;
    rewrite !lookup_insert_ne; try done; by intros ->.
Qed.

(** The elements before a place: none, or some with a last one. *)
Lemma snoc_cases (l : list Z) : l = [] \/ exists l' z, l = l' ++ [z].
Proof. destruct (decide (l = [])); [by left|right]. destruct (exists_last n) as (l' & z & ->). eauto. Qed.

(** Linking a fresh cell into a chain at any place. *)
Lemma linked_chain h el head l1 l2 :
  dll h head (l1 ++ l2) -> el ∉ head :: l1 ++ l2 ->
  dll (linked h el (lastd head l1) (hd head l2)) head (l1 ++ el :: l2).
Proof.
  intros [Hc Hnd] Hel. split.
  2:{ apply NoDup_cons in Hnd as [Hh Hnd]. apply NoDup_cons. rewrite NoDup_mid. split_and!; nodup. }
  apply chain_app. unfold linked.
  destruct (snoc_cases l1) as [->|(l & z & ->)]; rewrite ?lastd_snoc; simpl in *;
    destruct l2 as [|y l2]; simpl in *.
  - facts. by simplify_map_eq.
  - destruct Hc as (Hc1 & Hc2 & Hc3). facts. simplify_map_eq. split_and!; try done.
    apply chain_frame4; nodup.
  - rewrite app_nil_r in *. apply chain_app in Hc as [Hc1 Hc2]. split.
    + apply chain_app. split; [apply chain_frame4; nodup|]. simpl. facts. by simplify_map_eq.
    + by simplify_map_eq.
  - rewrite <- app_assoc in *. simpl in *. apply chain_app in Hc as [Hc1 (Hc2 & Hc3 & Hc4)]. split.
    + apply chain_app. split; [apply chain_frame4; nodup|]. simpl. facts. by simplify_map_eq.
    + simplify_map_eq. split_and!; try done. apply chain_frame4; nodup.
Qed.

(** The heap after unlinking [el] from between [p] and [n]. *)
Definition unlinked (h : heap) (el p n : Z) : heap :=
  mkHeap (<[el := 0]> (<[n := p]> (prevs h))) (<[el := 0]> (<[p := n]> (nexts h))).

Lemma list_del_ok h el p n :
  prevs h !! el = Some p -> nexts h !! el = Some n ->
  is_Some (nexts h !! p) -> is_Some (prevs h !! n) ->
  list_del h el = Ret (unlinked h el p n).
Proof.
  intros Hp Hn Hp' Hn'. unfold list_del.
  rewrite (get_prev_ok _ _ _ Hp), (get_next_ok _ _ _ Hn). cbn [mbind outcome_bind].
  rewrite set_next_ok by done. cbn [mbind outcome_bind].
  rewrite set_prev_ok by done. cbn [mbind outcome_bind].
  rewrite set_prev_ok by (simpl; apply lookup_insert_is_Some'; eauto). cbn [mbind outcome_bind].
  rewrite set_next_ok by (simpl; apply lookup_insert_is_Some'; eauto). done.
Qed.

Lemma chain_allocated h a l b : chain h a l b ->
  is_Some (nexts h !! a) /\ is_Some (nexts h !! lastd a l) /\
  is_Some (prevs h !! b) /\ is_Some (prevs h !! hd b l).
Proof.
  revert a. induction l as [|x l IH]; intros a; simpl.
  - intros [H1 H2]. eauto.
  - intros (H1 & H2 & H3). destruct (IH x H3) as (I1 & I2 & I3 & I4). eauto.
Qed.

Lemma unlinked_chain h el head l1 l2 :
  dll h head (l1 ++ el :: l2) ->
  list_del h el = Ret (unlinked h el (lastd head l1) (hd head l2)) /\
  dll (unlinked h el (lastd head l1) (hd head l2)) head (l1 ++ l2).
Proof.
  intros [Hc Hnd]. pose proof (proj1 (chain_app _ _ _ _ _ _) Hc) as [Hc1 Hc2]. split.
  { destruct (chain_allocated _ _ _ _ Hc1) as (_ & ? & _).
    destruct (chain_allocated _ _ _ _ Hc2) as (_ & _ & _ & ?).
    apply list_del_ok; [by apply chain_prev in Hc1|by apply chain_next in Hc2|done|done]. }
  split.
  2:{ apply NoDup_cons in Hnd as [Hh Hnd]. apply NoDup_mid in Hnd as (? & ? & ?).
      apply NoDup_cons. split; nodup. }
  unfold unlinked.
  destruct (snoc_cases l1) as [->|(l & z & ->)]; rewrite ?lastd_snoc; simpl in *;
    destruct l2 as [|y l2]; simpl in *.
  - facts. by simplify_map_eq.
  - destruct Hc2 as (Hc2 & Hc3 & Hc4). facts. simplify_map_eq. split_and!; try done.
    apply chain_frame4; nodup.
  - rewrite <- app_assoc in Hnd. simpl in Hnd. rewrite app_nil_r in *.
    apply chain_app in Hc1 as [Hc1 Hz]. apply chain_app. split; [apply chain_frame4; nodup|].
    simpl. facts. by simplify_map_eq.
  - rewrite <- app_assoc in *. simpl in *. apply chain_app in Hc1 as [Hc1 Hz]. destruct Hc2 as (Hc2 & Hc3 & Hc4).
    apply chain_app. split; [apply chain_frame4; nodup|]. simpl. facts. simplify_map_eq.
    split_and!; try done. apply chain_frame4; nodup.
Qed.

(** Following the [next] fields from [a] visits [l]. *)
Lemma walk_next h head l : forall a acc fuel,
  chain h a l head -> head ∉ l -> (length l < fuel)%nat ->
  loop fuel (fun '(el, acc) =>
    if el =? head then Ret (inr acc)
    else nx ← get_next h el; Ret (inl (nx, acc ++ [el]))) (hd head l, acc) = Ret (acc ++ l).
Proof.
  induction l as [|x l IH]; intros a acc fuel Hc Hh Hf;
    (destruct fuel as [|fuel]; [simpl in Hf; lia|]); cbn [loop hd].
  - rewrite Z.eqb_refl. by rewrite app_nil_r.
  - apply not_elem_of_cons in Hh as [Hx Hh]. destruct Hc as (H1 & H2 & H3).
    rewrite (proj2 (Z.eqb_neq x head)) by congruence.
    rewrite (get_next_ok _ _ _ (chain_next _ _ _ _ H3)). cbn [mbind outcome_bind].
    rewrite (IH x) by (try done; simpl in Hf; lia). by rewrite <- app_assoc.
Qed.

Lemma walk_prev h head l : forall b acc fuel,
  chain h head l b -> head ∉ l -> (length l < fuel)%nat ->
  loop fuel (fun '(el, acc) =>
    if el =? head then Ret (inr acc)
    else pv ← get_prev h el; Ret (inl (pv, acc ++ [el]))) (lastd head l, acc) = Ret (acc ++ rev l).
Proof.
  induction l as [|x l IH] using rev_ind; intros b acc fuel Hc Hh Hf;
    (destruct fuel as [|fuel]; [rewrite ?length_app in Hf; simpl in Hf; lia|]); cbn [loop].
  - simpl. rewrite Z.eqb_refl. by rewrite app_nil_r.
  - rewrite lastd_snoc, rev_app_distr. apply not_elem_of_app in Hh as [Hh Hx].
    apply not_elem_of_cons in Hx as [Hx _].
    apply chain_app in Hc as [Hc1 Hc2].
    rewrite (proj2 (Z.eqb_neq x head)) by congruence.
    rewrite (get_prev_ok _ _ _ (chain_prev _ _ _ _ Hc1)). cbn [mbind outcome_bind].
    rewrite length_app in Hf. simpl in Hf.
    rewrite (IH x) by (try done; lia). simpl. by rewrite <- app_assoc.
Qed.

(** The laws a client of [list.h] relies on, in terms of the list of elements. *)
Class ListLaws (isl : heap -> Z -> list Z -> Prop) := {
  law_init : forall h p, allocated h p ->
    exists h', init_list_head h p = Ret h' /\ isl h' p [];
  law_add : forall h p els el, isl h p els -> allocated h el -> el ∉ p :: els ->
    exists h', list_add h el p = Ret h' /\ isl h' p (el :: els);
  law_add_tail : forall h p els el, isl h p els -> allocated h el -> el ∉ p :: els ->
    exists h', list_add_tail h el p = Ret h' /\ isl h' p (els ++ [el]);
  law_del : forall h p l1 el l2, isl h p (l1 ++ el :: l2) ->
    exists h', list_del h el = Ret h' /\ isl h' p (l1 ++ l2);
  law_empty : forall h p els, isl h p els -> list_empty h p = Ret (bool_decide (els = []));
}.

#[export] Instance dll_laws : ListLaws dll.
Proof.
  split.
  - intros h p [Hp Hn]. unfold init_list_head. rewrite set_prev_ok by done.
    cbn [mbind outcome_bind]. rewrite set_next_ok by done. eexists. split; [done|].
    split; simpl; [by rewrite !lookup_insert_eq|]. apply NoDup_singleton.
  - intros h p els el [Hc Hnd] Hal Hel. unfold list_add.
    rewrite (get_next_ok _ _ _ (chain_next _ _ _ _ Hc)). cbn [mbind outcome_bind].
    destruct (chain_allocated _ _ _ _ Hc) as (I1 & I2 & I3 & I4).
    rewrite list_add_between_ok by done. eexists. split; [done|].
    by apply (linked_chain h el p []).
  - intros h p els el [Hc Hnd] Hal Hel. unfold list_add_tail.
    rewrite (get_prev_ok _ _ _ (chain_prev _ _ _ _ Hc)). cbn [mbind outcome_bind].
    destruct (chain_allocated _ _ _ _ Hc) as (I1 & I2 & I3 & I4).
    rewrite list_add_between_ok by done. eexists. split; [done|].
    apply (linked_chain h el p els []); rewrite ?app_nil_r; [by split|done].
  - intros h p l1 el l2 H. destruct (unlinked_chain _ _ _ _ _ H) as [E D]. eauto.
  - intros h p els [Hc Hnd]. unfold list_empty.
    rewrite (get_next_ok _ _ _ (chain_next _ _ _ _ Hc)). cbn [mbind outcome_bind]. f_equal.
    apply NoDup_cons in Hnd as [Hp _]. destruct els as [|x els]; simpl.
    + apply Z.eqb_refl.
    + apply not_elem_of_cons in Hp as [Hp _]. apply Z.eqb_neq. congruence.
Qed.

(** Deleting every element with [list_for_each_safe], against the laws. *)
Lemma safe_delete_loop h head l : forall fuel el1,
  dll h head l -> (length l < fuel)%nat -> nexts h !! hd head l = Some el1 ->
  exists h', loop fuel (fun '(el, el1, h) =>
    if el =? head then Ret (inr h)
    else h ← list_del h el; el2 ← get_next h el1; Ret (inl (el1, el2, h)))
    (hd head l, el1, h) = Ret h' /\ dll h' head [].
Proof.
  revert h. induction l as [|x l IH]; intros h fuel el1 Hd Hf He1;
    (destruct fuel as [|fuel]; [simpl in Hf; lia|]); cbn [loop hd].
  - rewrite Z.eqb_refl. eauto.
  - pose proof Hd as [(Hc1 & Hc2 & Hc3) Hnd].
    assert (x <> head) as Hx by (facts; congruence).
    rewrite (proj2 (Z.eqb_neq x head)) by done.
    assert (el1 = hd head l) as ->.
    { pose proof (chain_next _ _ _ _ Hc3) as E. simpl in He1. rewrite He1 in E. congruence. }
    destruct (unlinked_chain h x head [] l Hd) as [E D].
    rewrite E. cbn [mbind outcome_bind]. destruct D as [D1 D2].
    set (h' := unlinked _ _ _ _) in *. simpl in D1, D2.
    assert (exists el2, nexts h' !! hd head l = Some el2) as [el2 E2].
    { destruct l as [|y l]; simpl; [destruct D1 as [D1 _]; eauto|].
      destruct D1 as (_ & _ & D1). apply chain_next in D1. eauto. }
    rewrite (get_next_ok _ _ _ E2). cbn [mbind outcome_bind].
    apply IH; [by split|simpl in Hf; lia|done].
Qed.

(** C36: on a well-formed circular list, [list_add], [list_add_tail],
    [list_del], [list_empty] and [init_list_head] do what their names say on
    the sequence of elements, and [list_for_each]/[list_for_each_prev] visit
    it in order and in reverse. *)
Theorem list_ops_correct :
  ListLaws dll /\
  forall h head els, dll h head els ->
    list_for_each (S (length els)) h head = Ret els /\
    list_for_each_prev (S (length els)) h head = Ret (rev els).
Proof.
  split; [exact dll_laws|]. intros h head els [Hc Hnd].
  assert (head ∉ els) as Hh by (by apply NoDup_cons in Hnd as [? _]).
  unfold list_for_each, list_for_each_prev.
  rewrite (get_next_ok _ _ _ (chain_next _ _ _ _ Hc)), (get_prev_ok _ _ _ (chain_prev _ _ _ _ Hc)).
  cbn [mbind outcome_bind]. split.
  - apply (walk_next h head els head []); done || lia.
  - apply (walk_prev h head els head []); done || lia.
Qed.

(** C35: [list_for_each_safe] with a body that deletes the current element
    terminates, never follows a deleted element's (nulled) links and leaves
    the list empty. *)
Theorem list_for_each_safe_delete h head els :
  dll h head els ->
  exists h', list_for_each_safe (S (length els)) list_del h head = Ret h' /\ dll h' head [].
Proof.
  intros Hd. pose proof Hd as [Hc Hnd]. unfold list_for_each_safe.
  rewrite (get_next_ok _ _ _ (chain_next _ _ _ _ Hc)). cbn [mbind outcome_bind].
  assert (exists el1, nexts h !! hd head els = Some el1) as [el1 E].
  { destruct els as [|y l]; simpl; [destruct Hc as [? _]; eauto|].
    destruct Hc as (_ & _ & D1). apply chain_next in D1. eauto. }
  rewrite (get_next_ok _ _ _ E). cbn [mbind outcome_bind].
  apply safe_delete_loop; [done|lia|done].
Qed.

(** A list of two elements at addresses 20 and 30 with its head at 10. *)
Definition sample_heap : heap :=
  mkHeap {[ 10 := 30; 20 := 10; 30 := 20 ]} {[ 10 := 20; 20 := 30; 30 := 10 ]}.

Lemma list_for_each_safe_delete_witness :
  exists h', list_for_each_safe 3 list_del sample_heap 10 = Ret h' /\ dll h' 10 [].
Proof.
  apply (list_for_each_safe_delete sample_heap 10 [20; 30]).
  split; [vm_compute; auto 10|]. repeat constructor; set_solver.
Defined.

Lemma list_ops_correct_witness :
  list_for_each 3 sample_heap 10 = Ret [20; 30] /\
  list_for_each_prev 3 sample_heap 10 = Ret [30; 20].
Proof.
  apply (proj2 list_ops_correct sample_heap 10 [20; 30]).
  split; [vm_compute; auto 10|]. repeat constructor; set_solver.
Defined.
