(* ===== verification/CharRange.v ===== *)
(** * Character ranges ([CharRange] of [libunicode.h]/[libunicode.c])

    A range is an array of points; [points[2i], points[2i+1])] are its
    intervals.  [points] is the whole allocated object ([csize] cells), [len]
    the number of points in use.  A point set [l] denotes the characters with
    an odd number of points at or below them ([inside]). *)

From S2P Require Import Prelude Cutils DynBuf.

Record CharRange := mkCR { len : Z; csize : Z; points : list Z }.

Inductive CharRangeOp := CR_OP_UNION | CR_OP_INTER | CR_OP_XOR.

Definition cr_init : CharRange := mkCR 0 0 [].

Definition set_len (cr : CharRange) (n : Z) : CharRange := mkCR n (csize cr) (points cr).
Definition set_points (cr : CharRange) (p : list Z) : CharRange := mkCR (len cr) (csize cr) p.

Section Ops.
Context `{Allocator}.

Definition cr_realloc (cr : CharRange) (size : Z) : Z * CharRange :=
  if csize cr <? size then
    let new_size := Bits.max_int size (i32 (csize cr * 3) / 2) in
    match realloc_func 4 (points cr) new_size with
    | None => (-1, cr)
    | Some new_buf => (0, mkCR (len cr) new_size new_buf)
    end
  else (0, cr).

Definition cr_copy (cr cr1 : CharRange) : outcome (Z * CharRange) :=
  let '(r, cr) := cr_realloc cr (len cr1) in
  if r =? 0 then
    d ← rd_range (points cr1) 0 (len cr1);
    p ← wr_range (points cr) 0 d;
    Ret (0, mkCR (len cr1) (csize cr) p)
  else Ret (-1, cr).

Definition cr_add_point (cr : CharRange) (v : Z) : outcome (Z * CharRange) :=
  let '(r, cr) := (if csize cr <=? len cr then cr_realloc cr (len cr + 1) else (0, cr)) in
  if r =? 0 then
    p ← wr (points cr) (len cr) v;
    Ret (0, mkCR (len cr + 1) (csize cr) p)
  else Ret (-1, cr).

Definition cr_add_interval (cr : CharRange) (c1 c2 : Z) : outcome (Z * CharRange) :=
  let '(r, cr) := (if csize cr <? len cr + 2 then cr_realloc cr (len cr + 2) else (0, cr)) in
  if r =? 0 then
    p ← wr (points cr) (len cr) c1;
    p ← wr p (len cr + 1) c2;
    Ret (0, mkCR (len cr + 2) (csize cr) p)
  else Ret (-1, cr).

(** [while ((j + 3) < len && pt[j + 1] == pt[j + 2]) j += 2;] *)
Definition cr_compress_skip (pt : list Z) (n j : Z) : outcome Z :=
  loop (S (length pt)) (fun j =>
    if j + 3 <? n then
      x ← rd pt (j + 1); y ← rd pt (j + 2);
      if x =? y then Ret (inl (j + 2)) else Ret (inr j)
    else Ret (inr j)) j.

Definition cr_compress (cr : CharRange) : outcome CharRange :=
  '(k, pt) ← loop (S (length (points cr))) (fun '(i, k, pt) =>
    if i + 1 <? len cr then
      x ← rd pt i; y ← rd pt (i + 1);
      if x =? y then Ret (inl (i + 2, k, pt))
      else
        j ← cr_compress_skip pt (len cr) i;
        x ← rd pt i;
        pt ← wr pt k x;
        y ← rd pt (j + 1);
        pt ← wr pt (k + 1) y;
        Ret (inl (j + 2, k + 2, pt))
    else Ret (inr (k, pt))) (0, 0, points cr);
  Ret (mkCR k (csize cr) pt).

(** The in/out status after [a_idx] and [b_idx] points. *)
Definition cr_is_in (op : CharRangeOp) (a_idx b_idx : Z) : Z :=
  match op with
  | CR_OP_UNION => Z.lor (Z.land a_idx 1) (Z.land b_idx 1)
  | CR_OP_INTER => Z.land (Z.land a_idx 1) (Z.land b_idx 1)
  | CR_OP_XOR => Z.lxor (Z.land a_idx 1) (Z.land b_idx 1)
  end.

(** The next point in increasing order: its value and the two new indices. *)
Definition cr_op_next (a_pt : list Z) (a_len : Z) (b_pt : list Z) (b_len a_idx b_idx : Z)
  : outcome (option (Z * Z * Z)) :=
  if (a_idx <? a_len) && (b_idx <? b_len) then
    x ← rd a_pt a_idx; y ← rd b_pt b_idx;
    if x <? y then Ret (Some (x, a_idx + 1, b_idx))
    else if x =? y then Ret (Some (x, a_idx + 1, b_idx + 1))
    else Ret (Some (y, a_idx, b_idx + 1))
  else if a_idx <? a_len then x ← rd a_pt a_idx; Ret (Some (x, a_idx + 1, b_idx))
  else if b_idx <? b_len then y ← rd b_pt b_idx; Ret (Some (y, a_idx, b_idx + 1))
  else Ret None.

Definition cr_op (cr : CharRange) (a_pt : list Z) (a_len : Z) (b_pt : list Z) (b_len : Z)
    (op : CharRangeOp) : outcome (Z * CharRange) :=
  '(r, cr) ← loop (S (Z.to_nat (a_len + b_len))) (fun '(a_idx, b_idx, cr) =>
    nx ← cr_op_next a_pt a_len b_pt b_len a_idx b_idx;
    match nx with
    | None => Ret (inr (0, cr))
    | Some (v, a_idx, b_idx) =>
        if cr_is_in op a_idx b_idx =? Z.land (len cr) 1 then Ret (inl (a_idx, b_idx, cr))
        else
          '(r, cr) ← cr_add_point cr v;
          if r =? 0 then Ret (inl (a_idx, b_idx, cr)) else Ret (inr (-1, cr))
    end) (0, 0, cr);
  if r =? 0 then cr ← cr_compress cr; Ret (0, cr) else Ret (-1, cr).

(** [cr_free] releases the object and leaves nothing to observe. *)
Definition cr_union1 (cr : CharRange) (b_pt : list Z) (b_len : Z) : outcome (Z * CharRange) :=
  cr_op (mkCR 0 0 []) (points cr) (len cr) b_pt b_len CR_OP_UNION.

Definition cr_union_interval (cr : CharRange) (c1 c2 : Z) : outcome (Z * CharRange) :=
  cr_union1 cr [c1; u32 (c2 + 1)] 2.

Definition cr_invert (cr : CharRange) : outcome (Z * CharRange) :=
  let n := len cr in
  let '(r, cr) := cr_realloc cr (n + 2) in
  if r =? 0 then
    d ← rd_range (points cr) 0 n;
    p ← wr_range (points cr) 1 d;
    p ← wr p 0 0;
    p ← wr p (n + 1) UINT32_MAX;
    cr ← cr_compress (mkCR (n + 2) (csize cr) p);
    Ret (0, cr)
  else Ret (-1, cr).

(** [cr_canonicalize] of [libregexp.c]: add the upper-case forms of the ASCII
    lower-case letters of the range. *)
Definition cr_canonicalize (cr : CharRange) : outcome (Z * CharRange) :=
  '(r, a) ← cr_op cr_init (points cr) (len cr) [ch "a"; ch "z" + 1] 2 CR_OP_INTER;
  if r =? 0 then
    pts ← rd_range (points a) 0 (len a);
    let up := map (fun x => u32 (x + (ch "A" - ch "a"))) pts in
    cr_union1 cr up (len a)
  else Ret (r, cr).

End Ops.

(** ** Abstract view *)

(** The points in use. *)
Definition pts (cr : CharRange) : list Z := take (Z.to_nat (len cr)) (points cr).

Record cr_wf (cr : CharRange) : Prop := {
  cr_region : zlen (points cr) = csize cr;
  cr_len : 0 <= len cr <= csize cr;
}.

(** Number of points at or below [c], its parity, and the character set. *)
Fixpoint below (c : Z) (l : list Z) : bool :=
  match l with
  | [] => false
  | x :: l' => xorb (x <=? c) (below c l')
  end.
Definition inside (l : list Z) (c : Z) : bool := below c l.

Definition op_fun (op : CharRangeOp) : bool -> bool -> bool :=
  match op with CR_OP_UNION => orb | CR_OP_INTER => andb | CR_OP_XOR => xorb end.

(** Non-decreasing and strictly increasing point lists. *)
Fixpoint ndec (lo : Z) (l : list Z) : Prop :=
  match l with [] => True | x :: l' => lo <= x /\ ndec x l' end.
Fixpoint incr (lo : Z) (l : list Z) : Prop :=
  match l with [] => True | x :: l' => lo < x /\ incr x l' end.

(** Reference version of the merge loop of [cr_op] on lists: [pa], [pb] are
    the parities of the points consumed, [st] that of the points produced. *)
Fixpoint op_ref (fuel : nat) (op : CharRangeOp) (a b : list Z) (pa pb st : bool) : list Z :=
  match fuel with
  | O => []
  | S fuel' =>
      let emit v a b pa pb :=
        if Bool.eqb (op_fun op pa pb) st then op_ref fuel' op a b pa pb st
        else v :: op_ref fuel' op a b pa pb (negb st) in
      match a, b with
      | x :: a', y :: b' =>
          if x <? y then emit x a' b (negb pa) pb
          else if x =? y then emit x a' b' (negb pa) (negb pb)
          else emit y a b' pa (negb pb)
      | x :: a', [] => emit x a' [] (negb pa) pb
      | [], y :: b' => emit y [] b' pa (negb pb)
      | [], [] => []
      end
  end.

(** Reference version of [cr_compress]: [grow y l] extends an interval ending
    at [y] over the intervals of [l] that start where it ends. *)
Fixpoint grow (y : Z) (l : list Z) : Z * list Z :=
  match l with
  | z :: w :: l' => if y =? z then grow w l' else (y, l)
  | _ => (y, l)
  end.

Fixpoint compress_ref (fuel : nat) (l : list Z) : list Z :=
  match fuel with
  | O => []
  | S fuel' =>
      match l with
      | x :: y :: l' =>
          if x =? y then compress_ref fuel' l'
          else let '(y', r) := grow y l' in x :: y' :: compress_ref fuel' r
      | _ => []
      end
  end.

(** ** Semantics of the reference versions *)

Lemma ndec_mono lo lo' l : lo' <= lo -> ndec lo l -> ndec lo' l.
Proof. destruct l; simpl; [done|]. intros ? [? ?]. split; [lia|done]. Qed.

Lemma incr_mono lo lo' l : lo' <= lo -> incr lo l -> incr lo' l.
Proof. destruct l; simpl; [done|]. intros ? [? ?]. split; [lia|done]. Qed.

Lemma incr_ndec lo l : incr lo l -> ndec lo l.
Proof. revert lo. induction l; simpl; [done|]. intros lo [? ?]. split; [lia|auto]. Qed.

(** Nothing is below a lower bound. *)
Lemma below_lt c lo l : ndec lo l -> c < lo -> below c l = false.
Proof.
  revert lo. induction l as [|x l IH]; simpl; [done|]. intros lo [Hx Hl] Hc.
  rewrite (proj2 (Z.leb_gt x c)) by lia. simpl. apply (IH x); [done|lia].
Qed.

(** Above every point the parity is that of the length. *)
Lemma below_all c l : Forall (fun x => x <= c) l -> below c l = Nat.odd (length l).
Proof.
  induction 1 as [|x l Hx Hl IH]; [done|]. cbn [below length].
  rewrite (proj2 (Z.leb_le x c)), IH, Nat.odd_succ by done.
  by rewrite <- Nat.negb_odd, xorb_true_l.
Qed.

Lemma exists_above (l k : list Z) : exists c, Forall (fun x => x <= c) l /\ Forall (fun x => x <= c) k.
Proof.
  assert (forall j, exists c, Forall (fun x => x <= c) j) as Hj.
  { intros j. induction j as [|x j [c Hc]]; [by exists 0|]. exists (Z.max x c). constructor; [lia|].
    eapply Forall_impl; [done|]. simpl. lia. }
  destruct (Hj (l ++ k)) as [c Hc]. apply Forall_app in Hc. eauto.
Qed.

Lemma op_ref_ndec fuel op : forall a b pa pb st lo,
  ndec lo a -> ndec lo b -> ndec lo (op_ref fuel op a b pa pb st).
Proof.
  induction fuel as [|fuel IH]; intros a b pa pb st lo Ha Hb; [done|].
  assert (forall v a' b' pa pb, lo <= v -> ndec v a' -> ndec v b' ->
    ndec lo (if Bool.eqb (op_fun op pa pb) st then op_ref fuel op a' b' pa pb st
             else v :: op_ref fuel op a' b' pa pb (negb st))) as Hemit.
  { intros v a' b' pa' pb' Hv Ha' Hb'.
    destruct (Bool.eqb _ _); [apply (ndec_mono v); auto|]. simpl. auto. }
  cbn [op_ref]. destruct a as [|x a], b as [|y b]; simpl in Ha, Hb; [done|apply Hemit; tauto..|].
  destruct (Z.ltb_spec x y); [apply Hemit; simpl; intuition lia|].
  destruct (Z.eqb_spec x y); [subst; apply Hemit; simpl; intuition lia|].
  apply Hemit; simpl; intuition lia.
Qed.

(** The merge computes the pointwise boolean operation. *)
Lemma op_ref_inside fuel op : forall a b pa pb lo c,
  (length a + length b < fuel)%nat -> ndec lo a -> ndec lo b ->
  xorb (op_fun op pa pb) (below c (op_ref fuel op a b pa pb (op_fun op pa pb))) =
    op_fun op (xorb pa (below c a)) (xorb pb (below c b)).
Proof.
  induction fuel as [|fuel IH]; intros a b pa pb lo c Hf Ha Hb; [lia|].
  assert (forall v a' b' pa' pb', (length a' + length b' < fuel)%nat -> ndec v a' -> ndec v b' ->
    xorb (op_fun op pa pb)
      (below c (if Bool.eqb (op_fun op pa' pb') (op_fun op pa pb)
                then op_ref fuel op a' b' pa' pb' (op_fun op pa pb)
                else v :: op_ref fuel op a' b' pa' pb' (negb (op_fun op pa pb)))) =
    if v <=? c then op_fun op (xorb pa' (below c a')) (xorb pb' (below c b')) else op_fun op pa pb)
    as Hemit.
  { intros v a' b' pa' pb' Hlen Ha' Hb'. specialize (IH a' b' pa' pb' v c Hlen Ha' Hb').
    destruct (Z.leb_spec v c) as [Hv|Hv].
    - rewrite <- IH. destruct (Bool.eqb (op_fun op pa' pb') (op_fun op pa pb)) eqn:E.
      + apply Bool.eqb_prop in E. by rewrite E.
      + apply Bool.eqb_false_iff in E. cbn [below]. rewrite (proj2 (Z.leb_le v c)) by done.
        assert (negb (op_fun op pa pb) = op_fun op pa' pb') as ->
          by (destruct (op_fun op pa pb), (op_fun op pa' pb'); done).
        destruct (op_fun op pa pb), (op_fun op pa' pb'), (below c _); done.
    - replace (below c _) with false; [apply xorb_false_r|]. symmetry.
      destruct (Bool.eqb _ _).
      + apply (below_lt _ v); [|done]. by apply op_ref_ndec.
      + apply (below_lt _ v); [|done]. split; [lia|]. by apply op_ref_ndec. }
  cbn [op_ref]. destruct a as [|x a], b as [|y b]; cbn [length] in Hf; simpl in Ha, Hb.
  - simpl. by rewrite !xorb_false_r.
  - rewrite Hemit by (simpl; intuition lia). cbn [below].
    destruct (Z.leb_spec y c); simpl.
    + f_equal. by destruct pb, (below c b).
    + rewrite (below_lt c y b) by (tauto || lia). simpl. by rewrite !xorb_false_r.
  - rewrite Hemit by (simpl; intuition lia). cbn [below].
    destruct (Z.leb_spec x c); simpl.
    + f_equal. by destruct pa, (below c a).
    + rewrite (below_lt c x a) by (tauto || lia). simpl. by rewrite !xorb_false_r.
  - destruct (Z.ltb_spec x y).
    + rewrite Hemit by (simpl; intuition lia). cbn [below].
      destruct (Z.leb_spec x c); simpl.
      * f_equal. by destruct pa, (below c a).
      * rewrite (below_lt c x a), (proj2 (Z.leb_gt y c)), (below_lt c y b) by (tauto || lia).
        simpl. by rewrite !xorb_false_r.
    + destruct (Z.eqb_spec x y) as [->|Hne].
      * rewrite Hemit by (simpl; intuition lia). cbn [below].
        destruct (Z.leb_spec y c); simpl.
        -- f_equal; [by destruct pa, (below c a)|by destruct pb, (below c b)].
        -- rewrite (below_lt c y a), (below_lt c y b) by (tauto || lia).
           simpl. by rewrite !xorb_false_r.
      * rewrite Hemit by (simpl; intuition lia). cbn [below].
        destruct (Z.leb_spec y c); simpl.
        -- f_equal. by destruct pb, (below c b).
        -- rewrite (proj2 (Z.leb_gt x c)), (below_lt c x a), (below_lt c y b) by (tauto || lia).
           simpl. by rewrite !xorb_false_r.
Qed.

(** Two-step induction on lists of even length. *)
Lemma even_ind (P : list Z -> Prop) :
  P [] -> (forall x y l, Nat.Even (length l) -> P l -> P (x :: y :: l)) ->
  forall l, Nat.Even (length l) -> P l.
Proof.
  intros H0 H2 l [n Hn]. revert l Hn. induction n as [|n IH]; intros l Hn.
  - by apply nil_length_inv in Hn as ->.
  - destruct l as [|x [|y l]]; simpl in Hn; [lia|lia|]. apply H2; [exists n; lia|]. apply IH. lia.
Qed.

Lemma grow_even l y y' r :
  Nat.Even (length l) -> grow y l = (y', r) -> Nat.Even (length r) /\ (length r <= length l)%nat.
Proof.
  intros He. revert l He y y' r.
  refine (even_ind _ _ _); [|intros z w l Hl IH]; intros y y' r H; cbn [grow] in H.
  - injection H as <- <-. split; [by exists 0%nat|done].
  - destruct (Z.eqb_spec y z).
    + apply IH in H as [? ?]. split; [done|simpl; lia].
    + injection H as <- <-. split; [|done]. destruct Hl as [n' Hl]. exists (S n'). simpl. lia.
Qed.

Lemma grow_spec y l y' r :
  Nat.Even (length l) -> ndec y l -> grow y l = (y', r) ->
  y <= y' /\ ndec (y' + 1) r /\ Nat.Even (length r) /\ (length r <= length l)%nat /\
  (forall c, below c (y :: l) = below c (y' :: r)).
Proof.
  intros He. revert l He y y' r.
  refine (even_ind _ _ _); [|intros z w l Hl IH]; intros y y' r Hn H; cbn [grow] in H.
  - injection H as <- <-. split_and!; done || by exists 0%nat.
  - destruct (Z.eqb_spec y z) as [->|Hne].
    + destruct Hn as (_ & Hw & Hn). apply IH in H as (H1 & H2 & H3 & H4 & H5); [|done..].
      split; [lia|]. split; [done|]. split; [done|]. split; [simpl; lia|].
      intros c. rewrite <- H5. cbn [below]. by destruct (z <=? c), (w <=? c), (below c l).
    + injection H as <- <-. destruct Hn as (Hz & Hn). split; [lia|]. split; [split; [lia|done]|].
      split; [|done]. destruct Hl as [n Hl]. exists (S n). simpl. lia.
Qed.

Lemma compress_ref_spec fuel : forall l lo,
  (length l < fuel)%nat -> Nat.Even (length l) -> ndec lo l ->
  incr (lo - 1) (compress_ref fuel l) /\ Nat.Even (length (compress_ref fuel l)) /\
  (length (compress_ref fuel l) <= length l)%nat /\
  (forall c, below c (compress_ref fuel l) = below c l).
Proof.
  induction fuel as [|fuel IH]; intros l lo Hf He Hn; [lia|]. cbn [compress_ref].
  destruct l as [|x [|y l]].
  - split; [done|]. split; [by exists 0%nat|]. split; done.
  - destruct He as [n Hn']. simpl in Hn'. lia.
  - destruct Hn as (Hx & Hy & Hn). cbn [length] in Hf.
    assert (Nat.Even (length l)) as He' by (destruct He as [[|n] Hn']; simpl in Hn'; [lia|exists n; lia]).
    destruct (Z.eqb_spec x y) as [->|Hne].
    + destruct (IH l y) as (H1 & H2 & H3 & H4); [lia|done|done|].
      split; [by apply (incr_mono (y - 1)); [lia|]|]. split; [done|]. split; [simpl; lia|].
      intros c. rewrite H4. cbn [below]. by destruct (y <=? c), (below c l).
    + destruct (grow y l) as [y' r] eqn:Eg.
      destruct (grow_spec y l y' r He' Hn Eg) as (H1 & H2 & H3 & H4 & H5).
      destruct (IH r (y' + 1)) as (I1 & I2 & I3 & I4); [lia|done|done|].
      replace (y' + 1 - 1) with y' in I1 by lia.
      split; [split; [lia|split; [lia|done]]|]. split.
      { destruct I2 as [n I2]. exists (S n). simpl. lia. }
      split; [simpl; lia|]. intros c. specialize (H5 c). specialize (I4 c).
      cbn [below] in *. rewrite I4. by rewrite H5.
Qed.

(** ** The array code refines the reference versions *)

Lemma skip_loop fuel : forall pre x y rest tail n,
  (length rest < fuel)%nat -> n = zlen pre + 2 + zlen rest ->
  exists mid y' r,
    grow y rest = (y', r) /\ x :: y :: rest = mid ++ y' :: r /\ mid <> [] /\
    loop fuel (fun j =>
      if j + 3 <? n then
        u ← rd (pre ++ (x :: y :: rest) ++ tail) (j + 1);
        v ← rd (pre ++ (x :: y :: rest) ++ tail) (j + 2);
        if u =? v then Ret (inl (j + 2)) else Ret (inr j)
      else Ret (inr j)) (zlen pre) = Ret (zlen pre + zlen mid - 1).
Proof.
  induction fuel as [|fuel IH]; intros pre x y rest tail n Hf Hn; [lia|]. cbn [loop].
  assert (Hz1 : zlen pre + zlen [x] - 1 = zlen pre) by (change (zlen [x]) with 1; lia).
  destruct rest as [|z [|w rest]].
  - exists [x], y, []. rewrite Hz1. repeat split; try done.
    by rewrite (proj2 (Z.ltb_ge (zlen pre + 3) n)) by (rewrite zlen_nil in Hn; lia).
  - exists [x], y, [z]. rewrite Hz1. repeat split; try done.
    rewrite (proj2 (Z.ltb_ge (zlen pre + 3) n)); [done|]. change (zlen [z]) with 1 in Hn. lia.
  - assert (n = zlen pre + 4 + zlen rest) as Hn' by (rewrite Hn, !zlen_cons; lia).
    pose proof (zlen_nonneg rest).
    rewrite (proj2 (Z.ltb_lt (zlen pre + 3) n)) by lia.
    rewrite (CStr.rd_split pre (x :: y :: z :: w :: rest) [x] (z :: w :: rest) tail y (zlen pre + 1)) by done.
    cbn [mbind outcome_bind].
    rewrite (CStr.rd_split pre (x :: y :: z :: w :: rest) [x; y] (w :: rest) tail z (zlen pre + 2)) by done.
    cbn [mbind outcome_bind grow].
    destruct (Z.eqb_spec y z) as [->|Hne].
    + destruct (IH (pre ++ [x; z]) z w rest tail n) as (mid & y' & r & Hg & Hm & Hne & Hloop).
      { cbn [length] in Hf. lia. } { rewrite zlen_app. change (zlen [x; z]) with 2. lia. }
      exists (x :: z :: mid), y', r. split; [done|]. split; [by rewrite Hm|]. split; [done|].
      rewrite zlen_app in Hloop. change (zlen [x; z]) with 2 in Hloop.
      rewrite <- app_assoc in Hloop. cbn [app] in Hloop. cbn [app]. rewrite Hloop.
      f_equal. rewrite !zlen_cons. lia.
    + exists [x], y, (z :: w :: rest). by rewrite Hz1.
Qed.

(** One pass of the compression loop from input position [out ++ mid]. *)
Lemma compress_loop fuel : forall out mid rest tail n,
  (length rest < fuel)%nat -> Nat.Even (length rest) ->
  n = zlen out + zlen mid + zlen rest ->
  exists junk,
    loop fuel (fun '(i, k, pt) =>
      if i + 1 <? n then
        x ← rd pt i; y ← rd pt (i + 1);
        if x =? y then Ret (inl (i + 2, k, pt))
        else
          j ← cr_compress_skip pt n i;
          x ← rd pt i;
          pt ← wr pt k x;
          y ← rd pt (j + 1);
          pt ← wr pt (k + 1) y;
          Ret (inl (j + 2, k + 2, pt))
      else Ret (inr (k, pt)))
      (zlen out + zlen mid, zlen out, out ++ mid ++ rest ++ tail) =
    Ret (zlen out + zlen (compress_ref fuel rest), out ++ compress_ref fuel rest ++ junk ++ tail) /\
    zlen (compress_ref fuel rest) + zlen junk = zlen mid + zlen rest.
Proof.
  induction fuel as [|fuel IH]; intros out mid rest tail n Hf He Hn; [lia|].
  cbn [loop compress_ref]. pose proof (zlen_nonneg rest).
  destruct rest as [|x [|y rest]].
  - exists mid. rewrite (proj2 (Z.ltb_ge _ n)) by (rewrite zlen_nil in Hn; lia).
    rewrite zlen_nil, Z.add_0_r. split; [done|lia].
  - destruct He as [m Hm]. simpl in Hm. lia.
  - pose proof (zlen_nonneg rest). rewrite !zlen_cons in Hn.
    assert (Nat.Even (length rest)) as He' by (destruct He as [[|m] Hm]; simpl in Hm; [lia|exists m; lia]).
    rewrite (proj2 (Z.ltb_lt _ n)) by lia.
    rewrite (app_assoc out mid), <- zlen_app.
    rewrite (CStr.rd_split (out ++ mid) (x :: y :: rest) [] (y :: rest) tail x (zlen (out ++ mid)))
      by (done || rewrite ?zlen_app, ?zlen_nil; lia). cbn [mbind outcome_bind].
    rewrite (CStr.rd_split (out ++ mid) (x :: y :: rest) [x] rest tail y (zlen (out ++ mid) + 1)) by done.
    cbn [mbind outcome_bind].
    destruct (Z.eqb_spec x y) as [->|Hne].
    + destruct (IH out (mid ++ [y; y]) rest tail n) as (junk & Hl & Hj).
      { cbn [length] in Hf. lia. } { done. }
      { rewrite zlen_app. change (zlen [y; y]) with 2. lia. }
      exists junk. rewrite zlen_app in Hl, Hj. change (zlen [y; y]) with 2 in Hl, Hj.
      rewrite <- !app_assoc in Hl |- *. cbn [app] in Hl |- *. rewrite zlen_app.
      replace (zlen out + zlen mid + 2) with (zlen out + (zlen mid + 2)) by lia.
      rewrite Hl. split; [done|]. rewrite !zlen_cons. lia.
    + destruct (skip_loop (S (length ((out ++ mid) ++ (x :: y :: rest) ++ tail))) (out ++ mid) x y rest tail n)
        as (m & y' & r & Hg & Hm & Hmne & Hloop).
      { rewrite !length_app. cbn [length]. lia. } { rewrite zlen_app. lia. }
      assert (cr_compress_skip ((out ++ mid) ++ (x :: y :: rest) ++ tail) n (zlen (out ++ mid)) =
              Ret (zlen (out ++ mid) + zlen m - 1)) as Hskip by exact Hloop.
      rewrite Hskip. cbn [mbind outcome_bind].
      destruct (grow_even rest y y' r He' Hg) as [Her Hlr].
      rewrite Hg, Hm.
      destruct (mid ++ m) as [|s0 q] eqn:Eq; [by destruct mid, m|].
      assert (zlen mid + zlen m = 1 + zlen q) as Hzq by (rewrite <- zlen_app, Eq, zlen_cons; done).
      replace ((out ++ mid) ++ (m ++ y' :: r) ++ tail) with (out ++ s0 :: q ++ y' :: r ++ tail)
        by (rewrite <- !app_assoc, (app_assoc mid m), Eq; done).
      rewrite CStr.wr_app_mid by done. cbn [mbind outcome_bind].
      change (out ++ x :: q ++ y' :: r ++ tail) with (out ++ (x :: q) ++ y' :: r ++ tail).
      rewrite (app_assoc out (x :: q)), CStr.rd_app_mid
        by (rewrite !zlen_app, zlen_cons; lia). cbn [mbind outcome_bind].
      destruct (q ++ [y']) as [|s1 q'] eqn:Eq'; [by destruct q|].
      assert (zlen q + 1 = 1 + zlen q') as Hzq'
        by (rewrite <- (zlen_cons s1 q'), <- Eq', zlen_app; done).
      replace ((out ++ x :: q) ++ y' :: r ++ tail) with ((out ++ [x]) ++ s1 :: q' ++ r ++ tail)
        by (rewrite <- !app_assoc; cbn [app]; do 2 f_equal;
            change (s1 :: q' ++ r ++ tail) with ((s1 :: q') ++ r ++ tail);
            rewrite <- Eq'; by rewrite <- app_assoc).
      rewrite CStr.wr_app_mid by (rewrite zlen_app; done). cbn [mbind outcome_bind].
      destruct (IH (out ++ [x; y']) q' r tail n) as (junk & Hl & Hj).
      { cbn [length] in Hf. lia. } { done. }
      { rewrite zlen_app. change (zlen [x; y']) with 2.
        assert (1 + (1 + zlen rest) = zlen m + (1 + zlen r)) as E; [|lia].
        rewrite <- (zlen_cons y rest), <- (zlen_cons x), <- (zlen_cons y' r), <- zlen_app. by rewrite Hm. }
      exists junk. rewrite zlen_app in Hl. change (zlen [x; y']) with 2 in Hl.
      rewrite <- !app_assoc in Hl |- *. cbn [app] in Hl |- *. rewrite !zlen_cons.
      assert (1 + (1 + zlen rest) = zlen m + (1 + zlen r)) as E.
      { rewrite <- (zlen_cons y rest), <- (zlen_cons x), <- (zlen_cons y' r), <- zlen_app. by rewrite Hm. }
      replace (zlen (out ++ mid) + zlen m - 1 + 2) with (zlen out + 2 + zlen q')
        by (rewrite zlen_app; lia).
      rewrite Hl. split.
      { rewrite <- app_assoc. cbn [app]. do 2 f_equal. lia. }
      rewrite zlen_app, zlen_cons. lia.
Qed.

Section Refinement.
Context `{Allocator}.

(** A request of at most [m] points was refused. *)
Definition alloc_failed (m : Z) : Prop := exists p n, n <= m /\ realloc_func 4 p n = None.

Lemma alloc_failed_mono m m' : m <= m' -> alloc_failed m -> alloc_failed m'.
Proof. intros Hm (p & n & Hn & E). exists p, n. split; [lia|done]. Qed.

Lemma i32_le x : 0 <= x -> i32 x <= x.
Proof.
  intros Hx. unfold i32, swrap. pose proof (Z.mod_le x (2 ^ 32) Hx ltac:(lia)).
  destruct (_ <? _); lia.
Qed.

Lemma zlen_pts cr : cr_wf cr -> zlen (pts cr) = len cr.
Proof. intros [Hr Hl]. unfold pts. rewrite zlen_take. lia. Qed.

Lemma points_split cr : cr_wf cr ->
  exists tail, points cr = pts cr ++ tail /\ zlen tail = csize cr - len cr.
Proof.
  intros [Hr Hl]. exists (drop (Z.to_nat (len cr)) (points cr)). unfold pts.
  rewrite take_drop, zlen_drop. split; [done|lia].
Qed.

Lemma pts_app l tail n sz : zlen l = n -> pts (mkCR n sz (l ++ tail)) = l.
Proof.
  intros <-. unfold pts. simpl. unfold zlen. rewrite Nat2Z.id. by rewrite take_app_length.
Qed.

Lemma cr_wf_app l tail n sz : zlen l = n -> sz = n + zlen tail -> cr_wf (mkCR n sz (l ++ tail)).
Proof.
  intros <- ->. split; simpl; rewrite ?zlen_app; [done|].
  pose proof (zlen_nonneg l). pose proof (zlen_nonneg tail). lia.
Qed.

Lemma cr_realloc_spec cr n r cr' :
  cr_wf cr -> cr_realloc cr n = (r, cr') ->
  cr_wf cr' /\ pts cr' = pts cr /\ len cr' = len cr /\
  ((r = 0 /\ n <= csize cr') \/ (r = -1 /\ alloc_failed (2 * n))).
Proof.
  intros Hwf E. destruct (points_split cr Hwf) as (tail & Hp & Ht). pose proof Hwf as [Hr Hl].
  unfold cr_realloc in E. destruct (Z.ltb_spec (csize cr) n).
  2:{ injection E as <- <-. split_and!; try done. left. split; lia. }
  set (m := Bits.max_int n _) in E.
  assert (n <= m) as Hm by (unfold m, Bits.max_int; destruct (Z.ltb_spec (i32 (csize cr * 3) / 2) n); lia).
  assert (m <= 2 * n) as Hm2.
  { unfold m, Bits.max_int. pose proof (i32_le (csize cr * 3)).
    pose proof (Z.div_le_mono (i32 (csize cr * 3)) (csize cr * 3) 2).
    pose proof (Z.div_le_upper_bound (csize cr * 3) 2 (2 * n)).
    destruct (Z.ltb_spec (i32 (csize cr * 3) / 2) n); lia. }
  destruct (realloc_func 4 (points cr) m) as [q|] eqn:Ea; injection E as <- <-.
  - assert (zlen (points cr) <= m) as Hle by lia.
    destruct (realloc_keeps _ _ _ _ Hle Ea) as [rest ->].
    assert (0 <= m) as Hm0 by lia.
    pose proof (realloc_length _ _ _ _ Hm0 Ea) as Hq.
    rewrite Hp, <- app_assoc. split_and!.
    + apply cr_wf_app; [by apply zlen_pts|]. rewrite Hp, !zlen_app, zlen_pts in Hq by done.
      rewrite zlen_app. lia.
    + apply pts_app. by apply zlen_pts.
    + done.
    + left. split; [done|]. done.
  - split_and!; try done. right. split; [done|]. by exists (points cr), m.
Qed.

Lemma cr_add_point_spec cr v :
  cr_wf cr ->
  wp (cr_add_point cr v) (fun '(r, cr') => cr_wf cr' /\
    ((r = 0 /\ pts cr' = pts cr ++ [v] /\ len cr' = len cr + 1) \/
     (r = -1 /\ pts cr' = pts cr /\ alloc_failed (2 * (len cr + 1))))).
Proof.
  intros Hwf. unfold cr_add_point.
  destruct (if csize cr <=? len cr then _ else _) as [r cr1] eqn:E.
  assert (cr_wf cr1 /\ pts cr1 = pts cr /\ len cr1 = len cr /\
    ((r = 0 /\ len cr < csize cr1) \/ (r = -1 /\ alloc_failed (2 * (len cr + 1))))) as (Hwf1 & Hp1 & Hl1 & Hcase).
  { destruct (Z.leb_spec (csize cr) (len cr)).
    - destruct (cr_realloc_spec _ _ _ _ Hwf E) as (? & ? & ? & Hc). split_and!; try done.
      destruct Hc as [[? ?]|?]; [left; split; [done|lia]|by right].
    - injection E as <- <-. split_and!; try done. left. split; [done|lia]. }
  destruct Hcase as [[-> Hlt]|[-> Hf]]; simpl.
  2:{ split; [done|]. right. auto. }
  destruct (points_split cr1 Hwf1) as (tail & Hp & Ht).
  destruct tail as [|x tail]; [change (zlen []) with 0 in Ht; lia|].
  rewrite Hp, CStr.wr_app_mid by (by rewrite zlen_pts). simpl.
  assert (pts cr1 ++ v :: tail = (pts cr1 ++ [v]) ++ tail) as -> by (by rewrite <- app_assoc).
  assert (zlen (pts cr1 ++ [v]) = len cr1 + 1) as Hz by (rewrite zlen_app, zlen_pts by done; done).
  split; [apply cr_wf_app; [done|rewrite zlen_cons in Ht; lia]|].
  left. split; [done|]. rewrite pts_app by done. rewrite Hp1, Hl1. done.
Qed.

Lemma cr_add_interval_spec cr c1 c2 :
  cr_wf cr ->
  wp (cr_add_interval cr c1 c2) (fun '(r, cr') => cr_wf cr' /\
    ((r = 0 /\ pts cr' = pts cr ++ [c1; c2] /\ len cr' = len cr + 2) \/
     (r = -1 /\ pts cr' = pts cr /\ alloc_failed (2 * (len cr + 2))))).
Proof.
  intros Hwf. unfold cr_add_interval.
  destruct (if csize cr <? len cr + 2 then _ else _) as [r cr1] eqn:E.
  assert (cr_wf cr1 /\ pts cr1 = pts cr /\ len cr1 = len cr /\
    ((r = 0 /\ len cr + 2 <= csize cr1) \/ (r = -1 /\ alloc_failed (2 * (len cr + 2))))) as (Hwf1 & Hp1 & Hl1 & Hcase).
  { destruct (Z.ltb_spec (csize cr) (len cr + 2)).
    - by apply cr_realloc_spec in E.
    - injection E as <- <-. split_and!; try done. left. split; [done|lia]. }
  destruct Hcase as [[-> Hlt]|[-> Hf]]; simpl.
  2:{ split; [done|]. right. auto. }
  destruct (points_split cr1 Hwf1) as (tail & Hp & Ht).
  destruct tail as [|x [|y tail]];
    [change (zlen []) with 0 in Ht; lia|change (zlen [x]) with 1 in Ht; lia|].
  rewrite Hp, CStr.wr_app_mid by (by rewrite zlen_pts). simpl.
  assert (pts cr1 ++ c1 :: y :: tail = (pts cr1 ++ [c1]) ++ y :: tail) as -> by (by rewrite <- app_assoc).
  rewrite CStr.wr_app_mid by (rewrite zlen_app, zlen_pts by done; done). simpl.
  assert ((pts cr1 ++ [c1]) ++ c2 :: tail = (pts cr1 ++ [c1; c2]) ++ tail) as -> by (by rewrite <- !app_assoc).
  assert (zlen (pts cr1 ++ [c1; c2]) = len cr1 + 2) as Hz by (rewrite zlen_app, zlen_pts by done; done).
  split; [apply cr_wf_app; [done|rewrite !zlen_cons in Ht; lia]|].
  left. split; [done|]. rewrite pts_app by done. rewrite Hp1, Hl1. done.
Qed.

Lemma cr_compress_spec cr :
  cr_wf cr -> Nat.Even (length (pts cr)) ->
  wp (cr_compress cr) (fun cr' => cr_wf cr' /\
    pts cr' = compress_ref (S (length (points cr))) (pts cr)).
Proof.
  intros Hwf He. destruct (points_split cr Hwf) as (tail & Hp & Ht).
  destruct (compress_loop (S (length (points cr))) [] [] (pts cr) tail (len cr)) as (junk & Hl & Hj).
  { rewrite Hp, length_app. lia. } { done. } { rewrite zlen_pts by done. done. }
  unfold cr_compress. cbn [app] in Hl. rewrite <- Hp in Hl.
  change (zlen [] + zlen []) with 0 in Hl. change (zlen (@nil Z)) with 0 in Hl. rewrite Hl.
  cbn [mbind outcome_bind app wp]. rewrite Z.add_0_l, pts_app by done. split; [|done].
  apply cr_wf_app; [done|]. rewrite zlen_app. rewrite zlen_pts in Hj by done.
  change (zlen (@nil Z)) with 0 in Hj. lia.
Qed.

Lemma land_1 n : Z.land n 1 = b2z (Z.odd n).
Proof.
  change 1 with (Z.ones 1). rewrite Z.land_ones by lia. change (2 ^ 1) with 2.
  rewrite <- (Z.bit0_mod n), Z.bit0_odd. done.
Qed.

Lemma is_in_parity op i j : cr_is_in op i j = b2z (op_fun op (Z.odd i) (Z.odd j)).
Proof. unfold cr_is_in. rewrite !land_1. by destruct op, (Z.odd i), (Z.odd j). Qed.

Lemma b2z_eqb x y : (b2z x =? b2z y) = Bool.eqb x y.
Proof. by destruct x, y. Qed.

Lemma odd_succ n : Z.odd (n + 1) = negb (Z.odd n).
Proof. rewrite Z.odd_add. by destruct (Z.odd n). Qed.

Lemma odd_snoc (l : list Z) x : Z.odd (zlen (l ++ [x])) = negb (Z.odd (zlen l)).
Proof. rewrite zlen_app. change (zlen [x]) with 1. apply odd_succ. Qed.

Section OpLoop.
Context (op : CharRangeOp) (a_pt b_pt : list Z) (a_len b_len : Z).

Definition op_body : Z * Z * CharRange -> outcome (Z * Z * CharRange + Z * CharRange) :=
  fun '(a_idx, b_idx, cr) =>
    nx ← cr_op_next a_pt a_len b_pt b_len a_idx b_idx;
    match nx with
    | None => Ret (inr (0, cr))
    | Some (v, a_idx, b_idx) =>
        if cr_is_in op a_idx b_idx =? Z.land (len cr) 1 then Ret (inl (a_idx, b_idx, cr))
        else
          '(r, cr) ← cr_add_point cr v;
          if r =? 0 then Ret (inl (a_idx, b_idx, cr)) else Ret (inr (-1, cr))
    end.

(** The result of the loop from a state where [out] remains to be produced and
    [m] bounds the number of points. *)
Definition op_result (m : Z) (cr : CharRange) (out : list Z) (res : Z * CharRange) : Prop :=
  cr_wf res.2 /\
  ((res.1 = 0 /\ pts res.2 = pts cr ++ out) \/ (res.1 = -1 /\ alloc_failed (2 * m))).

Lemma op_loop m fuel : forall a1 a2 ta b1 b2 tb cr,
  a_pt = a1 ++ a2 ++ ta -> a_len = zlen a1 + zlen a2 ->
  b_pt = b1 ++ b2 ++ tb -> b_len = zlen b1 + zlen b2 ->
  (length a2 + length b2 < fuel)%nat -> cr_wf cr -> len cr + zlen a2 + zlen b2 <= m ->
  wp (loop fuel op_body (zlen a1, zlen b1, cr))
    (op_result m cr (op_ref fuel op a2 b2 (Z.odd (zlen a1)) (Z.odd (zlen b1)) (Z.odd (len cr)))).
Proof.
  induction fuel as [|fuel IH]; intros a1 a2 ta b1 b2 tb cr Ea Eal Eb Ebl Hf Hwf Hm; [lia|].
  (* one step that consumes the point [v] *)
  assert (forall v a1' a2' b1' b2',
    a_pt = a1' ++ a2' ++ ta -> a_len = zlen a1' + zlen a2' ->
    b_pt = b1' ++ b2' ++ tb -> b_len = zlen b1' + zlen b2' ->
    (length a2' + length b2' < fuel)%nat -> len cr + 1 + zlen a2' + zlen b2' <= m ->
    cr_op_next a_pt a_len b_pt b_len (zlen a1) (zlen b1) = Ret (Some (v, zlen a1', zlen b1')) ->
    wp (loop (S fuel) op_body (zlen a1, zlen b1, cr))
      (op_result m cr
        (if Bool.eqb (op_fun op (Z.odd (zlen a1')) (Z.odd (zlen b1'))) (Z.odd (len cr))
         then op_ref fuel op a2' b2' (Z.odd (zlen a1')) (Z.odd (zlen b1')) (Z.odd (len cr))
         else v :: op_ref fuel op a2' b2' (Z.odd (zlen a1')) (Z.odd (zlen b1')) (negb (Z.odd (len cr))))))
    as Hstep.
  { intros v a1' a2' b1' b2' Ea' Eal' Eb' Ebl' Hf' Hm' Hnx. cbn [loop op_body]. rewrite Hnx.
    cbn [mbind outcome_bind]. rewrite is_in_parity, land_1, b2z_eqb.
    destruct (Bool.eqb _ _); [eapply IH; done || lia|].
    pose proof (cr_add_point_spec cr v Hwf) as Hap.
    destruct (cr_add_point cr v) as [[r cr1]|]; [|done]. cbn [mbind outcome_bind].
    destruct Hap as [Hwf1 [(-> & Hp & Hl)|(-> & Hp & Hfail)]]; cbn [Z.eqb].
    - rewrite <- odd_succ, <- Hl. eapply wp_mono; [eapply (IH a1' a2' ta b1' b2' tb cr1); done || lia|].
      intros [r cr2] [Hwf2 Hc]. split; [done|]. simpl in Hc |- *. rewrite Hp, <- app_assoc in Hc. done.
    - simpl. split; [done|]. right. split; [done|]. eapply alloc_failed_mono; [|done].
      pose proof (zlen_nonneg a2'). pose proof (zlen_nonneg b2'). lia. }
  destruct a2 as [|x a2], b2 as [|y b2]; cbn [op_ref].
  - change (zlen []) with 0 in Eal, Ebl. cbn [loop op_body]. unfold cr_op_next.
    rewrite (proj2 (Z.ltb_ge (zlen a1) a_len)), (proj2 (Z.ltb_ge (zlen b1) b_len)) by lia. simpl.
    split; [done|]. left. by rewrite app_nil_r.
  - rewrite <- (odd_snoc b1 y). apply (Hstep y a1 [] (b1 ++ [y]) b2); try done.
    + by rewrite <- app_assoc.
    + rewrite Ebl, zlen_app, zlen_cons. change (zlen [y]) with 1. lia.
    + simpl in *. lia.
    + rewrite zlen_cons in Hm. lia.
    + unfold cr_op_next. change (zlen []) with 0 in Eal.
      rewrite (proj2 (Z.ltb_ge (zlen a1) a_len)) by lia. simpl.
      rewrite zlen_cons in Ebl. pose proof (zlen_nonneg b2).
      rewrite (proj2 (Z.ltb_lt (zlen b1) b_len)) by lia.
      rewrite Eb. cbn [app]. rewrite CStr.rd_app_mid by done. cbn [mbind outcome_bind].
      rewrite zlen_app. done.
  - rewrite <- (odd_snoc a1 x). apply (Hstep x (a1 ++ [x]) a2 b1 []); try done.
    + by rewrite <- app_assoc.
    + rewrite Eal, zlen_app, zlen_cons. change (zlen [x]) with 1. lia.
    + simpl in *. lia.
    + rewrite zlen_cons in Hm. lia.
    + unfold cr_op_next. change (zlen []) with 0 in Ebl.
      rewrite (proj2 (Z.ltb_ge (zlen b1) b_len)) by lia. rewrite andb_false_r.
      rewrite zlen_cons in Eal. pose proof (zlen_nonneg a2).
      rewrite (proj2 (Z.ltb_lt (zlen a1) a_len)) by lia.
      rewrite Ea. cbn [app]. rewrite CStr.rd_app_mid by done. cbn [mbind outcome_bind].
      rewrite zlen_app. done.
  - assert (cr_op_next a_pt a_len b_pt b_len (zlen a1) (zlen b1) =
      if x <? y then Ret (Some (x, zlen a1 + 1, zlen b1))
      else if x =? y then Ret (Some (x, zlen a1 + 1, zlen b1 + 1))
      else Ret (Some (y, zlen a1, zlen b1 + 1))) as Hnx.
    { unfold cr_op_next. rewrite zlen_cons in Eal, Ebl.
      pose proof (zlen_nonneg a2). pose proof (zlen_nonneg b2).
      rewrite (proj2 (Z.ltb_lt (zlen a1) a_len)), (proj2 (Z.ltb_lt (zlen b1) b_len)) by lia. simpl.
      rewrite Ea, Eb. cbn [app]. rewrite !CStr.rd_app_mid by done. done. }
    assert (Hx : a_pt = (a1 ++ [x]) ++ a2 ++ ta) by (by rewrite <- app_assoc).
    assert (Hy : b_pt = (b1 ++ [y]) ++ b2 ++ tb) by (by rewrite <- app_assoc).
    assert (Hxl : a_len = zlen (a1 ++ [x]) + zlen a2)
      by (rewrite Eal, zlen_app, zlen_cons; change (zlen [x]) with 1; lia).
    assert (Hyl : b_len = zlen (b1 ++ [y]) + zlen b2)
      by (rewrite Ebl, zlen_app, zlen_cons; change (zlen [y]) with 1; lia).
    rewrite <- (odd_snoc a1 x), <- (odd_snoc b1 y).
    simpl in Hf. destruct (x <? y).
    + apply (Hstep x (a1 ++ [x]) a2 b1 (y :: b2)); try done; [simpl; lia|rewrite !zlen_cons in *; lia|]. by rewrite Hnx, zlen_app.
    + destruct (x =? y).
      * apply (Hstep x (a1 ++ [x]) a2 (b1 ++ [y]) b2); try done; [lia|rewrite !zlen_cons in *; lia|]. by rewrite Hnx, !zlen_app.
      * apply (Hstep y a1 (x :: a2) (b1 ++ [y]) b2); try done; [simpl; lia|rewrite !zlen_cons in *; lia|]. by rewrite Hnx, zlen_app.
Qed.
End OpLoop.

(** A valid operand: the points in use are non-decreasing, of even number. *)
Definition valid (l : list Z) : Prop := ndec 0 l /\ Nat.Even (length l).
(** A canonical range: strictly increasing points, of even number. *)
Definition canonical (l : list Z) : Prop := incr (-1) l /\ Nat.Even (length l).

Lemma canonical_valid l : canonical l -> valid l.
Proof.
  intros [Hi He]. split; [|done]. destruct l as [|x l]; [done|]. destruct Hi as [Hx Hi].
  split; [lia|by apply incr_ndec].
Qed.

Lemma even_odd_nat n : Nat.Even n <-> Nat.odd n = false.
Proof. rewrite <- Nat.even_spec, <- Nat.negb_even. destruct (Nat.even n); naive_solver. Qed.

Lemma op_ref_length fuel op : forall a b pa pb st,
  (length (op_ref fuel op a b pa pb st) <= length a + length b)%nat.
Proof.
  induction fuel as [|fuel IH]; intros a b pa pb st; [simpl; lia|]. cbn [op_ref].
  destruct a as [|x a], b as [|y b]; repeat bcase;
    cbn [length]; rewrite ?IH; simpl; try lia; etrans; try apply le_n_S; try apply IH; simpl; lia.
Qed.

Lemma op_ref_even fuel op a b :
  (length a + length b < fuel)%nat -> valid a -> valid b ->
  Nat.Even (length (op_ref fuel op a b false false false)).
Proof.
  intros Hf [Ha Ea] [Hb Eb].
  destruct (exists_above (op_ref fuel op a b false false false) (a ++ b)) as (c & H1 & H2).
  apply Forall_app in H2 as [H2 H3].
  pose proof (op_ref_inside fuel op a b false false 0 c Hf Ha Hb) as E.
  replace (op_fun op false false) with false in E by (by destruct op).
  rewrite !xorb_false_l, (below_all c a), (below_all c b), below_all in E by done.
  apply even_odd_nat in Ea, Eb. rewrite Ea, Eb in E. apply even_odd_nat. rewrite E. by destruct op.
Qed.

(** The contract of [cr_op] on a fresh range. *)
Lemma cr_op_spec a ta b tb op :
  valid a -> valid b ->
  wp (cr_op cr_init (a ++ ta) (zlen a) (b ++ tb) (zlen b) op) (fun '(r, cr) => cr_wf cr /\
    ((r = 0 /\ canonical (pts cr) /\ len cr <= zlen a + zlen b /\
      forall c, inside (pts cr) c = op_fun op (inside a c) (inside b c)) \/
     (r = -1 /\ alloc_failed (2 * (zlen a + zlen b))))).
Proof.
  intros Ha Hb. unfold cr_op. set (fuel := S (Z.to_nat (zlen a + zlen b))).
  assert (length a + length b < fuel)%nat as Hf by (unfold fuel, zlen; lia).
  assert (cr_wf cr_init) as Hwf0 by (split; simpl; done || lia).
  apply wp_bind. eapply wp_mono.
  { apply (op_loop op (a ++ ta) (b ++ tb) (zlen a) (zlen b) (zlen a + zlen b) fuel [] a ta [] b tb cr_init); done. }
  change (Z.odd (zlen [])) with false. change (Z.odd (len cr_init)) with false.
  clearbody fuel. intros [r cr] [Hwf Hc]. cbn [fst snd] in Hwf, Hc.
  change (pts cr_init) with (@nil Z) in Hc. cbn [app] in Hc.
  destruct Hc as [[-> Hp]|[-> Hfail]]; simpl; [|split; [done|right; auto]].
  assert (Nat.Even (length (pts cr))) as He by (rewrite Hp; by apply op_ref_even).
  apply wp_bind. eapply wp_mono; [by apply cr_compress_spec|].
  intros cr' [Hwf' Hp']. simpl. split; [done|]. left. split; [done|].
  assert (length (pts cr) < S (length (points cr)))%nat as Hlen.
  { unfold pts. rewrite length_take. lia. }
  destruct (compress_ref_spec (S (length (points cr))) (pts cr) 0) as (H1 & H2 & H3 & H4); [done|done| |].
  { rewrite Hp. destruct Ha, Hb. by apply op_ref_ndec. }
  split; [rewrite Hp'; by split|]. split.
  { rewrite <- zlen_pts, Hp' by done.
    pose proof (op_ref_length fuel op a b false false false). rewrite <- Hp in *. unfold zlen. lia. }
  intros c. unfold inside. rewrite Hp', H4, Hp.
  pose proof (op_ref_inside fuel op a b false false 0 c Hf (proj1 Ha) (proj1 Hb)) as E.
  replace (op_fun op false false) with false in E by (by destruct op).
  by rewrite !xorb_false_l in E.
Qed.

(** ** The set operations *)

(** The outcome every set operation promises: a canonical range denoting the
    set [f], or -1 when a request of at most [m] points was refused. *)
Definition denotes (m : Z) (f : Z -> bool) (res : Z * CharRange) : Prop :=
  cr_wf res.2 /\
  ((res.1 = 0 /\ canonical (pts res.2) /\ forall c, inside (pts res.2) c = f c) \/
   (res.1 = -1 /\ alloc_failed m)).

Lemma denotes_ext m m' f g res :
  m <= m' -> (forall c, f c = g c) -> denotes m f res -> denotes m' g res.
Proof.
  intros Hm E [Hwf [(H0 & H1 & H2)|[H0 Hf]]]; split; try done; [left|right].
  - split_and!; try done. intros c. by rewrite H2.
  - split; [done|]. by apply (alloc_failed_mono m).
Qed.

Lemma cr_union1_spec cr b tb :
  cr_wf cr -> valid (pts cr) -> valid b ->
  wp (cr_union1 cr (b ++ tb) (zlen b)) 
    (denotes (2 * (len cr + zlen b)) (fun c => inside (pts cr) c || inside b c)).
Proof.
  intros Hwf Ha Hb. unfold cr_union1. destruct (points_split cr Hwf) as (ta & -> & _).
  rewrite <- (zlen_pts cr Hwf). eapply wp_mono; [by apply cr_op_spec|].
  intros [r cr'] [Hwf' [(H0 & H1 & _ & H2)|Hf]]; (split; [done|]); [left|right]; done.
Qed.

Lemma valid_interval lo hi : 0 <= lo <= hi -> valid [lo; hi].
Proof. intros. split; [simpl; lia|by exists 1%nat]. Qed.

Lemma inside_interval lo hi c : lo <= hi -> inside [lo; hi] c = (lo <=? c) && (c <? hi).
Proof.
  intros. unfold inside. cbn [below]. rewrite xorb_false_r.
  destruct (Z.leb_spec lo c), (Z.leb_spec hi c), (Z.ltb_spec c hi); simpl; try done; lia.
Qed.

Lemma cr_union_interval_spec cr c1 c2 :
  cr_wf cr -> valid (pts cr) -> 0 <= c1 <= c2 -> c2 < UINT32_MAX ->
  wp (cr_union_interval cr c1 c2)
    (denotes (2 * (len cr + 2)) (fun c => inside (pts cr) c || ((c1 <=? c) && (c <=? c2)))).
Proof.
  intros Hwf Ha Hc Hm. unfold cr_union_interval, UINT32_MAX in *. rewrite u32_small by lia.
  eapply wp_mono; [apply (cr_union1_spec cr [c1; c2 + 1] []); [done|done|apply valid_interval; lia]|].
  intros res. apply denotes_ext; [done|]. intros c. rewrite inside_interval by lia. do 2 f_equal.
  destruct (Z.ltb_spec c (c2 + 1)), (Z.leb_spec c c2); done || lia.
Qed.

Lemma below_snoc c l x : below c (l ++ [x]) = xorb (below c l) (x <=? c).
Proof.
  induction l as [|y l IH]; cbn [app below]; [by rewrite xorb_false_r, xorb_false_l|].
  by rewrite IH, xorb_assoc.
Qed.

Lemma ndec_snoc lo l x : ndec lo l -> lo <= x -> Forall (fun y => y <= x) l -> ndec lo (l ++ [x]).
Proof.
  revert lo. induction l as [|y l IH]; intros lo; simpl; [done|].
  intros [Hy Hl] Hx Hall. apply Forall_cons in Hall as [Hyx Hall]. auto.
Qed.

Lemma cr_invert_spec cr :
  cr_wf cr -> valid (pts cr) -> Forall (fun x => x <= UINT32_MAX) (pts cr) ->
  wp (cr_invert cr) (fun '(r, cr') => cr_wf cr' /\
    ((r = 0 /\ canonical (pts cr') /\
      forall c, 0 <= c < UINT32_MAX -> inside (pts cr') c = negb (inside (pts cr) c)) \/
     (r = -1 /\ alloc_failed (2 * (len cr + 2))))).
Proof.
  intros Hwf [Hn He] Hall. unfold cr_invert.
  destruct (cr_realloc cr (len cr + 2)) as [r cr1] eqn:E.
  destruct (cr_realloc_spec _ _ _ _ Hwf E) as (Hwf1 & Hp1 & Hl1 & [[-> Hsz]|[-> Hf]]); simpl.
  2:{ split; [done|]. right. auto. }
  destruct (points_split cr1 Hwf1) as (tail & Hp & Ht).
  destruct tail as [|x [|y tail]];
    [change (zlen []) with 0 in Ht; lia|change (zlen [x]) with 1 in Ht; lia|].
  pose proof (zlen_pts cr1 Hwf1) as Hz. pose proof (cr_len cr Hwf) as Hl0.
  rewrite Hp1 in Hp, Hz. set (l := pts cr) in *. rewrite Hp. pose proof (zlen_nonneg tail).
  rewrite rd_range_ok by (rewrite ?zlen_app, ?zlen_cons; lia). simpl.
  change (Z.to_nat 0) with 0%nat. rewrite drop_0, take_app_length' by (unfold zlen in Hz; lia).
  rewrite wr_range_ok by (rewrite ?zlen_app, ?zlen_cons; lia). simpl.
  assert (exists z, take (Z.to_nat 1) (l ++ x :: y :: tail) ++ l ++
            drop (Z.to_nat (1 + zlen l)) (l ++ x :: y :: tail) = z :: l ++ y :: tail) as [z ->].
  { replace (Z.to_nat (1 + zlen l)) with (length l + 1)%nat by (unfold zlen; lia).
    rewrite drop_app_add. change (Z.to_nat 1) with 1%nat.
    destruct l as [|z l']; eexists; reflexivity. }
  rewrite (CStr.wr_app_mid [] (l ++ y :: tail) z 0 0 eq_refl : wr (z :: l ++ y :: tail) 0 0 = _).
  simpl. change (0 :: l ++ y :: tail) with ((0 :: l) ++ y :: tail).
  rewrite CStr.wr_app_mid by (rewrite zlen_cons; lia). cbn [mbind outcome_bind].
  assert ((0 :: l) ++ UINT32_MAX :: tail = (0 :: l ++ [UINT32_MAX]) ++ tail) as ->
    by (cbn [app]; by rewrite <- app_assoc).
  set (l' := 0 :: l ++ [UINT32_MAX]).
  assert (zlen l' = len cr + 2) as Hz'.
  { unfold l'. rewrite zlen_cons, zlen_app. change (zlen [UINT32_MAX]) with 1. lia. }
  set (cr2 := mkCR (len cr + 2) (csize cr1) (l' ++ tail)).
  assert (cr_wf cr2) as Hwf2 by (apply cr_wf_app; [done|rewrite !zlen_cons in Ht; lia]).
  assert (pts cr2 = l') as Hp2 by (by apply pts_app).
  assert (Nat.Even (length l')) as He'.
  { unfold l'. cbn [length]. rewrite length_app. simpl. destruct He as [n He]. exists (S n). lia. }
  apply wp_bind. eapply wp_mono; [apply cr_compress_spec; [done|by rewrite Hp2]|].
  intros cr' [Hwf' Hp']. simpl. split; [done|]. left. split; [done|]. rewrite Hp2 in Hp'.
  destruct (compress_ref_spec (S (length (points cr2))) l' 0) as (H1 & H2 & H3 & H4).
  { unfold cr2. cbn [points]. rewrite length_app. lia. } { done. }
  { split; [lia|]. apply ndec_snoc; try done. }
  rewrite Hp'. split; [by split|]. intros c Hc. unfold inside. rewrite H4. unfold l'.
  cbn [below]. rewrite below_snoc, (proj2 (Z.leb_le 0 c)), (proj2 (Z.leb_gt UINT32_MAX c)) by lia.
  by rewrite xorb_false_r, xorb_true_l.
Qed.

Lemma incr_ndec_succ y l : incr y l -> ndec (y + 1) l.
Proof. destruct l as [|z l]; [done|]. intros [? ?]. split; [lia|by apply incr_ndec]. Qed.

(** The status changes at every point of a canonical list. *)
Lemma below_change l : forall lo x, incr lo l -> x ∈ l -> below x l = negb (below (x - 1) l).
Proof.
  induction l as [|y l IH]; intros lo x Hi Hx; [by apply elem_of_nil in Hx|].
  destruct Hi as [Hy Hi]. cbn [below]. apply elem_of_cons in Hx as [->|Hx].
  - rewrite (proj2 (Z.leb_le y y)), (proj2 (Z.leb_gt y (y - 1))) by lia.
    pose proof (incr_ndec_succ y l Hi) as Hn.
    by rewrite !(below_lt _ (y + 1)) by (done || lia).
  - rewrite (IH y x Hi Hx).
    assert (y < x) as Hlt.
    { clear -Hi Hx. revert y Hi. induction l as [|z l IH]; intros y Hi; [by apply elem_of_nil in Hx|].
      destruct Hi as [Hz Hi]. apply elem_of_cons in Hx as [->|Hx]; [done|]. specialize (IH Hx z Hi). lia. }
    rewrite (proj2 (Z.leb_le y x)), (proj2 (Z.leb_le y (x - 1))) by lia.
    by destruct (below (x - 1) l).
Qed.

Lemma below_shift d c l : below c (map (fun x => x + d) l) = below (c - d) l.
Proof.
  induction l as [|x l IH]; cbn [map below]; [done|]. rewrite IH. f_equal.
  destruct (Z.leb_spec (x + d) c), (Z.leb_spec x (c - d)); done || lia.
Qed.

Lemma incr_shift d lo l : incr lo l -> incr (lo + d) (map (fun x => x + d) l).
Proof. revert lo. induction l as [|x l IH]; intros lo; simpl; [done|]. intros [? ?]. split; [lia|auto]. Qed.

Lemma cr_canonicalize_spec cr :
  cr_wf cr -> valid (pts cr) ->
  wp (cr_canonicalize cr)
    (denotes (2 * (2 * len cr + 2)) (fun c => inside (pts cr) c ||
       ((ch "A" <=? c) && (c <=? ch "Z") && inside (pts cr) (c + 32)))).
Proof.
  intros Hwf Hv. unfold cr_canonicalize. destruct (points_split cr Hwf) as (tail & Hp & Ht).
  rewrite Hp. rewrite <- (zlen_pts cr Hwf) at 1. apply wp_bind.
  eapply wp_mono; [apply (cr_op_spec (pts cr) tail [ch "a"; ch "z" + 1] []);
                   [done|apply valid_interval; vm_compute; split; congruence]|].
  pose proof (cr_len cr Hwf) as Hlcr.
  intros [r a] [Hwfa [(-> & Hcan & Hla & Hin)|(-> & Hf)]]; cbn [Z.eqb].
  2:{ split; [done|]. right. split; [done|]. eapply alloc_failed_mono; [|exact Hf].
      rewrite zlen_pts by done. change (zlen [ch "a"; ch "z" + 1]) with 2. cbn [snd]. lia. }
  destruct (points_split a Hwfa) as (ta & Hpa & Hta).
  pose proof (zlen_pts a Hwfa) as Hza. pose proof (cr_len a Hwfa).
  rewrite Hpa, rd_range_ok by (rewrite ?zlen_app; pose proof (zlen_nonneg ta); lia). simpl.
  change (Z.to_nat 0) with 0%nat. rewrite drop_0, take_app_length' by (unfold zlen in Hza; lia).
  change (ch "a") with 97 in *. change (ch "z" + 1) with 123 in *. change (ch "A") with 65. change (ch "Z") with 90.
  assert (Hrange : Forall (fun x => 97 <= x <= 123) (pts a)).
  { apply Forall_forall. intros x Hx. pose proof (below_change _ _ _ (proj1 Hcan) Hx) as Hb.
    fold (inside (pts a) x) in Hb. fold (inside (pts a) (x - 1)) in Hb. rewrite !Hin in Hb.
    rewrite !inside_interval in Hb by lia. cbn [op_fun] in Hb.
    destruct (decide (97 <= x <= 123)) as [|Hout]; [done|exfalso].
    destruct (Z.leb_spec 97 x), (Z.ltb_spec x 123), (Z.leb_spec 97 (x - 1)), (Z.ltb_spec (x - 1) 123);
      simpl in Hb; rewrite ?andb_false_r in Hb; try done; lia. }
  assert (map (fun x => u32 (x + (65 - 97))) (pts a) = map (fun x => x + -32) (pts a)) as ->.
  { apply map_ext_in. intros x Hx. apply list_elem_of_In in Hx.
    rewrite Forall_forall in Hrange. specialize (Hrange x Hx). rewrite u32_small; lia. }
  set (up := map (fun x => x + -32) (pts a)).
  assert (valid up) as Hup.
  { destruct Hcan as [Hi He]. split; [|unfold up; by rewrite length_map].
    unfold up. destruct (pts a) as [|x l]; [done|]. apply Forall_cons in Hrange as [Hx _].
    destruct Hi as [_ Hi]. split; [lia|]. apply incr_ndec, incr_shift. done. }
  assert (zlen up = len a) as Hzu by (unfold up, zlen; rewrite length_map; done).
  rewrite <- Hzu. replace (cr_union1 cr up (zlen up)) with (cr_union1 cr (up ++ []) (zlen up)) by (by rewrite app_nil_r).
  eapply wp_mono; [apply (cr_union1_spec cr up []); done|].
  intros res. apply denotes_ext.
  { rewrite Hzu. rewrite (zlen_pts cr Hwf) in Hla. change (zlen [97; 123]) with 2 in Hla. lia. }
  intros c. f_equal. unfold inside, up. rewrite below_shift.
  fold (inside (pts a) (c - -32)). rewrite Hin, inside_interval by lia. cbn [op_fun].
  replace (c - -32) with (c + 32) by lia. unfold inside.
  destruct (Z.leb_spec 97 (c + 32)), (Z.ltb_spec (c + 32) 123), (Z.leb_spec 65 c), (Z.leb_spec c 90);
    simpl; rewrite ?andb_false_r, ?andb_true_r; try done; lia.
Qed.

End Refinement.

(** ** Properties *)

(** C18: [cr_op] on two valid point arrays [a] and [b] (each followed by
    unused cells) never accesses outside them, terminates, and returns either
    0 with a canonical range (strictly increasing points, so no empty and no
    adjacent intervals) that contains a character exactly when the boolean
    operation of [op] holds of its membership in [a] and in [b], or -1; the
    latter only when the allocator refused a request of at most twice the
    number of operand points. *)
Theorem cr_op_correct `{Allocator} (a ta b tb : list Z) (op : CharRangeOp) :
  valid a -> valid b ->
  exists r cr,
    cr_op cr_init (a ++ ta) (zlen a) (b ++ tb) (zlen b) op = Ret (r, cr) /\ cr_wf cr /\
    ((r = 0 /\ canonical (pts cr) /\
      forall c, inside (pts cr) c = op_fun op (inside a c) (inside b c)) \/
     (r = -1 /\ alloc_failed (2 * (zlen a + zlen b)))).
Proof.
  intros Ha Hb. destruct (proj1 (wp_elim _ _) (cr_op_spec a ta b tb op Ha Hb)) as ([r cr] & E & Hwf & Hc).
  exists r, cr. split_and!; [done|done|]. destruct Hc as [(? & ? & _ & ?)|?]; auto.
Qed.

Lemma cr_op_correct_witness :
  exists r cr,
    @cr_op (bounded_allocator 4096) cr_init [10; 20; 30; 40] 4 [15; 35] 2 CR_OP_INTER = Ret (r, cr) /\
    r = 0 /\ pts cr = [15; 20; 30; 35].
Proof.
  destruct (@cr_op_correct (bounded_allocator 4096) [10; 20; 30; 40] [] [15; 35] [] CR_OP_INTER)
    as (r & cr & E & _).
  { split; [simpl; lia|by exists 2%nat]. } { split; [simpl; lia|by exists 1%nat]. }
  exists r, cr. split; [exact E|]. revert E. vm_compute. intros E. injection E as <- <-. by split.
Defined.

(** C32: the operations a character class is built with.  On a well-formed
    range whose points are valid and below the 32-bit limit: [cr_invert]
    complements the set over [0, 0xffffffff); [cr_union_interval] adds the
    closed interval [c1, c2]; [cr_canonicalize] adds the upper-case form of
    every ASCII lower-case letter of the set.  Each leaves a canonical range
    and fails (-1) only when a request within a stated bound was refused. *)
Theorem cr_class_ops_correct `{Allocator} (cr : CharRange) (c1 c2 : Z) :
  cr_wf cr -> valid (pts cr) -> Forall (fun x => x <= UINT32_MAX) (pts cr) ->
  0 <= c1 <= c2 -> c2 < UINT32_MAX ->
  (exists r cr', cr_invert cr = Ret (r, cr') /\ cr_wf cr' /\
     ((r = 0 /\ canonical (pts cr') /\
       forall c, 0 <= c < UINT32_MAX -> inside (pts cr') c = negb (inside (pts cr) c)) \/
      (r = -1 /\ alloc_failed (2 * (len cr + 2))))) /\
  (exists res, cr_union_interval cr c1 c2 = Ret res /\
     denotes (2 * (len cr + 2)) (fun c => inside (pts cr) c || ((c1 <=? c) && (c <=? c2))) res) /\
  (exists res, cr_canonicalize cr = Ret res /\
     denotes (2 * (2 * len cr + 2)) (fun c => inside (pts cr) c ||
       ((ch "A" <=? c) && (c <=? ch "Z") && inside (pts cr) (c + 32))) res).
Proof.
  intros Hwf Hv Hm Hc Hc2. split_and!.
  - destruct (proj1 (wp_elim _ _) (cr_invert_spec cr Hwf Hv Hm)) as ([r cr'] & E & ? & ?). eauto.
  - apply wp_elim. by apply cr_union_interval_spec.
  - apply wp_elim. by apply cr_canonicalize_spec.
Qed.

Lemma cr_class_ops_correct_witness :
  let cr := mkCR 2 3 [ch "b"; ch "d" + 1; 0] in
  (exists cr', @cr_invert (bounded_allocator 4096) cr = Ret (0, cr') /\
     pts cr' = [0; ch "b"; ch "d" + 1; UINT32_MAX]) /\
  (exists cr', @cr_canonicalize (bounded_allocator 4096) cr = Ret (0, cr') /\
     pts cr' = [ch "B"; ch "D" + 1; ch "b"; ch "d" + 1]).
Proof.
  intros cr. destruct (@cr_class_ops_correct (bounded_allocator 4096) cr (ch "x") (ch "z"))
    as ((r & cr1 & E1 & _) & _ & ([r2 cr2] & E2 & _)).
  { by split. } { split; [vm_compute; intuition congruence|by exists 1%nat]. }
  { repeat constructor; vm_compute; congruence. } { vm_compute. intuition congruence. } { done. }
  split.
  - exists cr1. rewrite E1. revert E1. vm_compute. intros E. injection E as <- <-. split; reflexivity.
  - exists cr2. rewrite E2. revert E2. vm_compute. intros E. injection E as <- <-. split; reflexivity.
Defined.
