(* ===== verification/Sorting.v ===== *)
(** * Sorting ([rqsort], [heapsortx] and the exchange functions of [cutils.c])

    The array is a byte memory; pointers are byte offsets into it, and
    [base_addr] is the address of its first byte (only its alignment
    matters).  The comparator may be any function of the two elements and of
    its [opaque] state, which it may update: a JavaScript comparator need not
    be consistent. *)

From S2P Require Import Prelude Cutils.

(** ** Exchange functions *)

Definition exchange_word (w : Z) (mem : list Z) (ap bp : Z) : outcome (list Z) :=
  t ← rd_range mem ap w;
  v ← rd_range mem bp w;
  mem ← wr_range mem ap v;
  wr_range mem bp t.

(** [for (...; size-- != 0;) { t = *ap; *ap++ = *bp; *bp++ = t; }] *)
Definition exchange_words (w : Z) (mem : list Z) (ap bp size : Z) : outcome (list Z) :=
  loop (S (Z.to_nat size)) (fun '(size, ap, bp, mem) =>
    if size =? 0 then Ret (inr mem)
    else
      mem ← exchange_word w mem ap bp;
      Ret (inl (size - 1, ap + w, bp + w, mem))) (size, ap, bp, mem).

Definition exchange_bytes (mem : list Z) (a b size : Z) : outcome (list Z) :=
  exchange_words 1 mem a b size.
Definition exchange_one_byte (mem : list Z) (a b size : Z) : outcome (list Z) :=
  exchange_word 1 mem a b.
Definition exchange_int16s (mem : list Z) (a b size : Z) : outcome (list Z) :=
  exchange_words 2 mem a b (size / 2).
Definition exchange_one_int16 (mem : list Z) (a b size : Z) : outcome (list Z) :=
  exchange_word 2 mem a b.
Definition exchange_int32s (mem : list Z) (a b size : Z) : outcome (list Z) :=
  exchange_words 4 mem a b (size / 4).
Definition exchange_one_int32 (mem : list Z) (a b size : Z) : outcome (list Z) :=
  exchange_word 4 mem a b.
Definition exchange_int64s (mem : list Z) (a b size : Z) : outcome (list Z) :=
  exchange_words 8 mem a b (size / 8).
Definition exchange_one_int64 (mem : list Z) (a b size : Z) : outcome (list Z) :=
  exchange_word 8 mem a b.

Definition exchange_one_int128 (mem : list Z) (a b size : Z) : outcome (list Z) :=
  t ← rd_range mem a 8;
  u ← rd_range mem (a + 8) 8;
  x ← rd_range mem b 8;
  mem ← wr_range mem a x;
  y ← rd_range mem (b + 8) 8;
  mem ← wr_range mem (a + 8) y;
  mem ← wr_range mem b t;
  wr_range mem (b + 8) u.

Definition exchange_int128s (mem : list Z) (a b size : Z) : outcome (list Z) :=
  loop (S (Z.to_nat (size / 16))) (fun '(size, ap, bp, mem) =>
    if size =? 0 then Ret (inr mem)
    else
      mem ← exchange_one_int128 mem ap bp 16;
      Ret (inl (size - 1, ap + 16, bp + 16, mem))) (size / 16, a, b, mem).

Definition exchange_f := list Z -> Z -> Z -> Z -> outcome (list Z).

Definition exchange_func (base size : Z) : exchange_f :=
  let k := Z.land (Z.lor base size) 15 in
  if k =? 0 then
    if size =? 16 then exchange_one_int128 else exchange_int128s
  else if k =? 8 then
    if size =? 8 then exchange_one_int64 else exchange_int64s
  else if (k =? 4) || (k =? 12) then
    if size =? 4 then exchange_one_int32 else exchange_int32s
  else if (k =? 2) || (k =? 6) || (k =? 10) || (k =? 14) then
    if size =? 2 then exchange_one_int16 else exchange_int16s
  else if size =? 1 then exchange_one_byte else exchange_bytes.

(** ** The sorting functions *)

Section Sort.
Context {O : Type} (cmp : list Z -> list Z -> O -> Z * O) (base_addr size : Z).

Definition State : Type := list Z * O.

(** [cmp(base + p, base + q, opaque)] *)
Definition cmp_at (p q : Z) (st : State) : outcome (Z * State) :=
  a ← rd_range st.1 p size;
  b ← rd_range st.1 q size;
  let '(c, o) := cmp a b st.2 in Ret (c, (st.1, o)).

Definition swap_at (f : exchange_f) (p q n : Z) (st : State) : outcome State :=
  mem ← f st.1 p q n; Ret (mem, st.2).

(** [for (r = r0; (c = r * 2 + size) < n; r = c) ...]: sift down the element
    at byte offset [r] of the array at [basep]. *)
Definition heap_sift (swap : exchange_f) (basep n r : Z) (st : State) : outcome State :=
  loop (S (Z.to_nat n)) (fun '(r, st) =>
    let c := r * 2 + size in
    if c <? n then
      '(c, st) ← (if c <? n - size then
                    '(k, st) ← cmp_at (basep + c) (basep + c + size) st;
                    if k <=? 0 then Ret (c + size, st) else Ret (c, st)
                  else Ret (c, st));
      '(k, st) ← cmp_at (basep + r) (basep + c) st;
      if k >? 0 then Ret (inr st)
      else
        st ← swap_at swap (basep + r) (basep + c) size st;
        Ret (inl (c, st))
    else Ret (inr st)) (r, st).

Definition heapsortx (basep nmemb : Z) (st : State) : outcome State :=
  let swap := exchange_func (base_addr + basep) size in
  if nmemb >? 1 then
    let n := nmemb * size in
    st ← loop (S (Z.to_nat nmemb)) (fun '(i, st) =>
      if i >? 0 then
        let i := i - size in
        st ← heap_sift swap basep n i st;
        Ret (inl (i, st))
      else Ret (inr st)) (nmemb / 2 * size, st);
    loop (S (Z.to_nat nmemb)) (fun '(i, st) =>
      if i >? 0 then
        st ← swap_at swap basep (basep + i) size st;
        st ← heap_sift swap basep i 0 st;
        Ret (inl (i - size, st))
      else Ret (inr st)) (n - size, st)
  else Ret st.

Definition med3 (a b c : Z) (st : State) : outcome (Z * State) :=
  '(k, st) ← cmp_at a b st;
  if k <? 0 then
    '(k, st) ← cmp_at b c st;
    if k <? 0 then Ret (b, st)
    else '(k, st) ← cmp_at a c st; if k <? 0 then Ret (c, st) else Ret (a, st)
  else
    '(k, st) ← cmp_at b c st;
    if k >? 0 then Ret (b, st)
    else '(k, st) ← cmp_at a c st; if k <? 0 then Ret (a, st) else Ret (c, st).

(** [while (pi < pj && (c = cmp(ptr, pi, opaque)) >= 0)] *)
Definition part_left (swap : exchange_f) (ptr pj pi plt i lt : Z) (st : State)
  : outcome (Z * Z * Z * Z * State) :=
  loop (S (Z.to_nat (pj - pi))) (fun '(pi, plt, i, lt, st) =>
    if pi <? pj then
      '(c, st) ← cmp_at ptr pi st;
      if c >=? 0 then
        '(plt, lt, st) ← (if c =? 0 then
                            st ← swap_at swap plt pi size st;
                            Ret (plt + size, lt + 1, st)
                          else Ret (plt, lt, st));
        Ret (inl (pi + size, plt, i + 1, lt, st))
      else Ret (inr (pi, plt, i, lt, st))
    else Ret (inr (pi, plt, i, lt, st))) (pi, plt, i, lt, st).

(** [while (pi < (pj -= size) && (c = cmp(ptr, pj, opaque)) <= 0)] *)
Definition part_right (swap : exchange_f) (ptr pi pj pgt gt : Z) (st : State)
  : outcome (Z * Z * Z * State) :=
  loop (S (S (Z.to_nat (pj - pi)))) (fun '(pj, pgt, gt, st) =>
    let pj := pj - size in
    if pi <? pj then
      '(c, st) ← cmp_at ptr pj st;
      if c <=? 0 then
        if c =? 0 then
          let gt := gt - 1 in
          let pgt := pgt - size in
          st ← swap_at swap pgt pj size st;
          Ret (inl (pj, pgt, gt, st))
        else Ret (inl (pj, pgt, gt, st))
      else Ret (inr (pj, pgt, gt, st))
    else Ret (inr (pj, pgt, gt, st))) (pj, pgt, gt, st).

(** The partition loop [for(;;)]: the final [pi], [plt], [pgt], [i], [lt],
    [gt]. *)
Definition partition (swap : exchange_f) (ptr nmemb : Z) (st : State)
  : outcome (Z * Z * Z * Z * Z * Z * State) :=
  let top := ptr + nmemb * size in
  loop (S (Z.to_nat nmemb)) (fun '(pi, pj, plt, pgt, i, lt, gt, st) =>
    '(pi, plt, i, lt, st) ← part_left swap ptr pj pi plt i lt st;
    '(pj, pgt, gt, st) ← part_right swap ptr pi pj pgt gt st;
    if pi >=? pj then Ret (inr (pi, plt, pgt, i, lt, gt, st))
    else
      st ← swap_at swap pi pj size st;
      Ret (inl (pi + size, pj, plt, pgt, i + 1, lt, gt, st)))
    (ptr + size, top, ptr + size, top, 1, 1, nmemb, st).

(** Lines 566-629: pivot choice, partition and the two block moves.  Returns
    [pgt], [lt] and [gt] as the code has them at the end: the elements before
    [lt] are smaller than the pivot, those from [gt] on are greater. *)
Definition rqsort_partition (ptr nmemb : Z) (st : State) : outcome (Z * Z * Z * State) :=
  let swap := exchange_func base_addr size in
  let swap_block := exchange_func base_addr (Z.lor size 128) in
  let m4 := Z.shiftr nmemb 2 * size in
  '(m, st) ← med3 (ptr + m4) (ptr + 2 * m4) (ptr + 3 * m4) st;
  st ← swap_at swap ptr m size st;
  let top := ptr + nmemb * size in
  '(pi, plt, pgt, i, lt, gt, st) ← partition swap ptr nmemb st;
  let span := plt - ptr in
  let span2 := pi - plt in
  let lt := i - lt in
  let span := if span >? span2 then span2 else span in
  st ← swap_at swap_block ptr (pi - span) span st;
  let span := top - pgt in
  let span2 := pgt - pi in
  let pgt := top - span2 in
  let gt := nmemb - (gt - i) in
  let span := if span >? span2 then span2 else span in
  st ← swap_at swap_block pi (top - span) span st;
  Ret (pgt, lt, gt, st).

(** A stack cell [{ base; count; depth }]; [stack] has 50 of them, [sp] is the
    number of cells in use. *)
Definition cell : Type := Z * Z * Z.

(** [while (nmemb > 6)]: returns the final [ptr], [nmemb], the stack and [sp]. *)
Definition rqsort_split (ptr nmemb depth : Z) (stack : list cell) (sp : Z) (st : State)
  : outcome (Z * Z * list cell * Z * State) :=
  loop (S (Z.to_nat nmemb)) (fun '(ptr, nmemb, depth, stack, sp, st) =>
    if nmemb >? 6 then
      let depth := depth + 1 in
      if depth >? 50 then
        st ← heapsortx ptr nmemb st;
        Ret (inr (ptr, 0, stack, sp, st))
      else
        '(pgt, lt, gt, st) ← rqsort_partition ptr nmemb st;
        if lt >? nmemb - gt then
          stack ← wr stack sp (ptr, lt, depth);
          Ret (inl (pgt, nmemb - gt, depth, stack, sp + 1, st))
        else
          stack ← wr stack sp (pgt, nmemb - gt, depth);
          Ret (inl (ptr, lt, depth, stack, sp + 1, st))
    else Ret (inr (ptr, nmemb, stack, sp, st))) (ptr, nmemb, depth, stack, sp, st).

(** The insertion sort of small fragments: the inner loop, then the outer. *)
Definition insert_down (swap : exchange_f) (ptr pj : Z) (st : State) : outcome State :=
  loop (S (Z.to_nat (pj - ptr))) (fun '(pj, st) =>
    if pj >? ptr then
      '(c, st) ← cmp_at (pj - size) pj st;
      if c >? 0 then
        st ← swap_at swap pj (pj - size) size st;
        Ret (inl (pj - size, st))
      else Ret (inr st)
    else Ret (inr st)) (pj, st).

Definition insertion_sort (swap : exchange_f) (ptr nmemb : Z) (st : State) : outcome State :=
  let top := ptr + nmemb * size in
  loop (S (Z.to_nat nmemb)) (fun '(pi, st) =>
    if pi <? top then
      st ← insert_down swap ptr pi st;
      Ret (inl (pi + size, st))
    else Ret (inr st)) (ptr + size, st).

Definition rqsort (nmemb : Z) (st : State) : outcome State :=
  let swap := exchange_func base_addr size in
  if (nmemb <? 2) || (size <=? 0) then Ret st
  else
    let stack := replicate 50 (0, 0, 0) in
    stack ← wr stack 0 (0, nmemb, 0);
    loop (S (Z.to_nat (2 * nmemb + 1))) (fun '(stack, sp, st) =>
      if sp >? 0 then
        let sp := sp - 1 in
        '(ptr, nmemb, depth) ← rd stack sp;
        '(ptr, nmemb, stack, sp, st) ← rqsort_split ptr nmemb depth stack sp st;
        st ← insertion_sort swap ptr nmemb st;
        Ret (inl (stack, sp, st))
      else Ret (inr st)) (stack, 1, st).

End Sort.

(** Runs: elements of one byte, and of four bytes in an aligned array. *)
Definition byte_cmp (a b : list Z) (o : ()) : Z * () := (hd 0 a - hd 0 b, o).

Example rqsort_run :
  rqsort byte_cmp 1 1 12 ([9; 3; 7; 1; 8; 2; 6; 5; 4; 3; 9; 1], ()) =
    Ret ([1; 1; 2; 3; 3; 4; 5; 6; 7; 8; 9; 9], ()).
Proof. vm_compute. reflexivity. Qed.

Example heapsortx_run :
  heapsortx byte_cmp 4 4 0 4 ([3;0;0;0; 1;1;1;1; 2;9;9;9; 0;5;5;5], ()) =
    Ret ([0;5;5;5; 1;1;1;1; 2;9;9;9; 3;0;0;0], ()).
Proof. vm_compute. reflexivity. Qed.

(** ** Exchanges as permutations of positions *)

(** The positions of two blocks of [n] cells, exchanged. *)
Definition xperm (a b n x : nat) : nat :=
  if decide (a <= x < a + n)%nat then (x - a + b)%nat
  else if decide (b <= x < b + n)%nat then (x - b + a)%nat
  else x.

(** The blocks are the same or do not overlap. *)
Definition apart (a b n : nat) : Prop := (a = b \/ a + n <= b \/ b + n <= a)%nat.

Definition xchg {A} (l l' : list A) (a b n : nat) : Prop :=
  length l' = length l /\ forall x, l' !! x = l !! xperm a b n x.

Lemma lookup_rd_range {A} (l : list A) off n x :
  take n (drop off l) !! x = if decide (x < n)%nat then l !! (off + x)%nat else None.
Proof.
  destruct (decide (x < n)%nat).
  - by rewrite lookup_take_lt, lookup_drop by lia.
  - by rewrite lookup_take_ge by lia.
Qed.

Lemma lookup_wr_range {A} (l d : list A) off x :
  (off + length d <= length l)%nat ->
  (take off l ++ d ++ drop (off + length d) l) !! x =
    if decide (off <= x < off + length d)%nat then d !! (x - off)%nat else l !! x.
Proof.
  intros H. assert (length (take off l) = off) as Ht by (rewrite length_take; lia).
  destruct (decide (x < off)%nat).
  { rewrite decide_False by lia. by rewrite lookup_app_l, lookup_take_lt by lia. }
  rewrite lookup_app_r, Ht by lia. case_decide.
  - by rewrite lookup_app_l by lia.
  - rewrite lookup_app_r, lookup_drop by lia. f_equal. lia.
Qed.

Ltac xperm_cases := unfold xperm, apart in *; repeat case_decide; try lia.

Lemma xperm_inj a b n : apart a b n -> Inj (=) (=) (xperm a b n).
Proof. intros Hs x y. xperm_cases. Qed.

Lemma xchg_perm {A} (l l' : list A) a b n : apart a b n -> xchg l l' a b n -> l' ≡ₚ l.
Proof.
  intros Hs [Hl Hx]. apply Permutation_inj. split; [done|].
  exists (xperm a b n). split; [by apply xperm_inj|done].
Qed.

Lemma xchg_trans {A} (l l1 l2 : list A) a b w n :
  apart a b (w + n) -> xchg l l1 a b w -> xchg l1 l2 (a + w) (b + w) n -> xchg l l2 a b (w + n).
Proof.
  intros Hs [H1 H2] [H3 H4]. split; [congruence|]. intros x. rewrite H4, H2. f_equal. xperm_cases.
Qed.

Lemma xchg_refl {A} (l : list A) a b : xchg l l a b 0.
Proof. split; [done|]. intros x. f_equal. xperm_cases. Qed.

(** Reading and writing blocks, with the contents given position by position. *)
Lemma wp_rd_range {A} (l : list A) off n (Q : list A -> Prop) :
  0 <= off -> 0 <= n -> off + n <= zlen l ->
  (forall d, length d = Z.to_nat n ->
     (forall x, d !! x = if decide (x < Z.to_nat n)%nat then l !! (Z.to_nat off + x)%nat else None) ->
     Q d) ->
  wp (rd_range l off n) Q.
Proof.
  intros H0 H1 H2 HQ. rewrite rd_range_ok by done. apply HQ.
  - rewrite length_take, length_drop. unfold zlen in H2. lia.
  - intros x. apply lookup_rd_range.
Qed.

Lemma wp_wr_range {A} (l d : list A) off (Q : list A -> Prop) :
  0 <= off -> off + zlen d <= zlen l ->
  (forall l', length l' = length l ->
     (forall x, l' !! x = if decide (Z.to_nat off <= x < Z.to_nat off + length d)%nat
                          then d !! (x - Z.to_nat off)%nat else l !! x) -> Q l') ->
  wp (wr_range l off d) Q.
Proof.
  intros H0 H1 HQ. rewrite wr_range_ok by done. apply HQ.
  - pose proof (zlen_wr_range l off d H0 H1) as Hz. unfold zlen in Hz. apply Nat2Z.inj, Hz.
  - intros x. replace (Z.to_nat (off + zlen d)) with (Z.to_nat off + length d)%nat by (unfold zlen; lia).
    apply lookup_wr_range. unfold zlen in H1. lia.
Qed.

(** The contract of an exchange function called with size [n]. *)
Definition exchanges (f : exchange_f) (n : Z) : Prop :=
  forall mem a b, 0 <= a -> 0 <= b -> a + n <= zlen mem -> b + n <= zlen mem ->
    apart (Z.to_nat a) (Z.to_nat b) (Z.to_nat n) ->
    wp (f mem a b n) (fun mem' => xchg mem mem' (Z.to_nat a) (Z.to_nat b) (Z.to_nat n)).

Lemma exchange_word_spec w mem a b :
  0 < w -> 0 <= a -> 0 <= b -> a + w <= zlen mem -> b + w <= zlen mem ->
  apart (Z.to_nat a) (Z.to_nat b) (Z.to_nat w) ->
  wp (exchange_word w mem a b) (fun mem' => xchg mem mem' (Z.to_nat a) (Z.to_nat b) (Z.to_nat w)).
Proof.
  intros Hw Ha Hb Hal Hbl Hs. unfold exchange_word, zlen in *.
  apply wp_bind, wp_rd_range; [unfold zlen; lia..|]. intros t Ht Hxt.
  apply wp_bind, wp_rd_range; [unfold zlen; lia..|]. intros v Hv Hxv.
  apply wp_bind, wp_wr_range; [lia|unfold zlen; lia|]. intros m1 Hm1 Hx1.
  apply wp_wr_range; [lia|unfold zlen; lia|]. intros m2 Hm2 Hx2.
  split; [congruence|]. intros x. rewrite Hx2, Hxt, Hx1, Hxv, Ht, Hv. xperm_cases; try done; f_equal; lia.
Qed.

Lemma exchange_one_int128_spec mem a b n :
  0 <= a -> 0 <= b -> a + 16 <= zlen mem -> b + 16 <= zlen mem ->
  apart (Z.to_nat a) (Z.to_nat b) 16 ->
  wp (exchange_one_int128 mem a b n) (fun mem' => xchg mem mem' (Z.to_nat a) (Z.to_nat b) 16).
Proof.
  intros Ha Hb Hal Hbl Hs. unfold exchange_one_int128, zlen in *.
  apply wp_bind, wp_rd_range; [unfold zlen; lia..|]. intros t Ht Hxt.
  apply wp_bind, wp_rd_range; [unfold zlen; lia..|]. intros u Hu Hxu.
  apply wp_bind, wp_rd_range; [unfold zlen; lia..|]. intros v Hv Hxv.
  apply wp_bind, wp_wr_range; [lia|unfold zlen; lia|]. intros m1 Hm1 Hx1.
  apply wp_bind, wp_rd_range; [unfold zlen; lia..|]. intros y Hy Hxy.
  apply wp_bind, wp_wr_range; [lia|unfold zlen; lia|]. intros m2 Hm2 Hx2.
  apply wp_bind, wp_wr_range; [lia|unfold zlen; lia|]. intros m3 Hm3 Hx3.
  apply wp_wr_range; [lia|unfold zlen; lia|]. intros m4 Hm4 Hx4.
  split; [congruence|]. intros x.
  rewrite Hx4, Hxu, Hx3, Hxt, Hx2, Hxy, !Hx1, !Hxv, Hu, Hy, Ht, Hv.
  change (Z.to_nat 8) with 8%nat in *.
  replace (Z.to_nat (a + 8)) with (Z.to_nat a + 8)%nat by lia.
  replace (Z.to_nat (b + 8)) with (Z.to_nat b + 8)%nat by lia.
  xperm_cases; try done; f_equal; lia.
Qed.

(** A loop of [k] exchanges of [w] bytes exchanges [k * w] bytes. *)
Lemma exchange_loop_spec (f : list Z -> Z -> Z -> outcome (list Z)) w :
  0 < w ->
  (forall mem a b, 0 <= a -> 0 <= b -> a + w <= zlen mem -> b + w <= zlen mem ->
    apart (Z.to_nat a) (Z.to_nat b) (Z.to_nat w) ->
    wp (f mem a b) (fun mem' => xchg mem mem' (Z.to_nat a) (Z.to_nat b) (Z.to_nat w))) ->
  forall fuel k mem a b,
    0 <= k < Z.of_nat fuel -> 0 <= a -> 0 <= b -> a + k * w <= zlen mem -> b + k * w <= zlen mem ->
    apart (Z.to_nat a) (Z.to_nat b) (Z.to_nat (k * w)) ->
    wp (loop fuel (fun '(size, ap, bp, mem) =>
          if size =? 0 then Ret (inr mem)
          else mem ← f mem ap bp; Ret (inl (size - 1, ap + w, bp + w, mem))) (k, a, b, mem))
       (fun mem' => xchg mem mem' (Z.to_nat a) (Z.to_nat b) (Z.to_nat (k * w))).
Proof.
  intros Hw Hf fuel. induction fuel as [|fuel IH]; intros k mem a b Hk Ha Hb Hal Hbl Hs; [lia|].
  cbn [loop]. destruct (Z.eqb_spec k 0) as [->|Hne]; [apply xchg_refl|].
  assert (Z.to_nat (k * w) = Z.to_nat w + Z.to_nat ((k - 1) * w))%nat as Hkw by nia.
  assert (0 <= (k - 1) * w) by nia. assert (k * w = w + (k - 1) * w) as Hkz by nia.
  rewrite Hkw in Hs |- *. pose proof (Hf mem a b) as Hm.
  destruct (f mem a b) as [m1|]; cbn [mbind outcome_bind] in Hm |- *.
  2:{ destruct Hm; [lia..|]. unfold apart in *. lia. }
  assert (xchg mem m1 (Z.to_nat a) (Z.to_nat b) (Z.to_nat w)) as H1.
  { apply Hm; [lia..|]. unfold apart in *. lia. }
  assert (zlen m1 = zlen mem) as Hz by (unfold zlen; by rewrite (proj1 H1)).
  eapply wp_mono; [apply IH; [lia..|]|].
  { unfold apart in *. lia. }
  intros m2 H2. eapply xchg_trans; [exact Hs|exact H1|].
  by rewrite !Z2Nat.inj_add in H2 by lia.
Qed.

Lemma exchange_words_spec w k mem a b :
  0 < w -> 0 <= k -> 0 <= a -> 0 <= b -> a + k * w <= zlen mem -> b + k * w <= zlen mem ->
  apart (Z.to_nat a) (Z.to_nat b) (Z.to_nat (k * w)) ->
  wp (exchange_words w mem a b k)
     (fun mem' => xchg mem mem' (Z.to_nat a) (Z.to_nat b) (Z.to_nat (k * w))).
Proof.
  intros. apply (exchange_loop_spec (exchange_word w) w); [done| |lia|done..].
  intros. by apply exchange_word_spec.
Qed.

Lemma exchange_int128s_spec mem a b k :
  0 <= k -> 0 <= a -> 0 <= b -> a + k * 16 <= zlen mem -> b + k * 16 <= zlen mem ->
  apart (Z.to_nat a) (Z.to_nat b) (Z.to_nat (k * 16)) ->
  wp (exchange_int128s mem a b (k * 16))
     (fun mem' => xchg mem mem' (Z.to_nat a) (Z.to_nat b) (Z.to_nat (k * 16))).
Proof.
  intros. unfold exchange_int128s. rewrite Z.div_mul by lia.
  apply (exchange_loop_spec (fun m a b => exchange_one_int128 m a b 16) 16); [lia| |lia|done..].
  intros. by apply exchange_one_int128_spec.
Qed.

(** The unit the chosen function copies by divides [size]. *)
Lemma low_bits base s : Z.land s 15 = Z.land s (Z.land (Z.lor base s) 15).
Proof.
  apply Z.bits_inj'. intros i Hi. rewrite !Z.land_spec, Z.lor_spec.
  by destruct (Z.testbit s i), (Z.testbit base i), (Z.testbit 15 i).
Qed.

Definition block_unit (base s : Z) : Z :=
  let k := Z.land (Z.lor base s) 15 in
  if k =? 0 then 16 else if k =? 8 then 8 else if (k =? 4) || (k =? 12) then 4
  else if (k =? 2) || (k =? 6) || (k =? 10) || (k =? 14) then 2 else 1.

Lemma block_unit_divides base s : (block_unit base s | s).
Proof.
  pose proof (low_bits base s) as Hl. unfold block_unit.
  set (k := Z.land (Z.lor base s) 15) in *.
  assert (0 <= Z.land s 15 < 16) as Hr
    by (change 15 with (Z.ones 4); rewrite Z.land_ones by lia; apply Z.mod_pos_bound; lia).
  assert (s = 16 * (s / 16) + Z.land s 15) as Hs.
  { change 15 with (Z.ones 4). rewrite Z.land_ones by lia. apply Z.div_mod. lia. }
  assert (forall j, 0 <= j < 16 -> Z.land s j = Z.land (Z.land s 15) j) as Hj.
  { intros j ?. rewrite <- Z.land_assoc. f_equal. change 15 with (Z.ones 4).
    rewrite Z.land_comm, Z.land_ones by lia. symmetry. by apply Z.mod_small. }
  assert (forall w, (w | 16) -> (w | Z.land s 15) -> (w | s)) as Hw.
  { intros w H16 Hd. rewrite Hs. apply Z.divide_add_r; [by apply Z.divide_mul_l|done]. }
  assert (forall j w, k = j -> 0 <= j < 16 -> (w | 16) ->
    (forall r, 0 <= r < 16 -> r = Z.land r j -> (w | r)) -> (w | s)) as Hc.
  { intros j w Hkj Hj16 H16 Hr'. apply Hw; [done|]. apply Hr'; [done|]. rewrite <- Hj by done. congruence. }
  assert (forall j w, 0 <= j < 16 -> 0 < w ->
    forallb (fun r => negb (r =? Z.land r j) || (r mod w =? 0)) (map Z.of_nat (seq 0 16)) = true ->
    forall r, 0 <= r < 16 -> r = Z.land r j -> (w | r)) as Hf.
  { intros j w Hj16 Hw0 Hall r Hr' E. rewrite forallb_forall in Hall. specialize (Hall r).
    assert (In r (map Z.of_nat (seq 0 16))) as Hin.
    { apply in_map_iff. exists (Z.to_nat r). split; [lia|]. apply in_seq. lia. }
    specialize (Hall Hin). rewrite <- E, Z.eqb_refl in Hall. simpl in Hall.
    apply Z.eqb_eq in Hall. by apply Z.mod_divide; [lia|]. }
  assert (forall w q, 16 = w * q -> (w | 16)) as Hd by (intros w q ->; apply Z.divide_factor_l).
  repeat match goal with |- context [?x =? ?y] => destruct (Z.eqb_spec x y) end; simpl; try (exfalso; lia).
  all: try (eapply Hc; [eassumption|lia|first [by apply (Hd _ 1)|by apply (Hd _ 2)|by apply (Hd _ 4)|by apply (Hd _ 8)]|]; apply Hf; [lia|lia|done]).
  all: apply Z.divide_1_l.
Qed.

Lemma exchanges_words w (f : exchange_f) n :
  0 < w -> (w | n) -> 0 <= n -> (forall mem a b, f mem a b n = exchange_words w mem a b (n / w)) ->
  exchanges f n.
Proof.
  intros Hw [q ->] Hn Hf mem a b Ha Hb Hal Hbl Hs. rewrite Hf, Z.div_mul by lia.
  apply exchange_words_spec; done || nia.
Qed.

Lemma exchanges_word w (f : exchange_f) :
  0 < w -> (forall mem a b, f mem a b w = exchange_word w mem a b) -> exchanges f w.
Proof. intros Hw Hf mem a b Ha Hb Hal Hbl Hs. rewrite Hf. by apply exchange_word_spec. Qed.

Lemma exchanges_int128s n : (16 | n) -> 0 <= n -> exchanges exchange_int128s n.
Proof. intros [q ->] Hn mem a b Ha Hb Hal Hbl Hs. by apply exchange_int128s_spec; [lia|..]. Qed.

Lemma exchanges_one_int128 : exchanges exchange_one_int128 16.
Proof. intros mem a b Ha Hb Hal Hbl Hs. by apply exchange_one_int128_spec. Qed.

(** [exchange_func(base, s)] works for [n] bytes when its unit divides [n],
    or [n] is the element size itself. *)
Lemma exchange_func_spec base s n :
  0 <= n -> (block_unit base s | n) ->
  n = s \/ (s <> 16 /\ s <> 8 /\ s <> 4 /\ s <> 2 /\ s <> 1) ->
  exchanges (exchange_func base s) n.
Proof.
  intros Hn Hd Hc. revert Hd. unfold exchange_func, block_unit.
  repeat case_match; breflect; intros Hd; subst.
  all: try (destruct Hc as [->|Hc]; [|lia]).
  1: apply exchanges_one_int128.
  1: by apply exchanges_int128s.
  all: first [by apply exchanges_word | by eapply exchanges_words; [| | |done]; [lia|done..] | idtac].
  by apply (exchanges_words 1); [lia|..|intros; rewrite Z.div_1_r].
Qed.

(** [swap] of the sorting functions. *)
Lemma swap_spec base s : 0 < s -> exchanges (exchange_func base s) s.
Proof. intros. apply exchange_func_spec; [lia|apply block_unit_divides|by left]. Qed.

(** [swap_block] of [rqsort], for any number of elements. *)
Lemma swap_block_spec base s q : 0 < s -> 0 <= q -> exchanges (exchange_func base (Z.lor s 128)) (q * s).
Proof.
  intros Hs Hq.
  assert (block_unit base (Z.lor s 128) = block_unit base s) as Hu.
  { unfold block_unit. replace (Z.land (Z.lor base (Z.lor s 128)) 15) with (Z.land (Z.lor base s) 15); [done|].
    rewrite Z.lor_assoc, (Z.land_lor_distr_l _ 128). change (Z.land 128 15) with 0. by rewrite Z.lor_0_r. }
  assert (forall x, Z.testbit x 7 = false -> Z.lor s 128 <> x) as Hne.
  { intros x Hx E. rewrite <- E, Z.lor_spec, orb_true_r in Hx. done. }
  apply exchange_func_spec; [nia| |right; split_and!; by apply Hne].
  rewrite Hu. apply Z.divide_mul_r, block_unit_divides.
Qed.

(** ** Arrays of elements *)

(** The positions of two blocks of [k] elements, exchanged. *)
Definition zperm (i j k x : Z) : Z :=
  if (i <=? x) && (x <? i + k) then x - i + j
  else if (j <=? x) && (x <? j + k) then x - j + i
  else x.

Ltac zperm_cases :=
  unfold zperm in *;
  repeat match goal with
  | |- context [?a <=? ?b] => destruct (Z.leb_spec a b)
  | |- context [?a <? ?b] => destruct (Z.ltb_spec a b)
  | H : context [?a <=? ?b] |- _ => destruct (Z.leb_spec a b)
  | H : context [?a <? ?b] |- _ => destruct (Z.ltb_spec a b)
  end; cbn [andb] in *; try lia.

Section Elements.
Context (size : Z) (Hsize : 0 < size).

(** Element [i] of the array. *)
Definition elem (mem : list Z) (i : Z) : list Z :=
  take (Z.to_nat size) (drop (Z.to_nat (i * size)) mem).

Lemma rd_elem mem i N : zlen mem = N * size -> 0 <= i < N -> rd_range mem (i * size) size = Ret (elem mem i).
Proof. intros Hz Hi. apply rd_range_ok; nia. Qed.

(** [mem'] is [mem] with the elements of the positions [lo, hi) rearranged. *)
Definition within (N lo hi : Z) (mem mem' : list Z) : Prop :=
  zlen mem' = zlen mem /\
  exists f : Z -> Z,
    (forall x, 0 <= x < N -> elem mem' x = elem mem (f x)) /\
    (forall x y, 0 <= x < N -> 0 <= y < N -> f x = f y -> x = y) /\
    (forall x, lo <= x < hi -> lo <= f x < hi) /\
    (forall x, ~ (lo <= x < hi) -> f x = x).

Lemma within_refl N lo hi mem : within N lo hi mem mem.
Proof. split; [done|]. exists (fun x => x). by split_and!. Qed.

Lemma within_trans N lo hi m1 m2 m3 :
  0 <= lo -> hi <= N -> within N lo hi m1 m2 -> within N lo hi m2 m3 -> within N lo hi m1 m3.
Proof.
  intros Hlo Hhi [Hz (f & F1 & F2 & F3 & F4)] [Hz' (g & G1 & G2 & G3 & G4)].
  assert (forall x, 0 <= x < N -> 0 <= g x < N) as Hg.
  { intros x Hx. destruct (decide (lo <= x < hi)) as [Hin|Hout]; [specialize (G3 x Hin); lia|].
    rewrite G4; done. }
  split; [congruence|]. exists (fun x => f (g x)). split_and!.
  - intros x Hx. rewrite G1, F1 by auto. done.
  - intros x y Hx Hy E. apply F2 in E; auto.
  - auto.
  - intros x Hx. rewrite (G4 x Hx). auto.
Qed.

(** Rearranging a part rearranges the whole. *)
Lemma within_wider N lo hi lo' hi' m1 m2 :
  lo' <= lo -> hi <= hi' -> within N lo hi m1 m2 -> within N lo' hi' m1 m2.
Proof.
  intros Hlo Hhi [Hz (f & F1 & F2 & F3 & F4)]. split; [done|]. exists f. split_and!; try done.
  - intros x Hx. destruct (decide (lo <= x < hi)) as [Hin|Hout]; [specialize (F3 x Hin); lia|].
    rewrite F4; done.
  - intros x Hx. apply F4. lia.
Qed.

Lemma within_outside N lo hi m1 m2 x :
  within N lo hi m1 m2 -> 0 <= x < N -> ~ (lo <= x < hi) -> elem m2 x = elem m1 x.
Proof. intros [_ (f & F1 & _ & _ & F4)] Hx Ho. by rewrite F1, F4. Qed.

(** A property of every element of the range is kept. *)
Lemma within_all N lo hi m1 m2 (P : list Z -> Prop) :
  0 <= lo -> hi <= N -> within N lo hi m1 m2 ->
  (forall x, lo <= x < hi -> P (elem m1 x)) -> forall x, lo <= x < hi -> P (elem m2 x).
Proof. intros Hlo Hhi [_ (f & F1 & _ & F3 & _)] HP x Hx. rewrite F1 by lia. auto. Qed.

(** The whole array, as a list of elements. *)
Definition elements (N : Z) (mem : list Z) : list (list Z) := elem mem <$> seqZ 0 N.

Lemma within_perm N lo hi m1 m2 :
  0 <= lo -> hi <= N -> within N lo hi m1 m2 -> elements N m2 ≡ₚ elements N m1.
Proof.
  intros Hlo Hhi [_ (f & F1 & F2 & F3 & F4)]. unfold elements.
  assert (forall x, 0 <= x < N -> 0 <= f x < N) as Hf.
  { intros x Hx. destruct (decide (lo <= x < hi)) as [Hin|Hout]; [specialize (F3 x Hin); lia|].
    rewrite F4; done. }
  assert (elem m2 <$> seqZ 0 N = elem m1 <$> (f <$> seqZ 0 N)) as ->.
  { rewrite <- list_fmap_compose. apply list_fmap_ext. intros k x Hx.
    apply lookup_seqZ in Hx. simpl. apply F1. lia. }
  apply Permutation_map. apply submseteq_length_Permutation.
  - apply NoDup_submseteq.
    + apply NoDup_fmap_2_strong; [|apply NoDup_seqZ]. intros x y Hx Hy. apply elem_of_seqZ in Hx, Hy.
      apply F2; lia.
    + intros y Hy. apply list_elem_of_fmap in Hy as (x & -> & Hx). apply elem_of_seqZ in Hx.
      apply elem_of_seqZ. pose proof (Hf x). lia.
  - by rewrite length_fmap.
Qed.

Lemma elem_lookup mem i r :
  0 <= i -> elem mem i !! r = if decide (r < Z.to_nat size)%nat then mem !! (Z.to_nat i * Z.to_nat size + r)%nat else None.
Proof. intros Hi. unfold elem. rewrite lookup_rd_range, Z2Nat.inj_mul by lia. done. Qed.

Lemma block_position (i k q r s : nat) :
  (r < s)%nat -> (i * s <= q * s + r < i * s + k * s <-> i <= q < i + k)%nat.
Proof. intros Hr. split; intros [H1 H2]; split; nia. Qed.

(** Exchanging bytes block-wise exchanges elements. *)
Lemma exchanges_elems f k N mem i j :
  exchanges f (k * size) -> zlen mem = N * size ->
  0 <= k -> 0 <= i -> 0 <= j -> i + k <= N -> j + k <= N -> i = j \/ i + k <= j \/ j + k <= i ->
  wp (f mem (i * size) (j * size) (k * size)) (fun mem' => zlen mem' = zlen mem /\
    forall x, 0 <= x -> elem mem' x = elem mem (zperm i j k x)).
Proof.
  intros Hf Hz Hk Hi Hj Hin Hjn Hs. eapply wp_mono.
  { apply Hf; [nia..|]. unfold apart. rewrite !Z2Nat.inj_mul by lia. nia. }
  intros mem' [Hl Hx]. split; [unfold zlen; by rewrite Hl|]. intros x Hx0.
  assert (0 <= zperm i j k x) as Hp0 by (unfold zperm; repeat bcase; breflect; lia).
  apply list_eq. intros r. rewrite !elem_lookup by done. case_decide as Hr; [|done].
  rewrite Hx. f_equal. rewrite !Z2Nat.inj_mul by lia.
  pose proof (block_position (Z.to_nat i) (Z.to_nat k) (Z.to_nat x) r (Z.to_nat size) Hr) as Hbi.
  pose proof (block_position (Z.to_nat j) (Z.to_nat k) (Z.to_nat x) r (Z.to_nat size) Hr) as Hbj.
  unfold xperm, zperm. destruct (decide _) as [D1|D1]; rewrite Hbi in D1.
  { rewrite (proj2 (Z.leb_le i x)), (proj2 (Z.ltb_lt x (i + k))) by lia. simpl.
    replace (Z.to_nat (x - i + j)) with (Z.to_nat x - Z.to_nat i + Z.to_nat j)%nat by lia. nia. }
  replace ((i <=? x) && (x <? i + k)) with false by (symmetry; apply andb_false_iff; lia).
  destruct (decide _) as [D2|D2]; rewrite Hbj in D2.
  { rewrite (proj2 (Z.leb_le j x)), (proj2 (Z.ltb_lt x (j + k))) by lia. simpl.
    replace (Z.to_nat (x - j + i)) with (Z.to_nat x - Z.to_nat j + Z.to_nat i)%nat by lia. nia. }
  replace ((j <=? x) && (x <? j + k)) with false by (symmetry; apply andb_false_iff; lia).
  done.
Qed.

Lemma zperm_within N lo hi mem mem' i j k :
  zlen mem' = zlen mem -> (forall x, 0 <= x -> elem mem' x = elem mem (zperm i j k x)) ->
  0 <= lo -> lo <= i -> lo <= j -> i + k <= hi -> j + k <= hi -> i = j \/ i + k <= j \/ j + k <= i ->
  within N lo hi mem mem'.
Proof.
  intros Hz Hx Hlo Hi Hj Hik Hjk Hs. split; [done|]. exists (zperm i j k). split_and!.
  - intros x Hx0. apply Hx. lia.
  - intros x y Hx0 Hy0. zperm_cases.
  - intros x Hx0. zperm_cases.
  - intros x Hx0. zperm_cases.
Qed.

End Elements.

(** ** Correctness of the sorting functions

    [le] is any transitive relation the comparator decides; with a
    comparator that is not consistent, the relation that always holds
    qualifies. *)

Section Correct.
Context {O : Type} (cmp : list Z -> list Z -> O -> Z * O) (base_addr size : Z).
Context (Hsize : 0 < size).
Context (le : list Z -> list Z -> Prop).
Context (le_trans : forall a b c, le a b -> le b c -> le a c).
Context (cmp_le : forall a b o, ((cmp a b o).1 <= 0 -> le a b) /\ (0 <= (cmp a b o).1 -> le b a)).
(** The number of elements of the whole array. *)
Context (N : Z).

Notation el := (elem size).
Notation State := (list Z * O)%type.

(** A state whose memory is the array. *)
Definition ok (st : State) : Prop := zlen st.1 = N * size.

Notation moves lo hi st st' := (within size N lo hi st.1 st'.1).

Lemma wp_cmp_at p q i j (st : State) (Q : Z * State -> Prop) :
  ok st -> p = i * size -> q = j * size -> 0 <= i < N -> 0 <= j < N ->
  (forall c o', (c <= 0 -> le (el st.1 i) (el st.1 j)) -> (0 <= c -> le (el st.1 j) (el st.1 i)) ->
     Q (c, (st.1, o'))) ->
  wp (cmp_at cmp size p q st) Q.
Proof.
  intros Hok -> -> Hi Hj HQ. unfold cmp_at.
  rewrite (rd_elem size Hsize _ i N), (rd_elem size Hsize _ j N) by done.
  cbn [mbind outcome_bind]. destruct (cmp _ _ _) as [c o'] eqn:E.
  pose proof (cmp_le (el st.1 i) (el st.1 j) st.2) as [H1 H2]. rewrite E in H1, H2. by apply HQ.
Qed.

Lemma wp_swap_at f p q k n i j (st : State) (Q : State -> Prop) :
  exchanges f (k * size) -> ok st -> p = i * size -> q = j * size -> n = k * size ->
  0 <= k -> 0 <= i -> 0 <= j -> i + k <= N -> j + k <= N -> i = j \/ i + k <= j \/ j + k <= i ->
  (forall st' : State, ok st' -> zlen st'.1 = zlen st.1 ->
     (forall x, 0 <= x -> el st'.1 x = el st.1 (zperm i j k x)) -> Q st') ->
  wp (swap_at f p q n st) Q.
Proof.
  intros Hf Hok -> -> -> Hk Hi Hj Hin Hjn Hs HQ. unfold swap_at. apply wp_bind.
  eapply wp_mono; [by apply (exchanges_elems size Hsize f k N)|].
  intros mem' [Hz Hx]. apply HQ; simpl; try done. unfold ok in *. simpl. congruence.
Qed.

(** Exchange of the elements [i] and [j]. *)
Lemma wp_swap_elem base p q i j (st : State) (Q : State -> Prop) :
  ok st -> p = i * size -> q = j * size -> 0 <= i < N -> 0 <= j < N ->
  (forall st' : State, ok st' -> zlen st'.1 = zlen st.1 ->
     (forall x, 0 <= x -> el st'.1 x = el st.1 (zperm i j 1 x)) -> Q st') ->
  wp (swap_at (exchange_func base size) p q size st) Q.
Proof.
  intros Hok Hp Hq Hi Hj HQ. apply (wp_swap_at _ p q 1 size i j); try done; try lia.
  rewrite Z.mul_1_l. by apply swap_spec.
Qed.

Lemma zperm_l i j x : x = i -> zperm i j 1 x = j.
Proof. intros ->. zperm_cases. Qed.
Lemma zperm_r i j x : x = j -> zperm i j 1 x = i.
Proof. intros ->. zperm_cases. Qed.
Lemma zperm_other i j x : x <> i -> x <> j -> zperm i j 1 x = x.
Proof. intros. zperm_cases. Qed.

Ltac zperm_at x :=
  first [rewrite (zperm_l _ _ x) by lia | rewrite (zperm_r _ _ x) by lia
        | rewrite (zperm_other _ _ x) by lia].

(** *** Insertion sort *)

Definition sorted_on (lo hi : Z) (mem : list Z) : Prop :=
  forall x y, lo <= x < y -> y < hi -> le (el mem x) (el mem y).

Lemma insert_down_spec b i (st : State) :
  ok st -> 0 <= b -> b <= i < N -> sorted_on b i st.1 ->
  wp (insert_down cmp size (exchange_func base_addr size) (b * size) (i * size) st)
    (fun st' => ok st' /\ moves b (i + 1) st st' /\ sorted_on b (i + 1) st'.1).
Proof.
  intros Hok Hb Hi Hs. unfold insert_down.
  apply (wp_loop (fun '(pj, st') => exists j, pj = j * size /\ b <= j <= i /\ ok st' /\
      moves b (i + 1) st st' /\
      (forall x y, b <= x < y -> y <= i -> y <> j -> le (el st'.1 x) (el st'.1 y)))
    (fun '(pj, _) => pj - b * size)).
  2:{ exists i. split_and!; try done; try lia; [apply within_refl|]. intros x y Hx Hy Hne. apply Hs; lia. }
  2:{ nia. }
  intros [pj st1] (j & -> & Hj & Hok1 & Hm & Hall).
  destruct (Z.gtb_spec (j * size) (b * size)) as [Hgt|Hle].
  2:{ apply wp_ret. split_and!; try done. intros x y Hx Hy. apply Hall; try lia. nia. }
  assert (b < j) by nia.
  apply wp_bind, (wp_cmp_at _ _ (j - 1) j); [done|lia|done|lia|lia|]. intros c o' Hc1 Hc2.
  destruct (Z.gtb_spec c 0) as [Hcp|Hcn].
  - apply wp_bind, (wp_swap_elem _ _ _ j (j - 1)); [done|done|lia|lia|lia|].
    intros st2 Hok2 Hz2 Hx2. apply wp_ret. split; [|nia]. exists (j - 1). split_and!; try done; try lia.
    + eapply within_trans; [lia| |exact Hm|]; [lia|].
      eapply zperm_within; [done|exact Hx2|lia..].
    + simpl in Hx2. intros x y Hx Hy Hne. rewrite !Hx2 by lia.
      destruct (decide (y = j)) as [->|Hyj].
      * zperm_at j. destruct (decide (x = j - 1)) as [->|Hxj].
        -- zperm_at (j - 1). apply Hc2. lia.
        -- zperm_at x. apply Hall; lia.
      * zperm_at y. destruct (decide (x = j - 1)) as [->|Hxj].
        -- zperm_at (j - 1). apply Hall; lia.
        -- destruct (decide (x = j)) as [->|Hxj2]; [zperm_at j; apply Hall; lia|].
           zperm_at x. apply Hall; lia.
  - apply wp_ret. split_and!; try done. simpl. intros x y Hx Hy.
    destruct (decide (y = j)) as [->|Hyj]; [|apply Hall; lia].
    destruct (decide (x = j - 1)) as [->|Hxj]; [apply Hc1; lia|].
    eapply le_trans; [apply (Hall x (j - 1)); lia|apply Hc1; lia].
Qed.

Lemma insertion_sort_spec b n (st : State) :
  ok st -> 0 <= b -> 0 <= n -> b + n <= N ->
  wp (insertion_sort cmp size (exchange_func base_addr size) (b * size) n st)
    (fun st' => ok st' /\ moves b (b + n) st st' /\ sorted_on b (b + n) st'.1).
Proof.
  intros Hok Hb Hn Hbn. unfold insertion_sort.
  apply (wp_loop (fun '(pi, st') => exists i, pi = i * size /\ b + 1 <= i <= Z.max (b + 1) (b + n) /\ ok st' /\
      moves b (b + n) st st' /\ sorted_on b i st'.1)
    (fun '(pi, _) => Z.max (b * size + size) (b * size + n * size) / size - pi / size)).
  2:{ exists (b + 1). split_and!; try done; try lia; [apply within_refl|]. intros x y Hx Hy. lia. }
  2:{ replace (Z.max (b * size + size) (b * size + n * size)) with ((Z.max (b + 1) (b + n)) * size) by nia.
      replace (b * size + size) with ((b + 1) * size) by lia. rewrite !Z.div_mul by lia. lia. }
  intros [pi st1] (i & -> & Hi & Hok1 & Hm & Hs).
  destruct (Z.ltb_spec (i * size) (b * size + n * size)) as [Hlt|Hge].
  - assert (i < b + n) by nia. apply wp_bind. eapply wp_mono; [by apply (insert_down_spec b i); [..|lia|]|].
    intros st2 (Hok2 & Hm2 & Hs2). apply wp_ret. split.
    + exists (i + 1). split_and!; try done; try lia.
      eapply within_trans; [lia| |exact Hm|]; [lia|]. eapply within_wider; [| |exact Hm2]; lia.
    + replace (Z.max (b * size + size) (b * size + n * size)) with ((Z.max (b + 1) (b + n)) * size) by nia.
      replace (i * size + size) with ((i + 1) * size) by lia. rewrite !Z.div_mul by lia. lia.
  - apply wp_ret. split_and!; try done. intros x y Hx Hy. apply Hs; [lia|nia].
Qed.

(** *** Heap sort *)

(** [e k] is element [k] of the array at [b]; the heap order holds for every
    child whose parent is at least [lo] and not [skip]. *)
Definition heap_but (b lo n skip : Z) (mem : list Z) : Prop :=
  forall k, 0 < k < n -> lo <= (k - 1) / 2 -> (k - 1) / 2 <> skip ->
    le (el mem (b + k)) (el mem (b + (k - 1) / 2)).

Definition heap (b lo n : Z) (mem : list Z) : Prop := heap_but b lo n (-1) mem.

Lemma half_bounds k : 2 * (k / 2) <= k <= 2 * (k / 2) + 1.
Proof. pose proof (Z.div_mod k 2). pose proof (Z.mod_pos_bound k 2). lia. Qed.

Lemma parent_child k r : (k - 1) / 2 = r <-> k = 2 * r + 1 \/ k = 2 * r + 2.
Proof. pose proof (half_bounds (k - 1)). lia. Qed.

(** The choice of the larger child of [r]. *)
Lemma heap_child_spec b n r (st : State) :
  ok st -> 0 <= b -> b + n <= N -> 0 <= r -> 2 * r + 1 < n ->
  wp (if (r * size) * 2 + size <? n * size - size then
        '(k, st) ← cmp_at cmp size (b * size + ((r * size) * 2 + size)) (b * size + ((r * size) * 2 + size) + size) st;
        if k <=? 0 then Ret ((r * size) * 2 + size + size, st) else Ret ((r * size) * 2 + size, st)
      else Ret ((r * size) * 2 + size, st))
    (fun '(c, st') => st'.1 = st.1 /\ exists d, c = d * size /\ (d - 1) / 2 = r /\ d < n /\
      forall k, 0 < k < n -> (k - 1) / 2 = r -> k <> d -> le (el st.1 (b + k)) (el st.1 (b + d))).
Proof.
  intros Hok Hb Hbn Hr Hc.
  destruct (Z.ltb_spec ((r * size) * 2 + size) (n * size - size)) as [Hlt|Hge].
  - assert (2 * r + 2 < n) by nia.
    apply wp_bind, (wp_cmp_at _ _ (b + (2 * r + 1)) (b + (2 * r + 2))); [done|lia|lia|lia|lia|].
    intros k o' H1 H2. destruct (Z.leb_spec k 0).
    + apply wp_ret. split; [done|]. exists (2 * r + 2). split_and!; [lia|apply parent_child; lia|lia|].
      intros j Hj Hp Hne. apply parent_child in Hp as [-> | ->]; [apply H1; lia|lia].
    + apply wp_ret. split; [done|]. exists (2 * r + 1). split_and!; [lia|apply parent_child; lia|lia|].
      intros j Hj Hp Hne. apply parent_child in Hp as [-> | ->]; [lia|apply H2; lia].
  - apply wp_ret. split; [done|]. exists (2 * r + 1). split_and!; [lia|apply parent_child; lia|lia|].
    intros j Hj Hp Hne. apply parent_child in Hp as [-> | ->]; nia.
Qed.

Lemma heap_sift_spec base b lo n r0 (st : State) :
  ok st -> 0 <= b -> b + n <= N -> 0 <= lo <= r0 -> r0 < n ->
  heap_but b lo n r0 st.1 ->
  (forall k, 0 < k < n -> (k - 1) / 2 = r0 -> 0 < r0 -> lo <= (r0 - 1) / 2 ->
     le (el st.1 (b + k)) (el st.1 (b + (r0 - 1) / 2))) ->
  wp (heap_sift cmp size (exchange_func base size) (b * size) (n * size) (r0 * size) st)
    (fun st' => ok st' /\ moves b (b + n) st st' /\ heap b lo n st'.1).
Proof.
  intros Hok Hb Hbn Hlo Hr0 Hh Hg. unfold heap_sift.
  apply (wp_loop (fun '(rp, st') => exists r, rp = r * size /\ lo <= r < n /\ ok st' /\
      moves b (b + n) st st' /\ heap_but b lo n r st'.1 /\
      (forall k, 0 < k < n -> (k - 1) / 2 = r -> 0 < r -> lo <= (r - 1) / 2 ->
         le (el st'.1 (b + k)) (el st'.1 (b + (r - 1) / 2))))
    (fun '(rp, _) => n * size - rp)).
  2:{ exists r0. split_and!; try done; try lia. apply within_refl. }
  2:{ nia. }
  intros [rp st1] (r & -> & Hr & Hok1 & Hm & Hh1 & Hg1).
  destruct (Z.ltb_spec (r * size * 2 + size) (n * size)) as [Hlt|Hge].
  2:{ apply wp_ret. split_and!; try done. intros k Hk Hp _.
      apply Hh1; [done|done|]. intros E. apply parent_child in E. nia. }
  assert (2 * r + 1 < n) by nia.
  apply wp_bind. eapply wp_mono; [apply heap_child_spec; done || lia|].
  intros [c st2] (E2 & d & -> & Hd & Hdn & Hother). apply parent_child in Hd as Hd2.
  assert (ok st2) as Hok2 by (unfold ok; by rewrite E2).
  apply wp_bind, (wp_cmp_at _ _ (b + r) (b + d)); [done|lia|lia|lia|lia|].
  rewrite E2. intros k o' Hk1 Hk2. destruct (Z.gtb_spec k 0) as [Hkp|Hkn].
  - apply wp_ret. cbn [fst]. split_and!; [done|done|]. intros x Hx Hp _.
    destruct (decide ((x - 1) / 2 = r)) as [E|Hne]; [|by apply Hh1].
    rewrite E. destruct (decide (x = d)) as [->|Hxd]; [apply Hk2; lia|].
    eapply le_trans; [by apply Hother|apply Hk2; lia].
  - apply wp_bind, (wp_swap_elem _ _ _ (b + r) (b + d)); [done|lia|lia|lia|lia|].
    intros st3 Hok3 Hz3 Hx3. cbn [fst] in Hz3, Hx3. apply wp_ret. split; [|nia].
    exists d. split_and!; try done; try lia.
    + eapply within_trans; [lia| |exact Hm|]; [lia|]. eapply zperm_within; [done|exact Hx3|lia..].
    + intros x Hx Hp Hne. pose proof (half_bounds (x - 1)). rewrite !Hx3 by lia.
      destruct (decide ((x - 1) / 2 = r)) as [E|Hpr].
      * rewrite (zperm_l _ _ (b + (x - 1) / 2)) by lia.
        destruct (decide (x = d)) as [->|Hxd]; [zperm_at (b + d); apply Hk1; lia|].
        zperm_at (b + x). by apply Hother.
      * rewrite (zperm_other _ _ (b + (x - 1) / 2)) by lia.
        destruct (decide (x = r)) as [->|Hxr]; [zperm_at (b + r); apply Hg1; lia|].
        zperm_at (b + x). by apply Hh1.
    + intros x Hx Hp _ _. pose proof (half_bounds (x - 1)). rewrite Hd. rewrite !Hx3 by lia.
      zperm_at (b + r). zperm_at (b + x). rewrite <- Hp. apply Hh1; lia.
Qed.

Lemma heap_max b n mem : heap b 0 n mem -> forall k, 0 <= k < n -> le (el mem (b + k)) (el mem b) \/ k = 0.
Proof.
  intros Hh k Hk. assert (0 <= k) as H0 by lia. revert k H0 Hk.
  refine (Z_lt_induction _ _). intros k IH Hk. destruct (decide (k = 0)) as [->|Hne]; [by right|left].
  pose proof (half_bounds (k - 1)).
  destruct (IH ((k - 1) / 2)) as [Hle|E]; [lia|lia| |].
  - eapply le_trans; [|exact Hle]. apply Hh; lia.
  - pose proof (Hh k ltac:(lia) ltac:(lia) ltac:(lia)) as Hp. by rewrite E, Z.add_0_r in Hp.
Qed.

Lemma heapify_spec b n (st : State) :
  ok st -> 0 <= b -> 1 < n -> b + n <= N ->
  wp (loop (S (Z.to_nat n)) (fun '(i, st) =>
        if i >? 0 then
          let i := i - size in
          st ← heap_sift cmp size (exchange_func (base_addr + b * size) size) (b * size) (n * size) i st;
          Ret (inl (i, st))
        else Ret (inr st)) (n / 2 * size, st))
    (fun st' => ok st' /\ moves b (b + n) st st' /\ heap b 0 n st'.1).
Proof.
  intros Hok Hb Hn Hbn. pose proof (half_bounds n).
  apply (wp_loop (fun '(i, st') => exists r, i = r * size /\ 0 <= r <= n / 2 /\ ok st' /\
      moves b (b + n) st st' /\ heap b r n st'.1) (fun '(i, _) => i / size)).
  2:{ exists (n / 2). split_and!; try done; try lia; [apply within_refl|].
      intros k Hk Hp. pose proof (half_bounds (k - 1)). lia. }
  2:{ rewrite Z.div_mul by lia. lia. }
  intros [i st1] (r & -> & Hr & Hok1 & Hm & Hh).
  destruct (Z.gtb_spec (r * size) 0) as [Hgt|Hle].
  - assert (0 < r) by nia. cbn zeta. replace (r * size - size) with ((r - 1) * size) by lia.
    apply wp_bind. eapply wp_mono; [apply (heap_sift_spec _ b (r - 1) n (r - 1)); try done; try lia|].
    + intros k Hk Hp Hne. apply Hh; lia.
    + intros k Hk Hp Hr1 Hp1. pose proof (half_bounds (r - 1 - 1)). lia.
    + intros st2 (Hok2 & Hm2 & Hh2). apply wp_ret. split.
      * exists (r - 1). split_and!; try done; try lia.
        eapply within_trans; [lia| |exact Hm|exact Hm2]; lia.
      * rewrite !Z.div_mul by lia. lia.
  - apply wp_ret. assert (r = 0) as -> by nia. done.
Qed.

Lemma heapsortx_spec b n (st : State) :
  ok st -> 0 <= b -> 0 <= n -> b + n <= N ->
  wp (heapsortx cmp base_addr size (b * size) n st)
    (fun st' => ok st' /\ moves b (b + n) st st' /\ sorted_on b (b + n) st'.1).
Proof.
  intros Hok Hb Hn Hbn. unfold heapsortx. destruct (Z.gtb_spec n 1) as [Hgt|Hle].
  2:{ apply wp_ret. split_and!; [done|apply within_refl|]. intros x y Hx Hy. lia. }
  cbn zeta. apply wp_bind. eapply wp_mono; [by apply heapify_spec|].
  intros st1 (Hok1 & Hm1 & Hh1).
  apply (wp_loop (fun '(i, st') => exists r, i = r * size /\ 0 <= r < n /\ ok st' /\
      moves b (b + n) st st' /\ heap b 0 (r + 1) st'.1 /\
      (forall x y, b <= x < y -> b + r < y < b + n -> le (el st'.1 x) (el st'.1 y)))
    (fun '(i, _) => i / size)).
  2:{ exists (n - 1). split_and!; try done; try lia; by replace (n - 1 + 1) with n by lia. }
  2:{ replace (n * size - size) with ((n - 1) * size) by lia. rewrite Z.div_mul by lia. lia. }
  intros [i st2] (r & -> & Hr & Hok2 & Hm2 & Hh2 & Hs2).
  destruct (Z.gtb_spec (r * size) 0) as [Hrp|Hrz].
  2:{ assert (r = 0) as -> by nia. apply wp_ret. split_and!; try done. intros x y Hx Hy. apply Hs2; lia. }
  assert (0 < r) by nia.
  apply wp_bind, (wp_swap_elem _ _ _ b (b + r)); [done|done|lia|lia|lia|].
  intros st3 Hok3 Hz3 Hx3. apply wp_bind.
  assert (forall k, 0 <= k < r -> le (el st3.1 (b + k)) (el st3.1 (b + r))) as Hmax.
  { intros k Hk. rewrite !Hx3 by lia. zperm_at (b + r). destruct (decide (k = 0)) as [->|Hk0].
    - rewrite Z.add_0_r. zperm_at b. destruct (heap_max _ _ _ Hh2 r ltac:(lia)) as [?|?]; [done|lia].
    - zperm_at (b + k). destruct (heap_max _ _ _ Hh2 k ltac:(lia)) as [?|?]; [done|lia]. }
  eapply wp_mono; [apply (heap_sift_spec _ b 0 r 0); try done; try lia|].
  { intros k Hk Hp Hne. pose proof (half_bounds (k - 1)). rewrite !Hx3 by lia.
    zperm_at (b + k). zperm_at (b + (k - 1) / 2). apply Hh2; lia. }
  intros st4 (Hok4 & Hm4 & Hh4). apply wp_ret.
  assert (moves b (b + r) st3 st4) as Hm4' by done.
  split.
  - exists (r - 1). split_and!; try done; try lia.
    + eapply within_trans; [lia| |exact Hm2|]; [lia|].
      apply (within_trans _ _ _ _ _ st3.1); [lia|lia| |].
      * eapply zperm_within; [done|exact Hx3|lia..].
      * eapply within_wider; [| |exact Hm4']; lia.
    + by replace (r - 1 + 1) with r by lia.
    + intros x y Hx Hy. destruct (decide (y = b + r)) as [->|Hyr].
      * rewrite (within_outside _ _ _ _ _ _ (b + r) Hm4') by lia.
        apply (within_all size N b (b + r) st3.1 st4.1 (fun e => le e (el st3.1 (b + r)))); [lia|lia|done| |lia].
        intros z Hz. replace z with (b + (z - b)) by lia. apply Hmax. lia.
      * rewrite (within_outside _ _ _ _ _ _ y Hm4') by lia.
        assert (forall z, b <= z < y -> le (el st3.1 z) (el st3.1 y)) as Hz.
        { intros z Hz. rewrite !Hx3 by lia. zperm_at y. apply Hs2; [|lia]. zperm_cases. }
        destruct (decide (x < b + r)) as [Hxr|Hxr].
        -- apply (within_all size N b (b + r) st3.1 st4.1 (fun e => le e (el st3.1 y))); [lia|lia|done| |lia].
           intros z Hz'. apply Hz. lia.
        -- rewrite (within_outside _ _ _ _ _ _ x Hm4') by lia. apply Hz. lia.
  - replace (r * size - size) with ((r - 1) * size) by lia. rewrite !Z.div_mul by lia. lia.
Qed.

(** *** Partition *)

Lemma med3_spec i j k (st : State) :
  ok st -> 0 <= i < N -> 0 <= j < N -> 0 <= k < N ->
  wp (med3 cmp size (i * size) (j * size) (k * size) st)
    (fun '(m, st') => st'.1 = st.1 /\ (m = i * size \/ m = j * size \/ m = k * size)).
Proof.
  intros Hok Hi Hj Hk. unfold med3.
  apply wp_bind, (wp_cmp_at _ _ i j); [done..|]. intros c1 o1 _ _.
  assert (forall o, ok (st.1, o)) as Hok' by done.
  destruct (c1 <? 0).
  all: apply wp_bind, (wp_cmp_at _ _ j k); [done..|]; intros c2 o2 _ _; cbn [fst].
  1: destruct (c2 <? 0); [apply wp_ret; auto|].
  2: destruct (c2 >? 0); [apply wp_ret; auto|].
  all: apply wp_bind, (wp_cmp_at _ _ i k); [done..|]; intros c3 o3 _ _; cbn [fst].
  all: destruct (c3 <? 0); apply wp_ret; auto.
Qed.

(** Equal to the pivot, for the comparator. *)
Definition eqv (piv e : list Z) : Prop := le e piv /\ le piv e.

(** The array while it is partitioned: [lt], [i], [j], [gt] are element
    indices relative to the base [b]. *)
Record part_inv (b n : Z) (piv : list Z) (lt i j gt : Z) (mem : list Z) : Prop := {
  pa_pivot : el mem b = piv;
  pa_lt : forall x, 0 <= x < lt -> eqv piv (el mem (b + x));
  pa_less : forall x, lt <= x < i -> le (el mem (b + x)) piv;
  pa_greater : forall x, j <= x < gt -> le piv (el mem (b + x));
  pa_gt : forall x, gt <= x < n -> eqv piv (el mem (b + x));
}.

Lemma eqv_le piv e : eqv piv e -> le e piv.
Proof. by intros [? ?]. Qed.
Lemma eqv_ge piv e : eqv piv e -> le piv e.
Proof. by intros [? ?]. Qed.

Lemma part_left_spec b n piv lt0 i0 j gt (st : State) :
  ok st -> 0 <= b -> b + n <= N -> 1 <= lt0 <= i0 -> i0 <= j <= gt -> gt <= n ->
  part_inv b n piv lt0 i0 j gt st.1 ->
  wp (part_left cmp size (exchange_func base_addr size) (b * size) ((b + j) * size)
        ((b + i0) * size) ((b + lt0) * size) i0 lt0 st)
    (fun '(pi, plt, i, lt, st') => pi = (b + i) * size /\ plt = (b + lt) * size /\
      1 <= lt <= i /\ i0 <= i <= j /\ ok st' /\ moves b (b + n) st st' /\
      part_inv b n piv lt i j gt st'.1 /\ (i < j -> le piv (el st'.1 (b + i)))).
Proof.
  intros Hok Hb Hbn Hlt0 Hi0 Hgt Hinv. unfold part_left.
  apply (wp_loop (fun '(pi, plt, i, lt, st') => pi = (b + i) * size /\ plt = (b + lt) * size /\
      1 <= lt <= i /\ i0 <= i <= j /\ ok st' /\ moves b (b + n) st st' /\ part_inv b n piv lt i j gt st'.1)
    (fun '(_, _, i, _, _) => j - i)).
  2:{ split_and!; try done; try lia. apply within_refl. }
  2:{ nia. }
  intros [[[[pi plt] i] lt] st1] (-> & -> & Hlt & Hi & Hok1 & Hm & [P1 P2 P3 P4 P5]).
  destruct (Z.ltb_spec ((b + i) * size) ((b + j) * size)) as [Hlt'|Hge].
  2:{ apply wp_ret. split_and!; try done; try lia. nia. }
  assert (i < j) by nia.
  apply wp_bind, (wp_cmp_at _ _ b (b + i)); [done|done|done|lia|lia|]. intros c o' Hc1 Hc2.
  rewrite Z.geb_leb. destruct (Z.leb_spec 0 c) as [Hc|Hc].
  2:{ apply wp_ret. cbn [fst]. split_and!; try done; try lia. intros _. rewrite <- P1. apply Hc1. lia. }
  rewrite P1 in Hc1, Hc2. destruct (Z.eqb_spec c 0) as [->|Hne]; cbn [mbind outcome_bind].
  - apply wp_bind, wp_bind, (wp_swap_elem _ _ _ (b + lt) (b + i)); [done|done|done|lia|lia|].
    intros st2 Hok2 Hz2 Hx2. cbn [fst] in Hx2, Hz2. do 2 apply wp_ret. split; [|lia].
    split_and!; try done; try lia.
    + eapply within_trans; [lia| |exact Hm|]; [lia|]. eapply zperm_within; [done|exact Hx2|lia..].
    + split.
      * rewrite Hx2 by lia. by zperm_at b.
      * intros x Hx. rewrite Hx2 by lia. destruct (decide (x = lt)) as [->|Hxl].
        -- zperm_at (b + lt). split; [apply Hc2|apply Hc1]; lia.
        -- zperm_at (b + x). apply P2. lia.
      * intros x Hx. rewrite Hx2 by lia. destruct (decide (x = i)) as [->|Hxi].
        -- zperm_at (b + i). apply P3. lia.
        -- zperm_at (b + x). apply P3. lia.
      * intros x Hx. rewrite Hx2 by lia. zperm_at (b + x). by apply P4.
      * intros x Hx. rewrite Hx2 by lia. zperm_at (b + x). by apply P5.
  - apply wp_ret. split; [|lia]. split_and!; try done; try lia. split; try done.
    intros x Hx. destruct (decide (x = i)) as [->|Hxi]; [apply Hc2; lia|apply P3; lia].
Qed.

Lemma part_right_spec b n piv lt i j0 gt0 (st : State) :
  ok st -> 0 <= b -> b + n <= N -> 1 <= lt <= i -> i <= j0 <= gt0 -> gt0 <= n ->
  part_inv b n piv lt i j0 gt0 st.1 -> (i < j0 -> le piv (el st.1 (b + i))) ->
  wp (part_right cmp size (exchange_func base_addr size) (b * size) ((b + i) * size)
        ((b + j0) * size) ((b + gt0) * size) gt0 st)
    (fun '(pj, pgt, gt, st') => exists j, pj = (b + j) * size /\ pgt = (b + gt) * size /\
      j < j0 /\ j < gt <= n /\ i <= gt /\ ok st' /\ moves b (b + n) st st' /\
      part_inv b n piv lt i (Z.max i (j + 1)) gt st'.1 /\
      (i < j0 -> le piv (el st'.1 (b + i))) /\ (i < j -> le (el st'.1 (b + j)) piv) /\ (i < j0 -> i <= j)).
Proof.
  intros Hok Hb Hbn Hlt Hj0 Hgt0 Hinv Hpi. unfold part_right.
  apply (wp_loop (fun '(pj, pgt, gt, st') => exists j, pj = (b + j) * size /\ pgt = (b + gt) * size /\
      i <= j <= j0 /\ (i < j0 -> i < j) /\ j <= gt <= n /\ ok st' /\ moves b (b + n) st st' /\
      part_inv b n piv lt i j gt st'.1 /\ (i < j0 -> le piv (el st'.1 (b + i))))
    (fun '(pj, _, _, _) => (pj - b * size) / size - i)).
  2:{ exists j0. split_and!; try done; try lia. apply within_refl. }
  2:{ replace ((b + j0) * size - b * size) with (j0 * size) by lia. rewrite Z.div_mul by lia. nia. }
  intros [[[pj pgt] gt] st1] (j & -> & -> & Hj & Hij & Hgt & Hok1 & Hm & [P1 P2 P3 P4 P5] & Hp).
  cbn zeta. replace ((b + j) * size - size) with ((b + (j - 1)) * size) by lia.
  assert (Hmeas : forall k, ((b + k) * size - b * size) / size = k).
  { intros k. replace ((b + k) * size - b * size) with (k * size) by lia. apply Z.div_mul. lia. }
  destruct (Z.ltb_spec ((b + i) * size) ((b + (j - 1)) * size)) as [Hlt'|Hge].
  2:{ apply wp_ret. assert (j <= i + 1) by nia. exists (j - 1). split_and!; try done; try lia.
      split; try done. intros x Hx. destruct (decide (x = i)) as [->|Hxi].
      - destruct (decide (i < j0)); [auto|]. apply P4. lia.
      - apply P4. lia. }
  assert (i < j - 1) by nia.
  apply wp_bind, (wp_cmp_at _ _ b (b + (j - 1))); [done|done|done|lia|lia|]. intros c o' Hc1 Hc2.
  rewrite P1 in Hc1, Hc2. destruct (Z.leb_spec c 0) as [Hc|Hc].
  2:{ apply wp_ret. exists (j - 1). cbn [fst]. split_and!; try done; try lia.
      - split; try done. intros x Hx. apply P4. lia.
      - intros _. apply Hc2. lia. }
  destruct (Z.eqb_spec c 0) as [->|Hne].
  - apply wp_bind, (wp_swap_elem _ _ _ (b + (gt - 1)) (b + (j - 1))); [done|lia|done|lia|lia|].
    intros st2 Hok2 Hz2 Hx2. cbn [fst] in Hx2, Hz2. apply wp_ret. split; [|rewrite !Hmeas; lia].
    exists (j - 1). split_and!; try done; try lia.
    + eapply within_trans; [lia| |exact Hm|]; [lia|]. eapply zperm_within; [done|exact Hx2|lia..].
    + split.
      * rewrite Hx2 by lia. by zperm_at b.
      * intros x Hx. rewrite Hx2 by lia. zperm_at (b + x). by apply P2.
      * intros x Hx. rewrite Hx2 by lia. zperm_at (b + x). by apply P3.
      * intros x Hx. rewrite Hx2 by lia. destruct (decide (x = j - 1)) as [->|Hxj].
        -- zperm_at (b + (j - 1)). destruct (decide (gt = j)) as [->|Hgj]; [apply Hc1; lia|apply P4; lia].
        -- zperm_at (b + x). apply P4. lia.
      * intros x Hx. rewrite Hx2 by lia. destruct (decide (x = gt - 1)) as [->|Hxg].
        -- zperm_at (b + (gt - 1)). split; [apply Hc2|apply Hc1]; lia.
        -- zperm_at (b + x). apply P5. lia.
    + intros Hi. rewrite Hx2 by lia. zperm_at (b + i). auto.
  - apply wp_ret. split; [|rewrite !Hmeas; lia]. exists (j - 1). cbn [fst]. split_and!; try done; try lia.
    split; try done. intros x Hx. destruct (decide (x = j - 1)) as [->|Hxj]; [apply Hc1; lia|apply P4; lia].
Qed.

Lemma partition_spec b n (st : State) :
  ok st -> 0 <= b -> b + n <= N -> 1 <= n ->
  wp (partition cmp size (exchange_func base_addr size) (b * size) n st)
    (fun '(pi, plt, pgt, i, lt, gt, st') => pi = (b + i) * size /\ plt = (b + lt) * size /\
      pgt = (b + gt) * size /\ 1 <= lt <= i /\ i <= gt <= n /\ ok st' /\ moves b (b + n) st st' /\
      part_inv b n (el st.1 b) lt i i gt st'.1).
Proof.
  intros Hok Hb Hbn Hn. unfold partition. cbn zeta.
  apply (wp_loop (fun '(pi, pj, plt, pgt, i, lt, gt, st') => exists j, pi = (b + i) * size /\
      pj = (b + j) * size /\ plt = (b + lt) * size /\ pgt = (b + gt) * size /\
      1 <= lt <= i /\ i <= j <= gt /\ gt <= n /\ ok st' /\ moves b (b + n) st st' /\
      part_inv b n (el st.1 b) lt i j gt st'.1)
    (fun '(_, _, _, _, i, _, _, _) => n - i)).
  2:{ exists n. split_and!; try done; try lia; [apply within_refl|].
      assert (le (el st.1 b) (el st.1 b)).
      { destruct (cmp_le (el st.1 b) (el st.1 b) st.2) as [H1 H2].
        destruct (decide ((cmp (el st.1 b) (el st.1 b) st.2).1 <= 0)); [auto|apply H2; lia]. }
      split; try done; intros x Hx; try lia. by replace (b + x) with b by lia. }
  2:{ lia. }
  intros [[[[[[[pi pj] plt] pgt] i] lt] gt] st1]
    (j & -> & -> & -> & -> & Hlt & Hj & Hgt & Hok1 & Hm & Hinv).
  apply wp_bind. eapply wp_mono; [by apply (part_left_spec b n (el st.1 b) lt i j gt)|].
  intros [[[[pi1 plt1] i1] lt1] st2] (-> & -> & Hlt1 & Hi1 & Hok2 & Hm2 & Hinv2 & Hp2).
  apply wp_bind. eapply wp_mono; [apply (part_right_spec b n (el st.1 b) lt1 i1 j gt); try done; lia|].
  intros [[[pj2 pgt2] gt2] st3] (j2 & -> & -> & Hj2 & Hgt2 & Hig & Hok3 & Hm3 & Hinv3 & Hp3 & Hq3 & Hij).
  assert (moves b (b + n) st st3) as Hm13.
  { eapply within_trans; [lia| | |exact Hm3]; [lia|].
    eapply within_trans; [lia| |exact Hm|exact Hm2]. lia. }
  rewrite Z.geb_leb. destruct (Z.leb_spec ((b + j2) * size) ((b + i1) * size)) as [Hle|Hgt'].
  - apply wp_ret. assert (j2 <= i1) by nia. split_and!; try done; try lia.
    destruct (decide (j2 < i1)) as [Hlt'|Hge]; [by replace (Z.max i1 (j2 + 1)) with i1 in Hinv3 by lia|].
    destruct Hinv3 as [P1 P2 P3 P4 P5]. split; try done. intros x Hx.
    destruct (decide (x = i1)) as [->|Hxi]; [apply Hp3; lia|apply P4; lia].
  - assert (i1 < j2) by nia. replace (Z.max i1 (j2 + 1)) with (j2 + 1) in Hinv3 by lia.
    destruct Hinv3 as [P1 P2 P3 P4 P5].
    apply wp_bind, (wp_swap_elem _ _ _ (b + i1) (b + j2)); [done|done|done|lia|lia|].
    intros st4 Hok4 Hz4 Hx4. apply wp_ret. split; [|lia]. exists j2. split_and!; try done; try lia.
    + eapply within_trans; [lia| |exact Hm13|]; [lia|]. eapply zperm_within; [done|exact Hx4|lia..].
    + split.
      * rewrite Hx4 by lia. by zperm_at b.
      * intros x Hx. rewrite Hx4 by lia. zperm_at (b + x). by apply P2.
      * intros x Hx. rewrite Hx4 by lia. destruct (decide (x = i1)) as [->|Hxi].
        -- zperm_at (b + i1). apply Hq3. lia.
        -- zperm_at (b + x). apply P3. lia.
      * intros x Hx. rewrite Hx4 by lia. destruct (decide (x = j2)) as [->|Hxj].
        -- zperm_at (b + j2). apply Hp3. lia.
        -- zperm_at (b + x). apply P4. lia.
      * intros x Hx. rewrite Hx4 by lia. zperm_at (b + x). by apply P5.
Qed.

(** The three parts of a segment after a partition step. *)
Definition three_parts (lo l g hi : Z) (mem : list Z) : Prop :=
  exists piv, (forall x, lo <= x < l -> le (el mem x) piv) /\
    (forall x, l <= x < g -> eqv piv (el mem x)) /\ (forall x, g <= x < hi -> le piv (el mem x)).

Lemma rqsort_partition_spec b n (st : State) :
  ok st -> 0 <= b -> b + n <= N -> 6 < n ->
  wp (rqsort_partition cmp base_addr size (b * size) n st)
    (fun '(pgt, lt, gt, st') => pgt = (b + gt) * size /\ 0 <= lt < gt /\ gt <= n /\ ok st' /\
      moves b (b + n) st st' /\ three_parts b (b + lt) (b + gt) (b + n) st'.1).
Proof.
  intros Hok Hb Hbn Hn. unfold rqsort_partition. cbn zeta.
  assert (Z.shiftr n 2 = n / 4) as -> by (by rewrite Z.shiftr_div_pow2 by lia).
  pose proof (Z.mul_div_le n 4 ltac:(lia)). pose proof (Z.div_le_lower_bound n 4 1 ltac:(lia) ltac:(lia)).
  set (q := n / 4) in *.
  replace (b * size + q * size) with ((b + q) * size) by lia.
  replace (b * size + 2 * (q * size)) with ((b + 2 * q) * size) by lia.
  replace (b * size + 3 * (q * size)) with ((b + 3 * q) * size) by lia.
  apply wp_bind. eapply wp_mono; [apply med3_spec; done || lia|].
  intros [m st1] [E1 Hm]. assert (ok st1) as Hok1 by (unfold ok; by rewrite E1).
  assert (exists k, m = (b + k) * size /\ 0 <= k < n) as (k & -> & Hk).
  { destruct Hm as [->|[->| ->]]; [exists q|exists (2 * q)|exists (3 * q)]; lia. }
  apply wp_bind, (wp_swap_elem _ _ _ b (b + k)); [done|done|done|lia|lia|].
  intros st2 Hok2 Hz2 Hx2. rewrite E1 in Hz2, Hx2.
  assert (moves b (b + n) st st2) as Hm2 by (eapply zperm_within; [done|exact Hx2|lia..]).
  apply wp_bind. eapply wp_mono; [apply (partition_spec b n); done || lia|].
  intros [[[[[[pi plt] pgt] i] lt] gt] st3] (-> & -> & -> & Hlt & Hgt & Hok3 & Hm3 & [_ P2 P3 P4 P5]).
  set (piv := el st2.1 b) in *.
  replace ((b + lt) * size - b * size) with (lt * size) by lia.
  replace ((b + i) * size - (b + lt) * size) with ((i - lt) * size) by lia.
  assert (forall x y, (if x * size >? y * size then y * size else x * size) = Z.min x y * size) as Hmin.
  { intros x y. destruct (Z.gtb_spec (x * size) (y * size)); nia. }
  rewrite Hmin. set (s1 := Z.min lt (i - lt)).
  apply wp_bind, (wp_swap_at _ _ _ s1 _ b (b + i - s1)); try done; try lia.
  { apply swap_block_spec; lia. }
  intros st4 Hok4 Hz4 Hx4.
  replace (b * size + n * size - (b + gt) * size) with ((n - gt) * size) by lia.
  replace ((b + gt) * size - (b + i) * size) with ((gt - i) * size) by lia.
  rewrite Hmin. set (s2 := Z.min (n - gt) (gt - i)).
  apply wp_bind, (wp_swap_at _ _ _ s2 _ (b + i) (b + n - s2)); try done; try lia.
  { apply swap_block_spec; lia. }
  intros st5 Hok5 Hz5 Hx5. apply wp_ret. split_and!; try done; try lia.
  - eapply within_trans; [lia| |exact Hm2|]; [lia|]. eapply within_trans; [lia| |exact Hm3|]; [lia|].
    apply (within_trans _ _ _ _ _ st4.1); [lia|lia| |].
    + eapply zperm_within; [done|exact Hx4|lia..].
    + eapply zperm_within; [done|exact Hx5|lia..].
  - exists piv.
    assert (Q2 : forall x, b <= x < b + lt -> eqv piv (el st3.1 x))
      by (intros x Hx; replace x with (b + (x - b)) by lia; apply P2; lia).
    assert (Q3 : forall x, b + lt <= x < b + i -> le (el st3.1 x) piv)
      by (intros x Hx; replace x with (b + (x - b)) by lia; apply P3; lia).
    assert (Q4 : forall x, b + i <= x < b + gt -> le piv (el st3.1 x))
      by (intros x Hx; replace x with (b + (x - b)) by lia; apply P4; lia).
    assert (Q5 : forall x, b + gt <= x < b + n -> eqv piv (el st3.1 x))
      by (intros x Hx; replace x with (b + (x - b)) by lia; apply P5; lia).
    clear -Hx4 Hx5 Q2 Q3 Q4 Q5 Hlt Hgt Hb.
    assert (forall x, 0 <= x -> el st5.1 x = el st3.1 (zperm b (b + i - s1) s1 (zperm (b + i) (b + n - s2) s2 x))) as Hx.
    { intros x Hx0. rewrite Hx5, Hx4 by (zperm_cases). done. }
    split_and!; intros x Hr; rewrite Hx by lia; unfold s1, s2.
    + apply Q3. zperm_cases.
    + destruct (decide (x < b + i)); [apply Q2; zperm_cases|apply Q5; zperm_cases].
    + apply Q4. zperm_cases.
Qed.

(** *** Pending segments *)

(** [segs] are the segments [lo, hi) still to be sorted; elements that are not
    in a common segment are in their final order. *)
Fixpoint disjoint_segs (segs : list (Z * Z)) : Prop :=
  match segs with
  | [] => True
  | (lo, hi) :: r => 0 <= lo <= hi /\ hi <= N /\ Forall (fun s => hi <= s.1 \/ s.2 <= lo) r /\ disjoint_segs r
  end.

Definition ordered_but (segs : list (Z * Z)) (mem : list Z) : Prop :=
  forall x y, 0 <= x < y -> y < N -> Forall (fun s => ~ (s.1 <= x /\ y < s.2)) segs ->
    le (el mem x) (el mem y).

Definition pending (segs : list (Z * Z)) (mem : list Z) : Prop :=
  disjoint_segs segs /\ ordered_but segs mem.

Lemma pending_within lo hi segs m1 m2 :
  pending ((lo, hi) :: segs) m1 -> within size N lo hi m1 m2 -> pending ((lo, hi) :: segs) m2.
Proof.
  intros [(Hlo & Hhi & Hd & Hds) Hord] [_ (f & F1 & F2 & F3 & F4)]. split; [done|].
  intros x y Hx Hy Hn. rewrite !F1 by lia. apply Forall_cons in Hn as [Hn0 Hn]. cbn [fst snd] in Hn0.
  destruct (decide (lo <= x < hi)) as [Hxi|Hxo], (decide (lo <= y < hi)) as [Hyi|Hyo].
  - lia.
  - rewrite (F4 y Hyo). pose proof (F3 x Hxi). apply Hord; [lia|done|]. constructor; [simpl; lia|].
    eapply Forall_impl; [exact Hd|]. intros [l h]. simpl. lia.
  - rewrite (F4 x Hxo). pose proof (F3 y Hyi). apply Hord; [lia|lia|]. constructor; [simpl; lia|].
    eapply Forall_impl; [exact Hd|]. intros [l h]. simpl. lia.
  - rewrite (F4 x Hxo), (F4 y Hyo). apply Hord; [done|done|]. by constructor.
Qed.

Lemma pending_split lo l g hi segs mem :
  pending ((lo, hi) :: segs) mem -> three_parts lo l g hi mem -> lo <= l -> l <= g -> g <= hi ->
  pending ((lo, l) :: (g, hi) :: segs) mem /\ pending ((g, hi) :: (lo, l) :: segs) mem.
Proof.
  intros [(Hlo & Hhi & Hd & Hds) Hord] (piv & T1 & T2 & T3) Hl Hg Hh.
  assert (Hs : forall x y, 0 <= x < y -> y < N -> ~ (lo <= x /\ y < l) -> ~ (g <= x /\ y < hi) ->
    Forall (fun s : Z * Z => ~ (s.1 <= x /\ y < s.2)) segs -> le (el mem x) (el mem y)).
  { intros x y Hx Hy H1 H2 Hn. destruct (decide (lo <= x /\ y < hi)) as [Hin|Hout].
    - eapply (le_trans _ piv).
      + destruct (decide (x < l)); [apply T1; lia|apply T2; lia].
      + destruct (decide (y < g)); [apply T2; lia|apply T3; lia].
    - apply Hord; [done|done|]. by constructor. }
  assert (Forall (fun s : Z * Z => l <= s.1 \/ s.2 <= lo) segs) as Hd1
    by (eapply Forall_impl; [exact Hd|]; intros [? ?]; simpl; lia).
  assert (Forall (fun s : Z * Z => hi <= s.1 \/ s.2 <= g) segs) as Hd2
    by (eapply Forall_impl; [exact Hd|]; intros [? ?]; simpl; lia).
  split; (split; [|intros x y Hx Hy Hn; apply Forall_cons in Hn as [? Hn]; apply Forall_cons in Hn as [? ?]; by apply Hs]).
  - simpl. split_and!; try done; try lia. constructor; [simpl; lia|done].
  - simpl. split_and!; try done; try lia. constructor; [simpl; lia|done].
Qed.

Lemma pending_done lo hi segs mem :
  pending ((lo, hi) :: segs) mem -> sorted_on lo hi mem -> pending segs mem.
Proof.
  intros [(Hlo & Hhi & Hd & Hds) Hord] Hs. split; [done|]. intros x y Hx Hy Hn.
  destruct (decide (lo <= x /\ y < hi)); [apply Hs; lia|]. apply Hord; [done|done|]. by constructor.
Qed.

(** *** The stack of [rqsort] *)

(** Stack cells, the top first, with the base as an element index. *)
Definition enc (c : Z * Z * Z) : cell := let '(b, n, d) := c in (b * size, n, d).
Definition seg_of (c : Z * Z * Z) : Z * Z := let '(b, n, d) := c in (b, b + n).

Definition stack_rep (stack : list cell) (sp : Z) (cells : list (Z * Z * Z)) : Prop :=
  length stack = 50%nat /\ sp = zlen cells /\ exists tail, stack = reverse (enc <$> cells) ++ tail.

(** The depths on the stack strictly decrease from [d] and stay positive. *)
Fixpoint depths_ok (d : Z) (cells : list (Z * Z * Z)) : Prop :=
  match cells with
  | [] => True
  | (_, _, k) :: r => 1 <= k <= d /\ depths_ok (k - 1) r
  end.

Lemma depths_length d cells : depths_ok d cells -> zlen cells <= Z.max 0 d.
Proof.
  revert d. induction cells as [|[[b n] k] cells IH]; intros d; cbn [depths_ok].
  - intros _. change (zlen []) with 0. lia.
  - intros [Hk Hr]. rewrite zlen_cons. specialize (IH _ Hr). lia.
Qed.

(** The work left: every segment costs two per element and one more. *)
Fixpoint work (cells : list (Z * Z * Z)) : Z :=
  match cells with [] => 0 | (_, n, _) :: r => 2 * n + 1 + work r end.

Lemma stack_push stack sp cells c :
  stack_rep stack sp cells -> sp < 50 ->
  exists stack', wr stack sp (enc c) = Ret stack' /\ stack_rep stack' (sp + 1) (c :: cells).
Proof.
  intros (Hl & -> & tail & ->) Hsp. destruct tail as [|t tail].
  { exfalso. rewrite app_nil_r, length_reverse, length_fmap in Hl. unfold zlen in Hsp. lia. }
  rewrite CStr.wr_app_mid by (unfold zlen; by rewrite length_reverse, length_fmap).
  eexists. split; [done|]. split_and!.
  - rewrite length_app in *. simpl in *. lia.
  - rewrite zlen_cons. lia.
  - exists tail. rewrite fmap_cons, reverse_cons, <- app_assoc. done.
Qed.

Lemma stack_pop stack sp c cells :
  stack_rep stack sp (c :: cells) -> rd stack (sp - 1) = Ret (enc c) /\ stack_rep stack (sp - 1) cells.
Proof.
  intros (Hl & -> & tail & ->). rewrite fmap_cons, reverse_cons, <- app_assoc in *. cbn [app] in *.
  rewrite zlen_cons. replace (1 + zlen cells - 1) with (zlen cells) by lia. split.
  - apply CStr.rd_app_mid. unfold zlen. by rewrite length_reverse, length_fmap.
  - split_and!; [done|done|]. by exists (enc c :: tail).
Qed.

Definition all_moves (st st' : State) : Prop := moves 0 N st st'.

Lemma all_moves_trans st1 st2 st3 : all_moves st1 st2 -> all_moves st2 st3 -> all_moves st1 st3.
Proof. intros. eapply within_trans; [| |done|done]; lia. Qed.

Lemma rqsort_split_spec b n d stack sp cells (st : State) :
  ok st -> stack_rep stack sp cells -> 0 <= n -> 0 <= d <= 50 -> depths_ok d cells ->
  pending ((b, b + n) :: (seg_of <$> cells)) st.1 ->
  wp (rqsort_split cmp base_addr size (b * size) n d stack sp st)
    (fun '(ptr, n', stack', sp', st') => exists b' cells', ptr = b' * size /\ ok st' /\ 0 <= n' /\
      stack_rep stack' sp' cells' /\ depths_ok 50 cells' /\ all_moves st st' /\
      2 * n' + 1 + work cells' <= 2 * n + 1 + work cells /\ 0 <= b' /\ b' + n' <= N /\
      pending ((b', b' + n') :: (seg_of <$> cells')) st'.1).
Proof.
  intros Hok Hstk Hn Hd Hdep Hpend. unfold rqsort_split.
  apply (wp_loop (fun '(ptr, n', d', stack', sp', st') => exists b' cells', ptr = b' * size /\ ok st' /\
      0 <= n' /\ stack_rep stack' sp' cells' /\ 0 <= d' <= 50 /\ depths_ok d' cells' /\ all_moves st st' /\
      2 * n' + 1 + work cells' <= 2 * n + 1 + work cells /\
      pending ((b', b' + n') :: (seg_of <$> cells')) st'.1)
    (fun '(_, n', _, _, _, _) => n')).
  2:{ exists b, cells. split_and!; try done; try lia. apply within_refl. }
  2:{ lia. }
  intros [[[[[ptr n1] d1] stack1] sp1] st1]
    (b1 & cells1 & -> & Hok1 & Hn1 & Hstk1 & Hd1 & Hdep1 & Hm1 & Hw1 & Hp1).
  destruct (id Hp1) as [(Hb1 & Hbn1 & _) _].
  assert (forall d cells, d <= 50 -> depths_ok d cells -> depths_ok 50 cells) as Hmono.
  { intros d' [|[[? ?] ?] ?]; simpl; [done|]. intros ? [? ?]. split; [lia|done]. }
  destruct (Z.gtb_spec n1 6) as [Hgt|Hle].
  2:{ apply wp_ret. exists b1, cells1. split_and!; try done; try lia. by apply (Hmono d1); [lia|]. }
  cbn zeta. destruct (Z.gtb_spec (d1 + 1) 50) as [Hdeep|Hshallow].
  - apply wp_bind. eapply wp_mono; [apply heapsortx_spec; done || lia|].
    intros st2 (Hok2 & Hm2 & Hs2). apply wp_ret. exists b1, cells1. split_and!; try done; try lia.
    + by apply (Hmono d1); [lia|].
    + eapply all_moves_trans; [done|]. eapply within_wider; [| |exact Hm2]; lia.
    + pose proof (pending_within _ _ _ _ _ Hp1 Hm2) as Hp2.
      apply pending_done in Hp2 as [Hdj Hord]; [|done]. rewrite Z.add_0_r. split.
      * destruct Hp1 as [(_ & _ & Hdj1 & _) _]. simpl. split_and!; try done; try lia.
        eapply Forall_impl; [exact Hdj1|]. intros [? ?]. simpl. lia.
      * intros x y Hx Hy Hf. apply Forall_cons in Hf as [_ Hf]. by apply Hord.
  - apply wp_bind. eapply wp_mono; [apply rqsort_partition_spec; done || lia|].
    intros [[[pgt lt] gt] st2] (-> & Hlt & Hgt' & Hok2 & Hm2 & H3).
    pose proof (pending_within _ _ _ _ _ Hp1 Hm2) as Hp2.
    destruct (pending_split _ (b1 + lt) (b1 + gt) _ _ _ Hp2 H3) as [Hpa Hpb]; [lia..|].
    assert (all_moves st st2) as Hm12.
    { eapply all_moves_trans; [done|]. eapply within_wider; [| |exact Hm2]; lia. }
    assert (sp1 < 50) as Hsp1.
    { destruct Hstk1 as (_ & -> & _). pose proof (depths_length _ _ Hdep1). lia. }
    replace (b1 + n1) with (b1 + gt + (n1 - gt)) in Hpa, Hpb by lia.
    destruct (lt >? n1 - gt).
    + destruct (stack_push _ _ _ (b1, lt, d1 + 1) Hstk1 Hsp1) as (stack2 & E2 & Hstk2).
      cbn [enc] in E2. unfold cell in *. rewrite E2. cbn [mbind outcome_bind]. apply wp_ret. split; [|lia].
      exists (b1 + gt), ((b1, lt, d1 + 1) :: cells1). split_and!; try done; try lia.
      * simpl. split; [lia|]. by replace (d1 + 1 - 1) with d1 by lia.
      * cbn [work]. lia.
    + destruct (stack_push _ _ _ (b1 + gt, n1 - gt, d1 + 1) Hstk1 Hsp1) as (stack2 & E2 & Hstk2).
      cbn [enc] in E2. unfold cell in *. rewrite E2. cbn [mbind outcome_bind]. apply wp_ret. split; [|lia].
      exists b1, ((b1 + gt, n1 - gt, d1 + 1) :: cells1). split_and!; try done; try lia.
      * simpl. split; [lia|]. by replace (d1 + 1 - 1) with d1 by lia.
      * cbn [work]. lia.
Qed.

Lemma work_nonneg cells : disjoint_segs (seg_of <$> cells) -> 0 <= work cells.
Proof.
  induction cells as [|[[b n] d] cells IH]; cbn [fmap list_fmap seg_of disjoint_segs work]; [done|].
  intros (? & ? & ? & Hd). specialize (IH Hd). lia.
Qed.

Lemma rqsort_spec (st : State) :
  ok st -> 0 <= N ->
  wp (rqsort cmp base_addr size N st)
    (fun st' => ok st' /\ all_moves st st' /\ sorted_on 0 N st'.1).
Proof.
  intros Hok HN. unfold rqsort. rewrite (proj2 (Z.leb_gt size 0)), orb_false_r by done.
  destruct (Z.ltb_spec N 2) as [Hlt|Hge].
  { apply wp_ret. split_and!; [done|apply within_refl|]. intros x y Hx Hy. lia. }
  cbn zeta.
  destruct (stack_push (replicate 50 (0, 0, 0)) 0 [] (0, N, 0)) as (stack0 & E0 & Hstk0).
  { split_and!; [done|done|]. by exists (replicate 50 (0, 0, 0)). } { done. }
  cbn [enc] in E0. rewrite Z.mul_0_l in E0. unfold cell in *. rewrite E0. cbn [mbind outcome_bind].
  apply (wp_loop_ghost (fun '(stack, sp, st') m => exists cells, stack_rep stack sp cells /\ ok st' /\
      match cells with [] => True | (_, n, d) :: r => 0 <= d <= 50 /\ depths_ok (d - 1) r end /\
      m = work cells /\ all_moves st st' /\ pending (seg_of <$> cells) st'.1)) with (m := work [(0, N, 0)]).
  2:{ exists [(0, N, 0)]. split_and!; try done; try lia; [apply within_refl|].
      split; [simpl; split_and!; done || lia|]. intros x y Hx Hy Hf.
      apply Forall_cons in Hf as [Hf _]. simpl in Hf. lia. }
  2:{ cbn [work]. lia. }
  intros [[stack sp] st1] m (cells & Hstk & Hok1 & Hdep & -> & Hm & Hp).
  destruct cells as [|[[b n] d] cells].
  { destruct Hstk as (_ & -> & _). cbn [zlen length Z.of_nat]. apply wp_ret. split_and!; [done|done|].
    intros x y Hx Hy. destruct Hp as [_ Hp]. by apply Hp. }
  assert (0 < sp) as Hsp by (destruct Hstk as (_ & -> & _); rewrite zlen_cons; pose proof (zlen_nonneg cells); lia).
  destruct (Z.gtb_spec sp 0) as [_|?]; [|lia].
  destruct (stack_pop _ _ _ _ Hstk) as [Er Hstk'].
  unfold cell in *. rewrite Er. cbn [mbind outcome_bind enc].
  destruct Hdep as [Hd Hdep]. cbn [fmap list_fmap seg_of] in Hp. destruct (id Hp) as [(Hb & Hbn & _) _].
  apply wp_bind. eapply wp_mono; [apply (rqsort_split_spec b n d _ _ cells); try done; try lia|].
  { destruct cells as [|[[? ?] ?] ?]; [done|]. destruct Hdep. split; [lia|done]. }
  intros [[[[ptr n'] stack'] sp'] st2]
    (b' & cells' & -> & Hok2 & Hn' & Hstk2 & Hdep2 & Hm2 & Hw2 & Hb' & Hbn' & Hp2).
  apply wp_bind. eapply wp_mono; [by apply insertion_sort_spec|].
  intros st3 (Hok3 & Hm3 & Hs3). apply wp_ret. exists (work cells'). split.
  - exists cells'. split_and!; try done.
    + destruct cells' as [|[[? ?] ?] ?]; [done|]. destruct Hdep2. split; [lia|done].
    + eapply all_moves_trans; [exact Hm|]. eapply all_moves_trans; [exact Hm2|].
      eapply within_wider; [| |exact Hm3]; lia.
    + eapply pending_done; [|exact Hs3]. by eapply pending_within.
  - split; [|cbn [work]; lia]. apply work_nonneg. destruct Hp2 as [(_ & _ & _ & Hd2) _]. done.
Qed.

End Correct.

(** ** Properties *)

(** C17: [rqsort] sorts.  For a comparator that decides a transitive relation
    [le] (its sign says how two elements compare, whatever its opaque state),
    on an array of [nmemb] elements of [size] > 0 bytes at any address, the
    call returns (every loop terminates, no access is outside the array or the
    50-entry stack), the elements are a permutation of the original ones, and
    each is [le] every later one. *)
Theorem rqsort_sorts {O : Type} (cmp : list Z -> list Z -> O -> Z * O) (le : list Z -> list Z -> Prop)
    (base_addr size nmemb : Z) (mem : list Z) (o : O) :
  0 < size -> 0 <= nmemb -> zlen mem = nmemb * size ->
  (forall a b c, le a b -> le b c -> le a c) ->
  (forall a b o, ((cmp a b o).1 <= 0 -> le a b) /\ (0 <= (cmp a b o).1 -> le b a)) ->
  exists mem' o', rqsort cmp base_addr size nmemb (mem, o) = Ret (mem', o') /\
    elements size nmemb mem' ≡ₚ elements size nmemb mem /\ zlen mem' = zlen mem /\
    forall i j, 0 <= i < j -> j < nmemb -> le (elem size mem' i) (elem size mem' j).
Proof.
  intros Hsz Hn Hz Htr Hcmp.
  pose proof (rqsort_spec cmp base_addr size Hsz le Htr Hcmp nmemb (mem, o) Hz Hn) as Hs.
  apply wp_elim in Hs as ([mem' o'] & E & Hok & Hm & Hs). exists mem', o'. split_and!; [done| | |].
  - eapply within_perm; [| |exact Hm]; lia.
  - apply Hm.
  - exact Hs.
Qed.

Lemma rqsort_sorts_witness :
  exists mem' o', rqsort byte_cmp 3 2 9 ([9;0; 3;1; 7;2; 1;3; 8;4; 2;5; 6;6; 5;7; 3;8], ()) = Ret (mem', o') /\
    mem' = [1;3; 2;5; 3;1; 3;8; 5;7; 6;6; 7;2; 8;4; 9;0].
Proof.
  destruct (rqsort_sorts byte_cmp (fun a b => hd 0 a <= hd 0 b) 3 2 9
    [9;0; 3;1; 7;2; 1;3; 8;4; 2;5; 6;6; 5;7; 3;8] ()) as (mem' & o' & E & _).
  { done. } { done. } { done. } { intros a b c. lia. } { intros a b o. simpl. lia. }
  exists mem', o'. split; [exact E|]. revert E. vm_compute. intros E. by injection E.
Defined.

(** C26: whatever the comparator answers (it may be inconsistent, change its
    mind between calls, or depend on its own state), [rqsort] returns without
    any access outside the array or its stack of 50 segments, and the array
    holds a permutation of the original elements. *)
Theorem rqsort_safe_any_cmp {O : Type} (cmp : list Z -> list Z -> O -> Z * O)
    (base_addr size nmemb : Z) (mem : list Z) (o : O) :
  0 < size -> 0 <= nmemb -> zlen mem = nmemb * size ->
  exists mem' o', rqsort cmp base_addr size nmemb (mem, o) = Ret (mem', o') /\
    elements size nmemb mem' ≡ₚ elements size nmemb mem /\ zlen mem' = zlen mem.
Proof.
  intros Hsz Hn Hz.
  pose proof (rqsort_spec cmp base_addr size Hsz (fun _ _ => True) (fun _ _ _ _ _ => I)
    (fun _ _ _ => conj (fun _ => I) (fun _ => I)) nmemb (mem, o) Hz Hn) as Hs.
  apply wp_elim in Hs as ([mem' o'] & E & Hok & Hm & _). exists mem', o'. split_and!; [done| |apply Hm].
  eapply within_perm; [| |exact Hm]; lia.
Qed.

(** A comparator that alternates its answer. *)
Definition fickle_cmp (a b : list Z) (o : bool) : Z * bool := (if o then 1 else -1, negb o).

Lemma rqsort_safe_any_cmp_witness :
  exists mem' o', rqsort fickle_cmp 0 1 8 ([1; 2; 3; 4; 5; 6; 7; 8], true) = Ret (mem', o') /\
    elements 1 8 mem' ≡ₚ elements 1 8 [1; 2; 3; 4; 5; 6; 7; 8].
Proof.
  destruct (rqsort_safe_any_cmp fickle_cmp 0 1 8 [1; 2; 3; 4; 5; 6; 7; 8] true) as (mem' & o' & E & Hp & _).
  { done. } { done. } { done. }
  exists mem', o'. by split.
Defined.
