(* ===== verification/UnicodeLookup.v ===== *)
(** * Case conversion and indexed table lookup ([libunicode.c])

    [lre_case_conv], [lre_is_cased], [lre_is_case_ignorable],
    [lre_is_id_start], [lre_is_id_continue] with the binary searches and the
    run-length decoder they share.  Characters are 32-bit unsigned values. *)

From S2P Require Import Prelude Cutils UnicodeTables.

(** ** Case conversion *)

Definition RUN_TYPE_U : Z := 0.
Definition RUN_TYPE_L : Z := 1.
Definition RUN_TYPE_UF : Z := 2.
Definition RUN_TYPE_LF : Z := 3.
Definition RUN_TYPE_UL : Z := 4.
Definition RUN_TYPE_LSU : Z := 5.
Definition RUN_TYPE_U2L_399_EXT2 : Z := 6.
Definition RUN_TYPE_UF_D20 : Z := 7.
Definition RUN_TYPE_UF_D1_EXT : Z := 8.
Definition RUN_TYPE_U_EXT : Z := 9.
Definition RUN_TYPE_LF_EXT : Z := 10.
Definition RUN_TYPE_U_EXT2 : Z := 11.
Definition RUN_TYPE_L_EXT2 : Z := 12.
Definition RUN_TYPE_U_EXT3 : Z := 13.

(** The fields of an entry of [case_conv_table1]. *)
Definition cc_code (v : Z) : Z := Z.shiftr v (32 - 17).
Definition cc_len (v : Z) : Z := Z.land (Z.shiftr v (32 - 17 - 7)) 0x7f.
Definition cc_type (v : Z) : Z := Z.land (Z.shiftr v (32 - 17 - 7 - 4)) 0xf.

(** The binary search of [lre_case_conv] and [lre_is_cased]: the index of the
    entry that contains [c]. *)
Definition case_search (c : Z) : outcome (option Z) :=
  loop (S (length case_conv_table1)) (fun '(idx_min, idx_max) =>
    if idx_min <=? idx_max then
      let idx := u32 (idx_max + idx_min) / 2 in
      v ← rd case_conv_table1 idx;
      if c <? cc_code v then Ret (inl (idx_min, idx - 1))
      else if c >=? cc_code v + cc_len v then Ret (inl (idx + 1, idx_max))
      else Ret (inr (Some idx))
    else Ret (inr None)) (0, zlen case_conv_table1 - 1).

(** The [switch(type)] of [lre_case_conv] on a character of entry [idx]. *)
Definition case_conv_entry (c conv_type idx : Z) : outcome (list Z) :=
  v ← rd case_conv_table1 idx;
  d2 ← rd case_conv_table2 idx;
  let code := cc_code v in
  let type := cc_type v in
  let is_lower := b2z (negb (conv_type =? 0)) in
  let data := Z.lor (Z.shiftl (Z.land v 0xf) 8) d2 in
  if (type =? RUN_TYPE_U) || (type =? RUN_TYPE_L) || (type =? RUN_TYPE_UF) || (type =? RUN_TYPE_LF) then
    if (conv_type =? Z.land type 1) || ((RUN_TYPE_UF <=? type) && (conv_type =? 2)) then
      w ← rd case_conv_table1 data;
      Ret [u32 (c - code + Z.shiftr w (32 - 17))]
    else Ret [c]
  else if type =? RUN_TYPE_UL then
    let a := u32 (c - code) in
    if negb (Z.land a 1 =? u32 (1 - is_lower)) then Ret [c]
    else Ret [u32 (Z.lxor a 1 + code)]
  else if type =? RUN_TYPE_LSU then
    let a := u32 (c - code) in
    if a =? 1 then Ret [u32 (c + u32 (2 * is_lower - 1))]
    else if a =? u32 ((1 - is_lower) * 2) then Ret [u32 (c + u32 ((2 * is_lower - 1) * 2))]
    else Ret [c]
  else if type =? RUN_TYPE_U2L_399_EXT2 then
    if is_lower =? 0 then
      e ← rd case_conv_ext (Z.shiftr data 6);
      Ret [u32 (c - code + e); 0x399]
    else
      e ← rd case_conv_ext (Z.land data 0x3f);
      Ret [u32 (c - code + e)]
  else if type =? RUN_TYPE_UF_D20 then
    if conv_type =? 1 then Ret [c]
    else Ret [u32 (data + b2z (conv_type =? 2) * 0x20)]
  else if type =? RUN_TYPE_UF_D1_EXT then
    if conv_type =? 1 then Ret [c]
    else e ← rd case_conv_ext data; Ret [u32 (e + b2z (conv_type =? 2))]
  else if (type =? RUN_TYPE_U_EXT) || (type =? RUN_TYPE_LF_EXT) then
    if negb (is_lower =? u32 (type - RUN_TYPE_U_EXT)) then Ret [c]
    else e ← rd case_conv_ext data; Ret [e]
  else if (type =? RUN_TYPE_U_EXT2) || (type =? RUN_TYPE_L_EXT2) then
    if negb (conv_type =? u32 (type - RUN_TYPE_U_EXT2)) then Ret [c]
    else
      e0 ← rd case_conv_ext (Z.shiftr data 6);
      e1 ← rd case_conv_ext (Z.land data 0x3f);
      Ret [u32 (c - code + e0); e1]
  else
    if negb (conv_type =? 0) then Ret [c]
    else
      e0 ← rd case_conv_ext (Z.shiftr data 8);
      e1 ← rd case_conv_ext (Z.land (Z.shiftr data 4) 0xf);
      e2 ← rd case_conv_ext (Z.land data 0xf);
      Ret [e0; e1; e2].

(** [lre_case_conv(res, c, conv_type)]: the characters stored in [res]; their
    number is the returned value. *)
Definition lre_case_conv (c conv_type : Z) : outcome (list Z) :=
  if c <? 128 then
    if negb (conv_type =? 0) then
      if (ch "A" <=? c) && (c <=? ch "Z") then Ret [c - ch "A" + ch "a"] else Ret [c]
    else
      if (ch "a" <=? c) && (c <=? ch "z") then Ret [c - ch "a" + ch "A"] else Ret [c]
  else
    r ← case_search c;
    match r with
    | None => Ret [c]
    | Some idx => case_conv_entry c conv_type idx
    end.

(** ** Indexed run-length tables *)

(** Both branches of [get_le24]. *)
Definition get_le24 (tab : list Z) (off : Z) : outcome Z :=
  a ← rd tab off; b ← rd tab (off + 1); c ← rd tab (off + 2);
  Ret (Z.lor (Z.lor a (Z.shiftl b 8)) (Z.shiftl c 16)).

Definition UNICODE_INDEX_BLOCK_LEN : Z := 32.

(** [None] for -1, else the position and [*pcode]. *)
Definition get_index_pos (c : Z) (index_table : list Z) (index_table_len : Z)
  : outcome (option (Z * Z)) :=
  v ← get_le24 index_table 0;
  let code := Z.land v (2 ^ 21 - 1) in
  if c <? code then Ret (Some (0, 0))
  else
    let idx_max := index_table_len - 1 in
    code ← get_le24 index_table (idx_max * 3);
    if c >=? code then Ret None
    else
      idx_min ← loop (S (Z.to_nat index_table_len)) (fun '(idx_min, idx_max) =>
        if idx_max - idx_min >? 1 then
          let idx := (idx_max + idx_min) / 2 in
          v ← get_le24 index_table (idx * 3);
          let code := Z.land v (2 ^ 21 - 1) in
          if c <? code then Ret (inl (idx_min, idx)) else Ret (inl (idx, idx_max))
        else Ret (inr idx_min)) (0, idx_max);
      v ← get_le24 index_table (idx_min * 3);
      Ret (Some ((idx_min + 1) * UNICODE_INDEX_BLOCK_LEN + Z.shiftr v 21, Z.land v (2 ^ 21 - 1))).

(** One item of the decoding loop of [lre_is_in_table]: the position [p], the
    current [code] and [bit]. *)
Definition table_step (c : Z) (table : list Z) (s : Z * Z * bool)
  : outcome (Z * Z * bool + bool) :=
  let '(p, code, bit) := s in
  b ← rd table p;
  let p := p + 1 in
  if b <? 64 then
    let code := u32 (code + (Z.shiftr b 3 + 1)) in
    if c <? code then Ret (inr bit)
    else
      let bit := negb bit in
      let code := u32 (code + (Z.land b 7 + 1)) in
      if c <? code then Ret (inr bit) else Ret (inl (p, code, negb bit))
  else
    '(p, code) ← (
      if b >=? 0x80 then Ret (p, u32 (code + (b - 0x80 + 1)))
      else if b <? 0x60 then
        p0 ← rd table p;
        Ret (p + 1, u32 (code + (Z.lor (Z.shiftl (b - 0x40) 8) p0 + 1)))
      else
        p0 ← rd table p; p1 ← rd table (p + 1);
        Ret (p + 2, u32 (code + (Z.lor (Z.lor (Z.shiftl (b - 0x60) 16) (Z.shiftl p0 8)) p1 + 1))));
    if c <? code then Ret (inr bit) else Ret (inl (p, code, negb bit)).

Definition table_scan (c : Z) (table : list Z) (p code : Z) (bit : bool) : outcome bool :=
  loop (S (length table)) (table_step c table) (p, code, bit).

Definition lre_is_in_table (c : Z) (table index_table : list Z) (index_table_len : Z) : outcome bool :=
  r ← get_index_pos c index_table index_table_len;
  match r with
  | None => Ret false
  | Some (pos, code) => table_scan c table pos code false
  end.

Definition lre_is_cased (c : Z) : outcome bool :=
  r ← case_search c;
  match r with
  | Some _ => Ret true
  | None => lre_is_in_table c unicode_prop_Cased1_table unicode_prop_Cased1_index
              (zlen unicode_prop_Cased1_index / 3)
  end.

Definition lre_is_case_ignorable (c : Z) : outcome bool :=
  lre_is_in_table c unicode_prop_Case_Ignorable_table unicode_prop_Case_Ignorable_index
    (zlen unicode_prop_Case_Ignorable_index / 3).

Definition lre_is_id_start (c : Z) : outcome bool :=
  lre_is_in_table c unicode_prop_ID_Start_table unicode_prop_ID_Start_index
    (zlen unicode_prop_ID_Start_index / 3).

Definition lre_is_id_continue (c : Z) : outcome bool :=
  b ← lre_is_id_start c;
  if (b : bool) then Ret true
  else lre_is_in_table c unicode_prop_ID_Continue1_table unicode_prop_ID_Continue1_index
         (zlen unicode_prop_ID_Continue1_index / 3).

Example case_conv_run :
  map (fun p : Z * Z => lre_case_conv p.1 p.2)
    [(0x61, 0); (0xdf, 0); (0x130, 1); (0x3a3, 1); (0x3c2, 2); (0x1f80, 0); (0xfb03, 0); (0x10400, 1)] =
  [Ret [0x41]; Ret [0x53; 0x53]; Ret [0x69; 0x307]; Ret [0x3c3]; Ret [0x3c3]; Ret [0x1f08; 0x399];
   Ret [0x46; 0x46; 0x49]; Ret [0x10428]].
Proof. vm_compute. reflexivity. Qed.

Example id_run :
  map lre_is_id_start [0x41; 0x5f; 0x30; 0xaa; 0xe9; 0x4e00; 0x1d400; 0x10ffff] =
    [Ret true; Ret false; Ret false; Ret true; Ret true; Ret true; Ret true; Ret false] /\
  map lre_is_id_continue [0x30; 0x5f; 0x301; 0xb7; 0x20] =
    [Ret true; Ret true; Ret true; Ret true; Ret false].
Proof. vm_compute. split; reflexivity. Qed.

(** ** The run-length tables without their index

    The reference reading of a table: all its run lengths, alternately
    outside and inside the set, starting outside at character 0. *)

Fixpoint runs (l : list Z) : option (list Z) :=
  match l with
  | [] => Some []
  | b :: r =>
      if b <? 64 then
        rs ← runs r; Some (Z.shiftr b 3 + 1 :: Z.land b 7 + 1 :: rs)
      else if b >=? 0x80 then
        rs ← runs r; Some (b - 0x80 + 1 :: rs)
      else if b <? 0x60 then
        match r with
        | p0 :: r' => rs ← runs r'; Some (Z.lor (Z.shiftl (b - 0x40) 8) p0 + 1 :: rs)
        | [] => None
        end
      else
        match r with
        | p0 :: p1 :: r' =>
            rs ← runs r';
            Some (Z.lor (Z.lor (Z.shiftl (b - 0x60) 16) (Z.shiftl p0 8)) p1 + 1 :: rs)
        | _ => None
        end
  end.

Fixpoint zsum (l : list Z) : Z := match l with [] => 0 | x :: r => x + zsum r end.

(** Membership of [c] in the set described by the runs from [code] on. *)
Fixpoint in_runs (c code : Z) (bit : bool) (rs : list Z) : bool :=
  match rs with
  | [] => false
  | r :: rs' => if c <? code + r then bit else in_runs c (code + r) (negb bit) rs'
  end.

Definition in_table_ref (table : list Z) (c : Z) : bool :=
  match runs table with Some rs => in_runs c 0 false rs | None => false end.

(** Induction on a byte list by the items [runs] reads. *)
Lemma runs_ind (P : list Z -> Prop) :
  P [] ->
  (forall b r, P r -> (forall p0 r', r = p0 :: r' -> P r') ->
     (forall p0 p1 r', r = p0 :: p1 :: r' -> P r') -> P (b :: r)) ->
  forall l, P l.
Proof.
  intros H0 H1 l. remember (length l) as n eqn:Hn. revert l Hn.
  induction (lt_wf n) as [n _ IH]. intros [|b r] Hn; [done|].
  apply H1; intros; subst; eapply IH; try reflexivity; simpl; lia.
Qed.

Lemma runs_app l1 : forall l2 rs1, runs l1 = Some rs1 -> runs (l1 ++ l2) = (app rs1) <$> runs l2.
Proof.
  induction l1 as [|b r IH IH1 IH2] using runs_ind; intros l2 rs1 H.
  { injection H as <-. simpl. by destruct (runs l2). }
  cbn [runs app] in H |- *. destruct (b <? 64).
  { destruct (runs r) as [rs|] eqn:E; [|done]. injection H as <-. rewrite (IH l2 rs eq_refl).
    by destruct (runs l2). }
  destruct (b >=? 0x80).
  { destruct (runs r) as [rs|] eqn:E; [|done]. injection H as <-. rewrite (IH l2 rs eq_refl).
    by destruct (runs l2). }
  destruct (b <? 0x60).
  - destruct r as [|p0 r']; [done|]. cbn [app]. destruct (runs r') as [rs|] eqn:E; [|done].
    injection H as <-. rewrite (IH1 p0 r' eq_refl l2 rs E). by destruct (runs l2).
  - destruct r as [|p0 [|p1 r']]; [done..|]. cbn [app]. destruct (runs r') as [rs|] eqn:E; [|done].
    injection H as <-. rewrite (IH2 p0 p1 r' eq_refl l2 rs E). by destruct (runs l2).
Qed.

Lemma in_runs_skip c rs1 : forall code bit rs2,
  Forall (fun r => 0 <= r) rs1 -> code + zsum rs1 <= c ->
  in_runs c code bit (rs1 ++ rs2) =
    in_runs c (code + zsum rs1) (xorb bit (Nat.odd (length rs1))) rs2.
Proof.
  induction rs1 as [|r rs1 IH]; intros code bit rs2 Hf Hc; cbn [zsum app in_runs length] in *.
  - rewrite Z.add_0_r. change (Nat.odd 0) with false. by rewrite xorb_false_r.
  - apply Forall_cons in Hf as [Hr Hf].
    assert (0 <= zsum rs1) as Hs.
    { clear -Hf. induction Hf; simpl in *; lia. }
    rewrite (proj2 (Z.ltb_ge c (code + r))) by lia. rewrite IH by (done || lia).
    rewrite Z.add_assoc, Nat.odd_succ, <- Nat.negb_odd. f_equal.
    by destruct bit, (Nat.odd (length rs1)).
Qed.

Lemma in_runs_above c rs : forall code bit,
  Forall (fun r => 0 <= r) rs -> code + zsum rs <= c -> in_runs c code bit rs = false.
Proof.
  intros code bit Hf Hc. rewrite <- (app_nil_r rs). by rewrite in_runs_skip.
Qed.

(** Every item of a table of bytes is at least one character long. *)
Definition is_byte (b : Z) : Prop := 0 <= b < 256.

Lemma lor_nonneg a b : 0 <= a -> 0 <= b -> 0 <= Z.lor a b.
Proof. intros. by apply Z.lor_nonneg. Qed.

Lemma runs_positive l : forall rs, Forall is_byte l -> runs l = Some rs -> Forall (fun r => 0 < r) rs.
Proof.
  induction l as [|b r IH IH1 IH2] using runs_ind; intros rs Hb H.
  { by injection H as <-. }
  cbn [runs] in H. apply Forall_cons in Hb as [Hb Hr]. unfold is_byte in Hb.
  assert (0 <= Z.shiftr b 3) by (apply Z.shiftr_nonneg; lia).
  assert (0 <= Z.land b 7) by (apply Z.land_nonneg; lia).
  destruct (Z.ltb_spec b 64).
  { destruct (runs r) as [rs'|] eqn:E; [|done]. injection H as <-. repeat constructor; [lia|lia|eauto]. }
  rewrite Z.geb_leb in H. destruct (Z.leb_spec 0x80 b).
  { destruct (runs r) as [rs'|] eqn:E; [|done]. injection H as <-. repeat constructor; [lia|eauto]. }
  destruct (Z.ltb_spec b 0x60).
  - destruct r as [|p0 r']; [done|]. destruct (runs r') as [rs'|] eqn:E; [|done]. injection H as <-.
    apply Forall_cons in Hr as [Hp Hr]. unfold is_byte in Hp. constructor; [|by eapply IH1].
    pose proof (lor_nonneg (Z.shiftl (b - 0x40) 8) p0 ltac:(apply Z.shiftl_nonneg; lia) ltac:(lia)). lia.
  - destruct r as [|p0 [|p1 r']]; [done..|]. destruct (runs r') as [rs'|] eqn:E; [|done]. injection H as <-.
    apply Forall_cons in Hr as [Hp Hr]. apply Forall_cons in Hr as [Hp1 Hr]. unfold is_byte in *.
    constructor; [|by eapply IH2].
    assert (0 <= Z.lor (Z.shiftl (b - 0x60) 16) (Z.shiftl p0 8))
      by (apply lor_nonneg; apply Z.shiftl_nonneg; lia).
    pose proof (lor_nonneg (Z.lor (Z.shiftl (b - 0x60) 16) (Z.shiftl p0 8)) p1 ltac:(done) ltac:(lia)). lia.
Qed.

Lemma zsum_nonneg rs : Forall (fun r => 0 < r) rs -> 0 <= zsum rs.
Proof. induction 1; simpl in *; lia. Qed.

(** The scanning loop decodes the runs of the bytes from [p] on. *)
Lemma scan_loop c l : forall fuel pre code bit rs,
  Forall is_byte l -> runs l = Some rs -> (length l < fuel)%nat ->
  0 <= code -> code <= c < code + zsum rs -> code + zsum rs < 2 ^ 32 ->
  loop fuel (table_step c (pre ++ l)) (zlen pre, code, bit) =
  Ret (in_runs c code bit rs).
Proof.
  induction l as [|b r IH IH1 IH2] using runs_ind; intros fuel pre code bit rs Hb H Hf Hc0 Hc Hs.
  { injection H as <-. simpl in Hc. lia. }
  destruct fuel as [|fuel]; [simpl in Hf; lia|]. cbn [length] in Hf.
  pose proof (runs_positive _ _ Hb H) as Hpos. pose proof Hb as Hb'.
  apply Forall_cons in Hb as [_ Hr].
  cbn [loop table_step]. rewrite (CStr.rd_app_mid pre r b (zlen pre)) by done. cbn [mbind outcome_bind].
  cbn [runs] in H. cbn zeta. destruct (b <? 64) eqn:E64.
  { destruct (runs r) as [rs'|] eqn:E; [|done]. injection H as <-.
    apply Forall_cons in Hpos as [H1 Hpos]. apply Forall_cons in Hpos as [H2 Hpos].
    pose proof (zsum_nonneg _ Hpos). cbn [zsum] in Hc, Hs. cbn [in_runs].
    rewrite (u32_small (code + (Z.shiftr b 3 + 1))) by lia.
    destruct (Z.ltb_spec c (code + (Z.shiftr b 3 + 1))); [done|].
    rewrite u32_small by lia. destruct (c <? _) eqn:E2; [done|]. breflect.
    pose proof (IH fuel (pre ++ [b]) (code + (Z.shiftr b 3 + 1) + (Z.land b 7 + 1)) (negb (negb bit)) rs' Hr eq_refl) as IH'.
    rewrite <- app_assoc, zlen_app in IH'. apply IH'; lia. }
  destruct (b >=? 0x80) eqn:E80.
  { destruct (runs r) as [rs'|] eqn:E; [|done]. injection H as <-.
    apply Forall_cons in Hpos as [H1 Hpos].
    pose proof (zsum_nonneg _ Hpos). cbn [zsum] in Hc, Hs. cbn [in_runs mbind outcome_bind].
    rewrite u32_small by lia. destruct (c <? _) eqn:E2; [done|]. breflect.
    pose proof (IH fuel (pre ++ [b]) (code + (b - 0x80 + 1)) (negb bit) rs' Hr eq_refl) as IH'.
    rewrite <- app_assoc, zlen_app in IH'. apply IH'; lia. }
  destruct (b <? 0x60) eqn:E60.
  - destruct r as [|p0 r']; [done|]. destruct (runs r') as [rs'|] eqn:E; [|done]. injection H as <-.
    apply Forall_cons in Hpos as [H1 Hpos]. apply Forall_cons in Hr as [Hp Hr].
    pose proof (zsum_nonneg _ Hpos). cbn [zsum] in Hc, Hs. cbn [in_runs].
    rewrite (rd_app_r pre (b :: p0 :: r') 1 (zlen pre + 1)) by lia.
    change (rd (b :: p0 :: r') 1) with (Ret p0). cbn [mbind outcome_bind].
    rewrite u32_small by lia. destruct (c <? _) eqn:E2; [done|]. breflect.
    pose proof (IH1 p0 r' eq_refl fuel (pre ++ [b; p0]) (code + (Z.lor (Z.shiftl (b - 0x40) 8) p0 + 1)) (negb bit) rs' Hr E) as IH'.
    rewrite <- app_assoc, zlen_app in IH'. change (zlen [b; p0]) with 2 in IH'.
    replace (zlen pre + 1 + 1) with (zlen pre + 2) by lia. simpl in Hf. apply IH'; lia.
  - destruct r as [|p0 [|p1 r']]; [done..|]. destruct (runs r') as [rs'|] eqn:E; [|done]. injection H as <-.
    apply Forall_cons in Hpos as [H1 Hpos]. apply Forall_cons in Hr as [Hp Hr]. apply Forall_cons in Hr as [Hp1 Hr].
    pose proof (zsum_nonneg _ Hpos). cbn [zsum] in Hc, Hs. cbn [in_runs].
    rewrite (rd_app_r pre (b :: p0 :: p1 :: r') 1 (zlen pre + 1)),
      (rd_app_r pre (b :: p0 :: p1 :: r') 2 (zlen pre + 1 + 1)) by lia.
    change (rd (b :: p0 :: p1 :: r') 1) with (Ret p0). change (rd (b :: p0 :: p1 :: r') 2) with (Ret p1).
    cbn [mbind outcome_bind].
    rewrite u32_small by lia. destruct (c <? _) eqn:E2; [done|]. breflect.
    pose proof (IH2 p0 p1 r' eq_refl fuel (pre ++ [b; p0; p1]) (code + (Z.lor (Z.lor (Z.shiftl (b - 0x60) 16) (Z.shiftl p0 8)) p1 + 1)) (negb bit) rs' Hr E) as IH'.
    rewrite <- app_assoc, zlen_app in IH'. change (zlen [b; p0; p1]) with 3 in IH'.
    replace (zlen pre + 1 + 2) with (zlen pre + 3) by lia. simpl in Hf. apply IH'; lia.
Qed.

(** *** The index *)

(** Entry [k] of an index: its first character and byte position. *)
Definition index_code (index : list Z) (k : nat) : Z :=
  match drop (3 * k) index with
  | a :: b :: c :: _ => Z.land (Z.lor (Z.lor a (Z.shiftl b 8)) (Z.shiftl c 16)) (2 ^ 21 - 1)
  | _ => -1
  end.
Definition index_pos (index : list Z) (k : nat) : Z :=
  match drop (3 * k) index with
  | a :: b :: c :: _ =>
      (Z.of_nat k + 1) * UNICODE_INDEX_BLOCK_LEN +
        Z.shiftr (Z.lor (Z.lor a (Z.shiftl b 8)) (Z.shiftl c 16)) 21
  | _ => -1
  end.
Definition index_last (index : list Z) (k : nat) : Z :=
  match drop (3 * k) index with
  | a :: b :: c :: _ => Z.lor (Z.lor a (Z.shiftl b 8)) (Z.shiftl c 16)
  | _ => -1
  end.

(** Block [k] starts at a run of the table: the bytes before it decode to an
    even number of runs that end at its first character. *)
Definition block_ok (table index : list Z) (k : nat) : bool :=
  (0 <=? index_pos index k) && (index_pos index k <=? zlen table) &&
  match runs (take (Z.to_nat (index_pos index k)) table) with
  | Some rs => (zsum rs =? index_code index k) && Nat.even (length rs)
  | None => false
  end.

(** At least two entries, of three bytes each. *)
Definition index_shape (index : list Z) : bool :=
  let n := (length index / 3)%nat in (1 <? n)%nat && (length index =? 3 * n)%nat.

(** The index agrees with the table: every block starts at a run, and the last
    entry is the end of the table. *)
Definition index_ok (table index : list Z) : bool :=
  let n := (length index / 3)%nat in
  index_shape index &&
  forallb (fun b => (0 <=? b) && (b <? 256)) table &&
  forallb (block_ok table index) (seq 0 (n - 1)) &&
  match runs table with
  | Some rs => (zsum rs =? index_last index (n - 1)) && (zsum rs <? 2 ^ 32)
  | None => false
  end.

Lemma get_le24_entry index k : (3 * k + 3 <= length index)%nat ->
  exists v, get_le24 index (Z.of_nat k * 3) = Ret v /\ index_last index k = v /\
    index_code index k = Z.land v (2 ^ 21 - 1) /\
    index_pos index k = (Z.of_nat k + 1) * UNICODE_INDEX_BLOCK_LEN + Z.shiftr v 21.
Proof.
  intros Hk. unfold index_last, index_code, index_pos, get_le24.
  assert (Hl : length (drop (3 * k) index) = (length index - 3 * k)%nat) by apply length_drop.
  assert (Hz : zlen (take (3 * k) index) = Z.of_nat k * 3).
  { unfold zlen. rewrite length_take. lia. }
  remember (drop (3 * k) index) as d eqn:Hd. destruct d as [|a [|b [|c d]]]; simpl in Hl; try lia.
  rewrite <- (take_drop (3 * k) index), <- Hd.
  set (pre := take (3 * k) index) in *.
  rewrite (rd_app_r pre (a :: b :: c :: d) 0 (Z.of_nat k * 3)),
    (rd_app_r pre (a :: b :: c :: d) 1 (Z.of_nat k * 3 + 1)),
    (rd_app_r pre (a :: b :: c :: d) 2 (Z.of_nat k * 3 + 2)) by lia.
  eexists. split_and!; reflexivity.
Qed.

(** The index search finds a block that starts at or before [c]. *)
Lemma get_index_pos_spec index c :
  index_shape index = true -> 0 <= c ->
  wp (get_index_pos c index (zlen index / 3)) (fun r => match r with
    | None => index_last index (length index / 3 - 1) <= c
    | Some (pos, code) => (pos = 0 /\ code = 0 /\ c < index_code index 0) \/
        exists k, (k < length index / 3 - 1)%nat /\ pos = index_pos index k /\
          code = index_code index k /\ code <= c < index_last index (length index / 3 - 1)
    end).
Proof.
  intros Hok Hc. unfold index_shape in Hok. set (n := (length index / 3)%nat) in *.
  apply andb_true_iff in Hok as [Hn Hn3].
  apply Nat.ltb_lt in Hn. apply Nat.eqb_eq in Hn3. unfold get_index_pos.
  assert (zlen index / 3 = Z.of_nat n) as ->.
  { unfold zlen, n. by rewrite Nat2Z.inj_div. }
  destruct (get_le24_entry index 0) as (v0 & E0 & _ & Hc0 & _); [lia|].
  change (Z.of_nat 0 * 3) with 0 in E0. rewrite E0. cbn [mbind outcome_bind]. rewrite <- Hc0.
  destruct (Z.ltb_spec c (index_code index 0)).
  { simpl. left. done. }
  destruct (get_le24_entry index (n - 1)) as (v1 & E1 & Hl1 & _ & _); [lia|].
  replace (Z.of_nat n - 1) with (Z.of_nat (n - 1)) by lia. rewrite E1. cbn [mbind outcome_bind].
  rewrite Z.geb_leb, Hl1. destruct (Z.leb_spec v1 c); [done|].
  apply wp_bind. eapply wp_mono.
  { apply (wp_loop (fun '(i, j) => exists a b, i = Z.of_nat a /\ j = Z.of_nat b /\ (b <= n - 1)%nat /\
        (a < b)%nat /\ index_code index a <= c) (fun '(i, j) => j - i)
      (fun r => exists a, r = Z.of_nat a /\ (a < n - 1)%nat /\ index_code index a <= c)).
    2:{ exists 0%nat, (n - 1)%nat. split_and!; try done; lia. }
    2:{ lia. }
    intros [i j] (a & b & -> & -> & Hb & Hab & Hca).
    rewrite Z.gtb_ltb. destruct (Z.ltb_spec 1 (Z.of_nat b - Z.of_nat a)).
    2:{ apply wp_ret. exists a. split_and!; try done; lia. }
    cbn zeta.
    assert ((Z.of_nat b + Z.of_nat a) / 2 = Z.of_nat ((b + a) / 2)) as -> by (rewrite Nat2Z.inj_div; lia).
    pose proof (Nat.div_mod_eq (b + a) 2). pose proof (Nat.mod_upper_bound (b + a) 2 ltac:(lia)).
    destruct (get_le24_entry index ((b + a) / 2)) as (v & E & _ & Hcv & _); [lia|].
    rewrite E. cbn [mbind outcome_bind]. rewrite <- Hcv.
    destruct (Z.ltb_spec c (index_code index ((b + a) / 2))); apply wp_ret; (split; [|lia]).
    - exists a, ((b + a) / 2)%nat. split_and!; try done; lia.
    - exists ((b + a) / 2)%nat, b. split_and!; try done; lia. }
  intros i (a & -> & Ha & Hca).
  destruct (get_le24_entry index a) as (v & E & _ & Hcv & Hpv); [lia|].
  rewrite E. cbn [mbind outcome_bind]. apply wp_ret. rewrite <- Hcv, <- Hpv.
  right. exists a. by split_and!.
Qed.

(** [lre_is_in_table] with an index that agrees with the table reads the same
    set as the table without an index. *)
Lemma lre_is_in_table_spec table index c :
  index_ok table index = true -> 0 <= c ->
  lre_is_in_table c table index (zlen index / 3) = Ret (in_table_ref table c).
Proof.
  intros Hok Hc. unfold index_ok in Hok. set (n := (length index / 3)%nat) in *.
  rewrite !andb_true_iff in Hok. destruct Hok as [[[Hshape Hbytes] Hblocks] Hend].
  pose proof (get_index_pos_spec index c Hshape Hc) as Hpos. fold n in Hpos.
  unfold index_shape in Hshape. fold n in Hshape. apply andb_true_iff in Hshape as [Hn _].
  apply Nat.ltb_lt in Hn.
  assert (Forall is_byte table) as Hb.
  { apply Forall_forall. intros x Hx. rewrite forallb_forall in Hbytes.
    apply list_elem_of_In in Hx. specialize (Hbytes x Hx). breflect. by split. }
  destruct (runs table) as [rs|] eqn:Er; [|done].
  apply andb_true_iff in Hend as [He1 He2]. breflect.
  pose proof (runs_positive _ _ Hb Er) as Hpr.
  unfold lre_is_in_table, in_table_ref. rewrite Er.
  apply wp_elim in Hpos as (r & -> & Hr). cbn [mbind outcome_bind].
  assert (Hscan : forall pos code, pos = 0 /\ code = 0 /\ c < zsum rs \/
    (exists k, (k < n - 1)%nat /\ pos = index_pos index k /\ code = index_code index k /\ code <= c < zsum rs) ->
    table_scan c table pos code false = Ret (in_runs c 0 false rs)).
  { intros pos code Hcase. unfold table_scan.
    assert (exists k rs1 rs2, runs (take k table) = Some rs1 /\ runs (drop k table) = Some rs2 /\
      rs = rs1 ++ rs2 /\ pos = Z.of_nat k /\ (k <= length table)%nat /\ code = zsum rs1 /\ code <= c < zsum rs /\
      Nat.even (length rs1) = true) as (k & rs1 & rs2 & H1 & H2 & -> & -> & Hk & -> & Hcr & Hev).
    { destruct Hcase as [(-> & -> & Hlt)|(k & Hk & -> & -> & Hcr)].
      - exists 0%nat, [], rs. split_and!; try done; lia.
      - rewrite forallb_forall in Hblocks. specialize (Hblocks k).
        assert (In k (seq 0 (n - 1))) as Hin by (apply in_seq; lia). specialize (Hblocks Hin).
        unfold block_ok in Hblocks. apply andb_true_iff in Hblocks as [Hp Hrun].
        destruct (runs (take (Z.to_nat (index_pos index k)) table)) as [rs1|] eqn:E1; [|done].
        apply andb_true_iff in Hrun as [Hsum Hev]. breflect.
        pose proof (runs_app _ (drop (Z.to_nat (index_pos index k)) table) _ E1) as Happ.
        rewrite take_drop, Er in Happ.
        destruct (runs (drop (Z.to_nat (index_pos index k)) table)) as [rs2|] eqn:E2; [|done].
        injection Happ as ->. exists (Z.to_nat (index_pos index k)), rs1, rs2.
        split_and!; try done; try lia. unfold zlen in *. lia. }
    apply Forall_app in Hpr as [Hp1 Hp2].
    assert (zsum (rs1 ++ rs2) = zsum rs1 + zsum rs2) as Hsum.
    { clear. induction rs1; simpl; lia. }
    pose proof (scan_loop c (drop k table) (S (length table)) (take k table) (zsum rs1) false rs2) as Hl.
    rewrite take_drop in Hl. assert (zlen (take k table) = Z.of_nat k) as Hzk
      by (unfold zlen; rewrite length_take; lia).
    rewrite Hzk in Hl. rewrite Hl; try done; try lia.
    - f_equal. rewrite in_runs_skip; [|by eapply Forall_impl; [exact Hp1|]; simpl; lia|lia].
      rewrite <- Nat.negb_even, Hev. done.
    - by apply Forall_drop.
    - rewrite length_drop. lia.
    - pose proof (zsum_nonneg _ Hp1). lia. }
  destruct r as [[pos code]|].
  - apply Hscan. destruct Hr as [(-> & -> & Hlt)|(k & Hk & -> & -> & Hcr)].
    + left. split_and!; [done|done|]. rewrite forallb_forall in Hblocks. specialize (Hblocks 0%nat).
      assert (In 0%nat (seq 0 (n - 1))) as Hin by (apply in_seq; lia). specialize (Hblocks Hin).
      unfold block_ok in Hblocks. apply andb_true_iff in Hblocks as [_ Hrun].
      destruct (runs (take (Z.to_nat (index_pos index 0)) table)) as [rs1|] eqn:E1; [|done].
      breflect. pose proof (runs_app _ (drop (Z.to_nat (index_pos index 0)) table) _ E1) as Happ.
      rewrite take_drop, Er in Happ.
      destruct (runs (drop (Z.to_nat (index_pos index 0)) table)) as [rs2|]; [|done].
      injection Happ as ->. apply Forall_app in Hpr as [_ Hp2]. pose proof (zsum_nonneg _ Hp2).
      assert (zsum (rs1 ++ rs2) = zsum rs1 + zsum rs2) by (clear; induction rs1; simpl; lia). lia.
    + right. exists k. split_and!; done || lia.
  - symmetry. f_equal. apply in_runs_above; [|lia]. by eapply Forall_impl; [exact Hpr|]; simpl; lia.
Qed.

(** ** The case conversion table *)

Definition contains (v c : Z) : Prop := cc_code v <= c < cc_code v + cc_len v.

(** Entries are in increasing order and do not overlap. *)
Fixpoint entries_sorted (l : list Z) : bool :=
  match l with
  | v :: (w :: _) as l' => (cc_code v + cc_len v <=? cc_code w) && entries_sorted l'
  | _ => true
  end.

Lemma case_conv_table1_sorted : entries_sorted case_conv_table1 = true.
Proof. vm_compute. reflexivity. Qed.

Lemma cc_len_bounds v : 0 <= cc_len v < 128.
Proof.
  unfold cc_len. change 0x7f with (Z.ones 7). rewrite Z.land_ones by lia. apply Z.mod_pos_bound. lia.
Qed.

Lemma entries_sorted_lookup l : forall i j v w,
  entries_sorted l = true -> l !! i = Some v -> l !! j = Some w -> (i < j)%nat ->
  cc_code v + cc_len v <= cc_code w.
Proof.
  induction l as [|x l IH]; intros i j v w Hs Hi Hj Hij; [done|].
  destruct j as [|j]; [lia|]. simpl in Hj. destruct l as [|y l]; [done|].
  cbn [entries_sorted] in Hs. apply andb_true_iff in Hs as [Hxy Hs]. breflect.
  destruct i as [|i]; [|by eapply (IH i j); [done|done|done|lia]].
  injection Hi as <-. destruct j as [|j]; [injection Hj as <-; done|].
  pose proof (IH 0%nat (S j) y w Hs eq_refl Hj ltac:(lia)). pose proof (cc_len_bounds y). lia.
Qed.

Lemma case_search_spec c :
  0 <= c ->
  wp (case_search c) (fun r => match r with
    | Some idx => 0 <= idx < zlen case_conv_table1 /\
        exists v, case_conv_table1 !! Z.to_nat idx = Some v /\ contains v c
    | None => forall v, v ∈ case_conv_table1 -> ~ contains v c
    end).
Proof.
  intros Hc. unfold case_search.
  set (n := zlen case_conv_table1). set (fuel := S (length case_conv_table1)).
  assert (Hf : Z.of_nat fuel = n + 1) by done.
  assert (Hn : n < 2 ^ 30) by done. clearbody fuel.
  assert (Hord : forall i j v w, case_conv_table1 !! i = Some v -> case_conv_table1 !! j = Some w ->
    (i < j)%nat -> cc_code v + cc_len v <= cc_code w).
  { intros i j v w. apply entries_sorted_lookup, case_conv_table1_sorted. }
  assert (Hlt : forall i v, case_conv_table1 !! i = Some v -> Z.of_nat i < n).
  { intros i v Hi. apply lookup_lt_Some in Hi. unfold n, zlen. lia. }
  apply (wp_loop (fun '(lo, hi) => 0 <= lo /\ hi < n /\ lo <= hi + 1 /\
      (forall i v, case_conv_table1 !! i = Some v -> Z.of_nat i < lo -> cc_code v + cc_len v <= c) /\
      (forall i v, case_conv_table1 !! i = Some v -> hi < Z.of_nat i -> c < cc_code v))
    (fun '(lo, hi) => hi - lo + 1)).
  2:{ split_and!; [lia|lia|unfold n; pose proof (zlen_nonneg case_conv_table1); lia| |].
      - intros i v Hi Hi0. lia.
      - intros i v Hi Hi0. pose proof (Hlt i v Hi). lia. }
  2:{ pose proof (zlen_nonneg case_conv_table1). unfold n in *. lia. }
  intros [lo hi] (Hlo & Hhi & Hlh & Hbelow & Habove).
  destruct (Z.leb_spec lo hi) as [Hle|Hgt].
  2:{ apply wp_ret. intros v Hv [H1 H2]. apply list_elem_of_lookup in Hv as [i Hi].
      destruct (decide (Z.of_nat i < lo)); [specialize (Hbelow i v Hi); lia|].
      specialize (Habove i v Hi). lia. }
  cbn zeta. rewrite u32_small by lia.
  pose proof (Z.div_mod (hi + lo) 2 ltac:(lia)). pose proof (Z.mod_pos_bound (hi + lo) 2 ltac:(lia)).
  set (mid := (hi + lo) / 2) in *.
  apply wp_bind, wp_rd; [unfold n in *; lia|]. intros v Hv. pose proof (cc_len_bounds v).
  destruct (Z.ltb_spec c (cc_code v)).
  { apply wp_ret. split; [|lia]. split_and!; try done; try lia.
    intros i w Hw Hi. destruct (decide (i = Z.to_nat mid)) as [->|Hne]; [congruence|].
    pose proof (Hord _ _ _ _ Hv Hw ltac:(lia)). lia. }
  rewrite Z.geb_leb. destruct (Z.leb_spec (cc_code v + cc_len v) c).
  { apply wp_ret. split; [|lia]. split_and!; try done; try lia.
    intros i w Hw Hi. destruct (decide (i = Z.to_nat mid)) as [->|Hne].
    { rewrite Hv in Hw. injection Hw as <-. done. }
    pose proof (Hord _ _ _ _ Hw Hv ltac:(lia)). pose proof (cc_len_bounds w). lia. }
  apply wp_ret. split; [lia|]. exists v. split; [done|]. unfold contains. lia.
Qed.

(** The data of every entry addresses the tables it is used for. *)
Definition cc_data (v d2 : Z) : Z := Z.lor (Z.shiftl (Z.land v 0xf) 8) d2.
Definition entry_ok (e : Z * Z) : bool :=
  let '(v, d2) := e in
  let type := cc_type v in
  let data := cc_data v d2 in
  (0 <=? data) && (data <? 4096) &&
  if type <=? RUN_TYPE_LF then data <? 361
  else if type =? RUN_TYPE_U2L_399_EXT2 then (Z.shiftr data 6 <? 58) && (Z.land data 0x3f <? 58)
  else if (type =? RUN_TYPE_UF_D1_EXT) || (type =? RUN_TYPE_U_EXT) || (type =? RUN_TYPE_LF_EXT) then data <? 58
  else if (type =? RUN_TYPE_U_EXT2) || (type =? RUN_TYPE_L_EXT2) then
    (Z.shiftr data 6 <? 58) && (Z.land data 0x3f <? 58)
  else true.

Lemma entries_ok : forallb entry_ok (zip case_conv_table1 case_conv_table2) = true.
Proof. vm_compute. reflexivity. Qed.

Lemma case_conv_values :
  forallb (fun v => (0 <=? v) && (v <? 2 ^ 32)) case_conv_table1 = true /\
  forallb (fun v => (0 <=? v) && (v <? 2 ^ 16)) case_conv_ext = true.
Proof. split; vm_compute; reflexivity. Qed.

Lemma rd_ext i : 0 <= i < 58 -> wp (rd case_conv_ext i) (fun e => 0 <= e < 65536).
Proof.
  intros Hi. apply wp_rd; [done|]. intros e He. pose proof (proj2 case_conv_values) as Hall.
  rewrite forallb_forall in Hall. apply list_elem_of_lookup_2, list_elem_of_In in He.
  specialize (Hall e He). breflect. change (2 ^ 16) with 65536 in *. lia.
Qed.

Lemma rd_table1 i : 0 <= i < 361 -> wp (rd case_conv_table1 i) (fun v => 0 <= v < 2 ^ 32 /\
  case_conv_table1 !! Z.to_nat i = Some v).
Proof.
  intros Hi. apply wp_rd; [done|]. intros e He. pose proof (proj1 case_conv_values) as Hall.
  rewrite forallb_forall in Hall. pose proof He as He'. apply list_elem_of_lookup_2, list_elem_of_In in He.
  specialize (Hall e He). breflect. by split.
Qed.

Lemma shiftr_bounds v k b : 0 <= k -> 0 <= v < 2 ^ k * b -> 0 <= Z.shiftr v k < b.
Proof.
  intros Hk Hv. rewrite Z.shiftr_div_pow2 by done. split; [apply Z.div_pos; lia|].
  apply Z.div_lt_upper_bound; lia.
Qed.

Lemma land_ones_le v m k : 0 <= k -> m = Z.ones k -> 0 <= Z.land v m <= m.
Proof.
  intros Hk ->. rewrite Z.land_ones by done. rewrite Z.ones_equiv.
  pose proof (Z.pow_pos_nonneg 2 k ltac:(lia) Hk). pose proof (Z.mod_pos_bound v (2 ^ k) ltac:(done)). lia.
Qed.

(** Characters: Unicode code points. *)
Definition is_char (x : Z) : Prop := 0 <= x < 0x110000.

Lemma lxor_1_bounds a : 0 <= a -> 0 <= Z.lxor a 1 <= a + 1.
Proof.
  intros Ha. pose proof (Z.add_lxor_2land a 1). pose proof (land_ones_le a 1 1 ltac:(lia) eq_refl).
  split; [apply Z.lxor_nonneg; lia|lia].
Qed.

(** A value read from the extension table, used in a result. *)
Ltac ext_value := apply wp_bind; eapply wp_mono; [apply rd_ext; lia|]; cbv beta; intros ? ?.

Ltac char_result :=
  split; [split; [cbn [length]; lia|repeat constructor; unfold is_char; rewrite ?u32_small; lia]|].

Lemma case_conv_entry_spec c conv_type idx v :
  0 <= conv_type <= 2 -> 128 <= c -> is_char c -> 0 <= idx < 361 ->
  case_conv_table1 !! Z.to_nat idx = Some v -> contains v c ->
  wp (case_conv_entry c conv_type idx) (fun l => (1 <= length l <= 3)%nat /\ Forall is_char l).
Proof.
  intros Ht Hc Hchar Hidx Hv [Hv1 Hv2]. unfold case_conv_entry.
  apply wp_bind. eapply wp_mono; [by apply rd_table1|]. cbv beta. intros v' [Hv32 Hv'].
  assert (v' = v) as -> by congruence.
  destruct (lookup_lt_is_Some_2 case_conv_table2 (Z.to_nat idx)) as [d2 Hd2].
  { change (length case_conv_table2) with 361%nat. lia. }
  apply wp_bind, wp_rd; [done|]. intros d2' Hd2'. assert (d2' = d2) as -> by congruence.
  pose proof entries_ok as Hall. rewrite forallb_forall in Hall. specialize (Hall (v, d2)).
  assert (In (v, d2) (zip case_conv_table1 case_conv_table2)) as Hin.
  { apply list_elem_of_In, list_elem_of_lookup. exists (Z.to_nat idx). by apply lookup_zip_Some. }
  specialize (Hall Hin). unfold entry_ok in Hall. fold (cc_data v d2).
  pose proof (shiftr_bounds v (32 - 17) (2 ^ 17) ltac:(lia) ltac:(lia)) as Hcode. fold (cc_code v) in Hcode.
  pose proof (cc_len_bounds v) as Hlen.
  assert (0 <= cc_type v <= 15) as Htype by (apply (land_ones_le _ 0xf 4); [lia|done]).
  set (code := cc_code v) in *. set (type := cc_type v) in *. set (data := cc_data v d2) in *.
  set (len := cc_len v) in *. unfold is_char in Hchar.
  change (2 ^ 17) with 131072 in *. clearbody code type data len.
  apply andb_true_iff in Hall as [Hdata Hall]. breflect.
  pose proof (land_ones_le data 0x3f 6 ltac:(lia) eq_refl).
  pose proof (land_ones_le data 0xf 4 ltac:(lia) eq_refl).
  pose proof (land_ones_le (Z.shiftr data 4) 0xf 4 ltac:(lia) eq_refl).
  pose proof (shiftr_bounds data 6 64 ltac:(lia) ltac:(lia)).
  pose proof (shiftr_bounds data 8 16 ltac:(lia) ltac:(lia)).
  unfold RUN_TYPE_U, RUN_TYPE_L, RUN_TYPE_UF, RUN_TYPE_LF, RUN_TYPE_UL, RUN_TYPE_LSU,
    RUN_TYPE_U2L_399_EXT2, RUN_TYPE_UF_D20, RUN_TYPE_UF_D1_EXT, RUN_TYPE_U_EXT, RUN_TYPE_LF_EXT,
    RUN_TYPE_U_EXT2, RUN_TYPE_L_EXT2 in *.
  set (is_lower := b2z (negb (conv_type =? 0))). assert (0 <= is_lower <= 1) as Hil
    by (unfold is_lower; destruct (conv_type =? 0); simpl; lia). clearbody is_lower.
  assert (forall x, is_char x -> wp (Ret [x]) (fun l => (1 <= length l <= 3)%nat /\ Forall is_char l)) as Hr1.
  { intros x Hx. apply wp_ret. split; [simpl; lia|]. by apply Forall_singleton. }
  assert (forall x y, is_char x -> is_char y ->
    wp (Ret [x; y]) (fun l => (1 <= length l <= 3)%nat /\ Forall is_char l)) as Hr2.
  { intros x y Hx Hy. apply wp_ret. split; [simpl; lia|]. apply Forall_cons. split; [done|]. by apply Forall_singleton. }
  assert (forall x y z, is_char x -> is_char y -> is_char z ->
    wp (Ret [x; y; z]) (fun l => (1 <= length l <= 3)%nat /\ Forall is_char l)) as Hr3.
  { intros x y z Hx Hy Hz. apply wp_ret. split; [simpl; lia|]. rewrite !Forall_cons. by split_and!. }
  assert (Hplus : forall x y, u32 (x + u32 y) = u32 (x + y)) by (intros x y; apply Zplus_mod_idemp_r).
  assert (Hbool : forall b, 0 <= b2z b <= 1) by (intros []; simpl; lia).
  pose proof (lxor_1_bounds (c - code) ltac:(lia)) as Hxor.
  pose proof (Hbool (conv_type =? 2)) as Hb2.
  cbn zeta. rewrite !Hplus, (u32_small (c - code)) by lia. repeat case_match; breflect.
  all: repeat first [apply Hr1 | apply Hr2 | apply Hr3
    | apply wp_bind; eapply wp_mono; [apply rd_ext; lia|]; cbv beta; intros ? ?].
  all: unfold is_char; rewrite ?u32_small; try lia.
  apply wp_bind. eapply wp_mono; [by apply rd_table1|]. cbv beta. intros w [Hw _].
  pose proof (shiftr_bounds w (32 - 17) 131072 ltac:(lia) ltac:(change (2 ^ (32 - 17) * 131072) with (2 ^ 32); lia)).
  apply Hr1. unfold is_char. rewrite u32_small; lia.
Qed.

(** ** Properties *)

Lemma cased1_index_ok : index_ok unicode_prop_Cased1_table unicode_prop_Cased1_index = true.
Proof. vm_compute. reflexivity. Qed.
Lemma case_ignorable_index_ok :
  index_ok unicode_prop_Case_Ignorable_table unicode_prop_Case_Ignorable_index = true.
Proof. vm_compute. reflexivity. Qed.
Lemma id_start_index_ok : index_ok unicode_prop_ID_Start_table unicode_prop_ID_Start_index = true.
Proof. vm_compute. reflexivity. Qed.
Lemma id_continue1_index_ok :
  index_ok unicode_prop_ID_Continue1_table unicode_prop_ID_Continue1_index = true.
Proof. vm_compute. reflexivity. Qed.

(** C27: the indexed lookups terminate within their tables for every
    character and answer as a plain left-to-right reading of the run-length
    table would, without the index; [lre_is_cased] also answers yes exactly
    for the characters of an entry of the case conversion table. *)
Theorem table_lookups_correct (c : Z) :
  0 <= c ->
  lre_is_id_start c = Ret (in_table_ref unicode_prop_ID_Start_table c) /\
  lre_is_id_continue c = Ret (in_table_ref unicode_prop_ID_Start_table c ||
                              in_table_ref unicode_prop_ID_Continue1_table c) /\
  lre_is_case_ignorable c = Ret (in_table_ref unicode_prop_Case_Ignorable_table c) /\
  lre_is_cased c =
    Ret (existsb (fun v => (cc_code v <=? c) && (c <? cc_code v + cc_len v)) case_conv_table1 ||
         in_table_ref unicode_prop_Cased1_table c).
Proof.
  intros Hc. unfold lre_is_id_continue, lre_is_id_start, lre_is_case_ignorable, lre_is_cased.
  rewrite !lre_is_in_table_spec by (done || apply id_start_index_ok || apply id_continue1_index_ok ||
    apply case_ignorable_index_ok || apply cased1_index_ok).
  cbn [mbind outcome_bind]. split_and!; [done| |done|].
  - by destruct (in_table_ref unicode_prop_ID_Start_table c).
  - pose proof (case_search_spec c Hc) as Hs. apply wp_elim in Hs as (r & -> & Hr).
    cbn [mbind outcome_bind]. destruct r as [idx|].
    + destruct Hr as (_ & v & Hv & H1 & H2). f_equal. symmetry. apply orb_true_iff. left.
      apply existsb_exists. exists v. split; [by apply list_elem_of_In, (list_elem_of_lookup_2 _ (Z.to_nat idx))|].
      apply andb_true_iff. split; [apply Z.leb_le|apply Z.ltb_lt]; lia.
    + f_equal. destruct (existsb _ _) eqn:E; [|done]. exfalso.
      apply existsb_exists in E as (v & Hv & E). apply list_elem_of_In in Hv.
      apply (Hr v Hv). breflect. split; lia.
Qed.

Lemma table_lookups_correct_witness :
  0 <= 0x3b1 /\ lre_is_id_start 0x3b1 = Ret true /\ lre_is_id_start 0x37e = Ret false.
Proof.
  split; [lia|].
  destruct (table_lookups_correct 0x3b1) as [E1 _]; [lia|].
  destruct (table_lookups_correct 0x37e) as [E2 _]; [lia|].
  rewrite E1, E2. split; vm_compute; reflexivity.
Defined.


