(* ===== verification/Normalize.v ===== *)
(** * Unicode normalization ([libunicode.c])

    Decomposition ([unicode_decomp_char]), composition ([compose_pair]),
    combining classes ([unicode_get_cc]), canonical ordering ([sort_cc]) and
    [unicode_normalize].  Characters are kept as the 32-bit values of the
    [int] buffers. *)

From S2P Require Import Prelude Cutils DynBuf UnicodeTables UnicodeLookup.

Definition UNICODE_DECOMP_LEN_MAX : Z := 18.

Definition DECOMP_TYPE_C1 : Z := 0.
Definition DECOMP_TYPE_L1 : Z := 1.
Definition DECOMP_TYPE_L7 : Z := 7.
Definition DECOMP_TYPE_LL1 : Z := 8.
Definition DECOMP_TYPE_LL2 : Z := 9.
Definition DECOMP_TYPE_S1 : Z := 10.
Definition DECOMP_TYPE_S5 : Z := 14.
Definition DECOMP_TYPE_I1 : Z := 15.
Definition DECOMP_TYPE_I2_0 : Z := 16.
Definition DECOMP_TYPE_I4_2 : Z := 21.
Definition DECOMP_TYPE_B1 : Z := 22.
Definition DECOMP_TYPE_B8 : Z := 29.
Definition DECOMP_TYPE_B18 : Z := 30.
Definition DECOMP_TYPE_LS2 : Z := 31.
Definition DECOMP_TYPE_PAT3 : Z := 32.
Definition DECOMP_TYPE_S2_UL : Z := 33.
Definition DECOMP_TYPE_LS2_UL : Z := 34.

Definition unicode_short_table : list Z := [0x2044; 0x2215].

Definition unicode_get_short_code (c : Z) : outcome Z :=
  if c <? 0x80 then Ret c
  else if c <? 0x80 + 0x50 then Ret (c - 0x80 + 0x300)
  else rd unicode_short_table (c - 0x80 - 0x50).

Definition unicode_get_lower_simple (c : Z) : Z :=
  if (c <? 0x100) || ((0x410 <=? c) && (c <=? 0x42f)) then u32 (c + 0x20) else u32 (c + 1).

Definition unicode_get16 (tab : list Z) (p : Z) : outcome Z :=
  a ← rd tab p; b ← rd tab (p + 1); Ret (Z.lor a (Z.shiftl b 8)).

(** A [for(i = 0; i < l; i++)] that stores [f i] in [res[i]], and returns 0
    when it is zero and [stop] is set: the returned length and the stored
    characters. *)
Definition store_each (l : Z) (stop : bool) (f : Z -> outcome Z) : outcome (Z * list Z) :=
  loop (S (Z.to_nat l)) (fun '(i, res) =>
    if i <? l then
      c1 ← f i;
      if stop && (c1 =? 0) then Ret (inr (0, res ++ [c1]))
      else Ret (inl (i + 1, res ++ [c1]))
    else Ret (inr (l, res))) (0, []).

(** The cases of the [switch] after [DECOMP_TYPE_C1]; [dd] is the table and
    [d] the offset of the entry's data in it. *)
Definition decomp_data_entry (dd : list Z) (d c code len type : Z) : outcome (Z * list Z) :=
  if (DECOMP_TYPE_L1 <=? type) && (type <=? DECOMP_TYPE_L7) then
    let l := type - DECOMP_TYPE_L1 + 1 in
    let d := d + (c - code) * l * 2 in
    store_each l true (fun i => unicode_get16 dd (d + 2 * i))
  else if (type =? DECOMP_TYPE_LL1) || (type =? DECOMP_TYPE_LL2) then
    let l := type - DECOMP_TYPE_LL1 + 1 in
    let k := (c - code) * l in
    let p := len * l * 2 in
    store_each l true (fun i =>
      let k := k + i in
      lo ← unicode_get16 dd (d + 2 * k);
      hi ← rd dd (d + (p + k / 4));
      Ret (Z.lor lo (Z.shiftl (Z.land (Z.shiftr hi (k mod 4 * 2)) 3) 16)))
  else if (DECOMP_TYPE_S1 <=? type) && (type <=? DECOMP_TYPE_S5) then
    let l := type - DECOMP_TYPE_S1 + 1 in
    let d := d + (c - code) * l in
    store_each l true (fun i => b ← rd dd (d + i); unicode_get_short_code b)
  else if (type =? DECOMP_TYPE_I1) || ((DECOMP_TYPE_I2_0 <=? type) && (type <=? DECOMP_TYPE_I4_2)) then
    let '(l, p) := (if type =? DECOMP_TYPE_I1 then (1, 0)
                    else
                      let l := 2 + Z.shiftr (type - DECOMP_TYPE_I2_0) 1 in
                      (l, Z.land (type - DECOMP_TYPE_I2_0) 1 + b2z (l >? 2))) in
    store_each l false (fun i =>
      c1 ← unicode_get16 dd (d + 2 * i);
      Ret (if i =? p then u32 (c1 + (c - code)) else c1))
  else if (type =? DECOMP_TYPE_B18) || ((DECOMP_TYPE_B1 <=? type) && (type <=? DECOMP_TYPE_B8)) then
    let l := if type =? DECOMP_TYPE_B18 then 18 else type - DECOMP_TYPE_B1 + 1 in
    c_min ← unicode_get16 dd d;
    let d := d + (2 + (c - code) * l) in
    store_each l false (fun i =>
      c1 ← rd dd (d + i);
      Ret (if c1 =? 0xff then 0x20 else c1 + c_min))
  else if type =? DECOMP_TYPE_LS2 then
    let d := d + (c - code) * 3 in
    r0 ← unicode_get16 dd d;
    if r0 =? 0 then Ret (0, [r0])
    else
      b ← rd dd (d + 2);
      r1 ← unicode_get_short_code b;
      Ret (2, [r0; r1])
  else if type =? DECOMP_TYPE_PAT3 then
    r0 ← unicode_get16 dd d;
    r2 ← unicode_get16 dd (d + 2);
    let d := d + (4 + (c - code) * 2) in
    r1 ← unicode_get16 dd d;
    Ret (3, [r0; r1; r2])
  else if (type =? DECOMP_TYPE_S2_UL) || (type =? DECOMP_TYPE_LS2_UL) then
    let c1 := c - code in
    '(c, d) ← (if type =? DECOMP_TYPE_S2_UL then
                 let d := d + (c1 - Z.land c1 1) in
                 b ← rd dd d; s ← unicode_get_short_code b; Ret (s, d + 1)
               else
                 let d := d + Z.shiftr c1 1 * 3 in
                 s ← unicode_get16 dd d; Ret (s, d + 2));
    let c := if Z.land c1 1 =? 0 then c else unicode_get_lower_simple c in
    b ← rd dd d;
    r1 ← unicode_get_short_code b;
    Ret (2, [c; r1])
  else Ret (0, []).

Definition unicode_decomp_entry (c idx code len type : Z) : outcome (Z * list Z) :=
  d ← rd unicode_decomp_table2 idx;
  if type =? DECOMP_TYPE_C1 then Ret (1, [d])
  else decomp_data_entry unicode_decomp_data d c code len type.

(** The fields of an entry of [unicode_decomp_table1]. *)
Definition dc_code (v : Z) : Z := Z.shiftr v (32 - 18).
Definition dc_len (v : Z) : Z := Z.land (Z.shiftr v (32 - 18 - 7)) 0x7f.
Definition dc_type (v : Z) : Z := Z.land (Z.shiftr v (32 - 18 - 7 - 6)) 0x3f.
Definition dc_compat (v : Z) : Z := Z.land v 1.

(** The binary search: the index and value of the entry that contains [c]. *)
Definition decomp_search (c : Z) : outcome (option (Z * Z)) :=
  loop (S (length unicode_decomp_table1)) (fun '(idx_min, idx_max) =>
    if idx_min <=? idx_max then
      let idx := (idx_max + idx_min) / 2 in
      v ← rd unicode_decomp_table1 idx;
      if c <? dc_code v then Ret (inl (idx_min, idx - 1))
      else if c >=? dc_code v + dc_len v then Ret (inl (idx + 1, idx_max))
      else Ret (inr (Some (idx, v)))
    else Ret (inr None)) (0, zlen unicode_decomp_table1 - 1).

(** The decomposition: the [n] first stored characters, [n] being returned. *)
Definition unicode_decomp_char (c is_compat1 : Z) : outcome (list Z) :=
  r ← decomp_search c;
  match r with
  | None => Ret []
  | Some (idx, v) =>
      if is_compat1 <? dc_compat v then Ret []
      else
        '(n, res) ← unicode_decomp_entry c idx (dc_code v) (dc_len v) (dc_type v);
        rd_range res 0 n
  end.

(** The pair an entry [idx1] of [unicode_comp_table] composes, and the
    composed character: [idx1] represents an entry of the decomposition table.
    The array [pair] has two cells, both of which the decomposition must fill. *)
Definition comp_entry (idx1 : Z) : outcome (Z * Z * Z) :=
  let d_idx := Z.shiftr idx1 6 in
  let d_offset := Z.land idx1 0x3f in
  v ← rd unicode_decomp_table1 d_idx;
  let ch := dc_code v + d_offset in
  '(_, pr) ← unicode_decomp_entry ch d_idx (dc_code v) (dc_len v) (dc_type v);
  match pr with
  | [p0; p1] => Ret (p0, p1, ch)
  | _ => Fault OutOfBounds
  end.

Definition unicode_compose_pair (c0 c1 : Z) : outcome Z :=
  loop (S (length unicode_comp_table)) (fun '(idx_min, idx_max) =>
    if idx_min <=? idx_max then
      let idx := (idx_max + idx_min) / 2 in
      idx1 ← rd unicode_comp_table idx;
      '(p0, p1, ch) ← comp_entry idx1;
      let d := i32 (c0 - p0) in
      let d := if d =? 0 then i32 (c1 - p1) else d in
      if d <? 0 then Ret (inl (idx_min, idx - 1))
      else if d >? 0 then Ret (inl (idx + 1, idx_max))
      else Ret (inr ch)
    else Ret (inr 0)) (0, zlen unicode_comp_table - 1).

(** ** Combining classes *)

(** The run length [n] of an item, read from its first byte and the bytes at
    [p], and the position after them. *)
Definition cc_run_len (table : list Z) (n p : Z) : outcome (Z * Z) :=
  if n <? 48 then Ret (n, p)
  else if n <? 56 then
    p0 ← rd table p;
    Ret (Z.lor (Z.shiftl (n - 48) 8) p0 + 48, p + 1)
  else
    p0 ← rd table p; p1 ← rd table (p + 1);
    Ret (Z.lor (Z.lor (Z.shiftl (n - 56) 8) (Z.shiftl p0 8)) p1 + (48 + Z.shiftl 1 11), p + 2).

(** One item of the decoding loop of [unicode_get_cc]. *)
Definition cc_step (c : Z) (table : list Z) (s : Z * Z) : outcome (Z * Z + Z) :=
  let '(p, code) := s in
  b ← rd table p;
  let p := p + 1 in
  let type := Z.shiftr b 6 in
  let n := Z.land b 0x3f in
  '(n, p) ← cc_run_len table n p;
  let p := if type <=? 1 then p + 1 else p in
  let c1 := u32 (code + n + 1) in
  if c <? c1 then
    if type =? 0 then v ← rd table (p - 1); Ret (inr v)
    else if type =? 1 then v ← rd table (p - 1); Ret (inr (u32 (v + c - code)))
    else if type =? 2 then Ret (inr 0)
    else Ret (inr 230)
  else Ret (inl (p, c1)).

Definition unicode_get_cc (c : Z) : outcome Z :=
  r ← get_index_pos c unicode_cc_index (zlen unicode_cc_index / 3);
  match r with
  | None => Ret 0
  | Some (pos, code) => loop (S (length unicode_cc_table)) (cc_step c unicode_cc_table) (pos, code)
  end.

(** ** Canonical ordering *)

Section Order.
(** [get_cc] is [buf_cc] below; the algorithm is stated for any class. *)
Context (get_cc : Z -> outcome Z).

(** [while (k >= start) { if (cc(buf[k]) <= cc1) break; buf[k + 1] = buf[k]; k--; }
    buf[k + 1] = ch1;] *)
Definition insert_cc (start j ch1 cc1 : Z) (buf : list Z) : outcome (list Z) :=
  '(k, buf) ← loop (S (Z.to_nat (j - start))) (fun '(k, buf) =>
    if k >=? start then
      x ← rd buf k;
      cc ← get_cc x;
      if cc <=? cc1 then Ret (inr (k, buf))
      else buf ← wr buf (k + 1) x; Ret (inl (k - 1, buf))
    else Ret (inr (k, buf))) (j - 1, buf);
  wr buf (k + 1) ch1.

(** [while (j < len)]: the run of non-starters that begins at [start]. *)
Definition sort_cc_run (start len : Z) (buf : list Z) : outcome (Z * list Z) :=
  loop (S (Z.to_nat (len - start))) (fun '(j, buf) =>
    if j <? len then
      ch1 ← rd buf j;
      cc1 ← get_cc ch1;
      if cc1 =? 0 then Ret (inr (j, buf))
      else buf ← insert_cc start j ch1 cc1 buf; Ret (inl (j + 1, buf))
    else Ret (inr (j, buf))) (start + 1, buf).

Definition sort_cc_gen (buf : list Z) (len : Z) : outcome (list Z) :=
  loop (S (Z.to_nat len)) (fun '(i, buf) =>
    if i <? len then
      x ← rd buf i;
      cc ← get_cc x;
      if cc =? 0 then Ret (inl (i + 1, buf))
      else '(j, buf) ← sort_cc_run i len buf; Ret (inl (j + 1, buf))
    else Ret (inr buf)) (0, buf).
End Order.

(** The class of an [int] of the buffer, converted to [uint32_t]. *)
Definition buf_cc (c : Z) : outcome Z := unicode_get_cc (u32 c).

Definition sort_cc (buf : list Z) (len : Z) : outcome (list Z) := sort_cc_gen buf_cc buf len.

(** ** Normalization *)

(** Hangul composition, then the table. *)
Definition compose_pair (c0 c1 : Z) : outcome Z :=
  if (0x1100 <=? c0) && (c0 <? 0x1100 + 19) && (0x1161 <=? c1) && (c1 <? 0x1161 + 21) then
    Ret (0xac00 + (c0 - 0x1100) * 588 + (c1 - 0x1161) * 28)
  else if (0xac00 <=? c0) && (c0 <? 0xac00 + 11172) && ((c0 - 0xac00) mod 28 =? 0) &&
          (0x11a7 <=? c1) && (c1 <? 0x11a7 + 28) then
    Ret (c0 + c1 - 0x11a7)
  else unicode_compose_pair c0 c1.

Inductive UnicodeNormalizationEnum := UNICODE_NFC | UNICODE_NFD | UNICODE_NFKC | UNICODE_NFKD.

Definition norm_code (t : UnicodeNormalizationEnum) : Z :=
  match t with UNICODE_NFC => 0 | UNICODE_NFD => 1 | UNICODE_NFKC => 2 | UNICODE_NFKD => 3 end.

Section Normalize.
Context `{Allocator}.

(** The body of the loop of [to_nfd_rec]; [rec] is the recursive call. *)
Definition to_nfd_char (rec : list Z -> DynBuf -> outcome DynBuf) (is_compat : Z)
    (dbuf : DynBuf) (c : Z) : outcome DynBuf :=
  if (0xac00 <=? c) && (c <? 0xd7a4) then
    let c := c - 0xac00 in
    '(_, dbuf) ← dbuf_put_u32 dbuf (0x1100 + c / 588);
    '(_, dbuf) ← dbuf_put_u32 dbuf (0x1161 + c mod 588 / 28);
    let v := c mod 28 in
    if negb (v =? 0) then '(_, dbuf) ← dbuf_put_u32 dbuf (0x11a7 + v); Ret dbuf
    else Ret dbuf
  else
    res ← unicode_decomp_char c is_compat;
    match res with
    | [] => '(_, dbuf) ← dbuf_put_u32 dbuf c; Ret dbuf
    | _ => rec res dbuf
    end.

(** [to_nfd_rec]; [depth] bounds the recursion. *)
Fixpoint to_nfd_rec (depth : nat) (is_compat : Z) (src : list Z) (dbuf : DynBuf) : outcome DynBuf :=
  match depth with
  | O => Fault OutOfFuel
  | S depth' => foldM (to_nfd_char (to_nfd_rec depth' is_compat) is_compat) dbuf src
  end.

(** The nesting of decompositions in the tables. *)
Definition NFD_DEPTH : nat := 8.

(** The composition loop, in place. *)
Definition find_starter (buf : list Z) (out_len last_cc : Z) : outcome (option Z) :=
  loop (S (Z.to_nat out_len)) (fun '(starter_pos, last_cc) =>
    if starter_pos >=? 0 then
      x ← rd buf starter_pos;
      cc ← buf_cc x;
      if cc =? 0 then Ret (inr (Some starter_pos))
      else if cc >=? last_cc then Ret (inr None)
      else Ret (inl (starter_pos - 1, 256))
    else Ret (inr None)) (out_len - 1, last_cc).

Definition compose_loop (buf : list Z) (buf_len : Z) : outcome (Z * list Z) :=
  loop (S (Z.to_nat buf_len)) (fun '(i, out_len, buf) =>
    if i <? buf_len then
      x ← rd buf i;
      last_cc ← buf_cc x;
      s ← find_starter buf out_len last_cc;
      p ← (match s with
           | None => Ret None
           | Some sp => y ← rd buf sp; p ← compose_pair y x; Ret (if p =? 0 then None else Some (sp, p))
           end);
      match p with
      | Some (sp, p) => buf ← wr buf sp p; Ret (inl (i + 1, out_len, buf))
      | None => buf ← wr buf out_len x; Ret (inl (i + 1, out_len + 1, buf))
      end
    else Ret (inr (out_len, buf))) (1, 1, buf).

(** The [n] first 32-bit values of a byte buffer. *)
Definition read_u32s (buf : list Z) (n : Z) : outcome (list Z) :=
  loop (S (Z.to_nat n)) (fun '(i, acc) =>
    if i <? n then
      v ← Bits.get_u32 buf (4 * i);
      Ret (inl (i + 1, acc ++ [v]))
    else Ret (inr acc)) (0, []).

(** [None] for the result -1, else the normalized characters. *)
Definition unicode_normalize (src : list Z) (n_type : UnicodeNormalizationEnum) : outcome (option (list Z)) :=
  let is_compat := Z.shiftr (norm_code n_type) 1 in
  '(r, dbuf) ← dbuf_realloc dbuf_init2 (u64 (4 * zlen src));
  if negb (r =? 0) then Ret None
  else if (norm_code n_type =? 0) && forallb (fun c => c <? 0x100) src then
    b ← wr_range (buf dbuf) 0 (concat (map (Bits.le_bytes 4) src));
    l ← read_u32s b (zlen src);
    Ret (Some l)
  else
    dbuf ← to_nfd_rec NFD_DEPTH is_compat src dbuf;
    if dbuf_error dbuf then Ret None
    else
      let buf_len := size dbuf / 4 in
      l ← read_u32s (buf dbuf) buf_len;
      l ← sort_cc l buf_len;
      if (buf_len <=? 1) || negb (Z.land (norm_code n_type) 1 =? 0) then Ret (Some l)
      else
        '(out_len, l) ← compose_loop l buf_len;
        l ← rd_range l 0 out_len;
        Ret (Some l).
End Normalize.

Definition normalize_run := @unicode_normalize (bounded_allocator 4096).

Example normalize_examples :
  normalize_run [0x41; 0x30a; 0xe9] UNICODE_NFC = Ret (Some [0xc5; 0xe9]) /\
  normalize_run [0x1e69] UNICODE_NFD = Ret (Some [0x73; 0x323; 0x307]) /\
  normalize_run [0x73; 0x307; 0x323] UNICODE_NFC = Ret (Some [0x1e69]) /\
  normalize_run [0xac01] UNICODE_NFD = Ret (Some [0x1100; 0x1161; 0x11a8]) /\
  normalize_run [0xfb03; 0xbd] UNICODE_NFKD = Ret (Some [0x66; 0x66; 0x69; 0x31; 0x2044; 0x32]).
Proof. vm_compute. split_and!; reflexivity. Qed.

(** ** Canonical ordering: reference and refinement *)

Section OrderSpec.
Context (get_cc : Z -> outcome Z) (cls : Z -> Z).
Context (get_cc_total : forall c, get_cc c = Ret (cls c)).

(** Insertion after the characters of a class not greater. *)
Fixpoint ins (x : Z) (l : list Z) : list Z :=
  match l with
  | [] => [x]
  | y :: l' => if cls x <? cls y then x :: y :: l' else y :: ins x l'
  end.

(** The reference algorithm: [run] is the sorted run of non-starters so far. *)
Fixpoint canon_run (run l : list Z) : list Z :=
  match l with
  | [] => run
  | x :: l' => if cls x =? 0 then run ++ x :: canon_run [] l' else canon_run (ins x run) l'
  end.
Definition canon (l : list Z) : list Z := canon_run [] l.

Fixpoint cc_sorted (l : list Z) : Prop :=
  match l with
  | x :: (y :: _) as l' => cls x <= cls y /\ cc_sorted l'
  | _ => True
  end.

Lemma cc_sorted_all x l : cc_sorted (x :: l) -> Forall (fun y => cls x <= cls y) l /\ cc_sorted l.
Proof.
  revert x. induction l as [|y l IH]; intros x H; [done|].
  destruct H as [Hxy Hs]. split; [|done]. constructor; [done|].
  eapply Forall_impl; [apply IH, Hs|]. simpl. lia.
Qed.

Lemma cc_sorted_cons x l : Forall (fun y => cls x <= cls y) l -> cc_sorted l -> cc_sorted (x :: l).
Proof. intros Hf Hs. destruct l as [|y l]; [done|]. apply Forall_cons in Hf as [Hy _]. by split. Qed.

Lemma ins_sorted x l : cc_sorted l -> cc_sorted (ins x l).
Proof.
  induction l as [|y l IH]; intros Hs; [done|]. cbn [ins]. destruct (Z.ltb_spec (cls x) (cls y)).
  - split; [lia|done].
  - apply cc_sorted_all in Hs as [Hf Hs]. apply cc_sorted_cons; [|auto].
    clear -Hf H. induction Hf as [|z l Hz Hf IH]; cbn [ins].
    + by constructor.
    + destruct (cls x <? cls z); repeat constructor; done || lia.
Qed.

Lemma ins_perm x l : ins x l ≡ₚ x :: l.
Proof.
  induction l as [|y l IH]; cbn [ins]; [done|]. destruct (cls x <? cls y); [done|].
  rewrite IH. apply Permutation_swap.
Qed.

(** The inner loop of [sort_cc]: [r2] are the elements already shifted. *)
Lemma ins_split x r1 : forall r2,
  cc_sorted (r1 ++ r2) -> Forall (fun y => cls x < cls y) r2 ->
  (forall r y, r1 = r ++ [y] -> cls y <= cls x) -> ins x (r1 ++ r2) = r1 ++ x :: r2.
Proof.
  induction r1 as [|z r1 IH]; intros r2 Hs Hf Hl; [change ([] ++ r2) with r2|rewrite <- !app_comm_cons in *; cbn [ins]].
  - destruct r2 as [|y r2]; [done|]. apply Forall_cons in Hf as [Hy _]. cbn [ins].
    by rewrite (proj2 (Z.ltb_lt _ _) Hy).
  - assert (cls z <= cls x) as Hz.
    { destruct r1 as [|w r1]; [by apply (Hl [] z)|].
      destruct (exists_last (l := w :: r1)) as (r & y & E); [done|].
      assert (cls y <= cls x) by (apply (Hl (z :: r) y); by rewrite E).
      apply cc_sorted_all in Hs as [Ha _]. rewrite E, <- app_assoc in Ha.
      apply Forall_app in Ha as [_ Ha]. apply Forall_cons in Ha as [Ha _]. simpl in Ha. lia. }
    rewrite (proj2 (Z.ltb_ge _ _) Hz). f_equal. apply IH; [|done|].
    + by apply cc_sorted_all in Hs as [_ ?].
    + intros r y ->. by apply (Hl (z :: r) y).
Qed.

Lemma insert_cc_spec pre run x post :
  cc_sorted run ->
  insert_cc get_cc (zlen pre) (zlen pre + zlen run) x (cls x) (pre ++ run ++ x :: post) =
    Ret (pre ++ ins x run ++ post).
Proof.
  intros Hs. unfold insert_cc.
  assert (Hloop : forall fuel r1 r2 g, run = r1 ++ r2 -> Forall (fun y => cls x < cls y) r2 ->
    (length r1 < fuel)%nat ->
    exists r1' r2' g', run = r1' ++ r2' /\ Forall (fun y => cls x < cls y) r2' /\
      (forall r y, r1' = r ++ [y] -> cls y <= cls x) /\
      loop fuel (fun '(k, buf) =>
        if k >=? zlen pre then
          z ← rd buf k; cc ← get_cc z;
          if cc <=? cls x then Ret (inr (k, buf))
          else buf ← wr buf (k + 1) z; Ret (inl (k - 1, buf))
        else Ret (inr (k, buf))) (zlen pre + zlen r1 - 1, pre ++ r1 ++ g :: r2 ++ post) =
      Ret (zlen pre + zlen r1' - 1, pre ++ r1' ++ g' :: r2' ++ post)).
  { induction fuel as [|fuel IH]; intros r1 r2 g E Hf Hl; [lia|]. cbn [loop].
    destruct (decide (r1 = [])) as [->|Hne].
    - exists [], r2, g. change (zlen []) with 0. rewrite Z.geb_leb, (proj2 (Z.leb_gt _ _)) by lia.
      split_and!; try done. intros r y Hr. by destruct r.
    - destruct (exists_last Hne) as (r & y & ->). rewrite zlen_app. change (zlen [y]) with 1.
      pose proof (zlen_nonneg r).
      rewrite Z.geb_leb, (proj2 (Z.leb_le _ _)) by lia.
      assert (pre ++ (r ++ [y]) ++ g :: r2 ++ post = (pre ++ r) ++ y :: g :: r2 ++ post) as ->
        by (by rewrite <- !app_assoc).
      rewrite CStr.rd_app_mid by (rewrite zlen_app; lia). cbn [mbind outcome_bind].
      rewrite get_cc_total. cbn [mbind outcome_bind]. destruct (Z.leb_spec (cls y) (cls x)).
      + exists (r ++ [y]), r2, g. split_and!; try done.
        * intros r' y' Hr. by apply app_inj_tail in Hr as [_ <-].
        * rewrite zlen_app. change (zlen [y]) with 1. by rewrite <- !app_assoc.
      + assert ((pre ++ r) ++ y :: g :: r2 ++ post = (pre ++ r ++ [y]) ++ g :: r2 ++ post) as ->
          by (by rewrite <- !app_assoc).
        rewrite CStr.wr_app_mid by (rewrite !zlen_app; change (zlen [y]) with 1; lia). cbn [mbind outcome_bind].
        assert ((pre ++ r ++ [y]) ++ y :: r2 ++ post = pre ++ r ++ y :: (y :: r2) ++ post) as ->
          by (by rewrite <- !app_assoc).
        destruct (IH r (y :: r2) y) as (r1' & r2' & g' & H1 & H2 & H3 & H4).
        * by rewrite <- app_assoc in E.
        * by constructor.
        * rewrite length_app in Hl. simpl in Hl. lia.
        * exists r1', r2', g'. split_and!; try done. rewrite <- H4. do 2 f_equal. lia. }
  destruct (Hloop (S (Z.to_nat (zlen pre + zlen run - zlen pre))) run [] x) as (r1 & r2 & g & -> & Hf & Hl & E).
  { by rewrite app_nil_r. } { done. } { unfold zlen. lia. }
  cbn [app] in E. rewrite E. cbn [mbind outcome_bind].
  rewrite app_assoc, CStr.wr_app_mid by (rewrite zlen_app; lia).
  rewrite ins_split by done. by rewrite <- !app_assoc.
Qed.

(** The run loop inserts characters until the next starter. *)
Lemma sort_cc_run_spec : forall post fuel pre run n,
  cc_sorted run -> (length post < fuel)%nat -> n = zlen pre + zlen run + zlen post ->
  exists run' post', loop fuel (fun '(j, buf) =>
      if j <? n then
        ch1 ← rd buf j; cc1 ← get_cc ch1;
        if cc1 =? 0 then Ret (inr (j, buf))
        else buf ← insert_cc get_cc (zlen pre) j ch1 cc1 buf; Ret (inl (j + 1, buf))
      else Ret (inr (j, buf))) (zlen pre + zlen run, pre ++ run ++ post) =
    Ret (zlen pre + zlen run', pre ++ run' ++ post') /\
    zlen run' + zlen post' = zlen run + zlen post /\ zlen run <= zlen run' /\
    ((post' = [] /\ canon_run run post = run') \/
     (exists x l, post' = x :: l /\ cls x = 0 /\ canon_run run post = run' ++ x :: canon_run [] l)).
Proof.
  induction post as [|x post IH]; intros fuel pre run n Hs Hf Hn; (destruct fuel as [|fuel]; [simpl in Hf; lia|]); cbn [loop].
  - change (zlen []) with 0 in Hn. rewrite (proj2 (Z.ltb_ge _ _)) by lia. exists run, [].
    split_and!; try done; try lia. by left.
  - rewrite zlen_cons in *. pose proof (zlen_nonneg post). rewrite (proj2 (Z.ltb_lt _ _)) by lia.
    rewrite app_assoc, CStr.rd_app_mid, <- app_assoc by (by rewrite zlen_app). cbn [mbind outcome_bind].
    rewrite get_cc_total. cbn [mbind outcome_bind canon_run]. destruct (Z.eqb_spec (cls x) 0) as [E|E].
    + exists run, (x :: post). split_and!; try done; try lia. { rewrite zlen_cons; lia. } right. by exists x, post.
    + rewrite insert_cc_spec by done. cbn [mbind outcome_bind].
      assert (zlen (ins x run) = zlen run + 1) as Hi.
      { pose proof (Permutation_length (ins_perm x run)) as Hp. unfold zlen. rewrite Hp. simpl. lia. }
      destruct (IH fuel pre (ins x run) n) as (run' & post' & H1 & H2 & H3 & H4).
      { by apply ins_sorted. } { simpl in Hf. lia. } { lia. }
      exists run', post'. rewrite Hi in H1. replace (zlen pre + (zlen run + 1)) with (zlen pre + zlen run + 1) in H1 by lia.
      rewrite H1. split_and!; try done; lia.
Qed.

Lemma sort_cc_spec buf : sort_cc_gen get_cc buf (zlen buf) = Ret (canon buf).
Proof.
  unfold sort_cc_gen.
  assert (H : forall fuel pre post n, (length post < fuel)%nat -> n = zlen pre + zlen post ->
    loop fuel (fun '(i, buf) =>
      if i <? n then
        x ← rd buf i; cc ← get_cc x;
        if cc =? 0 then Ret (inl (i + 1, buf))
        else '(j, buf) ← sort_cc_run get_cc i n buf; Ret (inl (j + 1, buf))
      else Ret (inr buf)) (zlen pre, pre ++ post) = Ret (pre ++ canon post)).
  2:{ apply (H _ [] buf); [unfold zlen; lia|done]. }
  induction fuel as [|fuel IH]; intros pre post n Hf Hn; [lia|]. cbn [loop].
  destruct post as [|x post].
  { change (zlen []) with 0 in Hn. by rewrite (proj2 (Z.ltb_ge _ _)) by lia. }
  rewrite zlen_cons in Hn. pose proof (zlen_nonneg post). rewrite (proj2 (Z.ltb_lt _ _)) by lia.
  rewrite CStr.rd_app_mid by done. cbn [mbind outcome_bind]. rewrite get_cc_total. cbn [mbind outcome_bind].
  unfold canon. cbn [canon_run]. simpl in Hf. destruct (Z.eqb_spec (cls x) 0) as [E|E].
  - pose proof (IH (pre ++ [x]) post n) as IH'. rewrite zlen_app, <- !app_assoc in IH'. apply IH'; [lia|].
    change (zlen [x]) with 1. lia.
  - unfold sort_cc_run. change (cls x) with (cls x) in E.
    destruct (sort_cc_run_spec post (S (Z.to_nat (n - zlen pre))) pre [x] n) as (run' & post' & E1 & H2 & H3 & H4).
    { done. } { unfold zlen in *. lia. } { change (zlen [x]) with 1. lia. }
    change (zlen [x]) with 1 in *. cbn [app] in E1. rewrite E1. cbn [mbind outcome_bind ins].
    destruct H4 as [[-> ->]|(y & l & -> & Hy & ->)].
    + destruct fuel as [|fuel]; [lia|]. change (zlen []) with 0 in H2. cbn [loop].
      rewrite (proj2 (Z.ltb_ge _ _)) by lia. by rewrite app_nil_r.
    + rewrite zlen_cons in H2.
      pose proof (IH (pre ++ run' ++ [y]) l n) as IH'. rewrite !zlen_app, <- !app_assoc in IH'.
      change (zlen [y]) with 1 in IH'. cbn [app] in IH'.
      replace (zlen pre + zlen run' + 1) with (zlen pre + (zlen run' + 1)) by lia. apply IH'; [|lia].
      unfold zlen in *. lia.
Qed.

(** The reference algorithm orders canonically: a non-starter never follows a
    character of a greater class. *)
Fixpoint ordered (l : list Z) : Prop :=
  match l with
  | x :: (y :: _) as l' => (cls y <> 0 -> cls x <= cls y) /\ ordered l'
  | _ => True
  end.

Lemma ordered_app_starter run x l :
  cc_sorted run -> cls x = 0 -> ordered (x :: l) -> ordered (run ++ x :: l).
Proof.
  induction run as [|y run IH]; intros Hs Hx Hl; [done|].
  apply cc_sorted_all in Hs as [Hf Hs]. specialize (IH Hs Hx Hl). destruct run as [|z run]; cbn [app] in *.
  - split; [done|done].
  - split; [|done]. intros _. by apply Forall_cons in Hf as [? _].
Qed.

Lemma ordered_sorted run : cc_sorted run -> ordered run.
Proof.
  induction run as [|y run IH]; intros Hs; [done|]. destruct run as [|z run]; [done|].
  destruct Hs as [? Hs]. split; [done|auto].
Qed.

Lemma canon_run_ordered l : (forall c, 0 <= cls c) -> forall run, cc_sorted run ->
  ordered (canon_run run l).
Proof.
  intros H0. induction l as [|x l IH]; intros run Hs; cbn [canon_run]; [by apply ordered_sorted|].
  destruct (Z.eqb_spec (cls x) 0) as [E|E].
  - apply ordered_app_starter; [done|done|]. specialize (IH [] I). destruct (canon_run [] l) as [|y r]; [done|].
    split; [|done]. intros _. rewrite E. apply H0.
  - apply IH. by apply ins_sorted.
Qed.

Lemma canon_run_perm l : forall run, canon_run run l ≡ₚ run ++ l.
Proof.
  induction l as [|x l IH]; intros run; cbn [canon_run]; [by rewrite app_nil_r|].
  destruct (cls x =? 0).
  - by rewrite IH.
  - rewrite IH, ins_perm. simpl. apply Permutation_middle.
Qed.

(** Stability: the characters of one class keep their order. *)
Lemma ins_filter k x l : cc_sorted l -> filter (fun y => cls y = k) (ins x l) =
  filter (fun y => cls y = k) l ++ filter (fun y => cls y = k) [x].
Proof.
  induction l as [|y l IH]; intros Hs; cbn [ins]; [done|]. destruct (Z.ltb_spec (cls x) (cls y)).
  - apply cc_sorted_all in Hs as [Hf _]. rewrite (filter_cons _ x), (filter_cons _ y), !filter_cons, filter_nil.
    destruct (decide (cls x = k)) as [Hk|Hk]; [|by rewrite app_nil_r].
    destruct (decide (cls y = k)) as [Hk2|Hk2]; [lia|].
    assert (filter (fun y => cls y = k) l = []) as ->; [|done].
    clear -Hf H Hk. induction Hf as [|z l Hz Hf IH]; [done|]. rewrite filter_cons. destruct (decide (cls z = k)); [lia|done].
  - apply cc_sorted_all in Hs as [_ Hs]. rewrite !(filter_cons _ y), IH by done. by destruct (decide (cls y = k)).
Qed.

Lemma canon_run_stable k l : forall run, cc_sorted run ->
  filter (fun y => cls y = k) (canon_run run l) = filter (fun y => cls y = k) (run ++ l).
Proof.
  induction l as [|x l IH]; intros run Hs; cbn [canon_run]; [by rewrite app_nil_r|].
  destruct (Z.eqb_spec (cls x) 0) as [E|E].
  - by rewrite !filter_app, !(filter_cons _ x), IH.
  - rewrite IH by (by apply ins_sorted). rewrite !filter_app, ins_filter by done. rewrite <- app_assoc, <- filter_app. done.
Qed.

(** Starters keep their positions. *)
Lemma canon_run_starters l : forall run, Forall (fun y => cls y <> 0) run ->
  map (fun y => bool_decide (cls y = 0)) (canon_run run l) = map (fun y => bool_decide (cls y = 0)) (run ++ l).
Proof.
  assert (Hns : forall run run' : list Z, length run = length run' -> Forall (fun y => cls y <> 0) run ->
    Forall (fun y => cls y <> 0) run' ->
    map (fun y => bool_decide (cls y = 0)) run = map (fun y => bool_decide (cls y = 0)) run').
  { induction run as [|x run IH]; intros [|y run'] Hl H1 H2; try done. apply Forall_cons in H1 as [Hx H1], H2 as [Hy H2].
    cbn [map]. rewrite !bool_decide_eq_false_2 by done. f_equal. apply IH; [by injection Hl|done|done]. }
  induction l as [|x l IH]; intros run Hs; cbn [canon_run]; [by rewrite app_nil_r|].
  destruct (Z.eqb_spec (cls x) 0) as [E|E].
  - rewrite !map_app. cbn [map]. do 2 f_equal. by rewrite IH.
  - assert (Forall (fun y => cls y <> 0) (ins x run)) as Hi by (rewrite ins_perm; by constructor).
    rewrite IH by done. assert (run ++ x :: l = (run ++ [x]) ++ l) as -> by (by rewrite <- app_assoc).
    rewrite (map_app _ (ins x run) l), (map_app _ (run ++ [x]) l). f_equal. apply Hns; [|done|].
    + rewrite (Permutation_length (ins_perm x run)), length_app. simpl. lia.
    + apply Forall_app. split; [done|]. by apply Forall_singleton.
Qed.
End OrderSpec.

(** ** The combining class table without its index *)

(** An item: the number of characters, the type and its value byte. *)
Definition cc_item : Type := Z * Z * Z.

(** The length of an item and the bytes after it, from its [n] field. *)
Definition cc_item_len (n : Z) (r : list Z) : option (Z * list Z) :=
  if n <? 48 then Some (n + 1, r)
  else if n <? 56 then
    match r with p0 :: r' => Some (Z.lor (Z.shiftl (n - 48) 8) p0 + 48 + 1, r') | [] => None end
  else
    match r with
    | p0 :: p1 :: r' =>
        Some (Z.lor (Z.lor (Z.shiftl (n - 56) 8) (Z.shiftl p0 8)) p1 + (48 + Z.shiftl 1 11) + 1, r')
    | _ => None
    end.

Fixpoint cc_items_fuel (fuel : nat) (l : list Z) : option (list cc_item) :=
  match fuel, l with
  | _, [] => Some []
  | O, _ => None
  | S fuel', b :: r =>
      '(n, r1) ← cc_item_len (Z.land b 0x3f) r;
      let type := Z.shiftr b 6 in
      if type <=? 1 then
        match r1 with
        | v :: r2 => its ← cc_items_fuel fuel' r2; Some ((n, type, v) :: its)
        | [] => None
        end
      else its ← cc_items_fuel fuel' r1; Some ((n, type, 0) :: its)
  end.
Definition cc_items (l : list Z) : option (list cc_item) := cc_items_fuel (length l) l.

Definition items_sum (its : list cc_item) : Z := zsum (map (fun i => i.1.1) its).

(** The class an item that begins at [code] gives to [c]. *)
Definition item_class (c code : Z) (it : cc_item) : Z :=
  let '(_, type, v) := it in
  if type =? 0 then v else if type =? 1 then v + c - code else if type =? 2 then 0 else 230.

Fixpoint in_items (c code : Z) (its : list cc_item) : Z :=
  match its with
  | [] => 0
  | it :: its' => if c <? code + it.1.1 then item_class c code it else in_items c (code + it.1.1) its'
  end.

(** Items have positive lengths and give classes below 256. *)
Definition item_ok (it : cc_item) : bool :=
  let '(n, type, v) := it in
  (0 <? n) && (0 <=? v) && (v <? 256) && (negb (type =? 1) || (v + n <=? 256)).

Definition cc_block_ok (table index : list Z) (k : nat) : bool :=
  let pos := index_pos index k in
  (0 <=? pos) && (pos <=? zlen table) &&
  match cc_items (take (Z.to_nat pos) table) with
  | Some its => items_sum its =? index_code index k
  | None => false
  end &&
  match cc_items (drop (Z.to_nat pos) table) with Some _ => true | None => false end.

Definition cc_index_ok (table index : list Z) : bool :=
  let n := (length index / 3)%nat in
  index_shape index &&
  forallb (cc_block_ok table index) (seq 0 (n - 1)) &&
  match cc_items table with
  | Some its => (items_sum its =? index_last index (n - 1)) && (items_sum its <? 2 ^ 31) && forallb item_ok its
  | None => false
  end.

Lemma cc_table_ok : cc_index_ok unicode_cc_table unicode_cc_index = true.
Proof. vm_compute. reflexivity. Qed.

Definition unicode_cc_ref (c : Z) : Z :=
  match cc_items unicode_cc_table with Some its => in_items c 0 its | None => 0 end.

Lemma cc_item_len_app n r l2 m r' :
  cc_item_len n r = Some (m, r') -> cc_item_len n (r ++ l2) = Some (m, r' ++ l2).
Proof.
  unfold cc_item_len. destruct (n <? 48); [by intros [= <- <-]|]. destruct (n <? 56).
  - destruct r as [|p0 r]; [done|]. by intros [= <- <-].
  - destruct r as [|p0 [|p1 r]]; [done..|]. by intros [= <- <-].
Qed.

Lemma cc_items_fuel_app f1 : forall l1 l2 its1 its2 f2,
  cc_items_fuel f1 l1 = Some its1 -> cc_items_fuel f2 l2 = Some its2 ->
  cc_items_fuel (f1 + f2) (l1 ++ l2) = Some (its1 ++ its2).
Proof.
  assert (Hmono : forall f l its, cc_items_fuel f l = Some its -> forall f', (f <= f')%nat -> cc_items_fuel f' l = Some its).
  { induction f as [|f IH]; intros [|b r] its H f' Hf; try done; [by destruct f'|by destruct f'|].
    destruct f' as [|f']; [lia|]. cbn [cc_items_fuel] in *.
    destruct (cc_item_len (Z.land b 0x3f) r) as [[n r1]|]; [|done]. cbn [mbind option_bind] in *.
    destruct (Z.shiftr b 6 <=? 1).
    - destruct r1 as [|v r2]; [done|]. destruct (cc_items_fuel f r2) as [its'|] eqn:E; [|done].
      by rewrite (IH r2 its' E f') by lia.
    - destruct (cc_items_fuel f r1) as [its'|] eqn:E; [|done]. by rewrite (IH r1 its' E f') by lia. }
  induction f1 as [|f1 IH]; intros [|b r] l2 its1 its2 f2 H1 H2; try done.
  - injection H1 as <-. done.
  - injection H1 as <-. apply (Hmono f2); [done|lia].
  - cbn [cc_items_fuel plus Nat.add app] in *.
    destruct (cc_item_len (Z.land b 0x3f) r) as [[n r1]|] eqn:En; [|done].
    rewrite (cc_item_len_app _ _ l2 _ _ En). cbn [mbind option_bind] in *.
    destruct (Z.shiftr b 6 <=? 1).
    + destruct r1 as [|v r2]; [done|]. cbn [app].
      destruct (cc_items_fuel f1 r2) as [its'|] eqn:E; [|done]. injection H1 as <-.
      by rewrite (IH r2 l2 its' its2 f2).
    + destruct (cc_items_fuel f1 r1) as [its'|] eqn:E; [|done]. injection H1 as <-.
      by rewrite (IH r1 l2 its' its2 f2).
Qed.

Lemma cc_run_len_spec pre r n m r1 p :
  cc_item_len n r = Some (m, r1) -> p = zlen pre ->
  exists q, r = q ++ r1 /\ cc_run_len (pre ++ r) n p = Ret (m - 1, p + zlen q).
Proof.
  intros H ->. unfold cc_item_len, cc_run_len in *. destruct (n <? 48).
  { injection H as <- <-. exists []. split; [done|]. change (zlen []) with 0. do 2 f_equal; lia. }
  destruct (n <? 56).
  - destruct r as [|p0 r]; [done|]. injection H as <- <-. exists [p0]. split; [done|].
    rewrite CStr.rd_app_mid by done. cbn [mbind outcome_bind]. change (zlen [p0]) with 1. do 2 f_equal. lia.
  - destruct r as [|p0 [|p1 r]]; [done..|]. injection H as <- <-. exists [p0; p1]. split; [done|].
    rewrite (CStr.rd_app_mid pre (p1 :: r) p0 (zlen pre)) by done. rewrite (rd_app_r pre (p0 :: p1 :: r) 1 (zlen pre + 1)) by lia.
    change (rd (p0 :: p1 :: r) 1) with (Ret p1).
    cbn [mbind outcome_bind]. change (zlen [p0; p1]) with 2. do 2 f_equal. lia.
Qed.

Lemma zsum_items_nonneg its : Forall (fun i => item_ok i = true) its -> 0 <= items_sum its.
Proof.
  induction 1 as [|[[n t] v] its Hi Hf IH]; [done|]. cbn [items_sum map zsum fst] in *.
  unfold items_sum in IH. unfold item_ok in Hi. breflect. lia.
Qed.

(** The decoding loop reads items. *)
Lemma cc_loop c : 0 <= c < 2 ^ 32 -> forall f l fuel pre code its,
  cc_items_fuel f l = Some its -> Forall (fun i => item_ok i = true) its ->
  (length l < fuel)%nat -> 0 <= code -> code <= c < code + items_sum its -> code + items_sum its < 2 ^ 31 ->
  loop fuel (cc_step c (pre ++ l)) (zlen pre, code) = Ret (in_items c code its) /\
  0 <= in_items c code its < 256.
Proof.
  intros Hc32. induction f as [|f IH]; intros [|b r] fuel pre code its H Hok Hf Hc0 Hc Hs; try done;
    [injection H as <-; change (items_sum []) with 0 in Hc; lia|injection H as <-; change (items_sum []) with 0 in Hc; lia|].
  destruct fuel as [|fuel]; [lia|]. cbn [loop cc_items_fuel] in *.
  destruct (cc_item_len (Z.land b 0x3f) r) as [[n r1]|] eqn:En; [|done]. cbn [mbind option_bind] in H.
  unfold cc_step at 1. rewrite CStr.rd_app_mid by done. cbn [mbind outcome_bind]. cbn zeta.
  destruct (cc_run_len_spec (pre ++ [b]) r _ _ _ (zlen pre + 1) En) as (q & -> & Eq);
    [by rewrite zlen_app|]. rewrite <- app_assoc in Eq. cbn [app] in Eq. rewrite Eq. cbn [mbind outcome_bind].
  destruct (Z.leb_spec (Z.shiftr b 6) 1) as [Ht|Ht].
  - destruct r1 as [|v r2]; [done|]. destruct (cc_items_fuel f r2) as [its'|] eqn:E; [|done]. injection H as <-.
    apply Forall_cons in Hok as [Hi Hok]. pose proof (zsum_items_nonneg _ Hok) as Hsum.
    unfold items_sum in Hc, Hs. cbn [map zsum fst] in Hc, Hs. fold (items_sum its') in Hc, Hs.
    unfold item_ok in Hi. apply andb_true_iff in Hi as [Hi Hinc]. breflect.
    cbn [in_items fst]. rewrite (u32_small (code + (n - 1) + 1)) by lia.
    replace (code + (n - 1) + 1) with (code + n) by lia.
    assert (rd (pre ++ b :: q ++ v :: r2) (zlen pre + 1 + zlen q + 1 - 1) = Ret v) as Ev.
    { pose proof (CStr.rd_app_mid (pre ++ b :: q) r2 v (zlen pre + 1 + zlen q)) as Em.
      rewrite <- app_assoc in Em. replace (zlen pre + 1 + zlen q + 1 - 1) with (zlen pre + 1 + zlen q) by lia.
      apply Em. rewrite zlen_app, zlen_cons. lia. }
    destruct (Z.ltb_spec c (code + n)).
    + cbn [item_class]. rewrite !Ev. cbn [mbind outcome_bind].
      destruct (Z.eqb_spec (Z.shiftr b 6) 0); [by split|].
      destruct (Z.eqb_spec (Z.shiftr b 6) 1) as [E1|E1].
      * cbn [negb orb] in Hinc. breflect. rewrite u32_small by lia. split; [done|lia].
      * destruct (Z.shiftr b 6 =? 2); split; done || lia.
    + destruct (IH r2 fuel (pre ++ b :: q ++ [v]) (code + n) its' E Hok) as [E2 Hb]; try lia.
      { cbn [length] in Hf. rewrite length_app in Hf. simpl in Hf. lia. }
      split; [|done]. rewrite <- E2. rewrite zlen_app, zlen_cons, zlen_app. change (zlen [v]) with 1.
      assert ((pre ++ b :: q ++ [v]) ++ r2 = pre ++ b :: q ++ v :: r2) as ->
        by (rewrite <- app_assoc; cbn [app]; by rewrite <- app_assoc).
      do 2 f_equal. lia.
  - destruct (cc_items_fuel f r1) as [its'|] eqn:E; [|done]. injection H as <-.
    apply Forall_cons in Hok as [Hi Hok]. pose proof (zsum_items_nonneg _ Hok) as Hsum.
    unfold items_sum in Hc, Hs. cbn [map zsum fst] in Hc, Hs. fold (items_sum its') in Hc, Hs.
    unfold item_ok in Hi. apply andb_true_iff in Hi as [Hi Hinc]. breflect.
    cbn [in_items fst]. rewrite (u32_small (code + (n - 1) + 1)) by lia.
    replace (code + (n - 1) + 1) with (code + n) by lia.
    destruct (Z.ltb_spec c (code + n)).
    + cbn [item_class]. destruct (Z.eqb_spec (Z.shiftr b 6) 0); [lia|].
      destruct (Z.eqb_spec (Z.shiftr b 6) 1); [lia|].
      destruct (Z.shiftr b 6 =? 2); split; done || lia.
    + destruct (IH r1 fuel (pre ++ b :: q) (code + n) its' E Hok) as [E2 Hb]; try lia.
      { cbn [length] in Hf. rewrite length_app in Hf. lia. }
      split; [|done]. rewrite <- E2. rewrite zlen_app, zlen_cons, <- app_assoc. cbn [app].
      do 2 f_equal. lia.
Qed.

Lemma in_items_skip c its1 : forall code its2,
  Forall (fun i => item_ok i = true) its1 -> code + items_sum its1 <= c ->
  in_items c code (its1 ++ its2) = in_items c (code + items_sum its1) its2.
Proof.
  induction its1 as [|[[n t] v] its1 IH]; intros code its2 Hf Hc.
  - unfold items_sum. simpl. by rewrite Z.add_0_r.
  - apply Forall_cons in Hf as [Hi Hf]. pose proof (zsum_items_nonneg _ Hf).
    unfold items_sum in *. cbn [map zsum fst app in_items] in *.
    rewrite (proj2 (Z.ltb_ge _ _)) by lia. rewrite IH by (done || lia). f_equal. lia.
Qed.

Lemma in_items_above c its code :
  Forall (fun i => item_ok i = true) its -> code + items_sum its <= c -> in_items c code its = 0.
Proof. intros Hf Hc. rewrite <- (app_nil_r its). by rewrite in_items_skip. Qed.

Lemma items_sum_app its1 its2 : items_sum (its1 ++ its2) = items_sum its1 + items_sum its2.
Proof. unfold items_sum. induction its1; simpl; lia. Qed.

Lemma unicode_get_cc_spec c :
  0 <= c < 2 ^ 32 -> unicode_get_cc c = Ret (unicode_cc_ref c) /\ 0 <= unicode_cc_ref c < 256.
Proof.
  intros Hc. pose proof cc_table_ok as Hok. unfold unicode_get_cc, unicode_cc_ref.
  set (table := unicode_cc_table) in *. set (index := unicode_cc_index) in *. clearbody table index.
  unfold cc_index_ok in Hok. set (n := (length index / 3)%nat) in *.
  apply andb_true_iff in Hok as [Hok Hend]. apply andb_true_iff in Hok as [Hshape Hblocks].
  pose proof (get_index_pos_spec index c Hshape ltac:(lia)) as Hpos. fold n in Hpos.
  unfold index_shape in Hshape. fold n in Hshape. apply andb_true_iff in Hshape as [Hn _]. apply Nat.ltb_lt in Hn.
  destruct (cc_items table) as [its|] eqn:Ei; [|done].
  apply andb_true_iff in Hend as [Hend Hitems]. breflect.
  assert (Forall (fun i => item_ok i = true) its) as Hf.
  { apply Forall_forall. intros i Hi. rewrite forallb_forall in Hitems. by apply Hitems, list_elem_of_In. }
  rewrite forallb_forall in Hblocks.
  assert (Hblock : forall k, (k < n - 1)%nat -> exists pre l its1 its2, table = pre ++ l /\
    index_pos index k = zlen pre /\ its = its1 ++ its2 /\ index_code index k = items_sum its1 /\
    cc_items l = Some its2).
  { intros k Hk. assert (In k (seq 0 (n - 1))) as Hin by (apply in_seq; lia). specialize (Hblocks k Hin).
    unfold cc_block_ok in Hblocks. set (p := Z.to_nat (index_pos index k)) in *.
    apply andb_true_iff in Hblocks as [Hb Hd]. apply andb_true_iff in Hb as [Hb Ht].
    destruct (cc_items (take p table)) as [its1|] eqn:E1; [|done].
    destruct (cc_items (drop p table)) as [its2|] eqn:E2; [|done]. breflect.
    exists (take p table), (drop p table), its1, its2.
    assert (length (take p table) = p) as Hlp.
    { rewrite length_take. unfold p, zlen in *. lia. }
    split_and!; [by rewrite take_drop|unfold zlen; rewrite Hlp; unfold p; lia| |lia|done].
    pose proof (cc_items_fuel_app _ _ _ _ _ _ E1 E2) as Happ. rewrite take_drop in Happ.
    replace (length (take p table) + length (drop p table))%nat with (length table) in Happ
      by (rewrite <- length_app, take_drop; done).
    unfold cc_items in Ei. rewrite Ei in Happ. by injection Happ. }
  apply wp_elim in Hpos as (r & -> & Hr). cbn [mbind outcome_bind].
  assert (Hscan : forall pre l its1 its2, table = pre ++ l -> its = its1 ++ its2 ->
    items_sum its1 <= c < items_sum its -> cc_items l = Some its2 ->
    loop (S (length table)) (cc_step c table) (zlen pre, items_sum its1) = Ret (in_items c 0 its) /\
    0 <= in_items c 0 its < 256).
  { intros pre l its1 its2 -> -> Hcr El. apply Forall_app in Hf as [Hf1 Hf2]. rewrite items_sum_app in *.
    pose proof (zsum_items_nonneg _ Hf1).
    rewrite in_items_skip by (done || lia). rewrite Z.add_0_l.
    eapply cc_loop; [done|exact El|done| |lia|lia|lia]. rewrite length_app. lia. }
  destruct r as [[pos code]|].
  - destruct Hr as [(-> & -> & Hlt)|(k & Hk & -> & -> & Hcr)].
    + destruct (Hblock 0%nat ltac:(lia)) as (pre & l & its1 & its2 & _ & _ & E & Hc1 & _).
      apply (Hscan [] table [] its); [done|done| |done]. change (items_sum []) with 0. subst its.
      apply Forall_app in Hf as [_ Hf2]. pose proof (zsum_items_nonneg _ Hf2). rewrite items_sum_app. lia.
    + destruct (Hblock k Hk) as (pre & l & its1 & its2 & Et & -> & E & Hc1 & El). rewrite Hc1.
      eapply Hscan; [done|done| |done]. lia.
  - rewrite in_items_above; [split; [done|lia]|done|lia].
Qed.

(** ** Properties *)

(** C28: [unicode_get_cc] terminates inside its table for every 32-bit
    character, gives a class in 0..255, and the index is only a shortcut: the
    class is the one a reading of the whole table from its start gives. *)
Theorem unicode_get_cc_correct (c : Z) :
  0 <= c < 2 ^ 32 -> unicode_get_cc c = Ret (unicode_cc_ref c) /\ 0 <= unicode_cc_ref c < 256.
Proof. apply unicode_get_cc_spec. Qed.

Lemma unicode_get_cc_correct_witness :
  unicode_cc_ref 0x301 = 230 /\ unicode_get_cc 0x301 = Ret (unicode_cc_ref 0x301) /\
  unicode_get_cc 0x5b0 = Ret (unicode_cc_ref 0x5b0) /\ unicode_cc_ref 0x5b0 = 10.
Proof.
  split; [vm_compute; reflexivity|].
  split; [apply unicode_get_cc_correct; lia|]. split; [apply unicode_get_cc_correct; lia|].
  vm_compute; reflexivity.
Defined.

(** C29: [sort_cc] puts any buffer in canonical order (a non-starter never
    follows a character of a greater combining class), by a permutation that
    leaves every starter in place and keeps the relative order of characters
    of the same class; it terminates inside the buffer. *)
Theorem sort_cc_canonical (buf : list Z) :
  exists buf', sort_cc buf (zlen buf) = Ret buf' /\ buf' ≡ₚ buf /\
    ordered (fun c => unicode_cc_ref (u32 c)) buf' /\
    map (fun c => bool_decide (unicode_cc_ref (u32 c) = 0)) buf' =
      map (fun c => bool_decide (unicode_cc_ref (u32 c) = 0)) buf /\
    forall k, filter (fun c => unicode_cc_ref (u32 c) = k) buf' =
      filter (fun c => unicode_cc_ref (u32 c) = k) buf.
Proof.
  set (cls := fun c => unicode_cc_ref (u32 c)).
  assert (Hcls : forall c, buf_cc c = Ret (cls c) /\ 0 <= cls c < 256).
  { intros c. apply unicode_get_cc_spec. apply u32_range. }
  exists (canon cls buf). split_and!.
  - apply sort_cc_spec. intros c. apply Hcls.
  - apply canon_run_perm.
  - apply canon_run_ordered; [|done]. intros c. destruct (Hcls c). lia.
  - by apply canon_run_starters.
  - intros k. by apply canon_run_stable.
Qed.

(** ** Decomposition *)

(** Entries of [unicode_decomp_table1] are in increasing order. *)
Definition dc_contains (v c : Z) : Prop := dc_code v <= c < dc_code v + dc_len v.

Fixpoint decomp_sorted (l : list Z) : bool :=
  match l with
  | v :: (w :: _) as l' => (dc_code v + dc_len v <=? dc_code w) && decomp_sorted l'
  | _ => true
  end.

Lemma decomp_table1_sorted : decomp_sorted unicode_decomp_table1 = true.
Proof. vm_compute. reflexivity. Qed.

Lemma dc_len_bounds v : 0 <= dc_len v < 128.
Proof. unfold dc_len. pose proof (land_ones_le (Z.shiftr v (32 - 18 - 7)) 0x7f 7 ltac:(lia) eq_refl). lia. Qed.

Lemma decomp_sorted_lookup l : forall i j v w,
  decomp_sorted l = true -> l !! i = Some v -> l !! j = Some w -> (i < j)%nat ->
  dc_code v + dc_len v <= dc_code w.
Proof.
  induction l as [|x l IH]; intros i j v w Hs Hi Hj Hij; [done|].
  destruct j as [|j]; [lia|]. simpl in Hj. destruct l as [|y l]; [done|].
  cbn [decomp_sorted] in Hs. apply andb_true_iff in Hs as [Hxy Hs]. breflect.
  destruct i as [|i]; [|by eapply (IH i j); [done|done|done|lia]].
  injection Hi as <-. destruct j as [|j]; [injection Hj as <-; done|].
  pose proof (IH 0%nat (S j) y w Hs eq_refl Hj ltac:(lia)). pose proof (dc_len_bounds y). lia.
Qed.

(** A character is in one entry at most. *)
Lemma dc_contains_unique i j v w c :
  unicode_decomp_table1 !! i = Some v -> unicode_decomp_table1 !! j = Some w ->
  dc_contains v c -> dc_contains w c -> i = j /\ v = w.
Proof.
  intros Hi Hj [H1 H2] [H3 H4].
  pose proof (decomp_sorted_lookup _ i j v w decomp_table1_sorted Hi Hj).
  pose proof (decomp_sorted_lookup _ j i w v decomp_table1_sorted Hj Hi).
  assert (i = j) as -> by lia. split; [done|]. congruence.
Qed.

Lemma decomp_search_spec c :
  wp (decomp_search c) (fun r => match r with
    | Some (idx, v) => 0 <= idx < zlen unicode_decomp_table1 /\
        unicode_decomp_table1 !! Z.to_nat idx = Some v /\ dc_contains v c
    | None => forall v, v ∈ unicode_decomp_table1 -> ~ dc_contains v c
    end).
Proof.
  unfold decomp_search.
  set (n := zlen unicode_decomp_table1). set (fuel := S (length unicode_decomp_table1)).
  assert (Hf : Z.of_nat fuel = n + 1) by done.
  assert (Hn : 0 <= n) by done. clearbody fuel.
  pose proof (fun i j v w => decomp_sorted_lookup unicode_decomp_table1 i j v w decomp_table1_sorted) as Hord.
  assert (Hlt : forall i v, unicode_decomp_table1 !! i = Some v -> Z.of_nat i < n).
  { intros i v Hi. apply lookup_lt_Some in Hi. unfold n, zlen. lia. }
  apply (wp_loop (fun '(lo, hi) => 0 <= lo /\ hi < n /\ lo <= hi + 1 /\
      (forall i v, unicode_decomp_table1 !! i = Some v -> Z.of_nat i < lo -> dc_code v + dc_len v <= c) /\
      (forall i v, unicode_decomp_table1 !! i = Some v -> hi < Z.of_nat i -> c < dc_code v))
    (fun '(lo, hi) => hi - lo + 1)).
  2:{ split_and!; [lia|lia|lia| |].
      - intros i v Hi Hi0. lia.
      - intros i v Hi Hi0. pose proof (Hlt i v Hi). lia. }
  2:{ lia. }
  intros [lo hi] (Hlo & Hhi & Hlh & Hbelow & Habove).
  destruct (Z.leb_spec lo hi) as [Hle|Hgt].
  2:{ apply wp_ret. intros v Hv [H1 H2]. apply list_elem_of_lookup in Hv as [i Hi].
      destruct (decide (Z.of_nat i < lo)); [specialize (Hbelow i v Hi); lia|].
      specialize (Habove i v Hi). lia. }
  cbn zeta.
  pose proof (Z.div_mod (hi + lo) 2 ltac:(lia)). pose proof (Z.mod_pos_bound (hi + lo) 2 ltac:(lia)).
  set (mid := (hi + lo) / 2) in *.
  apply wp_bind, wp_rd; [unfold n in *; lia|]. intros v Hv. pose proof (dc_len_bounds v).
  destruct (Z.ltb_spec c (dc_code v)).
  { apply wp_ret. split; [|lia]. split_and!; try done; try lia.
    intros i w Hw Hi. destruct (decide (i = Z.to_nat mid)) as [->|Hne]; [congruence|].
    pose proof (Hord _ _ _ _ Hv Hw ltac:(lia)). lia. }
  rewrite Z.geb_leb. destruct (Z.leb_spec (dc_code v + dc_len v) c).
  { apply wp_ret. split; [|lia]. split_and!; try done; try lia.
    intros i w Hw Hi. destruct (decide (i = Z.to_nat mid)) as [->|Hne].
    { rewrite Hv in Hw. injection Hw as <-. done. }
    pose proof (Hord _ _ _ _ Hw Hv ltac:(lia)). pose proof (dc_len_bounds w). lia. }
  apply wp_ret. split; [lia|]. split; [done|]. unfold dc_contains. lia.
Qed.

(** *** A search tree over the entries, to evaluate decompositions quickly *)

(** An entry: its index, its two table values and its data. *)
Record dentry := mkEntry { de_idx : Z; de_v : Z; de_d : Z; de_data : list Z }.

Inductive etree := ELeaf | ENode (l : etree) (e : dentry) (r : etree).

Fixpoint inorder (t : etree) : list dentry :=
  match t with ELeaf => [] | ENode l e r => inorder l ++ e :: inorder r end.

Fixpoint tree_search (t : etree) (c : Z) : option dentry :=
  match t with
  | ELeaf => None
  | ENode l e r =>
      if c <? dc_code (de_v e) then tree_search l c
      else if c <? dc_code (de_v e) + dc_len (de_v e) then Some e
      else tree_search r c
  end.

Fixpoint build (fuel : nat) (l : list dentry) : etree :=
  match fuel with
  | O => ELeaf
  | S f =>
      let k := (length l / 2)%nat in
      match drop k l with
      | e :: rest => ENode (build f (take k l)) e (build f rest)
      | [] => ELeaf
      end
  end.

Lemma inorder_build fuel : forall l, (length l <= fuel)%nat -> inorder (build fuel l) = l.
Proof.
  induction fuel as [|f IH]; intros l Hl; [destruct l; [done|simpl in Hl; lia]|]. cbn [build]. cbn zeta.
  destruct l as [|x l]; [done|]. set (k := (length (x :: l) / 2)%nat).
  assert (k < length (x :: l))%nat as Hk by (apply Nat.div_lt; simpl; lia).
  pose proof (length_drop (x :: l) k) as Hd. pose proof (take_drop k (x :: l)) as Htd.
  clearbody k. set (L := x :: l) in *. clearbody L.
  destruct (drop k L) as [|e rest]; [simpl in *; lia|].
  cbn [inorder]. simpl in Hd. rewrite !IH; [done|lia|rewrite length_take; lia].
Qed.

Lemma tree_search_some t c e : tree_search t c = Some e -> e ∈ inorder t /\ dc_contains (de_v e) c.
Proof.
  induction t as [|l IHl x r IHr]; cbn [tree_search inorder]; [done|]. rewrite elem_of_app, elem_of_cons.
  destruct (Z.ltb_spec c (dc_code (de_v x))); [intros Hl; apply IHl in Hl; tauto|].
  destruct (Z.ltb_spec c (dc_code (de_v x) + dc_len (de_v x))); [|intros Hr; apply IHr in Hr; tauto].
  intros [= <-]. split; [auto|]. split; lia.
Qed.

Lemma decomp_sorted_app l1 l2 : decomp_sorted (l1 ++ l2) = true -> decomp_sorted l1 = true /\ decomp_sorted l2 = true.
Proof.
  induction l1 as [|x l1 IH]; [done|]. rewrite <- app_comm_cons. intros H.
  destruct l1 as [|y l1]; [split; [done|]; destruct l2; [done|by apply andb_true_iff in H as [_ ?]]|].
  cbn [app decomp_sorted] in H. apply andb_true_iff in H as [H1 H2]. apply IH in H2 as [H2 H3].
  split; [|done]. apply andb_true_iff. by split.
Qed.

Lemma tree_search_none t c :
  decomp_sorted (map de_v (inorder t)) = true -> tree_search t c = None ->
  forall e, e ∈ inorder t -> ~ dc_contains (de_v e) c.
Proof.
  induction t as [|l IHl x r IHr]; cbn [tree_search inorder]; intros Hs H e He; [by apply elem_of_nil in He|].
  rewrite map_app in Hs. cbn [map] in Hs.
  assert (Hl1 : forall e1, e1 ∈ inorder l -> dc_code (de_v e1) + dc_len (de_v e1) <= dc_code (de_v x)).
  { intros e1 H1. apply list_elem_of_lookup in H1 as [i Hi].
    eapply (decomp_sorted_lookup _ i (length (map de_v (inorder l)))); [exact Hs| | |].
    - apply lookup_app_l_Some. by rewrite list_lookup_fmap, Hi.
    - by apply list_lookup_middle.
    - rewrite length_map. by apply lookup_lt_Some in Hi. }
  assert (Hr1 : forall e2, e2 ∈ inorder r -> dc_code (de_v x) + dc_len (de_v x) <= dc_code (de_v e2)).
  { intros e2 H2. apply list_elem_of_lookup in H2 as [j Hj].
    eapply (decomp_sorted_lookup _ (length (map de_v (inorder l))) (length (map de_v (inorder l)) + S j)); [exact Hs| | |lia].
    - by apply list_lookup_middle.
    - rewrite lookup_app_r by lia.
      replace (length (map de_v (inorder l)) + S j - length (map de_v (inorder l)))%nat with (S j) by lia.
      simpl. by rewrite list_lookup_fmap, Hj. }
  pose proof (decomp_sorted_app _ _ Hs) as [Hs1 Hs2].
  apply (decomp_sorted_app [de_v x]) in Hs2 as [_ Hs2].
  apply elem_of_app in He. rewrite elem_of_cons in He. pose proof (dc_len_bounds (de_v x)).
  destruct (Z.ltb_spec c (dc_code (de_v x))).
  - destruct He as [He|[->|He]]; [by apply IHl|intros [? ?]; lia|intros [? ?]; specialize (Hr1 e He); lia].
  - destruct (Z.ltb_spec c (dc_code (de_v x) + dc_len (de_v x))); [done|].
    destruct He as [He|[->|He]]; [intros [? ?]; specialize (Hl1 e He); lia|intros [? ?]; lia|by apply IHr].
Qed.

(** *** Decomposition through the tree *)

Definition decomp_entries : list dentry :=
  zip_with (fun i '(v, d) => mkEntry i v d (drop (Z.to_nat d) unicode_decomp_data))
    (seqZ 0 (zlen unicode_decomp_table1)) (zip unicode_decomp_table1 unicode_decomp_table2).

Definition decomp_tree : etree := build (length decomp_entries) decomp_entries.

Definition tree_decomp_entry (e : dentry) (c : Z) : outcome (Z * list Z) :=
  if dc_type (de_v e) =? DECOMP_TYPE_C1 then Ret (1, [de_d e])
  else decomp_data_entry (de_data e) 0 c (dc_code (de_v e)) (dc_len (de_v e)) (dc_type (de_v e)).

Definition tree_decomp (t : etree) (c is_compat1 : Z) : outcome (list Z) :=
  match tree_search t c with
  | None => Ret []
  | Some e =>
      if is_compat1 <? dc_compat (de_v e) then Ret []
      else '(n, res) ← tree_decomp_entry e c; rd_range res 0 n
  end.

(** Reading behind an offset. *)
Lemma rd_drop {A} (l : list A) d k : 0 <= d -> 0 <= k -> rd l (d + k) = rd (drop (Z.to_nat d) l) (0 + k).
Proof.
  intros Hd Hk. unfold rd. rewrite (proj2 (Z.ltb_ge (d + k) 0)), (proj2 (Z.ltb_ge (0 + k) 0)) by lia.
  rewrite lookup_drop. by replace (Z.to_nat (d + k)) with (Z.to_nat d + Z.to_nat (0 + k))%nat by lia.
Qed.

Lemma get16_drop l d k : 0 <= d -> 0 <= k ->
  unicode_get16 l (d + k) = unicode_get16 (drop (Z.to_nat d) l) (0 + k).
Proof.
  intros Hd Hk. unfold unicode_get16. rewrite (rd_drop l d k) by done.
  replace (d + k + 1) with (d + (k + 1)) by lia. rewrite (rd_drop l d (k + 1)) by lia.
  by replace (0 + (k + 1)) with (0 + k + 1) by lia.
Qed.

Lemma store_each_ext l stop f g :
  (forall i, 0 <= i -> f i = g i) -> store_each l stop f = store_each l stop g.
Proof.
  intros Hfg. unfold store_each. set (F := S (Z.to_nat l)). clearbody F.
  enough (H : forall fuel i res, 0 <= i ->
    loop fuel (fun '(i, res) =>
      if i <? l then
        c1 ← f i;
        if stop && (c1 =? 0) then Ret (inr (0, res ++ [c1])) else Ret (inl (i + 1, res ++ [c1]))
      else Ret (inr (l, res))) (i, res) =
    loop fuel (fun '(i, res) =>
      if i <? l then
        c1 ← g i;
        if stop && (c1 =? 0) then Ret (inr (0, res ++ [c1])) else Ret (inl (i + 1, res ++ [c1]))
      else Ret (inr (l, res))) (i, res)) by (apply H; lia).
  induction fuel as [|fuel IH]; intros i res Hi; [done|]. cbn [loop].
  destruct (i <? l); [|done]. rewrite (Hfg i Hi). destruct (g i) as [x|]; [|done]. cbn [mbind outcome_bind].
  destruct (stop && (x =? 0)); [done|]. apply IH. lia.
Qed.

Lemma decomp_data_entry_drop dd d c code len type :
  0 <= d -> code <= c -> 0 <= len ->
  decomp_data_entry dd d c code len type = decomp_data_entry (drop (Z.to_nat d) dd) 0 c code len type.
Proof.
  intros Hd Hc Hlen. unfold decomp_data_entry. cbn zeta.
  unfold DECOMP_TYPE_L1, DECOMP_TYPE_L7, DECOMP_TYPE_LL1, DECOMP_TYPE_LL2, DECOMP_TYPE_S1, DECOMP_TYPE_S5,
    DECOMP_TYPE_I1, DECOMP_TYPE_I2_0, DECOMP_TYPE_I4_2, DECOMP_TYPE_B18, DECOMP_TYPE_B1, DECOMP_TYPE_B8.
  destruct ((1 <=? type) && (type <=? 7)) eqn:E1; breflect.
  { apply store_each_ext. intros i Hi.
    rewrite <- !Z.add_assoc. apply get16_drop; nia. }
  destruct ((type =? 8) || (type =? 9)) eqn:E2.
  { apply orb_true_iff in E2. assert (type = 8 \/ type = 9) as Ht by (destruct E2; breflect; auto).
    assert (0 <= (c - code) * (type - 8 + 1)) by nia.
    apply store_each_ext. intros i Hi. rewrite get16_drop by lia.
    destruct (unicode_get16 _ _); cbn [mbind outcome_bind]; [|done].
    rewrite (rd_drop dd d); [done|done|].
    assert (0 <= ((c - code) * (type - 8 + 1) + i) / 4) by (apply Z.div_pos; lia). nia. }
  destruct ((10 <=? type) && (type <=? 14)) eqn:E3; breflect.
  { apply store_each_ext. intros i Hi. rewrite <- !Z.add_assoc.
    rewrite (rd_drop dd d); [done|done|nia]. }
  destruct ((type =? 15) || ((16 <=? type) && (type <=? 21))).
  { destruct (if type =? 15 then _ else _) as [l p].
    apply store_each_ext. intros i Hi. rewrite get16_drop by lia. done. }
  destruct ((type =? 30) || ((22 <=? type) && (type <=? 29))) eqn:E5.
  { pose proof (get16_drop dd d 0 Hd ltac:(lia)) as E0. rewrite !Z.add_0_r in E0. rewrite E0. clear E0.
    destruct (unicode_get16 _ _); cbn [mbind outcome_bind]; [|done].
    apply store_each_ext. intros i Hi. rewrite <- !Z.add_assoc. rewrite (rd_drop dd d); [done|done|].
    destruct (type =? 30) eqn:E6; [nia|]. apply orb_true_iff in E5 as [?|E5]; [congruence|]. breflect. nia. }
  destruct (type =? DECOMP_TYPE_LS2).
  { rewrite (get16_drop dd d) by nia. destruct (unicode_get16 _ _); cbn [mbind outcome_bind]; [|done].
    destruct (_ =? 0); [done|]. rewrite <- !Z.add_assoc. rewrite (rd_drop dd d) by nia. done. }
  destruct (type =? DECOMP_TYPE_PAT3).
  { pose proof (get16_drop dd d 0 Hd ltac:(lia)) as E0. rewrite !Z.add_0_r in E0. rewrite E0. clear E0.
    destruct (unicode_get16 _ 0); cbn [mbind outcome_bind]; [|done].
    rewrite (get16_drop dd d 2) by lia. destruct (unicode_get16 _ (0 + 2)); cbn [mbind outcome_bind]; [|done].
    rewrite (get16_drop dd d) by nia. done. }
  destruct ((type =? DECOMP_TYPE_S2_UL) || (type =? DECOMP_TYPE_LS2_UL)); [|done].
  pose proof (land_ones_le (c - code) 1 1 ltac:(lia) eq_refl).
  assert (Z.land (c - code) 1 <= c - code) as Hl.
  { destruct (decide (c - code = 0)) as [->|]; [done|lia]. }
  assert (0 <= Z.shiftr (c - code) 1) by (apply Z.shiftr_nonneg; lia).
  destruct (type =? DECOMP_TYPE_S2_UL).
  - rewrite (rd_drop dd d) by lia. destruct (rd _ _); cbn [mbind outcome_bind]; [|done].
    destruct (unicode_get_short_code _); cbn [mbind outcome_bind]; [|done].
    rewrite <- !Z.add_assoc. by rewrite (rd_drop dd d) by lia.
  - rewrite (get16_drop dd d) by lia. destruct (unicode_get16 _ _); cbn [mbind outcome_bind]; [|done].
    rewrite <- !Z.add_assoc. by rewrite (rd_drop dd d) by lia.
Qed.

Lemma decomp_entries_lookup i e :
  decomp_entries !! i = Some e ->
  de_idx e = Z.of_nat i /\ unicode_decomp_table1 !! i = Some (de_v e) /\
  unicode_decomp_table2 !! i = Some (de_d e) /\ de_data e = drop (Z.to_nat (de_d e)) unicode_decomp_data.
Proof.
  unfold decomp_entries. intros H. apply lookup_zip_with_Some in H as (z & [v d] & -> & Hz & Hvd).
  apply lookup_seqZ in Hz as [-> _]. apply lookup_zip_Some in Hvd as [Hv Hd]. simpl. by split_and!.
Qed.

Lemma decomp_entries_values : map de_v decomp_entries = unicode_decomp_table1.
Proof. vm_compute. reflexivity. Qed.

Lemma decomp_table2_nonneg : forallb (fun d => 0 <=? d) unicode_decomp_table2 = true.
Proof. vm_compute. reflexivity. Qed.

Lemma decomp_tree_inorder : inorder decomp_tree = decomp_entries.
Proof. by apply inorder_build. Qed.

Lemma tree_decomp_spec c k : tree_decomp decomp_tree c k = unicode_decomp_char c k.
Proof.
  unfold tree_decomp, unicode_decomp_char. pose proof (decomp_search_spec c) as Hs.
  apply wp_elim in Hs as (r & -> & Hr). cbn [mbind outcome_bind].
  destruct (tree_search decomp_tree c) as [e|] eqn:Et.
  - apply tree_search_some in Et as [Hin Hc]. rewrite decomp_tree_inorder in Hin.
    apply list_elem_of_lookup in Hin as [i Hi]. apply decomp_entries_lookup in Hi as (Hidx & Hv & Hd & Hdata).
    destruct r as [[idx v]|].
    2:{ exfalso. eapply Hr; [|exact Hc]. by eapply list_elem_of_lookup_2. }
    destruct Hr as (Hidx2 & Hv2 & Hc2).
    destruct (dc_contains_unique _ _ _ _ _ Hv Hv2 Hc Hc2) as [-> <-].
    destruct (k <? dc_compat (de_v e)); [done|].
    unfold tree_decomp_entry, unicode_decomp_entry.
    assert (rd unicode_decomp_table2 idx = Ret (de_d e)) as -> by (apply rd_Ret; split; [lia|done]).
    cbn [mbind outcome_bind]. destruct (dc_type (de_v e) =? DECOMP_TYPE_C1); [done|].
    pose proof decomp_table2_nonneg as Hnn. rewrite forallb_forall in Hnn.
    assert (0 <= de_d e) as Hd0.
    { apply Z.leb_le, Hnn, list_elem_of_In. by eapply list_elem_of_lookup_2. }
    rewrite Hdata. f_equal. symmetry. pose proof (dc_len_bounds (de_v e)).
    apply decomp_data_entry_drop; [done|apply Hc|lia].
  - destruct r as [[idx v]|]; [|done]. exfalso. destruct Hr as (Hidx2 & Hv2 & Hc2).
    rewrite <- decomp_entries_values, list_lookup_fmap in Hv2.
    destruct (decomp_entries !! Z.to_nat idx) as [e|] eqn:E; [|done]. injection Hv2 as <-.
    eapply tree_search_none; [|exact Et| |exact Hc2].
    + rewrite decomp_tree_inorder, decomp_entries_values. apply decomp_table1_sorted.
    + rewrite decomp_tree_inorder. by eapply list_elem_of_lookup_2.
Qed.

(** *** Full decomposition *)

(** The characters of a precomposed Hangul syllable. *)
Definition hangul_decomp (s : Z) : list Z :=
  let c := s - 0xac00 in
  [0x1100 + c / 588; 0x1161 + c mod 588 / 28] ++ (if c mod 28 =? 0 then [] else [0x11a7 + c mod 28]).

(** The reference decomposition for a decomposition map [dec]. *)
Fixpoint nfd_with (dec : Z -> outcome (list Z)) (depth : nat) (src : list Z) : outcome (list Z) :=
  match depth with
  | O => Fault OutOfFuel
  | S depth' =>
      foldM (fun out c =>
        if (0xac00 <=? c) && (c <? 0xd7a4) then Ret (out ++ hangul_decomp c)
        else
          res ← dec c;
          match res with
          | [] => Ret (out ++ [c])
          | _ => r ← nfd_with dec depth' res; Ret (out ++ r)
          end) [] src
  end.

Definition nfd_ref (is_compat : Z) (src : list Z) : outcome (list Z) :=
  nfd_with (fun c => unicode_decomp_char c is_compat) NFD_DEPTH src.

Lemma nfd_with_ext dec1 dec2 : (forall c, dec1 c = dec2 c) ->
  forall depth src, nfd_with dec1 depth src = nfd_with dec2 depth src.
Proof.
  intros Hd depth. induction depth as [|depth IH]; intros src; [done|]. cbn [nfd_with].
  apply foldM_ext. intros out c. rewrite Hd. destruct ((0xac00 <=? c) && (c <? 0xd7a4)); [done|].
  destruct (dec2 c) as [[|x l]|]; cbn [mbind outcome_bind]; [done| |done]. by rewrite IH.
Qed.

(** Every character of an entry decomposes completely, into at most 18
    characters, in one nesting level less than allowed. *)
Definition char_ok (t : etree) (k c : Z) : bool :=
  match nfd_with (fun c => tree_decomp t c k) NFD_DEPTH [c] with
  | Ret out => zlen out <=? UNICODE_DECOMP_LEN_MAX
  | Fault _ => false
  end.

Definition entry_chars_ok (t : etree) (k : Z) (e : dentry) : bool :=
  forallb (fun o => char_ok t k (dc_code (de_v e) + o)) (seqZ 0 (dc_len (de_v e))).

Lemma all_chars_ok :
  forallb (entry_chars_ok decomp_tree 0) decomp_entries = true /\
  forallb (entry_chars_ok decomp_tree 1) decomp_entries = true.
Proof. split; vm_compute; reflexivity. Qed.

(** The decomposition of one character, as the loop of [nfd_with] uses it. *)
Definition nfd_char (dec : Z -> outcome (list Z)) (depth : nat) (c : Z) : outcome (list Z) :=
  if (0xac00 <=? c) && (c <? 0xd7a4) then Ret (hangul_decomp c)
  else
    res ← dec c;
    match res with
    | [] => Ret [c]
    | _ => nfd_with dec depth res
    end.

Lemma nfd_with_fold dec depth src :
  nfd_with dec (S depth) src = foldM (fun out c => r ← nfd_char dec depth c; Ret (out ++ r)) [] src.
Proof.
  cbn [nfd_with]. apply foldM_ext. intros out c. unfold nfd_char.
  destruct ((0xac00 <=? c) && (c <? 0xd7a4)); [done|].
  by destruct (dec c) as [[|x l]|].
Qed.

Lemma nfd_char_ok k c : k = 0 \/ k = 1 ->
  exists out, nfd_char (fun c => unicode_decomp_char c k) (pred NFD_DEPTH) c = Ret out /\
    zlen out <= UNICODE_DECOMP_LEN_MAX.
Proof.
  intros Hk. unfold nfd_char. destruct ((0xac00 <=? c) && (c <? 0xd7a4)) eqn:Eh.
  { eexists. split; [done|]. unfold hangul_decomp. cbn zeta. destruct (_ =? 0); done. }
  pose proof (tree_decomp_spec c k) as Et. destruct (tree_search decomp_tree c) as [e|] eqn:Es.
  2:{ rewrite <- Et. unfold tree_decomp. rewrite Es. cbn [mbind outcome_bind]. by exists [c]. }
  apply tree_search_some in Es as [Hin Hc]. rewrite decomp_tree_inorder in Hin.
  assert (entry_chars_ok decomp_tree k e = true) as He.
  { destruct all_chars_ok as [H0 H1]. rewrite !forallb_forall in H0, H1.
    apply list_elem_of_In in Hin. destruct Hk as [-> | ->]; auto. }
  unfold entry_chars_ok in He. rewrite forallb_forall in He. specialize (He (c - dc_code (de_v e))).
  assert (In (c - dc_code (de_v e)) (seqZ 0 (dc_len (de_v e)))) as Hs.
  { apply list_elem_of_In, elem_of_seqZ. destruct Hc. lia. }
  specialize (He Hs). replace (dc_code (de_v e) + (c - dc_code (de_v e))) with c in He by lia.
  unfold char_ok in He. rewrite (nfd_with_ext _ _ (fun c => tree_decomp_spec c k)) in He.
  change NFD_DEPTH with (S (pred NFD_DEPTH)) in He. rewrite nfd_with_fold in He. cbn [foldM] in He.
  unfold nfd_char in He. rewrite Eh in He.
  destruct (unicode_decomp_char c k) as [[|x l]|]; cbn [mbind outcome_bind] in He |- *; [by exists [c]| |done].
  destruct (nfd_with _ _ (x :: l)) as [out|]; cbn [mbind outcome_bind] in He |- *; [|done].
  exists out. split; [done|]. apply Z.leb_le in He. done.
Qed.

(** Every text decomposes, with at most 18 characters for each of its own. *)
Lemma nfd_ref_ok k src : k = 0 \/ k = 1 ->
  wp (nfd_ref k src) (fun out => zlen out <= UNICODE_DECOMP_LEN_MAX * zlen src).
Proof.
  intros Hk. unfold nfd_ref. change NFD_DEPTH with (S (pred NFD_DEPTH)). rewrite nfd_with_fold.
  apply (wp_foldM (fun out l => zlen out <= UNICODE_DECOMP_LEN_MAX * (zlen src - zlen l))).
  - intros out c l Hout. rewrite zlen_cons in Hout.
    destruct (nfd_char_ok k c Hk) as (r & -> & Hr). cbn [mbind outcome_bind wp]. rewrite zlen_app.
    unfold UNICODE_DECOMP_LEN_MAX in *. lia.
  - intros out Hout. change (zlen []) with 0 in Hout. lia.
  - change (zlen []) with 0. lia.
Qed.

(** *** The dynamic buffer holds the reference decomposition *)

Definition u32_bytes (l : list Z) : list Z := concat (map (Bits.le_bytes 4) l).

Lemma zlen_u32_bytes l : zlen (u32_bytes l) = 4 * zlen l.
Proof.
  unfold u32_bytes. induction l as [|x l IH]; [done|]. cbn [map concat].
  rewrite zlen_app, Bits.zlen_le_bytes, IH, zlen_cons. lia.
Qed.

Lemma u32_bytes_app l k : u32_bytes (l ++ k) = u32_bytes l ++ u32_bytes k.
Proof. unfold u32_bytes. by rewrite map_app, concat_app. Qed.

Section Buffer.
Context `{Allocator}.

(** [s'] continues [s] with the characters [out], unless an allocation failed. *)
Definition put_chars (s : DynBuf) (out : list Z) (s' : DynBuf) : Prop :=
  wf s' /\ size s' <= size s + 4 * zlen out /\ (error s = true -> error s' = true) /\
  (error s' = false -> dbuf_data s' = dbuf_data s ++ u32_bytes out).

Lemma put_chars_refl s : wf s -> put_chars s [] s.
Proof. intros Hwf. split_and!; [done|change (zlen []) with 0; lia|done|]. by rewrite app_nil_r. Qed.

Lemma put_chars_trans s1 o1 s2 o2 s3 :
  put_chars s1 o1 s2 -> put_chars s2 o2 s3 -> put_chars s1 (o1 ++ o2) s3.
Proof.
  intros (W2 & L2 & E2 & D2) (W3 & L3 & E3 & D3). split_and!; [done|rewrite zlen_app; lia|auto|].
  intros He. rewrite D3 by done. rewrite D2; [by rewrite u32_bytes_app, app_assoc|].
  destruct (error s2); [|done]. by rewrite E3 in He.
Qed.

Lemma dbuf_put_u32_chars s v :
  wf s -> size s + 4 < 2 ^ 64 ->
  wp (dbuf_put_u32 s v) (fun '(_, s') => put_chars s [v] s').
Proof.
  intros Hwf Hlt. unfold dbuf_put_u32. eapply wp_mono.
  { apply dbuf_put_spec; [done|]. rewrite Bits.zlen_le_bytes. lia. }
  intros [r s'] [Hwf' Hc]. pose proof (zlen_data s Hwf). pose proof (zlen_data s' Hwf').
  destruct Hc as [(-> & Hd & He)|(-> & Hd & He)]; (split_and!; [done| | |]).
  - rewrite Hd, zlen_app, Bits.zlen_le_bytes in *. change (zlen [v]) with 1. lia.
  - congruence.
  - intros _. rewrite Hd. unfold u32_bytes. cbn [map concat]. by rewrite app_nil_r.
  - rewrite Hd in *. change (zlen [v]) with 1. lia.
  - done.
  - congruence.
Qed.

Lemma to_nfd_rec_spec depth k : forall src s out,
  nfd_with (fun c => unicode_decomp_char c k) depth src = Ret out ->
  wf s -> size s + 4 * zlen out < 2 ^ 64 ->
  wp (to_nfd_rec depth k src s) (put_chars s out).
Proof.
  induction depth as [|depth IH]; intros src s out Hout Hwf Hlt; [done|].
  rewrite nfd_with_fold in Hout. cbn [to_nfd_rec].
  set (G := fun c => nfd_char (fun c => unicode_decomp_char c k) depth c) in *.
  assert (Hmono : forall l acc, foldM (fun out c => r ← G c; Ret (out ++ r)) acc l = Ret out ->
    zlen acc <= zlen out).
  { induction l as [|c l IHl]; intros acc Hf; cbn [foldM] in Hf; [by injection Hf as ->|].
    destruct (G c) as [r|]; cbn [mbind outcome_bind] in Hf; [|done].
    apply IHl in Hf. rewrite zlen_app in Hf. pose proof (zlen_nonneg r). lia. }
  apply (wp_foldM (fun s1 l => exists acc,
    foldM (fun out c => r ← G c; Ret (out ++ r)) acc l = Ret out /\ put_chars s acc s1)).
  2:{ intros s1 (acc & Hf & Hs1). by injection Hf as ->. }
  2:{ exists []. split; [done|]. by apply put_chars_refl. }
  intros s1 c l (acc & Hf & Hs1). cbn [foldM] in Hf.
  destruct (G c) as [r|] eqn:Er; cbn [mbind outcome_bind] in Hf; [|done].
  pose proof (Hmono _ _ Hf) as Hr. rewrite zlen_app in Hr.
  pose proof Hs1 as (Hwf1 & Hsz1 & _). apply (wp_mono _ (put_chars s1 r)).
  2:{ intros s2 H2. exists (acc ++ r). split; [done|]. by eapply put_chars_trans. }
  clear Hmono Hf. unfold G, nfd_char in Er. unfold to_nfd_char.
  destruct ((0xac00 <=? c) && (c <? 0xd7a4)).
  - injection Er as <-. cbn zeta. unfold hangul_decomp in *. cbn zeta in *.
    set (a := 0x1100 + (c - 0xac00) / 588) in *. set (b := 0x1161 + (c - 0xac00) mod 588 / 28) in *.
    set (v := (c - 0xac00) mod 28) in *. rewrite zlen_app in Hr. change (zlen [a; b]) with 2 in Hr.
    pose proof (zlen_nonneg (if v =? 0 then [] else [0x11a7 + v])).
    apply wp_bind. eapply wp_mono; [apply dbuf_put_u32_chars; [done|lia]|]. intros [r1 s2] H2.
    pose proof H2 as (Hwf2 & Hsz2 & _). change (zlen [a]) with 1 in Hsz2.
    apply wp_bind. eapply wp_mono; [apply dbuf_put_u32_chars; [done|lia]|]. intros [r2 s3] H3.
    pose proof H3 as (Hwf3 & Hsz3 & _). change (zlen [b]) with 1 in Hsz3.
    pose proof (put_chars_trans _ _ _ _ _ H2 H3) as H23. cbn [app] in H23.
    destruct (v =? 0); cbn [negb].
    + apply wp_ret. done.
    + change (zlen [0x11a7 + v]) with 1 in Hr. apply wp_bind.
      eapply wp_mono; [apply dbuf_put_u32_chars; [done|lia]|]. intros [r3 s4] H4. apply wp_ret.
      by apply (put_chars_trans _ [a; b] s3).
  - destruct (unicode_decomp_char c k) as [[|x res]|]; cbn [mbind outcome_bind] in Er |- *; [| |done].
    + injection Er as <-. change (zlen [c]) with 1 in Hr. apply wp_bind.
      eapply wp_mono; [apply dbuf_put_u32_chars; [done|lia]|]. intros [r1 s2] H2. by apply wp_ret.
    + apply IH; [done|done|]. lia.
Qed.
End Buffer.

(** ** Composition *)

(** The triples of the composition table: the pair and the composed character. *)
Definition comp_triple (idx1 : Z) : Z * Z * Z :=
  match comp_entry idx1 with Ret t => t | Fault _ => (0, 0, 0) end.
Definition comp_triples : list (Z * Z * Z) := map comp_triple unicode_comp_table.

Definition pair_lt (t u : Z * Z * Z) : bool :=
  (t.1.1 <? u.1.1) || ((t.1.1 =? u.1.1) && (t.1.2 <? u.1.2)).

Fixpoint pairs_sorted (l : list (Z * Z * Z)) : bool :=
  match l with
  | t :: (u :: _) as l' => pair_lt t u && pairs_sorted l'
  | _ => true
  end.

(** A triple is the decomposition of its character. *)
Definition triple_ok (t : etree) (u : Z * Z * Z) : bool :=
  let '(p0, p1, ch) := u in
  (0 <=? p0) && (p0 <? 0x110000) && (0 <=? p1) && (p1 <? 0x110000) && (0 <? ch) && (ch <? 0x110000) &&
  match tree_decomp t ch 0 with
  | Ret [x; y] => (x =? p0) && (y =? p1)
  | _ => false
  end.

Lemma comp_triples_ok :
  pairs_sorted comp_triples = true /\ forallb (triple_ok decomp_tree) comp_triples = true.
Proof. split; vm_compute; reflexivity. Qed.

Lemma comp_entry_ok idx1 : idx1 ∈ unicode_comp_table -> comp_entry idx1 = Ret (comp_triple idx1).
Proof.
  intros Hin. destruct comp_triples_ok as [_ Hok].
  rewrite forallb_forall in Hok. specialize (Hok (comp_triple idx1)).
  assert (In (comp_triple idx1) comp_triples) as Hin' by (by apply in_map, list_elem_of_In).
  specialize (Hok Hin'). unfold comp_triple in *. destruct (comp_entry idx1); [done|]. done.
Qed.

Lemma comp_triple_spec i t : comp_triples !! i = Some t ->
  triple_ok decomp_tree t = true.
Proof.
  intros Hi. destruct comp_triples_ok as [_ Hok].
  rewrite forallb_forall in Hok. apply Hok, list_elem_of_In. by eapply list_elem_of_lookup_2.
Qed.

Lemma pairs_sorted_lookup l : forall i j t u,
  pairs_sorted l = true -> l !! i = Some t -> l !! j = Some u -> (i < j)%nat -> pair_lt t u = true.
Proof.
  induction l as [|x l IH]; intros i j t u Hs Hi Hj Hij; [done|].
  destruct j as [|j]; [lia|]. simpl in Hj. destruct l as [|y l]; [done|].
  cbn [pairs_sorted] in Hs. apply andb_true_iff in Hs as [Hxy Hs].
  destruct i as [|i]; [|by eapply (IH i j); [done|done|done|lia]].
  injection Hi as <-. destruct j as [|j]; [injection Hj as <-; done|].
  pose proof (IH 0%nat (S j) y u Hs eq_refl Hj ltac:(lia)) as Hyu.
  unfold pair_lt in *. apply orb_true_iff in Hxy, Hyu. apply orb_true_iff.
  rewrite !andb_true_iff, !Z.ltb_lt, !Z.eqb_eq in *. lia.
Qed.

Lemma i32_diff a b : 0 <= a < 2 ^ 31 -> 0 <= b < 2 ^ 31 -> i32 (a - b) = a - b.
Proof. intros. apply i32_small. lia. Qed.

(** The search finds the triple of a pair, if there is one. *)
Lemma unicode_compose_pair_spec c0 c1 :
  0 <= c0 < 2 ^ 31 -> 0 <= c1 < 2 ^ 31 ->
  wp (unicode_compose_pair c0 c1) (fun p =>
    (exists i, comp_triples !! i = Some (c0, c1, p)) \/
    (p = 0 /\ forall i ch, comp_triples !! i <> Some (c0, c1, ch))).
Proof.
  intros Hc0 Hc1. unfold unicode_compose_pair.
  set (n := zlen unicode_comp_table). set (fuel := S (length unicode_comp_table)).
  assert (Hf : Z.of_nat fuel = n + 1) by done.
  assert (Hn : 0 <= n) by done. clearbody fuel.
  destruct comp_triples_ok as [Hsort _].
  pose proof (fun i j t u => pairs_sorted_lookup comp_triples i j t u Hsort) as Hord. clear Hsort.
  assert (Hlt : forall i t, comp_triples !! i = Some t -> Z.of_nat i < n).
  { intros i t Hi. apply lookup_lt_Some in Hi. unfold comp_triples in Hi. rewrite length_map in Hi. unfold n, zlen. lia. }
  apply (wp_loop (fun '(lo, hi) => 0 <= lo /\ hi < n /\ lo <= hi + 1 /\
      (forall i ch, comp_triples !! i = Some (c0, c1, ch) -> lo <= Z.of_nat i <= hi))
    (fun '(lo, hi) => hi - lo + 1)).
  2:{ split_and!; try lia. intros i ch Hi. pose proof (Hlt i _ Hi). lia. }
  2:{ lia. }
  intros [lo hi] (Hlo & Hhi & Hlh & Hin).
  destruct (Z.leb_spec lo hi) as [Hle|Hgt].
  2:{ apply wp_ret. right. split; [done|]. intros i ch Hi. specialize (Hin i ch Hi). lia. }
  cbn zeta.
  pose proof (Z.div_mod (hi + lo) 2 ltac:(lia)). pose proof (Z.mod_pos_bound (hi + lo) 2 ltac:(lia)).
  set (mid := (hi + lo) / 2) in *.
  apply wp_bind, wp_rd; [unfold n in *; lia|]. intros idx1 Hidx.
  rewrite comp_entry_ok by (by eapply list_elem_of_lookup_2). cbn [mbind outcome_bind].
  assert (comp_triples !! Z.to_nat mid = Some (comp_triple idx1)) as Hmid.
  { unfold comp_triples. by rewrite list_lookup_fmap, Hidx. }
  pose proof (comp_triple_spec _ _ Hmid) as Hok. destruct (comp_triple idx1) as [[p0 p1] ch].
  unfold triple_ok in Hok. apply andb_true_iff in Hok as [Hb _]. breflect.
  rewrite !i32_diff by lia.
  assert (Hcmp : forall i u, comp_triples !! i = Some (c0, c1, u) ->
    (Z.of_nat i < mid -> c0 < p0 \/ (c0 = p0 /\ c1 < p1)) /\
    (mid < Z.of_nat i -> p0 < c0 \/ (p0 = c0 /\ p1 < c1))).
  { intros i u Hi. split; intros Hlt'.
    - pose proof (Hord _ _ _ _ Hi Hmid ltac:(lia)) as Ho. unfold pair_lt in Ho. apply orb_true_iff in Ho.
      rewrite andb_true_iff, !Z.ltb_lt, Z.eqb_eq in Ho. simpl in Ho. lia.
    - pose proof (Hord _ _ _ _ Hmid Hi ltac:(lia)) as Ho. unfold pair_lt in Ho. apply orb_true_iff in Ho.
      rewrite andb_true_iff, !Z.ltb_lt, Z.eqb_eq in Ho. simpl in Ho. lia. }
  assert (Heq : forall i u, comp_triples !! i = Some (c0, c1, u) -> Z.of_nat i = mid -> c0 = p0 /\ c1 = p1).
  { intros i u Hi Hm. assert (i = Z.to_nat mid) as -> by lia. rewrite Hmid in Hi. by injection Hi as -> ->. }
  destruct (Z.eqb_spec (c0 - p0) 0).
  - destruct (Z.ltb_spec (c1 - p1) 0).
    { apply wp_ret. split; [|lia]. split_and!; try lia. intros i u Hi. pose proof (Hin i u Hi).
      pose proof (Hcmp i u Hi). pose proof (Heq i u Hi). lia. }
    rewrite Z.gtb_ltb. destruct (Z.ltb_spec 0 (c1 - p1)).
    { apply wp_ret. split; [|lia]. split_and!; try lia. intros i u Hi. pose proof (Hin i u Hi).
      pose proof (Hcmp i u Hi). pose proof (Heq i u Hi). lia. }
    apply wp_ret. left. exists (Z.to_nat mid). rewrite Hmid. do 3 f_equal; lia.
  - destruct (Z.ltb_spec (c0 - p0) 0).
    { apply wp_ret. split; [|lia]. split_and!; try lia. intros i u Hi. pose proof (Hin i u Hi).
      pose proof (Hcmp i u Hi). pose proof (Heq i u Hi). lia. }
    rewrite Z.gtb_ltb. destruct (Z.ltb_spec 0 (c0 - p0)); [|lia].
    apply wp_ret. split; [|lia]. split_and!; try lia. intros i u Hi. pose proof (Hin i u Hi).
    pose proof (Hcmp i u Hi). pose proof (Heq i u Hi). lia.
Qed.

(** Whatever the two 32-bit values, the search ends inside the tables. *)
Lemma unicode_compose_pair_total c0 c1 : wp (unicode_compose_pair c0 c1) (fun p => 0 <= p < 0x110000).
Proof.
  unfold unicode_compose_pair.
  set (n := zlen unicode_comp_table). set (fuel := S (length unicode_comp_table)).
  assert (Hf : Z.of_nat fuel = n + 1) by done.
  assert (Hn : 0 <= n) by done. clearbody fuel.
  apply (wp_loop (fun '(lo, hi) => 0 <= lo /\ hi < n /\ lo <= hi + 1) (fun '(lo, hi) => hi - lo + 1)); [|lia|lia].
  intros [lo hi] (Hlo & Hhi & Hlh). destruct (Z.leb_spec lo hi) as [Hle|Hgt]; [|apply wp_ret; lia].
  cbn zeta.
  pose proof (Z.div_mod (hi + lo) 2 ltac:(lia)). pose proof (Z.mod_pos_bound (hi + lo) 2 ltac:(lia)).
  set (mid := (hi + lo) / 2) in *.
  apply wp_bind, wp_rd; [unfold n in *; lia|]. intros idx1 Hidx.
  rewrite comp_entry_ok by (by eapply list_elem_of_lookup_2). cbn [mbind outcome_bind].
  assert (comp_triples !! Z.to_nat mid = Some (comp_triple idx1)) as Hmid.
  { unfold comp_triples. by rewrite list_lookup_fmap, Hidx. }
  pose proof (comp_triple_spec _ _ Hmid) as Hok. destruct (comp_triple idx1) as [[p0 p1] ch].
  unfold triple_ok in Hok. apply andb_true_iff in Hok as [Hb _]. breflect.
  repeat bcase; apply wp_ret; try lia; split; lia.
Qed.

Lemma compose_pair_total c0 c1 : wp (compose_pair c0 c1) (fun _ => True).
Proof.
  unfold compose_pair. destruct (_ && _); [by apply wp_ret|]. destruct (_ && _); [by apply wp_ret|].
  eapply wp_mono; [apply unicode_compose_pair_total|]. auto.
Qed.

(** C30: table composition is the inverse of canonical decomposition.  For
    any two characters the search ends inside the tables; a non-zero answer is
    a character whose canonical decomposition is exactly the pair, and zero
    means that no entry of the composition table is for the pair. *)
Theorem compose_pair_inverts (c0 c1 : Z) :
  0 <= c0 < 2 ^ 31 -> 0 <= c1 < 2 ^ 31 ->
  exists p, unicode_compose_pair c0 c1 = Ret p /\
    (p <> 0 -> unicode_decomp_char p 0 = Ret [c0; c1]) /\
    (p = 0 -> forall idx1 ch, idx1 ∈ unicode_comp_table -> comp_entry idx1 <> Ret (c0, c1, ch)).
Proof.
  intros Hc0 Hc1. pose proof (unicode_compose_pair_spec c0 c1 Hc0 Hc1) as Hs.
  apply wp_elim in Hs as (p & -> & Hp). exists p. split; [done|].
  destruct Hp as [[i Hi]|[-> Hno]].
  - pose proof (comp_triple_spec _ _ Hi) as Hok. unfold triple_ok in Hok.
    apply andb_true_iff in Hok as [Hb Hd]. breflect. rewrite tree_decomp_spec in Hd.
    split; [|lia]. intros _. destruct (unicode_decomp_char p 0) as [[|x [|y [|z l]]]|]; try done.
    breflect. by subst.
  - split; [done|]. intros _ idx1 ch Hin E. apply list_elem_of_lookup in Hin as [i Hi].
    apply (Hno i ch). unfold comp_triples. rewrite list_lookup_fmap, Hi. simpl. unfold comp_triple. by rewrite E.
Qed.

Lemma compose_pair_inverts_witness :
  exists p, unicode_compose_pair 0x41 0x30a = Ret p /\ p = 0xc5 /\ unicode_decomp_char p 0 = Ret [0x41; 0x30a].
Proof.
  destruct (compose_pair_inverts 0x41 0x30a) as (p & E & Hd & _); [lia|lia|].
  assert (p = 0xc5) as -> by (revert E; vm_compute; intros E; by injection E).
  exists 0xc5. split; [exact E|]. split; [done|]. apply Hd. done.
Defined.

(** Hangul syllables round trip: the two or three letters of the
    decomposition of any precomposed syllable compose back to it, the first
    two to its LV syllable and that one with the third. *)
Theorem hangul_roundtrip (s : Z) :
  0xac00 <= s < 0xd7a4 ->
  exists l v rest lv, hangul_decomp s = l :: v :: rest /\ compose_pair l v = Ret lv /\
    match rest with
    | [] => lv = s
    | [t] => compose_pair lv t = Ret s
    | _ => False
    end.
Proof.
  intros Hs. unfold hangul_decomp. cbn zeta. set (c := s - 0xac00).
  pose proof (Z.div_mod c 588 ltac:(lia)) as H1. pose proof (Z.mod_pos_bound c 588 ltac:(lia)) as H2.
  pose proof (Z.div_mod (c mod 588) 28 ltac:(lia)) as H3. pose proof (Z.mod_pos_bound (c mod 588) 28 ltac:(lia)) as H4.
  assert ((c mod 588) mod 28 = c mod 28) as H5.
  { rewrite (Z.div_mod c 588) at 2 by lia. replace (588 * (c / 588)) with (21 * (c / 588) * 28) by lia.
    rewrite Z.add_comm, Z.mod_add by lia. done. }
  rewrite H5 in *. set (li := c / 588) in *. set (m := c mod 588) in *. set (vi := m / 28) in *. set (ti := c mod 28) in *.
  exists (0x1100 + li), (0x1161 + vi), (if ti =? 0 then [] else [0x11a7 + ti]), (0xac00 + li * 588 + vi * 28).
  split; [by destruct (ti =? 0)|]. unfold compose_pair.
  assert (0 <= li < 19) by lia. assert (0 <= vi < 21) by lia. split.
  - rewrite (proj2 (Z.leb_le 0x1100 (0x1100 + li))), (proj2 (Z.ltb_lt (0x1100 + li) (0x1100 + 19))),
      (proj2 (Z.leb_le 0x1161 (0x1161 + vi))), (proj2 (Z.ltb_lt (0x1161 + vi) (0x1161 + 21))) by lia.
    cbn [andb]. f_equal. lia.
  - destruct (Z.eqb_spec ti 0) as [E|E]; [lia|].
    rewrite (proj2 (Z.ltb_ge (0xac00 + li * 588 + vi * 28) (0x1100 + 19))), andb_false_r by lia. cbn [andb].
    rewrite (proj2 (Z.leb_le 0xac00 (0xac00 + li * 588 + vi * 28))),
      (proj2 (Z.ltb_lt (0xac00 + li * 588 + vi * 28) (0xac00 + 11172))),
      (proj2 (Z.leb_le 0x11a7 (0x11a7 + ti))), (proj2 (Z.ltb_lt (0x11a7 + ti) (0x11a7 + 28))) by lia.
    assert ((0xac00 + li * 588 + vi * 28 - 0xac00) mod 28 = 0) as ->.
    { replace (0xac00 + li * 588 + vi * 28 - 0xac00) with ((li * 21 + vi) * 28) by lia. apply Z.mod_mul. lia. }
    cbn [andb Z.eqb]. f_equal. lia.
Qed.

Lemma hangul_roundtrip_witness :
  0xac00 <= 0xd55c < 0xd7a4 /\ hangul_decomp 0xd55c = [0x1112; 0x1161; 0x11ab] /\
  exists lv, compose_pair 0x1112 0x1161 = Ret lv /\ compose_pair lv 0x11ab = Ret 0xd55c.
Proof.
  split; [lia|]. split; [vm_compute; reflexivity|].
  destruct (hangul_roundtrip 0xd55c) as (l & v & rest & lv & E & H1 & H2); [lia|].
  change (hangul_decomp 0xd55c) with [0x1112; 0x1161; 0x11ab] in E. injection E as <- <- <-.
  exists lv. split; [exact H1|exact H2].
Defined.

(** An LV syllable followed by U+11A7, which is not a trailing consonant, is
    composed all the same and loses U+11A7. *)
Lemma hangul_drops_11a7 :
  compose_pair 0xac00 0x11a7 = Ret 0xac00 /\ normalize_run [0xac00; 0x11a7] UNICODE_NFC = Ret (Some [0xac00]).
Proof. vm_compute. split; reflexivity. Qed.

(** ** The normalization function *)

Lemma get_u32_mid pre x rest : Bits.get_u32 (pre ++ Bits.le_bytes 4 x ++ rest) (zlen pre) = Ret (u32 x).
Proof.
  unfold Bits.get_u32. rewrite rd_range_ok.
  - change (Z.to_nat 4) with (length (Bits.le_bytes 4 x)).
    replace (Z.to_nat (zlen pre)) with (length pre) by (unfold zlen; lia).
    rewrite drop_app_length, take_app_length. cbn [fmap outcome_fmap]. by rewrite Bits.le_val_bytes.
  - apply zlen_nonneg.
  - lia.
  - rewrite !zlen_app, Bits.zlen_le_bytes. pose proof (zlen_nonneg rest). lia.
Qed.

Lemma read_u32s_spec l tail : read_u32s (u32_bytes l ++ tail) (zlen l) = Ret (map u32 l).
Proof.
  unfold read_u32s.
  assert (H : forall fuel l1 l2, l = l1 ++ l2 -> (length l2 < fuel)%nat ->
    loop fuel (fun '(i, acc) =>
      if i <? zlen l then
        v ← Bits.get_u32 (u32_bytes l ++ tail) (4 * i); Ret (inl (i + 1, acc ++ [v]))
      else Ret (inr acc)) (zlen l1, map u32 l1) = Ret (map u32 l)).
  2:{ apply (H _ [] l); [done|unfold zlen; lia]. }
  induction fuel as [|fuel IH]; intros l1 l2 E Hf; [lia|]. cbn [loop].
  assert (zlen l = zlen l1 + zlen l2) as Hz by (by rewrite E, zlen_app).
  destruct l2 as [|x l2].
  - change (zlen []) with 0 in Hz. rewrite (proj2 (Z.ltb_ge _ _)) by lia. by rewrite E, app_nil_r.
  - rewrite zlen_cons in Hz. pose proof (zlen_nonneg l2). rewrite (proj2 (Z.ltb_lt _ _)) by lia.
    assert (Bits.get_u32 (u32_bytes l ++ tail) (4 * zlen l1) = Ret (u32 x)) as ->.
    { assert (u32_bytes l ++ tail = u32_bytes l1 ++ Bits.le_bytes 4 x ++ (u32_bytes l2 ++ tail)) as ->.
      { rewrite E, u32_bytes_app. unfold u32_bytes at 2. cbn [map concat]. by rewrite <- !app_assoc. }
      rewrite <- (zlen_u32_bytes l1). apply get_u32_mid. }
    cbn [mbind outcome_bind].
    pose proof (IH (l1 ++ [x]) l2) as IH'. rewrite zlen_app, map_app in IH'. apply IH'; [|simpl in Hf; lia].
    by rewrite <- app_assoc.
Qed.

Lemma find_starter_total buf out_len last_cc :
  0 <= out_len <= zlen buf ->
  wp (find_starter buf out_len last_cc) (fun r => match r with Some sp => 0 <= sp < out_len | None => True end).
Proof.
  intros Ho. unfold find_starter.
  apply (wp_loop (fun '(sp, _) => -1 <= sp < out_len) (fun '(sp, _) => sp + 1)); [|lia|lia].
  intros [sp cc0] Hsp. rewrite Z.geb_leb. destruct (Z.leb_spec 0 sp); [|by apply wp_ret].
  apply wp_bind, wp_rd; [lia|]. intros x _. unfold buf_cc.
  rewrite (proj1 (unicode_get_cc_spec (u32 x) (u32_range x))). cbn [mbind outcome_bind].
  repeat bcase; apply wp_ret; lia.
Qed.

Lemma compose_loop_total buf : 1 <= zlen buf ->
  wp (compose_loop buf (zlen buf)) (fun '(n, buf') => 1 <= n <= zlen buf /\ zlen buf' = zlen buf).
Proof.
  intros Hb. unfold compose_loop.
  apply (wp_loop (fun '(i, n, buf') => 1 <= n <= i /\ i <= zlen buf /\ zlen buf' = zlen buf)
    (fun '(i, _, _) => zlen buf - i)); [|split_and!; lia|lia].
  intros [[i n] buf'] (Hn & Hi & Hz). destruct (Z.ltb_spec i (zlen buf)); [|apply wp_ret; lia].
  apply wp_bind, wp_rd; [lia|]. intros x _.
  unfold buf_cc at 1. rewrite (proj1 (unicode_get_cc_spec (u32 x) (u32_range x))). cbn [mbind outcome_bind].
  apply wp_bind. eapply wp_mono; [apply find_starter_total; lia|]. intros s Hs. apply wp_bind.
  apply (wp_mono _ (fun p => match p with Some (sp, _) => 0 <= sp < n | None => True end)).
  { destruct s as [sp|]; [|by apply wp_ret]. apply wp_bind, wp_rd; [lia|]. intros y _.
    apply wp_bind. eapply wp_mono; [apply compose_pair_total|]. intros p _. apply wp_ret. by destruct (p =? 0). }
  intros p Hp. destruct p as [[sp p]|]; apply wp_bind, wp_wr; try lia; apply wp_ret; rewrite zlen_insert; lia.
Qed.

(** The normal form of a text, without buffers. *)
Definition normal_form (t : UnicodeNormalizationEnum) (src : list Z) : outcome (list Z) :=
  out ← nfd_ref (Z.shiftr (norm_code t) 1) src;
  let l := canon (fun c => unicode_cc_ref (u32 c)) (map u32 out) in
  if (zlen l <=? 1) || negb (Z.land (norm_code t) 1 =? 0) then Ret l
  else '(n, l) ← compose_loop l (zlen l); rd_range l 0 n.

Lemma canon_length cls l : length (canon cls l) = length l.
Proof. apply Permutation_length, canon_run_perm. Qed.

Lemma normalize_tail l t : exists r,
  (l ← sort_cc l (zlen l);
   if (zlen l <=? 1) || negb (Z.land (norm_code t) 1 =? 0) then Ret (Some l)
   else '(out_len, l) ← compose_loop l (zlen l); l ← rd_range l 0 out_len; Ret (Some l)) = Ret (Some r) /\
  (let l := canon (fun c => unicode_cc_ref (u32 c)) l in
   if (zlen l <=? 1) || negb (Z.land (norm_code t) 1 =? 0) then Ret l
   else '(n, l) ← compose_loop l (zlen l); rd_range l 0 n) = Ret r.
Proof.
  assert (Hcls : forall c, buf_cc c = Ret (unicode_cc_ref (u32 c))).
  { intros c. apply unicode_get_cc_spec, u32_range. }
  unfold sort_cc. rewrite (sort_cc_spec _ _ Hcls). cbn [mbind outcome_bind]. cbn zeta.
  set (k := canon _ l). destruct ((zlen k <=? 1) || negb (Z.land (norm_code t) 1 =? 0)) eqn:E; [by exists k|].
  breflect. pose proof (compose_loop_total k ltac:(lia)) as Hc. apply wp_elim in Hc as ([n k'] & -> & Hn & Hz).
  cbn [mbind outcome_bind]. rewrite rd_range_ok by lia. eauto.
Qed.


