(* ===== verification/UniProps.v ===== *)
(** * Character sets of Unicode properties ([libunicode.c], CONFIG_ALL_UNICODE)

    [unicode_find_name], [unicode_script], [unicode_general_category],
    [unicode_prop] and the functions they build a [CharRange] with.  A
    function that returns an [int] and fills [cr] is modelled as returning
    both. *)

From S2P Require Import Prelude Cutils DynBuf CharRange UnicodeTables UnicodeLookup.

(** [strchr(p, ch)] for the string at offset [p]: the offset of the first
    occurrence, [None] for a null pointer. *)
Definition strchr (mem : list Z) (p c : Z) : outcome (option Z) :=
  loop (S (length mem)) (fun q =>
    x ← rd mem q;
    if x =? c then Ret (inr (Some q))
    else if x =? 0 then Ret (inr None)
    else Ret (inl (q + 1))) p.

(** The inner [for(;;)]: the names of one entry; [inl p] is the offset of the
    next entry, [inr ()] a match. *)
Definition find_in_entry (name_table name : list Z) (name_len p : Z) : outcome (Z + ()) :=
  loop (S (length name_table)) (fun p =>
    r ← strchr name_table p (ch ",");
    len ← (match r with None => CStr.strlen name_table p | Some q => Ret (q - p) end);
    eq ← (if len =? name_len then CStr.memcmp_eq name_table p name 0 name_len else Ret false);
    if (eq : bool) then Ret (inr (inr ()))
    else
      let p := p + (len + 1) in
      match r with None => Ret (inr (inl p)) | Some _ => Ret (inl p) end) p.

(** The index of the entry that lists [name], or -1. *)
Definition unicode_find_name (name_table name : list Z) : outcome Z :=
  name_len ← CStr.strlen name 0;
  loop (S (length name_table)) (fun '(p, pos) =>
    x ← rd name_table p;
    if x =? 0 then Ret (inr (-1))
    else
      r ← find_in_entry name_table name name_len p;
      match r with
      | inr _ => Ret (inr pos)
      | inl p => Ret (inl (p, pos + 1))
      end) (0, 0).

Section Props.
Context `{Allocator}.

(** ** Scripts *)

(** A run length coded in two bits classes: [n] as is below [n1], with one
    more byte below [n2], with two otherwise. *)
Definition script_len (table : list Z) (p n : Z) : outcome (Z * Z) :=
  if n <? 96 then Ret (n, p)
  else if n <? 112 then
    p0 ← rd table p; Ret (Z.lor (Z.shiftl (n - 96) 8) p0 + 96, p + 1)
  else
    p0 ← rd table p; p1 ← rd table (p + 1);
    Ret (Z.lor (Z.lor (Z.shiftl (n - 112) 16) (Z.shiftl p0 8)) p1 + (96 + Z.shiftl 1 12), p + 2).

(** The first loop of [unicode_script]: 0, or -1 for [goto fail]. *)
Definition script_loop (script_idx : Z) (cr1 : CharRange) : outcome (Z * CharRange) :=
  loop (S (length unicode_script_table)) (fun '(p, c, cr1) =>
    if p <? zlen unicode_script_table then
      b ← rd unicode_script_table p;
      let type := Z.shiftr b 7 in
      '(n, p) ← script_len unicode_script_table (p + 1) (Z.land b 0x7f);
      '(v, p) ← (if type =? 0 then Ret (0, p)
                 else v ← rd unicode_script_table p; Ret (v, p + 1));
      let c1 := u32 (c + n + 1) in
      if v =? script_idx then
        '(r, cr1) ← cr_add_interval cr1 c c1;
        if r =? 0 then Ret (inl (p, c1, cr1)) else Ret (inr (-1, cr1))
      else Ret (inl (p, c1, cr1))
    else Ret (inr (0, cr1))) (0, 0, cr1).

Definition script_ext_len (table : list Z) (p b : Z) : outcome (Z * Z) :=
  if b <? 128 then Ret (b, p)
  else if b <? 128 + 64 then
    p0 ← rd table p; Ret (Z.lor (Z.shiftl (b - 128) 8) p0 + 128, p + 1)
  else
    p0 ← rd table p; p1 ← rd table (p + 1);
    Ret (Z.lor (Z.lor (Z.shiftl (b - 128 - 64) 16) (Z.shiftl p0 8)) p1 + (128 + Z.shiftl 1 14), p + 2).

(** The loop over the script extensions. *)
Definition script_ext_loop (script_idx : Z) (is_common : bool) (cr2 : CharRange) : outcome (Z * CharRange) :=
  loop (S (length unicode_script_ext_table)) (fun '(p, c, cr2) =>
    if p <? zlen unicode_script_ext_table then
      b ← rd unicode_script_ext_table p;
      '(n, p) ← script_ext_len unicode_script_ext_table (p + 1) b;
      let c1 := u32 (c + n + 1) in
      v_len ← rd unicode_script_ext_table p;
      let p := p + 1 in
      add ← (if is_common then Ret (negb (v_len =? 0))
             else l ← rd_range unicode_script_ext_table p v_len;
                  Ret (existsb (fun x => x =? script_idx) l));
      '(r, cr2) ← (if (add : bool) then cr_add_interval cr2 c c1 else Ret (0, cr2));
      if r =? 0 then Ret (inl (p + v_len, c1, cr2)) else Ret (inr (-1, cr2))
    else Ret (inr (0, cr2))) (0, 0, cr2).

(** [fail: ...; goto fail;]: the error exit jumps to itself. *)
Definition script_fail (fuel : nat) : outcome (Z * CharRange) :=
  loop fuel (fun _ : () => Ret (inl ())) ().

(** [unicode_script(cr, script_name, is_ext)]; [fuel] only bounds the loop of
    the error exit. *)
Definition unicode_script (fuel : nat) (cr : CharRange) (script_name : list Z) (is_ext : bool)
  : outcome (Z * CharRange) :=
  script_idx ← unicode_find_name unicode_script_name_table script_name;
  if script_idx <? 0 then Ret (-2, cr)
  else
    let script_idx := script_idx + (UNICODE_SCRIPT_Unknown + 1) in
    let is_common := (script_idx =? UNICODE_SCRIPT_Common) || (script_idx =? UNICODE_SCRIPT_Inherited) in
    if is_ext then
      '(r, cr1) ← script_loop script_idx cr_init;
      if negb (r =? 0) then script_fail fuel
      else
        '(r, cr2) ← script_ext_loop script_idx is_common cr_init;
        if negb (r =? 0) then script_fail fuel
        else if is_common then
          '(r, cr2) ← cr_invert cr2;
          if negb (r =? 0) then script_fail fuel
          else
            '(r, cr) ← cr_op cr (points cr1) (len cr1) (points cr2) (len cr2) CR_OP_INTER;
            if negb (r =? 0) then script_fail fuel else Ret (0, cr)
        else
          '(r, cr) ← cr_op cr (points cr1) (len cr1) (points cr2) (len cr2) CR_OP_UNION;
          if negb (r =? 0) then script_fail fuel else Ret (0, cr)
    else
      '(r, cr) ← script_loop script_idx cr;
      if negb (r =? 0) then script_fail fuel else Ret (0, cr).

(** ** General categories *)

Definition M (id : Z) : Z := Z.shiftl 1 id.
Definition Ms (ids : list Z) : Z := foldr (fun id m => Z.lor (M id) m) 0 ids.

(** The run length of a [unicode_gc_table] item whose first byte has [n] = 7. *)
Definition gc_long_len (p : Z) : outcome (Z * Z) :=
  n ← rd unicode_gc_table p;
  let p := p + 1 in
  if n <? 128 then Ret (n + 7, p)
  else if n <? 128 + 64 then
    p0 ← rd unicode_gc_table p; Ret (Z.lor (Z.shiftl (n - 128) 8) p0 + (7 + 128), p + 1)
  else
    p0 ← rd unicode_gc_table p; p1 ← rd unicode_gc_table (p + 1);
    Ret (Z.lor (Z.lor (Z.shiftl (n - 128 - 64) 16) (Z.shiftl p0 8)) p1 + (7 + 128 + Z.shiftl 1 14), p + 2).

(** [for(; c0 < c; c0 += 2) if (cr_add_interval(cr, c0, c0 + 1)) return -1;] *)
Definition add_every_other (cr : CharRange) (c0 c : Z) : outcome (Z * CharRange) :=
  loop (S (Z.to_nat (c - c0))) (fun '(c0, cr) =>
    if c0 <? c then
      '(r, cr) ← cr_add_interval cr c0 (u32 (c0 + 1));
      if r =? 0 then Ret (inl (c0 + 2, cr)) else Ret (inr (-1, cr))
    else Ret (inr (0, cr))) (c0, cr).

Definition unicode_general_category1 (cr : CharRange) (gc_mask : Z) : outcome (Z * CharRange) :=
  loop (S (length unicode_gc_table)) (fun '(p, c, cr) =>
    if p <? zlen unicode_gc_table then
      b ← rd unicode_gc_table p;
      let p := p + 1 in
      let v := Z.land b 0x1f in
      '(n, p) ← (if Z.shiftr b 5 =? 7 then gc_long_len p else Ret (Z.shiftr b 5, p));
      let c0 := c in
      let c := u32 (c + n + 1) in
      let lu_ll := Z.lor (M UNICODE_GC_Lu) (M UNICODE_GC_Ll) in
      '(r, cr) ← (
        if v =? 31 then
          let b := Z.land gc_mask lu_ll in
          if b =? 0 then Ret (0, cr)
          else if b =? lu_ll then cr_add_interval cr c0 c
          else add_every_other cr (c0 + b2z (negb (Z.land gc_mask (M UNICODE_GC_Ll) =? 0))) c
        else if Z.land (Z.shiftr gc_mask v) 1 =? 1 then cr_add_interval cr c0 c
        else Ret (0, cr));
      if r =? 0 then Ret (inl (p, c, cr)) else Ret (inr (-1, cr))
    else Ret (inr (0, cr))) (0, 0, cr).

(** ** Properties of the tables *)

(** One interval of [unicode_prop1], added when [bit] is set. *)
Definition prop_add (cr : CharRange) (bit : bool) (c0 c : Z) : outcome (Z * CharRange) :=
  if bit then cr_add_interval cr c0 c else Ret (0, cr).

(** The decoding loop of [unicode_prop1] on the [n] first bytes of a table. *)
Definition prop_step (table : list Z) (n : Z) (s : Z * Z * bool * CharRange)
  : outcome (Z * Z * bool * CharRange + Z * CharRange) :=
  let '(p, c, bit, cr) := s in
  if p <? n then
    b ← rd table p;
    let p := p + 1 in
    if b <? 64 then
      let c1 := u32 (c + (Z.shiftr b 3 + 1)) in
      '(r, cr) ← prop_add cr bit c c1;
      if negb (r =? 0) then Ret (inr (-1, cr))
      else
        let bit := negb bit in
        let c2 := u32 (c1 + (Z.land b 7 + 1)) in
        '(r, cr) ← prop_add cr bit c1 c2;
        if negb (r =? 0) then Ret (inr (-1, cr)) else Ret (inl (p, c2, negb bit, cr))
    else
      '(p, c1) ← (
        if b >=? 0x80 then Ret (p, u32 (c + (b - 0x80 + 1)))
        else if b <? 0x60 then
          p0 ← rd table p; Ret (p + 1, u32 (c + (Z.lor (Z.shiftl (b - 0x40) 8) p0 + 1)))
        else
          p0 ← rd table p; p1 ← rd table (p + 1);
          Ret (p + 2, u32 (c + (Z.lor (Z.lor (Z.shiftl (b - 0x60) 16) (Z.shiftl p0 8)) p1 + 1))));
      '(r, cr) ← prop_add cr bit c c1;
      if negb (r =? 0) then Ret (inr (-1, cr)) else Ret (inl (p, c1, negb bit, cr))
  else Ret (inr (0, cr)).

Definition unicode_prop1 (cr : CharRange) (prop_idx : Z) : outcome (Z * CharRange) :=
  table ← rd unicode_prop_table prop_idx;
  n ← rd unicode_prop_len_table prop_idx;
  loop (S (length table)) (prop_step table n) (0, 0, false, cr).

(** ** Case properties *)

Definition CASE_U : Z := Z.shiftl 1 0.
Definition CASE_L : Z := Z.shiftl 1 1.
Definition CASE_F : Z := Z.shiftl 1 2.

Definition MR (types : list Z) : Z := foldr (fun t m => Z.lor (Z.shiftl 1 t) m) 0 types.
Definition tab_run_mask : list Z := [
  MR [RUN_TYPE_U; RUN_TYPE_UF; RUN_TYPE_UL; RUN_TYPE_LSU; RUN_TYPE_U2L_399_EXT2; RUN_TYPE_UF_D20;
      RUN_TYPE_UF_D1_EXT; RUN_TYPE_U_EXT; RUN_TYPE_U_EXT2; RUN_TYPE_U_EXT3];
  MR [RUN_TYPE_L; RUN_TYPE_LF; RUN_TYPE_UL; RUN_TYPE_LSU; RUN_TYPE_U2L_399_EXT2; RUN_TYPE_LF_EXT;
      RUN_TYPE_L_EXT2];
  MR [RUN_TYPE_UF; RUN_TYPE_LF; RUN_TYPE_UL; RUN_TYPE_LSU; RUN_TYPE_U2L_399_EXT2; RUN_TYPE_LF_EXT;
      RUN_TYPE_UF_D20; RUN_TYPE_UF_D1_EXT; RUN_TYPE_LF_EXT]].

Definition has (mask bits : Z) : bool := negb (Z.land mask bits =? 0).

(** Consecutive [cr_add_interval] calls, stopping at the first failure. *)
Definition add_intervals (cr : CharRange) (l : list (Z * Z)) : outcome (Z * CharRange) :=
  foldM (fun '(r, cr) '(a, b) => if r =? 0 then cr_add_interval cr a b else Ret (r, cr)) (0, cr) l.

(** [for(i = 0; i < len; i += 2)] *)
Definition every_other (code len : Z) : list (Z * Z) :=
  map (fun i => (code + 2 * i, code + 2 * i + 1)) (seqZ 0 ((len + 1) / 2)).

(** The [switch] of [unicode_case1] for an entry in the mask. *)
Definition case1_entry (cr : CharRange) (case_mask type code len : Z) : outcome (Z * CharRange) :=
  let def_case := add_intervals cr [(code, code + len)] in
  let both := has case_mask CASE_U && has case_mask (Z.lor CASE_L CASE_F) in
  if type =? RUN_TYPE_UL then
    if both then def_case
    else add_intervals cr (every_other (code + b2z (has case_mask CASE_U)) len)
  else if type =? RUN_TYPE_LSU then
    if both then def_case
    else
      add_intervals cr
        ((if has case_mask CASE_U then [] else [(code, code + 1)]) ++ [(code + 1, code + 2)] ++
         (if has case_mask CASE_U then [(code + 2, code + 3)] else []))
  else def_case.

Definition unicode_case1 (cr : CharRange) (case_mask : Z) : outcome (Z * CharRange) :=
  if case_mask =? 0 then Ret (0, cr)
  else
    let mask := foldr (fun '(i, m) acc => if Z.land (Z.shiftr case_mask i) 1 =? 1 then Z.lor m acc else acc)
                      0 (zip [0; 1; 2] tab_run_mask) in
    foldM (fun '(r, cr) v =>
      if negb (r =? 0) then Ret (r, cr)
      else if Z.land (Z.shiftr mask (cc_type v)) 1 =? 1
           then case1_entry cr case_mask (cc_type v) (cc_code v) (cc_len v)
           else Ret (0, cr)) (0, cr) case_conv_table1.

(** ** Property expressions *)

(** The variable arguments of [unicode_prop_ops]: an operation and its
    operand. *)
Inductive PropOP :=
  | POP_GC (a : Z) | POP_PROP (a : Z) | POP_CASE (a : Z)
  | POP_UNION | POP_INTER | POP_XOR | POP_INVERT | POP_END.

Definition POP_STACK_LEN_MAX : Z := 4.

(** Push the set [f] builds in a fresh range; [None] is [goto fail]. *)
Definition pop_push (stack : list CharRange) (f : CharRange -> outcome (Z * CharRange))
  : outcome (option (list CharRange)) :=
  _ ← c_assert (zlen stack <? POP_STACK_LEN_MAX);
  '(r, cr) ← f cr_init;
  Ret (if r =? 0 then Some (cr :: stack) else None).

(** [stack] has its top first. *)
Definition pop_binary (stack : list CharRange) (op : CharRangeOp) : outcome (option (list CharRange)) :=
  _ ← c_assert (2 <=? zlen stack);
  _ ← c_assert (zlen stack <? POP_STACK_LEN_MAX);
  match stack with
  | cr2 :: cr1 :: rest =>
      '(r, cr3) ← cr_op cr_init (points cr1) (len cr1) (points cr2) (len cr2) op;
      Ret (if r =? 0 then Some (cr3 :: rest) else None)
  | _ => Fault AssertFailed
  end.

Definition pop_step (stack : list CharRange) (op : PropOP) : outcome (option (list CharRange)) :=
  match op with
  | POP_GC a => pop_push stack (fun cr => unicode_general_category1 cr a)
  | POP_PROP a => pop_push stack (fun cr => unicode_prop1 cr a)
  | POP_CASE a => pop_push stack (fun cr => unicode_case1 cr a)
  | POP_UNION => pop_binary stack CR_OP_UNION
  | POP_INTER => pop_binary stack CR_OP_INTER
  | POP_XOR => pop_binary stack CR_OP_XOR
  | POP_INVERT =>
      _ ← c_assert (1 <=? zlen stack);
      match stack with
      | cr :: rest =>
          '(r, cr) ← cr_invert cr;
          Ret (if r =? 0 then Some (cr :: rest) else None)
      | [] => Fault AssertFailed
      end
  | POP_END => Ret (Some stack)
  end.

Fixpoint pop_run (stack : list CharRange) (ops : list PropOP) : outcome (option (list CharRange)) :=
  match ops with
  | [] => Fault Aborted
  | POP_END :: _ => Ret (Some stack)
  | op :: ops' =>
      r ← pop_step stack op;
      match r with Some stack => pop_run stack ops' | None => Ret None end
  end.

Definition unicode_prop_ops (cr : CharRange) (ops : list PropOP) : outcome (Z * CharRange) :=
  r ← pop_run [] ops;
  match r with
  | None => Ret (-1, cr)
  | Some stack =>
      _ ← c_assert (zlen stack =? 1);
      match stack with
      | [cr1] => cr_copy cr cr1
      | _ => Fault AssertFailed
      end
  end.

Definition unicode_gc_mask_table : list Z := [
  Ms [UNICODE_GC_Lu; UNICODE_GC_Ll; UNICODE_GC_Lt];
  Ms [UNICODE_GC_Lu; UNICODE_GC_Ll; UNICODE_GC_Lt; UNICODE_GC_Lm; UNICODE_GC_Lo];
  Ms [UNICODE_GC_Mn; UNICODE_GC_Mc; UNICODE_GC_Me];
  Ms [UNICODE_GC_Nd; UNICODE_GC_Nl; UNICODE_GC_No];
  Ms [UNICODE_GC_Sm; UNICODE_GC_Sc; UNICODE_GC_Sk; UNICODE_GC_So];
  Ms [UNICODE_GC_Pc; UNICODE_GC_Pd; UNICODE_GC_Ps; UNICODE_GC_Pe; UNICODE_GC_Pi; UNICODE_GC_Pf; UNICODE_GC_Po];
  Ms [UNICODE_GC_Zs; UNICODE_GC_Zl; UNICODE_GC_Zp];
  Ms [UNICODE_GC_Cc; UNICODE_GC_Cf; UNICODE_GC_Cs; UNICODE_GC_Co; UNICODE_GC_Cn]].

Definition unicode_general_category (cr : CharRange) (gc_name : list Z) : outcome (Z * CharRange) :=
  gc_idx ← unicode_find_name unicode_gc_name_table gc_name;
  if gc_idx <? 0 then Ret (-2, cr)
  else
    gc_mask ← (if gc_idx <=? UNICODE_GC_Co then Ret (u32 (Z.shiftl 1 gc_idx))
               else rd unicode_gc_mask_table (gc_idx - UNICODE_GC_LC));
    unicode_general_category1 cr gc_mask.

Definition alpha_gc : list Z :=
  [UNICODE_GC_Lu; UNICODE_GC_Ll; UNICODE_GC_Lt; UNICODE_GC_Lm; UNICODE_GC_Lo; UNICODE_GC_Nl].

(** The expression of each derived property of the [switch] of [unicode_prop]. *)
Definition prop_expr (prop_idx : Z) : option (list PropOP) :=
  if prop_idx =? UNICODE_PROP_Assigned then
    Some [POP_GC (M UNICODE_GC_Cn); POP_INVERT; POP_END]
  else if prop_idx =? UNICODE_PROP_Math then
    Some [POP_GC (M UNICODE_GC_Sm); POP_PROP UNICODE_PROP_Other_Math; POP_UNION; POP_END]
  else if prop_idx =? UNICODE_PROP_Lowercase then
    Some [POP_GC (M UNICODE_GC_Ll); POP_PROP UNICODE_PROP_Other_Lowercase; POP_UNION; POP_END]
  else if prop_idx =? UNICODE_PROP_Uppercase then
    Some [POP_GC (M UNICODE_GC_Lu); POP_PROP UNICODE_PROP_Other_Uppercase; POP_UNION; POP_END]
  else if prop_idx =? UNICODE_PROP_Cased then
    Some [POP_GC (Ms [UNICODE_GC_Lu; UNICODE_GC_Ll; UNICODE_GC_Lt]);
          POP_PROP UNICODE_PROP_Other_Uppercase; POP_UNION;
          POP_PROP UNICODE_PROP_Other_Lowercase; POP_UNION; POP_END]
  else if prop_idx =? UNICODE_PROP_Alphabetic then
    Some [POP_GC (Ms alpha_gc);
          POP_PROP UNICODE_PROP_Other_Uppercase; POP_UNION;
          POP_PROP UNICODE_PROP_Other_Lowercase; POP_UNION;
          POP_PROP UNICODE_PROP_Other_Alphabetic; POP_UNION; POP_END]
  else if prop_idx =? UNICODE_PROP_Grapheme_Base then
    Some [POP_GC (Ms [UNICODE_GC_Cc; UNICODE_GC_Cf; UNICODE_GC_Cs; UNICODE_GC_Co; UNICODE_GC_Cn;
                      UNICODE_GC_Zl; UNICODE_GC_Zp; UNICODE_GC_Me; UNICODE_GC_Mn]);
          POP_PROP UNICODE_PROP_Other_Grapheme_Extend; POP_UNION; POP_INVERT; POP_END]
  else if prop_idx =? UNICODE_PROP_Grapheme_Extend then
    Some [POP_GC (Ms [UNICODE_GC_Me; UNICODE_GC_Mn]);
          POP_PROP UNICODE_PROP_Other_Grapheme_Extend; POP_UNION; POP_END]
  else if prop_idx =? UNICODE_PROP_XID_Start then
    Some [POP_GC (Ms alpha_gc); POP_PROP UNICODE_PROP_Other_ID_Start; POP_UNION;
          POP_PROP UNICODE_PROP_Pattern_Syntax; POP_PROP UNICODE_PROP_Pattern_White_Space; POP_UNION;
          POP_PROP UNICODE_PROP_XID_Start1; POP_UNION; POP_INVERT; POP_INTER; POP_END]
  else if prop_idx =? UNICODE_PROP_XID_Continue then
    Some [POP_GC (Ms (alpha_gc ++ [UNICODE_GC_Mn; UNICODE_GC_Mc; UNICODE_GC_Nd; UNICODE_GC_Pc]));
          POP_PROP UNICODE_PROP_Other_ID_Start; POP_UNION;
          POP_PROP UNICODE_PROP_Other_ID_Continue; POP_UNION;
          POP_PROP UNICODE_PROP_Pattern_Syntax; POP_PROP UNICODE_PROP_Pattern_White_Space; POP_UNION;
          POP_PROP UNICODE_PROP_XID_Continue1; POP_UNION; POP_INVERT; POP_INTER; POP_END]
  else if prop_idx =? UNICODE_PROP_Changes_When_Titlecased then
    Some [POP_CASE CASE_U; POP_PROP UNICODE_PROP_Changes_When_Titlecased1; POP_XOR; POP_END]
  else if prop_idx =? UNICODE_PROP_Changes_When_Casefolded then
    Some [POP_CASE CASE_F; POP_PROP UNICODE_PROP_Changes_When_Casefolded1; POP_XOR; POP_END]
  else if prop_idx =? UNICODE_PROP_Changes_When_NFKC_Casefolded then
    Some [POP_CASE CASE_F; POP_PROP UNICODE_PROP_Changes_When_NFKC_Casefolded1; POP_XOR; POP_END]
  else if prop_idx =? UNICODE_PROP_ID_Continue then
    Some [POP_PROP UNICODE_PROP_ID_Start; POP_PROP UNICODE_PROP_ID_Continue1; POP_XOR; POP_END]
  else None.

Definition unicode_prop (cr : CharRange) (prop_name : list Z) : outcome (Z * CharRange) :=
  prop_idx ← unicode_find_name unicode_prop_name_table prop_name;
  if prop_idx <? 0 then Ret (-2, cr)
  else
    let prop_idx := prop_idx + UNICODE_PROP_ASCII_Hex_Digit in
    if prop_idx =? UNICODE_PROP_ASCII then cr_add_interval cr 0x00 (0x7f + 1)
    else if prop_idx =? UNICODE_PROP_Any then cr_add_interval cr 0x00000 (0x10ffff + 1)
    else if prop_idx =? UNICODE_PROP_Changes_When_Uppercased then unicode_case1 cr CASE_U
    else if prop_idx =? UNICODE_PROP_Changes_When_Lowercased then unicode_case1 cr CASE_L
    else if prop_idx =? UNICODE_PROP_Changes_When_Casemapped then
      unicode_case1 cr (Z.lor (Z.lor CASE_U CASE_L) CASE_F)
    else
      match prop_expr prop_idx with
      | Some ops => unicode_prop_ops cr ops
      | None =>
          if prop_idx >=? zlen unicode_prop_table then Ret (-2, cr)
          else unicode_prop1 cr prop_idx
      end.

End Props.

(** ** Name tables *)

(** The text of an entry: its names, separated by commas. *)
Fixpoint join (l : list (list Z)) : list Z :=
  match l with
  | [] => []
  | [s] => s
  | s :: l' => s ++ ch "," :: join l'
  end.

(** The memory of a table with the given entries. *)
Definition name_table_of (entries : list (list (list Z))) : list Z :=
  concat (map (fun e => join e ++ [0]) entries) ++ [0].

(** A name: no comma, no zero. *)
Definition name_ok (s : list Z) : Prop := Forall (fun c => c <> 0 /\ c <> ch ",") s.
Definition entry_names_ok (e : list (list Z)) : Prop := Forall name_ok e /\ join e <> [].

Lemma strchr_found (pre s post : list Z) c :
  Forall (fun x => x <> 0 /\ x <> c) s ->
  strchr (pre ++ s ++ c :: post) (zlen pre) c = Ret (Some (zlen pre + zlen s)).
Proof.
  intros Hs. unfold strchr.
  assert (H : forall fuel s1 s2, s = s1 ++ s2 -> (length s2 < fuel)%nat ->
    loop fuel (fun q =>
      x ← rd (pre ++ s ++ c :: post) q;
      if x =? c then Ret (inr (Some q)) else if x =? 0 then Ret (inr None) else Ret (inl (q + 1)))
      (zlen pre + zlen s1) = Ret (Some (zlen pre + zlen s))).
  2:{ pose proof (H (S (length (pre ++ s ++ c :: post))) [] s eq_refl) as H'.
      change (zlen []) with 0 in H'. rewrite Z.add_0_r in H'. apply H'. rewrite !length_app. lia. }
  induction fuel as [|fuel IH]; intros s1 s2 E Hf; [lia|]. cbn [loop].
  destruct s2 as [|x s2].
  - rewrite app_nil_r in E. subst s1.
    rewrite app_assoc, CStr.rd_app_mid by (by rewrite zlen_app). cbn [mbind outcome_bind]. by rewrite Z.eqb_refl.
  - rewrite (CStr.rd_split pre s s1 s2 (c :: post) x) by done. cbn [mbind outcome_bind].
    rewrite E in Hs. apply Forall_app in Hs as [_ Hx]. apply Forall_cons in Hx as [[Hx0 Hxc] _].
    rewrite (proj2 (Z.eqb_neq x c)), (proj2 (Z.eqb_neq x 0)) by done.
    pose proof (IH (s1 ++ [x]) s2) as IH'. rewrite zlen_app, Z.add_assoc in IH'. apply IH'; [|simpl in Hf; lia].
    by rewrite <- app_assoc.
Qed.

Lemma strchr_none (pre s post : list Z) c :
  c <> 0 -> Forall (fun x => x <> 0 /\ x <> c) s ->
  strchr (pre ++ s ++ 0 :: post) (zlen pre) c = Ret None.
Proof.
  intros Hc Hs. unfold strchr.
  assert (H : forall fuel s1 s2, s = s1 ++ s2 -> (length s2 < fuel)%nat ->
    loop fuel (fun q =>
      x ← rd (pre ++ s ++ 0 :: post) q;
      if x =? c then Ret (inr (Some q)) else if x =? 0 then Ret (inr None) else Ret (inl (q + 1)))
      (zlen pre + zlen s1) = Ret None).
  2:{ pose proof (H (S (length (pre ++ s ++ 0 :: post))) [] s eq_refl) as H'.
      change (zlen []) with 0 in H'. rewrite Z.add_0_r in H'. apply H'. rewrite !length_app. lia. }
  induction fuel as [|fuel IH]; intros s1 s2 E Hf; [lia|]. cbn [loop].
  destruct s2 as [|x s2].
  - rewrite app_nil_r in E. subst s1.
    rewrite app_assoc, CStr.rd_app_mid by (by rewrite zlen_app). cbn [mbind outcome_bind].
    by rewrite (proj2 (Z.eqb_neq 0 c)) by done.
  - rewrite (CStr.rd_split pre s s1 s2 (0 :: post) x) by done. cbn [mbind outcome_bind].
    rewrite E in Hs. apply Forall_app in Hs as [_ Hx]. apply Forall_cons in Hx as [[Hx0 Hxc] _].
    rewrite (proj2 (Z.eqb_neq x c)), (proj2 (Z.eqb_neq x 0)) by done.
    pose proof (IH (s1 ++ [x]) s2) as IH'. rewrite zlen_app, Z.add_assoc in IH'. apply IH'; [|simpl in Hf; lia].
    by rewrite <- app_assoc.
Qed.

(** The comparison of one name with the searched one. *)
Lemma name_compare (pre s post name : list Z) :
  (if zlen s =? zlen name then CStr.memcmp_eq (pre ++ s ++ post) (zlen pre) (CStr.cstr name) 0 (zlen name)
   else Ret false) = Ret (bool_decide (s = name)).
Proof.
  destruct (Z.eqb_spec (zlen s) (zlen name)) as [E|E].
  - unfold CStr.memcmp_eq. pose proof (zlen_nonneg pre). pose proof (zlen_nonneg post).
    pose proof (zlen_nonneg name). rewrite (rd_range_ok (pre ++ s ++ post)) by (rewrite ?zlen_app; lia). cbn [mbind outcome_bind].
    rewrite rd_range_ok by (unfold CStr.cstr; rewrite ?zlen_app; change (zlen [0]) with 1; lia).
    cbn [mbind outcome_bind]. unfold CStr.cstr, zlen in *. rewrite !Nat2Z.id. change (Z.to_nat 0) with 0%nat.
    rewrite drop_app_length, drop_0, !take_app_length' by lia. done.
  - f_equal. symmetry. apply bool_decide_eq_false. intros ->. lia.
Qed.

Lemma find_in_entry_spec (name post : list Z) : forall e pre fuel,
  Forall name_ok e -> e <> [] -> (length e <= fuel)%nat ->
  loop fuel (fun p =>
    r ← strchr (pre ++ join e ++ 0 :: post) p (ch ",");
    len ← (match r with None => CStr.strlen (pre ++ join e ++ 0 :: post) p | Some q => Ret (q - p) end);
    eq ← (if len =? zlen name then CStr.memcmp_eq (pre ++ join e ++ 0 :: post) p (CStr.cstr name) 0 (zlen name) else Ret false);
    if (eq : bool) then Ret (inr (inr ()))
    else
      let p := p + (len + 1) in
      match r with None => Ret (inr (inl p)) | Some _ => Ret (inl p) end) (zlen pre) =
  Ret (if bool_decide (name ∈ e) then inr () else inl (zlen pre + zlen (join e) + 1)).
Proof.
  induction e as [|s e IH]; intros pre fuel He Hne Hf; [done|].
  apply Forall_cons in He as [Hs He]. destruct fuel as [|fuel]; [simpl in Hf; lia|]. cbn [loop].
  destruct e as [|s2 e].
  - cbn [join]. rewrite strchr_none; [|done|exact Hs]. cbn [mbind outcome_bind].
    pose proof (CStr.strlen_spec pre s post) as Hl. unfold CStr.cstr in Hl. rewrite <- app_assoc in Hl. cbn [app] in Hl.
    rewrite Hl by (eapply Forall_impl; [exact Hs|]; simpl; tauto). cbn [mbind outcome_bind].
    rewrite name_compare. cbn [mbind outcome_bind].
    destruct (decide (s = name)) as [->|Hn].
    + rewrite bool_decide_eq_true_2 by done. rewrite bool_decide_eq_true_2 by (by apply list_elem_of_singleton). done.
    + rewrite (bool_decide_eq_false_2 (s = name)) by done.
      rewrite bool_decide_eq_false_2 by (intros Hin; apply list_elem_of_singleton in Hin; congruence).
      cbn zeta. do 2 f_equal. lia.
  - assert (Hj : join (s :: s2 :: e) = s ++ ch "," :: join (s2 :: e)) by done. rewrite Hj.
    set (rest := join (s2 :: e)) in *. rewrite <- app_assoc. cbn [app].
    rewrite strchr_found by exact Hs. cbn [mbind outcome_bind].
    replace (zlen pre + zlen s - zlen pre) with (zlen s) by lia.
    rewrite name_compare. cbn [mbind outcome_bind].
    destruct (decide (s = name)) as [->|Hn].
    + rewrite bool_decide_eq_true_2 by done. rewrite bool_decide_eq_true_2 by (apply elem_of_cons; by left). done.
    + rewrite (bool_decide_eq_false_2 (s = name)) by done. cbn zeta.
      specialize (IH (pre ++ s ++ [ch ","]) fuel He ltac:(done) ltac:(simpl in *; lia)).
      fold rest in IH.
      assert ((pre ++ s ++ [ch ","]) ++ rest ++ 0 :: post = pre ++ s ++ ch "," :: rest ++ 0 :: post) as Em
        by (by rewrite <- !app_assoc).
      rewrite Em in IH. rewrite !zlen_app in IH. change (zlen [ch ","]) with 1 in IH.
      etransitivity; [exact IH|].
      rewrite (bool_decide_ext (name ∈ s :: s2 :: e) (name ∈ s2 :: e)).
      * destruct (bool_decide _); [done|]. do 2 f_equal. rewrite zlen_app, zlen_cons. lia.
      * rewrite (elem_of_cons _ name s). split; [intros [?|?]; [congruence|done]|by right].
Qed.

(** The position of the first entry that lists [name], -1 for none. *)
Fixpoint entry_index (entries : list (list (list Z))) (name : list Z) (pos : Z) : Z :=
  match entries with
  | [] => -1
  | e :: r => if bool_decide (name ∈ e) then pos else entry_index r name (pos + 1)
  end.

(** C34: [unicode_find_name] on a table of entries, each a non-empty list of
    names without commas, finds the index of the first entry that lists
    exactly the given name (not a prefix of one, nor two names with their
    comma), and -1 when no entry does; it stays inside the table. *)
Theorem unicode_find_name_correct (entries : list (list (list Z))) (name : list Z) :
  Forall entry_names_ok entries -> CStr.nonzero name ->
  unicode_find_name (name_table_of entries) (CStr.cstr name) = Ret (entry_index entries name 0).
Proof.
  intros Hok Hnz. unfold unicode_find_name. rewrite CStr.strlen_cstr by done. cbn [mbind outcome_bind].
  set (mem := name_table_of entries).
  assert (Hfuel : (length entries < S (length mem))%nat).
  { unfold mem, name_table_of. rewrite length_app. clear -Hok.
    induction Hok as [|e entries [_ He] Hok IH]; simpl; [lia|]. rewrite !length_app. simpl in *. lia. }
  enough (H : forall fuel pre l pos, mem = pre ++ name_table_of l -> Forall entry_names_ok l -> (length l < fuel)%nat ->
    loop fuel (fun '(p, pos) =>
      x ← rd mem p;
      if x =? 0 then Ret (inr (-1))
      else
        r ← find_in_entry mem (CStr.cstr name) (zlen name) p;
        match r with inr _ => Ret (inr pos) | inl p => Ret (inl (p, pos + 1)) end) (zlen pre, pos) =
    Ret (entry_index l name pos)) by (by apply (H _ [] entries 0)).
  clear Hok. induction fuel as [|fuel IH]; intros pre l pos Em Hok Hf; [lia|]. cbn [loop].
  destruct l as [|e l].
  - rewrite Em. change (name_table_of []) with [0]. rewrite CStr.rd_app_mid by done. done.
  - apply Forall_cons in Hok as [[He Hne] Hok].
    assert (mem = pre ++ join e ++ 0 :: name_table_of l) as Em'.
    { rewrite Em. unfold name_table_of. cbn [map concat]. by rewrite <- !app_assoc. }
    destruct (join e) as [|x t] eqn:Ej; [done|].
    assert (x <> 0) as Hx.
    { destruct e as [|s e]; [done|]. apply Forall_cons in He as [Hs _]. destruct e as [|s2 e]; cbn [join] in Ej.
      - subst s. apply Forall_cons in Hs as [[? _] _]. done.
      - destruct s as [|y s]; [by injection Ej as <- _|]. injection Ej as <- _. by apply Forall_cons in Hs as [[? _] _]. }
    assert (rd mem (zlen pre) = Ret x) as -> by (rewrite Em'; cbn [app]; by apply CStr.rd_app_mid).
    cbn [mbind outcome_bind]. rewrite (proj2 (Z.eqb_neq x 0)) by done. rewrite <- Ej in Em'.
    assert (find_in_entry mem (CStr.cstr name) (zlen name) (zlen pre) =
      Ret (if bool_decide (name ∈ e) then inr () else inl (zlen pre + zlen (join e) + 1))) as ->.
    { unfold find_in_entry. rewrite Em'. apply find_in_entry_spec; [done|by destruct e|].
      assert (length e <= S (length (join e)))%nat.
      { clear. induction e as [|s e IH]; [simpl; lia|]. destruct e as [|s2 e]; [simpl; lia|].
        change (join (s :: s2 :: e)) with (s ++ ch "," :: join (s2 :: e)). rewrite length_app. simpl in *. lia. }
      rewrite !length_app. simpl. lia. }
    cbn [mbind outcome_bind entry_index]. destruct (bool_decide (name ∈ e)); [done|].
    specialize (IH (pre ++ join e ++ [0]) l (pos + 1)).
    rewrite !zlen_app in IH. change (zlen [0]) with 1 in IH. rewrite Z.add_assoc in IH.
    apply IH; [|done|simpl in Hf; lia]. rewrite Em'. by rewrite <- !app_assoc.
Qed.

Lemma unicode_find_name_correct_witness :
  unicode_find_name (name_table_of [[str "Lu"; str "Uppercase_Letter"]; [str "Ll"; str "Lowercase_Letter"]])
    (CStr.cstr (str "Lowercase_Letter")) = Ret 1.
Proof.
  rewrite unicode_find_name_correct; [reflexivity| |].
  - repeat constructor; vm_compute; try discriminate; intros; discriminate.
  - repeat constructor; vm_compute; discriminate.
Defined.

(** ** The set of a property table *)

(** The intervals of the runs inside the set. *)
Fixpoint run_points (code : Z) (bit : bool) (rs : list Z) : list Z :=
  match rs with
  | [] => []
  | r :: rs' => (if bit then [code; code + r] else []) ++ run_points (code + r) (negb bit) rs'
  end.

Lemma below_app c l k : below c (l ++ k) = xorb (below c l) (below c k).
Proof. induction l as [|x l IH]; [cbn [app below]; by rewrite xorb_false_l|]. cbn [app below]. by rewrite IH, xorb_assoc. Qed.

Lemma run_points_below c rs : forall code bit, Forall (fun r => 0 < r) rs ->
  below c (run_points code bit rs) = (code <=? c) && in_runs c code bit rs.
Proof.
  induction rs as [|r rs IH]; intros code bit Hf; [by rewrite andb_false_r|].
  apply Forall_cons in Hf as [Hr Hf]. cbn [run_points in_runs]. rewrite below_app, IH by done.
  destruct bit; cbn [below negb];
    destruct (Z.leb_spec code c), (Z.ltb_spec c (code + r)), (Z.leb_spec (code + r) c);
    try lia; cbn [xorb andb]; try done; by destruct (in_runs _ _ _ _).
Qed.

Lemma run_points_valid rs : forall code bit, Forall (fun r => 0 < r) rs ->
  ndec code (run_points code bit rs) /\ Nat.Even (length (run_points code bit rs)) /\
  zlen (run_points code bit rs) <= 2 * zlen rs.
Proof.
  induction rs as [|r rs IH]; intros code bit Hf; [split_and!; [done|by exists 0%nat|done]|].
  apply Forall_cons in Hf as [Hr Hf]. destruct (IH (code + r) (negb bit) Hf) as (H1 & H2 & H3).
  rewrite zlen_cons. cbn [run_points]. destruct bit; cbn [app].
  - split_and!; [split; [lia|split; [lia|done]]| |rewrite !zlen_cons; lia].
    destruct H2 as [n H2]. exists (S n). cbn [length]. lia.
  - split_and!; [by apply (ndec_mono (code + r)); [lia|]|done|lia].
Qed.

Lemma runs_length l : forall rs, runs l = Some rs -> (length rs <= 2 * length l)%nat.
Proof.
  induction l as [|b r IH IH1 IH2] using runs_ind; intros rs H; [by injection H as <-|].
  cbn [runs] in H. destruct (b <? 64).
  { destruct (runs r) as [rs'|] eqn:E; [|done]. injection H as <-. specialize (IH _ eq_refl). simpl. lia. }
  destruct (b >=? 0x80).
  { destruct (runs r) as [rs'|] eqn:E; [|done]. injection H as <-. specialize (IH _ eq_refl). simpl. lia. }
  destruct (b <? 0x60).
  - destruct r as [|p0 r']; [done|]. destruct (runs r') as [rs'|] eqn:E; [|done]. injection H as <-.
    specialize (IH1 _ _ eq_refl _ E). simpl. lia.
  - destruct r as [|p0 [|p1 r']]; [done..|]. destruct (runs r') as [rs'|] eqn:E; [|done]. injection H as <-.
    specialize (IH2 _ _ _ eq_refl _ E). simpl. lia.
Qed.

Section PropSets.
Context `{Allocator}.

(** [cr'] is [cr] with the points [out] added; or a request of at most [m]
    points was refused. *)
Definition adds (m : Z) (cr : CharRange) (out : list Z) (res : Z * CharRange) : Prop :=
  cr_wf res.2 /\
  ((res.1 = 0 /\ pts res.2 = pts cr ++ out) \/ (res.1 = -1 /\ alloc_failed m)).

Lemma prop_add_spec m cr bit c0 c :
  cr_wf cr -> 2 * (len cr + 2) <= m ->
  wp (prop_add cr bit c0 c) (adds m cr (if bit then [c0; c] else [])).
Proof.
  intros Hwf Hm. unfold prop_add. destruct bit.
  - eapply wp_mono; [by apply cr_add_interval_spec|]. intros [r cr'] [Hwf' Hc]. split; [done|].
    destruct Hc as [(-> & Hp & _)|(-> & _ & Ha)]; [left; by split|right]. split; [done|].
    eapply alloc_failed_mono; [|exact Ha]. done.
  - apply wp_ret. split; [done|]. left. by rewrite app_nil_r.
Qed.

Lemma prop_loop m l : forall fuel pre code bit rs cr,
  Forall is_byte l -> runs l = Some rs -> (length l < fuel)%nat ->
  0 <= code -> code + zsum rs < 2 ^ 32 -> cr_wf cr -> 2 * (len cr + 2 * zlen rs + 2) <= m ->
  wp (loop fuel (prop_step (pre ++ l) (zlen pre + zlen l)) (zlen pre, code, bit, cr))
     (adds m cr (run_points code bit rs)).
Proof.
  induction l as [|b r IH IH1 IH2] using runs_ind; intros fuel pre code bit rs cr Hb Hruns Hf Hc0 Hs Hwf Hm.
  { injection Hruns as <-. destruct fuel as [|fuel]; [simpl in Hf; lia|]. cbn [loop]. unfold prop_step.
    change (zlen []) with 0. rewrite (proj2 (Z.ltb_ge _ _)) by lia. cbn [wp]. split; [done|].
    left. by rewrite app_nil_r. }
  destruct fuel as [|fuel]; [simpl in Hf; lia|]. cbn [length] in Hf.
  pose proof (runs_positive _ _ Hb Hruns) as Hpos. apply Forall_cons in Hb as [_ Hr].
  assert (Hstep : forall p1 code1 run r' rs', rs = run :: rs' ->
    0 < run -> code1 = code + run ->
    (forall cr1, cr_wf cr1 -> 2 * (len cr1 + 2 * zlen rs' + 2) <= m ->
       wp (loop fuel (prop_step (pre ++ b :: r) (zlen pre + zlen (b :: r))) (p1, code1, negb bit, cr1))
         (adds m cr1 (run_points code1 (negb bit) rs'))) -> r' = r ->
    wp ('(r, cr) ← prop_add cr bit code code1;
        if negb (r =? 0) then Ret (inr (-1, cr)) else Ret (inl (p1, code1, negb bit, cr)))
      (fun res => match res with
         | inl s => wp (loop fuel (prop_step (pre ++ b :: r) (zlen pre + zlen (b :: r))) s)
                      (adds m cr (run_points code bit rs))
         | inr q => adds m cr (run_points code bit rs) q end)).
  { intros p1 code1 run r' rs' -> Hrun -> Hrest _. rewrite zlen_cons in Hm. pose proof (zlen_nonneg rs').
    apply wp_bind. eapply wp_mono; [apply (prop_add_spec m); [done|lia]|].
    intros [r0 cr1] [Hwf1 [(E0 & Hp)|(E0 & Ha)]]; cbn [fst snd] in *; subst r0; cbn [Z.eqb negb].
    - apply wp_ret. assert (len cr1 <= len cr + 2) as Hl1.
      { rewrite <- (zlen_pts cr1 Hwf1), <- (zlen_pts cr Hwf), Hp, zlen_app. destruct bit; [done|change (zlen []) with 0; lia]. }
      eapply wp_mono; [apply Hrest; [done|lia]|].
      intros res [Hw [(E1 & Hp1)|Hc]]; (split; [done|]); [left|by right].
      split; [done|]. rewrite Hp1, Hp. cbn [run_points]. by rewrite app_assoc.
    - apply wp_ret. split; [done|]. by right. }
  cbn [runs] in Hruns.
  assert (Hwploop : forall s (Q : Z * CharRange -> Prop),
    wp (prop_step (pre ++ b :: r) (zlen pre + zlen (b :: r)) s)
      (fun res => match res with
         | inl s' => wp (loop fuel (prop_step (pre ++ b :: r) (zlen pre + zlen (b :: r))) s') Q
         | inr q => Q q end) ->
    wp (loop (S fuel) (prop_step (pre ++ b :: r) (zlen pre + zlen (b :: r))) s) Q).
  { intros s Q Hw. cbn [loop]. by destruct (prop_step _ _ s) as [[?|?]|]. }
  apply Hwploop. clear Hwploop. unfold prop_step at 1.
  rewrite (proj2 (Z.ltb_lt (zlen pre) _)) by (rewrite zlen_cons; pose proof (zlen_nonneg r); lia).
  rewrite (CStr.rd_app_mid pre r b (zlen pre)) by done. cbn [mbind outcome_bind]. cbn zeta.
  destruct (b <? 64) eqn:E64.
  { destruct (runs r) as [rs'|] eqn:E; [|done]. injection Hruns as <-. clear Hstep.
    apply Forall_cons in Hpos as [H1 Hpos]. apply Forall_cons in Hpos as [H2 Hpos].
    pose proof (zsum_nonneg _ Hpos). cbn [zsum] in Hs. rewrite !zlen_cons in Hm. pose proof (zlen_nonneg rs').
    rewrite (u32_small (code + _)) by lia. rewrite (u32_small (code + _ + _)) by lia.
    apply wp_bind. eapply wp_mono; [apply (prop_add_spec m); [done|lia]|].
    intros [r1 cr1] [Hwf1 [(E1 & Hp1)|(E1 & Ha)]]; cbn [fst snd] in *; subst r1; cbn [Z.eqb negb].
    2:{ apply wp_ret. split; [done|]. by right. }
    assert (len cr1 <= len cr + 2) as Hl1.
    { rewrite <- (zlen_pts cr1 Hwf1), <- (zlen_pts cr Hwf), Hp1, zlen_app. destruct bit; [done|change (zlen []) with 0; lia]. }
    apply wp_bind. eapply wp_mono; [apply (prop_add_spec m); [done|lia]|].
    intros [r2 cr2] [Hwf2 [(E2 & Hp2)|(E2 & Ha)]]; cbn [fst snd] in *; subst r2; cbn [Z.eqb negb].
    2:{ apply wp_ret. split; [done|]. by right. }
    assert (len cr2 <= len cr + 2) as Hl2.
    { rewrite <- (zlen_pts cr2 Hwf2), <- (zlen_pts cr Hwf), Hp2, Hp1, !zlen_app.
      destruct bit; cbn [negb]; rewrite ?zlen_cons; change (zlen (@nil Z)) with 0; lia. }
    apply wp_ret.
    pose proof (IH fuel (pre ++ [b]) (code + (Z.shiftr b 3 + 1) + (Z.land b 7 + 1)) (negb (negb bit)) rs' cr2 Hr eq_refl) as IH'.
    rewrite <- app_assoc, zlen_app in IH'. change (zlen [b]) with 1 in IH'.
    rewrite zlen_cons, Z.add_assoc. eapply wp_mono; [apply IH'; [lia|lia|lia|done|lia]|].
    intros res [Hw [(E3 & Hp3)|Hc]]; (split; [done|]); [left|by right]. split; [done|].
    rewrite Hp3, Hp2, Hp1. cbn [run_points]. by rewrite !app_assoc. }
  assert (Hone : forall p1 run r' pre' rs', rs = run :: rs' ->
    (forall cr1, cr_wf cr1 -> 2 * (len cr1 + 2 * zlen rs' + 2) <= m ->
       wp (loop fuel (prop_step (pre' ++ r') (zlen pre' + zlen r')) (zlen pre', code + run, negb bit, cr1))
         (adds m cr1 (run_points (code + run) (negb bit) rs'))) ->
    pre' ++ r' = pre ++ b :: r -> p1 = zlen pre' ->
    wp ('(r, cr) ← prop_add cr bit code (u32 (code + run));
        if negb (r =? 0) then Ret (inr (-1, cr)) else Ret (inl (p1, u32 (code + run), negb bit, cr)))
      (fun res => match res with
         | inl s => wp (loop fuel (prop_step (pre ++ b :: r) (zlen pre + zlen (b :: r))) s)
                      (adds m cr (run_points code bit rs))
         | inr q => adds m cr (run_points code bit rs) q end)).
  { intros p1 run r' pre' rs' Hrs Hrest Hsame ->. subst rs.
    apply Forall_cons in Hpos as [H1 Hpos]. pose proof (zsum_nonneg _ Hpos). cbn [zsum] in Hs.
    rewrite u32_small by lia. eapply Hstep; [done|done|done| |done].
    intros cr1 Hw Hm1. specialize (Hrest cr1 Hw Hm1).
    assert (zlen pre' + zlen r' = zlen pre + zlen (b :: r)) as Hz by (by rewrite <- !zlen_app, Hsame).
    rewrite Hsame, Hz in Hrest. exact Hrest. }
  clear Hstep.
  destruct (b >=? 0x80) eqn:E80.
  { destruct (runs r) as [rs'|] eqn:E; [|done]. injection Hruns as <-. cbn [mbind outcome_bind].
    apply Forall_cons in Hpos as [H1 Hpos]. cbn [zsum] in Hs.
    eapply (Hone _ _ r (pre ++ [b])); [done| |by rewrite <- app_assoc|by rewrite zlen_app].
    intros cr1 Hw Hm1. eapply IH; [done|done|lia|lia|lia|done|lia]. }
  destruct (b <? 0x60) eqn:E60.
  - destruct r as [|p0 r']; [done|]. destruct (runs r') as [rs'|] eqn:E; [|done]. injection Hruns as <-.
    apply Forall_cons in Hpos as [H1 Hpos]. cbn [zsum] in Hs. apply Forall_cons in Hr as [_ Hr].
    rewrite (rd_app_r pre (b :: p0 :: r') 1 (zlen pre + 1)) by lia.
    change (rd (b :: p0 :: r') 1) with (Ret p0). cbn [mbind outcome_bind].
    eapply (Hone _ _ r' (pre ++ [b; p0])); [done| |by rewrite <- app_assoc|rewrite zlen_app; change (zlen [b; p0]) with 2; lia].
    intros cr1 Hw Hm1. simpl in Hf. eapply IH1; [done|done|done|lia|lia|lia|done|lia].
  - destruct r as [|p0 [|p1 r']]; [done..|]. destruct (runs r') as [rs'|] eqn:E; [|done]. injection Hruns as <-.
    apply Forall_cons in Hpos as [H1 Hpos]. cbn [zsum] in Hs. apply Forall_cons in Hr as [_ Hr]. apply Forall_cons in Hr as [_ Hr].
    rewrite (rd_app_r pre (b :: p0 :: p1 :: r') 1 (zlen pre + 1)),
      (rd_app_r pre (b :: p0 :: p1 :: r') 2 (zlen pre + 1 + 1)) by lia.
    change (rd (b :: p0 :: p1 :: r') 1) with (Ret p0). change (rd (b :: p0 :: p1 :: r') 2) with (Ret p1).
    cbn [mbind outcome_bind].
    eapply (Hone _ _ r' (pre ++ [b; p0; p1])); [done| |by rewrite <- app_assoc|rewrite zlen_app; change (zlen [b; p0; p1]) with 3; lia].
    intros cr1 Hw Hm1. simpl in Hf. eapply IH2; [done|done|done|lia|lia|lia|done|lia].
Qed.

(** Every property table is a list of bytes that decodes to its end. *)
Definition prop_table_ok (t : list Z) : bool :=
  forallb (fun b => (0 <=? b) && (b <? 256)) t &&
  match runs t with Some rs => zsum rs <? 2 ^ 32 | None => false end.

Lemma prop_tables_ok : forallb prop_table_ok unicode_prop_table = true.
Proof. vm_compute. reflexivity. Qed.

Lemma prop_lens_ok : unicode_prop_len_table = map zlen unicode_prop_table.
Proof. vm_compute. reflexivity. Qed.

(** C33: the set built from any property table is the set the lookup
    functions read.  For every property index and an empty range,
    [unicode_prop1] decodes the whole table without leaving it and returns
    either 0 with a valid range (non-decreasing points, of even number) that
    contains a character exactly when [lre_is_in_table]'s reading of the table
    does, or -1 after a request of at most [8 * n + 4] points was refused, [n]
    being the size of the table. *)
Theorem unicode_prop1_correct (prop_idx : Z) (table : list Z) :
  0 <= prop_idx -> unicode_prop_table !! Z.to_nat prop_idx = Some table ->
  exists r cr, unicode_prop1 cr_init prop_idx = Ret (r, cr) /\ cr_wf cr /\
    ((r = 0 /\ valid (pts cr) /\ forall c, 0 <= c -> inside (pts cr) c = in_table_ref table c) \/
     (r = -1 /\ alloc_failed (8 * zlen table + 4))).
Proof.
  intros Hi Ht. unfold unicode_prop1.
  rewrite (proj2 (rd_Ret _ _ _) (conj Hi Ht)). cbn [mbind outcome_bind].
  assert (unicode_prop_len_table !! Z.to_nat prop_idx = Some (zlen table)) as Hl
    by (by rewrite prop_lens_ok, list_lookup_fmap, Ht).
  rewrite (proj2 (rd_Ret _ _ _) (conj Hi Hl)). cbn [mbind outcome_bind].
  pose proof prop_tables_ok as Hok. rewrite forallb_forall in Hok.
  assert (prop_table_ok table = true) as Htok.
  { apply Hok, list_elem_of_In. by eapply list_elem_of_lookup_2. }
  unfold prop_table_ok in Htok. apply andb_true_iff in Htok as [Hbytes Hruns].
  destruct (runs table) as [rs|] eqn:Er; [|done]. breflect.
  assert (Forall is_byte table) as Hb.
  { apply Forall_forall. intros x Hx. rewrite forallb_forall in Hbytes.
    apply list_elem_of_In in Hx. specialize (Hbytes x Hx). breflect. by split. }
  pose proof (runs_positive _ _ Hb Er) as Hpos. pose proof (runs_length _ _ Er) as Hlen.
  assert (cr_wf cr_init) as Hwf0 by (split; simpl; done || lia).
  pose proof (prop_loop (8 * zlen table + 4) table (S (length table)) [] 0 false rs cr_init Hb Er
    ltac:(lia) ltac:(lia) ltac:(lia) Hwf0 ltac:(change (len cr_init) with 0; unfold zlen; lia)) as Hl2.
  apply wp_elim in Hl2 as ([r cr] & E & Hwf & Hc). exists r, cr. split; [exact E|]. split; [done|].
  cbn [fst snd] in Hc. destruct Hc as [(-> & Hp)|Hc]; [left|by right].
  change (pts cr_init) with (@nil Z) in Hp. cbn [app] in Hp.
  destruct (run_points_valid rs 0 false Hpos) as (H1 & H2 & _).
  split; [done|]. split; [rewrite Hp; by split|]. intros c Hc. unfold inside, in_table_ref.
  rewrite Hp, run_points_below, Er by done. by rewrite (proj2 (Z.leb_le 0 c)).
Qed.
End PropSets.

Lemma unicode_prop1_correct_witness :
  exists r cr, @unicode_prop1 (bounded_allocator 65536) cr_init UNICODE_PROP_White_Space = Ret (r, cr) /\
    r = 0 /\ inside (pts cr) 0x2028 = true.
Proof.
  destruct (@unicode_prop1_correct (bounded_allocator 65536) UNICODE_PROP_White_Space unicode_prop_White_Space_table)
    as (r & cr & E & _ & Hc); [vm_compute; discriminate|reflexivity|].
  exists r, cr. split; [exact E|].
  assert (r =? 0 = true) as Hr0.
  { assert (match @unicode_prop1 (bounded_allocator 65536) cr_init UNICODE_PROP_White_Space with
      | Ret (r0, _) => r0 =? 0 | _ => false end = true) as H by (vm_compute; reflexivity).
    rewrite E in H. exact H. }
  apply Z.eqb_eq in Hr0. subst r.
  split; [reflexivity|]. destruct Hc as [(_ & _ & Hin)|(Hr & _)]; [|discriminate Hr].
  rewrite (Hin 0x2028) by discriminate. vm_compute. reflexivity.
Defined.
