(* ===== verification/RegexpOp.v ===== *)
(** * Regular expressions: opcodes and character classes ([libregexp.c],
    [libregexp-opcode.h], [libregexp.h])

    The data the compiler and the matcher share: the opcodes with their sizes,
    the header of a compiled expression, case folding of one character and the
    predefined character ranges. *)

From S2P Require Import Prelude Cutils DynBuf CharRange UnicodeLookup.

(** ** Opcodes *)

Inductive REOPCodeEnum :=
  | REOP_invalid | REOP_char | REOP_char32 | REOP_dot | REOP_any | REOP_line_start | REOP_line_end
  | REOP_goto | REOP_split_goto_first | REOP_split_next_first | REOP_match | REOP_save_start
  | REOP_save_end | REOP_save_reset | REOP_loop | REOP_push_i32 | REOP_drop | REOP_word_boundary
  | REOP_not_word_boundary | REOP_back_reference | REOP_backward_back_reference | REOP_range
  | REOP_range32 | REOP_lookahead | REOP_negative_lookahead | REOP_push_char_pos
  | REOP_bne_char_pos | REOP_prev | REOP_simple_greedy_quant.

#[export] Instance reop_eq_dec : EqDecision REOPCodeEnum.
Proof. solve_decision. Defined.

(** The opcodes in the order of [libregexp-opcode.h], with [size]. *)
Definition reopcodes : list (REOPCodeEnum * Z) := [
  (REOP_invalid, 1); (REOP_char, 3); (REOP_char32, 5); (REOP_dot, 1); (REOP_any, 1);
  (REOP_line_start, 1); (REOP_line_end, 1); (REOP_goto, 5); (REOP_split_goto_first, 5);
  (REOP_split_next_first, 5); (REOP_match, 1); (REOP_save_start, 2); (REOP_save_end, 2);
  (REOP_save_reset, 3); (REOP_loop, 5); (REOP_push_i32, 5); (REOP_drop, 1);
  (REOP_word_boundary, 1); (REOP_not_word_boundary, 1); (REOP_back_reference, 2);
  (REOP_backward_back_reference, 2); (REOP_range, 3); (REOP_range32, 3); (REOP_lookahead, 5);
  (REOP_negative_lookahead, 5); (REOP_push_char_pos, 1); (REOP_bne_char_pos, 5); (REOP_prev, 1);
  (REOP_simple_greedy_quant, 17)].

(** The number of an opcode. *)
Definition reop (op : REOPCodeEnum) : Z :=
  match op with
  | REOP_invalid => 0 | REOP_char => 1 | REOP_char32 => 2 | REOP_dot => 3 | REOP_any => 4
  | REOP_line_start => 5 | REOP_line_end => 6 | REOP_goto => 7 | REOP_split_goto_first => 8
  | REOP_split_next_first => 9 | REOP_match => 10 | REOP_save_start => 11 | REOP_save_end => 12
  | REOP_save_reset => 13 | REOP_loop => 14 | REOP_push_i32 => 15 | REOP_drop => 16
  | REOP_word_boundary => 17 | REOP_not_word_boundary => 18 | REOP_back_reference => 19
  | REOP_backward_back_reference => 20 | REOP_range => 21 | REOP_range32 => 22
  | REOP_lookahead => 23 | REOP_negative_lookahead => 24 | REOP_push_char_pos => 25
  | REOP_bne_char_pos => 26 | REOP_prev => 27 | REOP_simple_greedy_quant => 28
  end.

Definition REOP_COUNT : Z := zlen reopcodes.

(** The opcode of a byte of the code, if there is one. *)
Definition reop_of (b : Z) : option REOPCodeEnum :=
  if b <? 0 then None else fst <$> reopcodes !! Z.to_nat b.

(** [reopcode_info[b].size] *)
Definition reopcode_size (b : Z) : outcome Z := snd <$> rd reopcodes b.

Lemma reop_of_reop op : reop_of (reop op) = Some op.
Proof. by destruct op. Qed.

Lemma reop_range op : 0 <= reop op < 29.
Proof. destruct op; simpl; lia. Qed.

Lemma reop_of_Some b op : reop_of b = Some op -> b = reop op.
Proof.
  unfold reop_of. destruct (Z.ltb_spec b 0); [done|]. intros H1.
  destruct (decide (b < 29)) as [Hb|Hb].
  - assert (b ∈ seqZ 0 29) as Hin by (apply elem_of_seqZ; lia). revert H1. cbn in Hin.
    repeat (apply elem_of_cons in Hin as [->|Hin]; [by intros [= <-]|]). by apply elem_of_nil in Hin.
  - rewrite lookup_ge_None_2 in H1; [done|]. simpl. lia.
Qed.

(** ** Header of the compiled code and flags *)

Definition RE_HEADER_FLAGS : Z := 0.
Definition RE_HEADER_CAPTURE_COUNT : Z := 1.
Definition RE_HEADER_STACK_SIZE : Z := 2.
Definition RE_HEADER_LEN : Z := 7.

Definition CAPTURE_COUNT_MAX : Z := 255.
Definition STACK_SIZE_MAX : Z := 255.
Definition TMP_BUF_SIZE : Z := 128.
Definition CP_LS : Z := 0x2028.
Definition CP_PS : Z := 0x2029.

Definition LRE_FLAG_GLOBAL : Z := Z.shiftl 1 0.
Definition LRE_FLAG_IGNORECASE : Z := Z.shiftl 1 1.
Definition LRE_FLAG_MULTILINE : Z := Z.shiftl 1 2.
Definition LRE_FLAG_DOTALL : Z := Z.shiftl 1 3.
Definition LRE_FLAG_UTF16 : Z := Z.shiftl 1 4.
Definition LRE_FLAG_STICKY : Z := Z.shiftl 1 5.
Definition LRE_FLAG_NAMED_GROUPS : Z := Z.shiftl 1 7.

(** [(flags & f) != 0] *)
Definition has_flag (flags f : Z) : bool := negb (Z.land flags f =? 0).

Definition lre_get_capture_count (bc_buf : list Z) : outcome Z := rd bc_buf RE_HEADER_CAPTURE_COUNT.
Definition lre_get_flags (bc_buf : list Z) : outcome Z := rd bc_buf RE_HEADER_FLAGS.

(** The offset of the group names, [None] for a null pointer. *)
Definition lre_get_groupnames (bc_buf : list Z) : outcome (option Z) :=
  flags ← lre_get_flags bc_buf;
  if negb (has_flag flags LRE_FLAG_NAMED_GROUPS) then Ret None
  else
    re_bytecode_len ← Bits.get_u32 bc_buf 3;
    Ret (Some (7 + re_bytecode_len)).

(** ** Characters *)

Definition in_chars (lo c hi : Z) : bool := (lo <=? c) && (c <=? hi).

Definition is_digit (c : Z) : bool := in_chars (ch "0") c (ch "9").

Definition is_line_terminator (c : Z) : bool :=
  (c =? 10) || (c =? 13) || (c =? CP_LS) || (c =? CP_PS).

Definition is_word_char (c : Z) : bool :=
  in_chars (ch "0") c (ch "9") || in_chars (ch "a") c (ch "z") || in_chars (ch "A") c (ch "Z") ||
  (c =? ch "_").

(** [lre_canonicalize(c, is_utf16)] *)
Definition lre_canonicalize (c : Z) (is_utf16 : bool) : outcome Z :=
  if is_utf16 then
    if c <? 128 then Ret (if in_chars (ch "A") c (ch "Z") then c - ch "A" + ch "a" else c)
    else res ← lre_case_conv c 2; rd res 0
  else
    if c <? 128 then Ret (if in_chars (ch "a") c (ch "z") then c - ch "a" + ch "A" else c)
    else
      res ← lre_case_conv c 0;
      res0 ← rd res 0;
      Ret (if (zlen res =? 1) && (128 <=? res0) then res0 else c).

(** ** Predefined ranges *)

Definition char_range_d : list Z := [1; 0x0030; 0x0039 + 1].
Definition char_range_s : list Z := [
  10;
  0x0009; 0x000D + 1;
  0x0020; 0x0020 + 1;
  0x00A0; 0x00A0 + 1;
  0x1680; 0x1680 + 1;
  0x2000; 0x200A + 1;
  0x2028; 0x2029 + 1;
  0x202F; 0x202F + 1;
  0x205F; 0x205F + 1;
  0x3000; 0x3000 + 1;
  0xFEFF; 0xFEFF + 1].
Definition char_range_w : list Z := [
  4;
  0x0030; 0x0039 + 1;
  0x0041; 0x005A + 1;
  0x005F; 0x005F + 1;
  0x0061; 0x007A + 1].

Definition char_range_table : list (list Z) := [char_range_d; char_range_s; char_range_w].

Definition CLASS_RANGE_BASE : Z := 0x40000000.

Definition CHAR_RANGE_d : Z := 0.
Definition CHAR_RANGE_D : Z := 1.
Definition CHAR_RANGE_s : Z := 2.
Definition CHAR_RANGE_S : Z := 3.
Definition CHAR_RANGE_w : Z := 4.
Definition CHAR_RANGE_W : Z := 5.

Definition lre_is_space (c : Z) : outcome bool :=
  let n := (zlen char_range_s - 1) / 2 in
  loop (S (length char_range_s)) (fun i =>
    if i <? n then
      low ← rd char_range_s (2 * i + 1);
      if c <? low then Ret (inr false)
      else
        high ← rd char_range_s (2 * i + 2);
        if c <? high then Ret (inr true) else Ret (inl (i + 1))
    else Ret (inr false)) 0.

Definition lre_id_start_table_ascii : list Z := [0x00000000; 0x00000010; 0x87FFFFFE; 0x07FFFFFE].
Definition lre_id_continue_table_ascii : list Z := [0x00000000; 0x03FF0010; 0x87FFFFFE; 0x07FFFFFE].

Definition lre_js_is_ident_first (c : Z) : outcome bool :=
  if u32 c <? 128 then
    w ← rd lre_id_start_table_ascii (Z.shiftr c 5);
    Ret (Z.land (Z.shiftr w (Z.land c 31)) 1 =? 1)
  else lre_is_id_start c.

Definition lre_js_is_ident_next (c : Z) : outcome bool :=
  if u32 c <? 128 then
    w ← rd lre_id_continue_table_ascii (Z.shiftr c 5);
    Ret (Z.land (Z.shiftr w (Z.land c 31)) 1 =? 1)
  else
    b ← lre_is_id_continue c;
    Ret ((b : bool) || (c =? 0x200C) || (c =? 0x200D)).

Section Ranges.
Context `{Allocator}.

(** [cr_init_char_range(s, cr, c)]: the return value and the range; a failure
    releases the range ([None]). *)
Definition cr_init_char_range (c : Z) : outcome (Z * option CharRange) :=
  let invert := Z.land c 1 in
  c_pt ← rd char_range_table (Z.shiftr c 1);
  len ← rd c_pt 0;
  r ← loop (S (length c_pt)) (fun '(i, cr) =>
        if i <? len * 2 then
          v ← rd c_pt (1 + i);
          '(r, cr) ← cr_add_point cr v;
          if negb (r =? 0) then Ret (inr None) else Ret (inl (i + 1, cr))
        else Ret (inr (Some cr))) (0, cr_init);
  match r with
  | None => Ret (-1, None)
  | Some cr =>
      if negb (invert =? 0) then
        '(r, cr) ← cr_invert cr;
        if negb (r =? 0) then Ret (-1, None) else Ret (0, Some cr)
      else Ret (0, Some cr)
  end.
End Ranges.
