(* ===== verification/RegexpExec.v ===== *)
(** * Regular expressions: the backtracking matcher ([lre_exec] of [libregexp.c])

    Pointers into the text and into the code are byte offsets; a capture is
    [None] for a null pointer.  [lre_exec_backtrack] works on arrays of its
    caller and on the context, so a recursive call shares them: the machine
    state [vm] is threaded through it.  The saved states ([state_stack]) are a
    list with the top first; the region they live in is one cell per state. *)

From S2P Require Import Prelude Cutils DynBuf RegexpOp.

Inductive REExecStateEnum :=
  | RE_EXEC_STATE_SPLIT | RE_EXEC_STATE_LOOKAHEAD | RE_EXEC_STATE_NEGATIVE_LOOKAHEAD
  | RE_EXEC_STATE_GREEDY_QUANT.

Record REExecState := mkRS {
  rs_type : REExecStateEnum;
  rs_stack_len : Z;
  rs_count : Z;
  rs_cptr : Z;
  rs_pc : Z;
  rs_capture : list (option Z);   (* buf[0 .. 2 * capture_count) *)
  rs_stack : list Z;              (* the saved entries of the stack *)
}.

(** The fields of the context that do not change, and the code. *)
Record REExecContext := mkCtx {
  bc_buf : list Z;
  cbuf : list Z;
  cbuf_end : Z;
  cbuf_type : Z;
  capture_count : Z;
  stack_size_max : Z;
  multi_line : bool;
  ignore_case : bool;
  is_utf16 : bool;
  state_size : Z;
}.

(** The local variables and the arrays of [lre_exec_backtrack]. *)
Record vm := mkVM {
  pc : Z;
  cptr : Z;
  capture : list (option Z);
  stack : list Z;
  stack_len : Z;
  state_stack : list REExecState;
  state_stack_size : Z;
  state_region : list Z;
}.

Definition set_pc (m : vm) (p : Z) : vm :=
  mkVM p (cptr m) (capture m) (stack m) (stack_len m) (state_stack m) (state_stack_size m) (state_region m).
Definition set_cptr (m : vm) (p : Z) : vm :=
  mkVM (pc m) p (capture m) (stack m) (stack_len m) (state_stack m) (state_stack_size m) (state_region m).
Definition set_capture (m : vm) (l : list (option Z)) : vm :=
  mkVM (pc m) (cptr m) l (stack m) (stack_len m) (state_stack m) (state_stack_size m) (state_region m).
Definition set_stack (m : vm) (l : list Z) (n : Z) : vm :=
  mkVM (pc m) (cptr m) (capture m) l n (state_stack m) (state_stack_size m) (state_region m).
Definition set_states (m : vm) (l : list REExecState) : vm :=
  mkVM (pc m) (cptr m) (capture m) (stack m) (stack_len m) l (state_stack_size m) (state_region m).

(** What a call returns: -1, 0 or 1 (or the text pointer, with [no_recurse]);
    the arrays and the context are in the final [vm]. *)
Inductive exec_result := RError | RNoMatch (m : vm) | RMatch (m : vm).

(** How an instruction ends: the next one, [goto no_match], the [match] opcode
    or [return -1]. *)
Inductive op_result := Go (m : vm) | NoMatch (m : vm) | Matched (m : vm) | Failed.

(** ** Reading the text *)

Definition is_hi_surrogate (c : Z) : bool := (0xd800 <=? c) && (c <? 0xdc00).
Definition is_lo_surrogate (c : Z) : bool := (0xdc00 <=? c) && (c <? 0xe000).
Definition surrogate_pair (hi lo : Z) : Z :=
  Z.lor (Z.shiftl (Z.land hi 0x3ff) 10) (Z.land lo 0x3ff) + 0x10000.

Section Text.
Context (cbuf : list Z) (cbuf_type : Z).

(** [GET_CHAR]: the character and the pointer after it. *)
Definition GET_CHAR (cptr cbuf_end : Z) : outcome (Z * Z) :=
  if cbuf_type =? 0 then c ← rd cbuf cptr; Ret (c, cptr + 1)
  else
    c ← Bits.get_u16 cbuf cptr;
    let cptr := cptr + 2 in
    if is_hi_surrogate c && (cbuf_type =? 2) && (cptr <? cbuf_end) then
      c1 ← Bits.get_u16 cbuf cptr;
      if is_lo_surrogate c1 then Ret (surrogate_pair c c1, cptr + 2) else Ret (c, cptr)
    else Ret (c, cptr).

Definition PEEK_CHAR (cptr cbuf_end : Z) : outcome Z :=
  if cbuf_type =? 0 then rd cbuf cptr
  else
    c ← Bits.get_u16 cbuf cptr;
    if is_hi_surrogate c && (cbuf_type =? 2) && (cptr + 2 <? cbuf_end) then
      c1 ← Bits.get_u16 cbuf (cptr + 2);
      if is_lo_surrogate c1 then Ret (surrogate_pair c c1) else Ret c
    else Ret c.

Definition PEEK_PREV_CHAR (cptr cbuf_start : Z) : outcome Z :=
  if cbuf_type =? 0 then rd cbuf (cptr - 1)
  else
    c ← Bits.get_u16 cbuf (cptr - 2);
    if is_lo_surrogate c && (cbuf_type =? 2) && (cbuf_start <=? cptr - 4) then
      c1 ← Bits.get_u16 cbuf (cptr - 4);
      if is_hi_surrogate c1 then Ret (surrogate_pair c1 c) else Ret c
    else Ret c.

Definition GET_PREV_CHAR (cptr cbuf_start : Z) : outcome (Z * Z) :=
  if cbuf_type =? 0 then c ← rd cbuf (cptr - 1); Ret (c, cptr - 1)
  else
    let cptr := cptr - 2 in
    c ← Bits.get_u16 cbuf cptr;
    if is_lo_surrogate c && (cbuf_type =? 2) && (cbuf_start <? cptr) then
      c1 ← Bits.get_u16 cbuf (cptr - 2);
      if is_hi_surrogate c1 then Ret (surrogate_pair c1 c, cptr - 2) else Ret (c, cptr)
    else Ret (c, cptr).

Definition PREV_CHAR (cptr cbuf_start : Z) : outcome Z :=
  if cbuf_type =? 0 then Ret (cptr - 1)
  else
    let cptr := cptr - 2 in
    if cbuf_type =? 2 then
      c ← Bits.get_u16 cbuf cptr;
      if is_lo_surrogate c && (cbuf_start <? cptr) then
        c ← Bits.get_u16 cbuf (cptr - 2);
        Ret (if is_hi_surrogate c then cptr - 2 else cptr)
      else Ret cptr
    else Ret cptr.

(** [for(i = 0; i < n; i++) PREV_CHAR(cptr, cbuf)] *)
Fixpoint prev_chars (n : nat) (cptr : Z) : outcome Z :=
  match n with
  | O => Ret cptr
  | S n => cptr ← PREV_CHAR cptr 0; prev_chars n cptr
  end.
End Text.

Section Exec.
Context `{Allocator} (s : REExecContext).

Notation code := (bc_buf s).
Notation get_char p := (GET_CHAR (cbuf s) (cbuf_type s) p (cbuf_end s)).
Notation peek_char p := (PEEK_CHAR (cbuf s) (cbuf_type s) p (cbuf_end s)).
Notation peek_prev_char p := (PEEK_PREV_CHAR (cbuf s) (cbuf_type s) p 0).

(** ** Saved states *)

(** [push_state]: [None] is the return value -1. *)
Definition push_state (m : vm) (pc cptr : Z) (type : REExecStateEnum) (count : Z)
  : outcome (option vm) :=
  grown ← (if state_stack_size m <? zlen (state_stack m) + 1 then
             let new_size := state_stack_size m * 3 / 2 in
             let new_size := if new_size <? 8 then 8 else new_size in
             match realloc_func (state_size s) (state_region m) new_size with
             | None => Ret None
             | Some new_stack => Ret (Some (new_size, new_stack))
             end
           else Ret (Some (state_stack_size m, state_region m)));
  match grown with
  | None => Ret None
  | Some (size, region) =>
      region ← wr region (zlen (state_stack m)) 0;
      caps ← rd_range (capture m) 0 (2 * capture_count s);
      saved ← rd_range (stack m) 0 (stack_len m);
      Ret (Some (mkVM (RegexpExec.pc m) (RegexpExec.cptr m) (capture m) (stack m) (stack_len m)
        (mkRS type (u8 (stack_len m)) count cptr pc caps saved :: state_stack m) size region))
  end.

Definition or_fail (r : outcome (option vm)) (k : vm -> outcome op_result) : outcome op_result :=
  r ← r; match r with None => Ret Failed | Some m => k m end.

(** [pop_state1]: resume [rs], keeping the captures. *)
Definition pop_state1 (m : vm) (rs : REExecState) (rest : list REExecState) : outcome vm :=
  st ← wr_range (stack m) 0 (rs_stack rs);
  Ret (set_states (set_pc (set_cptr (set_stack m st (rs_stack_len rs)) (rs_cptr rs)) (rs_pc rs)) rest).

Definition pop_state (m : vm) (rs : REExecState) (rest : list REExecState) : outcome vm :=
  caps ← wr_range (capture m) 0 (rs_capture rs);
  pop_state1 (set_capture m caps) rs rest.

(** A state of a greedy quantifier: give up one match of the atom. *)
Definition pop_greedy (m : vm) (rs : REExecState) (rest : list REExecState) : outcome vm :=
  caps ← wr_range (capture m) 0 (rs_capture rs);
  st ← wr_range (stack m) 0 (rs_stack rs);
  char_count ← Bits.get_u32 code (rs_pc rs + 12);
  cptr ← prev_chars (cbuf s) (cbuf_type s) (Z.to_nat char_count) (rs_cptr rs);
  next_pos ← Bits.get_u32 code (rs_pc rs);
  let count := u64 (rs_count rs - 1) in
  let rs' := mkRS (rs_type rs) (rs_stack_len rs) count cptr (rs_pc rs) (rs_capture rs) (rs_stack rs) in
  Ret (mkVM (rs_pc rs + 16 + i32 next_pos) cptr caps st (rs_stack_len rs)
         (if count =? 0 then rest else rs' :: rest) (state_stack_size m) (state_region m)).

(** The loop [recurse:] over the saved states, from the top. *)
Fixpoint recurse (ret : bool) (m : vm) (states : list REExecState) : outcome (vm + exec_result) :=
  match states with
  | [] => Ret (inr (let m := set_states m [] in if ret then RMatch m else RNoMatch m))
  | rs :: rest =>
      match rs_type rs with
      | RE_EXEC_STATE_SPLIT =>
          if ret then recurse ret m rest else inl <$> pop_state m rs rest
      | RE_EXEC_STATE_GREEDY_QUANT =>
          if ret then recurse ret m rest else inl <$> pop_greedy m rs rest
      | RE_EXEC_STATE_LOOKAHEAD =>
          if ret then inl <$> pop_state1 m rs rest else recurse false m rest
      | RE_EXEC_STATE_NEGATIVE_LOOKAHEAD =>
          if ret then recurse false m rest else inl <$> pop_state m rs rest
      end
  end.

(** ** Instructions

    [m] has its [pc] after the opcode. *)

Definition canonicalize (c : Z) : outcome Z :=
  if ignore_case s then lre_canonicalize c (is_utf16 s) else Ret c.

(** [test_char:] *)
Definition test_char (m : vm) (val : Z) : outcome op_result :=
  if cbuf_end s <=? cptr m then Ret (NoMatch m)
  else
    '(c, p) ← get_char (cptr m);
    c ← canonicalize c;
    Ret (if negb (val =? c) then NoMatch (set_cptr m p) else Go (set_cptr m p)).

Definition exec_split (m : vm) (next_first : bool) : outcome op_result :=
  val ← Bits.get_u32 code (pc m);
  let pc := pc m + 4 in
  let '(pc1, pc) := if next_first then (pc + i32 val, pc) else (pc, pc + i32 val) in
  or_fail (push_state m pc1 (cptr m) RE_EXEC_STATE_SPLIT 0) (fun m => Ret (Go (set_pc m pc))).

Definition exec_lookahead (m : vm) (type : REExecStateEnum) : outcome op_result :=
  val ← Bits.get_u32 code (pc m);
  let pc := pc m + 4 in
  or_fail (push_state m (pc + i32 val) (cptr m) type 0) (fun m => Ret (Go (set_pc m pc))).

Definition exec_line_start (m : vm) : outcome op_result :=
  if cptr m =? 0 then Ret (Go m)
  else if negb (multi_line s) then Ret (NoMatch m)
  else c ← peek_prev_char (cptr m); Ret (if is_line_terminator c then Go m else NoMatch m).

Definition exec_line_end (m : vm) : outcome op_result :=
  if cptr m =? cbuf_end s then Ret (Go m)
  else if negb (multi_line s) then Ret (NoMatch m)
  else c ← peek_char (cptr m); Ret (if is_line_terminator c then Go m else NoMatch m).

Definition exec_dot (m : vm) (any : bool) : outcome op_result :=
  if cptr m =? cbuf_end s then Ret (NoMatch m)
  else
    '(c, p) ← get_char (cptr m);
    Ret (if negb any && is_line_terminator c then NoMatch (set_cptr m p) else Go (set_cptr m p)).

Definition exec_save (m : vm) (is_end : Z) : outcome op_result :=
  val ← rd code (pc m);
  _ ← c_assert (val <? capture_count s);
  caps ← wr (capture m) (2 * val + is_end) (Some (cptr m));
  Ret (Go (set_capture (set_pc m (pc m + 1)) caps)).

(** [while (val <= val2)]: clear the captures [val .. val2]. *)
Definition clear_captures (val val2 : Z) (caps : list (option Z)) : outcome (list (option Z)) :=
  foldM (fun caps v => caps ← wr caps (2 * v) None; wr caps (2 * v + 1) None) caps (seqZ val (val2 + 1 - val)).

Definition exec_save_reset (m : vm) : outcome op_result :=
  val ← rd code (pc m);
  val2 ← rd code (pc m + 1);
  _ ← c_assert (val2 <? capture_count s);
  caps ← clear_captures val val2 (capture m);
  Ret (Go (set_capture (set_pc m (pc m + 2)) caps)).

Definition exec_push (m : vm) (v : Z) : outcome op_result :=
  st ← wr (stack m) (stack_len m) v;
  Ret (Go (set_stack m st (stack_len m + 1))).

Definition exec_loop (m : vm) : outcome op_result :=
  val ← Bits.get_u32 code (pc m);
  let m := set_pc m (pc m + 4) in
  v ← rd (stack m) (stack_len m - 1);
  let v := u64 (v - 1) in
  st ← wr (stack m) (stack_len m - 1) v;
  let m := set_stack m st (stack_len m) in
  Ret (Go (if negb (v =? 0) then set_pc m (pc m + i32 val) else m)).

Definition exec_bne_char_pos (m : vm) : outcome op_result :=
  val ← Bits.get_u32 code (pc m);
  let m := set_pc m (pc m + 4) in
  v ← rd (stack m) (stack_len m - 1);
  let m := set_stack m (stack m) (stack_len m - 1) in
  Ret (Go (if negb (v =? cptr m) then set_pc m (pc m + i32 val) else m)).

Definition exec_word_boundary (m : vm) (negated : bool) : outcome op_result :=
  v1 ← (if cptr m =? 0 then Ret false else is_word_char <$> peek_prev_char (cptr m));
  v2 ← (if cbuf_end s <=? cptr m then Ret false else is_word_char <$> peek_char (cptr m));
  Ret (if xorb (xorb v1 v2) (negb negated) then NoMatch m else Go m).

(** The comparison loops of back references: [inl p] is a mismatch with the
    text pointer at [p], [inr p] success. *)
Definition back_reference_loop (cptr1_end : Z) (cptr1 cptr : Z) : outcome (Z + Z) :=
  loop (S (length (cbuf s))) (fun '(cptr1, cptr) =>
    if cptr1 <? cptr1_end then
      if cbuf_end s <=? cptr then Ret (inr (inl cptr))
      else
        '(c1, cptr1) ← GET_CHAR (cbuf s) (cbuf_type s) cptr1 cptr1_end;
        '(c2, cptr) ← get_char cptr;
        c1 ← canonicalize c1;
        c2 ← canonicalize c2;
        if negb (c1 =? c2) then Ret (inr (inl cptr)) else Ret (inl (cptr1, cptr))
    else Ret (inr (inr cptr))) (cptr1, cptr).

Definition backward_back_reference_loop (cptr1_start : Z) (cptr1 cptr : Z) : outcome (Z + Z) :=
  loop (S (length (cbuf s))) (fun '(cptr1, cptr) =>
    if cptr1_start <? cptr1 then
      if cptr =? 0 then Ret (inr (inl cptr))
      else
        '(c1, cptr1) ← GET_PREV_CHAR (cbuf s) (cbuf_type s) cptr1 cptr1_start;
        '(c2, cptr) ← GET_PREV_CHAR (cbuf s) (cbuf_type s) cptr 0;
        c1 ← canonicalize c1;
        c2 ← canonicalize c2;
        if negb (c1 =? c2) then Ret (inr (inl cptr)) else Ret (inl (cptr1, cptr))
    else Ret (inr (inr cptr))) (cptr1, cptr).

Definition exec_back_reference (m : vm) (backward : bool) : outcome op_result :=
  val ← rd code (pc m);
  let m := set_pc m (pc m + 1) in
  if capture_count s <=? val then Ret (NoMatch m)
  else
    cptr1_start ← rd (capture m) (2 * val);
    cptr1_end ← rd (capture m) (2 * val + 1);
    match cptr1_start, cptr1_end with
    | Some cptr1_start, Some cptr1_end =>
        r ← (if backward then backward_back_reference_loop cptr1_start cptr1_end (cptr m)
             else back_reference_loop cptr1_end cptr1_start (cptr m));
        Ret (match r with inl p => NoMatch (set_cptr m p) | inr p => Go (set_cptr m p) end)
    | _, _ => Ret (Go m)
    end.

(** The binary search over [n] ranges of two [w]-byte values at [pc]. *)
Definition range_search (get : list Z -> Z -> outcome Z) (w pc c idx_max : Z) : outcome bool :=
  loop (S (Z.to_nat (idx_max + 1))) (fun '(idx_min, idx_max) =>
    if idx_min <=? idx_max then
      let idx := u32 (idx_min + idx_max) / 2 in
      low ← get code (pc + u32 (idx * (2 * w)));
      high ← get code (pc + u32 (idx * (2 * w)) + w);
      if c <? low then Ret (inl (idx_min, u32 (idx - 1)))
      else if high <? c then Ret (inl (u32 (idx + 1), idx_max))
      else Ret (inr true)
    else Ret (inr false)) (0, idx_max).

(** [REOP_range] ([w = 2], where 0xffff as the last bound means infinity) and
    [REOP_range32] ([w = 4]). *)
Definition exec_range (m : vm) (get : list Z -> Z -> outcome Z) (w : Z) : outcome op_result :=
  n ← Bits.get_u16 code (pc m);
  let pc := pc m + 2 in
  let m := set_pc m pc in
  if cbuf_end s <=? cptr m then Ret (NoMatch m)
  else
    '(c, p) ← get_char (cptr m);
    let m := set_cptr m p in
    c ← canonicalize c;
    low ← get code pc;
    if c <? low then Ret (NoMatch m)
    else
      let idx_max := u32 (n - 1) in
      high ← get code (pc + u32 (idx_max * (2 * w)) + w);
      if (w =? 2) && (0xffff <=? c) && (high =? 0xffff) then Ret (Go (set_pc m (pc + 2 * w * n)))
      else if high <? c then Ret (NoMatch m)
      else
        found ← range_search get w pc c idx_max;
        Ret (if (found : bool) then Go (set_pc m (pc + 2 * w * n)) else NoMatch m).

Definition exec_prev (m : vm) : outcome op_result :=
  if cptr m =? 0 then Ret (NoMatch m)
  else p ← PREV_CHAR (cbuf s) (cbuf_type s) (cptr m) 0; Ret (Go (set_cptr m p)).

(** The arrays and the context after a recursive call. *)
Definition returned (m m' : vm) : vm :=
  mkVM (pc m) (cptr m) (capture m') (stack m') (stack_len m) (state_stack m') (state_stack_size m')
    (state_region m').

(** The [for(;;)] of [REOP_simple_greedy_quant]; [None] is [return -1]. *)
Definition greedy_loop (fuel : nat) (call : vm -> outcome exec_result) (pc1 quant_max : Z) (m : vm)
  : outcome (option (Z * vm)) :=
  loop fuel (fun '(q, m) =>
    res ← call (set_pc m pc1);
    match res with
    | RError => Ret (inr None)
    | RNoMatch m' => Ret (inr (Some (q, returned m m')))
    | RMatch m' =>
        let m := set_cptr (returned m m') (cptr m') in
        let q := u64 (q + 1) in
        if (quant_max <=? q) && negb (quant_max =? INT32_MAX) then Ret (inr (Some (q, m)))
        else Ret (inl (q, m))
    end) (0, m).

Definition exec_simple_greedy_quant (fuel : nat) (call : vm -> outcome exec_result) (m : vm)
  : outcome op_result :=
  next_pos ← Bits.get_u32 code (pc m);
  quant_min ← Bits.get_u32 code (pc m + 4);
  quant_max ← Bits.get_u32 code (pc m + 8);
  let pc1 := pc m + 16 in
  let m := set_pc m (pc1 + i32 next_pos) in
  r ← greedy_loop fuel call pc1 quant_max m;
  match r with
  | None => Ret Failed
  | Some (q, m) =>
      if q <? quant_min then Ret (NoMatch m)
      else if quant_min <? q then
        or_fail (push_state m (pc1 - 16) (cptr m) RE_EXEC_STATE_GREEDY_QUANT (q - quant_min))
          (fun m => Ret (Go m))
      else Ret (Go m)
  end.

Definition exec_op (fuel : nat) (call : vm -> outcome exec_result) (opcode : Z) (m : vm)
  : outcome op_result :=
  match reop_of opcode with
  | Some REOP_match => Ret (Matched m)
  | Some REOP_char32 => val ← Bits.get_u32 code (pc m); test_char (set_pc m (pc m + 4)) val
  | Some REOP_char => val ← Bits.get_u16 code (pc m); test_char (set_pc m (pc m + 2)) val
  | Some REOP_split_goto_first => exec_split m false
  | Some REOP_split_next_first => exec_split m true
  | Some REOP_lookahead => exec_lookahead m RE_EXEC_STATE_LOOKAHEAD
  | Some REOP_negative_lookahead => exec_lookahead m RE_EXEC_STATE_NEGATIVE_LOOKAHEAD
  | Some REOP_goto => val ← Bits.get_u32 code (pc m); Ret (Go (set_pc m (pc m + (4 + i32 val))))
  | Some REOP_line_start => exec_line_start m
  | Some REOP_line_end => exec_line_end m
  | Some REOP_dot => exec_dot m false
  | Some REOP_any => exec_dot m true
  | Some REOP_save_start => exec_save m 0
  | Some REOP_save_end => exec_save m 1
  | Some REOP_save_reset => exec_save_reset m
  | Some REOP_push_i32 => val ← Bits.get_u32 code (pc m); exec_push (set_pc m (pc m + 4)) val
  | Some REOP_drop => Ret (Go (set_stack m (stack m) (stack_len m - 1)))
  | Some REOP_loop => exec_loop m
  | Some REOP_push_char_pos => exec_push m (cptr m)
  | Some REOP_bne_char_pos => exec_bne_char_pos m
  | Some REOP_word_boundary => exec_word_boundary m false
  | Some REOP_not_word_boundary => exec_word_boundary m true
  | Some REOP_back_reference => exec_back_reference m false
  | Some REOP_backward_back_reference => exec_back_reference m true
  | Some REOP_range => exec_range m Bits.get_u16 2
  | Some REOP_range32 => exec_range m Bits.get_u32 4
  | Some REOP_prev => exec_prev m
  | Some REOP_simple_greedy_quant => exec_simple_greedy_quant fuel call m
  | Some REOP_invalid | None => Fault Aborted
  end.

(** One turn of the [for(;;)] of [lre_exec_backtrack]. *)
Definition exec_step (fuel : nat) (call : vm -> outcome exec_result) (no_recurse : bool) (m : vm)
  : outcome (vm + exec_result) :=
  opcode ← rd code (pc m);
  r ← exec_op fuel call opcode (set_pc m (pc m + 1));
  match r with
  | Go m => Ret (inl m)
  | NoMatch m => if no_recurse then Ret (inr (RNoMatch m)) else recurse false m (state_stack m)
  | Matched m => if no_recurse then Ret (inr (RMatch m)) else recurse true m (state_stack m)
  | Failed => Ret (inr RError)
  end.

(** [depth] bounds the recursion through [REOP_simple_greedy_quant], [fuel]
    the instructions of one activation. *)
Fixpoint lre_exec_backtrack (depth fuel : nat) (no_recurse : bool) (m : vm) : outcome exec_result :=
  match depth with
  | O => Fault OutOfFuel
  | S depth => loop fuel (exec_step fuel (lre_exec_backtrack depth fuel true) no_recurse) m
  end.
End Exec.

Section LreExec.
Context `{Allocator}.

(** [sizeof(REExecState)] *)
Definition REExecState_sizeof : Z := 32.

Definition exec_context (bc_buf cbuf : list Z) (clen type : Z) : outcome REExecContext :=
  re_flags ← rd bc_buf RE_HEADER_FLAGS;
  capture_count ← rd bc_buf RE_HEADER_CAPTURE_COUNT;
  stack_size_max ← rd bc_buf RE_HEADER_STACK_SIZE;
  let is_utf16 := has_flag re_flags LRE_FLAG_UTF16 in
  Ret (mkCtx bc_buf cbuf (Z.shiftl clen type) (if (type =? 1) && is_utf16 then 2 else type)
    capture_count stack_size_max (has_flag re_flags LRE_FLAG_MULTILINE)
    (has_flag re_flags LRE_FLAG_IGNORECASE) is_utf16
    (REExecState_sizeof + capture_count * 8 * 2 + stack_size_max * 8)).

(** The state [lre_exec] starts with. *)
Definition exec_start (s : REExecContext) (capture : list (option Z)) (cptr : Z) : outcome vm :=
  capture ← wr_range capture 0 (replicate (Z.to_nat (capture_count s * 2)) None);
  Ret (mkVM RE_HEADER_LEN cptr capture (replicate (Z.to_nat (stack_size_max s)) 0) 0 [] 0 []).

(** [lre_exec(capture, bc_buf, cbuf, cindex, clen, cbuf_type)]: the return
    value and the captures ([None] after an error). *)
Definition lre_exec (fuel : nat) (capture : list (option Z)) (bc_buf cbuf : list Z)
  (cindex clen type : Z) : outcome (Z * option (list (option Z))) :=
  s ← exec_context bc_buf cbuf clen type;
  m ← exec_start s capture (Z.shiftl cindex type);
  r ← lre_exec_backtrack s 2 fuel false m;
  Ret (match r with
       | RError => (-1, None)
       | RNoMatch m => (0, Some (RegexpExec.capture m))
       | RMatch m => (1, Some (RegexpExec.capture m))
       end).
End LreExec.
