(* ===== verification/RegexpParse.v ===== *)
(** * Regular expressions: the parser's lexical level ([libregexp.c])

    The state of the compiler, the emission of code, numbers, escapes,
    character classes, group names and the two analyses of emitted code.

    A function that returns a negative [int] on errors is a [parser]: [None] is
    the error return (the message is in the state).  A pointer into the pattern
    is an offset; a [const uint8_t **pp] argument is a value passed and
    returned.  A [CharRange] that is not initialised, or was released, is
    [None]. *)

From S2P Require Import Prelude Cutils DynBuf Utf8 CharRange UnicodeLookup UniProps RegexpOp.

Record REParseState := mkPS {
  byte_code : DynBuf;
  src : list Z;             (* the memory of the pattern, zero-terminated *)
  buf_ptr : Z;
  buf_end : Z;
  re_flags : Z;
  is_utf16 : bool;
  ignore_case : bool;
  dotall : bool;
  capture_count : Z;
  total_capture_count : Z;  (* -1 = not computed yet *)
  has_named_captures : Z;   (* -1 = don't know, 0 = no, 1 = yes *)
  group_names : DynBuf;
  u_buf : list Z;           (* the union of error_msg and tmp_buf *)
}.

Definition set_byte_code (s : REParseState) (b : DynBuf) : REParseState :=
  mkPS b (src s) (buf_ptr s) (buf_end s) (re_flags s) (is_utf16 s) (ignore_case s) (dotall s)
    (capture_count s) (total_capture_count s) (has_named_captures s) (group_names s) (u_buf s).
Definition set_buf_ptr (s : REParseState) (p : Z) : REParseState :=
  mkPS (byte_code s) (src s) p (buf_end s) (re_flags s) (is_utf16 s) (ignore_case s) (dotall s)
    (capture_count s) (total_capture_count s) (has_named_captures s) (group_names s) (u_buf s).
Definition set_capture_count (s : REParseState) (n : Z) : REParseState :=
  mkPS (byte_code s) (src s) (buf_ptr s) (buf_end s) (re_flags s) (is_utf16 s) (ignore_case s) (dotall s)
    n (total_capture_count s) (has_named_captures s) (group_names s) (u_buf s).
Definition set_counts (s : REParseState) (total named : Z) : REParseState :=
  mkPS (byte_code s) (src s) (buf_ptr s) (buf_end s) (re_flags s) (is_utf16 s) (ignore_case s) (dotall s)
    (capture_count s) total named (group_names s) (u_buf s).
Definition set_group_names (s : REParseState) (b : DynBuf) : REParseState :=
  mkPS (byte_code s) (src s) (buf_ptr s) (buf_end s) (re_flags s) (is_utf16 s) (ignore_case s) (dotall s)
    (capture_count s) (total_capture_count s) (has_named_captures s) b (u_buf s).
Definition set_u_buf (s : REParseState) (b : list Z) : REParseState :=
  mkPS (byte_code s) (src s) (buf_ptr s) (buf_end s) (re_flags s) (is_utf16 s) (ignore_case s) (dotall s)
    (capture_count s) (total_capture_count s) (has_named_captures s) (group_names s) b.

(** ** The parser monad *)

Definition parser (A : Type) : Type := REParseState -> outcome (option A * REParseState).

Definition pret {A} (a : A) : parser A := fun s => Ret (Some a, s).
Definition pfail {A} : parser A := fun s => Ret (None, s).
Definition pbind {A B} (m : parser A) (k : A -> parser B) : parser B := fun s =>
  '(r, s) ← m s;
  match r with Some a => k a s | None => Ret (None, s) end.
Definition plift {A} (m : outcome A) : parser A := fun s => a ← m; Ret (Some a, s).
Definition pget : parser REParseState := fun s => Ret (Some s, s).
Definition pmod (f : REParseState -> REParseState) : parser () := fun s => Ret (Some (), f s).

Declare Scope parser_scope.
Delimit Scope parser_scope with parser.
Notation "'let*' x ':=' m 'in' k" := (pbind m (fun x => k))
  (at level 200, x name, m at level 100, k at level 200, right associativity) : parser_scope.
Notation "'let*' ' x ':=' m 'in' k" := (pbind m (fun x => k))
  (at level 200, x strict pattern, m at level 100, k at level 200, right associativity) : parser_scope.
Notation "'do*' m 'in' k" := (pbind m (fun _ => k))
  (at level 200, m at level 100, k at level 200, right associativity) : parser_scope.
#[local] Open Scope parser_scope.

(** [for(;;)] in the parser. *)
Fixpoint ploop {S R : Type} (fuel : nat) (body : S -> parser (S + R)) (x : S) : parser R :=
  match fuel with
  | O => plift (Fault OutOfFuel)
  | Datatypes.S fuel' =>
      let* r := body x in
      match r with inl x' => ploop fuel' body x' | inr r => pret r end
  end.

(** [*p] for a pointer into the pattern. *)
Definition peek (p : Z) : parser Z := fun s => c ← rd (src s) p; Ret (Some c, s).

(** [re_parse_error(s, msg)]: the text, truncated, replaces the start of the
    shared buffer. *)
Definition re_parse_error {A} (msg : list Z) : parser A := fun s =>
  b ← wr_range (u_buf s) 0 (take (Z.to_nat (TMP_BUF_SIZE - 1)) msg ++ [0]);
  Ret (None, set_u_buf s b).

Definition re_parse_out_of_memory {A} : parser A := re_parse_error (str "out of memory").

(** [if (p[0] != c) error "expecting 'c'"]; the pointer after it. *)
Definition re_parse_expect (p c : Z) : parser Z :=
  let* x := peek p in
  if negb (x =? c) then re_parse_error (str "expecting '" ++ [c] ++ str "'") else pret (p + 1).

Section Parse.
Context `{Allocator}.

(** ** Emission of code

    The return values of the [dbuf_put*] calls are ignored: a failure is kept
    in the error flag of the buffer. *)

Definition on_code {A} (f : DynBuf -> outcome (A * DynBuf)) : parser A := fun s =>
  '(r, b) ← f (byte_code s);
  Ret (Some r, set_byte_code s b).

Definition code_size : parser Z := let* s := pget in pret (size (byte_code s)).

Definition re_emit_op (op : Z) : parser () := do* on_code (fun b => dbuf_putc b op) in pret ().

(** The offset of the u32 value. *)
Definition re_emit_op_u32 (op val : Z) : parser Z :=
  do* on_code (fun b => dbuf_putc b op) in
  let* pos := code_size in
  do* on_code (fun b => dbuf_put_u32 b val) in
  pret pos.

Definition re_emit_goto (op val : Z) : parser Z :=
  do* on_code (fun b => dbuf_putc b op) in
  let* pos := code_size in
  do* on_code (fun b => dbuf_put_u32 b (u32 (val - (pos + 4)))) in
  pret pos.

Definition re_emit_op_u8 (op val : Z) : parser () :=
  do* on_code (fun b => dbuf_putc b op) in
  do* on_code (fun b => dbuf_putc b val) in
  pret ().

Definition re_emit_op_u16 (op val : Z) : parser () :=
  do* on_code (fun b => dbuf_putc b op) in
  do* on_code (fun b => dbuf_put_u16 b val) in
  pret ().

(** [s->byte_code.buf[pos] = v] and [put_u32(s->byte_code.buf + pos, v)]. *)
Definition code_set (pos v : Z) : parser () :=
  on_code (fun b => m ← wr (buf b) pos (u8 v); Ret ((), set_buf b m)).
Definition code_put_u32 (pos v : Z) : parser () :=
  on_code (fun b => m ← Bits.put_u32 (buf b) pos v; Ret ((), set_buf b m)).

(** ** Numbers and escapes *)

(** [parse_digits(&p, allow_overflow)]: the value, or -1, and the pointer
    ([*pp] is unchanged on overflow). *)
Definition parse_digits (mem : list Z) (p0 : Z) (allow_overflow : bool) : outcome (Z * Z) :=
  loop (S (length mem)) (fun '(p, v) =>
    c ← rd mem p;
    if (c <? ch "0") || (ch "9" <? c) then Ret (inr (i32 v, p))
    else
      let v := u64 (v * 10 + c - ch "0") in
      if INT32_MAX <=? v then
        if allow_overflow then Ret (inl (p + 1, INT32_MAX)) else Ret (inr (-1, p0))
      else Ret (inl (p + 1, v))) (p0, 0).

(** Results of the parts of [lre_parse_escape]: the character and the pointer
    after it; [None] is the return value -1. *)

(** ['{' digits '}'], [p] after the brace. *)
Definition escape_braces (mem : list Z) (p : Z) : outcome (option (Z * Z)) :=
  loop (S (length mem)) (fun '(p, c) =>
    x ← rd mem p;
    let h := Bits.from_hex x in
    if h <? 0 then Ret (inr None)
    else
      let c := Z.lor (u32 (Z.shiftl c 4)) h in
      if 0x10FFFF <? c then Ret (inr None)
      else
        y ← rd mem (p + 1);
        if y =? ch "}" then Ret (inr (Some (c, p + 2))) else Ret (inl (p + 1, c))) (p, 0).

(** [n] hexadecimal digits. *)
Fixpoint escape_hex (mem : list Z) (n : nat) (p c : Z) : outcome (option (Z * Z)) :=
  match n with
  | O => Ret (Some (c, p))
  | S n =>
      x ← rd mem p;
      let h := Bits.from_hex x in
      if h <? 0 then Ret None else escape_hex mem n (p + 1) (Z.lor (u32 (Z.shiftl c 4)) h)
  end.

(** The second half of an escaped surrogate pair, if there is one. *)
Definition escape_surrogate (mem : list Z) (p c : Z) : outcome (Z * Z) :=
  c0 ← rd mem p;
  if negb (c0 =? ch "\") then Ret (c, p)
  else
    c1 ← rd mem (p + 1);
    if negb (c1 =? ch "u") then Ret (c, p)
    else
      r ← escape_hex mem 4 (p + 2) 0;
      match r with
      | Some (c1, _) =>
          if (0xdc00 <=? c1) && (c1 <? 0xe000)
          then Ret (Z.lor (Z.shiftl (Z.land c 0x3ff) 10) (Z.land c1 0x3ff) + 0x10000, p + 6)
          else Ret (c, p)
      | None => Ret (c, p)
      end.

(** ['x'] and ['u'], [p] after the letter. *)
Definition escape_code (mem : list Z) (p letter allow_utf16 : Z) : outcome (option (Z * Z)) :=
  x ← rd mem p;
  if (x =? ch "{") && negb (allow_utf16 =? 0) then escape_braces mem (p + 1)
  else
    r ← escape_hex mem (if letter =? ch "x" then 2%nat else 4%nat) p 0;
    match r with
    | None => Ret None
    | Some (c, p) =>
        if (0xd800 <=? c) && (c <? 0xdc00) && (allow_utf16 =? 2)
        then Some <$> escape_surrogate mem p c else Ret (Some (c, p))
    end.

(** A digit, [p] after it: [\0] only with [allow_utf16 = 2], otherwise up to
    three octal digits below 256. *)
Definition escape_octal (mem : list Z) (p c allow_utf16 : Z) : outcome (option (Z * Z)) :=
  x ← rd mem p;
  if allow_utf16 =? 2 then
    if negb (c =? 0) || is_digit x then Ret None else Ret (Some (c, p))
  else
    let v := u32 (x - ch "0") in
    if 7 <? v then Ret (Some (c, p))
    else
      let c := Z.lor (Z.shiftl c 3) v in
      if 32 <=? c then Ret (Some (c, p + 1))
      else
        x ← rd mem (p + 1);
        let v := u32 (x - ch "0") in
        if 7 <? v then Ret (Some (c, p + 1)) else Ret (Some (Z.lor (Z.shiftl c 3) v, p + 2)).

(** [lre_parse_escape(&p, allow_utf16)]: the return value (the character, -1
    or -2) and the pointer. *)
Definition lre_parse_escape (mem : list Z) (p0 allow_utf16 : Z) : outcome (Z * Z) :=
  c ← rd mem p0;
  let p := p0 + 1 in
  let malformed r := Ret (match r with None => (-1, p0) | Some (c, p) => (c, p) end) in
  if c =? ch "b" then Ret (8, p)
  else if c =? ch "f" then Ret (12, p)
  else if c =? ch "n" then Ret (10, p)
  else if c =? ch "r" then Ret (13, p)
  else if c =? ch "t" then Ret (9, p)
  else if c =? ch "v" then Ret (11, p)
  else if (c =? ch "x") || (c =? ch "u") then r ← escape_code mem p c allow_utf16; malformed r
  else if in_chars (ch "0") c (ch "7") then r ← escape_octal mem p (c - ch "0") allow_utf16; malformed r
  else Ret (-2, p0).

(** ** Unicode properties *)

Definition is_unicode_char (c : Z) : bool :=
  in_chars (ch "0") c (ch "9") || in_chars (ch "A") c (ch "Z") || in_chars (ch "a") c (ch "z") ||
  (c =? ch "_").

(** [!strcmp(a, b)] *)
Fixpoint streq (a b : list Z) : outcome bool :=
  match a, b with
  | x :: a, y :: b => if x =? y then if x =? 0 then Ret true else streq a b else Ret false
  | _, _ => Fault OutOfBounds
  end.

Definition name_is (name : list Z) (lit : string) : outcome bool := streq name (str lit ++ [0]).

(** Copy the name at [p] into the array [name] of 64 bytes, zero-terminated:
    the array and the pointer after the name, or [None] when it is too long. *)
Definition property_chars (mem : list Z) (p : Z) (name : list Z) : outcome (option (list Z * Z)) :=
  loop (S (length mem)) (fun '(p, q, name) =>
    c ← rd mem p;
    if is_unicode_char c then
      if zlen name - 1 <? q then Ret (inr None)
      else name ← wr name q c; Ret (inl (p + 1, q + 1, name))
    else name ← wr name q 0; Ret (inr (Some (name, p)))) (p, 0, name).

(** The set of the property [name=value]: the return value of the [unicode_*]
    function and the set, [None] when the name is not known. *)
Definition property_set (name value : list Z) : outcome (option (Z * CharRange * string)) :=
  script ← name_is name "Script"; sc ← name_is name "sc";
  script_ext ← name_is name "Script_Extensions"; scx ← name_is name "scx";
  general ← name_is name "General_Category"; gc ← name_is name "gc";
  no_value ← name_is value "";
  if (script : bool) || (sc : bool) then
    '(r, cr) ← unicode_script 1 cr_init value false; Ret (Some (r, cr, "unknown unicode script"%string))
  else if (script_ext : bool) || (scx : bool) then
    '(r, cr) ← unicode_script 1 cr_init value true; Ret (Some (r, cr, "unknown unicode script"%string))
  else if (general : bool) || (gc : bool) then
    '(r, cr) ← unicode_general_category cr_init value;
    Ret (Some (r, cr, "unknown unicode general category"%string))
  else if (no_value : bool) then
    '(r, cr) ← unicode_general_category cr_init name;
    if r =? -1 then Ret (Some (-1, cr, ""%string))
    else if r <? 0 then
      '(r, cr) ← unicode_prop cr name; Ret (Some (r, cr, "unknown unicode property name"%string))
    else Ret (Some (r, cr, ""%string))
  else Ret None.

(** The set and the pointer after the property. *)
Definition parse_unicode_property (p : Z) (is_inv : bool) : parser (CharRange * Z) :=
  let unknown_property_name := re_parse_error (str "unknown unicode property name") in
  let* s := pget in
  let* c := peek p in
  if negb (c =? ch "{") then re_parse_error (str "expecting '{' after \p")
  else
    let* r := plift (property_chars (src s) (p + 1) (replicate 64 0)) in
    match r with
    | None => unknown_property_name
    | Some (name, p) =>
        let* c := peek p in
        let* r := plift (if c =? ch "=" then property_chars (src s) (p + 1) (replicate 64 0)
                         else Ret (Some (replicate 64 0, p))) in
        match r with
        | None => re_parse_error (str "unknown unicode property value")
        | Some (value, p) =>
            let* c := peek p in
            if negb (c =? ch "}") then re_parse_error (str "expecting '}'")
            else
              let p := p + 1 in
              let* r := plift (property_set name value) in
              match r with
              | None => unknown_property_name
              | Some (r, cr, unknown) =>
                  if r =? -2 then re_parse_error (str unknown)
                  else if negb (r =? 0) then re_parse_out_of_memory
                  else if is_inv then
                    let* '(r, cr) := plift (cr_invert cr) in
                    if negb (r =? 0) then pfail else pret (cr, p)
                  else pret (cr, p)
              end
        end
    end.

(** ** Character classes *)

Definition syntax_chars : list Z := str "^$\.*+?()[]{}|/".

(** [normal_char:] a character of the pattern, not an escape. *)
Definition class_normal_char (c p : Z) : parser (Z * Z) :=
  if 128 <=? c then
    let* s := pget in
    let* r := plift (unicode_from_utf8 (src s) p UTF8_CHAR_LEN_MAX) in
    match r with
    | None => if is_utf16 s then pfail else re_parse_error (str "malformed unicode char")
    | Some (c, p) =>
        if (0xffff <? c) && negb (is_utf16 s) then re_parse_error (str "malformed unicode char")
        else pret (c, p)
    end
  else pret (c, p + 1).

(** The [switch] on the letter [c] after a backslash, [p] after it. *)
Definition class_escape (cr : option CharRange) (c p : Z) (inclass : bool)
  : parser (Z * Z * option CharRange) :=
  let* s := pget in
  let class_range r :=
    let* '(ret, cr) := plift (cr_init_char_range r) in
    if negb (ret =? 0) then pfail else pret (CLASS_RANGE_BASE, p, cr) in
  let invalid_escape := re_parse_error (str "invalid escape sequence in regular expression") in
  if c =? ch "d" then class_range CHAR_RANGE_d
  else if c =? ch "D" then class_range CHAR_RANGE_D
  else if c =? ch "s" then class_range CHAR_RANGE_s
  else if c =? ch "S" then class_range CHAR_RANGE_S
  else if c =? ch "w" then class_range CHAR_RANGE_w
  else if c =? ch "W" then class_range CHAR_RANGE_W
  else if c =? ch "c" then
    let* c := peek p in
    if in_chars (ch "a") c (ch "z") || in_chars (ch "A") c (ch "Z") ||
       ((in_chars (ch "0") c (ch "9") || (c =? ch "_")) && inclass && negb (is_utf16 s))
    then pret (Z.land c 0x1f, p + 1, cr)
    else if is_utf16 s then invalid_escape
    else pret (ch "\", p - 1, cr)
  else if ((c =? ch "p") || (c =? ch "P")) && is_utf16 s then
    let* '(cr, p) := parse_unicode_property p (c =? ch "P") in
    pret (CLASS_RANGE_BASE, p, Some cr)
  else
    let p := p - 1 in
    let* '(ret, p1) := plift (lre_parse_escape (src s) p (b2z (is_utf16 s) * 2)) in
    if 0 <=? ret then pret (ret, p1, cr)
    else
      let* x := peek p in
      if (ret =? -2) && negb (x =? 0) && bool_decide (x ∈ syntax_chars) then
        let* '(c, p) := class_normal_char c p in pret (c, p, cr)
      else if is_utf16 s then invalid_escape
      else let* '(c, p) := class_normal_char c p in pret (c, p, cr).

(** [get_class_atom(s, cr, &p, inclass)]: a character, or [CLASS_RANGE_BASE]
    with the set in [cr]. *)
Definition get_class_atom (cr : option CharRange) (p : Z) (inclass : bool)
  : parser (Z * Z * option CharRange) :=
  let* s := pget in
  let* c := peek p in
  if c =? ch "\" then
    let p := p + 1 in
    if buf_end s <=? p then re_parse_error (str "unexpected end")
    else let* c := peek p in class_escape cr c (p + 1) inclass
  else if (c =? 0) && (buf_end s <=? p) then re_parse_error (str "unexpected end")
  else let* '(c, p) := class_normal_char c p in pret (c, p, cr).

(** The ranges of a set from index [i] on, [n] of them, as 16-bit pairs with
    0xffff for an infinite bound, or as 32-bit pairs. *)
Fixpoint re_emit_range16 (points : list Z) (n : nat) (i : Z) : parser () :=
  match n with
  | O => pret ()
  | S n =>
      let* low := plift (rd points i) in
      do* on_code (fun b => dbuf_put_u16 b low) in
      let* high := plift (rd points (i + 1)) in
      let high := u32 (high - 1) in
      let high := if high =? UINT32_MAX - 1 then 0xffff else high in
      do* on_code (fun b => dbuf_put_u16 b high) in
      re_emit_range16 points n (i + 2)
  end.

Fixpoint re_emit_range32 (points : list Z) (n : nat) (i : Z) : parser () :=
  match n with
  | O => pret ()
  | S n =>
      let* low := plift (rd points i) in
      do* on_code (fun b => dbuf_put_u32 b low) in
      let* high := plift (rd points (i + 1)) in
      do* on_code (fun b => dbuf_put_u32 b (u32 (high - 1))) in
      re_emit_range32 points n (i + 2)
  end.

Definition re_emit_range (cr : CharRange) : parser () :=
  let len := u32 (CharRange.len cr) / 2 in
  let n := Z.to_nat ((CharRange.len cr + 1) / 2) in
  if 65535 <=? len then re_parse_error (str "too many ranges")
  else if len =? 0 then
    do* re_emit_op_u32 (reop REOP_char32) UINT32_MAX in pret ()
  else
    let* high := plift (rd (points cr) (CharRange.len cr - 1)) in
    let* high := (if high =? UINT32_MAX then plift (rd (points cr) (CharRange.len cr - 2)) else pret high) in
    if high <=? 0xffff then
      do* re_emit_op_u16 (reop REOP_range) len in re_emit_range16 (points cr) n 0
    else
      do* re_emit_op_u16 (reop REOP_range32) len in re_emit_range32 (points cr) n 0.

(** A range that must be initialised. *)
Definition initialised (cr : option CharRange) : parser CharRange :=
  match cr with Some cr => pret cr | None => plift (Fault Uninitialised) end.

(** [ret] of a range operation: out of memory when it is not zero. *)
Definition range_op (m : outcome (Z * CharRange)) : parser CharRange :=
  let* '(r, cr) := plift m in
  if negb (r =? 0) then re_parse_out_of_memory else pret cr.

(** [class_atom:] add the character [c1], or the set [cr1], to [cr]. *)
Definition class_add (cr : CharRange) (c1 : Z) (cr1 : option CharRange)
  : parser (CharRange * option CharRange) :=
  if CLASS_RANGE_BASE <=? c1 then
    let* cr1 := initialised cr1 in
    let* cr := range_op (cr_union1 cr (points cr1) (CharRange.len cr1)) in
    pret (cr, None)
  else let* cr := range_op (cr_union_interval cr c1 c1) in pret (cr, cr1).

(** One turn of the loop over the atoms of a class. *)
Definition char_class_step (x : Z * CharRange * option CharRange)
  : parser (Z * CharRange * option CharRange + Z * CharRange) :=
  let '(p, cr, cr1) := x in
  let invalid_class_range := re_parse_error (str "invalid class range") in
  let* c := peek p in
  if c =? ch "]" then pret (inr (p, cr))
  else
    let* s := pget in
    let* '(c1, p, cr1) := get_class_atom cr1 p true in
    let class_atom cr1 := let* '(cr, cr1) := class_add cr c1 cr1 in pret (inl (p, cr, cr1)) in
    let* c := peek p in
    let* c' := (if c =? ch "-" then peek (p + 1) else pret (ch "]")) in
    if (c =? ch "-") && negb (c' =? ch "]") then
      if CLASS_RANGE_BASE <=? c1 then
        if is_utf16 s then do* initialised cr1 in invalid_class_range else class_atom cr1
      else
        let* '(c2, p0, cr1) := get_class_atom cr1 (p + 1) true in
        if CLASS_RANGE_BASE <=? c2 then
          do* initialised cr1 in
          if is_utf16 s then invalid_class_range else class_atom None
        else if c2 <? c1 then invalid_class_range
        else
          let* cr := range_op (cr_union_interval cr c1 c2) in pret (inl (p0, cr, cr1))
    else class_atom cr1.

(** [re_parse_char_class(s, &p)]: the pointer after the class. *)
Definition re_parse_char_class (p : Z) : parser Z :=
  let* s := pget in
  let p := p + 1 in
  let* c := peek p in
  let '(invert, p) := if c =? ch "^" then (true, p + 1) else (false, p) in
  let* '(p, cr) := ploop (S (length (src s))) char_class_step (p, cr_init, None) in
  let* cr := (if ignore_case s then range_op (cr_canonicalize cr) else pret cr) in
  let* cr := (if invert then range_op (cr_invert cr) else pret cr) in
  do* re_emit_range cr in
  pret (p + 1).

(** ** Analyses of emitted code

    [mem] holds the code, [off] is [bc_buf]. *)

(** The size of the instruction at [off + pos] with its opcode. *)
Definition instr_len (mem : list Z) (off pos : Z) : outcome (option REOPCodeEnum * Z) :=
  opcode ← rd mem (off + pos);
  len ← reopcode_size opcode;
  match reop_of opcode with
  | Some REOP_range => val ← Bits.get_u16 mem (off + pos + 1); Ret (Some REOP_range, len + val * 4)
  | Some REOP_range32 => val ← Bits.get_u16 mem (off + pos + 1); Ret (Some REOP_range32, len + val * 8)
  | op => Ret (op, len)
  end.

(** [capture_bitmap[i] |= bit] *)
Definition bitmap_or (bitmap : list Z) (i bit : Z) : outcome (list Z) :=
  v ← rd bitmap i; wr bitmap i (Z.lor v bit).

(** The [switch] of [re_check_advance] on the instruction at [pos]. *)
Definition check_advance_op (mem : list Z) (p : Z) (op : option REOPCodeEnum) (ret : Z)
  (has_back_reference : bool) (bitmap : list Z) : outcome (Z * bool * list Z) :=
  match op with
  | Some (REOP_range | REOP_range32 | REOP_char | REOP_char32 | REOP_dot | REOP_any) =>
      Ret (if ret =? -2 then 1 else ret, has_back_reference, bitmap)
  | Some (REOP_line_start | REOP_line_end | REOP_push_i32 | REOP_push_char_pos | REOP_drop
         | REOP_word_boundary | REOP_not_word_boundary | REOP_prev) =>
      Ret (ret, has_back_reference, bitmap)
  | Some (REOP_save_start | REOP_save_end) =>
      val ← rd mem (p + 1);
      bitmap ← bitmap_or bitmap val 1;
      Ret (ret, has_back_reference, bitmap)
  | Some REOP_save_reset =>
      val ← rd mem (p + 1);
      last ← rd mem (p + 2);
      bitmap ← foldM (fun bitmap v => bitmap_or bitmap v 1) bitmap (seqZ val (last - val));
      Ret (ret, has_back_reference, bitmap)
  | Some (REOP_back_reference | REOP_backward_back_reference) =>
      val ← rd mem (p + 1);
      bitmap ← bitmap_or bitmap val 2;
      Ret (ret, true, bitmap)
  | _ => Ret (if ret =? -2 then 0 else ret, has_back_reference, bitmap)
  end.

(** [re_check_advance(bc_buf, bc_buf_len)]: 1 if the code always advances, 0
    if it may not, -1 if it depends on its previous execution. *)
Definition re_check_advance (mem : list Z) (off bc_buf_len : Z) : outcome Z :=
  '(ret, has_back_reference, bitmap) ← loop (S (length mem)) (fun '(pos, ret, has, bitmap) =>
    if pos <? bc_buf_len then
      '(op, len) ← instr_len mem off pos;
      '(ret, has, bitmap) ← check_advance_op mem (off + pos) op ret has bitmap;
      Ret (inl (pos + len, ret, has, bitmap))
    else Ret (inr (ret, has, bitmap))) (0, -2, false, replicate (Z.to_nat CAPTURE_COUNT_MAX) 0);
  Ret (if has_back_reference && bool_decide (3 ∈ bitmap) then -1
       else if ret =? -2 then 0 else ret).

(** [re_is_simple_quantifier(bc_buf, bc_buf_len)]: the number of characters
    the code consumes, or -1. *)
Definition re_is_simple_quantifier (mem : list Z) (off bc_buf_len : Z) : outcome Z :=
  loop (S (length mem)) (fun '(pos, count) =>
    if pos <? bc_buf_len then
      '(op, len) ← instr_len mem off pos;
      match op with
      | Some (REOP_range | REOP_range32 | REOP_char | REOP_char32 | REOP_dot | REOP_any) =>
          Ret (inl (pos + len, count + 1))
      | Some (REOP_line_start | REOP_line_end | REOP_word_boundary | REOP_not_word_boundary) =>
          Ret (inl (pos + len, count))
      | _ => Ret (inr (-1))
      end
    else Ret (inr count)) (0, 0).

(** ** Group names and captures *)

(** [re_parse_group_name(buf, buf_size, &p, is_utf16)]: the pointer after the
    ['>'] ([None]: return value -1) and the array. *)
Definition re_parse_group_name (mem : list Z) (buf : list Z) (p : Z) (is_utf16 : bool)
  : outcome (option Z * list Z) :=
  loop (S (length mem)) (fun '(p, q, buf) =>
    c ← rd mem p;
    if c =? ch ">" then
      if q =? 0 then Ret (inr (None, buf))
      else buf ← wr buf q 0; Ret (inr (Some (p + 1), buf))
    else
      '(c, p) ← (if c =? ch "\" then
                   u ← rd mem (p + 1);
                   if negb (u =? ch "u") then Ret (UINT32_MAX, p)
                   else '(c, p) ← lre_parse_escape mem (p + 1) (b2z is_utf16 * 2); Ret (u32 c, p)
                 else if 128 <=? c then
                   r ← unicode_from_utf8 mem p UTF8_CHAR_LEN_MAX;
                   Ret (match r with None => (UINT32_MAX, p) | Some (c, p) => (c, p) end)
                 else Ret (c, p + 1));
      if 0x10FFFF <? c then Ret (inr (None, buf))
      else
        ok ← (if q =? 0 then lre_js_is_ident_first c else lre_js_is_ident_next c);
        if negb ok then Ret (inr (None, buf))
        else if zlen buf <? q + UTF8_CHAR_LEN_MAX + 1 then Ret (inr (None, buf))
        else if c <? 128 then buf ← wr buf q c; Ret (inl (p, q + 1, buf))
        else
          let bytes := unicode_to_utf8 c in
          buf ← wr_range buf q bytes; Ret (inl (p, q + zlen bytes, buf))) (p, 0, buf).

(** The end of a class in the scan for captures, [p] after the bracket. *)
Definition skip_class (mem : list Z) (buf_end p : Z) : outcome Z :=
  loop (S (length mem)) (fun p =>
    if p <? buf_end then
      c ← rd mem p;
      if c =? ch "]" then Ret (inr p)
      else Ret (inl (if c =? ch "\" then p + 2 else p + 1))
    else Ret (inr p)) p.

(** A ['('] at [p] in that scan: [inl] the answer, or the next pointer, index
    and flag. *)
Definition captures_paren (s : REParseState) (capture_name : option (list Z)) (p capture_index named : Z)
  : outcome (Z * Z + Z * Z * Z) :=
  c1 ← rd (src s) (p + 1);
  if negb (c1 =? ch "?") then Ret (inr (p, capture_index + 1, named))
  else
    c2 ← rd (src s) (p + 2);
    if negb (c2 =? ch "<") then Ret (inr (p, capture_index, named))
    else
      c3 ← rd (src s) (p + 3);
      if (c3 =? ch "=") || (c3 =? ch "!") then Ret (inr (p, capture_index, named))
      else
        match capture_name with
        | None => Ret (inr (p, capture_index + 1, 1))
        | Some capture_name =>
            '(r, name) ← re_parse_group_name (src s) (replicate (Z.to_nat TMP_BUF_SIZE) 0) (p + 3) (is_utf16 s);
            match r with
            | None => Ret (inr (p + 3, capture_index + 1, 1))
            | Some p =>
                found ← streq name capture_name;
                if (found : bool) then Ret (inl (capture_index, 1)) else Ret (inr (p, capture_index + 1, 1))
            end
        end.

(** [re_parse_captures(s, &has_named_captures, capture_name)]: the return
    value and the flag. *)
Definition re_parse_captures (s : REParseState) (capture_name : option (list Z)) : outcome (Z * Z) :=
  loop (S (length (src s))) (fun '(p, capture_index, named) =>
    if p <? buf_end s then
      c ← rd (src s) p;
      if c =? ch "(" then
        r ← captures_paren s capture_name p capture_index named;
        Ret (match r with
             | inl found => inr found
             | inr (p, capture_index, named) => inl (p + 1, capture_index, named)
             end)
      else if c =? ch "\" then Ret (inl (p + 2, capture_index, named))
      else if c =? ch "[" then
        p ← skip_class (src s) (buf_end s) (p + (1 + b2z (c =? ch "]")));
        Ret (inl (p + 1, capture_index, named))
      else Ret (inl (p + 1, capture_index, named))
    else Ret (inr (match capture_name with Some _ => -1 | None => capture_index end, named)))
  (0, 1, 0).

Definition re_count_captures : parser Z :=
  let* s := pget in
  if total_capture_count s <? 0 then
    let* '(total, named) := plift (re_parse_captures s None) in
    do* pmod (fun s => set_counts s total named) in pret total
  else pret (total_capture_count s).

Definition re_has_named_captures : parser bool :=
  let* s := pget in
  do* (if has_named_captures s <? 0 then do* re_count_captures in pret () else pret ()) in
  let* s := pget in
  pret (negb (has_named_captures s =? 0)).

(** [find_group_name(s, name)]: the index of the capture of that name, or -1. *)
Definition find_group_name (s : REParseState) (name : list Z) : outcome Z :=
  let names := buf (group_names s) in
  name_len ← CStr.strlen name 0;
  loop (S (length names)) (fun '(p, capture_index) =>
    if p <? size (group_names s) then
      len ← CStr.strlen names p;
      eq ← (if len =? name_len then CStr.memcmp_eq name 0 names p name_len else Ret false);
      if (eq : bool) then Ret (inr capture_index) else Ret (inl (p + (len + 1), capture_index + 1))
    else Ret (inr (-1))) (0, 1).
End Parse.
