(* ===== verification/RegexpCompile.v ===== *)
(** * Regular expressions: the compiler ([re_parse_term] to [lre_compile] of
    [libregexp.c])

    The mutual recursion of term, alternative and disjunction is a fixpoint on
    the nesting depth.  Lengths and offsets of code are those of the source;
    code already emitted is moved and patched in place. *)

From S2P Require Import Prelude Cutils DynBuf Utf8 CharRange RegexpOp RegexpParse.
#[local] Open Scope parser_scope.

Section Compile.
Context `{Allocator}.

(** What the first [switch] of [re_parse_term] leaves: [p], [last_atom_start]
    (-1 if the term cannot be repeated) and [last_capture_count]. *)
Definition term : Type := Z * Z * Z.

Definition code_buf : parser (list Z) := let* s := pget in pret (buf (byte_code s)).

Definition emit_prev (is_backward_dir : bool) : parser () :=
  if is_backward_dir then re_emit_op (reop REOP_prev) else pret ().

(** [normal_char:] *)
Definition term_normal_char (c p : Z) (cr : option CharRange) (is_backward_dir : bool) : parser term :=
  let* s := pget in
  do* emit_prev is_backward_dir in
  do* (if CLASS_RANGE_BASE <=? c then let* cr := initialised cr in re_emit_range cr
       else
         let* c := (if ignore_case s then plift (lre_canonicalize (u32 c) (is_utf16 s)) else pret c) in
         if c <=? 0xffff then re_emit_op_u16 (reop REOP_char) c
         else do* re_emit_op_u32 (reop REOP_char32) c in pret ()) in
  do* emit_prev is_backward_dir in
  pret (p, size (byte_code s), capture_count s).

(** [parse_class_atom:] *)
Definition term_class_atom (p : Z) (is_backward_dir : bool) : parser term :=
  let* '(c, p, cr) := get_class_atom None p false in
  term_normal_char c p cr is_backward_dir.

Definition nothing_to_repeat : parser term := re_parse_error (str "nothing to repeat").

Definition term_dot (p : Z) (is_backward_dir : bool) : parser term :=
  let* s := pget in
  do* emit_prev is_backward_dir in
  do* re_emit_op (reop (if dotall s then REOP_any else REOP_dot)) in
  do* emit_prev is_backward_dir in
  pret (p + 1, size (byte_code s), capture_count s).

(** [case '{']: an error if it is like a repetition count. *)
Definition term_brace (p : Z) (is_backward_dir : bool) : parser term :=
  let* s := pget in
  if is_utf16 s then re_parse_error (str "syntax error")
  else
    let* c := peek (p + 1) in
    if negb (is_digit c) then term_class_atom p is_backward_dir
    else
      let* '(_, p1) := plift (parse_digits (src s) (p + 1) true) in
      let* c := peek p1 in
      let* p1 := (if c =? ch "," then
                    let* c := peek (p1 + 1) in
                    if is_digit c then
                      let* '(_, p1) := plift (parse_digits (src s) (p1 + 1) true) in pret p1
                    else pret (p1 + 1)
                  else pret p1) in
      let* c := peek p1 in
      if negb (c =? ch "}") then term_class_atom p is_backward_dir else nothing_to_repeat.

(** [re_parse_disjunction] at [p], then the character [')']. *)
Definition sub_disjunction (disjunction : bool -> parser ()) (is_backward_dir : bool) (p : Z) : parser Z :=
  do* pmod (fun s => set_buf_ptr s p) in
  do* disjunction is_backward_dir in
  let* s := pget in
  re_parse_expect (buf_ptr s) (ch ")").

(** [lookahead:] *)
Definition term_lookahead (disjunction : bool -> parser ()) (p : Z) (is_neg is_backward_lookahead : bool)
  : parser term :=
  let* s := pget in
  let '(last_atom_start, last_capture_count) :=
    if negb (is_utf16 s) && negb is_backward_lookahead then (size (byte_code s), capture_count s)
    else (-1, 0) in
  let* pos := re_emit_op_u32 (reop REOP_lookahead + b2z is_neg) 0 in
  let* p := sub_disjunction disjunction is_backward_lookahead p in
  do* re_emit_op (reop REOP_match) in
  let* s := pget in
  if dbuf_error (byte_code s) then pfail
  else
    do* code_put_u32 pos (size (byte_code s) - (pos + 4)) in
    pret (p, last_atom_start, last_capture_count).

(** [parse_capture:] *)
Definition term_capture (disjunction : bool -> parser ()) (p : Z) (is_backward_dir : bool) : parser term :=
  let* s := pget in
  if CAPTURE_COUNT_MAX <=? capture_count s then re_parse_error (str "too many captures")
  else
    let last_atom_start := size (byte_code s) in
    let capture_index := capture_count s in
    do* pmod (fun s => set_capture_count s (capture_index + 1)) in
    do* re_emit_op_u8 (reop REOP_save_start + b2z is_backward_dir) capture_index in
    do* pmod (fun s => set_buf_ptr s p) in
    do* disjunction is_backward_dir in
    do* re_emit_op_u8 (reop REOP_save_start + 1 - b2z is_backward_dir) capture_index in
    let* s := pget in
    let* p := re_parse_expect (buf_ptr s) (ch ")") in
    pret (p, last_atom_start, capture_index).

(** A named group, [p] after the ['<']. *)
Definition term_named_group (disjunction : bool -> parser ()) (p : Z) (is_backward_dir : bool) : parser term :=
  let* s := pget in
  let* '(r, name) := plift (re_parse_group_name (src s) (u_buf s) p (is_utf16 s)) in
  do* pmod (fun s => set_u_buf s name) in
  match r with
  | None => re_parse_error (str "invalid group name")
  | Some p =>
      let* i := plift (find_group_name s name) in
      if 0 <? i then re_parse_error (str "duplicate group name")
      else
        let* len := plift (CStr.strlen name 0) in
        let* data := plift (rd_range name 0 (len + 1)) in
        let* b := plift (dbuf_put (group_names s) data) in
        do* pmod (fun s => set_counts (set_group_names s b.2) (total_capture_count s) 1) in
        term_capture disjunction p is_backward_dir
  end.

(** [case '('] *)
Definition term_group (disjunction : bool -> parser ()) (p : Z) (is_backward_dir : bool) : parser term :=
  let* c1 := peek (p + 1) in
  if c1 =? ch "?" then
    let* c2 := peek (p + 2) in
    if c2 =? ch ":" then
      let* s := pget in
      let* p := sub_disjunction disjunction is_backward_dir (p + 3) in
      pret (p, size (byte_code s), capture_count s)
    else if (c2 =? ch "=") || (c2 =? ch "!") then
      term_lookahead disjunction (p + 3) (c2 =? ch "!") false
    else if c2 =? ch "<" then
      let* c3 := peek (p + 3) in
      if (c3 =? ch "=") || (c3 =? ch "!") then term_lookahead disjunction (p + 4) (c3 =? ch "!") true
      else term_named_group disjunction (p + 3) is_backward_dir
    else re_parse_error (str "invalid group")
  else
    let* s := pget in
    let* b := plift (dbuf_putc (group_names s) 0) in
    do* pmod (fun s => set_group_names s b.2) in
    term_capture disjunction (p + 1) is_backward_dir.

(** [emit_back_reference:] *)
Definition term_back_reference (c p : Z) (is_backward_dir : bool) : parser term :=
  let* s := pget in
  do* re_emit_op_u8 (reop REOP_back_reference + b2z is_backward_dir) c in
  pret (p, size (byte_code s), capture_count s).

(** [if (s->is_utf16 || re_has_named_captures(s)) error; else goto parse_class_atom] *)
Definition tolerate (msg : string) (p : Z) (is_backward_dir : bool) : parser term :=
  let* s := pget in
  let* strict := (if is_utf16 s then pret true else re_has_named_captures) in
  if (strict : bool) then re_parse_error (str msg) else term_class_atom p is_backward_dir.

(** [\k], [p] at the backslash. *)
Definition term_named_reference (p : Z) (is_backward_dir : bool) : parser term :=
  let* c := peek (p + 2) in
  if negb (c =? ch "<") then tolerate "expecting group name" p is_backward_dir
  else
    let* s := pget in
    let* '(r, name) := plift (re_parse_group_name (src s) (u_buf s) (p + 3) (is_utf16 s)) in
    do* pmod (fun s => set_u_buf s name) in
    match r with
    | None => tolerate "invalid group name" p is_backward_dir
    | Some p1 =>
        let* c := plift (find_group_name s name) in
        if 0 <=? c then term_back_reference c p1 is_backward_dir
        else
          let* '(c, _) := plift (re_parse_captures s (Some name)) in
          if 0 <=? c then term_back_reference c p1 is_backward_dir
          else tolerate "group name not defined" p is_backward_dir
    end.

Definition is_octal (c : Z) : bool := in_chars (ch "0") c (ch "7").

(** Up to [n] octal digits at [p] after the value [c]. *)
Fixpoint octal_digits (n : nat) (c p : Z) : parser (Z * Z) :=
  match n with
  | O => pret (c, p)
  | S n =>
      let* x := peek p in
      if is_octal x then octal_digits n (Z.shiftl c 3 + x - ch "0") (p + 1) else pret (c, p)
  end.

(** [\0], [p] at the backslash. *)
Definition term_zero (p : Z) (is_backward_dir : bool) : parser term :=
  let* s := pget in
  let p := p + 2 in
  let* x := peek p in
  if is_utf16 s then
    if is_digit x then re_parse_error (str "invalid decimal escape in regular expression")
    else term_normal_char 0 p None is_backward_dir
  else
    let* '(c, p) := octal_digits 2 0 p in
    term_normal_char c p None is_backward_dir.

(** [\1] to [\9], [q] at the digit: a back reference or a legacy octal. *)
Definition term_decimal (q : Z) (is_backward_dir : bool) : parser term :=
  let* s := pget in
  let* '(c, p) := plift (parse_digits (src s) q false) in
  let* out_of_range :=
    (if c <? 0 then pret true
     else if capture_count s <=? c then let* n := re_count_captures in pret (n <=? c)
     else pret false) in
  if negb out_of_range then term_back_reference c p is_backward_dir
  else if is_utf16 s then re_parse_error (str "back reference out of range in regular expression")
  else
    let* x := peek q in
    let* '(c, p) :=
      (if x <=? ch "7" then
         if x <=? ch "3" then octal_digits 2 (x - ch "0") (q + 1) else octal_digits 2 0 q
       else pret (x, q + 1)) in
    term_normal_char c p None is_backward_dir.

(** [case '\\'] *)
Definition term_escape (p : Z) (is_backward_dir : bool) : parser term :=
  let* c := peek (p + 1) in
  if (c =? ch "b") || (c =? ch "B") then
    do* re_emit_op (reop REOP_word_boundary + b2z (negb (c =? ch "b"))) in pret (p + 2, -1, 0)
  else if c =? ch "k" then term_named_reference p is_backward_dir
  else if c =? ch "0" then term_zero p is_backward_dir
  else if in_chars (ch "1") c (ch "9") then term_decimal (p + 1) is_backward_dir
  else term_class_atom p is_backward_dir.

(** [case '['] *)
Definition term_class (p : Z) (is_backward_dir : bool) : parser term :=
  let* s := pget in
  do* emit_prev is_backward_dir in
  let* p := re_parse_char_class p in
  do* emit_prev is_backward_dir in
  pret (p, size (byte_code s), capture_count s).

(** The first [switch] of [re_parse_term]. *)
Definition re_parse_atom (disjunction : bool -> parser ()) (is_backward_dir : bool) : parser term :=
  let* s := pget in
  let p := buf_ptr s in
  let* c := peek p in
  if c =? ch "^" then do* re_emit_op (reop REOP_line_start) in pret (p + 1, -1, 0)
  else if c =? ch "$" then do* re_emit_op (reop REOP_line_end) in pret (p + 1, -1, 0)
  else if c =? ch "." then term_dot p is_backward_dir
  else if c =? ch "{" then term_brace p is_backward_dir
  else if (c =? ch "*") || (c =? ch "+") || (c =? ch "?") then nothing_to_repeat
  else if c =? ch "(" then term_group disjunction p is_backward_dir
  else if c =? ch "\" then term_escape p is_backward_dir
  else if c =? ch "[" then term_class p is_backward_dir
  else if ((c =? ch "]") || (c =? ch "}")) && is_utf16 s then re_parse_error (str "syntax error")
  else term_class_atom p is_backward_dir.

(** ** Quantifiers *)

Definition invalid_quant_count {A} : parser A := re_parse_error (str "invalid repetition count").

(** The quantifier at [p], if there is one: the pointer after it, [quant_min]
    and [quant_max]. *)
Definition re_parse_quant_count (p : Z) : parser (option (Z * Z * Z)) :=
  let* s := pget in
  let* c := peek p in
  if c =? ch "*" then pret (Some (p + 1, 0, INT32_MAX))
  else if c =? ch "+" then pret (Some (p + 1, 1, INT32_MAX))
  else if c =? ch "?" then pret (Some (p + 1, 0, 1))
  else if c =? ch "{" then
    let* c := peek (p + 1) in
    if negb (is_digit c) then if is_utf16 s then invalid_quant_count else pret None
    else
      let* '(quant_min, p1) := plift (parse_digits (src s) (p + 1) true) in
      let* c := peek p1 in
      let* '(quant_max, p1) :=
        (if c =? ch "," then
           let* c := peek (p1 + 1) in
           if is_digit c then
             let* '(quant_max, p1) := plift (parse_digits (src s) (p1 + 1) true) in
             if quant_max <? quant_min then invalid_quant_count else pret (quant_max, p1)
           else pret (INT32_MAX, p1 + 1)
         else pret (quant_min, p1)) in
      let* c := peek p1 in
      if negb (c =? ch "}") && negb (is_utf16 s) then pret None
      else let* p1 := re_parse_expect p1 (ch "}") in pret (Some (p1, quant_min, quant_max))
  else pret None.

(** [if (dbuf_insert(&s->byte_code, pos, len)) goto out_of_memory] *)
Definition code_insert (pos len : Z) : parser () :=
  let* r := on_code (fun b => dbuf_insert b pos len) in
  if negb (r =? 0) then re_parse_out_of_memory else pret ().

(** The optimised form: [REOP_simple_greedy_quant] around an atom of [len]
    characters. *)
Definition emit_simple_quant (last_atom_start quant_min quant_max len : Z) : parser () :=
  do* re_emit_op (reop REOP_match) in
  do* code_insert last_atom_start 17 in
  let pos := last_atom_start in
  do* code_set pos (reop REOP_simple_greedy_quant) in
  let* size := code_size in
  do* code_put_u32 (pos + 1) (size - last_atom_start - 17) in
  do* code_put_u32 (pos + 5) quant_min in
  do* code_put_u32 (pos + 9) quant_max in
  code_put_u32 (pos + 13) len.

(** [quant_min == 0] after the reset of the captures. *)
Definition emit_quant_zero_tail (last_atom_start quant_max len : Z) (greedy check : bool) : parser () :=
  if quant_max =? 0 then
    on_code (fun b => Ret ((), set_size b last_atom_start))
  else if quant_max =? 1 then
    do* code_insert last_atom_start 5 in
    do* code_set last_atom_start (reop REOP_split_goto_first + b2z greedy) in
    code_put_u32 (last_atom_start + 1) len
  else if quant_max =? INT32_MAX then
    do* code_insert last_atom_start (5 + b2z check) in
    do* code_set last_atom_start (reop REOP_split_goto_first + b2z greedy) in
    do* code_put_u32 (last_atom_start + 1) (len + 5 + b2z check) in
    if check then
      do* code_set (last_atom_start + 1 + 4) (reop REOP_push_char_pos) in
      do* re_emit_goto (reop REOP_bne_char_pos) last_atom_start in pret ()
    else do* re_emit_goto (reop REOP_goto) last_atom_start in pret ()
  else
    do* code_insert last_atom_start 10 in
    do* code_set last_atom_start (reop REOP_push_i32) in
    do* code_put_u32 (last_atom_start + 1) quant_max in
    do* code_set (last_atom_start + 5) (reop REOP_split_goto_first + b2z greedy) in
    do* code_put_u32 (last_atom_start + 6) (len + 5) in
    do* re_emit_goto (reop REOP_loop) (last_atom_start + 5) in
    re_emit_op (reop REOP_drop).

(** [quant_min == 0]: [len] is the size of the atom. *)
Definition emit_quant_zero (last_atom_start last_capture_count quant_max len : Z) (greedy check : bool)
  : parser () :=
  let* s := pget in
  let* last_atom_start :=
    (if negb (last_capture_count =? capture_count s) then
       do* code_insert last_atom_start 3 in
       do* code_set last_atom_start (reop REOP_save_reset) in
       do* code_set (last_atom_start + 1) last_capture_count in
       do* code_set (last_atom_start + 2) (capture_count s - 1) in
       pret (last_atom_start + 3)
     else pret last_atom_start) in
  emit_quant_zero_tail last_atom_start quant_max len greedy check.

(** [dbuf_put_self(&s->byte_code, last_atom_start, len)] *)
Definition copy_atom (last_atom_start len : Z) : parser () :=
  do* on_code (fun b => dbuf_put_self b last_atom_start len) in pret ().

(** The iterations after the [quant_min] first ones; the atom is copied. *)
Definition emit_quant_pos_tail (last_atom_start quant_min quant_max len : Z) (greedy check : bool) : parser () :=
  let split := reop REOP_split_goto_first + b2z greedy in
  if quant_max =? INT32_MAX then
    let* pos := code_size in
    do* re_emit_op_u32 split (len + 5 + b2z check) in
    do* (if check then re_emit_op (reop REOP_push_char_pos) else pret ()) in
    do* copy_atom last_atom_start len in
    do* re_emit_goto (reop (if check then REOP_bne_char_pos else REOP_goto)) pos in pret ()
  else if quant_min <? quant_max then
    do* re_emit_op_u32 (reop REOP_push_i32) (quant_max - quant_min) in
    let* pos := code_size in
    do* re_emit_op_u32 split (len + 5) in
    do* copy_atom last_atom_start len in
    do* re_emit_goto (reop REOP_loop) pos in
    re_emit_op (reop REOP_drop)
  else pret ().

(** [quant_min > 0] *)
Definition emit_quant_pos (last_atom_start quant_min quant_max len : Z) (greedy check : bool)
  : parser () :=
  if (quant_min =? 1) && (quant_max =? INT32_MAX) && negb check then
    do* re_emit_goto (reop REOP_split_next_first - b2z greedy) last_atom_start in pret ()
  else
    let* last_atom_start :=
      (if quant_min =? 1 then pret last_atom_start
       else
         do* code_insert last_atom_start 5 in
         do* code_set last_atom_start (reop REOP_push_i32) in
         do* code_put_u32 (last_atom_start + 1) quant_min in
         do* re_emit_goto (reop REOP_loop) (last_atom_start + 5) in
         do* re_emit_op (reop REOP_drop) in
         pret (last_atom_start + 5)) in
    emit_quant_pos_tail last_atom_start quant_min quant_max len greedy check.

(** The code of a quantifier after the atom at [last_atom_start]. *)
Definition emit_quantifier (last_atom_start last_capture_count quant_min quant_max : Z) (greedy : bool)
  : parser () :=
  let* s := pget in
  let atom_len := size (byte_code s) - last_atom_start in
  let general check :=
    if quant_min =? 0 then emit_quant_zero last_atom_start last_capture_count quant_max atom_len greedy check
    else emit_quant_pos last_atom_start quant_min quant_max atom_len greedy check in
  if greedy then
    let* len :=
      (if 0 <? quant_max then
         if dbuf_error (byte_code s) then re_parse_out_of_memory
         else plift (re_is_simple_quantifier (buf (byte_code s)) last_atom_start atom_len)
       else pret 0) in
    if 0 <? len then emit_simple_quant last_atom_start quant_min quant_max len
    else if dbuf_error (byte_code s) then re_parse_out_of_memory
    else
      let* r := plift (re_check_advance (buf (byte_code s)) last_atom_start atom_len) in
      general (r =? 0)
  else general false.

(** [re_parse_term(s, is_backward_dir)] *)
Definition re_parse_term (disjunction : bool -> parser ()) (is_backward_dir : bool) : parser () :=
  let* '(p, last_atom_start, last_capture_count) := re_parse_atom disjunction is_backward_dir in
  let* p :=
    (if 0 <=? last_atom_start then
       let* q := re_parse_quant_count p in
       match q with
       | None => pret p
       | Some (p, quant_min, quant_max) =>
           let* c := peek p in
           let '(greedy, p) := if c =? ch "?" then (false, p + 1) else (true, p) in
           do* emit_quantifier last_atom_start last_capture_count quant_min quant_max greedy in
           pret p
       end
     else pret p) in
  pmod (fun s => set_buf_ptr s p).

(** ** Alternatives and disjunctions *)

(** Move the term [[term_start, end)] before the code [[start, term_start)]. *)
Definition reverse_term (start term_start : Z) : parser () :=
  let* s := pget in
  let end_ := size (byte_code s) in
  let term_size := end_ - term_start in
  let* r := on_code (fun b => dbuf_realloc b (end_ + term_size)) in
  if negb (r =? 0) then pfail
  else
    on_code (fun b =>
      code ← rd_range (buf b) start (end_ - start);
      m ← wr_range (buf b) (start + term_size) code;
      last ← rd_range m end_ term_size;
      m ← wr_range m start last;
      Ret ((), set_buf b m)).

Definition re_parse_alternative (disjunction : bool -> parser ()) (is_backward_dir : bool) : parser () :=
  let* s := pget in
  let start := size (byte_code s) in
  ploop (S (length (src s))) (fun _ : () =>
    let* s := pget in
    if buf_end s <=? buf_ptr s then pret (inr ())
    else
      let* c := peek (buf_ptr s) in
      if (c =? ch "|") || (c =? ch ")") then pret (inr ())
      else
        do* re_parse_term disjunction is_backward_dir in
        do* (if is_backward_dir then reverse_term start (size (byte_code s)) else pret ()) in
        pret (inl ())) ().

(** One turn of the loop over the alternatives. *)
Definition disjunction_step (alternative : parser ()) (start : Z) : parser (() + ()) :=
  let* s := pget in
  let* c := peek (buf_ptr s) in
  if negb (c =? ch "|") then pret (inr ())
  else
    do* pmod (fun s => set_buf_ptr s (buf_ptr s + 1)) in
    let len := size (byte_code s) - start in
    do* code_insert start 5 in
    do* code_set start (reop REOP_split_next_first) in
    do* code_put_u32 (start + 1) (len + 5) in
    let* pos := re_emit_op_u32 (reop REOP_goto) 0 in
    do* alternative in
    let* size := code_size in
    do* code_put_u32 pos (size - (pos + 4)) in
    pret (inl ()).

(** [re_parse_disjunction(s, is_backward_dir)]; [depth] bounds the nesting of
    the groups. *)
Fixpoint re_parse_disjunction (depth : nat) (is_backward_dir : bool) : parser () :=
  match depth with
  | O => plift (Fault OutOfFuel)
  | S depth =>
      let alternative := re_parse_alternative (re_parse_disjunction depth) is_backward_dir in
      let* s := pget in
      do* alternative in
      ploop (S (length (src s))) (fun _ => disjunction_step alternative (size (byte_code s))) ()
  end.

(** ** The compiler *)

(** [compute_stack_size(bc_buf, bc_buf_len)] *)
Definition compute_stack_size (bc_buf : list Z) (bc_buf_len : Z) : outcome Z :=
  let bc_buf_len := bc_buf_len - RE_HEADER_LEN in
  loop (S (length bc_buf)) (fun '(pos, stack_size, stack_size_max) =>
    if pos <? bc_buf_len then
      opcode ← rd bc_buf (RE_HEADER_LEN + pos);
      len ← reopcode_size opcode;
      _ ← c_assert (opcode <? REOP_COUNT);
      _ ← c_assert (pos + len <=? bc_buf_len);
      '(op, len) ← instr_len bc_buf RE_HEADER_LEN pos;
      match op with
      | Some (REOP_push_i32 | REOP_push_char_pos) =>
          let stack_size := stack_size + 1 in
          if stack_size_max <? stack_size then
            if STACK_SIZE_MAX <? stack_size then Ret (inr (-1))
            else Ret (inl (pos + len, stack_size, stack_size))
          else Ret (inl (pos + len, stack_size, stack_size_max))
      | Some (REOP_drop | REOP_bne_char_pos) =>
          _ ← c_assert (0 <? stack_size);
          Ret (inl (pos + len, stack_size - 1, stack_size_max))
      | _ => Ret (inl (pos + len, stack_size, stack_size_max))
      end
    else Ret (inr stack_size_max)) (0, 0, 0).

(** The state [lre_compile] starts with. *)
Definition compile_start (pattern : list Z) (buf_len flags : Z) : REParseState :=
  mkPS dbuf_init2 pattern 0 buf_len flags (has_flag flags LRE_FLAG_UTF16)
    (has_flag flags LRE_FLAG_IGNORECASE) (has_flag flags LRE_FLAG_DOTALL) 1 (-1) (-1) dbuf_init2
    (replicate (Z.to_nat TMP_BUF_SIZE) 0).

(** The header and the code before the first alternative. *)
Definition compile_prologue : parser () :=
  let* s := pget in
  do* on_code (fun b => dbuf_putc b (re_flags s)) in
  do* on_code (fun b => dbuf_putc b 0) in
  do* on_code (fun b => dbuf_putc b 0) in
  do* on_code (fun b => dbuf_put_u32 b 0) in
  do* (if negb (has_flag (re_flags s) LRE_FLAG_STICKY) then
         do* re_emit_op_u32 (reop REOP_split_goto_first) (1 + 5) in
         do* re_emit_op (reop REOP_any) in
         do* re_emit_op_u32 (reop REOP_goto) (u32 (-(5 + 1 + 5))) in pret ()
       else pret ()) in
  re_emit_op_u8 (reop REOP_save_start) 0.

(** What follows the last alternative. *)
Definition compile_epilogue : parser () :=
  do* re_emit_op_u8 (reop REOP_save_end) 0 in
  do* re_emit_op (reop REOP_match) in
  let* s := pget in
  let* c := peek (buf_ptr s) in
  if negb (c =? 0) then re_parse_error (str "extraneous characters at the end")
  else if dbuf_error (byte_code s) then re_parse_out_of_memory
  else
    let* stack_size := plift (compute_stack_size (buf (byte_code s)) (size (byte_code s))) in
    if stack_size <? 0 then re_parse_error (str "too many imbricated quantifiers")
    else
      do* code_set RE_HEADER_CAPTURE_COUNT (capture_count s) in
      do* code_set RE_HEADER_STACK_SIZE stack_size in
      do* code_put_u32 3 (size (byte_code s) - RE_HEADER_LEN) in
      if capture_count s - 1 <? size (group_names s) then
        let* data := plift (rd_range (buf (group_names s)) 0 (size (group_names s))) in
        do* on_code (fun b => dbuf_put b data) in
        on_code (fun b =>
          flags ← rd (buf b) RE_HEADER_FLAGS;
          m ← wr (buf b) RE_HEADER_FLAGS (Z.lor flags LRE_FLAG_NAMED_GROUPS);
          Ret ((), set_buf b m))
      else pret ().

Definition compile_body (depth : nat) : parser () :=
  do* compile_prologue in
  do* re_parse_disjunction depth false in
  compile_epilogue.

(** [lre_compile(&len, error_msg, error_msg_size, buf, buf_len, re_flags)]:
    the code with its length, or [None] for a null pointer, and [error_msg]. *)
Definition lre_compile (error_msg : list Z) (error_msg_size : Z) (pattern : list Z) (buf_len flags : Z)
  : outcome (option (list Z * Z) * list Z) :=
  '(r, s) ← compile_body (S (length pattern)) (compile_start pattern buf_len flags);
  match r with
  | None =>
      error_msg ← CStr.pstrcpy error_msg 0 error_msg_size (u_buf s);
      Ret (None, error_msg)
  | Some _ =>
      error_msg ← wr error_msg 0 0;
      Ret (Some (buf (byte_code s), size (byte_code s)), error_msg)
  end.
End Compile.
