(* ===== verification/RegexpCode.v ===== *)
(** * Regular expressions: structure of the compiled code

    The byte code as a sequence of instructions.  [encode] gives their bytes,
    [posn] and [depth] their offsets and the depth of the stack, and [verified]
    is what the matcher relies on: operands in range, jumps to instructions,
    the static depth of the stack the same along every path, and simple
    quantifiers around code that consumes a known number of characters. *)

From S2P Require Import Prelude Cutils RegexpOp.

Inductive instr :=
  | IOp (op : REOPCodeEnum)                   (* no operand *)
  | IChar (v : Z) | IChar32 (v : Z)
  | IJump (op : REOPCodeEnum) (off : Z)       (* a jump relative to the next instruction *)
  | ICapture (op : REOPCodeEnum) (i : Z)      (* save_start, save_end and back references *)
  | IReset (i j : Z)
  | IPush (v : Z)
  | IRange16 (ranges : list Z) | IRange32 (ranges : list Z)    (* the bytes of the ranges *)
  | IGreedy (off quant_min quant_max count : Z).

#[export] Instance instr_eq_dec : EqDecision instr.
Proof. solve_decision. Defined.

Definition encode (i : instr) : list Z :=
  match i with
  | IOp op => [reop op]
  | IChar v => reop REOP_char :: Bits.le_bytes 2 v
  | IChar32 v => reop REOP_char32 :: Bits.le_bytes 4 v
  | IJump op off => reop op :: Bits.le_bytes 4 off
  | ICapture op i => [reop op; i]
  | IReset i j => [reop REOP_save_reset; i; j]
  | IPush v => reop REOP_push_i32 :: Bits.le_bytes 4 v
  | IRange16 r => reop REOP_range :: Bits.le_bytes 2 (zlen r / 4) ++ r
  | IRange32 r => reop REOP_range32 :: Bits.le_bytes 2 (zlen r / 8) ++ r
  | IGreedy off quant_min quant_max count =>
      reop REOP_simple_greedy_quant :: Bits.le_bytes 4 off ++ Bits.le_bytes 4 quant_min ++
        Bits.le_bytes 4 quant_max ++ Bits.le_bytes 4 count
  end.

Definition code_of (p : list instr) : list Z := concat (encode <$> p).

(** ** Well-formed instructions *)

Definition op0 (op : REOPCodeEnum) : bool :=
  match op with
  | REOP_dot | REOP_any | REOP_line_start | REOP_line_end | REOP_match | REOP_drop
  | REOP_word_boundary | REOP_not_word_boundary | REOP_push_char_pos | REOP_prev => true
  | _ => false
  end.
Definition op_jump (op : REOPCodeEnum) : bool :=
  match op with
  | REOP_goto | REOP_split_goto_first | REOP_split_next_first | REOP_loop | REOP_lookahead
  | REOP_negative_lookahead | REOP_bne_char_pos => true
  | _ => false
  end.
Definition op_save (op : REOPCodeEnum) : bool :=
  match op with REOP_save_start | REOP_save_end => true | _ => false end.
Definition op_ref (op : REOPCodeEnum) : bool :=
  match op with REOP_back_reference | REOP_backward_back_reference => true | _ => false end.

Definition byte (b : Z) : bool := (0 <=? b) && (b <? 256).
Definition is_u32 (v : Z) : bool := (0 <=? v) && (v <? 2 ^ 32).
Definition is_i32 (v : Z) : bool := (- 2 ^ 31 <=? v) && (v <? 2 ^ 31).

(** The ranges of an instruction: [n] pairs of [w]-byte bounds, [1 <= n]. *)
Definition ranges_ok (w : Z) (r : list Z) : bool :=
  (zlen r mod (2 * w) =? 0) && (0 <? zlen r) && (zlen r / (2 * w) <? 65536) && forallb byte r.

(** [nc] is the capture count of the code. *)
Definition wf_instr (nc : Z) (i : instr) : bool :=
  match i with
  | IOp op => op0 op
  | IChar v => (0 <=? v) && (v <? 65536)
  | IChar32 v => is_u32 v
  | IJump op off => op_jump op && is_i32 off
  | ICapture op i => byte i && ((op_save op && (i <? nc)) || op_ref op)
  | IReset i j => byte i && byte j && (j <? nc)
  | IPush v => is_u32 v
  | IRange16 r => ranges_ok 2 r
  | IRange32 r => ranges_ok 4 r
  | IGreedy off quant_min quant_max count =>
      is_i32 off && (0 <? off) && is_u32 quant_min && is_u32 quant_max && is_u32 count && (0 <? count)
  end.

(** ** Depth of the stack and positions *)

(** How much an instruction pushes, and the entries it needs. *)
Definition delta (i : instr) : Z :=
  match i with
  | IOp REOP_push_char_pos | IPush _ => 1
  | IOp REOP_drop | IJump REOP_bne_char_pos _ => -1
  | _ => 0
  end.
Definition needs (i : instr) : Z :=
  match i with
  | IOp REOP_drop | IJump REOP_bne_char_pos _ | IJump REOP_loop _ => 1
  | _ => 0
  end.

(** The jump of an instruction and the depth at its target, relative to the
    depth before the instruction. *)
Definition jump (i : instr) : option (Z * Z) :=
  match i with
  | IJump REOP_bne_char_pos off => Some (off, -1)
  | IJump _ off => Some (off, 0)
  | IGreedy off _ _ _ => Some (off, 0)
  | _ => None
  end.

(** Does control reach the next instruction? *)
Definition falls (i : instr) : bool :=
  match i with IOp REOP_match | IJump REOP_goto _ => false | _ => true end.

Definition isize (i : instr) : Z := zlen (encode i).

(** The offset of instruction [k], and the depth before it. *)
Definition posn (p : list instr) (k : nat) : Z := zlen (code_of (take k p)).
Definition depth (p : list instr) (k : nat) : Z := foldr (fun i d => delta i + d) 0 (take k p).

(** Characters an instruction consumes, if it is one that may stand in a
    simple quantifier. *)
Definition simple_chars (i : instr) : option Z :=
  match i with
  | IOp (REOP_dot | REOP_any) | IChar _ | IChar32 _ | IRange16 _ | IRange32 _ => Some 1
  | IOp (REOP_line_start | REOP_line_end | REOP_word_boundary | REOP_not_word_boundary) => Some 0
  | _ => None
  end.
Fixpoint simple_code (p : list instr) : option Z :=
  match p with
  | [] => Some 0
  | i :: p => n ← simple_chars i; m ← simple_code p; Some (n + m)
  end.

(** ** Verified code *)

(** Jump [off] of instruction [k] leads to an instruction at depth [d], at
    most [len] ([length p]: the end of the fragment). *)
Definition lands (p : list instr) (k : nat) (off d : Z) (len : nat) : Prop :=
  exists j, (j <= len)%nat /\ posn p j = posn p (S k) + off /\ depth p j = d.

Definition jumps_ok (p : list instr) (len : nat) : Prop :=
  forall k i off dd, p !! k = Some i -> jump i = Some (off, dd) -> lands p k off (depth p k + dd) len.

Definition needs_ok (p : list instr) : Prop :=
  forall k i, p !! k = Some i -> needs i <= depth p k.

(** The body of a simple quantifier: [n] instructions that consume [count]
    characters, then [match]. *)
Definition greedy_ok (p : list instr) : Prop :=
  forall k off mn mx count, p !! k = Some (IGreedy off mn mx count) ->
    exists body rest, drop (S k) p = body ++ IOp REOP_match :: rest /\
      simple_code body = Some count /\ off = zlen (code_of body) + 1.

Record verified (nc smax : Z) (p : list instr) : Prop := {
  v_instrs : Forall (fun i => wf_instr nc i = true) p;
  v_jumps : jumps_ok p (length p - 1);
  v_falls : forall k i, p !! k = Some i -> falls i = true -> (S k < length p)%nat;
  v_needs : needs_ok p;
  v_depth : forall k, (k <= length p)%nat -> 0 <= depth p k <= smax;
  v_greedy : greedy_ok p;
}.

(** *** A decision procedure *)

Definition lands_b (p : list instr) (k : nat) (off d : Z) (len : nat) : bool :=
  existsb (fun j => (posn p j =? posn p (S k) + off) && (depth p j =? d)) (seq 0 (S len)).

Definition greedy_b (rest : list instr) (off count : Z) : bool :=
  existsb (fun n => bool_decide (rest !! n = Some (IOp REOP_match)) &&
                    bool_decide (simple_code (take n rest) = Some count) &&
                    (off =? zlen (code_of (take n rest)) + 1)) (seq 0 (length rest)).

Definition verify_at (nc smax : Z) (p : list instr) (k : nat) (i : instr) : bool :=
  wf_instr nc i &&
  match jump i with
  | Some (off, dd) => lands_b p k off (depth p k + dd) (length p - 1)
  | None => true
  end &&
  (negb (falls i) || (S k <? length p)%nat) &&
  (needs i <=? depth p k) &&
  match i with
  | IGreedy off _ _ count => greedy_b (drop (S k) p) off count
  | _ => true
  end.

Definition verify (nc smax : Z) (p : list instr) : bool :=
  forallb (fun '(k, i) => verify_at nc smax p k i) (imap pair p) &&
  forallb (fun k => (0 <=? depth p k) && (depth p k <=? smax)) (seq 0 (S (length p))).

Lemma lands_b_lands p k off d len : lands_b p k off d len = true -> lands p k off d len.
Proof.
  unfold lands_b. intros H. apply existsb_exists in H as (j & Hj & H). apply in_seq in Hj.
  exists j. breflect. split; [lia|]. split; lia.
Qed.

Lemma verify_verified nc smax p : verify nc smax p = true -> verified nc smax p.
Proof.
  unfold verify. intros H. apply andb_true_iff in H as [H1 H2].
  rewrite forallb_forall in H1, H2.
  assert (Hat : forall k i, p !! k = Some i -> verify_at nc smax p k i = true).
  { intros k i Hk. apply (H1 (k, i)), list_elem_of_In, list_elem_of_lookup. exists k.
    by rewrite list_lookup_imap, Hk. }
  split.
  - apply Forall_lookup. intros k i Hk. specialize (Hat k i Hk). unfold verify_at in Hat. breflect. done.
  - intros k i off dd Hk Hj. specialize (Hat k i Hk). unfold verify_at in Hat. rewrite Hj in Hat.
    breflect. by apply lands_b_lands.
  - intros k i Hk Hf. specialize (Hat k i Hk). unfold verify_at in Hat. rewrite Hf in Hat. cbn [negb orb] in Hat. breflect.
    match goal with H : (_ <? _)%nat = true |- _ => by apply Nat.ltb_lt in H end.
  - intros k i Hk. specialize (Hat k i Hk). unfold verify_at in Hat. breflect. lia.
  - intros k Hk. specialize (H2 k). rewrite in_seq in H2. specialize (H2 ltac:(lia)). breflect. lia.
  - intros k off mn mx count Hk. specialize (Hat k _ Hk). unfold verify_at in Hat. breflect.
    match goal with H : greedy_b _ _ _ = true |- _ => rename H into Hg end.
    apply existsb_exists in Hg as (n & _ & Hg). breflect.
    exists (take n (drop (S k) p)), (drop (S n) (drop (S k) p)).
    repeat match goal with H : bool_decide _ = true |- _ => apply bool_decide_eq_true_1 in H end.
    split; [by rewrite (take_drop_middle _ n)|]. split; [done|lia].
Qed.

(** ** Positions and depths *)

Lemma code_of_app p q : code_of (p ++ q) = code_of p ++ code_of q.
Proof. unfold code_of. by rewrite fmap_app, concat_app. Qed.

Lemma code_of_cons i p : code_of (i :: p) = encode i ++ code_of p.
Proof. done. Qed.

Lemma isize_pos i : 0 < isize i.
Proof. unfold isize. destruct i; cbn [encode]; rewrite ?zlen_cons; pose proof (@zlen_nonneg Z) as H; try (specialize (H [])); try lia;
  match goal with |- _ < 1 + zlen ?l => pose proof (zlen_nonneg l); lia end. Qed.

Lemma posn_S p k i : p !! k = Some i -> posn p (S k) = posn p k + isize i.
Proof.
  intros Hk. unfold posn, isize. rewrite (take_S_r _ _ i) by done.
  rewrite code_of_app, zlen_app. unfold code_of. simpl. by rewrite app_nil_r.
Qed.

Lemma depth_S p k i : p !! k = Some i -> depth p (S k) = depth p k + delta i.
Proof.
  intros Hk. unfold depth. rewrite (take_S_r _ _ i) by done. rewrite foldr_app. cbn [foldr].
  induction (take k p) as [|j l IH]; cbn [foldr]; [lia|]. rewrite IH. lia.
Qed.

Lemma posn_0 p : posn p 0 = 0. Proof. done. Qed.
Lemma depth_0 p : depth p 0 = 0. Proof. done. Qed.
Lemma posn_nonneg p k : 0 <= posn p k. Proof. apply zlen_nonneg. Qed.

Lemma posn_lt p : forall j k, (j < k)%nat -> (k <= length p)%nat -> posn p j < posn p k.
Proof.
  intros j k Hjk Hk. induction k as [|k IH]; [lia|].
  destruct (lookup_lt_is_Some_2 p k) as [i Hi]; [lia|]. rewrite (posn_S _ _ _ Hi).
  pose proof (isize_pos i). destruct (decide (j = k)) as [->|]; [lia|].
  specialize (IH ltac:(lia) ltac:(lia)). lia.
Qed.

Lemma posn_inj p j k : (j <= length p)%nat -> (k <= length p)%nat -> posn p j = posn p k -> j = k.
Proof.
  intros Hj Hk E. destruct (lt_eq_lt_dec j k) as [[H|H]|H]; [|done|].
  - pose proof (posn_lt p j k H Hk). lia.
  - pose proof (posn_lt p k j H Hj). lia.
Qed.
