(* ===== verification/RegexpFrag.v ===== *)
(** * Regular expressions: fragments of code

    What one term, alternative or disjunction compiles to: a sequence of
    instructions with a balanced stack whose jumps stay inside or lead to its
    end.  A fragment is assembled from instructions and smaller fragments
    ([item]); one lemma, [items_frag], covers every construct of the compiler,
    and [frag_verified] the complete code. *)

From S2P Require Import Prelude Cutils RegexpOp RegexpCode.

Record frag (nc : Z) (p : list instr) : Prop := {
  f_wf : Forall (fun i => wf_instr nc i = true) p;
  f_jumps : jumps_ok p (length p);
  f_needs : needs_ok p;
  f_depth : forall k, (k <= length p)%nat -> 0 <= depth p k;
  f_end : depth p (length p) = 0;
  f_greedy : greedy_ok p;
}.

(** ** Positions and depths in a concatenation *)

Lemma posn_app_l p q k : (k <= length p)%nat -> posn (p ++ q) k = posn p k.
Proof. intros Hk. unfold posn. by rewrite take_app_le. Qed.
Lemma depth_app_l p q k : (k <= length p)%nat -> depth (p ++ q) k = depth p k.
Proof. intros Hk. unfold depth. by rewrite take_app_le. Qed.

Lemma posn_app_r p q k : posn (p ++ q) (length p + k) = zlen (code_of p) + posn q k.
Proof. unfold posn. by rewrite take_app_add, code_of_app, zlen_app. Qed.

Definition total (p : list instr) : Z := depth p (length p).

Lemma total_cons i p : total (i :: p) = delta i + total p.
Proof. unfold total, depth. by rewrite !take_ge by done. Qed.

Lemma depth_app_r p q k : depth (p ++ q) (length p + k) = total p + depth q k.
Proof.
  unfold total, depth. rewrite take_app_add, (take_ge p) by done.
  induction p as [|i p IH]; [done|]. cbn [app foldr]. rewrite IH. lia.
Qed.

Lemma posn_end p : posn p (length p) = zlen (code_of p).
Proof. unfold posn. by rewrite take_ge. Qed.

(** ** Items *)

Definition item : Type := instr + list instr.
Definition item_code (x : item) : list instr := match x with inl i => [i] | inr p => p end.
Definition item_size (x : item) : Z := zlen (code_of (item_code x)).
Definition item_delta (x : item) : Z := match x with inl i => delta i | inr _ => 0 end.

Definition flatten (l : list item) : list instr := concat (item_code <$> l).

(** Offset and depth before item [k]. *)
Fixpoint ipos (l : list item) (k : nat) : Z :=
  match l, k with x :: l, S k => item_size x + ipos l k | _, _ => 0 end.
Fixpoint idepth (l : list item) (k : nat) : Z :=
  match l, k with x :: l, S k => item_delta x + idepth l k | _, _ => 0 end.

(** The index of the first instruction of item [k]. *)
Definition iidx (l : list item) (k : nat) : nat := length (flatten (take k l)).

(** What is required of item [k] of [l]. *)
Definition item_ok (nc : Z) (l : list item) (k : nat) (x : item) : Prop :=
  match x with
  | inr p => frag nc p
  | inl i =>
      wf_instr nc i = true /\ needs i <= idepth l k /\
      match jump i with
      | Some (off, dd) => exists j, (j <= length l)%nat /\
          ipos l j = ipos l (S k) + off /\ idepth l j = idepth l k + dd
      | None => True
      end /\
      match i with
      | IGreedy off _ _ count => exists body rest,
          flatten (drop (S k) l) = body ++ IOp REOP_match :: rest /\
          simple_code body = Some count /\ off = zlen (code_of body) + 1
      | _ => True
      end
  end.

Record items_ok (nc : Z) (l : list item) : Prop := {
  i_items : forall k x, l !! k = Some x -> item_ok nc l k x;
  i_depth : forall k, (k <= length l)%nat -> 0 <= idepth l k;
  i_end : idepth l (length l) = 0;
}.

Lemma flatten_app l k : flatten (l ++ k) = flatten l ++ flatten k.
Proof. unfold flatten. by rewrite fmap_app, concat_app. Qed.

(** The instructions of [flatten l], by item. *)
Lemma flatten_split l k x : l !! k = Some x ->
  flatten l = flatten (take k l) ++ item_code x ++ flatten (drop (S k) l).
Proof.
  intros Hk. rewrite <- (take_drop_middle l k x Hk) at 1. by rewrite flatten_app.
Qed.

Lemma flatten_lookup l : forall t i, flatten l !! t = Some i ->
  exists k x t', l !! k = Some x /\ item_code x !! t' = Some i /\ t = (iidx l k + t')%nat.
Proof.
  induction l as [|x l IH]; intros t i Ht; [done|].
  change (flatten (x :: l)) with (item_code x ++ flatten l) in Ht.
  apply lookup_app_Some in Ht as [Ht|[Hge Ht]].
  - exists 0%nat, x, t. done.
  - destruct (IH _ _ Ht) as (k & y & t' & Hk & Hi & E). exists (S k), y, t'. split; [done|]. split; [done|].
    unfold iidx in *. cbn [take]. change (flatten (x :: take k l)) with (item_code x ++ flatten (take k l)).
    rewrite length_app. lia.
Qed.

Section Items.
Context (nc : Z) (l : list item) (Hl : items_ok nc l).

Lemma item_total k x : l !! k = Some x -> total (item_code x) = item_delta x.
Proof.
  intros Hk. pose proof (i_items _ _ Hl k x Hk) as Hx. destruct x as [i|p]; cbn in *.
  - unfold total, depth. cbn. lia.
  - apply Hx.
Qed.

Lemma ipos_posn k : (k <= length l)%nat -> posn (flatten l) (iidx l k) = ipos l k.
Proof.
  intros Hk. rewrite <- (take_drop k l) at 1. rewrite flatten_app, posn_app_l by (unfold iidx; lia).
  unfold iidx. rewrite posn_end. clear Hl. revert l Hk.
  induction k as [|k IH]; intros [|x l'] Hk; cbn [length] in Hk; try done || lia.
  cbn [take ipos]. change (flatten (x :: take k l')) with (item_code x ++ flatten (take k l')).
  rewrite code_of_app, zlen_app, IH by lia. done.
Qed.

Lemma flatten_total k : (k <= length l)%nat -> total (flatten (take k l)) = idepth l k.
Proof.
  pose proof item_total as Ht. clear Hl. revert k Ht. induction l as [|x l' IH]; intros k Ht Hk.
  - by destruct k.
  - destruct k as [|k]; [done|]. cbn [take idepth length] in *.
    change (flatten (x :: take k l')) with (item_code x ++ flatten (take k l')).
    unfold total at 1. rewrite length_app, depth_app_r. rewrite (Ht 0%nat x) by done.
    change (depth (flatten (take k l')) (length (flatten (take k l')))) with (total (flatten (take k l'))).
    rewrite IH; [done| |lia]. intros k' y Hy. by apply (Ht (S k') y).
Qed.

Lemma idepth_depth k : (k <= length l)%nat -> depth (flatten l) (iidx l k) = idepth l k.
Proof.
  intros Hk. rewrite <- (take_drop k l) at 1. rewrite flatten_app, depth_app_l by (unfold iidx; lia).
  by apply flatten_total.
Qed.

Lemma iidx_S k x : l !! k = Some x -> iidx l (S k) = (iidx l k + length (item_code x))%nat.
Proof.
  intros Hk. unfold iidx. rewrite (take_S_r _ _ x) by done. rewrite flatten_app, length_app.
  f_equal. unfold flatten. cbn. by rewrite app_nil_r.
Qed.

Lemma iidx_le k : (iidx l k <= length (flatten l))%nat.
Proof. unfold iidx. rewrite <- (take_drop k l) at 2. rewrite flatten_app, length_app. lia. Qed.

(** Inside item [k]. *)
Lemma inner_posn k x t : l !! k = Some x -> (t <= length (item_code x))%nat ->
  posn (flatten l) (iidx l k + t) = ipos l k + posn (item_code x) t.
Proof.
  intros Hk Ht. pose proof (lookup_lt_Some _ _ _ Hk). rewrite (flatten_split l k x Hk).
  unfold iidx at 1. rewrite posn_app_r, posn_app_l by done. f_equal.
  rewrite <- posn_end. change (length (flatten (take k l))) with (iidx l k).
  rewrite <- ipos_posn by lia. rewrite <- (take_drop k l) at 3. by rewrite flatten_app, posn_app_l.
Qed.

Lemma inner_depth k x t : l !! k = Some x -> (t <= length (item_code x))%nat ->
  depth (flatten l) (iidx l k + t) = idepth l k + depth (item_code x) t.
Proof.
  intros Hk Ht. pose proof (lookup_lt_Some _ _ _ Hk). rewrite (flatten_split l k x Hk).
  unfold iidx at 1. rewrite depth_app_r, depth_app_l by done. f_equal.
  apply flatten_total. lia.
Qed.

Lemma inner_S k x t i : l !! k = Some x -> item_code x !! t = Some i -> (S t <= length (item_code x))%nat.
Proof. intros _ Ht. by apply lookup_lt_Some in Ht. Qed.
End Items.

(** ** Assembling *)

Theorem items_frag nc l : items_ok nc l -> frag nc (flatten l).
Proof.
  intros Hl.
  assert (Hin : forall t i, flatten l !! t = Some i -> exists k x t',
            l !! k = Some x /\ item_ok nc l k x /\ item_code x !! t' = Some i /\ t = (iidx l k + t')%nat /\
            (S k <= length l)%nat /\ (S t' <= length (item_code x))%nat).
  { intros t i Ht. destruct (flatten_lookup l t i Ht) as (k & x & t' & Hk & Hi & E).
    exists k, x, t'. split_and!; try done; [by apply (i_items _ _ Hl)|by apply lookup_lt_Some in Hk|by apply lookup_lt_Some in Hi]. }
  split.
  - apply Forall_lookup. intros t i Ht. destruct (Hin t i Ht) as (k & [j|p] & t' & _ & Hx & Hi & _).
    + destruct t'; [|done]. injection Hi as <-. apply Hx.
    + pose proof (f_wf _ _ Hx) as Hf. rewrite Forall_lookup in Hf. by eapply Hf.
  - intros t i off dd Ht Hj. destruct (Hin t i Ht) as (k & x & t' & Hk & Hx & Hi & -> & Hlt & Hlt').
    unfold lands. rewrite <- Nat.add_succ_r, (inner_posn l k x (S t') Hk Hlt').
    rewrite (inner_depth nc l Hl k x t' Hk ltac:(lia)). destruct x as [j|p].
    + destruct t'; [|done]. injection Hi as ->. destruct Hx as (_ & _ & Hx & _). rewrite Hj in Hx.
      destruct Hx as (j & Hjl & Hp & Hd). exists (iidx l j). split; [apply iidx_le|].
      rewrite (ipos_posn l j Hjl), (idepth_depth nc l Hl j Hjl), Hp, Hd. split; [|cbn; lia].
      rewrite <- (ipos_posn l (S k) Hlt), (iidx_S l k _ Hk).
      rewrite <- (inner_posn l k _ _ Hk) by done. done.
    + destruct (f_jumps _ _ Hx t' i off dd Hi Hj) as (j & Hjl & Hp & Hd). cbn in Hjl. exists (iidx l k + j)%nat.
      split; [pose proof (iidx_le l (S k)); rewrite (iidx_S l k _ Hk) in *; cbn [item_code] in *; lia|].
      rewrite (inner_posn l k _ j Hk Hjl), (inner_depth nc l Hl k _ j Hk Hjl). cbn [item_code] in *. lia.
  - intros t i Ht. destruct (Hin t i Ht) as (k & x & t' & Hk & Hx & Hi & -> & Hlt & Hlt').
    rewrite (inner_depth nc l Hl k x t' Hk ltac:(lia)). destruct x as [j|p].
    + destruct t'; [|done]. injection Hi as ->. destruct Hx as (_ & Hx & _). cbn. lia.
    + pose proof (f_needs _ _ Hx t' i Hi). pose proof (i_depth _ _ Hl k ltac:(lia)). cbn [item_code]. lia.
  - intros t Ht. destruct (decide (t = length (flatten l))) as [->|Hne].
    + pose proof (flatten_total nc l Hl (length l) ltac:(done)) as E. rewrite (take_ge l) in E by done.
      unfold total in E. rewrite E, (i_end _ _ Hl). done.
    + destruct (lookup_lt_is_Some_2 (flatten l) t) as [i Hi']; [lia|].
      destruct (Hin t i Hi') as (k & x & t' & Hk & Hx & Hi & -> & Hlt & Hlt').
      rewrite (inner_depth nc l Hl k x t' Hk ltac:(lia)). pose proof (i_depth _ _ Hl k ltac:(lia)).
      destruct x as [j|p]; [destruct t'; [cbn; lia|cbn in Hlt'; lia]|]. pose proof (f_depth _ _ Hx t' ltac:(cbn in *; lia)). cbn [item_code]. lia.
  - pose proof (flatten_total nc l Hl (length l) ltac:(done)) as E. rewrite (take_ge l) in E by done.
    rewrite <- (i_end _ _ Hl). exact E.
  - intros t off mn mx count Ht. destruct (Hin t _ Ht) as (k & x & t' & Hk & Hx & Hi & -> & Hlt & Hlt').
    pose proof (flatten_split l k x Hk) as E.
    assert (drop (S (iidx l k + t')) (flatten l) = drop (S t') (item_code x) ++ flatten (drop (S k) l)) as ->.
    { rewrite E, <- Nat.add_succ_r, <- drop_drop. unfold iidx. rewrite drop_app_length. by rewrite drop_app_le. }
    destruct x as [j|p].
    + destruct t'; [|done]. injection Hi as ->. destruct Hx as (_ & _ & _ & Hx). cbn. done.
    + destruct (f_greedy _ _ Hx t' _ _ _ _ Hi) as (body & rest & Hb & H2). exists body, (rest ++ flatten (drop (S k) l)).
      cbn [item_code]. rewrite Hb. split; [by rewrite <- app_assoc|done].
Qed.

(** A list of items is checked item by item. *)
Lemma items_ok_intro nc l :
  (forall k x, l !! k = Some x -> item_ok nc l k x) ->
  forallb (fun k => 0 <=? idepth l k) (seq 0 (S (length l))) = true -> idepth l (length l) = 0 -> items_ok nc l.
Proof.
  intros H1 H2 H3. split; [done| |done]. intros k Hk. rewrite forallb_forall in H2.
  specialize (H2 k). rewrite in_seq in H2. specialize (H2 ltac:(lia)). lia.
Qed.

Lemma frag_nil nc : frag nc [].
Proof. apply (items_frag nc []), items_ok_intro; done. Qed.

Lemma frag_app nc p q : frag nc p -> frag nc q -> frag nc (p ++ q).
Proof.
  intros Hp Hq. replace (p ++ q) with (flatten [inr p; inr q]) by (unfold flatten; cbn; by rewrite app_nil_r).
  apply items_frag, items_ok_intro; [|done|done]. intros [|[|k]] x Hk; [injection Hk as <-; done..|done].
Qed.

Lemma wf_instr_mono nc nc' i : nc <= nc' -> wf_instr nc i = true -> wf_instr nc' i = true.
Proof.
  intros Hle H. destruct i; cbn in *; try done.
  - breflect. apply andb_true_iff. split; [done|]. apply orb_true_iff.
    match goal with H : (_ || _)%bool = true |- _ => apply orb_true_iff in H as [H|H]; [left|by right] end.
    breflect. apply andb_true_iff. split; [done|]. lia.
  - breflect. rewrite !andb_true_iff. split; [done|lia].
Qed.

Lemma frag_mono nc nc' p : nc <= nc' -> frag nc p -> frag nc' p.
Proof.
  intros Hle [H1 H2 H3 H4 H5 H6]. split; try done. eapply Forall_impl; [exact H1|].
  intros i. by apply wf_instr_mono.
Qed.

(** One balanced instruction. *)
Lemma frag_one nc i : wf_instr nc i = true -> delta i = 0 -> needs i = 0 -> jump i = None -> frag nc [i].
Proof.
  intros H1 H2 H3 H4. apply (items_frag nc [inl i]), items_ok_intro; [|cbn; by rewrite H2|cbn; by rewrite H2].
  intros [|k] x Hk; [|done]. injection Hk as <-. cbn [item_ok]. rewrite H4. split_and!; try done.
  - rewrite H3. cbn. lia.
  - destruct i; done.
Qed.

Lemma item_size_inl i : item_size (inl i) = isize i.
Proof. unfold item_size, isize, code_of. cbn. by rewrite app_nil_r. Qed.

Lemma isize_jump op off : isize (IJump op off) = 5.
Proof. done. Qed.
Lemma isize_op op : isize (IOp op) = 1.
Proof. done. Qed.
Lemma isize_push v : isize (IPush v) = 5.
Proof. done. Qed.
Lemma isize_quant off mn mx n : isize (IGreedy off mn mx n) = 17.
Proof. done. Qed.
Lemma item_size_inr p : item_size (inr p) = zlen (code_of p).
Proof. done. Qed.

Lemma code_of_one i : code_of [i] = encode i.
Proof. unfold code_of. cbn. by rewrite app_nil_r. Qed.

(** Checks item [k] of an explicit list: the items by case, a jump by giving
    the item it leads to. *)
Ltac item_case :=
  let k := fresh "k" in let x := fresh "x" in let Hk := fresh "Hk" in
  intros k x Hk; repeat (destruct k as [|k]; [injection Hk as <-|]); [..|done].
Ltac item_plain := cbn [item_ok wf_instr needs jump]; split_and!; first [done|cbn; lia].
Ltac item_sizes := rewrite ?item_size_inl, ?item_size_inr, ?isize_jump, ?isize_op, ?isize_push, ?isize_quant.
Ltac item_jump j :=
  cbn [item_ok]; split_and!;
  [|cbn; lia|exists j; cbn [ipos idepth length]; item_sizes; split_and!; [lia|lia|cbn; lia]|done].

(** ** The constructs of the compiler *)

Definition is_split (op : REOPCodeEnum) : bool :=
  match op with REOP_split_goto_first | REOP_split_next_first => true | _ => false end.
Definition is_look (op : REOPCodeEnum) : bool :=
  match op with REOP_lookahead | REOP_negative_lookahead => true | _ => false end.

(** The offsets of code below 2^31 bytes. *)
Definition fits (x : Z) : Prop := x < 2 ^ 31.

Lemma fits_i32 x b : fits b -> - b <= x <= b -> is_i32 x = true.
Proof. unfold fits, is_i32. intros. apply andb_true_iff. lia. Qed.

Section Constructs.
Context (nc : Z) (p : list instr) (Hp : frag nc p).
Notation s := (zlen (code_of p)).

Lemma isize_nonneg (q : list instr) : 0 <= zlen (code_of q).
Proof. apply zlen_nonneg. Qed.

(** Assembles the items of [l] and checks all but the jumps; a jump whose
    opcode is a variable gives two cases. *)
Ltac by_op := first [done|match goal with op : REOPCodeEnum |- _ => destruct op; done end].
Ltac construct l :=
  match goal with |- frag _ ?c =>
    replace c with (flatten l) by (unfold flatten; cbn; rewrite ?app_nil_r, <- ?app_assoc; done) end;
  pose proof (isize_nonneg p); apply items_frag, items_ok_intro;
  [item_case; try match goal with op : REOPCodeEnum |- _ => destruct op; try done end;
   try done; try solve [item_plain]
  |by_op|by_op].
Ltac jump_wf :=
  cbn [wf_instr op_jump andb];
  first [done|match goal with Hf : fits (s + _) |- _ => apply (fits_i32 _ _ Hf); lia end].
Ltac jump_to j := item_jump j; jump_wf.

Lemma frag_look op : is_look op = true -> fits (s + 6) ->
  frag nc ([IJump op (s + 1)] ++ p ++ [IOp REOP_match]).
Proof.
  intros Hop Hf. construct [inl (IJump op (s + 1)); inr p; inl (IOp REOP_match)]; jump_to 3%nat.
Qed.

Lemma frag_greedy mn mx n : simple_code p = Some n -> is_u32 mn = true -> is_u32 mx = true ->
  is_u32 n = true -> 0 < n -> fits (s + 18) ->
  frag nc ([IGreedy (s + 1) mn mx n] ++ p ++ [IOp REOP_match]).
Proof.
  intros Hn Hmn Hmx Hn' Hpos Hf.
  construct [inl (IGreedy (s + 1) mn mx n); inr p; inl (IOp REOP_match)].
  cbn [item_ok]. split_and!.
  - cbn [wf_instr]. rewrite Hmn, Hmx, Hn', (fits_i32 _ (s + 18)) by (done || lia). cbn [andb]. rewrite !andb_true_iff. lia.
  - done.
  - exists 3%nat. split; [cbn; lia|]. split; [|done]. cbn [ipos]. item_sizes. lia.
  - exists p, []. split; [|done]. unfold flatten. cbn. done.
Qed.

Lemma frag_opt op : is_split op = true -> fits (s + 5) -> frag nc ([IJump op s] ++ p).
Proof.
  intros Hop Hf. construct [inl (IJump op s); inr p]; jump_to 2%nat.
Qed.

Lemma frag_star op : is_split op = true -> fits (s + 10) ->
  frag nc ([IJump op (s + 5)] ++ p ++ [IJump REOP_goto (- (s + 10))]).
Proof.
  intros Hop Hf. construct [inl (IJump op (s + 5)); inr p; inl (IJump REOP_goto (- (s + 10)))];
    [jump_to 3%nat|jump_to 3%nat|jump_to 0%nat..].
Qed.

Lemma frag_star_check op : is_split op = true -> fits (s + 11) ->
  frag nc ([IJump op (s + 6); IOp REOP_push_char_pos] ++ p ++ [IJump REOP_bne_char_pos (- (s + 11))]).
Proof.
  intros Hop Hf.
  construct [inl (IJump op (s + 6)); inl (IOp REOP_push_char_pos); inr p; inl (IJump REOP_bne_char_pos (- (s + 11)))];
    [jump_to 4%nat|jump_to 4%nat|jump_to 0%nat..].
Qed.

Lemma frag_loop_max op v : is_split op = true -> is_u32 v = true -> fits (s + 16) ->
  frag nc ([IPush v; IJump op (s + 5)] ++ p ++ [IJump REOP_loop (- (s + 10)); IOp REOP_drop]).
Proof.
  intros Hop Hv Hf.
  construct [inl (IPush v); inl (IJump op (s + 5)); inr p; inl (IJump REOP_loop (- (s + 10))); inl (IOp REOP_drop)];
    [jump_to 4%nat|jump_to 4%nat|jump_to 1%nat..].
Qed.

Lemma frag_plus op : is_split op = true -> fits (s + 5) -> frag nc (p ++ [IJump op (- (s + 5))]).
Proof.
  intros Hop Hf. construct [inr p; inl (IJump op (- (s + 5)))]; jump_to 0%nat.
Qed.

Lemma frag_loop_min v : is_u32 v = true -> fits (s + 11) ->
  frag nc ([IPush v] ++ p ++ [IJump REOP_loop (- (s + 5)); IOp REOP_drop]).
Proof.
  intros Hv Hf. construct [inl (IPush v); inr p; inl (IJump REOP_loop (- (s + 5))); inl (IOp REOP_drop)].
  jump_to 1%nat.
Qed.

Lemma frag_alt op q : is_split op = true -> frag nc q -> fits (s + 10) -> fits (zlen (code_of q)) ->
  frag nc ([IJump op (s + 5)] ++ p ++ [IJump REOP_goto (zlen (code_of q))] ++ q).
Proof.
  intros Hop Hq Hf Hg.
  construct [inl (IJump op (s + 5)); inr p; inl (IJump REOP_goto (zlen (code_of q))); inr q];
    [jump_to 3%nat|jump_to 3%nat|..].
  all: item_jump 4%nat; apply (fits_i32 _ (zlen (code_of q))); [done|pose proof (isize_nonneg q); lia].
Qed.

(** The search loop before an expression that is not sticky. *)
Definition search_loop : list instr := [IJump REOP_split_goto_first 6; IOp REOP_any; IJump REOP_goto (-11)].

Lemma frag_search : frag nc search_loop.
Proof.
  construct [inl (IJump REOP_split_goto_first 6); inl (IOp REOP_any); inl (IJump REOP_goto (-11)) : item];
    [jump_to 3%nat|jump_to 0%nat].
Qed.
End Constructs.

(** ** Complete code *)

Lemma total_app p q : total (p ++ q) = total p + total q.
Proof. unfold total at 1. by rewrite length_app, depth_app_r. Qed.

Lemma frag_verified nc smax p :
  frag nc p -> (forall k, (k <= length p)%nat -> depth p k <= smax) ->
  verified nc smax (p ++ [IOp REOP_match]).
Proof.
  intros Hp Hd.
  assert (Hlk : forall k i, (p ++ [IOp REOP_match]) !! k = Some i ->
            (p !! k = Some i /\ (S k <= length p)%nat) \/ (k = length p /\ i = IOp REOP_match)).
  { intros k i Hk. apply lookup_app_Some in Hk as [Hk|[Hge Hk]].
    - left. split; [done|]. by apply lookup_lt_Some in Hk.
    - right. apply list_lookup_singleton_Some in Hk as [Hk <-]. split; [lia|done]. }
  assert (Hsplit : forall k, (k <= length (p ++ [IOp REOP_match]))%nat -> 0 <= depth (p ++ [IOp REOP_match]) k <= smax).
  { intros k Hk. rewrite length_app in Hk. cbn in Hk. destruct (decide (k <= length p)%nat) as [Hle|Hgt].
    - rewrite depth_app_l by done. split; [by apply Hp|by apply Hd].
    - replace k with (length p + 1)%nat by lia. rewrite depth_app_r. unfold total. rewrite (f_end _ _ Hp).
      change (depth [IOp REOP_match] 1) with 0. specialize (Hd (length p) ltac:(done)). rewrite (f_end _ _ Hp) in Hd. lia. }
  split; [| | | |done|].
  - apply Forall_app. split; [apply Hp|]. by constructor.
  - intros k i off dd Hk Hj. destruct (Hlk k i Hk) as [[Hk' Hlt]|[-> ->]]; [|done].
    destruct (f_jumps _ _ Hp k i off dd Hk' Hj) as (j & Hj1 & Hj2 & Hj3). exists j.
    rewrite length_app, Nat.add_sub, !posn_app_l, !depth_app_l by lia. done.
  - intros k i Hk Hf. rewrite length_app. cbn [length].
    destruct (Hlk k i Hk) as [[Hk' Hlt]|[-> ->]]; [lia|done].
  - intros k i Hk. destruct (Hlk k i Hk) as [[Hk' Hlt]|[-> ->]].
    + rewrite depth_app_l by lia. by apply Hp.
    + rewrite depth_app_l by lia. cbn. by apply Hp.
  - intros k off mn mx count Hk. destruct (Hlk k _ Hk) as [[Hk' Hlt]|[-> E]]; [|done].
    destruct (f_greedy _ _ Hp k _ _ _ _ Hk') as (body & rest & Hb & H2). exists body, (rest ++ [IOp REOP_match]).
    rewrite drop_app_le, Hb, <- app_assoc by done. done.
Qed.
