(* ===== verification/RegexpText.v ===== *)
(** * Regular expressions: reading the text

    The macros [GET_CHAR], [PEEK_CHAR], ..., [PREV_CHAR] of the matcher on a
    text of 8-bit characters ([cbuf_type] 0), of 16-bit characters (1) or of
    UTF-16 (2): they stay in the text, and stepping back undoes steps forward
    even where a position is in the middle of a surrogate pair. *)

From S2P Require Import Prelude Cutils UnicodeLookup RegexpOp RegexpExec.

#[local] Ltac Zify.zify_post_hook ::= Z.to_euclidean_division_equations.

Section Text.
Context (cbuf : list Z) (ty cend : Z).

Record text_ok : Prop := {
  t_bytes : Forall is_byte cbuf;
  t_end : 0 <= cend <= zlen cbuf;
  t_type : 0 <= ty <= 2;
  t_even : ty <> 0 -> cend mod 2 = 0;
}.
Context (Hok : text_ok).

(** A position between two characters (or two halves of one). *)
Definition tpos (q : Z) : Prop := 0 <= q <= cend /\ (ty <> 0 -> q mod 2 = 0).

Definition unit_at (q : Z) : Z := match Bits.get_u16 cbuf q with Ret v => v | Fault _ => 0 end.

Lemma get_u16_ok q : 0 <= q -> q + 2 <= zlen cbuf ->
  Bits.get_u16 cbuf q = Ret (unit_at q) /\ 0 <= unit_at q < 65536.
Proof.
  intros H1 H2. unfold unit_at, Bits.get_u16. rewrite rd_range_ok by lia. cbn [fmap outcome_fmap].
  split; [done|]. set (l := take _ _).
  assert (zlen l = 2) as Hl by (subst l; rewrite zlen_take, zlen_drop; lia).
  pose proof (Bits.le_val_range l) as H. rewrite <- (Z2Nat.id (zlen l)) in Hl by lia.
  unfold zlen in *. rewrite Nat2Z.id in Hl. assert (length l = 2%nat) as Hl2 by lia. rewrite Hl2 in H. apply H.
  apply Forall_take, Forall_drop. exact (t_bytes Hok).
Qed.

Lemma rd_byte q : 0 <= q < zlen cbuf -> exists c, rd cbuf q = Ret c /\ 0 <= c < 256.
Proof.
  intros Hq. destruct (rd_ok cbuf q Hq) as (c & Hc & ->). exists c. split; [done|].
  pose proof (t_bytes Hok) as Hb. rewrite Forall_lookup in Hb. by apply (Hb (Z.to_nat q)).
Qed.

Lemma surrogate_pair_char a b : is_hi_surrogate a = true -> is_lo_surrogate b = true ->
  is_char (surrogate_pair a b).
Proof.
  unfold is_hi_surrogate, is_lo_surrogate, surrogate_pair. intros H1 H2. breflect.
  change 0x3ff with (Z.ones 10). rewrite !Z.land_ones by lia. rewrite Z.shiftl_mul_pow2 by lia.
  rewrite Z.lor_comm, Bits.lor_add by (pose proof (Z.mod_pos_bound b (2 ^ 10)); lia).
  unfold is_char. pose proof (Z.mod_pos_bound a (2 ^ 10) ltac:(lia)).
  pose proof (Z.mod_pos_bound b (2 ^ 10) ltac:(lia)). lia.
Qed.

(** The position after the character at [q], and the one before it. *)
Definition fwd (q : Z) : Z :=
  if ty =? 0 then q + 1
  else if is_hi_surrogate (unit_at q) && (ty =? 2) && (q + 2 <? cend) && is_lo_surrogate (unit_at (q + 2))
  then q + 4 else q + 2.

Definition back (q : Z) : Z :=
  if ty =? 0 then q - 1
  else if (ty =? 2) && is_lo_surrogate (unit_at (q - 2)) && (0 <? q - 2) && is_hi_surrogate (unit_at (q - 4))
  then q - 4 else q - 2.

Ltac solve_pos := first [lia | (split; [lia|intros; lia])].

Lemma tpos_step q : ty <> 0 -> tpos q -> q < cend -> q + 2 <= cend.
Proof. intros Hty [Hq Hm] Hlt. pose proof (t_even Hok Hty). specialize (Hm Hty). lia. Qed.

Lemma tpos_back_step q : ty <> 0 -> tpos q -> 0 < q -> 2 <= q.
Proof. intros Hty [Hq Hm] Hlt. specialize (Hm Hty). lia. Qed.

Lemma is_char_unit c : 0 <= c < 65536 -> is_char c.
Proof. unfold is_char. lia. Qed.
Lemma is_char_byte c : 0 <= c < 256 -> is_char c.
Proof. unfold is_char. lia. Qed.

Lemma GET_CHAR_end q e : tpos q -> tpos e -> q < e ->
  exists c q', GET_CHAR cbuf ty q e = Ret (c, q') /\ is_char c /\ q < q' <= e /\ tpos q' /\
    (e = cend -> q' = fwd q).
Proof.
  intros Hq He Hlt. unfold GET_CHAR, fwd. pose proof (t_end Hok). destruct Hq as [Hq Hm], He as [He Hme].
  destruct (Z.eqb_spec ty 0) as [Ht|Ht].
  - destruct (rd_byte q ltac:(lia)) as (c & -> & Hc). cbn [mbind outcome_bind].
    exists c, (q + 1). split_and!; try done || lia; [by apply is_char_byte|].
    split; [lia|]. intros; lia.
  - specialize (Hm Ht). specialize (Hme Ht).
    destruct (get_u16_ok q ltac:(lia) ltac:(lia)) as [-> Hu]. cbn [mbind outcome_bind].
    destruct (is_hi_surrogate (unit_at q)) eqn:Eh; cbn [andb].
    2:{ exists (unit_at q), (q + 2). split_and!; try done || lia; [by apply is_char_unit|split; [lia|intros; lia]]. }
    destruct (ty =? 2) eqn:E2; cbn [andb].
    2:{ exists (unit_at q), (q + 2). split_and!; try done || lia; [by apply is_char_unit|split; [lia|intros; lia]]. }
    destruct (Z.ltb_spec (q + 2) e).
    2:{ exists (unit_at q), (q + 2). split_and!; try done || lia; [by apply is_char_unit|split; [lia|intros; lia]|].
        intros ->. by rewrite (proj2 (Z.ltb_ge (q + 2) cend)) by lia. }
    destruct (get_u16_ok (q + 2) ltac:(lia) ltac:(lia)) as [-> Hu2]. cbn [mbind outcome_bind].
    destruct (is_lo_surrogate (unit_at (q + 2))) eqn:El.
    + exists (surrogate_pair (unit_at q) (unit_at (q + 2))), (q + 2 + 2).
      split_and!; try done || lia; [by apply surrogate_pair_char|split; [lia|intros; lia]|].
      intros ->. rewrite (proj2 (Z.ltb_lt (q + 2) cend)) by lia. cbn [andb]. lia.
    + exists (unit_at q), (q + 2). split_and!; try done || lia; [by apply is_char_unit|split; [lia|intros; lia]|].
      intros _. by rewrite andb_false_r.
Qed.

Lemma tpos_cend : tpos cend.
Proof. split; [pose proof (t_end Hok); lia|exact (t_even Hok)]. Qed.

Lemma GET_CHAR_ok q : tpos q -> q < cend ->
  exists c, GET_CHAR cbuf ty q cend = Ret (c, fwd q) /\ is_char c /\ q < fwd q <= cend /\ tpos (fwd q).
Proof.
  intros Hq Hlt. destruct (GET_CHAR_end q cend Hq tpos_cend Hlt) as (c & q' & E & Hc & Hb & Hp & Hf).
  rewrite <- (Hf eq_refl). by exists c.
Qed.

Lemma PEEK_CHAR_ok q : tpos q -> q < cend -> wp (PEEK_CHAR cbuf ty q cend) is_char.
Proof.
  intros Hq Hlt. unfold PEEK_CHAR. pose proof (t_end Hok).
  destruct (Z.eqb_spec ty 0) as [Ht|Ht].
  - destruct Hq. destruct (rd_byte q ltac:(lia)) as (c & -> & Hc). by apply is_char_byte.
  - pose proof (tpos_step q Ht Hq Hlt). destruct Hq as [Hq Hm]. specialize (Hm Ht).
    destruct (get_u16_ok q ltac:(lia) ltac:(lia)) as [-> Hu]. cbn [mbind outcome_bind].
    destruct (is_hi_surrogate (unit_at q) && (ty =? 2) && (q + 2 <? cend)) eqn:E; [|by apply is_char_unit].
    breflect. pose proof (t_even Hok Ht).
    destruct (get_u16_ok (q + 2) ltac:(lia) ltac:(lia)) as [-> Hu2]. cbn [mbind outcome_bind].
    destruct (is_lo_surrogate _) eqn:El; [by apply surrogate_pair_char|by apply is_char_unit].
Qed.

Lemma PEEK_PREV_CHAR_ok q : tpos q -> 0 < q -> wp (PEEK_PREV_CHAR cbuf ty q 0) is_char.
Proof.
  intros Hq Hlt. unfold PEEK_PREV_CHAR. pose proof (t_end Hok).
  destruct (Z.eqb_spec ty 0) as [Ht|Ht].
  - destruct Hq. destruct (rd_byte (q - 1) ltac:(lia)) as (c & -> & Hc). by apply is_char_byte.
  - pose proof (tpos_back_step q Ht Hq Hlt). destruct Hq as [Hq Hm]. specialize (Hm Ht).
    destruct (get_u16_ok (q - 2) ltac:(lia) ltac:(lia)) as [-> Hu]. cbn [mbind outcome_bind].
    destruct (is_lo_surrogate (unit_at (q - 2)) && (ty =? 2) && (0 <=? q - 4)) eqn:E; [|by apply is_char_unit].
    breflect. destruct (get_u16_ok (q - 4) ltac:(lia) ltac:(lia)) as [-> Hu2]. cbn [mbind outcome_bind].
    destruct (is_hi_surrogate _) eqn:El; [by apply surrogate_pair_char|by apply is_char_unit].
Qed.

Lemma GET_PREV_CHAR_ok q st : tpos q -> tpos st -> st < q ->
  exists c q', GET_PREV_CHAR cbuf ty q st = Ret (c, q') /\ is_char c /\ st <= q' < q /\ tpos q'.
Proof.
  intros [Hq Hm] [Hst Hms] Hlt. unfold GET_PREV_CHAR. pose proof (t_end Hok).
  destruct (Z.eqb_spec ty 0) as [Ht|Ht].
  - destruct (rd_byte (q - 1) ltac:(lia)) as (c & -> & Hc). cbn [mbind outcome_bind].
    exists c, (q - 1). split_and!; try done || lia; [by apply is_char_byte|split; [lia|intros; lia]].
  - specialize (Hm Ht). specialize (Hms Ht). cbn zeta.
    destruct (get_u16_ok (q - 2) ltac:(lia) ltac:(lia)) as [-> Hu]. cbn [mbind outcome_bind].
    destruct (is_lo_surrogate (unit_at (q - 2)) && (ty =? 2) && (st <? q - 2)) eqn:E.
    2:{ exists (unit_at (q - 2)), (q - 2).
        split_and!; try done || lia; [by apply is_char_unit|split; [lia|intros; lia]]. }
    breflect. destruct (get_u16_ok (q - 2 - 2) ltac:(lia) ltac:(lia)) as [-> Hu2]. cbn [mbind outcome_bind].
    destruct (is_hi_surrogate _) eqn:El; eexists _, _;
      (split_and!; [reflexivity|first [by apply surrogate_pair_char|by apply is_char_unit]|lia|lia|split; [lia|intros; lia]]).
Qed.

Lemma PREV_CHAR_ok q : tpos q -> 0 < q ->
  PREV_CHAR cbuf ty q 0 = Ret (back q) /\ 0 <= back q < q /\ tpos (back q).
Proof.
  intros Hq Hlt. unfold PREV_CHAR, back. pose proof (t_end Hok).
  destruct (Z.eqb_spec ty 0) as [Ht|Ht].
  - destruct Hq. split_and!; try done || lia. split; [lia|intros; lia].
  - pose proof (tpos_back_step q Ht Hq Hlt). destruct Hq as [Hq Hm]. specialize (Hm Ht). cbn zeta.
    destruct (ty =? 2); cbn [andb]; [|split_and!; try done || lia; split; [lia|intros; lia]].
    destruct (get_u16_ok (q - 2) ltac:(lia) ltac:(lia)) as [-> Hu]. cbn [mbind outcome_bind].
    destruct (is_lo_surrogate _); cbn [andb]; [|split_and!; try done || lia; split; [lia|intros; lia]].
    destruct (Z.ltb_spec 0 (q - 2)); cbn [andb]; [|split_and!; try done || lia; split; [lia|intros; lia]].
    replace (q - 2 - 2) with (q - 4) by lia.
    destruct (get_u16_ok (q - 4) ltac:(lia) ltac:(lia)) as [-> Hu2]. cbn [mbind outcome_bind].
    destruct (is_hi_surrogate _); (split_and!; [done|lia|lia|split; [lia|intros; lia]]).
Qed.

(** ** Steps forward and back *)

(** [q'] is [n] characters after [q]. *)
Inductive adv : nat -> Z -> Z -> Prop :=
  | adv_0 q : adv 0 q q
  | adv_S n q q' : adv n q q' -> q' < cend -> adv (S n) q (fwd q').

(** [n] steps back from [q] stay in the text. *)
Fixpoint can_back (n : nat) (q : Z) : Prop :=
  match n with O => tpos q | S n => tpos q /\ 0 < q /\ can_back n (back q) end.

Lemma adv_trans n m q1 q2 q3 : adv n q1 q2 -> adv m q2 q3 -> adv (n + m) q1 q3.
Proof.
  intros H1 H2. revert H1. induction H2 as [q|m q q' H2 IH Hlt]; intros H1.
  - by rewrite Nat.add_0_r.
  - rewrite Nat.add_succ_r. constructor; [by apply IH|done].
Qed.

Lemma adv_tpos n q q' : tpos q -> adv n q q' -> tpos q' /\ q <= q'.
Proof.
  intros Hq H. induction H as [q|n q q' H IH Hlt]; [split; [done|lia]|].
  destruct (IH Hq) as [Hq' Hle]. destruct (GET_CHAR_ok q' Hq' Hlt) as (_ & _ & _ & Hb & Hp). split; [done|lia].
Qed.

(** The middle of a surrogate pair. *)
Definition mid (q : Z) : Prop :=
  ty = 2 /\ 2 <= q < cend /\ is_hi_surrogate (unit_at (q - 2)) = true /\ is_lo_surrogate (unit_at q) = true.

Lemma hi_not_lo c : is_hi_surrogate c = true -> is_lo_surrogate c = false.
Proof. unfold is_hi_surrogate, is_lo_surrogate. intros H. breflect. by rewrite (proj2 (Z.leb_gt _ c)) by lia. Qed.

Lemma fwd_not_mid q : tpos q -> q < cend -> ~ mid (fwd q).
Proof.
  intros Hq Hlt (H2 & Hb & Hh & Hl). unfold fwd in *. rewrite H2 in *. change (2 =? 0) with false in *.
  change (2 =? 2) with true in *. rewrite andb_true_r in *.
  destruct (is_hi_surrogate (unit_at q)) eqn:Eh; cbn [andb] in *.
  - destruct (Z.ltb_spec (q + 2) cend) as [Hlt2|Hge]; cbn [andb] in *; [|lia].
    destruct (is_lo_surrogate (unit_at (q + 2))) eqn:El.
    + replace (q + 4 - 2) with (q + 2) in Hh by lia. apply hi_not_lo in Hh. congruence.
    + congruence.
  - replace (q + 2 - 2) with q in Hh by lia. congruence.
Qed.

Lemma back_fwd q : tpos q -> q < cend -> ~ mid q -> back (fwd q) = q.
Proof.
  intros Hq Hlt Hm. unfold back, fwd. destruct (Z.eqb_spec ty 0) as [Ht|Ht]; [lia|].
  pose proof (tpos_step q Ht Hq Hlt). destruct Hq as [Hq Hmod]. specialize (Hmod Ht).
  destruct (Z.eqb_spec ty 2) as [E2|E2]; cbn [andb]; rewrite ?andb_false_r; cbn [andb]; [|lia].
  rewrite andb_true_r.
  destruct (is_hi_surrogate (unit_at q) && (q + 2 <? cend) && is_lo_surrogate (unit_at (q + 2))) eqn:E.
  - breflect. replace (q + 4 - 2) with (q + 2) by lia. replace (q + 4 - 4) with q by lia.
    rewrite H0, H1. rewrite (proj2 (Z.ltb_lt 0 _)) by lia. cbn [andb]. lia.
  - replace (q + 2 - 2) with q by lia. replace (q + 2 - 4) with (q - 2) by lia.
    destruct (is_lo_surrogate (unit_at q)) eqn:El; cbn [andb]; [|lia].
    destruct (Z.ltb_spec 0 q); cbn [andb]; [|lia].
    destruct (is_hi_surrogate (unit_at (q - 2))) eqn:Eh; [|lia].
    exfalso. apply Hm. split_and!; done || lia.
Qed.

Lemma can_back_tpos n q : can_back n q -> tpos q.
Proof. destruct n; simpl; tauto. Qed.

Lemma adv_can_back n q q' : tpos q -> adv n q q' -> can_back n q'.
Proof.
  intros Hq H. induction H as [q|n q q' H IH Hlt]; [done|]. specialize (IH Hq).
  pose proof (adv_tpos _ _ _ Hq H) as [Hq' Hle].
  destruct (GET_CHAR_ok q' Hq' Hlt) as (_ & _ & _ & Hb & Hp). cbn [can_back].
  assert (0 < fwd q') as Hpos by (destruct Hq'; lia).
  split; [done|]. split; [done|].
  destruct H as [q|n q q0 H Hlt0].
  - cbn [can_back]. apply (PREV_CHAR_ok (fwd q) Hp Hpos).
  - rewrite back_fwd; [done..|]. apply fwd_not_mid; [|done].
    apply (adv_tpos _ _ _ Hq H).
Qed.

Lemma can_back_le n m q : can_back n q -> (m <= n)%nat -> can_back m q.
Proof.
  revert m q. induction n as [|n IH]; intros m q Hc Hm.
  - by replace m with 0%nat by lia.
  - destruct m as [|m]; [by apply (can_back_tpos (S n))|]. destruct Hc as (H1 & H2 & H3).
    split_and!; [done..|]. apply IH; [done|lia].
Qed.

Lemma prev_chars_ok n m q : can_back (n + m) q ->
  exists q', prev_chars cbuf ty n q = Ret q' /\ can_back m q'.
Proof.
  revert q. induction n as [|n IH]; intros q Hc; [by exists q|].
  destruct Hc as (Hq & Hpos & Hc). destruct (PREV_CHAR_ok q Hq Hpos) as (E & _ & _).
  cbn [prev_chars]. rewrite E. cbn [mbind outcome_bind]. by apply IH.
Qed.

Lemma can_back_bound n q : can_back n q -> Z.of_nat n <= q.
Proof.
  revert q. induction n as [|n IH]; intros q Hc; [destruct Hc; lia|].
  destruct Hc as (Hq & Hpos & Hc). specialize (IH _ Hc).
  destruct (PREV_CHAR_ok q Hq Hpos) as (_ & Hb & _). lia.
Qed.
End Text.

(** ** Case folding of a character *)

Lemma lre_case_conv_chars c conv_type : is_char c -> 0 <= conv_type <= 2 ->
  wp (lre_case_conv c conv_type) (fun l => (1 <= length l <= 3)%nat /\ Forall is_char l).
Proof.
  intros Hc Ht. unfold lre_case_conv.
  assert (H1 : forall x, is_char x -> (1 <= length [x] <= 3)%nat /\ Forall is_char [x])
    by (intros x Hx; split; [simpl; lia|by apply Forall_singleton]).
  destruct (Z.ltb_spec c 128).
  { unfold is_char in Hc. change (ch "A") with 65. change (ch "Z") with 90. change (ch "a") with 97. change (ch "z") with 122.
    repeat case_match; breflect; apply wp_ret, H1; unfold is_char; lia. }
  apply wp_bind. eapply wp_mono; [apply case_search_spec; unfold is_char in Hc; lia|]. intros [idx|].
  - intros (Hidx & v & Hv & Hin). by apply (case_conv_entry_spec c conv_type idx v).
  - intros _. by apply wp_ret, H1.
Qed.

Lemma lre_canonicalize_char c u : is_char c -> wp (lre_canonicalize c u) is_char.
Proof.
  intros Hc. unfold lre_canonicalize, in_chars.
  change (ch "A") with 65. change (ch "Z") with 90. change (ch "a") with 97. change (ch "z") with 122.
  assert (Hhd : forall l : list Z, (1 <= length l <= 3)%nat /\ Forall is_char l -> wp (rd l 0) is_char).
  { intros [|x l] [Hl Hf]; [simpl in Hl; lia|]. by apply Forall_cons in Hf as [? _]. }
  destruct u, (Z.ltb_spec c 128).
  - apply wp_ret. unfold is_char in *. destruct ((65 <=? c) && (c <=? 90)) eqn:E; breflect; lia.
  - apply wp_bind. eapply wp_mono; [by apply lre_case_conv_chars; [|lia]|exact Hhd].
  - apply wp_ret. unfold is_char in *. destruct ((97 <=? c) && (c <=? 122)) eqn:E; breflect; lia.
  - apply wp_bind. eapply wp_mono; [by apply lre_case_conv_chars; [|lia]|]. intros l Hl.
    apply wp_bind. eapply wp_mono; [by apply Hhd|]. intros c' Hc'. apply wp_ret. by case_match.
Qed.
