(* ===== verification/RegexpSafe.v ===== *)
(** * Regular expressions: the matcher is safe on verified code

    [lre_exec_backtrack] on [verified] code and any text: no access outside
    the code, the text, the captures or the stack, no failing assertion, no
    [abort].  The invariant ties the program counter to an instruction and the
    length of the stack to its static depth, for the running thread and for
    every saved state. *)

From S2P Require Import Prelude Cutils DynBuf UnicodeLookup RegexpOp RegexpExec RegexpText RegexpCode.

#[local] Ltac Zify.zify_post_hook ::= Z.to_euclidean_division_equations.

(** ** Partial correctness: no fault but lack of fuel *)

Definition safe {A} (m : outcome A) (Q : A -> Prop) : Prop :=
  match m with Ret a => Q a | Fault OutOfFuel => True | Fault _ => False end.

Lemma safe_ret {A} (a : A) (Q : A -> Prop) : Q a -> safe (Ret a) Q.
Proof. done. Qed.
Lemma safe_bind {A B} (m : outcome A) (k : A -> outcome B) (Q : B -> Prop) :
  safe m (fun a => safe (k a) Q) -> safe (m ≫= k) Q.
Proof. by destruct m as [|[]]. Qed.
Lemma safe_fmap {A B} (m : outcome A) (f : A -> B) (Q : B -> Prop) :
  safe m (fun a => Q (f a)) -> safe (f <$> m) Q.
Proof. by destruct m as [|[]]. Qed.
Lemma safe_mono {A} (m : outcome A) (P Q : A -> Prop) : safe m P -> (forall a, P a -> Q a) -> safe m Q.
Proof. destruct m as [|[]]; simpl; auto. Qed.
Lemma wp_safe {A} (m : outcome A) (Q : A -> Prop) : wp m Q -> safe m Q.
Proof. by destruct m as [|[]]. Qed.

Lemma safe_loop {S R : Type} (I : S -> Prop) (Q : R -> Prop) (body : S -> outcome (S + R)) :
  (forall s, I s -> safe (body s) (fun r => match r with inl s' => I s' | inr r => Q r end)) ->
  forall fuel s, I s -> safe (loop fuel body s) Q.
Proof.
  intros Hb fuel. induction fuel as [|fuel IH]; intros s Hs; [done|]. cbn [loop].
  specialize (Hb s Hs). destruct (body s) as [[s'|r]|[]]; simpl in *; auto.
Qed.

(** ** Layout of the code *)

Lemma code_split p k i : p !! k = Some i ->
  code_of p = code_of (take k p) ++ encode i ++ code_of (drop (S k) p).
Proof.
  intros Hk. rewrite <- code_of_cons, <- code_of_app. by rewrite (take_drop_middle p k i Hk).
Qed.

Section Layout.
Context (hdr : list Z) (p : list instr) (tl : list Z).
Context (Hhdr : zlen hdr = RE_HEADER_LEN).

Definition full_code : list Z := hdr ++ code_of p ++ tl.

(** The address of instruction [k]. *)
Definition addr (k : nat) : Z := RE_HEADER_LEN + posn p k.

Lemma full_code_at k i : p !! k = Some i ->
  exists pre post, full_code = pre ++ encode i ++ post /\ zlen pre = addr k.
Proof.
  intros Hk. exists (hdr ++ code_of (take k p)), (code_of (drop (S k) p) ++ tl).
  unfold full_code. rewrite (code_split p k i Hk), !app_assoc. split; [by rewrite <- !app_assoc|].
  rewrite zlen_app, Hhdr. done.
Qed.

Lemma addr_S k i : p !! k = Some i -> addr (S k) = addr k + isize i.
Proof. intros Hk. unfold addr. rewrite (posn_S p k i Hk). lia. Qed.

Lemma addr_pos k : 7 <= addr k.
Proof. unfold addr. pose proof (posn_nonneg p k). unfold RE_HEADER_LEN. lia. Qed.

Lemma addr_end k i : p !! k = Some i -> addr k + isize i <= zlen full_code.
Proof.
  intros Hk. destruct (full_code_at k i Hk) as (pre & post & -> & Hpre).
  rewrite !zlen_app, Hpre. pose proof (zlen_nonneg post). unfold isize. lia.
Qed.

Lemma rd_code k i j : p !! k = Some i -> 0 <= j < isize i -> rd full_code (addr k + j) = rd (encode i) j.
Proof.
  intros Hk Hj. destruct (full_code_at k i Hk) as (pre & post & -> & Hpre).
  rewrite (rd_app_r pre (encode i ++ post) j) by lia.
  unfold rd. destruct (j <? 0); [done|]. rewrite lookup_app_l; [done|]. unfold isize, zlen in Hj. lia.
Qed.

Lemma rd_range_code k i j n : p !! k = Some i -> 0 <= j -> 0 <= n -> j + n <= isize i ->
  rd_range full_code (addr k + j) n = rd_range (encode i) j n.
Proof.
  intros Hk Hj Hn Hjn. pose proof (addr_end k i Hk). pose proof (addr_pos k).
  rewrite !rd_range_ok by (unfold isize in *; lia).
  destruct (full_code_at k i Hk) as (pre & post & -> & Hpre). f_equal.
  rewrite <- Hpre. replace (Z.to_nat (zlen pre + j)) with (length pre + Z.to_nat j)%nat by (unfold zlen; lia).
  rewrite <- drop_drop, drop_app_length, drop_app_le, take_app_le; [done| |unfold isize, zlen in Hjn; lia].
  rewrite length_drop. unfold isize, zlen in Hjn. lia.
Qed.

Lemma get_u16_code k i j : p !! k = Some i -> 0 <= j -> j + 2 <= isize i ->
  Bits.get_u16 full_code (addr k + j) = Bits.get_u16 (encode i) j.
Proof. intros. unfold Bits.get_u16. by rewrite (rd_range_code k i). Qed.
Lemma get_u32_code k i j : p !! k = Some i -> 0 <= j -> j + 4 <= isize i ->
  Bits.get_u32 full_code (addr k + j) = Bits.get_u32 (encode i) j.
Proof. intros. unfold Bits.get_u32. by rewrite (rd_range_code k i). Qed.
End Layout.

Lemma i32_of_u32 v : is_i32 v = true -> i32 (v mod 256 ^ Z.of_nat 4) = v.
Proof.
  unfold is_i32. intros H. breflect. change (256 ^ Z.of_nat 4) with (2 ^ 32).
  unfold i32. change (v mod 2 ^ 32) with (uwrap 32 v). rewrite swrap_uwrap by lia.
  apply swrap_small; lia.
Qed.

Lemma rd_range_mid {A} (pre d post : list A) off n :
  off = zlen pre -> n = zlen d -> rd_range (pre ++ d ++ post) off n = Ret d.
Proof.
  intros -> ->. pose proof (zlen_nonneg pre). pose proof (zlen_nonneg d). pose proof (zlen_nonneg post).
  rewrite rd_range_ok by (rewrite ?zlen_app; lia).
  unfold zlen. by rewrite !Nat2Z.id, drop_app_length, take_app_length.
Qed.

Lemma op_u16_mid pre v post off : off = zlen pre ->
  Bits.get_u16 (pre ++ Bits.le_bytes 2 v ++ post) off = Ret (v mod 256 ^ Z.of_nat 2).
Proof.
  intros ->. unfold Bits.get_u16. rewrite (rd_range_mid pre (Bits.le_bytes 2 v) post) by (rewrite ?Bits.zlen_le_bytes; lia).
  cbn [fmap outcome_fmap]. by rewrite Bits.le_val_bytes.
Qed.

Lemma op_u32_mid pre v post off : off = zlen pre ->
  Bits.get_u32 (pre ++ Bits.le_bytes 4 v ++ post) off = Ret (v mod 256 ^ Z.of_nat 4).
Proof.
  intros ->. unfold Bits.get_u32. rewrite (rd_range_mid pre (Bits.le_bytes 4 v) post) by (rewrite ?Bits.zlen_le_bytes; lia).
  cbn [fmap outcome_fmap]. by rewrite Bits.le_val_bytes.
Qed.

(** The operand after the opcode. *)
Lemma get_u16_head x v l : Bits.get_u16 (x :: Bits.le_bytes 2 v ++ l) 1 = Ret (v mod 256 ^ Z.of_nat 2).
Proof. by apply (op_u16_mid [x]). Qed.
Lemma get_u32_head x v l : Bits.get_u32 (x :: Bits.le_bytes 4 v ++ l) 1 = Ret (v mod 256 ^ Z.of_nat 4).
Proof. by apply (op_u32_mid [x]). Qed.
Lemma get_u32_head0 x v : Bits.get_u32 (x :: Bits.le_bytes 4 v) 1 = Ret (v mod 256 ^ Z.of_nat 4).
Proof. rewrite <- (app_nil_r (Bits.le_bytes 4 v)). apply get_u32_head. Qed.
Lemma get_u16_head0 x v : Bits.get_u16 (x :: Bits.le_bytes 2 v) 1 = Ret (v mod 256 ^ Z.of_nat 2).
Proof. rewrite <- (app_nil_r (Bits.le_bytes 2 v)). apply get_u16_head. Qed.

(** ** The binary search of a range *)

Lemma range_search_spec (s : REExecContext) get w pc c n (lo hi : Z -> Z) :
  (forall i, 0 <= i < n ->
    get (bc_buf s) (pc + i * (2 * w)) = Ret (lo i) /\ get (bc_buf s) (pc + i * (2 * w) + w) = Ret (hi i)) ->
  1 <= n < 65536 -> 0 < w <= 4 -> lo 0 <= c ->
  wp (range_search s get w pc c (n - 1)) (fun b =>
    if b : bool then exists i, 0 <= i < n /\ lo i <= c <= hi i
    else (forall i j, 0 <= i <= j -> j < n -> lo i <= lo j /\ hi i <= hi j) ->
         forall i, 0 <= i < n -> ~ lo i <= c <= hi i).
Proof.
  intros Hget Hn Hw Hlo. unfold range_search.
  set (sorted := forall i j, 0 <= i <= j -> j < n -> lo i <= lo j /\ hi i <= hi j).
  apply (wp_loop (fun '(a, b) => 0 <= a <= n /\ 0 <= b < n /\ a <= b + 1 /\
      (sorted -> forall i, 0 <= i < a -> hi i < c) /\ (sorted -> forall i, b < i < n -> c < lo i))
    (fun '(a, b) => b + 1 - a)).
  2:{ split_and!; try lia. }
  2:{ lia. }
  intros [a b] (Ha & Hb & Hab & H1 & H2). destruct (Z.leb_spec a b) as [Hle|Hgt].
  2:{ apply wp_ret. intros Hs i Hi [Hl Hh]. destruct (decide (i < a)) as [Hia|Hia].
      - specialize (H1 Hs i ltac:(lia)). lia.
      - specialize (H2 Hs i ltac:(lia)). lia. }
  rewrite (u32_small (a + b)) by lia. cbn zeta. set (idx := (a + b) / 2).
  assert (a <= idx <= b) as Hidx by (subst idx; lia).
  rewrite (u32_small (idx * (2 * w))) by nia.
  destruct (Hget idx ltac:(lia)) as [-> ->]. cbn [mbind outcome_bind].
  destruct (Z.ltb_spec c (lo idx)).
  - assert (0 < idx) by (destruct (decide (idx = 0)) as [E|E]; [rewrite E in *|]; lia).
    rewrite (u32_small (idx - 1)) by lia. apply wp_ret.
    split; [|lia]. split_and!; try lia; [done|].
    intros Hs i Hi. destruct (decide (b < i)); [by apply H2; [|lia]|].
    destruct (Hs idx i ltac:(lia) ltac:(lia)). lia.
  - destruct (Z.ltb_spec (hi idx) c).
    + rewrite (u32_small (idx + 1)) by lia. apply wp_ret. split; [|lia]. split_and!; try lia; [|done].
      intros Hs i Hi. destruct (decide (i < a)); [by apply H1; [|lia]|].
      destruct (Hs i idx ltac:(lia) ltac:(lia)). lia.
    + apply wp_ret. exists idx. lia.
Qed.

(** ** The invariant *)

Section Safe.
Context `{Allocator} (s : REExecContext) (hdr : list Z) (p : list instr) (tl : list Z).

Record setup : Prop := {
  su_code : bc_buf s = full_code hdr p tl;
  su_hdr : zlen hdr = RE_HEADER_LEN;
  su_verified : verified (capture_count s) (stack_size_max s) p;
  su_text : text_ok (cbuf s) (cbuf_type s) (cbuf_end s);
  su_stack : 0 <= stack_size_max s < 256;
  su_count : 0 <= capture_count s;
  su_small : zlen (cbuf s) < 2 ^ 63;
}.
Context (Hsu : setup).

Notation code := (bc_buf s).
Notation tpos := (tpos (cbuf_type s) (cbuf_end s)).
Notation adv := (adv (cbuf s) (cbuf_type s) (cbuf_end s)).
Notation can_back := (can_back (cbuf s) (cbuf_type s) (cbuf_end s)).

Definition captures_ok (l : list (option Z)) : Prop :=
  2 * capture_count s <= zlen l /\
  forall i q, Z.of_nat i < 2 * capture_count s -> l !! i = Some (Some q) -> tpos q.

(** A saved state resumes at an instruction, with the stack that instruction
    expects; one of a greedy quantifier can step back over all its matches. *)
Record saved_ok (rs : REExecState) : Prop := {
  sv_capture : captures_ok (rs_capture rs) /\ zlen (rs_capture rs) = 2 * capture_count s;
  sv_stack : zlen (rs_stack rs) = rs_stack_len rs;
  sv_cptr : tpos (rs_cptr rs);
  sv_pc : exists k, (k < length p)%nat /\ rs_stack_len rs = depth p k /\
    match rs_type rs with
    | RE_EXEC_STATE_GREEDY_QUANT => exists off mn mx count,
        p !! k = Some (IGreedy off mn mx count) /\ rs_pc rs = addr p k + 1 /\
        1 <= rs_count rs < 2 ^ 64 /\ can_back (Z.to_nat (rs_count rs * count)) (rs_cptr rs)
    | _ => rs_pc rs = addr p k
    end;
}.

Record base (m : vm) : Prop := {
  b_cptr : tpos (cptr m);
  b_capture : captures_ok (capture m);
  b_stack : zlen (stack m) = stack_size_max s;
  b_states : Forall saved_ok (state_stack m);
  b_region : zlen (state_region m) = state_stack_size m /\ zlen (state_stack m) <= state_stack_size m;
}.

(** The thread is at instruction [k]. *)
Record at_instr (k : nat) (m : vm) : Prop := {
  a_base : base m;
  a_pc : pc m = addr p k;
  a_in : (k < length p)%nat;
  a_depth : stack_len m = depth p k;
}.

Lemma code_at k i j : p !! k = Some i -> 0 <= j < isize i -> rd code (addr p k + j) = rd (encode i) j.
Proof. rewrite (su_code Hsu). apply rd_code. exact (su_hdr Hsu). Qed.
Lemma u16_at k i j : p !! k = Some i -> 0 <= j -> j + 2 <= isize i ->
  Bits.get_u16 code (addr p k + j) = Bits.get_u16 (encode i) j.
Proof. rewrite (su_code Hsu). apply get_u16_code. exact (su_hdr Hsu). Qed.
Lemma u32_at k i j : p !! k = Some i -> 0 <= j -> j + 4 <= isize i ->
  Bits.get_u32 code (addr p k + j) = Bits.get_u32 (encode i) j.
Proof. rewrite (su_code Hsu). apply get_u32_code. exact (su_hdr Hsu). Qed.

Lemma wf_at k i : p !! k = Some i -> wf_instr (capture_count s) i = true.
Proof. intros Hk. pose proof (v_instrs _ _ _ (su_verified Hsu)) as Hf. rewrite Forall_lookup in Hf. by eapply Hf. Qed.

Lemma depth_bounds k : (k <= length p)%nat -> 0 <= depth p k <= stack_size_max s.
Proof. apply (v_depth _ _ _ (su_verified Hsu)). Qed.

Lemma lookup_le k i : p !! k = Some i -> (S k <= length p)%nat.
Proof. intros Hk. by apply lookup_lt_Some in Hk. Qed.

(** *** Going on *)

Lemma at_next k i m : p !! k = Some i -> falls i = true ->
  base m -> pc m = addr p k + isize i -> stack_len m = depth p k + delta i -> at_instr (S k) m.
Proof.
  intros Hk Hf Hb Hpc Hd. split; [done| | |].
  - by rewrite Hpc, (addr_S p k i Hk).
  - by apply (v_falls _ _ _ (su_verified Hsu) k i).
  - by rewrite Hd, (depth_S p k i Hk).
Qed.

Lemma jump_target k i off dd : p !! k = Some i -> jump i = Some (off, dd) ->
  exists j, (j < length p)%nat /\ addr p j = addr p k + isize i + off /\ depth p j = depth p k + dd.
Proof.
  intros Hk Hj. destruct (v_jumps _ _ _ (su_verified Hsu) k i off dd Hk Hj) as (j & Hlt & Hp & Hd).
  pose proof (lookup_le k i Hk). exists j. split; [lia|]. split; [|done].
  unfold addr. rewrite Hp, (posn_S p k i Hk). lia.
Qed.

Lemma at_jump k i off dd m : p !! k = Some i -> jump i = Some (off, dd) ->
  base m -> pc m = addr p k + isize i + off -> stack_len m = depth p k + dd -> exists j, at_instr j m.
Proof.
  intros Hk Hj Hb Hpc Hd. destruct (jump_target k i off dd Hk Hj) as (j & Hlt & Ha & Hd').
  exists j. split; [done| |done|]; congruence.
Qed.

(** *** Instructions of simple code *)

(** [m'] differs from [m] in the two pointers only. *)
Definition same (m m' : vm) : Prop := m' = set_pc (set_cptr m (cptr m')) (pc m').

Lemma same_refl m : same m m.
Proof. by destruct m. Qed.

Lemma same_trans m1 m2 m3 : same m1 m2 -> same m2 m3 -> same m1 m3.
Proof. unfold same. intros H1 H2. rewrite H2 at 1. by rewrite H1. Qed.

Lemma base_same m m' : base m -> same m m' -> tpos (cptr m') -> base m'.
Proof. intros [Hb1 Hb2 Hb3 Hb4 Hb5] -> Hc. by split. Qed.

(** The instruction goes on after [n] characters, with [pc] moved by [sz]. *)
Definition step_res (n : nat) (sz : Z) (m : vm) (r : op_result) : Prop :=
  match r with
  | Go m' => same m m' /\ pc m' = pc m + sz /\ adv n (cptr m) (cptr m')
  | NoMatch m' => same m m' /\ tpos (cptr m')
  | _ => False
  end.

Lemma adv_one q : q < cbuf_end s -> adv 1 q (fwd (cbuf s) (cbuf_type s) (cbuf_end s) q).
Proof. intros Hq. constructor; [constructor|done]. Qed.

Lemma canonicalize_char c : is_char c -> wp (canonicalize s c) is_char.
Proof. intros Hc. unfold canonicalize. destruct (ignore_case s); [by apply lre_canonicalize_char|done]. Qed.

Lemma same_cptr m q : same m (set_cptr m q).
Proof. by destruct m. Qed.
Lemma same_pc m q : same m (set_pc m q).
Proof. by destruct m. Qed.
Lemma same_both m q r : same m (set_pc (set_cptr m q) r).
Proof. by destruct m. Qed.
Lemma same_both' m q r : same m (set_cptr (set_pc m r) q).
Proof. by destruct m. Qed.

Lemma test_char_ok m v : tpos (cptr m) -> wp (test_char s m v) (step_res 1 0 m).
Proof.
  intros Hc. unfold test_char. destruct (Z.leb_spec (cbuf_end s) (cptr m)).
  { apply wp_ret. split; [apply same_refl|done]. }
  destruct (GET_CHAR_ok _ _ _ (su_text Hsu) (cptr m) Hc ltac:(lia)) as (c & -> & Hch & Hf & Hp).
  cbn [mbind outcome_bind]. apply wp_bind. eapply wp_mono; [by apply canonicalize_char|]. intros c' _.
  apply wp_ret. destruct (negb (v =? c')).
  - split; [apply same_cptr|done].
  - split_and!; [apply same_cptr|simpl; lia|by apply adv_one].
Qed.

Lemma exec_dot_ok m any : tpos (cptr m) -> wp (exec_dot s m any) (step_res 1 0 m).
Proof.
  intros Hc. unfold exec_dot. destruct (Z.eqb_spec (cptr m) (cbuf_end s)).
  { apply wp_ret. split; [apply same_refl|done]. }
  assert (cptr m < cbuf_end s) as Hlt by (destruct Hc; lia).
  destruct (GET_CHAR_ok _ _ _ (su_text Hsu) (cptr m) Hc Hlt) as (c & -> & Hch & Hf & Hp).
  cbn [mbind outcome_bind]. apply wp_ret. destruct (negb any && is_line_terminator c).
  - split; [apply same_cptr|done].
  - split_and!; [apply same_cptr|simpl; lia|by apply adv_one].
Qed.

Lemma stay_ok m : tpos (cptr m) -> step_res 0 0 m (Go m).
Proof. intros Hc. split_and!; [apply same_refl|lia|constructor]. Qed.
Lemma nomatch_ok n sz m : tpos (cptr m) -> step_res n sz m (NoMatch m).
Proof. intros Hc. split; [apply same_refl|done]. Qed.

Lemma exec_line_start_ok m : tpos (cptr m) -> wp (exec_line_start s m) (step_res 0 0 m).
Proof.
  intros Hc. unfold exec_line_start. destruct (Z.eqb_spec (cptr m) 0); [by apply stay_ok|].
  destruct (negb (multi_line s)); [by apply nomatch_ok|].
  apply wp_bind. eapply wp_mono; [apply (PEEK_PREV_CHAR_ok _ _ _ (su_text Hsu)); [done|destruct Hc; lia]|].
  intros c _. apply wp_ret. destruct (is_line_terminator c); [by apply stay_ok|by apply nomatch_ok].
Qed.

Lemma exec_line_end_ok m : tpos (cptr m) -> wp (exec_line_end s m) (step_res 0 0 m).
Proof.
  intros Hc. unfold exec_line_end. destruct (Z.eqb_spec (cptr m) (cbuf_end s)); [by apply stay_ok|].
  destruct (negb (multi_line s)); [by apply nomatch_ok|].
  apply wp_bind. eapply wp_mono; [apply (PEEK_CHAR_ok _ _ _ (su_text Hsu)); [done|destruct Hc; lia]|].
  intros c _. apply wp_ret. destruct (is_line_terminator c); [by apply stay_ok|by apply nomatch_ok].
Qed.

Lemma wp_fmap_bool (m : outcome Z) (f : Z -> bool) (Q : bool -> Prop) :
  wp m is_char -> (forall b, Q b) -> wp (f <$> m) Q.
Proof. destruct m; simpl; auto. Qed.

Lemma exec_word_boundary_ok m neg : tpos (cptr m) -> wp (exec_word_boundary s m neg) (step_res 0 0 m).
Proof.
  intros Hc. unfold exec_word_boundary.
  apply wp_bind. apply (wp_mono _ (fun _ => True)).
  { destruct (Z.eqb_spec (cptr m) 0); [done|]. apply wp_fmap_bool; [|done].
    apply (PEEK_PREV_CHAR_ok _ _ _ (su_text Hsu)); [done|destruct Hc; lia]. }
  intros v1 _. apply wp_bind. apply (wp_mono _ (fun _ => True)).
  { destruct (Z.leb_spec (cbuf_end s) (cptr m)); [done|]. apply wp_fmap_bool; [|done].
    by apply (PEEK_CHAR_ok _ _ _ (su_text Hsu)). }
  intros v2 _. apply wp_ret. destruct (xorb _ _); [by apply nomatch_ok|by apply stay_ok].
Qed.

(** Reading a value of [w] bytes anywhere in the code. *)
Definition reader (get : list Z -> Z -> outcome Z) (w : Z) : Prop :=
  forall l q, 0 <= q -> q + w <= zlen l -> exists v, get l q = Ret v.

Lemma reader_u16 : reader Bits.get_u16 2.
Proof. intros l q H1 H2. unfold Bits.get_u16. rewrite rd_range_ok by lia. by eexists. Qed.
Lemma reader_u32 : reader Bits.get_u32 4.
Proof. intros l q H1 H2. unfold Bits.get_u32. rewrite rd_range_ok by lia. by eexists. Qed.

Lemma exec_range_ok m get w n : reader get w -> w = 2 \/ w = 4 -> tpos (cptr m) ->
  Bits.get_u16 code (pc m) = Ret n -> 1 <= n < 65536 -> 0 <= pc m -> pc m + 2 + 2 * w * n <= zlen code ->
  wp (exec_range s m get w) (step_res 1 (2 + 2 * w * n) m).
Proof.
  intros Hget Hw Hc Hn Hnb Hpc Hend. unfold exec_range. rewrite Hn. cbn [mbind outcome_bind].
  change (cptr (set_pc m (pc m + 2))) with (cptr m).
  destruct (Z.leb_spec (cbuf_end s) (cptr m)); [split; [apply same_pc|done]|].
  destruct (GET_CHAR_ok _ _ _ (su_text Hsu) (cptr m) Hc ltac:(lia)) as (c & -> & Hch & Hf & Hp).
  cbn [mbind outcome_bind]. apply wp_bind. eapply wp_mono; [by apply canonicalize_char|]. intros c' _.
  set (lo i := match get code (pc m + 2 + i * (2 * w)) with Ret v => v | _ => 0 end).
  set (hi i := match get code (pc m + 2 + i * (2 * w) + w) with Ret v => v | _ => 0 end).
  assert (Hr : forall i, 0 <= i < n -> get code (pc m + 2 + i * (2 * w)) = Ret (lo i) /\
    get code (pc m + 2 + i * (2 * w) + w) = Ret (hi i)).
  { intros i Hi. unfold lo, hi.
    destruct (Hget code (pc m + 2 + i * (2 * w)) ltac:(nia) ltac:(nia)) as [v1 ->].
    destruct (Hget code (pc m + 2 + i * (2 * w) + w) ltac:(nia) ltac:(nia)) as [v2 ->]. done. }
  destruct (Hr 0 ltac:(lia)) as [Hl0 _]. rewrite Z.mul_0_l, Z.add_0_r in Hl0. rewrite Hl0. cbn [mbind outcome_bind].
  assert (Hno : step_res 1 (2 + 2 * w * n) m
    (NoMatch (set_cptr (set_pc m (pc m + 2)) (fwd (cbuf s) (cbuf_type s) (cbuf_end s) (cptr m))))).
  { split; [apply same_both'|done]. }
  destruct (Z.ltb_spec c' (lo 0)); [done|].
  rewrite (u32_small (n - 1)) by lia. cbn zeta. rewrite (u32_small ((n - 1) * (2 * w))) by nia.
  destruct (Hr (n - 1) ltac:(lia)) as [_ ->]. cbn [mbind outcome_bind].
  assert (Hgo : step_res 1 (2 + 2 * w * n) m
    (Go (set_pc (set_cptr (set_pc m (pc m + 2)) (fwd (cbuf s) (cbuf_type s) (cbuf_end s) (cptr m)))
      (pc m + 2 + 2 * w * n)))).
  { split; [by destruct m|]. split; [simpl; lia|by apply adv_one]. }
  destruct ((w =? 2) && (65535 <=? c') && (hi (n - 1) =? 65535)); [done|].
  destruct (hi (n - 1) <? c'); [done|].
  apply wp_bind. eapply wp_mono; [by apply (range_search_spec s get w (pc m + 2) c' n lo hi); [..|lia|]|].
  intros b _. apply wp_ret. by destruct b.
Qed.

Definition opcode (i : instr) : Z := hd 0 (encode i).

Lemma opcode_at k i : p !! k = Some i -> rd code (addr p k) = Ret (opcode i).
Proof.
  intros Hk. rewrite <- (Z.add_0_r (addr p k)), (code_at k i 0 Hk) by (pose proof (isize_pos i); lia).
  by destruct i.
Qed.

Lemma step_res_pc n sz m q r : step_res n sz (set_pc m q) r -> step_res n (q - pc m + sz) m r.
Proof.
  destruct r; simpl; try done. intros (Hs & Hp & Ha). split_and!; [done|lia|done].
Qed.

Lemma ranges_ok_inv w r : 0 < w -> ranges_ok w r = true ->
  exists n, zlen r = 2 * w * n /\ zlen r / (2 * w) = n /\ 1 <= n < 65536.
Proof.
  intros Hw Hr. unfold ranges_ok in Hr. breflect. exists (zlen r / (2 * w)).
  pose proof (Z.div_mod (zlen r) (2 * w) ltac:(lia)). nia.
Qed.

Lemma exec_simple k i n fuel call m :
  p !! k = Some i -> simple_chars i = Some n -> pc m = addr p k + 1 -> tpos (cptr m) ->
  wp (exec_op s fuel call (opcode i) m) (step_res (Z.to_nat n) (isize i - 1) m).
Proof.
  intros Hk Hn Hpc Hc. unfold exec_op, opcode. pose proof (wf_at k i Hk) as Hwf.
  destruct i as [op|v|v|op off|op x|x y|v|r|r|off mn mx cnt]; simpl in Hn; try done; cbn [encode hd].
  - destruct op; try done; injection Hn as <-; rewrite reop_of_reop; change (Z.to_nat 0) with 0%nat; change (Z.to_nat 1) with 1%nat;
      [by apply exec_dot_ok|by apply exec_dot_ok|by apply exec_line_start_ok|by apply exec_line_end_ok
      |by apply exec_word_boundary_ok|by apply exec_word_boundary_ok].
  - injection Hn as <-. rewrite reop_of_reop. rewrite Hpc, (u16_at k _ 1 Hk) by done. cbn [encode].
    rewrite get_u16_head0. cbn [mbind outcome_bind]. rewrite <- Hpc.
    eapply wp_mono; [by apply test_char_ok|]. intros r Hr. apply step_res_pc in Hr.
    replace (pc m + 2 - pc m + 0) with 2 in Hr by lia. done.
  - injection Hn as <-. rewrite reop_of_reop. rewrite Hpc, (u32_at k _ 1 Hk) by done. cbn [encode].
    rewrite get_u32_head0. cbn [mbind outcome_bind]. rewrite <- Hpc.
    eapply wp_mono; [by apply test_char_ok|]. intros r Hr. apply step_res_pc in Hr.
    replace (pc m + 4 - pc m + 0) with 4 in Hr by lia. done.
  - injection Hn as <-. rewrite reop_of_reop. cbn [wf_instr] in Hwf.
    destruct (ranges_ok_inv 2 r ltac:(lia) Hwf) as (n & Hz & Hdiv & Hnb). change (2 * 2) with 4 in *.
    assert (isize (IRange16 r) = 3 + 4 * n) as Hsz
      by (unfold isize; cbn [encode]; rewrite zlen_cons, zlen_app, Bits.zlen_le_bytes; lia).
    pose proof (addr_end hdr p tl (su_hdr Hsu) k _ Hk) as He. rewrite <- (su_code Hsu) in He.
    pose proof (addr_pos p k).
    eapply wp_mono; [apply (exec_range_ok m Bits.get_u16 2 n reader_u16)|].
    + by left. + done.
    + rewrite Hpc, (u16_at k _ 1 Hk) by lia. cbn [encode]. rewrite get_u16_head, Hdiv.
      f_equal. apply Z.mod_small. change (256 ^ Z.of_nat 2) with 65536. lia.
    + done. + lia. + lia.
    + intros r' Hr. by replace (isize (IRange16 r) - 1) with (2 + 2 * 2 * n) by lia.
  - injection Hn as <-. rewrite reop_of_reop. cbn [wf_instr] in Hwf.
    destruct (ranges_ok_inv 4 r ltac:(lia) Hwf) as (n & Hz & Hdiv & Hnb). change (2 * 4) with 8 in *.
    assert (isize (IRange32 r) = 3 + 8 * n) as Hsz
      by (unfold isize; cbn [encode]; rewrite zlen_cons, zlen_app, Bits.zlen_le_bytes; lia).
    pose proof (addr_end hdr p tl (su_hdr Hsu) k _ Hk) as He. rewrite <- (su_code Hsu) in He.
    pose proof (addr_pos p k).
    eapply wp_mono; [apply (exec_range_ok m Bits.get_u32 4 n reader_u32)|].
    + by right. + done.
    + rewrite Hpc, (u16_at k _ 1 Hk) by lia. cbn [encode]. rewrite get_u16_head, Hdiv.
      f_equal. apply Z.mod_small. change (256 ^ Z.of_nat 2) with 65536. lia.
    + done. + lia. + lia.
    + intros r' Hr. by replace (isize (IRange32 r) - 1) with (2 + 2 * 4 * n) by lia.
Qed.

(** *** Saving and resuming states *)

Lemma Forall_take_ok (l : list (option Z)) n : captures_ok l -> 2 * capture_count s <= Z.of_nat n ->
  captures_ok (take n l).
Proof.
  intros [H1 H2] Hn. split; [rewrite zlen_take; lia|]. intros i q Hi Hq.
  apply lookup_take_Some in Hq as [Hq _]. by apply (H2 i).
Qed.

(** The captures and the stack of [m] as [push_state] saves them. *)
Lemma push_state_ok m pc' q type count :
  base m -> 0 <= stack_len m <= stack_size_max s ->
  (forall rs, rs_type rs = type -> rs_count rs = count -> rs_cptr rs = q -> rs_pc rs = pc' ->
     rs_stack_len rs = stack_len m -> captures_ok (rs_capture rs) ->
     zlen (rs_capture rs) = 2 * capture_count s -> zlen (rs_stack rs) = rs_stack_len rs -> saved_ok rs) ->
  wp (push_state s m pc' q type count) (fun r => match r with
    | None => True
    | Some m' => base m' /\ pc m' = pc m /\ stack_len m' = stack_len m /\ cptr m' = cptr m
    end).
Proof.
  intros Hb Hsl Hrs. unfold push_state. destruct Hb as [Hb1 Hb2 Hb3 Hb4 [Hb5 Hb6]].
  pose proof (zlen_nonneg (state_stack m)) as Hz.
  apply wp_bind. apply (wp_mono _ (fun r => match r with None => True | Some (size, region) =>
    zlen region = size /\ zlen (state_stack m) + 1 <= size end)).
  { destruct (Z.ltb_spec (state_stack_size m) (zlen (state_stack m) + 1)) as [Hlt|Hge]; [|apply wp_ret; lia].
    cbn zeta. set (k := state_stack_size m * 3 / 2). set (ns := if k <? 8 then 8 else k).
    assert (zlen (state_stack m) + 1 <= ns) by (subst ns k; destruct (Z.ltb_spec (state_stack_size m * 3 / 2) 8); lia).
    destruct (realloc_func (state_size s) (state_region m) ns) as [r|] eqn:E; [|done].
    apply wp_ret. split; [|done]. eapply realloc_length; [|done]. lia. }
  intros [[size region]|] Hg; [|done]. destruct Hg as [Hg1 Hg2].
  rewrite wr_ok by lia. cbn [mbind outcome_bind].
  pose proof (su_count Hsu). pose proof (su_stack Hsu). destruct Hb2 as [Hc1 Hc2].
  rewrite !rd_range_ok by lia. cbn [mbind outcome_bind wp].
  split_and!; try done. split; try done.
  - constructor; [|done]. apply Hrs; cbn [rs_type rs_count rs_cptr rs_pc rs_stack_len rs_capture rs_stack]; try done.
    + apply u8_small. lia.
    + apply Forall_take_ok; [by split|]. lia.
    + rewrite zlen_take. change (drop (Z.to_nat 0) (capture m)) with (capture m). lia.
    + rewrite zlen_take. change (drop (Z.to_nat 0) (stack m)) with (stack m). rewrite u8_small by lia. lia.
  - cbn [state_region state_stack state_stack_size]. rewrite zlen_insert, zlen_cons. lia.
Qed.

(** Writing back what a state saved. *)
Lemma restore_captures m rs : base m -> saved_ok rs ->
  wp (wr_range (capture m) 0 (rs_capture rs)) captures_ok.
Proof.
  intros Hb Hs. destruct (b_capture _ Hb) as [H1 H2]. destruct (sv_capture _ Hs) as [[H3 H4] H5].
  pose proof (su_count Hsu). rewrite wr_range_ok by lia. apply wp_ret.
  split; [rewrite zlen_wr_range; lia|]. change (Z.to_nat 0) with 0%nat. rewrite take_0, app_nil_l. intros i q Hi Hq.
  rewrite lookup_app_l in Hq by (unfold zlen in H5; lia). by apply (H4 i).
Qed.

Lemma saved_depth rs : saved_ok rs -> 0 <= rs_stack_len rs <= stack_size_max s.
Proof. intros Hs. destruct (sv_pc _ Hs) as (k & Hk & -> & _). apply depth_bounds. lia. Qed.

Lemma restore_stack m rs : base m -> saved_ok rs ->
  wp (wr_range (stack m) 0 (rs_stack rs)) (fun st => zlen st = stack_size_max s).
Proof.
  intros Hb Hs. pose proof (b_stack _ Hb). pose proof (sv_stack _ Hs). pose proof (saved_depth rs Hs).
  rewrite wr_range_ok by lia. apply wp_ret. rewrite zlen_wr_range; lia.
Qed.

Definition running (m : vm) : Prop := exists k, at_instr k m.

(** Resuming a state that is not of a quantifier. *)
Lemma pop_state1_ok m rs rest : base m -> saved_ok rs -> rs_type rs <> RE_EXEC_STATE_GREEDY_QUANT ->
  Forall saved_ok rest -> zlen rest <= state_stack_size m -> wp (pop_state1 m rs rest) running.
Proof.
  intros Hb Hs Ht Hrest Hlen. unfold pop_state1. apply wp_bind. eapply wp_mono; [by apply restore_stack|].
  intros st Hst. apply wp_ret. destruct (sv_pc _ Hs) as (k & Hk & Hd & Hpc). exists k.
  assert (rs_pc rs = addr p k) as Hpc' by (destruct (rs_type rs); done).
  split; try done. split; try done.
  - exact (sv_cptr _ Hs).
  - exact (b_capture _ Hb).
  - split; [exact (proj1 (b_region _ Hb))|done].
Qed.

Lemma pop_state_ok m rs rest : base m -> saved_ok rs -> rs_type rs <> RE_EXEC_STATE_GREEDY_QUANT ->
  Forall saved_ok rest -> zlen rest <= state_stack_size m -> wp (pop_state m rs rest) running.
Proof.
  intros Hb Hs Ht Hrest Hlen. unfold pop_state. apply wp_bind. eapply wp_mono; [by apply restore_captures|].
  intros caps Hcaps. apply pop_state1_ok; try done. by destruct Hb; split.
Qed.

Lemma greedy_wf k off mn mx cnt : p !! k = Some (IGreedy off mn mx cnt) ->
  is_i32 off = true /\ 0 < off /\ 0 <= mn < 2 ^ 32 /\ 0 <= mx < 2 ^ 32 /\ 0 < cnt < 2 ^ 32.
Proof. intros Hk. pose proof (wf_at k _ Hk) as Hwf. cbn [wf_instr] in Hwf. unfold is_u32 in Hwf. breflect. split_and!; done || lia. Qed.

Lemma mod_u32 v : 0 <= v < 2 ^ 32 -> v mod 256 ^ Z.of_nat 4 = v.
Proof. intros. apply Z.mod_small. by change (256 ^ Z.of_nat 4) with (2 ^ 32). Qed.

Lemma isize_greedy off mn mx cnt : isize (IGreedy off mn mx cnt) = 17.
Proof. unfold isize. cbn [encode]. by rewrite zlen_cons, !zlen_app, !Bits.zlen_le_bytes. Qed.

Lemma greedy_operands k off mn mx cnt : p !! k = Some (IGreedy off mn mx cnt) ->
  Bits.get_u32 code (addr p k + 1) = Ret (off mod 256 ^ Z.of_nat 4) /\
  Bits.get_u32 code (addr p k + 1 + 4) = Ret mn /\
  Bits.get_u32 code (addr p k + 1 + 8) = Ret mx /\
  Bits.get_u32 code (addr p k + 1 + 12) = Ret cnt.
Proof.
  intros Hk. destruct (greedy_wf k _ _ _ _ Hk) as (_ & _ & Hmn & Hmx & Hcnt).
  pose proof (isize_greedy off mn mx cnt) as Hsz.
  rewrite <- !Z.add_assoc, !(u32_at k _ _ Hk) by lia. cbn [encode].
  split_and!.
  - apply get_u32_head.
  - rewrite app_comm_cons. rewrite op_u32_mid by done. rewrite mod_u32 by lia. done.
  - rewrite app_comm_cons, (app_assoc (_ :: _)). rewrite op_u32_mid by done. rewrite mod_u32 by lia. done.
  - rewrite app_comm_cons, (app_assoc (_ :: _)), (app_assoc (_ ++ _)).
    rewrite <- (app_nil_r (Bits.le_bytes 4 cnt)). rewrite op_u32_mid by done. rewrite mod_u32 by lia. done.
Qed.

Lemma pop_greedy_ok m rs rest : base m -> saved_ok rs -> rs_type rs = RE_EXEC_STATE_GREEDY_QUANT ->
  Forall saved_ok rest -> zlen rest + 1 <= state_stack_size m -> wp (pop_greedy s m rs rest) running.
Proof.
  intros Hb Hs Ht Hrest Hlen. unfold pop_greedy.
  apply wp_bind. eapply wp_mono; [by apply restore_captures|]. intros caps Hcaps.
  apply wp_bind. eapply wp_mono; [by apply restore_stack|]. intros st Hst.
  destruct (sv_pc _ Hs) as (k & Hk & Hd & Hpc). rewrite Ht in Hpc.
  destruct Hpc as (off & mn & mx & cnt & Hi & Hpc & Hcount & Hback).
  destruct (greedy_operands k _ _ _ _ Hi) as (Hoff & _ & _ & Hcnt).
  destruct (greedy_wf k _ _ _ _ Hi) as (Hi32 & _ & _ & _ & Hcb).
  rewrite Hpc, Hcnt, Hoff. cbn [mbind outcome_bind].
  replace (Z.to_nat (rs_count rs * cnt)) with (Z.to_nat cnt + Z.to_nat ((rs_count rs - 1) * cnt))%nat in Hback by nia.
  destruct (prev_chars_ok _ _ _ (su_text Hsu) _ _ _ Hback) as (q & -> & Hq). cbn [mbind outcome_bind].
  rewrite (i32_of_u32 off Hi32), u64_small by lia. apply wp_ret. pose proof (can_back_tpos _ _ _ _ _ Hq) as Hqt.
  destruct (jump_target k _ off 0 Hi eq_refl) as (j & Hj & Haddr & Hdj). rewrite isize_greedy in Haddr.
  exists j. destruct (b_region _ Hb) as [Hr1 Hr2]. split; [|cbn [pc]; lia|done|cbn [stack_len]; lia].
  split; try done; cbn [state_stack state_stack_size state_region].
  - destruct (Z.eqb_spec (rs_count rs - 1) 0); [done|]. constructor; [|done].
    split; cbn [rs_type rs_count rs_cptr rs_pc rs_stack_len rs_capture rs_stack];
      [exact (sv_capture _ Hs)|exact (sv_stack _ Hs)|done|].
    exists k. split; [done|]. split; [done|]. rewrite Ht. exists off, mn, mx, cnt. split_and!; try done; lia.
  - split; [done|]. destruct (rs_count rs - 1 =? 0); rewrite ?zlen_cons; lia.
Qed.

Definition result_ok (r : exec_result) : Prop :=
  match r with RError => True | RNoMatch m | RMatch m => base m end.

Lemma base_set_states m l : base m -> Forall saved_ok l -> zlen l <= state_stack_size m -> base (set_states m l).
Proof. intros [H1 H2 H3 H4 [H5 H6]] Hl Hlen. by split. Qed.

Lemma recurse_ok states : forall ret m, base m -> Forall saved_ok states -> zlen states <= state_stack_size m ->
  wp (recurse s ret m states) (fun r => match r with inl m' => running m' | inr r => result_ok r end).
Proof.
  induction states as [|rs rest IH]; intros ret m Hb Hf Hlen; cbn [recurse].
  - apply wp_ret. destruct ret; by apply base_set_states.
  - apply Forall_cons in Hf as [Hrs Hrest]. rewrite zlen_cons in Hlen.
    assert (Hpop : rs_type rs <> RE_EXEC_STATE_GREEDY_QUANT -> forall (mm : outcome vm), wp mm running ->
      wp (inl <$> mm : outcome (vm + exec_result)) (fun r => match r with inl m' => running m' | inr r => result_ok r end)).
    { intros _ mm Hmm. by destruct mm. }
    destruct (rs_type rs) eqn:Et, ret; try (apply IH; [done|done|lia]);
      try (apply Hpop; [done|]; first [apply pop_state_ok|apply pop_state1_ok]; try done; [by rewrite Et|lia]).
    pose proof (pop_greedy_ok m rs rest Hb Hrs Et Hrest ltac:(lia)) as Hg. by destruct (pop_greedy s m rs rest).
Qed.

(** *** Control instructions *)

Definition op_post (r : op_result) : Prop :=
  match r with Go m => running m | NoMatch m | Matched m => base m | Failed => True end.

Lemma base_pc m q : base m -> base (set_pc m q).
Proof. intros Hb. apply (base_same m); [done|apply same_pc|exact (b_cptr _ Hb)]. Qed.

Lemma base_stack m st n : base m -> zlen st = stack_size_max s -> base (set_stack m st n).
Proof. intros [H1 H2 H3 H4 H5] Hst. by split. Qed.

Lemma jump_operand k op off : p !! k = Some (IJump op off) ->
  Bits.get_u32 code (addr p k + 1) = Ret (off mod 256 ^ Z.of_nat 4) /\ i32 (off mod 256 ^ Z.of_nat 4) = off /\
  isize (IJump op off) = 5.
Proof.
  intros Hk. pose proof (wf_at k _ Hk) as Hwf. cbn [wf_instr] in Hwf. breflect.
  rewrite (u32_at k _ 1 Hk) by done. cbn [encode]. rewrite get_u32_head0.
  split; [done|]. split; [by apply i32_of_u32|done].
Qed.

(** A state saved for the continuation at [q]. *)
Lemma saved_jump type q n : type <> RE_EXEC_STATE_GREEDY_QUANT -> tpos q ->
  (exists k, (k < length p)%nat /\ n = depth p k) -> forall k, (k < length p)%nat -> n = depth p k ->
  forall rs, rs_type rs = type -> rs_cptr rs = q -> rs_pc rs = addr p k -> rs_stack_len rs = n ->
  captures_ok (rs_capture rs) -> zlen (rs_capture rs) = 2 * capture_count s -> zlen (rs_stack rs) = rs_stack_len rs ->
  saved_ok rs.
Proof.
  intros Ht Hq _ k Hk Hn rs H1 H2 H3 H4 H5 H6 H7. split; try done; [congruence|].
  exists k. split; [done|]. split; [congruence|]. rewrite H1. by destruct type.
Qed.

Lemma push_jump m q k type :
  base m -> stack_len m = depth p k -> (k < length p)%nat -> type <> RE_EXEC_STATE_GREEDY_QUANT -> q = addr p k ->
  wp (push_state s m q (cptr m) type 0) (fun r => match r with
    | None => True
    | Some m' => base m' /\ pc m' = pc m /\ stack_len m' = stack_len m /\ cptr m' = cptr m
    end).
Proof.
  intros Hb Hd Hk Ht ->. apply push_state_ok; [done| |].
  - rewrite Hd. apply depth_bounds. lia.
  - intros rs H1 H2 H3 H4 H5 H6 H7 H8.
    apply (saved_jump type (cptr m) (depth p k)) with (k := k); try done; [exact (b_cptr _ Hb)|by exists k|congruence].
Qed.

Lemma or_fail_ok (mm : outcome (option vm)) (f : vm -> outcome op_result) (P : vm -> Prop) :
  wp mm (fun r => match r with None => True | Some m' => P m' end) ->
  (forall m', P m' -> wp (f m') op_post) -> wp (or_fail mm f) op_post.
Proof.
  intros Hm Hf. unfold or_fail. apply wp_bind. eapply wp_mono; [exact Hm|]. intros [m'|] HP; [by apply Hf|done].
Qed.

Lemma in_code k i : p !! k = Some i -> (k < length p)%nat.
Proof. apply lookup_lt_Some. Qed.

Lemma exec_split_ok k op off m next_first :
  p !! k = Some (IJump op off) -> op = REOP_split_goto_first \/ op = REOP_split_next_first ->
  base m -> pc m = addr p k + 1 -> stack_len m = depth p k -> wp (exec_split s m next_first) op_post.
Proof.
  intros Hk Hop Hb Hpc Hd. destruct (jump_operand k op off Hk) as (Hrd & Hoff & Hsz).
  assert (Hj : jump (IJump op off) = Some (off, 0)) by (destruct Hop; subst op; done).
  destruct (jump_target k _ off 0 Hk Hj) as (j & Hjl & Haj & Hdj). rewrite Hsz in Haj.
  unfold exec_split. rewrite Hpc, Hrd. cbn [mbind outcome_bind]. cbn zeta. rewrite Hoff.
  assert (Hf : falls (IJump op off) = true) by (destruct Hop; subst op; done).
  pose proof (v_falls _ _ _ (su_verified Hsu) k _ Hk Hf) as Hlt.
  pose proof (addr_S p k _ Hk) as HaS. rewrite Hsz in HaS.
  pose proof (depth_S p k _ Hk) as HdS.
  assert (delta (IJump op off) = 0) as Hdelta by (destruct Hop; subst op; done).
  destruct next_first.
  - eapply or_fail_ok; [apply (push_jump m _ j); try done; [lia|lia]|].
    intros m' (Hb' & Hp' & Hs' & Hc'). apply wp_ret. exists (S k). split; [by apply base_pc|cbn [pc set_pc]; lia|done|cbn [stack_len set_pc]; lia].
  - eapply or_fail_ok; [apply (push_jump m _ (S k)); try done; [lia|lia]|].
    intros m' (Hb' & Hp' & Hs' & Hc'). apply wp_ret. exists j. split; [by apply base_pc|cbn [pc set_pc]; lia|done|cbn [stack_len set_pc]; lia].
Qed.

Lemma exec_lookahead_ok k op off m type :
  p !! k = Some (IJump op off) -> op = REOP_lookahead \/ op = REOP_negative_lookahead ->
  type <> RE_EXEC_STATE_GREEDY_QUANT ->
  base m -> pc m = addr p k + 1 -> stack_len m = depth p k -> wp (exec_lookahead s m type) op_post.
Proof.
  intros Hk Hop Ht Hb Hpc Hd. destruct (jump_operand k op off Hk) as (Hrd & Hoff & Hsz).
  assert (Hj : jump (IJump op off) = Some (off, 0)) by (destruct Hop; subst op; done).
  destruct (jump_target k _ off 0 Hk Hj) as (j & Hjl & Haj & Hdj). rewrite Hsz in Haj.
  unfold exec_lookahead. rewrite Hpc, Hrd. cbn [mbind outcome_bind]. cbn zeta. rewrite Hoff.
  eapply or_fail_ok; [apply (push_jump m _ j); try done; lia|].
  intros m' (Hb' & Hp' & Hs' & Hc'). apply wp_ret. exists (S k).
  apply (at_next k (IJump op off)); [done|by destruct Hop; subst op|by apply base_pc|cbn [pc set_pc]; lia|].
  assert (delta (IJump op off) = 0) as -> by (destruct Hop; subst op; done). cbn [stack_len set_pc]; lia.
Qed.

Lemma exec_goto_ok k off m : p !! k = Some (IJump REOP_goto off) ->
  base m -> pc m = addr p k + 1 -> stack_len m = depth p k ->
  wp (val ← Bits.get_u32 code (pc m); Ret (Go (set_pc m (pc m + (4 + i32 val))))) op_post.
Proof.
  intros Hk Hb Hpc Hd. destruct (jump_operand k _ off Hk) as (Hrd & Hoff & Hsz).
  rewrite Hpc, Hrd. cbn [mbind outcome_bind]. rewrite Hoff. apply wp_ret.
  apply (at_jump k _ off 0 _ Hk eq_refl); [by apply base_pc|cbn [pc set_pc]; lia|cbn [stack_len set_pc]; lia].
Qed.

Lemma needs_depth k i : p !! k = Some i -> needs i <= depth p k.
Proof. apply (v_needs _ _ _ (su_verified Hsu)). Qed.

Lemma exec_loop_ok k off m : p !! k = Some (IJump REOP_loop off) ->
  base m -> pc m = addr p k + 1 -> stack_len m = depth p k -> wp (exec_loop s m) op_post.
Proof.
  intros Hk Hb Hpc Hd. destruct (jump_operand k _ off Hk) as (Hrd & Hoff & Hsz).
  pose proof (needs_depth k _ Hk) as Hn. cbn [needs] in Hn.
  pose proof (depth_bounds k ltac:(pose proof (in_code k _ Hk); lia)). pose proof (b_stack _ Hb).
  unfold exec_loop. rewrite Hpc, Hrd. cbn [mbind outcome_bind]. cbn zeta.
  cbn [set_pc RegexpExec.stack stack_len pc].
  destruct (rd_ok (stack m) (stack_len m - 1) ltac:(lia)) as (v & _ & ->). cbn [mbind outcome_bind].
  rewrite wr_ok by lia. cbn [mbind outcome_bind]. rewrite Hoff. apply wp_ret.
  set (st := <[_ := _]> (stack m)). assert (zlen st = stack_size_max s) as Hst by (subst st; rewrite zlen_insert; done).
  clearbody st. destruct (negb _).
  - apply (at_jump k _ off 0 _ Hk eq_refl).
    + by apply base_pc, base_stack; [apply base_pc|]. + cbn [pc set_pc set_stack]. lia. + cbn [stack_len set_pc set_stack]. lia.
  - exists (S k). apply (at_next k (IJump REOP_loop off)); try done.
    + by apply base_stack; [apply base_pc|]. + cbn [pc set_pc set_stack]. lia. + cbn [stack_len set_pc set_stack delta]. lia.
Qed.

Lemma exec_bne_ok k off m : p !! k = Some (IJump REOP_bne_char_pos off) ->
  base m -> pc m = addr p k + 1 -> stack_len m = depth p k -> wp (exec_bne_char_pos s m) op_post.
Proof.
  intros Hk Hb Hpc Hd. destruct (jump_operand k _ off Hk) as (Hrd & Hoff & Hsz).
  pose proof (needs_depth k _ Hk) as Hn. cbn [needs] in Hn.
  pose proof (depth_bounds k ltac:(pose proof (in_code k _ Hk); lia)). pose proof (b_stack _ Hb).
  unfold exec_bne_char_pos. rewrite Hpc, Hrd. cbn [mbind outcome_bind]. cbn zeta.
  cbn [set_pc RegexpExec.stack stack_len pc].
  destruct (rd_ok (stack m) (stack_len m - 1) ltac:(lia)) as (v & _ & ->). cbn [mbind outcome_bind].
  rewrite Hoff. apply wp_ret. destruct (negb _).
  - apply (at_jump k _ off (-1) _ Hk eq_refl).
    + by apply base_pc, base_stack; [apply base_pc|]. + cbn [pc set_pc set_stack]. lia. + cbn [stack_len set_pc set_stack]. lia.
  - exists (S k). apply (at_next k (IJump REOP_bne_char_pos off)); try done.
    + by apply base_stack; [apply base_pc|]. + cbn [pc set_pc set_stack]. lia. + cbn [stack_len set_pc set_stack delta]. lia.
Qed.

(** An instruction that pushes one value, with [pc] already after it. *)
Lemma exec_push_ok k i m v : p !! k = Some i -> falls i = true -> delta i = 1 ->
  base m -> pc m = addr p k + isize i -> stack_len m = depth p k -> wp (exec_push m v) op_post.
Proof.
  intros Hk Hf Hdl Hb Hpc Hd. pose proof (depth_S p k i Hk) as HdS.
  pose proof (depth_bounds (S k) (lookup_le k i Hk)). pose proof (depth_bounds k ltac:(pose proof (in_code k _ Hk); lia)).
  pose proof (b_stack _ Hb). unfold exec_push. rewrite wr_ok by lia. apply wp_ret. exists (S k).
  apply (at_next k i); try done.
  - apply base_stack; [done|]. by rewrite zlen_insert.
  - cbn [stack_len set_stack]. lia.
Qed.

Lemma exec_drop_ok k m : p !! k = Some (IOp REOP_drop) ->
  base m -> pc m = addr p k + 1 -> stack_len m = depth p k ->
  running (set_stack m (stack m) (stack_len m - 1)).
Proof.
  intros Hk Hb Hpc Hd. exists (S k). apply (at_next k (IOp REOP_drop)); try done.
  - apply base_stack; [done|exact (b_stack _ Hb)].
  - cbn [stack_len set_stack delta]. lia.
Qed.

Lemma exec_prev_ok k m : p !! k = Some (IOp REOP_prev) ->
  base m -> pc m = addr p k + 1 -> stack_len m = depth p k -> wp (exec_prev s m) op_post.
Proof.
  intros Hk Hb Hpc Hd. unfold exec_prev. destruct (Z.eqb_spec (cptr m) 0) as [E|E]; [done|].
  pose proof (b_cptr _ Hb) as Hc.
  destruct (PREV_CHAR_ok _ _ _ (su_text Hsu) (cptr m) Hc) as (-> & Hbk & Ht); [destruct Hc; lia|].
  cbn [mbind outcome_bind]. apply wp_ret. exists (S k).
  apply (at_next k (IOp REOP_prev)); try done; [|cbn [stack_len set_cptr delta]; lia].
  apply (base_same m); [done|apply same_cptr|done].
Qed.

(** *** Captures *)

Lemma base_capture m l : base m -> captures_ok l -> base (set_capture m l).
Proof. intros [H1 H2 H3 H4 H5] Hl. by split. Qed.

Lemma captures_insert l i o : captures_ok l -> match o with Some q => tpos q | None => True end ->
  captures_ok (<[i := o]> l).
Proof.
  intros [H1 H2] Ho. split; [by rewrite zlen_insert|]. intros j q Hj Hq.
  apply list_lookup_insert_Some in Hq as [(-> & -> & _)|[_ Hq]]; [done|by apply (H2 j)].
Qed.

Lemma exec_save_ok k op x m is_end : p !! k = Some (ICapture op x) -> op_save op = true -> 0 <= is_end <= 1 ->
  base m -> pc m = addr p k + 1 -> stack_len m = depth p k -> wp (exec_save s m is_end) op_post.
Proof.
  intros Hk Hop He Hb Hpc Hd. pose proof (wf_at k _ Hk) as Hwf. cbn [wf_instr] in Hwf. rewrite Hop in Hwf.
  assert (0 <= x < capture_count s) as Hx.
  { unfold byte in Hwf. apply andb_true_iff in Hwf as [H1 H2]. breflect.
    assert (op_ref op = false) as Hr by (by destruct op). rewrite Hr in H2. cbn [andb] in H2. rewrite orb_false_r in H2. breflect. lia. }
  unfold exec_save. rewrite Hpc, (code_at k _ 1 Hk) by done. cbn [encode].
  change (rd [reop op; x] 1) with (Ret x). cbn [mbind outcome_bind]. rewrite (proj2 (Z.ltb_lt x _)) by lia.
  cbn [c_assert mbind outcome_bind]. destruct (b_capture _ Hb) as [Hc1 Hc2]. rewrite wr_ok by lia.
  cbn [mbind outcome_bind]. apply wp_ret. exists (S k). apply (at_next k (ICapture op x)); try done.
  - apply base_capture; [by apply base_pc|]. apply captures_insert; [done|exact (b_cptr _ Hb)].
  - cbn [pc set_pc set_capture]. change (isize (ICapture op x)) with 2. lia.
  - cbn [stack_len set_pc set_capture delta]. lia.
Qed.

Lemma clear_captures_ok a b l : captures_ok l -> 0 <= a -> b < capture_count s -> wp (clear_captures a b l) captures_ok.
Proof.
  intros Hl Ha Hb. unfold clear_captures.
  apply (wp_foldM (fun caps l => captures_ok caps /\ Forall (fun v => 0 <= v < capture_count s) l)).
  - intros caps v l' [Hc Hf]. apply Forall_cons in Hf as [Hv Hf]. destruct Hc as [Hc1 Hc2].
    rewrite wr_ok by lia. cbn [mbind outcome_bind]. rewrite wr_ok by (rewrite zlen_insert; lia). apply wp_ret.
    split; [|done]. by apply captures_insert; [apply captures_insert|].
  - by intros caps [Hc _].
  - split; [done|]. apply Forall_forall. intros v Hv. apply elem_of_seqZ in Hv. lia.
Qed.

Lemma exec_save_reset_ok k x y m : p !! k = Some (IReset x y) ->
  base m -> pc m = addr p k + 1 -> stack_len m = depth p k -> wp (exec_save_reset s m) op_post.
Proof.
  intros Hk Hb Hpc Hd. pose proof (wf_at k _ Hk) as Hwf. cbn [wf_instr] in Hwf. unfold byte in Hwf. breflect.
  unfold exec_save_reset. rewrite Hpc. replace (addr p k + 1 + 1) with (addr p k + 2) by lia.
  rewrite (code_at k _ 1 Hk), (code_at k _ 2 Hk) by done. cbn [encode].
  change (rd [reop REOP_save_reset; x; y] 1) with (Ret x). change (rd [reop REOP_save_reset; x; y] 2) with (Ret y).
  cbn [mbind outcome_bind]. rewrite (proj2 (Z.ltb_lt y _)) by lia. cbn [c_assert mbind outcome_bind].
  apply wp_bind. eapply wp_mono; [apply clear_captures_ok; [exact (b_capture _ Hb)|lia|lia]|].
  intros caps Hcaps. apply wp_ret. exists (S k). apply (at_next k (IReset x y)); try done.
  - apply base_capture; [by apply base_pc|done].
  - cbn [pc set_pc set_capture]. change (isize (IReset x y)) with 3. lia.
  - cbn [stack_len set_pc set_capture delta]. lia.
Qed.

Definition ref_post (r : Z + Z) : Prop := match r with inl q | inr q => tpos q end.

Lemma back_reference_loop_ok e q1 q : tpos e -> tpos q1 -> tpos q -> safe (back_reference_loop s e q1 q) ref_post.
Proof.
  intros He Hq1 Hq. unfold back_reference_loop.
  apply (safe_loop (fun '(q1, q) => tpos q1 /\ tpos q)); [|done]. intros [a b] [Ha Hb].
  destruct (Z.ltb_spec a e); [|done]. destruct (Z.leb_spec (cbuf_end s) b); [done|].
  destruct (GET_CHAR_end _ _ _ (su_text Hsu) a e Ha He ltac:(lia)) as (c1 & a' & -> & Hc1 & _ & Ha' & _).
  destruct (GET_CHAR_ok _ _ _ (su_text Hsu) b Hb ltac:(lia)) as (c2 & -> & Hc2 & _ & Hb'). cbn [mbind outcome_bind].
  apply wp_safe. apply wp_bind. eapply wp_mono; [by apply canonicalize_char|]. intros c1' _.
  apply wp_bind. eapply wp_mono; [by apply canonicalize_char|]. intros c2' _. apply wp_ret. by destruct (negb _).
Qed.

Lemma backward_back_reference_loop_ok e q1 q : tpos e -> tpos q1 -> tpos q ->
  safe (backward_back_reference_loop s e q1 q) ref_post.
Proof.
  intros He Hq1 Hq. unfold backward_back_reference_loop.
  apply (safe_loop (fun '(q1, q) => tpos q1 /\ tpos q)); [|done]. intros [a b] [Ha Hb].
  destruct (Z.ltb_spec e a); [|done]. destruct (Z.eqb_spec b 0); [done|].
  destruct (GET_PREV_CHAR_ok _ _ _ (su_text Hsu) a e Ha He ltac:(lia)) as (c1 & a' & -> & Hc1 & _ & Ha').
  assert (tpos 0) as Hz0 by (split; [pose proof (t_end _ _ _ (su_text Hsu)); lia|done]).
  destruct (GET_PREV_CHAR_ok _ _ _ (su_text Hsu) b 0 Hb Hz0) as (c2 & b' & -> & Hc2 & _ & Hb'); [destruct Hb; lia|].
  cbn [mbind outcome_bind].
  apply wp_safe. apply wp_bind. eapply wp_mono; [by apply canonicalize_char|]. intros c1' _.
  apply wp_bind. eapply wp_mono; [by apply canonicalize_char|]. intros c2' _. apply wp_ret. by destruct (negb _).
Qed.

Lemma exec_back_reference_ok k op x m backward : p !! k = Some (ICapture op x) ->
  base m -> pc m = addr p k + 1 -> stack_len m = depth p k -> safe (exec_back_reference s m backward) op_post.
Proof.
  intros Hk Hb Hpc Hd. pose proof (wf_at k _ Hk) as Hwf. cbn [wf_instr] in Hwf. unfold byte in Hwf.
  apply andb_true_iff in Hwf as [Hwf _]. breflect.
  unfold exec_back_reference. rewrite Hpc, (code_at k _ 1 Hk) by done. cbn [encode].
  change (rd [reop op; x] 1) with (Ret x). cbn [mbind outcome_bind]. cbn zeta.
  assert (Hnext : forall q, tpos q -> running (set_cptr (set_pc m (addr p k + 1 + 1)) q)).
  { intros q Hq. exists (S k). apply (at_next k (ICapture op x)); [done..| | |].
    - apply (base_same m); [done|apply same_both'|done].
    - cbn [pc set_pc set_cptr]. change (isize (ICapture op x)) with 2. lia.
    - cbn [stack_len set_pc set_cptr delta]. lia. }
  destruct (Z.leb_spec (capture_count s) x); [by apply base_pc|].
  change (capture (set_pc m (addr p k + 1 + 1))) with (capture m).
  destruct (b_capture _ Hb) as [Hc1 Hc2].
  destruct (rd_ok (capture m) (2 * x) ltac:(lia)) as (o1 & Ho1 & ->). cbn [mbind outcome_bind].
  destruct (rd_ok (capture m) (2 * x + 1) ltac:(lia)) as (o2 & Ho2 & ->). cbn [mbind outcome_bind].
  assert (Hsame : running (set_pc m (addr p k + 1 + 1))) by (apply (Hnext (cptr m)), (b_cptr _ Hb)).
  destruct o1 as [q1|], o2 as [q2|]; try done.
  pose proof (Hc2 (Z.to_nat (2 * x)) q1 ltac:(lia) Ho1) as Hq1.
  pose proof (Hc2 (Z.to_nat (2 * x + 1)) q2 ltac:(lia) Ho2) as Hq2.
  apply safe_bind. apply (safe_mono _ ref_post).
  { pose proof (b_cptr _ Hb). destruct backward; [by apply backward_back_reference_loop_ok|by apply back_reference_loop_ok]. }
  intros [q|q] Hq; cbn [ref_post] in Hq.
  - apply (base_same m); [done|apply same_both'|done].
  - by apply Hnext.
Qed.

(** *** Simple quantifiers *)

(** What the recursive call does on the body of a simple quantifier: it moves
    the text pointer over [count] characters, or fails. *)
Definition body_res (n : nat) (m : vm) (r : exec_result) : Prop :=
  match r with
  | RError => False
  | RNoMatch m' => same m m' /\ tpos (cptr m')
  | RMatch m' => same m m' /\ adv n (cptr m) (cptr m')
  end.

Definition call_ok (call : vm -> outcome exec_result) : Prop :=
  forall k off mn mx cnt m, p !! k = Some (IGreedy off mn mx cnt) ->
    pc m = addr p (S k) -> tpos (cptr m) -> safe (call m) (body_res (Z.to_nat cnt) m).

Lemma simple_chars_falls i n : simple_chars i = Some n -> falls i = true /\ delta i = 0 /\ 0 <= n.
Proof. destruct i as [op| | | | | | | | | ]; try destruct op; simpl; intros [= <-]; by split_and!. Qed.

Lemma simple_run fuel call : forall body k fuel' m n rest,
  drop k p = body ++ IOp REOP_match :: rest -> simple_code body = Some n ->
  pc m = addr p k -> tpos (cptr m) ->
  0 <= n /\ safe (loop fuel' (exec_step s fuel call true) m) (body_res (Z.to_nat n) m).
Proof.
  induction body as [|i body IH]; intros k fuel' m n rest Hd Hn Hpc Hc.
  - injection Hn as <-. split; [done|]. destruct fuel' as [|fuel']; [done|]. cbn [loop].
    assert (p !! k = Some (IOp REOP_match)) as Hk by (rewrite <- (Nat.add_0_r k), <- lookup_drop; by rewrite Hd).
    unfold exec_step. rewrite Hpc, (opcode_at k _ Hk). cbn [mbind outcome_bind].
    unfold exec_op, opcode. cbn [encode hd]. rewrite reop_of_reop. cbn [mbind outcome_bind safe body_res].
    split; [apply same_pc|]. change (Z.to_nat 0) with 0%nat. constructor.
  - cbn [simple_code] in Hn. destruct (simple_chars i) as [a|] eqn:Ea; [|done].
    destruct (simple_code body) as [b|] eqn:Eb; [|done]. cbn in Hn. injection Hn as <-.
    assert (p !! k = Some i) as Hk by (rewrite <- (Nat.add_0_r k), <- lookup_drop; by rewrite Hd).
    assert (Hd' : drop (S k) p = body ++ IOp REOP_match :: rest).
    { rewrite <- Nat.add_1_r, <- drop_drop, Hd. done. }
    destruct (simple_chars_falls i a Ea) as (_ & _ & Ha).
    assert (Hb : 0 <= b) by (destruct (IH (S k) fuel' (set_pc m (addr p (S k))) b rest Hd' eq_refl eq_refl Hc); done).
    split; [lia|]. destruct fuel' as [|fuel']; [done|]. cbn [loop]. unfold exec_step at 1.
    rewrite Hpc, (opcode_at k _ Hk). cbn [mbind outcome_bind].
    pose proof (exec_simple k i a fuel call (set_pc m (addr p k + 1)) Hk Ea eq_refl Hc) as Hex.
    apply wp_elim in Hex as (r & -> & Hr). cbn [mbind outcome_bind].
    destruct r as [m'|m'|m'|]; try done.
    + destruct Hr as (Hs & Hp & Hadv). cbn [pc set_pc cptr] in Hp, Hadv.
      assert (Hpc' : pc m' = addr p (S k)) by (rewrite (addr_S p k i Hk); lia).
      pose proof (adv_tpos _ _ _ (su_text Hsu) _ _ _ Hc Hadv) as [Hc' _].
      destruct (IH (S k) fuel' m' b rest Hd' eq_refl Hpc' Hc') as [_ Hrun].
      eapply safe_mono; [exact Hrun|]. intros [|m2|m2]; cbn [body_res]; [done| |].
      * intros [Hs2 Hc2]. split; [by apply (same_trans m m')|done].
      * intros [Hs2 Ha2]. split; [by apply (same_trans m m')|].
        rewrite Z2Nat.inj_add by done. by eapply adv_trans.
Qed.

Lemma backtrack_call_ok d fuel : call_ok (lre_exec_backtrack s d fuel true).
Proof.
  intros k off mn mx cnt m Hk Hpc Hc. destruct d as [|d]; [done|]. cbn [lre_exec_backtrack].
  destruct (v_greedy _ _ _ (su_verified Hsu) k _ _ _ _ Hk) as (body & rest & Hd & Hn & _).
  by destruct (simple_run fuel (lre_exec_backtrack s d fuel true) body (S k) fuel m cnt rest Hd Hn Hpc Hc).
Qed.

Lemma returned_same m m' q : same (set_pc m q) m' -> returned m m' = m.
Proof. unfold same. intros ->. by destruct m. Qed.

Lemma greedy_loop_ok k off mn mx cnt fuel call m :
  call_ok call -> p !! k = Some (IGreedy off mn mx cnt) -> tpos (cptr m) ->
  safe (greedy_loop fuel call (addr p (S k)) mx m) (fun r => match r with
    | None => True
    | Some (q, m') => 0 <= q < 2 ^ 64 /\ m' = set_cptr m (cptr m') /\ adv (Z.to_nat (q * cnt)) (cptr m) (cptr m')
    end).
Proof.
  intros Hcall Hk Hc. destruct (greedy_wf k _ _ _ _ Hk) as (_ & _ & _ & _ & Hcnt). unfold greedy_loop.
  apply (safe_loop (fun '(q, m') => 0 <= q < 2 ^ 64 /\ m' = set_cptr m (cptr m') /\
    adv (Z.to_nat (q * cnt)) (cptr m) (cptr m'))).
  2:{ split_and!; [done|done|by destruct m|constructor]. }
  intros [q m1] (Hq & Hm1 & Hadv). apply safe_bind.
  pose proof (adv_tpos _ _ _ (su_text Hsu) _ _ _ Hc Hadv) as [Hc1 _].
  eapply safe_mono; [by apply (Hcall k off mn mx cnt (set_pc m1 (addr p (S k))))|].
  intros [|m2|m2]; cbn [body_res]; [done| |].
  - intros [Hs _]. rewrite (returned_same _ _ _ Hs). done.
  - intros [Hs Ha]. rewrite (returned_same _ _ _ Hs). cbn [cptr set_pc] in Ha.
    assert (Hadv2 : adv (Z.to_nat ((q + 1) * cnt)) (cptr m) (cptr m2)).
    { replace (Z.to_nat ((q + 1) * cnt)) with (Z.to_nat (q * cnt) + Z.to_nat cnt)%nat by nia. by eapply adv_trans. }
    pose proof (can_back_bound _ _ _ (su_text Hsu) _ _ (adv_can_back _ _ _ (su_text Hsu) _ _ _ Hc Hadv2)) as Hbd.
    pose proof (adv_tpos _ _ _ (su_text Hsu) _ _ _ Hc Hadv2) as [[Hc2 _] _].
    pose proof (su_small Hsu). pose proof (t_end _ _ _ (su_text Hsu)).
    assert (q + 1 < 2 ^ 63) by nia.
    rewrite u64_small by lia. cbn zeta.
    assert (Hgoal : 0 <= q + 1 < 2 ^ 64 /\ set_cptr m1 (cptr m2) = set_cptr m (cptr (set_cptr m1 (cptr m2))) /\
      adv (Z.to_nat ((q + 1) * cnt)) (cptr m) (cptr (set_cptr m1 (cptr m2)))).
    { split; [lia|]. split; [|done]. rewrite Hm1. by destruct m. }
    destruct ((mx <=? q + 1) && negb (mx =? INT32_MAX)); exact Hgoal.
Qed.

Lemma exec_greedy_ok k off mn mx cnt fuel call m :
  call_ok call -> p !! k = Some (IGreedy off mn mx cnt) ->
  base m -> pc m = addr p k + 1 -> stack_len m = depth p k ->
  safe (exec_simple_greedy_quant s fuel call m) op_post.
Proof.
  intros Hcall Hk Hb Hpc Hd. destruct (greedy_operands k _ _ _ _ Hk) as (Hoff & Hmn & Hmx & _).
  destruct (greedy_wf k _ _ _ _ Hk) as (Hi32 & _ & Hmnb & _ & Hcnt).
  pose proof (addr_S p k _ Hk) as HaS. rewrite isize_greedy in HaS.
  unfold exec_simple_greedy_quant. rewrite Hpc, Hoff, Hmn, Hmx. cbn [mbind outcome_bind]. cbn zeta.
  rewrite (i32_of_u32 off Hi32). replace (addr p k + 1 + 16) with (addr p (S k)) by lia.
  set (m0 := set_pc m (addr p (S k) + off)).
  assert (Hb0 : base m0) by by apply base_pc.
  apply safe_bind. eapply safe_mono; [apply (greedy_loop_ok k off mn mx cnt); [done|done|exact (b_cptr _ Hb0)]|].
  intros [[q m']|]; [|done]. intros (Hq & Hm' & Hadv).
  pose proof (adv_tpos _ _ _ (su_text Hsu) _ _ _ (b_cptr _ Hb0) Hadv) as [Hc' _].
  assert (Hb' : base m') by (rewrite Hm'; apply (base_same m0); [done|apply same_cptr|done]).
  assert (Hrun : forall m2, base m2 -> pc m2 = pc m' -> stack_len m2 = stack_len m' -> running m2).
  { intros m2 Hb2 Hp2 Hs2. apply (at_jump k _ off 0 _ Hk eq_refl); [done| |].
    - rewrite Hp2, Hm', isize_greedy. cbn [pc set_cptr]. subst m0. cbn [pc set_pc]. lia.
    - rewrite Hs2, Hm'. cbn [stack_len set_cptr]. subst m0. cbn [stack_len set_pc]. lia. }
  destruct (Z.ltb_spec q mn); [done|]. destruct (Z.ltb_spec mn q); [|by apply Hrun].
  apply wp_safe. eapply or_fail_ok; [|intros m2 Hm2; apply wp_ret; exact Hm2].
  assert (stack_len m' = depth p k) as Hd' by (rewrite Hm'; subst m0; done).
  pose proof (in_code k _ Hk) as Hkl.
  eapply wp_mono; [apply push_state_ok; [done| |]|].
  - rewrite Hd'. apply depth_bounds. lia.
  - intros rs Ht1 Ht2 Ht3 Ht4 Ht5 Ht6 Ht7 Ht8. split; try done; [congruence|].
    exists k. split; [done|]. split; [congruence|]. rewrite Ht1. exists off, mn, mx, cnt.
    split_and!; [done|lia|lia|lia|]. rewrite Ht2, Ht3.
    apply (can_back_le _ _ _ (Z.to_nat (q * cnt))); [|nia].
    exact (adv_can_back _ _ _ (su_text Hsu) _ _ _ (b_cptr _ Hb0) Hadv).
  - intros [m2|]; [|done]. intros (Hb2 & Hp2 & Hs2 & _). cbn. by apply Hrun.
Qed.

(** *** The interpreter *)

Lemma exec_op_ok k i fuel call m : call_ok call -> p !! k = Some i ->
  base m -> pc m = addr p k + 1 -> stack_len m = depth p k -> safe (exec_op s fuel call (opcode i) m) op_post.
Proof.
  intros Hcall Hk Hb Hpc Hd. pose proof (wf_at k i Hk) as Hwf.
  destruct (simple_chars i) as [n|] eqn:En.
  { destruct (simple_chars_falls i n En) as (Hf & Hdl & Hn). apply wp_safe.
    eapply wp_mono; [apply (exec_simple k i n fuel call m Hk En Hpc (b_cptr _ Hb))|].
    intros [m'|m'|m'|]; cbn [step_res op_post]; try done.
    - intros (Hs & Hp & Ha). pose proof (adv_tpos _ _ _ (su_text Hsu) _ _ _ (b_cptr _ Hb) Ha) as [Hc' _].
      exists (S k). apply (at_next k i); [done|done|by apply (base_same m)|lia|].
      rewrite Hs. cbn [stack_len set_pc set_cptr]. lia.
    - intros (Hs & Hc'). by apply (base_same m). }
  destruct i as [op|v|v|op off|op x|x y|v|r|r|off mn mx cnt]; try done; unfold exec_op, opcode; cbn [encode hd];
    rewrite reop_of_reop.
  - cbn [wf_instr] in Hwf. destruct op; try done.
    + by apply wp_safe, wp_ret, (exec_drop_ok k).
    + apply wp_safe. apply (exec_push_ok k (IOp REOP_push_char_pos)); done || (rewrite Hpc; done).
    + by apply wp_safe, (exec_prev_ok k).
  - pose proof Hwf as Hwf'. cbn [wf_instr] in Hwf'. breflect. destruct op; try done.
    + by apply wp_safe, (exec_goto_ok k off).
    + apply wp_safe, (exec_split_ok k _ off m false Hk); auto.
    + apply wp_safe, (exec_split_ok k _ off m true Hk); auto.
    + by apply wp_safe, (exec_loop_ok k off).
    + apply wp_safe, (exec_lookahead_ok k _ off m _ Hk); auto.
    + apply wp_safe, (exec_lookahead_ok k _ off m _ Hk); auto.
    + by apply wp_safe, (exec_bne_ok k off).
  - pose proof Hwf as Hwf'. cbn [wf_instr] in Hwf'. apply andb_true_iff in Hwf' as [_ Hop].
    destruct op; try done.
    + apply wp_safe. by apply (exec_save_ok k REOP_save_start x).
    + apply wp_safe. by apply (exec_save_ok k REOP_save_end x).
    + by apply (exec_back_reference_ok k REOP_back_reference x).
    + by apply (exec_back_reference_ok k REOP_backward_back_reference x).
  - by apply wp_safe, (exec_save_reset_ok k x y).
  - apply wp_safe. rewrite Hpc, (u32_at k _ 1 Hk) by done. cbn [encode]. rewrite get_u32_head0. cbn [mbind outcome_bind].
    apply (exec_push_ok k (IPush v)); try done; [by apply base_pc|]. cbn [pc set_pc]. change (isize (IPush v)) with 5. lia.
  - by apply (exec_greedy_ok k off mn mx cnt).
Qed.

Lemma exec_step_ok fuel call no_recurse m : call_ok call -> running m ->
  safe (exec_step s fuel call no_recurse m) (fun r => match r with inl m' => running m' | inr r => result_ok r end).
Proof.
  intros Hcall [k Ha]. destruct (lookup_lt_is_Some_2 p k (a_in _ _ Ha)) as [i Hk].
  unfold exec_step. rewrite (a_pc _ _ Ha), (opcode_at k i Hk). cbn [mbind outcome_bind].
  apply safe_bind. eapply safe_mono.
  { apply (exec_op_ok k i); [done|done|by apply base_pc, (a_base _ _ Ha)|done|exact (a_depth _ _ Ha)]. }
  intros [m'|m'|m'|]; cbn [op_post]; intros Hm'; try done.
  - destruct no_recurse; [done|]. apply wp_safe, recurse_ok; [done|exact (b_states _ Hm')|exact (proj2 (b_region _ Hm'))].
  - destruct no_recurse; [done|]. apply wp_safe, recurse_ok; [done|exact (b_states _ Hm')|exact (proj2 (b_region _ Hm'))].
Qed.

Lemma lre_exec_backtrack_ok d fuel no_recurse m : running m ->
  safe (lre_exec_backtrack s d fuel no_recurse m) result_ok.
Proof.
  intros Hm. destruct d as [|d]; [done|]. cbn [lre_exec_backtrack].
  apply (safe_loop running); [|done]. intros m' Hm'. apply exec_step_ok; [apply backtrack_call_ok|done].
Qed.
End Safe.

(** ** The theorem *)

Lemma byte_text_ok text clen type utf16 :
  Forall is_byte text -> 0 <= clen -> Z.shiftl clen type <= zlen text -> type = 0 \/ type = 1 ->
  text_ok text (if (type =? 1) && utf16 then 2 else type) (Z.shiftl clen type).
Proof.
  intros Hb Hc Hl Ht. rewrite Z.shiftl_mul_pow2 in * by lia.
  split; try done; destruct Ht as [-> | ->], utf16; cbn [Z.eqb andb]; try lia; done || lia.
Qed.

(** The matcher on verified code. *)
Lemma lre_exec_ok `{Allocator} (flags nc smax b3 b4 b5 b6 : Z) (p : list instr) (names text : list Z)
  (captures : list (option Z)) (cindex clen type : Z) (fuel : nat) :
  verified nc smax p -> p <> [] -> 0 <= nc < 256 -> 0 <= smax < 256 ->
  Forall is_byte text -> zlen text < 2 ^ 63 -> type = 0 \/ type = 1 ->
  0 <= cindex <= clen -> Z.shiftl clen type <= zlen text -> 2 * nc <= zlen captures ->
  match lre_exec fuel captures ([flags; nc; smax; b3; b4; b5; b6] ++ code_of p ++ names) text cindex clen type with
  | Fault f => f = OutOfFuel
  | Ret (r, None) => r = -1
  | Ret (r, Some l) => (r = 0 \/ r = 1) /\ 2 * nc <= zlen l /\
      forall i q, Z.of_nat i < 2 * nc -> l !! i = Some (Some q) -> 0 <= q <= Z.shiftl clen type
  end.
Proof.
  intros Hv Hne Hnc Hsm Htext Hz Htype Hidx Hlen Hcaps. unfold lre_exec, exec_context, exec_start.
  set (code := _ ++ _). cbn [mbind outcome_bind].
  change (rd code RE_HEADER_FLAGS) with (Ret flags). change (rd code RE_HEADER_CAPTURE_COUNT) with (Ret nc).
  change (rd code RE_HEADER_STACK_SIZE) with (Ret smax). cbn [mbind outcome_bind].
  set (s := mkCtx _ _ _ _ _ _ _ _ _ _). cbn [capture_count stack_size_max s].
  rewrite wr_range_ok by (unfold zlen in *; rewrite ?length_replicate; lia). cbn [mbind outcome_bind].
  set (caps := _ ++ _). set (m := mkVM _ _ _ _ _ _ _ _).
  assert (Hsu : setup s [flags; nc; smax; b3; b4; b5; b6] p names).
  { split; try done; [by apply byte_text_ok; [..|lia|done|done]|simpl; lia]. }
  assert (Hcl : 2 * nc <= zlen caps).
  { subst caps. rewrite zlen_wr_range; [done|lia|]. unfold zlen in *. rewrite length_replicate. lia. }
  assert (Hnone : forall i q, Z.of_nat i < 2 * nc -> caps !! i = Some (Some q) -> False).
  { intros i q Hi Hq. subst caps. change (Z.to_nat 0) with 0%nat in Hq. rewrite take_0, app_nil_l in Hq.
    rewrite lookup_app_l in Hq by (rewrite length_replicate; lia).
    apply lookup_replicate in Hq as [Hq _]. done. }
  pose proof (t_end _ _ _ (su_text _ _ _ _ Hsu)) as Hend. cbn [cbuf_end s] in Hend.
  rewrite !Z.shiftl_mul_pow2 in * by lia.
  assert (Hrun : running s p m).
  { exists 0%nat. split.
    - split.
      + cbn [cptr m cbuf_type cbuf_end s]. rewrite !Z.shiftl_mul_pow2 by lia.
        destruct Htype as [-> | ->]; (split; [nia|]); [done|intros _; cbn; lia].
      + split; [exact Hcl|]. intros i q Hi Hq. by destruct (Hnone i q Hi Hq).
      + unfold zlen. cbn [stack m]. rewrite length_replicate. cbn [stack_size_max s]. lia.
      + constructor.
      + done.
    - done.
    - destruct p; [done|simpl; lia].
    - done. }
  pose proof (lre_exec_backtrack_ok s _ p names Hsu 2 fuel false m Hrun) as Hok.
  destruct (lre_exec_backtrack s 2 fuel false m) as [[|m'|m']|f]; cbn [safe result_ok mbind outcome_bind] in *.
  - done.
  - destruct (b_capture _ _ _ Hok) as [H1 H2]. split; [by left|]. split; [done|].
    intros i q Hi Hq. destruct (H2 i q Hi Hq) as [Hb _]. cbn [cbuf_end s] in Hb.
    rewrite Z.shiftl_mul_pow2 in Hb by lia. lia.
  - destruct (b_capture _ _ _ Hok) as [H1 H2]. split; [by right|]. split; [done|].
    intros i q Hi Hq. destruct (H2 i q Hi Hq) as [Hb _]. cbn [cbuf_end s] in Hb.
    rewrite Z.shiftl_mul_pow2 in Hb by lia. lia.
  - by destruct f.
Qed.

(** The matcher is memory-safe on verified code.  For a code whose header
    announces [nc] captures and a stack of [smax] entries and whose
    instructions are verified for these numbers, for every text of 8-bit or
    16-bit characters, every starting index in it, every capture array of at
    least [2 * nc] entries and every allocator, the call never reads outside
    the code, the text, the captures or the stack, never writes outside the
    captures or the stack, fails no assertion and does not abort, however long
    it runs; when it returns, it is with -1, 0 or 1, and the captures it leaves
    are null or positions in the text. *)
Theorem lre_exec_safe `{Allocator} (flags nc smax b3 b4 b5 b6 : Z) (p : list instr) (names text : list Z)
  (captures : list (option Z)) (cindex clen type : Z) (fuel : nat) :
  verified nc smax p -> p <> [] -> 0 <= nc < 256 -> 0 <= smax < 256 ->
  Forall is_byte text -> zlen text < 2 ^ 63 -> type = 0 \/ type = 1 ->
  0 <= cindex <= clen -> Z.shiftl clen type <= zlen text -> 2 * nc <= zlen captures ->
  match lre_exec fuel captures ([flags; nc; smax; b3; b4; b5; b6] ++ code_of p ++ names) text cindex clen type with
  | Fault f => f = OutOfFuel
  | Ret (r, None) => r = -1
  | Ret (r, Some l) => (r = 0 \/ r = 1) /\ 2 * nc <= zlen l /\
      forall i q, Z.of_nat i < 2 * nc -> l !! i = Some (Some q) -> 0 <= q <= Z.shiftl clen type
  end.
Proof. intros. by apply (lre_exec_ok flags nc smax b3 b4 b5 b6 p names). Qed.

(** The code of [/(a+)\1/] with the search loop around it. *)
Definition sample_code : list instr := [
  IJump REOP_split_goto_first 6; IOp REOP_any; IJump REOP_goto (-11); ICapture REOP_save_start 0;
  ICapture REOP_save_start 1; IGreedy 4 1 INT32_MAX 1; IChar 97; IOp REOP_match; ICapture REOP_save_end 1;
  ICapture REOP_back_reference 1; ICapture REOP_save_end 0; IOp REOP_match].

Lemma lre_exec_safe_witness :
  verified 2 0 sample_code /\
  match @lre_exec (bounded_allocator 65536) 1000 (replicate 4 None)
    ([0; 2; 0; 0; 0; 0; 0] ++ code_of sample_code ++ []) (str "xaaa") 0 4 0 with
  | Fault f => f = OutOfFuel
  | Ret (r, None) => r = -1
  | Ret (r, Some l) => (r = 0 \/ r = 1) /\ 2 * 2 <= zlen l /\
      forall i q, Z.of_nat i < 2 * 2 -> l !! i = Some (Some q) -> 0 <= q <= Z.shiftl 4 0
  end.
Proof.
  assert (verified 2 0 sample_code) as Hv by (apply verify_verified; vm_compute; reflexivity).
  split; [exact Hv|].
  apply (@lre_exec_safe (bounded_allocator 65536) 0 2 0 0 0 0 0 sample_code [] (str "xaaa") (replicate 4 None) 0 4 0 1000);
    [exact Hv|discriminate|lia|lia| |vm_compute; reflexivity|by left|lia|vm_compute; discriminate|vm_compute; discriminate].
  repeat (apply Forall_cons; split; [split; vm_compute; [discriminate|reflexivity]|]). apply Forall_nil_2.
Defined.
