(* ===== verification/RegexpLogic.v ===== *)
(** * Regular expressions: reasoning about the parser

    Partial correctness for the compiler of [RegexpParse] and [RegexpCompile]:
    what holds of a call that returns without an error and leaves the error
    flag of the code buffer clear.  [sticky] says that the flag, once set,
    stays set, [framed] that a call leaves the code and the number of captures
    alone; both are derived from the structure of the code. *)

From S2P Require Import Prelude Cutils DynBuf RegexpOp RegexpParse.

(** ** Outcomes *)

(** [Q] of the value, if there is one. *)
Definition post {A} (m : outcome A) (Q : A -> Prop) : Prop :=
  match m with Ret a => Q a | Fault _ => True end.

Lemma post_bind {A B} (m : outcome A) (k : A -> outcome B) (Q : B -> Prop) :
  post m (fun a => post (k a) Q) -> post (m ≫= k) Q.
Proof. by destruct m. Qed.
Lemma post_mono {A} (m : outcome A) (P Q : A -> Prop) : post m P -> (forall a, P a -> Q a) -> post m Q.
Proof. destruct m; simpl; auto. Qed.
Lemma post_true {A} (m : outcome A) : post m (fun _ => True).
Proof. by destruct m. Qed.
Lemma post_intro {A} (m : outcome A) (Q : A -> Prop) : (forall a, m = Ret a -> Q a) -> post m Q.
Proof. destruct m; simpl; auto. Qed.
Lemma post_run {A} (m : outcome A) (a : A) (Q : A -> Prop) : post m Q -> m = Ret a -> Q a.
Proof. by intros H ->. Qed.
Lemma wp_post {A} (m : outcome A) (Q : A -> Prop) : wp m Q -> post m Q.
Proof. by destruct m. Qed.

Lemma post_loop {S R : Type} (I : S -> Prop) (Q : R -> Prop) (body : S -> outcome (S + R)) :
  (forall s, I s -> post (body s) (fun r => match r with inl s' => I s' | inr r => Q r end)) ->
  forall fuel s, I s -> post (loop fuel body s) Q.
Proof.
  intros Hb fuel. induction fuel as [|fuel IH]; intros s Hs; [done|]. cbn [loop].
  specialize (Hb s Hs). destruct (body s) as [[s'|r]|[]]; simpl in *; auto.
Qed.

Lemma post_foldM {A B : Type} (I : B -> Prop) (f : B -> A -> outcome B) :
  (forall b x, I b -> post (f b x) I) -> forall l b, I b -> post (foldM f b l) I.
Proof.
  intros Hf l. induction l as [|x l IH]; intros b Hb; [done|]. cbn [foldM].
  specialize (Hf b x Hb). destruct (f b x); [by apply IH|done].
Qed.

(** ** Structural properties of parsers *)

Definition keeps (P : REParseState -> REParseState -> Prop) {A} (m : parser A) : Prop :=
  forall s r s', m s = Ret (r, s') -> P s s'.

Section Keeps.
Context (P : REParseState -> REParseState -> Prop) `{!Reflexive P, !Transitive P}.

Lemma keeps_ret {A} (a : A) : keeps P (pret a).
Proof. intros s r s' [= _ <-]. done. Qed.
Lemma keeps_fail {A} : keeps P (@pfail A).
Proof. intros s r s' [= _ <-]. done. Qed.
Lemma keeps_get : keeps P pget.
Proof. intros s r s' [= _ <-]. done. Qed.
Lemma keeps_lift {A} (m : outcome A) : keeps P (plift m).
Proof. intros s r s' E. unfold plift in E. destruct m; [|done]. by injection E as _ <-. Qed.
Lemma keeps_peek p : keeps P (peek p).
Proof. intros s r s' E. unfold peek in E. destruct (rd (src s) p); [|done]. by injection E as _ <-. Qed.
Lemma keeps_mod f : (forall s, P s (f s)) -> keeps P (pmod f).
Proof. intros Hf s r s' [= _ <-]. apply Hf. Qed.
Lemma keeps_bind {A B} (m : parser A) (k : A -> parser B) :
  keeps P m -> (forall a, keeps P (k a)) -> keeps P (pbind m k).
Proof.
  intros Hm Hk s r s' E. unfold pbind in E. destruct (m s) as [[[a|] s1]|] eqn:E1; [| |done]; cbn in E.
  - transitivity s1; [by eapply Hm|by eapply Hk].
  - injection E as <- <-. by eapply Hm.
Qed.
Lemma keeps_loop {S R} (body : S -> parser (S + R)) :
  (forall x, keeps P (body x)) -> forall fuel x, keeps P (ploop fuel body x).
Proof.
  intros Hb fuel. induction fuel as [|fuel IH]; intros x; cbn [ploop]; [apply keeps_lift|].
  apply keeps_bind; [done|]. intros [x'|r]; [done|apply keeps_ret].
Qed.
End Keeps.

(** The code and the captures are left alone. *)
Definition same_code (s s' : REParseState) : Prop :=
  byte_code s' = byte_code s /\ capture_count s' = capture_count s.
#[export] Instance same_code_refl : Reflexive same_code.
Proof. done. Qed.
#[export] Instance same_code_trans : Transitive same_code.
Proof. intros a b c [H1 H2] [H3 H4]. split; congruence. Qed.

(** An error of the code buffer stays. *)
Definition keeps_error (s s' : REParseState) : Prop :=
  dbuf_error (byte_code s) = true -> dbuf_error (byte_code s') = true.
#[export] Instance keeps_error_refl : Reflexive keeps_error.
Proof. by unfold Reflexive, keeps_error. Qed.
#[export] Instance keeps_error_trans : Transitive keeps_error.
Proof. unfold Transitive, keeps_error. auto. Qed.

Notation framed := (keeps same_code).
Notation sticky := (keeps keeps_error).

Lemma framed_sticky {A} (m : parser A) : framed m -> sticky m.
Proof. intros Hm s r s' E. destruct (Hm s r s' E) as [H1 _]. unfold keeps_error. by rewrite H1. Qed.

Lemma framed_error {A} msg : framed (@re_parse_error A msg).
Proof.
  intros s r s' E. unfold re_parse_error in E. destruct (wr_range _ _ _); [|done]. by injection E as _ <-.
Qed.

Create HintDb keeps.

(** Follows the structure of a parser; calls are closed by the hints. *)
Ltac keeps_step :=
  match goal with
  | |- keeps _ (pbind _ _) => apply keeps_bind; [apply _| |intros]
  | |- keeps _ (pret _) => apply keeps_ret; apply _
  | |- keeps _ pfail => apply keeps_fail; apply _
  | |- keeps _ pget => apply keeps_get; apply _
  | |- keeps _ (plift _) => apply keeps_lift; apply _
  | |- keeps _ (peek _) => apply keeps_peek; apply _
  | |- keeps _ (ploop _ _ _) => apply keeps_loop; [apply _..|intros]
  | |- keeps _ (re_parse_error _) => first [apply framed_error|apply framed_sticky, framed_error]
  | |- keeps _ (let _ := _ in _) => cbv zeta
  | |- keeps _ (match ?x with _ => _ end) => destruct x
  | |- _ => progress intros
  | |- _ => solve [eauto with keeps]
  end.
Ltac keeps_auto := repeat keeps_step.

(** ** Partial correctness of a parser *)

Definition pwp {A} (m : parser A) (s : REParseState) (Q : A -> REParseState -> Prop) : Prop :=
  forall a s', m s = Ret (Some a, s') -> dbuf_error (byte_code s') = false -> Q a s'.

Lemma pwp_mono {A} (m : parser A) s (Q Q' : A -> REParseState -> Prop) :
  pwp m s Q -> (forall a s', Q a s' -> Q' a s') -> pwp m s Q'.
Proof. intros H HQ a s' E He. apply HQ. by apply H. Qed.
Lemma pwp_ret {A} (a : A) s (Q : A -> REParseState -> Prop) : Q a s -> pwp (pret a) s Q.
Proof. intros H a' s' [= <- <-] _. done. Qed.
Lemma pwp_fail {A} s (Q : A -> REParseState -> Prop) : pwp pfail s Q.
Proof. intros a s' E. discriminate E. Qed.
Lemma pwp_get s (Q : REParseState -> REParseState -> Prop) : Q s s -> pwp pget s Q.
Proof. intros H a s' [= <- <-] _. done. Qed.
Lemma pwp_mod f s (Q : () -> REParseState -> Prop) : Q () (f s) -> pwp (pmod f) s Q.
Proof. intros H [] s' [= <-] _. done. Qed.
Lemma pwp_lift {A} (m : outcome A) s (Q : A -> REParseState -> Prop) :
  (forall a, m = Ret a -> Q a s) -> pwp (plift m) s Q.
Proof. intros H a s' E _. unfold plift in E. destruct m; [|done]. injection E as <- <-. by apply H. Qed.
Lemma pwp_error {A} msg s (Q : A -> REParseState -> Prop) : pwp (re_parse_error msg) s Q.
Proof. intros a s' E. unfold re_parse_error in E. by destruct (wr_range _ _ _). Qed.

Lemma pwp_bind {A B} (m : parser A) (k : A -> parser B) s (Q : B -> REParseState -> Prop) :
  (forall a, sticky (k a)) -> pwp m s (fun a s1 => pwp (k a) s1 Q) -> pwp (pbind m k) s Q.
Proof.
  intros Hk Hm b s' E He. unfold pbind in E. destruct (m s) as [[[a|] s1]|] eqn:E1; [|done|done]; cbn in E.
  apply (Hm a s1 E1); [|done|done]. destruct (dbuf_error (byte_code s1)) eqn:He1; [|done].
  pose proof (Hk a s1 _ _ E He1). congruence.
Qed.

(** A call that leaves the code alone, with what its value satisfies. *)
Definition returns {A} (m : parser A) (V : A -> Prop) : Prop :=
  forall s a s', m s = Ret (Some a, s') -> V a.

Lemma pwp_framed {A} (m : parser A) (V : A -> Prop) s (Q : A -> REParseState -> Prop) :
  framed m -> returns m V -> (forall a s', same_code s s' -> V a -> Q a s') -> pwp m s Q.
Proof. intros Hf Hv H a s' E _. apply H; [by eapply Hf|by eapply Hv]. Qed.

Lemma returns_true {A} (m : parser A) : returns m (fun _ => True).
Proof. done. Qed.

Lemma pwp_frame {A} (m : parser A) s (Q : A -> REParseState -> Prop) :
  framed m -> (forall a s', same_code s s' -> Q a s') -> pwp m s Q.
Proof. intros Hf H. apply (pwp_framed m (fun _ => True)); auto using @returns_true. Qed.

Lemma returns_ret {A} (a : A) (V : A -> Prop) : V a -> returns (pret a) V.
Proof. intros H s a' s' [= <- _]. done. Qed.
Lemma returns_fail {A} (V : A -> Prop) : returns pfail V.
Proof. intros s a' s' E. discriminate E. Qed.
Lemma returns_error {A} msg (V : A -> Prop) : returns (re_parse_error msg) V.
Proof. intros s a s' E. unfold re_parse_error in E. by destruct (wr_range _ _ _). Qed.
Lemma returns_lift {A} (m : outcome A) (V : A -> Prop) : post m V -> returns (plift m) V.
Proof. intros H s a s' E. unfold plift in E. destruct m; [|done]. by injection E as <- _. Qed.
Lemma returns_bind {A B} (m : parser A) (k : A -> parser B) (U : A -> Prop) (V : B -> Prop) :
  returns m U -> (forall a, U a -> returns (k a) V) -> returns (pbind m k) V.
Proof.
  intros Hm Hk s b s' E. unfold pbind in E. destruct (m s) as [[[a|] s1]|] eqn:E1; [|done|done]; cbn in E.
  by apply (Hk a (Hm s a s1 E1) s1 b s').
Qed.
Lemma returns_any {A B} (m : parser A) (k : A -> parser B) (V : B -> Prop) :
  (forall a, returns (k a) V) -> returns (pbind m k) V.
Proof. intros Hk. apply (returns_bind m k (fun _ => True)); auto using @returns_true. Qed.
Lemma returns_loop {S R} (I : S -> Prop) (V : R -> Prop) (body : S -> parser (S + R)) :
  (forall x, I x -> returns (body x) (fun r => match r with inl x => I x | inr r => V r end)) ->
  forall fuel x, I x -> returns (ploop fuel body x) V.
Proof.
  intros Hb fuel. induction fuel as [|fuel IH]; intros x Hx; cbn [ploop]; [by apply returns_lift|].
  eapply returns_bind; [by apply Hb|]. intros [x'|r] Hr; [by apply IH|by apply returns_ret].
Qed.

(** A loop with an invariant of its state and of the parser's. *)
Lemma pwp_loop {S R} (I : S -> REParseState -> Prop) (body : S -> parser (S + R)) (Q : R -> REParseState -> Prop) :
  (forall x, sticky (body x)) ->
  (forall x s, I x s -> pwp (body x) s (fun r s' => match r with inl x' => I x' s' | inr r => Q r s' end)) ->
  forall fuel x s, I x s -> pwp (ploop fuel body x) s Q.
Proof.
  intros Hk Hb fuel. induction fuel as [|fuel IH]; intros x s Hx; cbn [ploop]; [by apply pwp_lift|].
  apply pwp_bind.
  - intros [x'|r]; [by apply keeps_loop; [apply _..|]|by apply keeps_ret; apply _].
  - eapply pwp_mono; [by apply Hb|]. intros [x'|r] s' Hr; [by apply IH|by apply pwp_ret].
Qed.
