(* ===== verification/RegexpRange.v ===== *)
(** * Regular expressions: the character sets are well-formed

    Every [CharRange] the compiler builds, from a class, a predefined range or
    a Unicode property, lies within its object and has an even number of
    points, whatever the tables and the pattern. *)

From S2P Require Import Prelude Cutils DynBuf CharRange UnicodeTables UnicodeLookup UniProps RegexpOp RegexpParse RegexpLogic.

(** An embedder whose allocator refuses objects of 2^31 bytes or more: the
    lengths and offsets the compiler keeps in an [int] are exact. *)
Class SmallAllocator `{Allocator} : Prop :=
  small_alloc : forall cell p n q, realloc_func cell p n = Some q -> n * cell < 2 ^ 31.

Lemma bounded_small limit : limit < 2 ^ 31 -> @SmallAllocator (bounded_allocator limit).
Proof.
  intros Hl cell p n q E. cbn in E. destruct ((n * cell <=? limit) && (n * cell <? 2 ^ 63)) eqn:Eb; [|done].
  breflect. lia.
Qed.

(** The points lie in the object; [cr_ok]: and pair up to intervals. *)
Definition cr_in (cr : CharRange) : Prop := cr_wf cr /\ csize cr < 2 ^ 29.
Definition cr_ok (cr : CharRange) : Prop := cr_in cr /\ Z.even (len cr) = true.

(** Results of functions that return -1 when an allocation fails. *)
Definition unless_failed (I : CharRange -> Prop) (r : Z * CharRange) : Prop := r.1 <> -1 -> I r.2.
Notation good := (unless_failed cr_ok).

Lemma cr_init_ok : cr_ok cr_init.
Proof. by repeat split. Qed.

Lemma good_same r cr : cr_ok cr -> good (r, cr).
Proof. by intros H _. Qed.

Section Ranges.
Context `{SmallAllocator}.

Lemma cr_realloc_in cr n : cr_in cr ->
  let '(r, cr') := cr_realloc cr n in
  cr_in cr' /\ len cr' = len cr /\ (r = 0 -> n <= csize cr') /\ (r = 0 \/ r = -1).
Proof.
  intros [Hwf Hz]. destruct (cr_realloc cr n) as [r cr'] eqn:E.
  destruct (cr_realloc_spec cr n r cr' Hwf E) as (Hwf' & _ & Hlen & Hr).
  assert (csize cr' < 2 ^ 29) as Hz'.
  { revert E. unfold cr_realloc. destruct (Z.ltb_spec (csize cr) n) as [Hlt|]; [|by intros [= _ <-]].
    set (k := Bits.max_int n _). destruct (realloc_func 4 (points cr) k) as [q|] eqn:Ea; intros [= _ <-]; [|done].
    pose proof (small_alloc _ _ _ _ Ea). cbn [csize]. lia. }
  split_and!; try done; [|naive_solver]. intros ->. destruct Hr as [[_ ?]|[? _]]; [done|discriminate].
Qed.

Lemma cr_realloc_keep cr n : cr_in cr -> 
  forall b : bool, let '(r, cr') := (if b then cr_realloc cr n else (0, cr)) in
  cr_in cr' /\ len cr' = len cr /\ (r = 0 \/ r = -1).
Proof.
  intros Hin [|]; [|by split_and!; auto]. pose proof (cr_realloc_in cr n Hin) as Hr.
  destruct (cr_realloc cr n). naive_solver.
Qed.

(** A write that returned was within the object. *)
Lemma wr_Ret {A} (l : list A) i v l' : wr l i v = Ret l' -> 0 <= i < zlen l /\ zlen l' = zlen l.
Proof.
  unfold wr. destruct ((0 <=? i) && (i <? zlen l)) eqn:Eb; [|done]. intros [= <-]. breflect.
  by rewrite zlen_insert.
Qed.
Lemma wr_range_Ret {A} (l : list A) i d l' : wr_range l i d = Ret l' -> 0 <= i /\ i + zlen d <= zlen l /\ zlen l' = zlen l.
Proof.
  unfold wr_range. destruct ((0 <=? i) && (i + zlen d <=? zlen l)) eqn:Eb; [|done]. intros [= <-]. breflect.
  by rewrite zlen_wr_range.
Qed.

Lemma even_add2 n : Z.even (n + 2) = Z.even n.
Proof. by rewrite Z.even_add, xorb_true_r, negb_involutive || rewrite Z.even_add; destruct (Z.even n). Qed.

Lemma cr_add_point_in cr v : cr_in cr -> post (cr_add_point cr v) (fun '(r, cr') =>
  (r = 0 \/ r = -1) /\ (r = 0 -> cr_in cr' /\ len cr' = len cr + 1)).
Proof.
  intros Hin. unfold cr_add_point. pose proof (cr_realloc_keep cr (len cr + 1) Hin (csize cr <=? len cr)) as Hk.
  destruct (if csize cr <=? len cr then _ else _) as [r cr1]. destruct Hk as ([Hwf Hz] & Hl & Hr).
  destruct (Z.eqb_spec r 0) as [->|]; [|cbn; split; [by right|lia]].
  apply post_bind, post_intro. intros p Hp. cbn. apply wr_Ret in Hp as [Hp1 Hp2].
  split; [by left|]. intros _. split; [|cbn; lia]. destruct Hwf as [Hw1 Hw2]. split; [split|]; cbn; lia.
Qed.

Lemma cr_add_interval_ok cr c1 c2 : cr_ok cr -> post (cr_add_interval cr c1 c2) (unless_failed cr_ok).
Proof.
  intros [Hin He]. unfold cr_add_interval. pose proof (cr_realloc_keep cr (len cr + 2) Hin (csize cr <? len cr + 2)) as Hk.
  destruct (if csize cr <? len cr + 2 then _ else _) as [r cr1]. destruct Hk as ([[Hw1 Hw2] Hz] & Hl & Hr).
  destruct (Z.eqb_spec r 0) as [->|]; [|cbn; by intros []].
  apply post_bind, post_intro. intros p Hp. apply post_bind, post_intro. intros p' Hp'. cbn.
  apply wr_Ret in Hp as [Hp1 Hp2]. apply wr_Ret in Hp' as [Hp3 Hp4]. intros _.
  split; [split; [split|]; cbn; lia|]. cbn. by rewrite even_add2, Hl.
Qed.

Lemma cr_compress_ok cr : cr_in cr -> post (cr_compress cr) cr_ok.
Proof.
  intros [[Hw1 Hw2] Hz]. unfold cr_compress. apply post_bind.
  apply (post_mono _ (fun '(k, pt) => 0 <= k <= zlen pt /\ Z.even k = true /\ zlen pt = zlen (points cr))).
  - apply (post_loop (fun '(i, k, pt) => 0 <= k <= zlen pt /\ Z.even k = true /\ zlen pt = zlen (points cr)));
      [|cbn; split_and!; lia || done].
    intros [[i k] pt] (Hk & He & Hp). destruct (i + 1 <? len cr); [|by cbn].
    do 2 (apply post_bind, post_intro; intros ? _). case_match; [by cbn|].
    apply post_bind, post_intro. intros j _. apply post_bind, post_intro. intros ? _.
    apply post_bind, post_intro. intros pt1 Hq1. apply post_bind, post_intro. intros ? _.
    apply post_bind, post_intro. intros pt2 Hq2. apply wr_Ret in Hq1 as [? ?]. apply wr_Ret in Hq2 as [? ?].
    cbn. rewrite even_add2. split_and!; done || lia.
  - intros [k pt] (Hk & He & Hp). cbn. split; [split; [split|]; cbn; lia|done].
Qed.

(** The parity of the points consumed and produced agree, so that at the end
    of two even lists the result is even. *)
Lemma cr_op_ok cr a_pt a_len b_pt b_len op :
  cr_ok cr -> 0 <= a_len -> 0 <= b_len -> Z.even a_len = true -> Z.even b_len = true ->
  post (cr_op cr a_pt a_len b_pt b_len op) good.
Proof.
  intros [Hin He] Ha Hb Hea Heb. unfold cr_op. apply post_bind.
  apply (post_mono _ (fun '(r, cr') => r = -1 \/ (r = 0 /\ cr_ok cr'))).
  2:{ intros [r cr'] [->|[-> [Hin' _]]]; [by cbn; intros []|]. cbn. apply post_bind.
      eapply post_mono; [by apply cr_compress_ok|]. intros cr2 Hok. by apply good_same. }
  apply (post_loop (fun '(i, j, cr') => 0 <= i <= a_len /\ 0 <= j <= b_len /\ cr_in cr' /\
      op_fun op (Z.odd i) (Z.odd j) = Z.odd (len cr'))).
  2:{ split_and!; try done || lia. rewrite <- (Z.negb_even (len cr)), He. by destruct op. }
  intros [[i j] cr'] (Hi & Hj & Hin' & Hpar). apply post_bind.
  apply (post_mono _ (fun nx => match nx with
    | None => i = a_len /\ j = b_len
    | Some (_, i', j') => 0 <= i' <= a_len /\ 0 <= j' <= b_len end)).
  { unfold cr_op_next. destruct (Z.ltb_spec i a_len), (Z.ltb_spec j b_len); cbn [andb].
    - do 2 (apply post_bind, post_intro; intros ? _). case_match; [by cbn; lia|]. case_match; cbn; lia.
    - apply post_bind, post_intro; intros ? _. cbn. lia.
    - apply post_bind, post_intro; intros ? _. cbn. lia.
    - cbn. lia. }
  intros [[[v i'] j']|]; intros Hnx.
  2:{ cbn. right. split; [done|]. split; [done|]. destruct Hnx as [-> ->].
      rewrite <- !Z.negb_even, Hea, Heb in Hpar. destruct (Z.even (len cr')); [done|]. by destruct op. }
  rewrite is_in_parity, land_1, b2z_eqb. destruct (Bool.eqb _ _) eqn:Eb.
  - apply eqb_prop in Eb. cbn. naive_solver.
  - apply post_bind. eapply post_mono; [by apply cr_add_point_in|]. intros [r cr2] [Hr Hok].
    destruct (Z.eqb_spec r 0) as [->|]; cbn; [|by left]. destruct (Hok eq_refl) as [Hin2 Hl2].
    destruct Hnx. split_and!; try lia; [done|]. rewrite Hl2, odd_succ.
    by destruct (op_fun op (Z.odd i') (Z.odd j')), (Z.odd (len cr')).

Qed.

Lemma cr_union1_ok cr b_pt b_len : cr_ok cr -> 0 <= b_len -> Z.even b_len = true ->
  post (cr_union1 cr b_pt b_len) good.
Proof. intros [[[_ Hw] _] He] Hb Heb. by apply cr_op_ok; [apply cr_init_ok|lia|..]. Qed.

Lemma cr_union_ok cr cr1 : cr_ok cr -> cr_ok cr1 -> post (cr_union1 cr (points cr1) (len cr1)) good.
Proof. intros Hcr [[[_ Hw] _] He]. apply cr_union1_ok; [done|lia|done]. Qed.

Lemma cr_union_interval_ok cr c1 c2 : cr_ok cr -> post (cr_union_interval cr c1 c2) good.
Proof. intros Hcr. by apply cr_union1_ok. Qed.

Lemma cr_invert_ok cr : cr_ok cr -> post (cr_invert cr) good.
Proof.
  intros [Hin He]. unfold cr_invert. pose proof (cr_realloc_in cr (len cr + 2) Hin) as Hr.
  destruct (cr_realloc cr (len cr + 2)) as [r cr1]. destruct Hr as ([[Hw1 Hw2] Hz] & Hl & Hr & _).
  destruct (Z.eqb_spec r 0) as [->|]; [|cbn; by intros []]. specialize (Hr eq_refl).
  apply post_bind, post_intro. intros d _. apply post_bind, post_intro. intros p1 Hq1.
  apply post_bind, post_intro. intros p2 Hq2. apply post_bind, post_intro. intros p3 Hq3.
  apply wr_range_Ret in Hq1 as (_ & _ & ?). apply wr_Ret in Hq2 as [_ ?]. apply wr_Ret in Hq3 as [_ ?].
  apply post_bind. eapply post_mono; [apply cr_compress_ok|].
  - split; [split|]; cbn; lia.
  - intros cr2 Hok. by apply good_same.
Qed.

Lemma cr_canonicalize_ok cr : cr_ok cr -> post (cr_canonicalize cr) good.
Proof.
  intros Hcr. pose proof Hcr as [[[_ Hw] _] He]. unfold cr_canonicalize. apply post_bind.
  eapply post_mono; [by apply cr_op_ok; [apply cr_init_ok|lia..|done|done]|].
  intros [r a] Ha. destruct (Z.eqb_spec r 0) as [->|]; [|by apply good_same].
  destruct (Ha ltac:(done)) as [[[_ Hwa] _] Hea]. apply post_bind, post_intro. intros ? _.
  cbn in *. by apply cr_union1_ok; [done|lia|].
Qed.

Lemma cr_copy_ok cr cr1 : cr_ok cr -> cr_ok cr1 -> post (cr_copy cr cr1) good.
Proof.
  intros [Hin _] [[[_ Hw] _] He]. unfold cr_copy. pose proof (cr_realloc_in cr (len cr1) Hin) as Hr.
  destruct (cr_realloc cr (len cr1)) as [r cr2]. destruct Hr as ([[Hw1 Hw2] Hz] & _ & Hr & _).
  destruct (Z.eqb_spec r 0) as [->|]; [|cbn; by intros []]. specialize (Hr eq_refl).
  apply post_bind, post_intro. intros d _. apply post_bind, post_intro. intros p Hp.
  apply wr_range_Ret in Hp as (_ & _ & ?). cbn. intros _. split; [split; [split|]; cbn; lia|done].
Qed.

(** Closes the common steps: a bound value nothing is known of, a range
    operation by its lemma, a test of its return value. *)
Ltac any := apply post_bind, post_intro; intros ? _.
Ltac branches := cbv zeta; repeat match goal with |- post (if ?b then _ else _) _ => destruct b; cbv zeta end.
Lemma good_if {R} (r : Z) (cr : CharRange) (I : R -> Prop) (a b : R) :
  good (r, cr) -> (r = 0 -> cr_ok cr -> I a) -> I b -> I (if r =? 0 then a else b).
Proof. intros Hg Ha Hb. destruct (Z.eqb_spec r 0) as [->|]; [apply Ha; [done|by apply Hg]|done]. Qed.

(** A loop that keeps a well-formed range. *)
Lemma good_minus cr : good (-1, cr).
Proof. by intros []. Qed.

Ltac add_step :=
  match goal with
  | |- post (Ret (inr (-1, _))) _ => apply good_minus
  | |- post (Ret _) _ => cbn; first [done|by apply good_same|auto]
  end.

Lemma script_loop_ok idx cr : cr_ok cr -> post (script_loop idx cr) good.
Proof.
  intros Hcr. apply (post_loop (fun '(_, _, cr) => cr_ok cr)); [|done].
  intros [[p c] cr'] Hok. case_match; [|by apply good_same]. any. any. destruct a0 as [n q]. any. destruct a0 as [v q'].
  case_match; [|done]. apply post_bind. eapply post_mono; [by apply cr_add_interval_ok|].
  intros [r cr2] Hg. by apply (good_if r cr2 (fun x => post x _) _ _ Hg); [|apply good_minus].
Qed.

Lemma script_ext_loop_ok idx common cr : cr_ok cr -> post (script_ext_loop idx common cr) good.
Proof.
  intros Hcr. apply (post_loop (fun '(_, _, cr) => cr_ok cr)); [|done].
  intros [[p c] cr'] Hok. case_match; [|by apply good_same]. any. any. destruct a0 as [n q]. any. any.
  apply post_bind. apply (post_mono _ good).
  - destruct a1; [by apply cr_add_interval_ok|by apply good_same].
  - intros [r cr2] Hg. by apply (good_if r cr2 (fun x => post x _) _ _ Hg); [|apply good_minus].
Qed.

Lemma script_fail_never fuel (Q : Z * CharRange -> Prop) : post (script_fail fuel) Q.
Proof. by apply (post_loop (fun _ => True)). Qed.

(** [if (ret) goto fail;] *)
Lemma script_checked m fuel (k : Z * CharRange -> outcome (Z * CharRange)) :
  post m good -> (forall cr, cr_ok cr -> post (k (0, cr)) good) ->
  post ('(r, cr) ← m; if negb (r =? 0) then script_fail fuel else k (r, cr)) good.
Proof.
  intros Hm Hk. apply post_bind. eapply post_mono; [exact Hm|]. intros [r cr] Hg.
  destruct (Z.eqb_spec r 0) as [->|]; cbn [negb]; [|apply script_fail_never]. apply Hk. by apply Hg.
Qed.

Lemma unicode_script_ok fuel cr name ext : cr_ok cr -> post (unicode_script fuel cr name ext) good.
Proof.
  intros Hcr. unfold unicode_script. any. case_match; [by apply good_same|]. destruct ext.
  - apply (script_checked _ fuel (fun '(_, cr1) => _)); [apply script_loop_ok, cr_init_ok|]. intros cr1 Hcr1.
    apply (script_checked _ fuel (fun '(_, cr2) => _)); [apply script_ext_loop_ok, cr_init_ok|]. intros cr2 Hcr2.
    pose proof Hcr1 as [[[_ Hw1] _] He1]. case_match.
    + apply (script_checked _ fuel (fun '(_, cr2) => _)); [by apply cr_invert_ok|]. intros cr3 [[[_ Hw3] _] He3].
      apply (script_checked _ fuel (fun '(_, cr) => Ret (0, cr))); [by apply cr_op_ok; try lia|].
      intros. by apply good_same.
    + destruct Hcr2 as [[[_ Hw2] _] He2].
      apply (script_checked _ fuel (fun '(_, cr) => Ret (0, cr))); [by apply cr_op_ok; try lia|].
      intros. by apply good_same.
  - apply (script_checked _ fuel (fun '(_, cr) => Ret (0, cr))); [by apply script_loop_ok|].
    intros. by apply good_same.
Qed.

Lemma add_every_other_ok cr c0 c : cr_ok cr -> post (add_every_other cr c0 c) good.
Proof.
  intros Hcr. apply (post_loop (fun '(_, cr) => cr_ok cr)); [|done].
  intros [i cr'] Hok. case_match; [|by apply good_same].
  apply post_bind. eapply post_mono; [by apply cr_add_interval_ok|].
  intros [r cr2] Hg. by apply (good_if r cr2 (fun x => post x _) _ _ Hg); [|apply good_minus].
Qed.

Lemma unicode_general_category1_ok cr mask : cr_ok cr -> post (unicode_general_category1 cr mask) good.
Proof.
  intros Hcr. apply (post_loop (fun '(_, _, cr) => cr_ok cr)); [|done].
  intros [[p c] cr'] Hok. case_match; [|by apply good_same]. any. any. destruct a0 as [n q].
  apply post_bind. apply (post_mono _ good).
  - branches; first [by apply good_same|by apply cr_add_interval_ok|by apply add_every_other_ok].
  - intros [r cr2] Hg. by apply (good_if r cr2 (fun x => post x _) _ _ Hg); [|apply good_minus].
Qed.

Lemma prop_add_ok cr bit c0 c : cr_ok cr -> post (prop_add cr bit c0 c) good.
Proof. intros Hcr. destruct bit; [by apply cr_add_interval_ok|by apply good_same]. Qed.

Lemma unicode_prop1_ok cr idx : cr_ok cr -> post (unicode_prop1 cr idx) good.
Proof.
  intros Hcr. unfold unicode_prop1. any. any. apply (post_loop (fun '(_, _, _, cr) => cr_ok cr)); [|done].
  intros [[[p c] bit] cr'] Hok. unfold prop_step. case_match; [|by apply good_same]. any. case_match.
  - apply post_bind. eapply post_mono; [by apply prop_add_ok|]. intros [r cr2] Hg.
    destruct (Z.eqb_spec r 0) as [->|]; cbn [negb]; [|apply good_minus].
    apply post_bind. eapply post_mono; [apply prop_add_ok; by apply Hg|]. intros [r cr3] Hg3.
    destruct (Z.eqb_spec r 0) as [->|]; cbn [negb]; [|apply good_minus]. by apply Hg3.
  - any. destruct a2 as [q c1]. apply post_bind. eapply post_mono; [by apply prop_add_ok|]. intros [r cr2] Hg.
    destruct (Z.eqb_spec r 0) as [->|]; cbn [negb]; [|apply good_minus]. by apply Hg.
Qed.

Lemma add_intervals_ok cr l : cr_ok cr -> post (add_intervals cr l) good.
Proof.
  intros Hcr. apply (post_foldM good); [|by apply good_same]. intros [r cr'] [x y] Hg.
  destruct (Z.eqb_spec r 0) as [->|]; [|done]. apply cr_add_interval_ok. by apply Hg.
Qed.

Lemma unicode_case1_ok cr mask : cr_ok cr -> post (unicode_case1 cr mask) good.
Proof.
  intros Hcr. unfold unicode_case1. case_match; [by apply good_same|].
  apply (post_foldM good); [|by apply good_same]. intros [r cr'] v Hg.
  destruct (Z.eqb_spec r 0) as [->|]; cbn [negb]; [|done]. specialize (Hg ltac:(done)).
  case_match; [|by apply good_same]. unfold case1_entry. branches; by apply add_intervals_ok.
Qed.

(** *** Property expressions *)

Definition stack_ok (r : option (list CharRange)) : Prop := match r with Some l => Forall cr_ok l | None => True end.

Lemma good_push (m : outcome (Z * CharRange)) (rest : list CharRange) :
  post m good -> Forall cr_ok rest ->
  post ('(r, cr) ← m; Ret (if r =? 0 then Some (cr :: rest) else None)) stack_ok.
Proof.
  intros Hm Hrest. apply post_bind. eapply post_mono; [exact Hm|]. intros [r cr] Hg.
  destruct (Z.eqb_spec r 0) as [->|]; [|done]. constructor; [by apply Hg|done].
Qed.

Lemma pop_binary_ok stack op : Forall cr_ok stack -> post (pop_binary stack op) stack_ok.
Proof.
  intros Hst. unfold pop_binary. any. any. destruct stack as [|cr2 [|cr1 rest]]; [done..|].
  apply Forall_cons in Hst as [Ho2 Hst]. apply Forall_cons in Hst as [Ho1 Hst]. apply good_push; [|done].
  pose proof Ho1 as [[[_ ?] _] ?]. pose proof Ho2 as [[[_ ?] _] ?]. by apply cr_op_ok; [apply cr_init_ok|lia..| |].
Qed.

Lemma pop_step_ok stack op : Forall cr_ok stack -> post (pop_step stack op) stack_ok.
Proof.
  intros Hst. pose proof cr_init_ok. destruct op; cbn [pop_step]; try by apply pop_binary_ok.
  - any. by apply good_push; [apply unicode_general_category1_ok|].
  - any. by apply good_push; [apply unicode_prop1_ok|].
  - any. by apply good_push; [apply unicode_case1_ok|].
  - any. destruct stack as [|cr rest]; [done|]. apply Forall_cons in Hst as [Ho Hst].
    by apply good_push; [apply cr_invert_ok|].
  - done.
Qed.

Lemma pop_run_ok ops : forall stack, Forall cr_ok stack -> post (pop_run stack ops) stack_ok.
Proof.
  induction ops as [|op ops IH]; intros stack Hst; [done|].
  assert (post (r ← pop_step stack op; match r with Some st => pop_run st ops | None => Ret None end) stack_ok).
  { apply post_bind. eapply post_mono; [by apply pop_step_ok|]. intros [st|] Hr; [by apply IH|done]. }
  by destruct op.
Qed.

Lemma unicode_prop_ops_ok cr ops : cr_ok cr -> post (unicode_prop_ops cr ops) good.
Proof.
  intros Hcr. unfold unicode_prop_ops. apply post_bind. eapply post_mono; [by apply pop_run_ok|].
  intros [st|] Hst; [|apply good_minus]. any. destruct st as [|cr1 [|]]; [done| |done].
  apply Forall_cons in Hst as [Hst _]. by apply cr_copy_ok.
Qed.

Lemma unicode_general_category_ok cr name : cr_ok cr -> post (unicode_general_category cr name) good.
Proof.
  intros Hcr. unfold unicode_general_category. any. case_match; [by apply good_same|]. any.
  by apply unicode_general_category1_ok.
Qed.

Lemma unicode_prop_ok cr name : cr_ok cr -> post (unicode_prop cr name) good.
Proof.
  intros Hcr. unfold unicode_prop. any.
  repeat case_match;
    first [by apply good_same|by apply cr_add_interval_ok|by apply unicode_case1_ok|by apply unicode_prop_ops_ok
          |by apply unicode_prop1_ok].
Qed.

(** ** The sets of the compiler *)

Lemma char_range_lens c c_pt n : rd char_range_table c = Ret c_pt -> rd c_pt 0 = Ret n -> 0 <= n.
Proof.
  intros Hc Hn. apply rd_Ret in Hc as [_ Hc]. apply list_elem_of_lookup_2 in Hc.
  unfold char_range_table in Hc. rewrite !elem_of_cons, elem_of_nil in Hc.
  destruct Hc as [->|[->|[->|[]]]]; injection Hn as <-; lia.
Qed.

Definition opt_ok (cr : option CharRange) : Prop := match cr with Some cr => cr_ok cr | None => True end.

Lemma cr_init_char_range_ok c : post (cr_init_char_range c) (fun '(r, cr) => opt_ok cr).
Proof.
  unfold cr_init_char_range. apply post_bind, post_intro. intros c_pt Hc. apply post_bind, post_intro. intros n Hn.
  pose proof (char_range_lens _ _ _ Hc Hn) as Hn0. apply post_bind.
  apply (post_mono _ opt_ok).
  - apply (post_loop (fun '(i, cr) => cr_in cr /\ len cr = i /\ i <= n * 2)); [|split_and!; done || cbn; lia].
    intros [i cr] (Hin & Hl & Hi). destruct (Z.ltb_spec i (n * 2)).
    + any. apply post_bind. eapply post_mono; [by apply cr_add_point_in|]. intros [r cr'] [_ Hr].
      destruct (Z.eqb_spec r 0) as [->|]; cbn [negb]; [|done]. destruct (Hr eq_refl). cbn. split_and!; [done|lia..].
    + cbn. split; [done|]. rewrite Hl. replace i with (2 * n) by lia. apply Z.even_mul.
  - intros [cr|] Hcr; [|done]. case_match; [|done]. apply post_bind. eapply post_mono; [by apply cr_invert_ok|].
    intros [r cr'] Hg. destruct (Z.eqb_spec r 0) as [->|]; cbn [negb]; [by apply Hg|done].
Qed.

Lemma property_set_ok name value : post (property_set name value) (fun r => match r with
  Some (r, cr, _) => good (r, cr) | None => True end).
Proof.
  unfold property_set. do 7 any. pose proof cr_init_ok as Hok. branches; try done.
  - apply post_bind. eapply post_mono; [by apply unicode_script_ok|]. by intros [r cr].
  - apply post_bind. eapply post_mono; [by apply unicode_script_ok|]. by intros [r cr].
  - apply post_bind. eapply post_mono; [by apply unicode_general_category_ok|]. by intros [r cr].
  - apply post_bind. eapply post_mono; [by apply unicode_general_category_ok|]. intros [r cr] Hg.
    destruct (Z.eqb_spec r (-1)) as [->|Hr]; [apply good_minus|]. case_match; [|done].
    apply post_bind. eapply post_mono; [apply unicode_prop_ok; by apply Hg|]. by intros [r' cr'].
Qed.

(** ** Class atoms *)

Lemma parse_unicode_property_ok p inv : returns (parse_unicode_property p inv) (fun '(cr, _) => cr_ok cr).
Proof.
  unfold parse_unicode_property. apply returns_any; intros s. apply returns_any; intros c.
  case_match; [apply returns_error|]. apply returns_any. intros [[name q]|]; [|apply returns_error].
  apply returns_any; intros c1. apply returns_any. intros [[value q1]|]; [|apply returns_error].
  apply returns_any; intros c2. case_match; [apply returns_error|].
  eapply returns_bind; [apply returns_lift, property_set_ok|]. intros [[[r cr] unknown]|] Hr; [|apply returns_error].
  case_match; [apply returns_error|]. destruct (Z.eqb_spec r 0) as [->|]; cbn [negb]; [|apply returns_error].
  specialize (Hr ltac:(done)). destruct inv; [|by apply returns_ret].
  eapply returns_bind; [by apply returns_lift, cr_invert_ok|]. intros [r' cr'] Hr'.
  destruct (Z.eqb_spec r' 0) as [->|]; cbn [negb]; [|apply returns_fail]. apply returns_ret. by apply Hr'.
Qed.

Definition atom_ok (x : Z * Z * option CharRange) : Prop := opt_ok x.2.

Lemma class_escape_ok cr c p inclass : opt_ok cr -> returns (class_escape cr c p inclass) atom_ok.
Proof.
  intros Hcr. unfold class_escape. apply returns_any; intros s. cbv zeta.
  assert (Hrange : forall r, returns (let* '(ret, cr) := plift (cr_init_char_range r) in
            if negb (ret =? 0) then pfail else pret (CLASS_RANGE_BASE, p, cr))%parser atom_ok).
  { intros r. eapply returns_bind; [apply returns_lift, cr_init_char_range_ok|]. intros [ret cr'] Hr.
    case_match; [apply returns_fail|by apply returns_ret]. }
  do 6 (case_match; [done|]). case_match.
  { apply returns_any; intros x. repeat case_match; first [apply returns_error|by apply returns_ret]. }
  case_match.
  { eapply returns_bind; [apply parse_unicode_property_ok|]. intros [cr' q] Hr. by apply returns_ret. }
  apply returns_any; intros [ret p1]. case_match; [by apply returns_ret|]. apply returns_any; intros x.
  repeat case_match; first [apply returns_error|apply returns_any; intros [? ?]; by apply returns_ret].
Qed.

Lemma get_class_atom_ok cr p inclass : opt_ok cr -> returns (get_class_atom cr p inclass) atom_ok.
Proof.
  intros Hcr. unfold get_class_atom. apply returns_any; intros s. apply returns_any; intros c.
  case_match.
  - case_match; [apply returns_error|]. apply returns_any; intros x. by apply class_escape_ok.
  - case_match; [apply returns_error|]. apply returns_any; intros [? ?]. by apply returns_ret.
Qed.

Lemma range_op_ok m : post m good -> returns (range_op m) cr_ok.
Proof.
  intros Hm. unfold range_op. eapply returns_bind; [by apply returns_lift|]. intros [r cr] Hg.
  destruct (Z.eqb_spec r 0) as [->|]; cbn [negb]; [apply returns_ret; by apply Hg|apply returns_error].
Qed.

Lemma initialised_ok cr : opt_ok cr -> returns (initialised cr) cr_ok.
Proof. intros Hcr. destruct cr; [by apply returns_ret|by apply returns_lift]. Qed.

Lemma class_add_ok cr c1 cr1 : cr_ok cr -> opt_ok cr1 ->
  returns (class_add cr c1 cr1) (fun '(cr, cr1) => cr_ok cr /\ opt_ok cr1).
Proof.
  intros Hcr Hcr1. unfold class_add. case_match.
  - eapply returns_bind; [by apply initialised_ok|]. intros cr' Hcr'.
    eapply returns_bind; [by apply range_op_ok, cr_union_ok|]. intros. by apply returns_ret.
  - eapply returns_bind; [by apply range_op_ok, cr_union_interval_ok|]. intros. by apply returns_ret.
Qed.

Lemma char_class_step_ok p cr cr1 : cr_ok cr -> opt_ok cr1 ->
  returns (char_class_step (p, cr, cr1)) (fun r => match r with
    | inl (_, cr, cr1) => cr_ok cr /\ opt_ok cr1 | inr (_, cr) => cr_ok cr end).
Proof.
  intros Hcr Hcr1. unfold char_class_step. apply returns_any; intros c. case_match; [by apply returns_ret|].
  apply returns_any; intros s. eapply returns_bind; [by apply get_class_atom_ok|].
  intros [[c1 p1] cr2] Hcr2. unfold atom_ok in Hcr2; cbn in Hcr2. cbv zeta. apply returns_any; intros c3. apply returns_any; intros c4.
  assert (Hatom : forall cr1, opt_ok cr1 -> returns (let* '(cr, cr1) := class_add cr c1 cr1 in
     pret (inl (p1, cr, cr1) : Z * CharRange * option CharRange + Z * CharRange))%parser (fun r => match r with
    | inl (_, cr, cr1) => cr_ok cr /\ opt_ok cr1 | inr (_, cr) => cr_ok cr end)).
  { intros cr3 Hcr3. eapply returns_bind; [by apply class_add_ok|]. intros [cr4 cr5] Hr. by apply returns_ret. }
  case_match; [|by apply Hatom]. case_match.
  - case_match; [|by apply Hatom]. apply returns_any; intros. apply returns_error.
  - eapply returns_bind; [by apply get_class_atom_ok|]. intros [[c2 p0] cr3] Hcr3. case_match.
    + apply returns_any; intros. case_match; [apply returns_error|by apply Hatom].
    + case_match; [apply returns_error|]. eapply returns_bind; [by apply range_op_ok, cr_union_interval_ok|].
      intros cr4 Hcr4. by apply returns_ret.
Qed.
End Ranges.
