(* ===== verification/RegexpEmit.v ===== *)
(** * Regular expressions: emission of code

    What the emitters and the in-place edits of the code buffer do to the
    bytes written so far, and the calls that leave them alone. *)

From S2P Require Import Prelude Cutils DynBuf Utf8 CharRange RegexpOp RegexpParse RegexpCompile RegexpCode RegexpFrag RegexpLogic RegexpRange.
#[local] Open Scope parser_scope.

Section Framed.
Context `{Allocator}.

Lemma framed_expect p c : framed (re_parse_expect p c).
Proof. unfold re_parse_expect. keeps_auto. Qed.
#[local] Hint Resolve framed_expect : keeps.

Lemma framed_class_normal_char c p : framed (class_normal_char c p).
Proof. unfold class_normal_char. keeps_auto. Qed.
#[local] Hint Resolve framed_class_normal_char : keeps.

Lemma framed_unicode_property p inv : framed (parse_unicode_property p inv).
Proof. unfold parse_unicode_property, re_parse_out_of_memory. keeps_auto. Qed.
#[local] Hint Resolve framed_unicode_property : keeps.

Lemma framed_class_escape cr c p inclass : framed (class_escape cr c p inclass).
Proof. unfold class_escape. keeps_auto. Qed.
#[local] Hint Resolve framed_class_escape : keeps.

Lemma framed_class_atom cr p inclass : framed (get_class_atom cr p inclass).
Proof. unfold get_class_atom. keeps_auto. Qed.
#[local] Hint Resolve framed_class_atom : keeps.

Lemma framed_initialised cr : framed (initialised cr).
Proof. unfold initialised. keeps_auto. Qed.
Lemma framed_range_op m : framed (range_op m).
Proof. unfold range_op, re_parse_out_of_memory. keeps_auto. Qed.
#[local] Hint Resolve framed_initialised framed_range_op : keeps.

Lemma framed_class_add cr c1 cr1 : framed (class_add cr c1 cr1).
Proof. unfold class_add. keeps_auto. Qed.
#[local] Hint Resolve framed_class_add : keeps.

Lemma framed_class_step x : framed (char_class_step x).
Proof. unfold char_class_step. keeps_auto. Qed.
#[local] Hint Resolve framed_class_step : keeps.

Lemma framed_count_captures : framed re_count_captures.
Proof. unfold re_count_captures. keeps_auto. apply keeps_mod. done. Qed.
#[local] Hint Resolve framed_count_captures : keeps.

Lemma framed_has_named_captures : framed re_has_named_captures.
Proof. unfold re_has_named_captures. keeps_auto. Qed.
#[local] Hint Resolve framed_has_named_captures : keeps.

Lemma framed_octal_digits n : forall c p, framed (octal_digits n c p).
Proof. induction n as [|n IH]; intros c p; cbn [octal_digits]; keeps_auto. Qed.
#[local] Hint Resolve framed_octal_digits : keeps.

Lemma framed_quant_count p : framed (re_parse_quant_count p).
Proof. unfold re_parse_quant_count, invalid_quant_count. keeps_auto. Qed.

Lemma framed_set_u_buf f : (forall s, same_code s (f s)) -> framed (pmod f).
Proof. by apply keeps_mod. Qed.
End Framed.

#[export] Hint Resolve framed_expect framed_class_normal_char framed_unicode_property framed_class_escape
  framed_class_atom framed_initialised framed_range_op framed_class_add framed_class_step
  framed_count_captures framed_has_named_captures framed_octal_digits framed_quant_count : keeps.

(** ** The code buffer *)

Lemma le_bytes_mod n : forall v w, v mod 256 ^ Z.of_nat n = w mod 256 ^ Z.of_nat n ->
  Bits.le_bytes n v = Bits.le_bytes n w.
Proof.
  intros v w E. rewrite <- (Bits.le_bytes_val (Bits.le_bytes n v)), <- (Bits.le_bytes_val (Bits.le_bytes n w))
    by apply Bits.le_bytes_range.
  by rewrite !Bits.le_val_bytes, !Bits.le_bytes_length, E.
Qed.

Lemma le_bytes_u32 v : Bits.le_bytes 4 (u32 v) = Bits.le_bytes 4 v.
Proof. apply le_bytes_mod. change (256 ^ Z.of_nat 4) with (2 ^ 32). unfold u32, uwrap. by rewrite Z.mod_mod. Qed.
Lemma le_bytes_u16 v : Bits.le_bytes 2 (u16 v) = Bits.le_bytes 2 v.
Proof. apply le_bytes_mod. change (256 ^ Z.of_nat 2) with (2 ^ 16). unfold u16, uwrap. by rewrite Z.mod_mod. Qed.

Section Buffer.
Context `{SmallAllocator}.

(** Operations on a buffer keep its error flag. *)
Definition buf_sticky {A} (f : DynBuf -> outcome (A * DynBuf)) : Prop :=
  forall b r b', f b = Ret (r, b') -> error b = true -> error b' = true.

Lemma dbuf_realloc_sticky n : buf_sticky (fun b => dbuf_realloc b n).
Proof.
  intros b r b' E He. unfold dbuf_realloc in E. rewrite He in E.
  destruct (allocated_size b <? n); injection E as _ <-; done.
Qed.

Lemma realloc_if_sticky b (c : bool) n r b' :
  (if c then dbuf_realloc b n else Ret (0, b)) = Ret (r, b') -> error b = true -> error b' = true.
Proof. destruct c; [apply dbuf_realloc_sticky|by intros [= _ <-]]. Qed.

Lemma dbuf_put_sticky d : buf_sticky (fun b => dbuf_put b d).
Proof.
  intros b r b' E He. unfold dbuf_put in E.
  destruct (if allocated_size b <? _ then _ else _) as [[r1 b1]|] eqn:E1; [|done].
  pose proof (realloc_if_sticky _ _ _ _ _ E1 He). cbn [mbind outcome_bind] in E.
  destruct (r1 =? 0); [|by injection E as _ <-]. destruct (wr_range _ _ _); [|done]. by injection E as _ <-.
Qed.

Lemma dbuf_put_self_sticky pos len : buf_sticky (fun b => dbuf_put_self b pos len).
Proof.
  intros b r b' E He. unfold dbuf_put_self in E.
  destruct (if allocated_size b <? _ then _ else _) as [[r1 b1]|] eqn:E1; [|done].
  pose proof (realloc_if_sticky _ _ _ _ _ E1 He). cbn [mbind outcome_bind] in E.
  destruct (r1 =? 0); [|by injection E as _ <-]. destruct (rd_range _ _ _); [|done]. cbn in E.
  destruct (wr_range _ _ _); [|done]. by injection E as _ <-.
Qed.

Lemma dbuf_insert_sticky pos len : buf_sticky (fun b => dbuf_insert b pos len).
Proof.
  intros b r b' E He. unfold dbuf_insert in E. destruct (dbuf_realloc b _) as [[r1 b1]|] eqn:E1; [|done].
  pose proof (dbuf_realloc_sticky _ _ _ _ E1 He). cbn [mbind outcome_bind] in E.
  destruct (r1 =? 0); [|by injection E as _ <-]. destruct (rd_range _ _ _); [|done]. cbn in E.
  destruct (wr_range _ _ _); [|done]. by injection E as _ <-.
Qed.

Lemma sticky_on_code {A} (f : DynBuf -> outcome (A * DynBuf)) : buf_sticky f -> sticky (on_code f).
Proof.
  intros Hf s r s' E He. unfold on_code in E. destruct (f (byte_code s)) as [[a b]|] eqn:Ef; [|done].
  injection E as _ <-. by eapply Hf.
Qed.

(** *** States *)

Notation data s := (dbuf_data (byte_code s)).

Record st_ok (s : REParseState) : Prop := {
  st_wf : wf (byte_code s);
  st_small : allocated_size (byte_code s) < 2 ^ 31;
  st_count : 1 <= capture_count s <= 255;
}.

Lemma st_same s s' : same_code s s' -> st_ok s -> st_ok s'.
Proof. intros [H1 H2] [H3 H4 H5]. split; congruence || by rewrite ?H1, ?H2. Qed.

Lemma st_size s : st_ok s -> zlen (data s) = size (byte_code s) /\ 0 <= size (byte_code s) < 2 ^ 31.
Proof. intros [Hw Hs _]. pose proof (zlen_data _ Hw). destruct Hw. lia. Qed.

(** The call appended [d] to the code. *)
Record appended (s s' : REParseState) (d : list Z) : Prop := {
  ap_ok : st_ok s';
  ap_data : data s' = data s ++ d;
  ap_count : capture_count s' = capture_count s;
}.

Lemma appended_nil s : st_ok s -> appended s s [].
Proof. intros Hs. split; [done| |done]. by rewrite app_nil_r. Qed.
Lemma appended_trans s1 s2 s3 d e : appended s1 s2 d -> appended s2 s3 e -> appended s1 s3 (d ++ e).
Proof. intros [A1 A2 A3] [B1 B2 B3]. split; [done| |congruence]. by rewrite B2, A2, app_assoc. Qed.

Lemma realloc_small b n r b' : dbuf_realloc b n = Ret (r, b') -> allocated_size b < 2 ^ 31 -> allocated_size b' < 2 ^ 31.
Proof.
  intros E Hb. unfold dbuf_realloc in E. destruct (allocated_size b <? n); [|by injection E as _ <-].
  destruct (error b); [by injection E as _ <-|]. cbn zeta in E. destruct (has_realloc b); [|done].
  destruct (realloc_func _ _ _) as [q|] eqn:Ea; injection E as _ <-; [|done].
  pose proof (small_alloc _ _ _ _ Ea). cbn. lia.
Qed.
Lemma realloc_if_small b (c : bool) n r b' :
  (if c then dbuf_realloc b n else Ret (0, b)) = Ret (r, b') -> allocated_size b < 2 ^ 31 -> allocated_size b' < 2 ^ 31.
Proof. destruct c; [apply realloc_small|by intros [= _ <-]]. Qed.

Lemma dbuf_put_small b d r b' : dbuf_put b d = Ret (r, b') -> allocated_size b < 2 ^ 31 -> allocated_size b' < 2 ^ 31.
Proof.
  intros E Hb. unfold dbuf_put in E.
  destruct (if allocated_size b <? _ then _ else _) as [[r1 b1]|] eqn:E1; [|done].
  pose proof (realloc_if_small _ _ _ _ _ E1 Hb). cbn [mbind outcome_bind] in E.
  destruct (r1 =? 0); [|by injection E as _ <-]. destruct (wr_range _ _ _); [|done]. by injection E as _ <-.
Qed.

Lemma on_code_inv {A} (f : DynBuf -> outcome (A * DynBuf)) s a s' : on_code f s = Ret (Some a, s') ->
  exists b, f (byte_code s) = Ret (a, b) /\ s' = set_byte_code s b.
Proof.
  unfold on_code. destruct (f (byte_code s)) as [[r b]|] eqn:E; [|done]. intros [= <- <-]. by exists b.
Qed.

Lemma pwp_put s d (Q : Z -> REParseState -> Prop) : st_ok s -> zlen d < 2 ^ 31 ->
  (forall s', appended s s' d -> Q 0 s') -> pwp (on_code (fun b => dbuf_put b d)) s Q.
Proof.
  intros Hs Hd HQ a s' E He. apply on_code_inv in E as (b & E & ->). cbn in He.
  pose proof (st_size s Hs). pose proof (dbuf_put_spec (byte_code s) d (st_wf s Hs) ltac:(lia)) as Hp.
  rewrite E in Hp. destruct Hp as [Hwf [(-> & Hdat & _)|(_ & _ & He')]]; [|unfold dbuf_error in He; congruence].
  apply HQ. split; [|done|done]. split; [done| |apply Hs]. eapply dbuf_put_small; [done|apply Hs].
Qed.

Lemma pwp_put_self s pos len (Q : Z -> REParseState -> Prop) : st_ok s -> 0 <= pos -> 0 <= len -> pos + len <= size (byte_code s) ->
  (forall s', appended s s' (take (Z.to_nat len) (drop (Z.to_nat pos) (data s))) -> Q 0 s') ->
  pwp (on_code (fun b => dbuf_put_self b pos len)) s Q.
Proof.
  intros Hs Hpos Hlen Hend HQ a s' E He. apply on_code_inv in E as (b & E & ->). cbn in He.
  pose proof (st_size s Hs) as [Hsz Hsz']. destruct Hs as [Hwf Hsm Hcc].
  unfold dbuf_put_self in E. rewrite !u64_small in E by lia.
  destruct (if allocated_size (byte_code s) <? _ then _ else _) as [[r1 b1]|] eqn:E1; [|done].
  pose proof (realloc_if_small _ _ _ _ _ E1 Hsm) as Hsm1. cbn [mbind outcome_bind] in E.
  assert (same_data (byte_code s) b1 /\ (r1 = 0 \/ (r1 = -1 /\ error b1 = true))) as [(Hwf1 & Hdat & Hsize) Hr].
  { destruct (allocated_size (byte_code s) <? _); [|injection E1 as <- <-; by split; [|left]].
    pose proof (dbuf_realloc_spec (byte_code s) (size (byte_code s) + len) Hwf ltac:(lia)) as Hsp. rewrite E1 in Hsp.
    destruct Hsp as [Hd [(-> & _)|(-> & He1 & _)]]; (split; [done|]); [by left|by right]. }
  destruct Hr as [->|[-> He1]]; cbn in E.
  2:{ injection E as _ <-. unfold dbuf_error in He. congruence. }
  destruct (rd_range (buf b1) pos len) as [d|] eqn:Ed; [|done]. cbn in E.
  assert (d = take (Z.to_nat len) (drop (Z.to_nat pos) (data s))) as ->.
  { rewrite rd_range_ok in Ed by (destruct Hwf1; lia). injection Ed as <-. rewrite <- Hdat. unfold dbuf_data.
    rewrite Hsize, skipn_firstn_comm, take_take. f_equal. lia. }
  set (d := take _ _) in *.
  assert (zlen d = len) as Hd by (subst d; rewrite zlen_take, zlen_drop; lia).
  destruct (wr_range (buf b1) (size b1) d) as [m|] eqn:Em; [|done]. cbn in E. injection E as <- <-.
  assert (size b1 + zlen d <= allocated_size b1) as Hroom by (apply wr_range_Ret in Em; destruct Hwf1; lia).
  destruct (write_end b1 d m Hwf1 Hroom Em) as [Hwf2 Hdat2]. rewrite Hd, Hsize in *. rewrite u64_small by lia.
  apply HQ. split; [split; [done|exact Hsm1|done]| |done]. cbn [byte_code set_byte_code]. by rewrite Hdat2, Hdat.
Qed.

(** *** Edits in place *)

(** The call left [d] as the code. *)
Record becomes (s s' : REParseState) (d : list Z) : Prop := {
  bc_ok : st_ok s';
  bc_data : data s' = d;
  bc_count : capture_count s' = capture_count s;
}.

Lemma becomes_trans s1 s2 s3 d e : becomes s1 s2 d -> becomes s2 s3 e -> becomes s1 s3 e.
Proof. intros [A1 A2 A3] [B1 B2 B3]. split; [done..|congruence]. Qed.
Lemma becomes_appended s s' d : becomes s s' (data s ++ d) <-> appended s s' d.
Proof. by split; intros [? ? ?]. Qed.
Lemma becomes_then_append s1 s2 s3 d e : becomes s1 s2 d -> appended s2 s3 e -> becomes s1 s3 (d ++ e).
Proof. intros [A1 A2 A3] [B1 B2 B3]. split; [done| |congruence]. by rewrite B2, A2. Qed.

(** Overwriting [g] by [e] of the same length within the data. *)
Lemma buf_overwrite b a g c e m : wf b -> dbuf_data b = a ++ g ++ c -> zlen g = zlen e ->
  wr_range (buf b) (zlen a) e = Ret m -> wf (set_buf b m) /\ dbuf_data (set_buf b m) = a ++ e ++ c.
Proof.
  intros Hwf Hd Hg Hw. pose proof (wr_range_Ret _ _ _ _ Hw) as (_ & Hend & Hm). pose proof (zlen_data b Hwf) as Hz.
  pose proof (zlen_nonneg a). pose proof (zlen_nonneg e). pose proof (zlen_nonneg c).
  rewrite wr_range_ok in Hw by lia. injection Hw as <-. pose proof Hwf as [Hr Hs Hb Hl].
  split; [split; cbn; try done; lia|]. rewrite Hd, !zlen_app in Hz.
  assert (buf b = a ++ g ++ c ++ drop (Z.to_nat (size b)) (buf b)) as Hbuf.
  { rewrite <- (take_drop (Z.to_nat (size b)) (buf b)) at 1. unfold dbuf_data in Hd. by rewrite Hd, <- !app_assoc. }
  unfold dbuf_data. cbn [buf size set_buf]. rewrite Hbuf.
  replace (Z.to_nat (zlen a)) with (length a) by (unfold zlen; lia). rewrite take_app_length.
  replace (Z.to_nat (zlen a + zlen e)) with (length a + length g)%nat by (unfold zlen in *; lia).
  rewrite <- drop_drop, !drop_app_length. rewrite !app_assoc. apply take_app_length'.
  rewrite !length_app. unfold zlen in *. lia.
Qed.

Lemma pwp_overwrite s a g c e (f : list Z -> outcome (list Z)) (Q : () -> REParseState -> Prop) :
  st_ok s -> data s = a ++ g ++ c -> zlen g = zlen e ->
  (forall l m, f l = Ret m -> wr_range l (zlen a) e = Ret m) ->
  (forall s', becomes s s' (a ++ e ++ c) -> Q () s') ->
  pwp (on_code (fun b => m ← f (buf b); Ret ((), set_buf b m))) s Q.
Proof.
  intros [Hwf Hsm Hcc] Hd Hg Hf HQ [] s' E _. apply on_code_inv in E as (b & E & ->).
  destruct (f (buf (byte_code s))) as [m|] eqn:Ef; [|done]. injection E as <-. apply Hf in Ef.
  destruct (buf_overwrite _ _ _ _ _ _ Hwf Hd Hg Ef) as [Hwf' Hd']. apply HQ. by split.
Qed.

Lemma pwp_code_set s a x c pos v (Q : () -> REParseState -> Prop) :
  st_ok s -> data s = a ++ x :: c -> zlen a = pos ->
  (forall s', becomes s s' (a ++ u8 v :: c) -> Q () s') -> pwp (code_set pos v) s Q.
Proof.
  intros Hs Hd <- HQ. apply (pwp_overwrite s a [x] c [u8 v] (fun l => wr l (zlen a) (u8 v))); try done.
  intros l m Hm. pose proof (wr_Ret _ _ _ _ Hm) as [Hb _]. rewrite wr_ok in Hm by done. injection Hm as <-.
  rewrite wr_range_ok by (change (zlen [u8 v]) with 1; lia). f_equal.
  change (zlen [u8 v]) with 1. replace (Z.to_nat (zlen a + 1)) with (S (Z.to_nat (zlen a))) by lia.
  symmetry. apply insert_take_drop. unfold zlen in *. lia.
Qed.

Lemma pwp_code_put_u32 s a g c pos v (Q : () -> REParseState -> Prop) :
  st_ok s -> data s = a ++ g ++ c -> zlen a = pos -> zlen g = 4 ->
  (forall s', becomes s s' (a ++ Bits.le_bytes 4 v ++ c) -> Q () s') -> pwp (code_put_u32 pos v) s Q.
Proof.
  intros Hs Hd <- Hg HQ. by apply (pwp_overwrite s a g c (Bits.le_bytes 4 v) (fun l => Bits.put_u32 l (zlen a) v)).
Qed.

Lemma pwp_code_insert s a c pos len (Q : () -> REParseState -> Prop) :
  st_ok s -> data s = a ++ c -> zlen a = pos -> 0 <= len < 2 ^ 31 ->
  (forall s' g, becomes s s' (a ++ g ++ c) -> zlen g = len -> Q () s') -> pwp (code_insert pos len) s Q.
Proof.
  intros Hs Hd <- Hlen HQ [] s' E He. unfold code_insert, pbind in E.
  destruct (on_code _ s) as [[[r|] s1]|] eqn:E1; [|done..]. cbn in E. apply on_code_inv in E1 as (b & E1 & ->).
  pose proof (st_size s Hs) as [Hsz Hsz']. pose proof Hs as [Hwf Hsm Hcc]. pose proof (zlen_nonneg a). pose proof (zlen_nonneg c).
  assert (size (byte_code s) = zlen a + zlen c) as Hac by (rewrite <- Hsz, Hd; apply zlen_app).
  pose proof (dbuf_insert_spec (byte_code s) (zlen a) len Hwf ltac:(lia) ltac:(lia) ltac:(lia)) as Hsp.
  rewrite E1 in Hsp. destruct Hsp as [Hwf' [(-> & _ & g & Hg & Hd')|(-> & _ & _)]].
  2:{ cbn in E. unfold re_parse_out_of_memory, re_parse_error in E. destruct (wr_range _ _ _); discriminate E. }
  cbn in E. injection E as <-. apply (HQ _ g); [|done]. split; [split|..]; cbn [byte_code set_byte_code].
  - done.
  - unfold dbuf_insert in E1. destruct (dbuf_realloc _ _) as [[r1 b1]|] eqn:Er; [|done].
    pose proof (realloc_small _ _ _ _ Er Hsm). cbn [mbind outcome_bind] in E1.
    destruct (r1 =? 0); [|done]. destruct (rd_range _ _ _); [|done]. cbn in E1.
    destruct (wr_range _ _ _); [|done]. by injection E1 as <-.
  - done.
  - rewrite Hd', Hd. replace (Z.to_nat (zlen a)) with (length a) by (unfold zlen; lia).
    by rewrite take_app_length, drop_app_length.
  - done.
Qed.

(** [s->byte_code.size = n] *)
Lemma pwp_truncate s a c n (Q : () -> REParseState -> Prop) : st_ok s -> data s = a ++ c -> zlen a = n ->
  (forall s', becomes s s' a -> Q () s') -> pwp (on_code (fun b => Ret ((), set_size b n))) s Q.
Proof.
  intros Hs Hd <- HQ [] s' E _. apply on_code_inv in E as (b & E & ->). injection E as <-.
  pose proof (st_size s Hs) as [Hsz Hsz']. destruct Hs as [Hwf Hsm Hcc]. pose proof (zlen_nonneg a). pose proof (zlen_nonneg c).
  assert (size (byte_code s) = zlen a + zlen c) as Hac by (rewrite <- Hsz, Hd; apply zlen_app).
  apply HQ. split; [split; [|done|done]| |done].
  - destruct Hwf. split; cbn; done || lia.
  - cbn. unfold dbuf_data in *. cbn [buf size set_size].
    transitivity (take (length a) (a ++ c)); [|apply take_app_length].
    rewrite <- Hd, take_take. f_equal. unfold zlen in *. lia.
Qed.

(** *** Emission *)

Lemma pwp_re_emit_op s op (Q : () -> REParseState -> Prop) : st_ok s ->
  (forall s', appended s s' [u8 op] -> Q () s') -> pwp (re_emit_op op) s Q.
Proof.
  intros Hs HQ. unfold re_emit_op. apply pwp_bind; [keeps_auto|]. apply pwp_put; [done..|].
  intros s' Hap. by apply pwp_ret, HQ.
Qed.

Lemma sticky_code_size : sticky code_size.
Proof. unfold code_size. keeps_auto. Qed.

Lemma sticky_put d : sticky (on_code (fun b => dbuf_put b d)).
Proof. apply sticky_on_code, dbuf_put_sticky. Qed.

Lemma pwp_code_size s (Q : Z -> REParseState -> Prop) : st_ok s -> Q (zlen (data s)) s -> pwp code_size s Q.
Proof.
  intros Hs HQ. unfold code_size. apply pwp_bind; [keeps_auto|]. apply pwp_get, pwp_ret.
  by rewrite <- (proj1 (st_size s Hs)).
Qed.
End Buffer.

(** Sticky calls: the framed ones and the operations of the buffer. *)
#[export] Hint Extern 1 (keeps keeps_error _) => (apply framed_sticky; solve [eauto with keeps]) : keeps.
#[export] Hint Resolve sticky_code_size : keeps.
#[export] Hint Extern 1 (keeps keeps_error (on_code (fun b => dbuf_put b _))) => apply sticky_put : keeps.
#[export] Hint Extern 1 (keeps keeps_error (on_code (fun b => dbuf_putc b _))) => apply sticky_put : keeps.
#[export] Hint Extern 1 (keeps keeps_error (on_code (fun b => dbuf_put_u16 b _))) => apply sticky_put : keeps.
#[export] Hint Extern 1 (keeps keeps_error (on_code (fun b => dbuf_put_u32 b _))) => apply sticky_put : keeps.
