(* ===== verification/RegexpScan.v ===== *)
(** * Regular expressions: the linear scans of emitted code

    [instr_len] finds the instructions of a code again; on it rest
    [re_is_simple_quantifier] and [compute_stack_size], which compute
    [simple_code] and a bound of [depth]. *)

From S2P Require Import Prelude Cutils DynBuf RegexpOp RegexpParse RegexpCompile RegexpCode RegexpFrag RegexpSafe RegexpLogic.

Definition op_of (i : instr) : REOPCodeEnum :=
  match i with
  | IOp op => op | IChar _ => REOP_char | IChar32 _ => REOP_char32 | IJump op _ => op | ICapture op _ => op
  | IReset _ _ => REOP_save_reset | IPush _ => REOP_push_i32 | IRange16 _ => REOP_range
  | IRange32 _ => REOP_range32 | IGreedy _ _ _ _ => REOP_simple_greedy_quant
  end.

Lemma encode_op i : exists l, encode i = reop (op_of i) :: l.
Proof. destruct i; eexists; done. Qed.

Lemma opcode_size op : exists n, reopcode_size (reop op) = Ret n /\ In (op, n) reopcodes.
Proof. destruct op; (eexists; split; [reflexivity|cbn; tauto]). Qed.

Lemma range_size w r op : 0 < w -> ranges_ok w r = true ->
  zlen (reop op :: Bits.le_bytes 2 (zlen r / (2 * w)) ++ r) =
  3 + (zlen r / (2 * w)) mod 256 ^ Z.of_nat 2 * (2 * w).
Proof.
  intros Hw Hr. destruct (ranges_ok_inv w r Hw Hr) as (n & Hz & -> & Hn).
  rewrite Z.mod_small by (change (256 ^ Z.of_nat 2) with 65536; lia).
  rewrite zlen_cons, zlen_app, Bits.zlen_le_bytes, Hz. lia.
Qed.

Lemma instr_len_spec nc i pre post off pos : wf_instr nc i = true -> zlen pre = off + pos ->
  instr_len (pre ++ encode i ++ post) off pos = Ret (Some (op_of i), isize i).
Proof.
  intros Hwf Hpre. unfold instr_len. destruct (encode_op i) as [l Hl].
  rewrite (rd_app_r pre (encode i ++ post) 0) by lia. rewrite Hl. cbn [app]. change (rd (?x :: ?y) 0) with (Ret x).
  cbn [mbind outcome_bind]. destruct (opcode_size (op_of i)) as (n & Hn & Hin). rewrite Hn. cbn [mbind outcome_bind].
  rewrite reop_of_reop. rewrite app_comm_cons, <- Hl. unfold isize.
  destruct i as [op|v|v|op o|op x|x y|v|r|r|o mn mx cnt]; cbn [op_of wf_instr encode] in *;
    try (injection Hn as <-; reflexivity).
  - destruct op; try done; by injection Hn as <-.
  - destruct op; try done; by injection Hn as <-.
  - destruct op; try (rewrite andb_false_r in Hwf; done); by injection Hn as <-.
  - injection Hn as <-. unfold Bits.get_u16.
    change (pre ++ (?a :: ?b ++ r) ++ post) with (pre ++ [a] ++ (b ++ r) ++ post).
    rewrite <- (app_assoc _ r post), (app_assoc pre), (rd_range_mid (pre ++ [_]))
      by (rewrite ?zlen_app, ?Bits.zlen_le_bytes; change (zlen [_]) with 1; lia).
    cbn [fmap outcome_fmap mbind outcome_bind]. rewrite Bits.le_val_bytes.
    pose proof (range_size 2 r REOP_range ltac:(lia) Hwf) as Hs. change (2 * 2) with 4 in Hs. by rewrite Hs.
  - injection Hn as <-. unfold Bits.get_u16.
    change (pre ++ (?a :: ?b ++ r) ++ post) with (pre ++ [a] ++ (b ++ r) ++ post).
    rewrite <- (app_assoc _ r post), (app_assoc pre), (rd_range_mid (pre ++ [_]))
      by (rewrite ?zlen_app, ?Bits.zlen_le_bytes; change (zlen [_]) with 1; lia).
    cbn [fmap outcome_fmap mbind outcome_bind]. rewrite Bits.le_val_bytes.
    pose proof (range_size 4 r REOP_range32 ltac:(lia) Hwf) as Hs. change (2 * 4) with 8 in Hs. by rewrite Hs.
Qed.

(** The instruction at offset [posn p k]. *)
Lemma instr_len_at nc a p post k i off : p !! k = Some i -> Forall (fun i => wf_instr nc i = true) p -> zlen a = off ->
  instr_len (a ++ code_of p ++ post) off (posn p k) = Ret (Some (op_of i), isize i).
Proof.
  intros Hk Hwf Ha. rewrite (code_split p k i Hk), <- !app_assoc, (app_assoc a).
  apply (instr_len_spec nc). - by eapply Forall_lookup_1 in Hwf. - rewrite zlen_app, Ha. done.
Qed.

Lemma posn_reached p k : (k <= length p)%nat -> zlen (code_of p) <= posn p k -> k = length p.
Proof.
  intros Hk Hle. destruct (decide (k = length p)) as [|Hne]; [done|].
  pose proof (posn_lt p k (length p) ltac:(lia) ltac:(lia)). rewrite posn_end in *. lia.
Qed.

Lemma simple_code_snoc p i : simple_code (p ++ [i]) = n ← simple_code p; m ← simple_chars i; Some (n + m).
Proof.
  induction p as [|j p IH]; cbn.
  - destruct (simple_chars i) as [m|]; cbn; [|done]. f_equal. lia.
  - rewrite IH. destruct (simple_chars j), (simple_code p), (simple_chars i); cbn; try done. f_equal. lia.
Qed.

Lemma simple_scan nc a p post r : Forall (fun i => wf_instr nc i = true) p ->
  re_is_simple_quantifier (a ++ code_of p ++ post) (zlen a) (zlen (code_of p)) = Ret r ->
  0 < r -> simple_code p = Some r.
Proof.
  intros Hwf Hr. revert Hr. unfold re_is_simple_quantifier. intros Hr.
  refine (post_run _ r (fun r => 0 < r -> simple_code p = Some r) _ Hr). clear r Hr.
  apply (post_loop (fun '(pos, count) => exists k, (k <= length p)%nat /\ pos = posn p k /\ simple_code (take k p) = Some count));
    [|exists 0%nat; split_and!; [lia|done|done]].
  intros [pos count] (k & Hk & -> & Hc). destruct (Z.ltb_spec (posn p k) (zlen (code_of p))) as [Hlt|Hge].
  2:{ cbn. intros _. by rewrite (posn_reached p k Hk Hge), take_ge in Hc. }
  destruct (lookup_lt_is_Some_2 p k) as [i Hi].
  { destruct (decide (k = length p)) as [->|]; [rewrite posn_end in Hlt; lia|lia]. }
  rewrite (instr_len_at nc a p post k i (zlen a) Hi Hwf) by done. cbn [mbind outcome_bind].
  assert (Hnext : forall m, simple_chars i = Some m -> exists k', (k' <= length p)%nat /\ posn p k + isize i = posn p k' /\
            simple_code (take k' p) = Some (count + m)).
  { intros m Hm. exists (S k). split; [by apply lookup_lt_Some in Hi|]. split; [by rewrite (posn_S p k i Hi)|].
    rewrite (take_S_r _ _ i Hi), simple_code_snoc, Hc. cbn. by rewrite Hm. }
  assert (wf_instr nc i = true) as Hwi by (by eapply Forall_lookup_1 in Hwf).
  destruct i as [op|v|v|op o|op x|x y|v|rr|rr|o mn mx cnt]; cbn [op_of simple_chars] in *;
    try (by apply (Hnext 1)); try (cbn; lia).
  - destruct op; try (cbn in *; lia); try done; try (by apply (Hnext 1)); rewrite <- (Z.add_0_r count); by apply (Hnext 0).
  - destruct op; cbn in *; try done; lia.
  - destruct op; cbn in *; try (rewrite andb_false_r in Hwi; done); lia.
Qed.

Definition depth_bound (p : list instr) (r : Z) : Prop :=
  0 <= r <= STACK_SIZE_MAX /\ forall k, (k <= length p)%nat -> depth p k <= r.

Lemma compute_stack_size_spec nc hdr p tl r : Forall (fun i => wf_instr nc i = true) p -> zlen hdr = RE_HEADER_LEN ->
  compute_stack_size (hdr ++ code_of p ++ tl) (RE_HEADER_LEN + zlen (code_of p)) = Ret r ->
  0 <= r -> depth_bound p r.
Proof.
  intros Hwf Hhdr. unfold compute_stack_size. cbv zeta.
  replace (RE_HEADER_LEN + zlen (code_of p) - RE_HEADER_LEN) with (zlen (code_of p)) by lia. intros Hr.
  refine (post_run _ r (fun r => 0 <= r -> depth_bound p r) _ Hr). clear r Hr.
  apply (post_loop (fun '(pos, ss, mx) => exists k, (k <= length p)%nat /\ pos = posn p k /\ ss = depth p k /\
    0 <= mx <= STACK_SIZE_MAX /\ forall j, (j <= k)%nat -> depth p j <= mx)).
  2:{ exists 0%nat. split_and!; try done || lia. intros j Hj. by replace j with 0%nat by lia. }
  intros [[pos ss] mx] (k & Hk & -> & -> & Hmx & Hd). destruct (Z.ltb_spec (posn p k) (zlen (code_of p))) as [Hlt|Hge].
  2:{ cbn. intros _. split; [done|]. intros j Hj. apply Hd. by rewrite (posn_reached p k Hk Hge). }
  destruct (lookup_lt_is_Some_2 p k) as [i Hi].
  { destruct (decide (k = length p)) as [->|]; [rewrite posn_end in Hlt; lia|lia]. }
  do 4 (apply post_bind, post_intro; intros ? _).
  rewrite (instr_len_at nc hdr p tl k i RE_HEADER_LEN Hi Hwf) by done. cbn [mbind outcome_bind].
  assert (Hnext : forall d mx', d = delta i -> mx <= mx' <= STACK_SIZE_MAX -> depth p k + d <= mx' ->
    exists k', (k' <= length p)%nat /\ posn p k + isize i = posn p k' /\ depth p k + d = depth p k' /\
    0 <= mx' <= STACK_SIZE_MAX /\ forall j, (j <= k')%nat -> depth p j <= mx').
  { intros d mx' -> Hmx' Hle. exists (S k). rewrite (posn_S p k i Hi), (depth_S p k i Hi).
    split_and!; try done; [by apply lookup_lt_Some in Hi|lia..|]. intros j Hj.
    destruct (decide (j = S k)) as [->|]; [by rewrite (depth_S p k i Hi)|]. specialize (Hd j ltac:(lia)). lia. }
  specialize (Hd k ltac:(done)). assert (wf_instr nc i = true) as Hwi by (by eapply Forall_lookup_1 in Hwf).
  assert (Hsame : delta i = 0 -> post (Ret (inl (posn p k + isize i, depth p k, mx)))
    (fun r : Z * Z * Z + Z => match r with
     | inl (pos, ss, mx) => exists k0, (k0 <= length p)%nat /\ pos = posn p k0 /\ ss = depth p k0 /\
         0 <= mx <= STACK_SIZE_MAX /\ forall j, (j <= k0)%nat -> depth p j <= mx
     | inr r => 0 <= r -> depth_bound p r end)).
  { intros H0. rewrite <- (Z.add_0_r (depth p k)). apply Hnext; [done|lia|lia]. }
  assert (Hpush : delta i = 1 -> post (if mx <? depth p k + 1 then
       if STACK_SIZE_MAX <? depth p k + 1 then Ret (inr (-1))
       else Ret (inl (posn p k + isize i, depth p k + 1, depth p k + 1))
     else Ret (inl (posn p k + isize i, depth p k + 1, mx)))
    (fun r : Z * Z * Z + Z => match r with
     | inl (pos, ss, mx) => exists k0, (k0 <= length p)%nat /\ pos = posn p k0 /\ ss = depth p k0 /\
         0 <= mx <= STACK_SIZE_MAX /\ forall j, (j <= k0)%nat -> depth p j <= mx
     | inr r => 0 <= r -> depth_bound p r end)).
  { intros H1. destruct (Z.ltb_spec mx (depth p k + 1)); [destruct (Z.ltb_spec STACK_SIZE_MAX (depth p k + 1)); [cbn; lia|]|];
      by apply Hnext; lia. }
  destruct i as [op|v|v|op o|op x|x y|v|rr|rr|o mn mx' cnt]; cbn [op_of delta] in *; try (by apply Hsame); try (by apply Hpush).
  - destruct op; try (by apply Hsame); try (by apply Hpush); try done.
    apply post_bind, post_intro. intros _ _. apply Hnext; [done|lia|lia].
  - destruct op; try (by apply Hsame); try done.
    apply post_bind, post_intro. intros _ _. apply Hnext; [done|lia|lia].
  - destruct op; try (by apply Hsame); cbn in Hwi; by rewrite andb_false_r in Hwi.
Qed.
