(* ===== verification/RegexpGen.v ===== *)
(** * Regular expressions: the compiler emits verified code

    Every part of the compiler that returns without an error has appended a
    fragment ([RegexpFrag]) to the code; the code [lre_compile] returns is
    [verified], which is what the matcher needs to be memory-safe. *)

From S2P Require Import Prelude Cutils DynBuf Utf8 CharRange RegexpOp RegexpParse RegexpCompile RegexpCode RegexpFrag RegexpSafe RegexpLogic RegexpRange RegexpEmit RegexpScan.
#[local] Open Scope parser_scope.
#[local] Ltac Zify.zify_post_hook ::= Z.to_euclidean_division_equations.

Notation data s := (dbuf_data (byte_code s)).

(** The call appended the fragment [p]. *)
Record emits (s s' : REParseState) (p : list instr) : Prop := {
  em_ok : st_ok s';
  em_data : data s' = data s ++ code_of p;
  em_count : capture_count s <= capture_count s';
  em_frag : frag (capture_count s') p;
}.

Lemma emits_nil s : st_ok s -> emits s s [].
Proof. intros Hs. split; [done| |done|apply frag_nil]. change (code_of []) with (@nil Z). by rewrite app_nil_r. Qed.

Lemma emits_app s1 s2 s3 p q : emits s1 s2 p -> emits s2 s3 q -> emits s1 s3 (p ++ q).
Proof.
  intros [A1 A2 A3 A4] [B1 B2 B3 B4]. split; [done| |lia|].
  - by rewrite B2, A2, code_of_app, app_assoc.
  - apply frag_app; [|done]. by apply (frag_mono (capture_count s2)).
Qed.

Lemma emits_same s s1 s' p : same_code s s1 -> emits s1 s' p -> emits s s' p.
Proof. intros [E1 E2] [A1 A2 A3 A4]. split; [done| |by rewrite <- E2|done]. by rewrite A2, E1. Qed.
Lemma emits_then_same s s1 s' p : emits s s1 p -> same_code s1 s' -> emits s s' p.
Proof.
  intros [A1 A2 A3 A4] [E1 E2]. split; [by apply (st_same s1)| |by rewrite E2|by rewrite E2].
  by rewrite E1.
Qed.

Lemma becomes_emits s s' s'' p : becomes s' s'' (data s ++ code_of p) -> capture_count s <= capture_count s' ->
  frag (capture_count s') p -> emits s s'' p.
Proof. intros [B1 B2 B3] Hc Hf. split; [done|done|by rewrite B3|by rewrite B3]. Qed.

Lemma appended_emits s s' i : appended s s' (encode i) ->
  frag (capture_count s) [i] -> emits s s' [i].
Proof.
  intros [B1 B2 B3] Hf. split; [done| |lia|by rewrite B3]. by rewrite code_of_one.
Qed.

Lemma appended_code s s' i : appended s s' (encode i) -> appended s s' (code_of [i]).
Proof. by rewrite code_of_one. Qed.

(** The code of a fragment is smaller than the buffer. *)
Lemma data_small s a p c : st_ok s -> data s = a ++ code_of p ++ c -> zlen (code_of p) < 2 ^ 31.
Proof.
  intros Hs Hd. pose proof (st_size s Hs) as [H1 H2]. rewrite Hd, !zlen_app in H1.
  pose proof (zlen_nonneg a). pose proof (zlen_nonneg c). lia.
Qed.

Lemma u8_reop op : u8 (reop op) = reop op.
Proof. by destruct op. Qed.

Section Gen.
Context `{SmallAllocator}.

Lemma sticky_emit_op op : sticky (re_emit_op op).
Proof. unfold re_emit_op. keeps_auto. Qed.
Lemma sticky_emit_op_u8 op v : sticky (re_emit_op_u8 op v).
Proof. unfold re_emit_op_u8. keeps_auto. Qed.
Lemma sticky_emit_op_u16 op v : sticky (re_emit_op_u16 op v).
Proof. unfold re_emit_op_u16. keeps_auto. Qed.
Lemma sticky_emit_op_u32 op v : sticky (re_emit_op_u32 op v).
Proof. unfold re_emit_op_u32. keeps_auto. Qed.
Lemma sticky_emit_goto op v : sticky (re_emit_goto op v).
Proof. unfold re_emit_goto. keeps_auto. Qed.
#[local] Hint Resolve sticky_emit_op sticky_emit_op_u8 sticky_emit_op_u16 sticky_emit_op_u32 sticky_emit_goto : keeps.

Lemma pwp_op s op (Q : () -> REParseState -> Prop) : st_ok s ->
  (forall s', appended s s' (encode (IOp op)) -> Q () s') -> pwp (re_emit_op (reop op)) s Q.
Proof. intros Hs HQ. apply pwp_re_emit_op; [done|]. rewrite u8_reop. done. Qed.

(** A put followed by a continuation. *)
Lemma pwp_put_bind {B} s d (k : Z -> parser B) (Q : B -> REParseState -> Prop) : st_ok s -> zlen d < 2 ^ 31 ->
  (forall a, sticky (k a)) -> (forall s', appended s s' d -> pwp (k 0) s' Q) ->
  pwp (pbind (on_code (fun b => dbuf_put b d)) k) s Q.
Proof. intros Hs Hd Hk HQ. apply pwp_bind; [done|]. by apply pwp_put. Qed.

Lemma pwp_op_u8 s op v (Q : () -> REParseState -> Prop) : st_ok s ->
  (forall s', appended s s' (encode (ICapture op (u8 v))) -> Q () s') -> pwp (re_emit_op_u8 (reop op) v) s Q.
Proof.
  intros Hs HQ. unfold re_emit_op_u8. apply pwp_put_bind; [done..|keeps_auto|]. intros s1 H1.
  apply pwp_put_bind; [apply H1|done|keeps_auto|]. intros s2 H2. apply pwp_ret, HQ.
  rewrite u8_reop in H1. exact (appended_trans _ _ _ _ _ H1 H2).
Qed.

Lemma pwp_op_u16 s op v (Q : () -> REParseState -> Prop) : st_ok s ->
  (forall s', appended s s' (reop op :: Bits.le_bytes 2 v) -> Q () s') -> pwp (re_emit_op_u16 (reop op) v) s Q.
Proof.
  intros Hs HQ. unfold re_emit_op_u16. apply pwp_put_bind; [done..|keeps_auto|]. intros s1 H1.
  apply pwp_put_bind; [apply H1|done|keeps_auto|]. intros s2 H2. apply pwp_ret, HQ.
  rewrite u8_reop in H1. exact (appended_trans _ _ _ _ _ H1 H2).
Qed.

Lemma pwp_op_u32 s op v (Q : Z -> REParseState -> Prop) : st_ok s ->
  (forall s', appended s s' (reop op :: Bits.le_bytes 4 v) -> Q (zlen (data s) + 1) s') ->
  pwp (re_emit_op_u32 (reop op) v) s Q.
Proof.
  intros Hs HQ. unfold re_emit_op_u32. apply pwp_put_bind; [done..|keeps_auto|]. intros s1 H1.
  apply pwp_bind; [keeps_auto|]. apply pwp_code_size; [apply H1|].
  apply pwp_put_bind; [apply H1|done|keeps_auto|]. intros s2 H2. apply pwp_ret.
  rewrite (ap_data _ _ _ H1), zlen_app. apply HQ.
  rewrite u8_reop in H1. exact (appended_trans _ _ _ _ _ H1 H2).
Qed.

(** A jump to [target]. *)
Lemma pwp_goto s op target off (Q : Z -> REParseState -> Prop) : st_ok s ->
  target = zlen (data s) + 5 + off ->
  (forall pos s', appended s s' (encode (IJump op off)) -> Q pos s') -> pwp (re_emit_goto (reop op) target) s Q.
Proof.
  intros Hs Ht HQ. unfold re_emit_goto. apply pwp_put_bind; [done..|keeps_auto|]. intros s1 H1.
  apply pwp_bind; [keeps_auto|]. apply pwp_code_size; [apply H1|].
  apply pwp_put_bind; [apply H1|done|keeps_auto|]. intros s2 H2. apply pwp_ret, HQ.
  rewrite u8_reop in H1. rewrite (ap_data _ _ _ H1), zlen_app in H2.
  replace (target - (zlen (data s) + zlen [reop op] + 4)) with off in H2 by (change (zlen [reop op]) with 1; lia).
  rewrite le_bytes_u32 in H2. exact (appended_trans _ _ _ _ _ H1 H2).
Qed.

(** ** Ranges *)

Lemma le_bytes_byte n v : forallb byte (Bits.le_bytes n v) = true.
Proof.
  apply forallb_forall. intros x Hx. apply list_elem_of_In in Hx. pose proof (Bits.le_bytes_range n v) as Hr.
  rewrite Forall_forall in Hr. specialize (Hr x Hx). unfold byte. lia.
Qed.

Lemma sticky_emit_range16 points n : forall i, sticky (re_emit_range16 points n i).
Proof. induction n as [|n IH]; intros i; cbn [re_emit_range16]; keeps_auto. Qed.
Lemma sticky_emit_range32 points n : forall i, sticky (re_emit_range32 points n i).
Proof. induction n as [|n IH]; intros i; cbn [re_emit_range32]; keeps_auto. Qed.
#[local] Hint Resolve sticky_emit_range16 sticky_emit_range32 : keeps.
Lemma sticky_emit_range cr : sticky (re_emit_range cr).
Proof. unfold re_emit_range, re_parse_out_of_memory. keeps_auto. Qed.
#[local] Hint Resolve sticky_emit_range : keeps.

Lemma pwp_range16 points n : forall i s (Q : () -> REParseState -> Prop), st_ok s ->
  (forall s' r, appended s s' r -> zlen r = 4 * Z.of_nat n -> forallb byte r = true -> Q () s') ->
  pwp (re_emit_range16 points n i) s Q.
Proof.
  induction n as [|n IH]; intros i s Q Hs HQ; cbn [re_emit_range16].
  - apply pwp_ret. by apply (HQ s []); [apply appended_nil|..].
  - apply pwp_bind; [keeps_auto|]. apply pwp_lift. intros low _.
    apply pwp_put_bind; [done..|keeps_auto|]. intros s1 Ha1. apply pwp_bind; [keeps_auto|]. apply pwp_lift. intros high _.
    cbv zeta. apply pwp_put_bind; [apply Ha1|done|keeps_auto|]. intros s2 Ha2. apply IH; [apply Ha2|].
    intros s3 r Ha3 Hr Hb. eapply (HQ s3).
    + exact (appended_trans _ _ _ _ _ (appended_trans _ _ _ _ _ Ha1 Ha2) Ha3).
    + rewrite !zlen_app, !Bits.zlen_le_bytes. lia.
    + by rewrite !forallb_app, !le_bytes_byte, Hb.
Qed.

Lemma pwp_range32 points n : forall i s (Q : () -> REParseState -> Prop), st_ok s ->
  (forall s' r, appended s s' r -> zlen r = 8 * Z.of_nat n -> forallb byte r = true -> Q () s') ->
  pwp (re_emit_range32 points n i) s Q.
Proof.
  induction n as [|n IH]; intros i s Q Hs HQ; cbn [re_emit_range32].
  - apply pwp_ret. by apply (HQ s []); [apply appended_nil|..].
  - apply pwp_bind; [keeps_auto|]. apply pwp_lift. intros low _.
    apply pwp_put_bind; [done..|keeps_auto|]. intros s1 Ha1. apply pwp_bind; [keeps_auto|]. apply pwp_lift. intros high _.
    cbv zeta. apply pwp_put_bind; [apply Ha1|done|keeps_auto|]. intros s2 Ha2. apply IH; [apply Ha2|].
    intros s3 r Ha3 Hr Hb. eapply (HQ s3).
    + exact (appended_trans _ _ _ _ _ (appended_trans _ _ _ _ _ Ha1 Ha2) Ha3).
    + rewrite !zlen_app, !Bits.zlen_le_bytes. lia.
    + by rewrite !forallb_app, !le_bytes_byte, Hb.
Qed.

Lemma ranges_ok_intro w r n : 0 < w -> zlen r = 2 * w * n -> 0 < n < 65536 -> forallb byte r = true -> ranges_ok w r = true.
Proof.
  intros Hw Hr Hn Hb. unfold ranges_ok. rewrite Hb, Hr, (Z.mul_comm (2 * w) n), Z.mod_mul, Z.div_mul by lia.
  rewrite !andb_true_iff. split_and!; try done; nia.
Qed.

Lemma pwp_emit_range s cr (Q : () -> REParseState -> Prop) : st_ok s -> cr_ok cr ->
  (forall s' p, emits s s' p -> Q () s') -> pwp (re_emit_range cr) s Q.
Proof.
  intros Hs [[[_ Hl] Hz] He] HQ. unfold re_emit_range. rewrite (u32_small (len cr)) by lia. cbv zeta.
  apply Z.even_spec in He as [m Hm]. replace (len cr / 2) with m by lia. replace ((len cr + 1) / 2) with m by lia.
  destruct (Z.leb_spec 65535 m); [apply pwp_error|]. destruct (Z.eqb_spec m 0) as [Hm0|Hm0].
  { apply pwp_bind; [keeps_auto|]. apply pwp_op_u32; [done|]. intros s' Ha1. apply pwp_ret, (HQ s' [IChar32 UINT32_MAX]).
    apply appended_emits; [exact Ha1|]. by apply frag_one. }
  apply pwp_bind; [keeps_auto|]. apply pwp_lift. intros h1 _. apply pwp_bind; [keeps_auto|].
  apply pwp_frame; [keeps_auto|]. intros h2 s0 Hs0. pose proof (st_same _ _ Hs0 Hs) as Hok0.
  assert (Hemit : forall s2 i, appended s0 s2 (encode i) -> frag (capture_count s0) [i] -> Q () s2).
  { intros s2 i Hap Hf. apply (HQ s2 [i]). apply (emits_same s s0); [done|]. by apply appended_emits. }
  destruct (h2 <=? 0xffff); (apply pwp_bind; [keeps_auto|]; apply pwp_op_u16; [done|]; intros s1 Ha1).
  - apply pwp_range16; [apply Ha1|]. intros s2 r Ha2 Hr Hb. rewrite Z2Nat.id in Hr by lia.
    apply (Hemit s2 (IRange16 r)).
    + cbn [encode]. replace (zlen r / 4) with m by lia. exact (appended_trans _ _ _ _ _ Ha1 Ha2).
    + apply frag_one; try done. cbn [wf_instr]. apply (ranges_ok_intro 2 r m); done || lia.
  - apply pwp_range32; [apply Ha1|]. intros s2 r Ha2 Hr Hb. rewrite Z2Nat.id in Hr by lia.
    apply (Hemit s2 (IRange32 r)).
    + cbn [encode]. replace (zlen r / 8) with m by lia. exact (appended_trans _ _ _ _ _ Ha1 Ha2).
    + apply frag_one; try done. cbn [wf_instr]. apply (ranges_ok_intro 4 r m); done || lia.
Qed.

Lemma sticky_char_class p : sticky (re_parse_char_class p).
Proof. unfold re_parse_char_class, re_parse_out_of_memory. keeps_auto. Qed.

Lemma pwp_char_class s p (Q : Z -> REParseState -> Prop) : st_ok s ->
  (forall q s' c, emits s s' c -> Q q s') -> pwp (re_parse_char_class p) s Q.
Proof.
  intros Hs HQ. unfold re_parse_char_class. apply pwp_bind; [keeps_auto|]. apply pwp_get. cbv zeta.
  apply pwp_bind; [keeps_auto|]. apply pwp_frame; [keeps_auto|]. intros c s1 Ha1.
  destruct (if c =? ch "^" then (true, p + 1 + 1) else (false, p + 1)) as [invert p1].
  apply pwp_bind; [keeps_auto|].
  apply (pwp_framed _ (fun '(_, cr) => cr_ok cr)); [keeps_auto| |].
  { apply (returns_loop (fun '(_, cr, cr1) => cr_ok cr /\ opt_ok cr1)).
    - intros [[q cr] cr1] [Hcr Hcr1]. by apply char_class_step_ok.
    - split; [apply cr_init_ok|done]. }
  intros [p2 cr] s2 Ha2 Hcr. apply pwp_bind; [keeps_auto|]. apply (pwp_framed _ cr_ok); [keeps_auto| |].
  { destruct (ignore_case s); [by apply range_op_ok, cr_canonicalize_ok|by apply returns_ret]. }
  intros cr2 s3 Ha3 Hcr2. apply pwp_bind; [keeps_auto|]. apply (pwp_framed _ cr_ok); [keeps_auto| |].
  { destruct invert; [by apply range_op_ok, cr_invert_ok|by apply returns_ret]. }
  intros cr3 s4 Ha4 Hcr3. assert (same_code s s4) as Hsame by (etransitivity; [|done]; etransitivity; [|done]; by etransitivity).
  apply pwp_bind; [keeps_auto|]. apply pwp_emit_range; [by apply (st_same s)|done|]. intros s5 pp Ha5.
  apply pwp_ret, (HQ _ _ pp). by apply (emits_same s s4).
Qed.
#[local] Hint Resolve sticky_char_class : keeps.

(** ** Calls that append a fragment *)

Definition emitting {A} (m : parser A) : Prop :=
  forall s, st_ok s -> pwp m s (fun _ s' => exists p, emits s s' p).

Lemma emitting_framed {A} (m : parser A) : framed m -> emitting m.
Proof.
  intros Hm s Hs. apply pwp_frame; [done|]. intros a s' He. exists []. exact (emits_then_same _ _ _ _ (emits_nil s Hs) He).
Qed.

(** One more call after the fragment emitted since [s0]. *)
Lemma emit_bind {A B} (m : parser A) (k : A -> parser B) s0 s p (Q : B -> REParseState -> Prop) :
  emitting m -> (forall a, sticky (k a)) -> emits s0 s p ->
  (forall a s' p', emits s0 s' p' -> pwp (k a) s' Q) -> pwp (pbind m k) s Q.
Proof.
  intros Hm Hk Hp HQ. apply pwp_bind; [done|]. eapply pwp_mono; [apply Hm, Hp|].
  intros a s' [p' Hp']. apply (HQ a s' (p ++ p')). by apply (emits_app s0 s).
Qed.

Lemma emitting_bind {A B} (m : parser A) (k : A -> parser B) :
  emitting m -> (forall a, sticky (k a)) -> (forall a, emitting (k a)) -> emitting (pbind m k).
Proof.
  intros Hm Hk HQ s Hs. apply (emit_bind m k s s [] _ Hm Hk (emits_nil s Hs)). intros a s' p Hp.
  eapply pwp_mono; [apply HQ, Hp|]. intros b s2 [q Hq]. exists (p ++ q). by apply (emits_app s s').
Qed.

Lemma emitting_value {A B} (m : parser A) (V : A -> Prop) (k : A -> parser B) :
  framed m -> returns m V -> (forall a, sticky (k a)) -> (forall a, V a -> emitting (k a)) -> emitting (pbind m k).
Proof.
  intros Hm Hv Hk HQ s Hs. apply pwp_bind; [done|]. apply (pwp_framed m V); [done..|]. intros a s' He Ha.
  eapply pwp_mono; [apply (HQ a Ha); by apply (st_same s)|]. intros b s2 [q Hq]. exists q. by apply (emits_same s s').
Qed.

Lemma emitting_ret {A} (a : A) : emitting (pret a).
Proof. apply emitting_framed. keeps_auto. Qed.
Lemma emitting_fail {A} : emitting (@pfail A).
Proof. apply emitting_framed. keeps_auto. Qed.

Lemma emitting_op op : wf_instr 0 (IOp op) = true -> delta (IOp op) = 0 -> needs (IOp op) = 0 -> emitting (re_emit_op (reop op)).
Proof.
  intros Hw Hd Hn s Hs. apply pwp_op; [done|]. intros s' Ha. exists [IOp op]. apply appended_emits; [done|]. by apply frag_one.
Qed.

Lemma emitting_prev back : emitting (emit_prev back).
Proof. destruct back; [by apply emitting_op|apply emitting_ret]. Qed.

Lemma emitting_range cr : cr_ok cr -> emitting (re_emit_range cr).
Proof. intros Hcr s Hs. apply pwp_emit_range; [done..|]. intros s' p Hp. by exists p. Qed.

Lemma emitting_class p : emitting (re_parse_char_class p).
Proof. intros s Hs. apply pwp_char_class; [done|]. intros q s' c Hc. by exists c. Qed.

Lemma emitting_char c : emitting (re_emit_op_u16 (reop REOP_char) c).
Proof.
  intros s Hs. apply pwp_op_u16; [done|]. intros s' Ha. exists [IChar (u16 c)]. apply appended_emits.
  - cbn [encode]. by rewrite le_bytes_u16.
  - apply frag_one; try done. cbn [wf_instr]. pose proof (u16_range c). lia.
Qed.

Lemma emitting_char32 c : emitting (re_emit_op_u32 (reop REOP_char32) c).
Proof.
  intros s Hs. apply pwp_op_u32; [done|]. intros s' Ha. exists [IChar32 (u32 c)]. apply appended_emits.
  - cbn [encode]. by rewrite le_bytes_u32.
  - apply frag_one; try done. cbn [wf_instr]. pose proof (u32_range c). unfold is_u32. lia.
Qed.

Lemma emitting_ref op c : op_ref op = true -> emitting (re_emit_op_u8 (reop op) c).
Proof.
  intros Hop s Hs. apply pwp_op_u8; [done|]. intros s' Ha. exists [ICapture op (u8 c)]. apply appended_emits; [done|].
  apply frag_one; try done. cbn [wf_instr]. rewrite Hop. pose proof (u8_range c). unfold byte. lia.
Qed.

(** [REOP_save_start] and [REOP_save_end] of a capture of the expression. *)
Lemma pwp_save s op c (Q : () -> REParseState -> Prop) : st_ok s -> op_save op = true -> 0 <= c < capture_count s ->
  (forall s', emits s s' [ICapture op c] -> Q () s') -> pwp (re_emit_op_u8 (reop op) c) s Q.
Proof.
  intros Hs Hop Hc HQ. apply pwp_op_u8; [done|]. intros s' Ha. apply HQ. pose proof (st_count _ Hs).
  rewrite u8_small in Ha by lia. apply appended_emits; [done|].
  apply frag_one; try done. cbn [wf_instr]. rewrite Hop. unfold byte. lia.
Qed.

#[local] Hint Resolve emitting_prev emitting_class emitting_char emitting_char32 : emit.
Lemma sticky_prev back : sticky (emit_prev back).
Proof. unfold emit_prev. keeps_auto. Qed.
#[local] Hint Resolve sticky_prev : keeps.

(** Follows the structure of a parser, as [keeps_auto]. *)
Ltac emit_step :=
  match goal with
  | |- emitting (pbind _ _) => apply emitting_bind; [|solve [keeps_auto]|intros]
  | |- emitting (let _ := _ in _) => cbv zeta
  | |- emitting (match ?x with _ => _ end) => destruct x
  | |- _ => progress intros
  | |- _ => solve [eauto with emit]
  | |- emitting _ => apply emitting_framed; solve [keeps_auto]
  end.
Ltac emit_auto := repeat emit_step.

(** ** Atoms *)

(** What an atom leaves: its code, and where it starts if it can be repeated. *)
Definition term_ok (s : REParseState) (t : term) (s' : REParseState) : Prop :=
  exists a, emits s s' a /\
    (t.1.2 < 0 \/ (t.1.2 = zlen (data s) /\ t.2 = capture_count s)).

Lemma term_same s s1 t s' : same_code s s1 -> term_ok s1 t s' -> term_ok s t s'.
Proof.
  intros He (a & Ha & Ht). exists a. split; [by apply (emits_same s s1)|]. destruct He as [E1 E2].
  by rewrite <- E1, <- E2.
Qed.

Lemma term_here s s' a p : st_ok s -> emits s s' a -> term_ok s (p, size (byte_code s), capture_count s) s'.
Proof. intros Hs Ha. exists a. split; [done|]. right. cbn. by rewrite (proj1 (st_size s Hs)). Qed.

Lemma term_none s s' a p c : emits s s' a -> term_ok s (p, -1, c) s'.
Proof. intros Ha. exists a. split; [done|]. by left. Qed.

(** Calls that append one atom. *)
Definition atom (m : parser term) : Prop := forall s, st_ok s -> pwp m s (term_ok s).

Lemma atom_frame {A} (m : parser A) (k : A -> parser term) :
  framed m -> (forall a, sticky (k a)) -> (forall a, atom (k a)) -> atom (pbind m k).
Proof.
  intros Hm Hk Ha s Hs. apply pwp_bind; [done|]. apply pwp_frame; [done|]. intros a s1 He.
  eapply pwp_mono; [apply Ha; by apply (st_same s)|]. intros t s'. by apply term_same.
Qed.

Lemma atom_fail : atom pfail.
Proof. intros s Hs. apply pwp_fail. Qed.
Lemma atom_error msg : atom (re_parse_error msg).
Proof. intros s Hs. apply pwp_error. Qed.

Lemma sticky_normal_char c p cr back : sticky (term_normal_char c p cr back).
Proof. unfold term_normal_char. keeps_auto. Qed.
#[local] Hint Resolve sticky_normal_char : keeps.

Lemma atom_normal_char c p cr back : opt_ok cr -> atom (term_normal_char c p cr back).
Proof.
  intros Hcr s Hs. unfold term_normal_char. apply pwp_bind; [keeps_auto|]. apply pwp_get.
  eapply (emit_bind _ _ s s); [emit_auto|keeps_auto|by apply emits_nil|]. intros _ s1 p1 Ha1.
  eapply (emit_bind _ _ s s1); [|keeps_auto|done|].
  { destruct (CLASS_RANGE_BASE <=? c).
    - eapply emitting_value; [keeps_auto|by apply initialised_ok|keeps_auto|]. intros cr'. apply emitting_range.
    - emit_auto. }
  intros _ s2 p2 Ha2. eapply (emit_bind _ _ s s2); [emit_auto|keeps_auto|done|]. intros _ s3 p3 Ha3.
  apply pwp_ret. by apply (term_here s s3 p3).
Qed.

Lemma sticky_class_atom p back : sticky (term_class_atom p back).
Proof. unfold term_class_atom. keeps_auto. Qed.
#[local] Hint Resolve sticky_class_atom : keeps.

Lemma atom_class_atom p back : atom (term_class_atom p back).
Proof.
  intros s Hs. unfold term_class_atom. apply pwp_bind; [keeps_auto|].
  apply (pwp_framed _ atom_ok); [keeps_auto|by apply get_class_atom_ok|]. intros [[c q] cr] s1 He Hcr.
  eapply pwp_mono; [apply atom_normal_char; [exact Hcr|by apply (st_same s)]|]. intros t s'. by apply term_same.
Qed.

(** Emitting with nothing else, then the place of the atom. *)
Lemma atom_of_emitting {A} (m : parser A) p : sticky m -> emitting m ->
  atom (let* s := pget in do* m in pret (p, size (byte_code s), capture_count s)).
Proof.
  intros Hk Hm s Hs. apply pwp_bind; [keeps_auto|]. apply pwp_get.
  eapply (emit_bind _ _ s s); [done|keeps_auto|by apply emits_nil|]. intros _ s1 p1 Ha1. apply pwp_ret. by apply (term_here s s1 p1).
Qed.

(** *** The simple ones *)

Lemma emitting_dot (b : bool) : emitting (re_emit_op (reop (if b then REOP_any else REOP_dot))).
Proof. destruct b; by apply emitting_op. Qed.
#[local] Hint Resolve emitting_dot : emit.

Lemma sticky_dot p back : sticky (term_dot p back).
Proof. unfold term_dot. keeps_auto. Qed.

Lemma atom_dot p back : atom (term_dot p back).
Proof.
  intros s Hs. unfold term_dot. apply pwp_bind; [keeps_auto|]. apply pwp_get.
  eapply (emit_bind _ _ s s); [emit_auto|keeps_auto|by apply emits_nil|]. intros _ s1 p1 Ha1.
  eapply (emit_bind _ _ s s1); [emit_auto|keeps_auto|done|]. intros _ s2 p2 Ha2.
  eapply (emit_bind _ _ s s2); [emit_auto|keeps_auto|done|]. intros _ s3 p3 Ha3.
  apply pwp_ret. by apply (term_here s s3 p3).
Qed.

Lemma sticky_class p back : sticky (term_class p back).
Proof. unfold term_class. keeps_auto. Qed.

Lemma atom_class p back : atom (term_class p back).
Proof.
  intros s Hs. unfold term_class. apply pwp_bind; [keeps_auto|]. apply pwp_get.
  eapply (emit_bind _ _ s s); [emit_auto|keeps_auto|by apply emits_nil|]. intros _ s1 p1 Ha1.
  eapply (emit_bind _ _ s s1); [emit_auto|keeps_auto|done|]. intros q s2 p2 Ha2.
  eapply (emit_bind _ _ s s2); [emit_auto|keeps_auto|done|]. intros _ s3 p3 Ha3.
  apply pwp_ret. by apply (term_here s s3 p3).
Qed.

Lemma sticky_brace p back : sticky (term_brace p back).
Proof. unfold term_brace, nothing_to_repeat. keeps_auto. Qed.

(** Parsers of one atom by their structure. *)
Ltac atom_step :=
  match goal with
  | |- atom (pbind _ _) => apply atom_frame; [solve [keeps_auto]|solve [keeps_auto]|intros]
  | |- atom (re_parse_error _) => apply atom_error
  | |- atom pfail => apply atom_fail
  | |- atom (let _ := _ in _) => cbv zeta
  | |- atom (match ?x with _ => _ end) => destruct x
  | |- _ => progress intros
  | |- _ => solve [eauto with atom]
  end.
Ltac atom_auto := repeat atom_step.
#[local] Hint Resolve atom_class_atom : atom.
#[local] Hint Extern 1 (atom (term_normal_char _ _ None _)) => by apply atom_normal_char : atom.

Lemma atom_brace p back : atom (term_brace p back).
Proof. unfold term_brace, nothing_to_repeat. atom_auto. Qed.

Lemma op_plus_1 (b : bool) op op' : reop op' = reop op + 1 -> reop op + b2z b = reop (if b then op' else op).
Proof. intros E. destruct b; cbn [b2z]; lia. Qed.

Lemma sticky_back_reference c p back : sticky (term_back_reference c p back).
Proof. unfold term_back_reference. keeps_auto. Qed.
#[local] Hint Resolve sticky_back_reference : keeps.

Lemma atom_back_reference c p back : atom (term_back_reference c p back).
Proof.
  unfold term_back_reference. rewrite (op_plus_1 back _ REOP_backward_back_reference) by done.
  apply atom_of_emitting; [keeps_auto|]. apply emitting_ref. by destruct back.
Qed.
#[local] Hint Resolve atom_back_reference : atom.

Lemma sticky_tolerate msg p back : sticky (tolerate msg p back).
Proof. unfold tolerate. keeps_auto. Qed.
#[local] Hint Resolve sticky_tolerate : keeps.
Lemma atom_tolerate msg p back : atom (tolerate msg p back).
Proof. unfold tolerate. atom_auto. Qed.
#[local] Hint Resolve atom_tolerate : atom.

Lemma framed_pmod f : (forall s, same_code s (f s)) -> framed (pmod f).
Proof. by apply keeps_mod. Qed.
#[local] Hint Extern 1 (keeps same_code (pmod _)) => (apply framed_pmod; done) : keeps.

Lemma sticky_named_reference p back : sticky (term_named_reference p back).
Proof. unfold term_named_reference. keeps_auto. Qed.
Lemma atom_named_reference p back : atom (term_named_reference p back).
Proof. unfold term_named_reference. atom_auto. Qed.

Lemma sticky_zero p back : sticky (term_zero p back).
Proof. unfold term_zero. keeps_auto. Qed.
Lemma atom_zero p back : atom (term_zero p back).
Proof. unfold term_zero. atom_auto. Qed.

Lemma sticky_decimal p back : sticky (term_decimal p back).
Proof. unfold term_decimal. keeps_auto. Qed.
Lemma atom_decimal p back : atom (term_decimal p back).
Proof. unfold term_decimal. atom_auto. Qed.
#[local] Hint Resolve sticky_named_reference sticky_zero sticky_decimal sticky_dot sticky_class sticky_brace : keeps.
#[local] Hint Resolve atom_named_reference atom_zero atom_decimal atom_dot atom_class atom_brace : atom.

(** One instruction that cannot be repeated. *)
Lemma atom_assertion op p : wf_instr 0 (IOp op) = true -> delta (IOp op) = 0 -> needs (IOp op) = 0 ->
  atom (do* re_emit_op (reop op) in pret (p, -1, 0)).
Proof.
  intros Hw Hd Hn s Hs. eapply (emit_bind _ _ s s); [by apply emitting_op|keeps_auto|by apply emits_nil|].
  intros _ s1 p1 Ha1. apply pwp_ret. by apply (term_none s s1 p1).
Qed.

Lemma sticky_escape p back : sticky (term_escape p back).
Proof. unfold term_escape. keeps_auto. Qed.
Lemma atom_escape p back : atom (term_escape p back).
Proof.
  unfold term_escape. apply atom_frame; [keeps_auto|keeps_auto|]. intros c.
  rewrite (op_plus_1 _ _ REOP_not_word_boundary) by done.
  destruct ((c =? ch "b") || (c =? ch "B")); [|atom_auto].
  apply atom_assertion; by destruct (negb (c =? ch "b")).
Qed.
#[local] Hint Resolve sticky_escape : keeps.
#[local] Hint Resolve atom_escape : atom.

(** *** Groups *)

Section Groups.
Context (D : bool -> parser ()) (HD : forall b, sticky (D b)) (HDe : forall b, emitting (D b)).

Lemma sticky_pmod f : (forall s, byte_code (f s) = byte_code s) -> sticky (pmod f).
Proof. intros Hf. apply keeps_mod. intros s. unfold keeps_error. by rewrite Hf. Qed.
#[local] Hint Extern 2 (keeps keeps_error (pmod _)) => (apply sticky_pmod; done) : keeps.
#[local] Hint Resolve HD : keeps.
#[local] Hint Resolve HDe : emit.

Lemma sticky_sub back p : sticky (sub_disjunction D back p).
Proof. unfold sub_disjunction. keeps_auto. Qed.
#[local] Hint Resolve sticky_sub : keeps.
Lemma emitting_sub back p : emitting (sub_disjunction D back p).
Proof. unfold sub_disjunction. emit_auto. Qed.

(** Bytes appended since [s0], then a fragment. *)
Lemma appended_emit {A} (m : parser A) s0 s d (Q : A -> REParseState -> Prop) : emitting m -> appended s0 s d ->
  (forall a s' p, st_ok s' -> data s' = data s0 ++ d ++ code_of p -> capture_count s0 <= capture_count s' ->
    frag (capture_count s') p -> Q a s') ->
  pwp m s Q.
Proof.
  intros Hm [B1 B2 B3] HQ. eapply pwp_mono; [by apply Hm|]. intros a s' (p & [C1 C2 C3 C4]).
  apply (HQ a s' p); [done| |lia|done]. by rewrite C2, B2, app_assoc.
Qed.

(** The code of a construct fits an [int]. *)
Lemma construct_fits s a d : st_ok s -> data s = a ++ d -> zlen d < 2 ^ 31.
Proof.
  intros Hs Hd. pose proof (st_size s Hs) as [E1 E2]. rewrite Hd, zlen_app in E1. pose proof (zlen_nonneg a). lia.
Qed.

Lemma sticky_put_u32 pos v : sticky (code_put_u32 pos v).
Proof.
  unfold code_put_u32. apply sticky_on_code. intros b r b' E He.
  destruct (Bits.put_u32 _ _ _); [|done]. by injection E as _ <-.
Qed.
Lemma sticky_code_set pos v : sticky (code_set pos v).
Proof.
  unfold code_set. apply sticky_on_code. intros b r b' E He. destruct (wr _ _ _); [|done]. by injection E as _ <-.
Qed.
#[local] Hint Resolve sticky_put_u32 sticky_code_set : keeps.

Lemma sticky_lookahead p neg back : sticky (term_lookahead D p neg back).
Proof. unfold term_lookahead. keeps_auto. Qed.

Lemma code_of_look op n p : code_of ([IJump op n] ++ p ++ [IOp REOP_match]) =
  reop op :: Bits.le_bytes 4 n ++ code_of p ++ [reop REOP_match].
Proof. rewrite !code_of_app, !code_of_one. done. Qed.

Lemma atom_lookahead p neg back : atom (term_lookahead D p neg back).
Proof.
  intros s Hs. unfold term_lookahead. apply pwp_bind; [keeps_auto|]. apply pwp_get.
  destruct (if negb (is_utf16 s) && negb back then _ else _) as [las lcc] eqn:Elas.
  rewrite (op_plus_1 neg _ REOP_negative_lookahead) by done. set (op := if neg then _ else _).
  apply pwp_bind; [keeps_auto|]. apply pwp_op_u32; [done|]. intros s1 Ha1. apply pwp_bind; [keeps_auto|].
  eapply appended_emit; [apply emitting_sub|done|]. intros q s2 c Hs2 Hd2 Hc2 Hf2.
  apply pwp_bind; [keeps_auto|]. apply pwp_op; [done|]. intros s3 [Hs3 Hd3 Hc3]. apply pwp_bind; [keeps_auto|]. apply pwp_get.
  destruct (dbuf_error (byte_code s3)); [apply pwp_fail|].
  rewrite Hd2 in Hd3. cbn [encode] in Hd3. pose proof (proj1 (st_size s3 Hs3)) as Hsz3.
  apply pwp_bind; [keeps_auto|].
  apply (pwp_code_put_u32 s3 (data s ++ [reop op]) (Bits.le_bytes 4 0) (code_of c ++ [reop REOP_match])); [done| |by rewrite zlen_app|done|].
  { rewrite Hd3, <- !app_assoc. done. }
  intros s4 Hb4. apply pwp_ret.
  assert (size (byte_code s3) - (zlen (data s) + 1 + 4) = zlen (code_of c) + 1) as Hoff.
  { rewrite <- Hsz3, Hd3, !zlen_app. cbn [app]. rewrite zlen_cons, !Bits.zlen_le_bytes.
    change (zlen [reop REOP_match]) with 1. lia. }
  rewrite Hoff in Hb4. pose proof (construct_fits s3 (data s) _ Hs3 ltac:(by rewrite Hd3, <- !app_assoc)) as Hfit.
  autorewrite with zlen in Hfit. rewrite Bits.zlen_le_bytes in Hfit.
  assert (emits s s4 ([IJump op (zlen (code_of c) + 1)] ++ c ++ [IOp REOP_match])) as Hem.
  { apply (becomes_emits s s3); [|lia|].
    - rewrite code_of_look. rewrite <- app_assoc in Hb4. exact Hb4.
    - rewrite Hc3. apply frag_look; [done|by destruct neg|]. unfold fits. lia. }
  destruct (negb (is_utf16 s) && negb back); injection Elas as <- <-; [by apply (term_here s s4 _ _ Hs Hem)|by apply (term_none s s4 _ _ _ Hem)].
Qed.

Lemma sticky_capture p back : sticky (term_capture D p back).
Proof. unfold term_capture. keeps_auto. Qed.
#[local] Hint Resolve sticky_capture sticky_lookahead : keeps.

Lemma atom_capture p back : atom (term_capture D p back).
Proof.
  intros s Hs. unfold term_capture. apply pwp_bind; [keeps_auto|]. apply pwp_get.
  destruct (Z.leb_spec CAPTURE_COUNT_MAX (capture_count s)) as [|Hcc]; [apply pwp_error|]. cbv zeta.
  unfold CAPTURE_COUNT_MAX in Hcc. pose proof (st_count s Hs) as Hcs.
  apply pwp_bind; [keeps_auto|]. apply pwp_mod. set (s1 := set_capture_count s _).
  assert (st_ok s1) as Hs1 by (destruct Hs; split; [done|done|cbn; lia]).
  rewrite (op_plus_1 back _ REOP_save_end) by done.
  replace (reop REOP_save_start + 1 - b2z back) with (reop (if back then REOP_save_start else REOP_save_end)) by (by destruct back).
  apply pwp_bind; [keeps_auto|]. apply pwp_save; [done|by destruct back|cbn; lia|]. intros s2 Ha2.
  eapply (emit_bind _ _ s1 s2); [emit_auto|keeps_auto|exact Ha2|]. intros _ s3 p3 Ha3.
  eapply (emit_bind _ _ s1 s3); [emit_auto|keeps_auto|exact Ha3|]. intros _ s4 p4 Ha4.
  apply pwp_bind; [keeps_auto|].
  assert (capture_count s1 = capture_count s + 1) as Hs1c by done.
  apply pwp_save; [apply Ha4|by destruct back| |]. { pose proof (em_count _ _ _ Ha4). lia. }
  intros s5 Ha5. pose proof (emits_app _ _ _ _ _ Ha4 Ha5) as Ha.
  apply pwp_bind; [keeps_auto|]. apply pwp_get. apply pwp_bind; [keeps_auto|]. apply pwp_frame; [keeps_auto|].
  intros q s6 Hq. apply pwp_ret. eapply (term_here s s6); [done|]. eapply (emits_then_same _ s5); [|done].
  destruct Ha as [A1 A2 A3 A4]. split; [done|done|lia|done].
Qed.

Lemma sticky_named_group p back : sticky (term_named_group D p back).
Proof. unfold term_named_group. keeps_auto. Qed.
#[local] Hint Resolve sticky_named_group : keeps.
#[local] Hint Resolve atom_capture atom_lookahead : atom.

Lemma atom_named_group p back : atom (term_named_group D p back).
Proof. unfold term_named_group. atom_auto. Qed.
#[local] Hint Resolve atom_named_group : atom.

Lemma sticky_group p back : sticky (term_group D p back).
Proof. unfold term_group. keeps_auto. Qed.
#[local] Hint Resolve sticky_group : keeps.

Lemma atom_group p back : atom (term_group D p back).
Proof.
  unfold term_group. apply atom_frame; [keeps_auto|keeps_auto|]. intros c1. destruct (c1 =? ch "?"); [|atom_auto].
  apply atom_frame; [keeps_auto|keeps_auto|]. intros c2. destruct (c2 =? ch ":"); [|atom_auto].
  intros s Hs. apply pwp_bind; [keeps_auto|]. apply pwp_get.
  eapply (emit_bind _ _ s s); [apply emitting_sub|keeps_auto|by apply emits_nil|]. intros q s1 p1 Ha1.
  apply pwp_ret. by apply (term_here s s1 p1).
Qed.
#[local] Hint Resolve atom_group : atom.

Lemma sticky_atom back : sticky (re_parse_atom D back).
Proof. unfold re_parse_atom, nothing_to_repeat. keeps_auto. Qed.

Lemma atom_atom back : atom (re_parse_atom D back).
Proof.
  unfold re_parse_atom, nothing_to_repeat. apply atom_frame; [keeps_auto|keeps_auto|]. intros s0. cbv zeta.
  apply atom_frame; [keeps_auto|keeps_auto|]. intros c.
  destruct (c =? ch "^"); [by apply atom_assertion|]. destruct (c =? ch "$"); [by apply atom_assertion|].
  atom_auto.
Qed.
End Groups.
End Gen.

#[export] Hint Resolve sticky_emit_op sticky_emit_op_u8 sticky_emit_op_u16 sticky_emit_op_u32 sticky_emit_goto
  sticky_put_u32 sticky_code_set sticky_atom : keeps.
#[export] Hint Extern 2 (keeps keeps_error (pmod _)) => (apply sticky_pmod; done) : keeps.

(** One more step of a parser; the length of edited code. *)
Ltac sizes := autorewrite with zlen; rewrite ?Bits.zlen_le_bytes; change (Z.of_nat 4) with 4.
Ltac sizes_in H := autorewrite with zlen in H; rewrite ?Bits.zlen_le_bytes in H; change (Z.of_nat 4) with 4 in H.
Ltac edit := apply pwp_bind; [solve [keeps_auto]|].
Ltac norm_code := rewrite ?code_of_app, ?code_of_one, ?le_bytes_u32, ?u8_reop; cbn [encode];
  rewrite ?le_bytes_u32, ?u8_reop, <- ?app_assoc; cbn [app]; rewrite <- ?app_assoc.
