(* ===== verification/RegexpQuant.v ===== *)
(** * Regular expressions: quantifiers

    The code a quantifier makes of the atom before it is again a fragment: the
    in-place edits of the buffer, byte by byte, for every form
    [emit_quantifier] chooses between. *)

From S2P Require Import Prelude Cutils DynBuf Utf8 CharRange RegexpOp RegexpParse RegexpCompile RegexpCode RegexpFrag RegexpSafe RegexpLogic RegexpRange RegexpEmit RegexpScan RegexpGen.
#[local] Open Scope parser_scope.
#[local] Ltac Zify.zify_post_hook ::= Z.to_euclidean_division_equations.

Section Quantifiers.
Context `{SmallAllocator}.

Lemma sticky_insert pos len : sticky (code_insert pos len).
Proof.
  unfold code_insert, re_parse_out_of_memory. keeps_auto. apply sticky_on_code, dbuf_insert_sticky.
Qed.
Lemma sticky_copy pos len : sticky (copy_atom pos len).
Proof. unfold copy_atom. keeps_auto. apply sticky_on_code, dbuf_put_self_sticky. Qed.
Lemma sticky_truncate n : sticky (on_code (fun b => Ret ((), set_size b n))).
Proof. apply sticky_on_code. by intros b r b' [= _ <-] He. Qed.
#[local] Hint Resolve sticky_insert sticky_copy sticky_truncate sticky_put_u32 sticky_code_set : keeps.

(** A gap of [n + m] bytes in two parts. *)
Lemma gap_split {A} (g : list A) n m : zlen g = n + m -> 0 <= n -> 0 <= m ->
  exists g1 g2, g = g1 ++ g2 /\ zlen g1 = n /\ zlen g2 = m.
Proof.
  intros Hg Hn Hm. exists (take (Z.to_nat n) g), (drop (Z.to_nat n) g).
  rewrite take_drop, zlen_take, zlen_drop. split_and!; done || lia.
Qed.
Lemma gap_cons {A} (g : list A) m : zlen g = 1 + m -> 0 <= m -> exists x g', g = x :: g' /\ zlen g' = m.
Proof. intros Hg Hm. destruct g as [|x g']; [rewrite zlen_nil in Hg; lia|]. rewrite zlen_cons in Hg. exists x, g'. split; [done|lia]. Qed.
Lemma gap_nil {A} (g : list A) : zlen g = 0 -> g = [].
Proof. destruct g; [done|]. rewrite zlen_cons. pose proof (zlen_nonneg g). lia. Qed.

Lemma simple_code_le p : forall n, simple_code p = Some n -> n <= zlen (code_of p).
Proof.
  induction p as [|i p IH]; intros n Hn; cbn [simple_code] in Hn; [by injection Hn as <-|].
  destruct (simple_chars i) as [m|] eqn:Hm; [|done]. destruct (simple_code p) as [k|]; [|done]. injection Hn as <-.
  specialize (IH k eq_refl). rewrite code_of_cons, zlen_app. pose proof (isize_pos i). unfold isize in *.
  assert (m <= 1); [|lia]. destruct i as [op| | | | | | | | |]; try (injection Hm as <-; lia); try done.
  destruct op; try done; injection Hm as <-; lia.
Qed.

(** [x] in place of the byte after [a], [v] in place of the next four. *)
Lemma pwp_set_at s a x c pos v c' (Q : () -> REParseState -> Prop) :
  st_ok s -> data s = a ++ c' -> c' = x :: c -> pos = zlen a ->
  (forall s', becomes s s' ((a ++ [u8 v]) ++ c) -> Q () s') -> pwp (code_set pos v) s Q.
Proof.
  intros Hs Hd -> -> HQ. apply (pwp_code_set s a x c); [done..|]. intros s' Hb. apply HQ. by rewrite <- app_assoc.
Qed.
Lemma pwp_u32_at s a g c pos v c' (Q : () -> REParseState -> Prop) :
  st_ok s -> data s = a ++ c' -> c' = g ++ c -> zlen g = 4 -> pos = zlen a ->
  (forall s', becomes s s' ((a ++ Bits.le_bytes 4 v) ++ c) -> Q () s') -> pwp (code_put_u32 pos v) s Q.
Proof.
  intros Hs Hd -> Hg -> HQ. apply (pwp_code_put_u32 s a g c); [done..|]. intros s' Hb. apply HQ. by rewrite <- app_assoc.
Qed.

(** The code after [a] is replaced by a fragment. *)
Definition replaced (A : list Z) (s s' : REParseState) : Prop :=
  exists p, becomes s s' (A ++ code_of p) /\ frag (capture_count s) p.

Lemma replaced_intro A s s1 s' p d : becomes s s1 d -> becomes s1 s' (A ++ code_of p) -> frag (capture_count s) p ->
  replaced A s s'.
Proof. intros H1 H2 Hf. exists p. split; [by apply (becomes_trans s s1 s' d)|done]. Qed.


Section Quant.
Context (A : list Z) (a : list instr) (s : REParseState) (Hs : st_ok s) (Hd : data s = A ++ code_of a)
  (Hf : frag (capture_count s) a).
Notation las := (zlen A).
Notation n := (zlen (code_of a)).

Lemma quant_size d s' : becomes s s' (A ++ d) -> zlen A + zlen d < 2 ^ 31.
Proof. intros [B1 B2 _]. pose proof (st_size s' B1) as [E1 E2]. rewrite B2, zlen_app in E1. lia. Qed.

Lemma pwp_simple_quant mn mx k : simple_code a = Some k -> 0 < k ->
  pwp (emit_simple_quant las mn mx k) s (fun _ => replaced A s).
Proof.
  intros Hk Hk0. pose proof (zlen_nonneg A). pose proof (zlen_nonneg (code_of a)).
  unfold emit_simple_quant. edit. apply pwp_op; [done|]. intros s1 [Hs1 Hd1 Hc1].
  rewrite Hd in Hd1. cbn [encode] in Hd1.
  edit. apply (pwp_code_insert s1 A (code_of a ++ [reop REOP_match])); [done|by rewrite Hd1, app_assoc|done|done|].
  intros s2 g [Hs2 Hd2 Hc2] Hg.
  destruct (gap_cons g 16 Hg) as (x & g' & -> & Hg'); [lia|].
  destruct (gap_split g' 4 12 Hg') as (g1 & g5 & -> & Hg1 & Hg5); [lia..|].
  destruct (gap_split g5 4 8 Hg5) as (g2 & g6 & -> & Hg2 & Hg6); [lia..|].
  destruct (gap_split g6 4 4 Hg6) as (g3 & g4 & -> & Hg3 & Hg4); [lia..|].
  rewrite <- !app_comm_cons, <- !app_assoc in Hd2.
  edit. eapply pwp_set_at; [done|exact Hd2|reflexivity|done|]. intros s3 [Hs3 Hd3 Hc3].
  edit. apply pwp_code_size; [done|].
  edit. eapply (pwp_u32_at s3 _ g1); [done|exact Hd3|done|done|by sizes|]. intros s4 [Hs4 Hd4 Hc4].
  edit. eapply (pwp_u32_at s4 _ g2); [done|exact Hd4|done|done|by sizes; lia|]. intros s5 [Hs5 Hd5 Hc5].
  edit. eapply (pwp_u32_at s5 _ g3); [done|exact Hd5|done|done|by sizes; lia|]. intros s6 [Hs6 Hd6 Hc6].
  eapply (pwp_u32_at s6 _ g4); [done|exact Hd6|done|done|by sizes; lia|]. intros s7 [Hs7 Hd7 Hc7].
  exists ([IGreedy (n + 1) (u32 mn) (u32 mx) k] ++ a ++ [IOp REOP_match]).
  assert (zlen (data s3) - las - 17 = n + 1) as Hoff by (rewrite Hd3; sizes; lia).
  rewrite Hoff in Hd7.
  assert (becomes s s7 (A ++ code_of ([IGreedy (n + 1) (u32 mn) (u32 mx) k] ++ a ++ [IOp REOP_match]))) as Hb.
  { split; [done| |congruence]. rewrite Hd7, !code_of_app, !code_of_one. cbn [encode]. rewrite !le_bytes_u32, u8_reop.
    rewrite <- !app_assoc. cbn [app]. by rewrite <- ?app_assoc. }
  split; [done|]. pose proof (quant_size _ _ Hb) as Hsz. rewrite !code_of_app, !code_of_one in Hsz.
  sizes_in Hsz. cbn [encode] in Hsz. sizes_in Hsz. pose proof (simple_code_le a k Hk). pose proof (u32_range mn). pose proof (u32_range mx).
  apply frag_greedy; try done; unfold is_u32, fits; lia.
Qed.

Lemma split_op (greedy : bool) :
  reop REOP_split_goto_first + b2z greedy = reop (if greedy then REOP_split_next_first else REOP_split_goto_first).
Proof. by destruct greedy. Qed.
Lemma split_op' (greedy : bool) :
  reop REOP_split_next_first - b2z greedy = reop (if greedy then REOP_split_goto_first else REOP_split_next_first).
Proof. by destruct greedy. Qed.
Lemma split_is_split (b : bool) op op' : is_split op = true -> is_split op' = true -> is_split (if b then op else op') = true.
Proof. by destruct b. Qed.

(** The end of a construction: the bytes are those of [p], which is a
    fragment if they fit. *)
Lemma finish p d s' : becomes s s' d -> d = A ++ code_of p ->
  (zlen A + zlen (code_of p) < 2 ^ 31 -> frag (capture_count s) p) -> replaced A s s'.
Proof. intros Hb -> Hp. exists p. split; [done|]. apply Hp. by apply (quant_size _ s'). Qed.

Ltac fit H := rewrite ?code_of_app, ?code_of_cons, ?code_of_one in H; sizes_in H; cbn [encode] in H; sizes_in H;
  pose proof (zlen_nonneg A); pose proof (zlen_nonneg (code_of a)).
Ltac fits_now := let Hz := fresh "Hz" in intros Hz; fit Hz; first [done|unfold fits; lia|by apply split_is_split|idtac].

Lemma quant_zero_tail_ok mx greedy check :
  pwp (emit_quant_zero_tail las mx n greedy check) s (fun _ => replaced A s).
Proof.
  pose proof (zlen_nonneg A). pose proof (zlen_nonneg (code_of a)).
  unfold emit_quant_zero_tail. rewrite split_op. set (op := if greedy then _ else _).
  assert (is_split op = true) as Hop by (by apply split_is_split).
  destruct (mx =? 0).
  { apply (pwp_truncate s A (code_of a)); [done..|]. intros s1 Hb. apply (finish [] A); [done|by rewrite app_nil_r|].
    intros _. apply frag_nil. }
  destruct (mx =? 1).
  { edit. apply (pwp_code_insert s A (code_of a)); [done..|]. intros s2 g [Hs2 Hd2 Hc2] Hg.
    destruct (gap_cons g 4 Hg) as (x & g1 & -> & Hg1); [lia|]. rewrite <- !app_comm_cons in Hd2.
    edit. eapply pwp_set_at; [done|exact Hd2|reflexivity|done|]. intros s3 [Hs3 Hd3 Hc3].
    eapply (pwp_u32_at s3 _ g1); [done|exact Hd3|done|done|by sizes|]. intros s4 [Hs4 Hd4 Hc4].
    eapply (finish ([IJump op n] ++ a)); [split; [exact Hs4|exact Hd4|congruence]|by norm_code|].
    fits_now. apply frag_opt; [done..|]. unfold fits. lia. }
  destruct (mx =? INT32_MAX).
  { destruct check; cbn [b2z].
    - edit. apply (pwp_code_insert s A (code_of a)); [done..|]. intros s2 g [Hs2 Hd2 Hc2] Hg.
      destruct (gap_cons g 5 Hg) as (x & g' & -> & Hg'); [lia|].
      destruct (gap_split g' 4 1 Hg') as (g1 & g2 & -> & Hg1 & Hg2); [lia..|].
      destruct (gap_cons g2 0 Hg2) as (y & g3 & -> & Hg3); [lia|]. apply gap_nil in Hg3 as ->.
      rewrite <- !app_comm_cons, <- !app_assoc, <- !app_comm_cons in Hd2.
      edit. eapply pwp_set_at; [done|exact Hd2|reflexivity|done|]. intros s3 [Hs3 Hd3 Hc3].
      edit. eapply (pwp_u32_at s3 _ g1); [done|exact Hd3|done|done|by sizes|]. intros s4 [Hs4 Hd4 Hc4].
      edit. eapply pwp_set_at; [done|exact Hd4|reflexivity|by sizes; lia|]. intros s5 [Hs5 Hd5 Hc5].
      edit. apply (pwp_goto s5 REOP_bne_char_pos las (- (n + 11))); [done|rewrite Hd5; sizes; lia|].
      intros pos s6 [Hs6 Hd6 Hc6]. apply pwp_ret. rewrite Hd5 in Hd6.
      eapply (finish ([IJump op (n + 6); IOp REOP_push_char_pos] ++ a ++ [IJump REOP_bne_char_pos (- (n + 11))]));
        [split; [exact Hs6|exact Hd6|congruence]| |].
      + replace (n + 5 + 1) with (n + 6) by lia. change [IJump op (n + 6); IOp REOP_push_char_pos] with ([IJump op (n + 6)] ++ [IOp REOP_push_char_pos]).
        by norm_code.
      + fits_now. apply frag_star_check; [done..|]. unfold fits. lia.
    - edit. apply (pwp_code_insert s A (code_of a)); [done..|]. intros s2 g [Hs2 Hd2 Hc2] Hg.
      destruct (gap_cons g 4 Hg) as (x & g1 & -> & Hg1); [lia|]. rewrite <- !app_comm_cons in Hd2.
      edit. eapply pwp_set_at; [done|exact Hd2|reflexivity|done|]. intros s3 [Hs3 Hd3 Hc3].
      edit. eapply (pwp_u32_at s3 _ g1); [done|exact Hd3|done|done|by sizes|]. intros s4 [Hs4 Hd4 Hc4].
      edit. apply (pwp_goto s4 REOP_goto las (- (n + 10))); [done|rewrite Hd4; sizes; lia|].
      intros pos s6 [Hs6 Hd6 Hc6]. apply pwp_ret. rewrite Hd4 in Hd6.
      eapply (finish ([IJump op (n + 5)] ++ a ++ [IJump REOP_goto (- (n + 10))]));
        [split; [exact Hs6|exact Hd6|congruence]| |].
      + replace (n + 5 + 0) with (n + 5) by lia. by norm_code.
      + fits_now. apply frag_star; [done..|]. unfold fits. lia. }
  edit. apply (pwp_code_insert s A (code_of a)); [done..|]. intros s2 g [Hs2 Hd2 Hc2] Hg.
  destruct (gap_cons g 9 Hg) as (x & g' & -> & Hg'); [lia|].
  destruct (gap_split g' 4 5 Hg') as (g1 & g2 & -> & Hg1 & Hg2); [lia..|].
  destruct (gap_cons g2 4 Hg2) as (y & g3 & -> & Hg3); [lia|].
  rewrite <- !app_comm_cons, <- !app_assoc, <- !app_comm_cons in Hd2.
  edit. eapply pwp_set_at; [done|exact Hd2|reflexivity|done|]. intros s3 [Hs3 Hd3 Hc3].
  edit. eapply (pwp_u32_at s3 _ g1); [done|exact Hd3|done|done|by sizes|]. intros s4 [Hs4 Hd4 Hc4].
  edit. eapply pwp_set_at; [done|exact Hd4|reflexivity|by sizes; lia|]. intros s5 [Hs5 Hd5 Hc5].
  edit. eapply (pwp_u32_at s5 _ g3); [done|exact Hd5|done|done|by sizes; lia|]. intros s6 [Hs6 Hd6 Hc6].
  edit. apply (pwp_goto s6 REOP_loop (las + 5) (- (n + 10))); [done|rewrite Hd6; sizes; lia|]. intros pos s7 [Hs7 Hd7 Hc7].
  apply pwp_op; [done|]. intros s8 [Hs8 Hd8 Hc8]. rewrite Hd7, Hd6 in Hd8.
  eapply (finish ([IPush (u32 mx); IJump op (n + 5)] ++ a ++ [IJump REOP_loop (- (n + 10)); IOp REOP_drop]));
    [split; [exact Hs8|exact Hd8|congruence]| |].
  - change [IPush (u32 mx); IJump op (n + 5)] with ([IPush (u32 mx)] ++ [IJump op (n + 5)]).
    change [IJump REOP_loop (- (n + 10)); IOp REOP_drop] with ([IJump REOP_loop (- (n + 10))] ++ [IOp REOP_drop]). by norm_code.
  - fits_now. pose proof (u32_range mx). apply frag_loop_max; [done..| |]; unfold is_u32, fits; lia.
Qed.

(** The atom again at [zlen B], after which [A ++ code_of p] grows. *)
Lemma quant_pos_tail_ok s1 p B C mn mx greedy check : st_ok s1 -> data s1 = A ++ code_of p ->
  data s1 = B ++ code_of a ++ C -> frag (capture_count s) p -> capture_count s1 = capture_count s ->
  pwp (emit_quant_pos_tail (zlen B) mn mx n greedy check) s1 (fun _ => replaced A s).
Proof.
  intros Hs1 Hd1 HB Hp Hc1. pose proof (zlen_nonneg A). pose proof (zlen_nonneg (code_of a)). pose proof (zlen_nonneg B).
  pose proof (zlen_nonneg C).
  unfold emit_quant_pos_tail. rewrite split_op. set (op := if greedy then _ else _). cbv zeta.
  assert (is_split op = true) as Hop by (by apply split_is_split).
  pose proof (st_size s1 Hs1) as [Hz1 _].
  assert (Hcopy : forall s2 (Q : () -> REParseState -> Prop) d, st_ok s2 -> data s2 = data s1 ++ d ->
    (forall s3, appended s2 s3 (code_of a) -> Q () s3) -> pwp (copy_atom (zlen B) n) s2 Q).
  { intros s2 Q d Hs2 Hd2 HQ. unfold copy_atom. apply pwp_bind; [keeps_auto|]. pose proof (st_size s2 Hs2) as [Hz2 _].
    apply pwp_put_self; [done|lia|lia| |].
    - rewrite <- Hz2, Hd2, HB. sizes. pose proof (zlen_nonneg d). lia.
    - intros s3 Ha. apply pwp_ret, HQ. rewrite Hd2, HB, <- !app_assoc in Ha.
      replace (Z.to_nat (zlen B)) with (length B) in Ha by (unfold zlen; lia).
      replace (Z.to_nat n) with (length (code_of a)) in Ha by (unfold zlen; lia).
      by rewrite drop_app_length, take_app_length in Ha. }
  assert (Hdone : forall s2 q, st_ok s2 -> data s2 = data s1 ++ code_of q -> capture_count s2 = capture_count s1 ->
    (zlen (code_of q) < 2 ^ 31 -> frag (capture_count s) q) -> replaced A s s2).
  { intros s2 q Hs2 Hd2 Hc2 Hq. exists (p ++ q). split.
    - split; [done| |congruence]. by rewrite Hd2, Hd1, code_of_app, app_assoc.
    - apply frag_app; [done|]. apply Hq. pose proof (st_size s2 Hs2) as [Hz2 Hb2]. rewrite Hd2, zlen_app in Hz2.
      pose proof (zlen_nonneg (data s1)). lia. }
  destruct (mx =? INT32_MAX).
  { edit. apply pwp_code_size; [done|]. edit. apply pwp_op_u32; [done|]. intros s2 [Hs2 Hd2 Hc2].
    destruct check; cbn [b2z] in Hd2 |- *.
    - edit. apply pwp_op; [done|]. intros s3 [Hs3 Hd3 Hc3]. rewrite Hd2, <- app_assoc in Hd3.
      edit. eapply Hcopy; [done|exact Hd3|]. intros s4 [Hs4 Hd4 Hc4]. rewrite Hd3, <- app_assoc in Hd4.
      edit. apply (pwp_goto s4 REOP_bne_char_pos _ (- (n + 11))); [done|rewrite Hd4; cbn [encode]; sizes; lia|].
      intros pos s5 [Hs5 Hd5 Hc5]. apply pwp_ret. rewrite Hd4, <- app_assoc in Hd5.
      eapply (Hdone s5 ([IJump op (n + 6); IOp REOP_push_char_pos] ++ a ++ [IJump REOP_bne_char_pos (- (n + 11))]));
        [done| |congruence|].
      + rewrite Hd5. f_equal. replace (n + 5 + 1) with (n + 6) by lia.
        change [IJump op (n + 6); IOp REOP_push_char_pos] with ([IJump op (n + 6)] ++ [IOp REOP_push_char_pos]). by norm_code.
      + fits_now. apply frag_star_check; [done..|]. unfold fits. lia.
    - edit. apply pwp_ret. edit. eapply Hcopy; [done|exact Hd2|]. intros s4 [Hs4 Hd4 Hc4]. rewrite Hd2, <- app_assoc in Hd4.
      edit. apply (pwp_goto s4 REOP_goto _ (- (n + 10))); [done|rewrite Hd4; sizes; lia|].
      intros pos s5 [Hs5 Hd5 Hc5]. apply pwp_ret. rewrite Hd4, <- app_assoc in Hd5.
      eapply (Hdone s5 ([IJump op (n + 5)] ++ a ++ [IJump REOP_goto (- (n + 10))])); [done| |congruence|].
      + rewrite Hd5. f_equal. replace (n + 5 + 0) with (n + 5) by lia. by norm_code.
      + fits_now. apply frag_star; [done..|]. unfold fits. lia. }
  destruct (mn <? mx).
  2:{ apply pwp_ret. apply (Hdone s1 []); [done|by rewrite app_nil_r|done|]. intros _. apply frag_nil. }
  edit. apply pwp_op_u32; [done|]. intros s2 [Hs2 Hd2 Hc2]. edit. apply pwp_code_size; [done|].
  edit. apply pwp_op_u32; [done|]. intros s3 [Hs3 Hd3 Hc3]. rewrite Hd2, <- app_assoc in Hd3.
  edit. eapply Hcopy; [done|exact Hd3|]. intros s4 [Hs4 Hd4 Hc4]. rewrite Hd3, <- app_assoc in Hd4.
  edit. apply (pwp_goto s4 REOP_loop _ (- (n + 10))); [done|rewrite Hd4, Hd2; sizes; lia|].
  intros pos s5 [Hs5 Hd5 Hc5]. rewrite Hd4, <- app_assoc in Hd5.
  apply pwp_op; [done|]. intros s6 [Hs6 Hd6 Hc6]. rewrite Hd5, <- app_assoc in Hd6.
  eapply (Hdone s6 ([IPush (u32 (mx - mn)); IJump op (n + 5)] ++ a ++ [IJump REOP_loop (- (n + 10)); IOp REOP_drop]));
    [done| |congruence|].
  - rewrite Hd6. f_equal.
    change [IPush (u32 (mx - mn)); IJump op (n + 5)] with ([IPush (u32 (mx - mn))] ++ [IJump op (n + 5)]).
    change [IJump REOP_loop (- (n + 10)); IOp REOP_drop] with ([IJump REOP_loop (- (n + 10))] ++ [IOp REOP_drop]). by norm_code.
  - fits_now. pose proof (u32_range (mx - mn)). apply frag_loop_max; [done..| |]; unfold is_u32, fits; lia.
Qed.

Lemma sticky_quant_pos_tail x mn mx len greedy check : sticky (emit_quant_pos_tail x mn mx len greedy check).
Proof. unfold emit_quant_pos_tail. keeps_auto. Qed.
Lemma sticky_quant_zero_tail x mx len greedy check : sticky (emit_quant_zero_tail x mx len greedy check).
Proof. unfold emit_quant_zero_tail. keeps_auto. Qed.
#[local] Hint Resolve sticky_quant_pos_tail sticky_quant_zero_tail : keeps.

Lemma quant_pos_ok mn mx greedy check : pwp (emit_quant_pos las mn mx n greedy check) s (fun _ => replaced A s).
Proof.
  pose proof (zlen_nonneg A). pose proof (zlen_nonneg (code_of a)). unfold emit_quant_pos.
  destruct ((mn =? 1) && (mx =? INT32_MAX) && negb check).
  { rewrite split_op'. set (op := if greedy then _ else _). assert (is_split op = true) as Hop by (by apply split_is_split).
    edit. apply (pwp_goto s op las (- (n + 5))); [done|rewrite Hd; sizes; lia|]. intros pos s1 [Hs1 Hd1 Hc1]. apply pwp_ret.
    rewrite Hd, <- app_assoc in Hd1.
    eapply (finish (a ++ [IJump op (- (n + 5))])); [split; [exact Hs1|exact Hd1|congruence]|by norm_code|].
    fits_now. apply frag_plus; [done..|]. unfold fits. lia. }
  edit. destruct (mn =? 1).
  { apply pwp_ret. by apply (quant_pos_tail_ok s a A []); rewrite ?app_nil_r. }
  edit. apply (pwp_code_insert s A (code_of a)); [done..|]. intros s2 g [Hs2 Hd2 Hc2] Hg.
  destruct (gap_cons g 4 Hg) as (x & g1 & -> & Hg1); [lia|]. rewrite <- !app_comm_cons in Hd2.
  edit. eapply pwp_set_at; [done|exact Hd2|reflexivity|done|]. intros s3 [Hs3 Hd3 Hc3].
  edit. eapply (pwp_u32_at s3 _ g1); [done|exact Hd3|done|done|by sizes|]. intros s4 [Hs4 Hd4 Hc4].
  edit. apply (pwp_goto s4 REOP_loop (las + 5) (- (n + 5))); [done|rewrite Hd4; sizes; lia|]. intros pos s5 [Hs5 Hd5 Hc5].
  edit. apply pwp_op; [done|]. intros s6 [Hs6 Hd6 Hc6]. apply pwp_ret. rewrite Hd5, Hd4 in Hd6.
  set (p1 := [IPush (u32 mn)] ++ a ++ [IJump REOP_loop (- (n + 5)); IOp REOP_drop]).
  assert (code_of p1 = (reop REOP_push_i32 :: Bits.le_bytes 4 mn) ++ code_of a ++ encode (IJump REOP_loop (- (n + 5))) ++ [reop REOP_drop]) as Hp1.
  { subst p1. change [IJump REOP_loop (- (n + 5)); IOp REOP_drop] with ([IJump REOP_loop (- (n + 5))] ++ [IOp REOP_drop]). by norm_code. }
  assert (data s6 = A ++ code_of p1) as Hda.
  { rewrite Hd6, Hp1, u8_reop. by rewrite <- !app_assoc. }
  replace (las + 5) with (zlen (A ++ (reop REOP_push_i32 :: Bits.le_bytes 4 mn))) by (sizes; lia).
  eapply (quant_pos_tail_ok s6 p1); [done|exact Hda|by rewrite Hda, Hp1, <- app_assoc| |congruence].
  pose proof (st_size s6 Hs6) as [E1 E2]. rewrite Hda, zlen_app, Hp1 in E1. sizes_in E1. cbn [encode] in E1. sizes_in E1.
  pose proof (u32_range mn). apply frag_loop_min; [done|unfold is_u32; lia|]. unfold fits. lia.
Qed.
End Quant.

Lemma sticky_quant_zero x lcc mx len greedy check : sticky (emit_quant_zero x lcc mx len greedy check).
Proof. unfold emit_quant_zero. keeps_auto. all: apply sticky_quant_zero_tail. Qed.
Lemma sticky_quant_pos x mn mx len greedy check : sticky (emit_quant_pos x mn mx len greedy check).
Proof. unfold emit_quant_pos. keeps_auto. all: apply sticky_quant_pos_tail. Qed.
Lemma sticky_simple_quant x mn mx len : sticky (emit_simple_quant x mn mx len).
Proof. unfold emit_simple_quant. keeps_auto. Qed.
#[local] Hint Resolve sticky_quant_zero sticky_quant_pos sticky_simple_quant sticky_quant_zero_tail sticky_quant_pos_tail : keeps.

Section Quantifier.
Context (A : list Z) (a : list instr) (s : REParseState) (Hs : st_ok s) (Hd : data s = A ++ code_of a)
  (Hf : frag (capture_count s) a).
Notation las := (zlen A).
Notation n := (zlen (code_of a)).

Lemma quant_zero_ok lcc mx greedy check : 0 <= lcc <= capture_count s ->
  pwp (emit_quant_zero las lcc mx n greedy check) s (fun _ => replaced A s).
Proof.
  intros Hlcc. pose proof (zlen_nonneg A). pose proof (st_count s Hs) as Hcs.
  unfold emit_quant_zero. edit. apply pwp_get. edit. destruct (Z.eqb_spec lcc (capture_count s)) as [->|Hne]; cbn [negb].
  { apply pwp_ret. by apply quant_zero_tail_ok. }
  edit. apply (pwp_code_insert s A (code_of a)); [done..|]. intros s2 g [Hs2 Hd2 Hc2] Hg.
  destruct (gap_cons g 2 Hg) as (x & g1 & -> & Hg1); [lia|]. destruct (gap_cons g1 1 Hg1) as (y & g2 & -> & Hg2); [lia|].
  destruct (gap_cons g2 0 Hg2) as (z & g3 & -> & Hg3); [lia|]. apply gap_nil in Hg3 as ->. cbn [app] in Hd2.
  edit. eapply pwp_set_at; [done|exact Hd2|reflexivity|done|]. intros s3 [Hs3 Hd3 Hc3].
  edit. eapply pwp_set_at; [done|exact Hd3|reflexivity|by sizes|]. intros s4 [Hs4 Hd4 Hc4].
  edit. eapply pwp_set_at; [done|exact Hd4|reflexivity|by sizes; lia|]. intros s5 [Hs5 Hd5 Hc5]. apply pwp_ret.
  set (i := IReset (u8 lcc) (u8 (capture_count s - 1))).
  assert (data s5 = (A ++ code_of [i]) ++ code_of a) as Hda.
  { rewrite Hd5, code_of_one. cbn [encode i]. rewrite u8_reop, <- !app_assoc. done. }
  replace (las + 3) with (zlen (A ++ code_of [i])) by (rewrite code_of_one; cbn [encode i]; sizes; lia).
  eapply pwp_mono; [apply (quant_zero_tail_ok (A ++ code_of [i]) a s5); [done|done|]|].
  { replace (capture_count s5) with (capture_count s) by congruence. done. }
  intros _ s6 (p & [B1 B2 B3] & Hp). exists (i :: p). replace (capture_count s5) with (capture_count s) in * by congruence.
  split; [split; [done| |congruence]|].
  - change (i :: p) with ([i] ++ p). by rewrite B2, code_of_app, app_assoc.
  - apply (frag_app _ [i] p); [|done]. apply frag_one; try done. cbn [wf_instr i].
    rewrite !u8_small by lia. unfold byte. lia.
Qed.

End Quantifier.

Lemma replaced_same A s s1 s' : same_code s s1 -> replaced A s1 s' -> replaced A s s'.
Proof. intros [E1 E2] (p & [B1 B2 B3] & Hp). exists p. split; [split; [done..|congruence]|by rewrite <- E2]. Qed.

Lemma emit_quantifier_ok A a s lcc mn mx greedy : st_ok s -> data s = A ++ code_of a -> frag (capture_count s) a ->
  0 <= lcc <= capture_count s -> pwp (emit_quantifier (zlen A) lcc mn mx greedy) s (fun _ => replaced A s).
Proof.
  intros Hs Hd Hf Hlcc. unfold emit_quantifier, re_parse_out_of_memory. edit. apply pwp_get. cbv zeta. pose proof (st_size s Hs) as [Hsz _].
  replace (size (byte_code s) - zlen A) with (zlen (code_of a)) by (rewrite <- Hsz, Hd; sizes; lia).
  pose (general := fun check : bool => if mn =? 0 then emit_quant_zero (zlen A) lcc mx (zlen (code_of a)) greedy check
    else emit_quant_pos (zlen A) mn mx (zlen (code_of a)) greedy check).
  assert (Hgen : forall check s1, same_code s s1 -> pwp (general check) s1 (fun _ => replaced A s)).
  { intros check s1 He. pose proof He as [E1 E2]. assert (data s1 = A ++ code_of a) as Hd1 by (by rewrite E1).
    assert (frag (capture_count s1) a) as Hf1 by (by rewrite E2).
    apply (pwp_mono _ _ (fun _ => replaced A s1)); [|intros _ s'; by apply replaced_same].
    pose proof (st_same _ _ He Hs). subst general. cbv beta.
    destruct (mn =? 0); [by apply quant_zero_ok; rewrite ?E2|by apply quant_pos_ok]. }
  assert (Hgs : forall check, sticky (general check)).
  { intros check. subst general. cbv beta. keeps_auto. }
  destruct greedy; [|by apply (Hgen false)].
  assert (buf (byte_code s) = A ++ code_of a ++ drop (Z.to_nat (size (byte_code s))) (buf (byte_code s))) as Hbuf.
  { rewrite <- (take_drop (Z.to_nat (size (byte_code s))) (buf (byte_code s))) at 1.
    unfold dbuf_data in Hd. by rewrite Hd, <- app_assoc. }
  apply pwp_bind; [keeps_auto|].
  apply (pwp_framed _ (fun len => 0 < len -> simple_code a = Some len)).
  { keeps_auto. }
  { destruct (0 <? mx); [|by apply returns_ret]. destruct (dbuf_error _); [apply returns_error|].
    apply returns_lift, post_intro. intros r Hr. rewrite Hbuf in Hr. eapply simple_scan; [apply Hf|exact Hr]. }
  intros len s1 He Hlen. destruct (Z.ltb_spec 0 len) as [Hpos|Hneg].
  - pose proof He as [E1 E2]. apply (pwp_mono _ _ (fun _ => replaced A s1)); [|intros _ s'; by apply replaced_same].
    apply (pwp_simple_quant A a s1); [by apply (st_same s)|by rewrite E1|by rewrite E2|by apply Hlen|done].
  - destruct (dbuf_error _); [apply pwp_error|]. apply pwp_bind; [intros r; apply (Hgs (r =? 0))|]. apply pwp_frame; [keeps_auto|].
    intros r s2 He2. apply (Hgen (r =? 0)). by etransitivity.
Qed.

Lemma sticky_quantifier x lcc mn mx greedy : sticky (emit_quantifier x lcc mn mx greedy).
Proof. unfold emit_quantifier, re_parse_out_of_memory. keeps_auto. Qed.

End Quantifiers.

#[export] Hint Resolve sticky_quantifier sticky_insert : keeps.
