(* ===== verification/RegexpVerified.v ===== *)
(** * Regular expressions: terms, alternatives and disjunctions

    The parser of a disjunction appends one fragment, whatever the nesting of
    the groups; with it [lre_compile] returns verified code, which the matcher
    runs without a memory error. *)

From S2P Require Import Prelude Cutils DynBuf Utf8 CharRange UnicodeLookup RegexpOp RegexpExec RegexpParse RegexpCompile RegexpCode RegexpFrag RegexpText RegexpSafe RegexpLogic RegexpRange RegexpEmit RegexpScan RegexpGen RegexpQuant.
#[local] Open Scope parser_scope.
#[local] Ltac Zify.zify_post_hook ::= Z.to_euclidean_division_equations.

Section Disjunctions.
Context `{SmallAllocator}.

(** ** Right-to-left alternatives *)

Lemma wr_range_mid {X} (a g c e : list X) : zlen g = zlen e -> wr_range (a ++ g ++ c) (zlen a) e = Ret (a ++ e ++ c).
Proof.
  intros Hg. pose proof (zlen_nonneg a). pose proof (zlen_nonneg c).
  rewrite wr_range_ok by (rewrite ?zlen_app; lia). f_equal.
  replace (Z.to_nat (zlen a)) with (length a) by (unfold zlen; lia). rewrite take_app_length.
  replace (Z.to_nat (zlen a + zlen e)) with (length a + length g)%nat by (unfold zlen in *; lia).
  by rewrite <- drop_drop, !drop_app_length.
Qed.

(** The last [length t] cells of [P ++ x ++ t] are moved before [x]. *)
Lemma move_to_front (P x t rest : list Z) : zlen t <= zlen rest ->
  exists rest', zlen rest' = zlen rest /\
  (code ← rd_range (P ++ x ++ t ++ rest) (zlen P) (zlen x + zlen t);
   m ← wr_range (P ++ x ++ t ++ rest) (zlen P + zlen t) code;
   last ← rd_range m (zlen P + zlen x + zlen t) (zlen t);
   m' ← wr_range m (zlen P) last; Ret ((), m')) = Ret ((), P ++ t ++ x ++ rest').
Proof.
  intros Hrest. pose proof (zlen_nonneg x). pose proof (zlen_nonneg t). pose proof (zlen_nonneg P).
  set (tail := x ++ t ++ rest). assert (zlen tail = zlen x + zlen t + zlen rest) as Htail by (subst tail; rewrite !zlen_app; lia).
  destruct (gap_split tail (zlen t) (zlen x + zlen rest)) as (z1 & z2 & Ez & Hz1 & Hz2); [lia|lia|pose proof (zlen_nonneg rest); lia|].
  destruct (gap_split z2 (zlen x + zlen t) (zlen rest - zlen t)) as (w & r' & Ew & Hw & Hr'); [lia..|].
  assert (rd_range (P ++ tail) (zlen P) (zlen x + zlen t) = Ret (x ++ t)) as ->.
  { subst tail. rewrite (app_assoc x t). apply rd_range_mid; [done|by rewrite zlen_app]. }
  cbn [mbind outcome_bind]. rewrite Ez, Ew, (app_assoc P z1).
  replace (zlen P + zlen t) with (zlen (P ++ z1)) by (rewrite zlen_app; lia).
  rewrite (wr_range_mid (P ++ z1) w r' (x ++ t)) by (rewrite zlen_app; lia). cbn [mbind outcome_bind].
  assert (rd_range ((P ++ z1) ++ (x ++ t) ++ r') (zlen P + zlen x + zlen t) (zlen t) = Ret t) as ->.
  { rewrite <- (app_assoc x), (app_assoc _ x). apply rd_range_mid; [rewrite !zlen_app; lia|done]. }
  cbn [mbind outcome_bind]. rewrite <- (app_assoc P), (wr_range_mid P z1 _ t) by lia. cbn [mbind outcome_bind].
  exists (t ++ r'). split; [rewrite zlen_app; lia|]. by rewrite <- !app_assoc.
Qed.

(** The moves of [reverse_term] on the buffer. *)
Definition move_block (start term_start end_ : Z) (b : DynBuf) : outcome (() * DynBuf) :=
  code ← rd_range (buf b) start (end_ - start);
  m ← wr_range (buf b) (start + (end_ - term_start)) code;
  last ← rd_range m end_ (end_ - term_start);
  m ← wr_range m start last;
  Ret ((), set_buf b m).

Lemma move_block_sticky start term_start end_ : buf_sticky (move_block start term_start end_).
Proof.
  intros b r b' E He. unfold move_block in E. destruct (rd_range _ _ _); [|done]. cbn in E.
  destruct (wr_range _ _ _); [|done]. cbn in E. destruct (rd_range _ _ _); [|done]. cbn in E.
  destruct (wr_range _ _ _); [|done]. by injection E as _ <-.
Qed.

Lemma sticky_realloc m : sticky (on_code (fun b => dbuf_realloc b m)).
Proof. apply sticky_on_code, dbuf_realloc_sticky. Qed.
Lemma sticky_move start term_start end_ : sticky (on_code (move_block start term_start end_)).
Proof. apply sticky_on_code, move_block_sticky. Qed.
#[local] Hint Resolve sticky_realloc sticky_move : keeps.

Lemma reverse_term_eq start term_start : reverse_term start term_start =
  let* s := pget in
  let* r := on_code (fun b => dbuf_realloc b (size (byte_code s) + (size (byte_code s) - term_start))) in
  if negb (r =? 0) then pfail else on_code (move_block start term_start (size (byte_code s))).
Proof. done. Qed.

Lemma sticky_reverse start term_start : sticky (reverse_term start term_start).
Proof. rewrite reverse_term_eq. keeps_auto. Qed.
#[local] Hint Resolve sticky_reverse : keeps.

Lemma pwp_realloc s m (Q : Z -> REParseState -> Prop) : st_ok s -> 0 <= m ->
  (forall r s', r = 0 -> becomes s s' (data s) -> m <= allocated_size (byte_code s') -> Q r s') ->
  (forall r s', r <> 0 -> Q r s') ->
  pwp (on_code (fun b => dbuf_realloc b m)) s Q.
Proof.
  intros [Hwf Hsm Hcc] Hm HQ HQ' r s' E He. apply on_code_inv in E as (b & E & ->).
  pose proof (dbuf_realloc_spec _ m Hwf Hm) as Hsp. rewrite E in Hsp.
  destruct Hsp as [(Hwf' & Hd & _) [(-> & Hroom & _)|(-> & _)]]; [|by apply HQ'].
  apply HQ; [done| |done]. split; [split; [done| |done]|done|done]. exact (realloc_small _ _ _ _ E Hsm).
Qed.

Lemma pwp_reverse s P x t (Q : () -> REParseState -> Prop) : st_ok s -> data s = P ++ x ++ t ->
  (forall s', becomes s s' (P ++ t ++ x) -> Q () s') -> pwp (reverse_term (zlen P) (zlen P + zlen x)) s Q.
Proof.
  intros Hs Hd HQ. rewrite reverse_term_eq. pose proof (st_size s Hs) as [Hsz _].
  rewrite Hd in Hsz. sizes_in Hsz. pose proof (zlen_nonneg P). pose proof (zlen_nonneg x). pose proof (zlen_nonneg t).
  edit. apply pwp_get. edit. apply pwp_realloc; [done|lia| |].
  2:{ intros r s' Hr. destruct (Z.eqb_spec r 0); [done|]. apply pwp_fail. }
  intros r s' -> Hb Hroom. cbn [negb Z.eqb]. intros [] s2 E _. apply on_code_inv in E as (b & E & ->).
  apply HQ. destruct Hb as [[Hwf Hsm Hcc] Hdat Hcnt].
  destruct (dbuf_split _ _ Hwf Hdat) as (rest & Hbuf & Hrest). rewrite Hd, <- !app_assoc in Hbuf.
  replace (size (byte_code s)) with (zlen P + zlen x + zlen t) in * by lia.
  rewrite Hd in Hrest. sizes_in Hrest.
  destruct (move_to_front P x t rest) as (rest' & Hr' & Hmv); [lia|].
  assert (b = set_buf (byte_code s') (P ++ t ++ x ++ rest')) as ->.
  { unfold move_block in E. rewrite Hbuf in E.
    replace (zlen P + zlen x + zlen t - zlen P) with (zlen x + zlen t) in E by lia.
    replace (zlen P + zlen x + zlen t - (zlen P + zlen x)) with (zlen t) in E by lia. revert E Hmv.
    do 2 (destruct (rd_range _ _ _) as [?|]; [|done]; cbn [mbind outcome_bind]; destruct (wr_range _ _ _) as [?|]; [|done]; cbn [mbind outcome_bind]).
    by intros [= <-] [= ->]. }
  pose proof (zlen_data _ Hwf) as Hz. rewrite Hdat, Hd in Hz. sizes_in Hz.
  assert (P ++ t ++ x ++ rest' = (P ++ t ++ x) ++ rest') as -> by (by rewrite <- !app_assoc).
  destruct (dbuf_join (byte_code s') (P ++ t ++ x) rest' Hwf) as [Hw' Hd']; [sizes; lia..|].
  by split; [split|..].
Qed.

(** ** Terms *)

Section Terms.
Context (D : bool -> parser ()) (HD : forall b, sticky (D b)) (HDe : forall b, emitting (D b)).
#[local] Hint Resolve HD : keeps.

Lemma sticky_term back : sticky (re_parse_term D back).
Proof. unfold re_parse_term. keeps_auto. Qed.

Lemma emitting_term back : emitting (re_parse_term D back).
Proof.
  intros s Hs. unfold re_parse_term. edit. eapply pwp_mono; [by apply atom_atom|].
  intros [[p las] lcc] s1 (a & Ha & Hlas). cbn in Hlas. edit.
  assert (Hend : forall q s2 c, emits s s2 c -> pwp (pmod (fun s => set_buf_ptr s q)) s2 (fun _ s' => exists p, emits s s' p)).
  { intros q s2 c Hc. apply pwp_mod. exists c. by apply (emits_then_same s s2). }
  destruct (Z.leb_spec 0 las) as [Hge|]; [|by apply pwp_ret; apply (Hend p s1 a)].
  destruct Hlas as [|[-> ->]]; [lia|]. edit. apply pwp_frame; [keeps_auto|]. intros [[[q mn] mx]|] s2 He2.
  2:{ apply pwp_ret, (Hend p s2 a). by apply (emits_then_same s s1). }
  pose proof (emits_then_same _ _ _ _ Ha He2) as [A1 A2 A3 A4].
  edit. apply pwp_frame; [keeps_auto|]. intros c s3 He3. pose proof He3 as [E3 E4].
  destruct (if c =? ch "?" then (false, q + 1) else (true, q)) as [greedy q'].
  edit. eapply pwp_mono.
  { apply (emit_quantifier_ok (data s) a s3); [by apply (st_same s2)|by rewrite E3|by rewrite E4|].
    pose proof (st_count s Hs). rewrite E4. lia. }
  intros _ s4 (p' & Hb & Hp'). apply pwp_ret, (Hend q' s4 p'). apply (becomes_emits s s3); [done|rewrite E4; lia|done].
Qed.
#[local] Hint Resolve sticky_term : keeps.

(** ** Alternatives *)

Lemma sticky_alternative back : sticky (re_parse_alternative D back).
Proof. unfold re_parse_alternative. keeps_auto. Qed.

Lemma emitting_alternative back : emitting (re_parse_alternative D back).
Proof.
  intros s0 Hs0. unfold re_parse_alternative. edit. apply pwp_get. pose proof (st_size s0 Hs0) as [Hz0 _].
  cbv zeta. rewrite <- Hz0.
  apply (pwp_loop (fun _ s => exists p, emits s0 s p)); [keeps_auto| |by exists []; apply emits_nil].
  intros _ s (p & Hp). edit. apply pwp_get. destruct (buf_end s <=? buf_ptr s); [apply pwp_ret; by exists p|].
  edit. apply pwp_frame; [keeps_auto|]. intros c s1 He1. pose proof (emits_then_same _ _ _ _ Hp He1) as Hp1.
  destruct ((c =? ch "|") || (c =? ch ")")); [apply pwp_ret; by exists p|].
  edit. eapply pwp_mono; [apply emitting_term, Hp1|]. intros _ s2 (t & Ht). edit.
  destruct back; [|do 2 apply pwp_ret; exists (p ++ t); by apply (emits_app s0 s1)].
  destruct Hp1 as [P1 P2 P3 P4]. destruct Ht as [T1 T2 T3 T4]. pose proof (st_size s (em_ok _ _ _ Hp)) as [Hz _].
  rewrite <- Hz, (em_data _ _ _ Hp), zlen_app.
  apply (pwp_reverse s2 _ (code_of p) (code_of t)); [done|by rewrite T2, P2, app_assoc|].
  intros s3 Hb. apply pwp_ret. exists (t ++ p). apply (becomes_emits s0 s2); [by rewrite code_of_app|lia|].
  apply frag_app; [done|]. by apply (frag_mono (capture_count s1)).
Qed.
End Terms.

(** ** Disjunctions *)

#[local] Hint Resolve sticky_code_set sticky_put_u32 : keeps.

Lemma sticky_disjunction_step alt start : sticky alt -> sticky (disjunction_step alt start).
Proof. intros Halt. unfold disjunction_step. keeps_auto. Qed.

Lemma disjunction_step_ok alt s0 s p : sticky alt -> emitting alt -> st_ok s0 -> emits s0 s p ->
  pwp (disjunction_step alt (zlen (data s0))) s (fun _ s' => exists q, emits s0 s' q).
Proof.
  intros Hst Hem Hs0 Hp. unfold disjunction_step. edit. apply pwp_get. edit. apply pwp_frame; [keeps_auto|].
  intros c s1 He1. pose proof (emits_then_same _ _ _ _ Hp He1) as Hp1. destruct (negb (c =? ch "|")); [apply pwp_ret; by exists p|].
  edit. apply pwp_mod. set (s2 := set_buf_ptr s1 _).
  assert (emits s0 s2 p) as Hp2 by (by apply (emits_then_same s0 s1)).
  destruct Hp as [P1 P2 P3 P4]. pose proof (st_size s P1) as [Hz _]. cbv zeta.
  replace (size (byte_code s) - zlen (data s0)) with (zlen (code_of p)) by (rewrite <- Hz, P2, zlen_app; lia).
  destruct Hp2 as [Q1 Q2 Q3 Q4]. clearbody s2. pose proof (zlen_nonneg (data s0)). pose proof (zlen_nonneg (code_of p)).
  edit. apply (pwp_code_insert s2 (data s0) (code_of p)); [done..|]. intros s3 g [Hs3 Hd3 Hc3] Hg.
  destruct (gap_cons g 4 Hg) as (x & g1 & -> & Hg1); [lia|]. rewrite <- !app_comm_cons in Hd3.
  edit. eapply pwp_set_at; [done|exact Hd3|reflexivity|done|]. intros s4 [Hs4 Hd4 Hc4].
  edit. eapply (pwp_u32_at s4 _ g1); [done|exact Hd4|done|done|by sizes|]. intros s5 [Hs5 Hd5 Hc5].
  edit. apply pwp_op_u32; [done|]. intros s6 [Hs6 Hd6 Hc6].
  edit. eapply pwp_mono; [by apply Hem|]. intros _ s7 (q & [Hs7 Hd7 Hc7 Hf7]).
  edit. apply pwp_code_size; [done|]. rewrite Hd6, Hd5, <- !app_assoc in Hd7. rewrite Hd5.
  edit. eapply (pwp_code_put_u32 s7 (data s0 ++ [u8 (reop REOP_split_next_first)] ++ Bits.le_bytes 4 (zlen (code_of p) + 5) ++
    code_of p ++ [reop REOP_goto]) (Bits.le_bytes 4 0) (code_of q)); [done|rewrite Hd7; cbn [app]; rewrite <- !app_assoc; cbn [app]; by rewrite <- !app_assoc|by sizes; lia|done|].
  intros s8 Hb8. apply pwp_ret.
  exists ([IJump REOP_split_next_first (zlen (code_of p) + 5)] ++ p ++ [IJump REOP_goto (zlen (code_of q))] ++ q).
  match type of Hb8 with becomes _ _ (_ ++ Bits.le_bytes 4 ?z ++ _) => replace z with (zlen (code_of q)) in Hb8 end.
  2:{ rewrite Hd7. sizes. lia. }
  pose proof (construct_fits s8 (data s0) _ (bc_ok _ _ _ Hb8) ltac:(by rewrite (bc_data _ _ _ Hb8), <- !app_assoc)) as Hfit.
  sizes_in Hfit. pose proof (zlen_nonneg (code_of q)).
  apply (becomes_emits s0 s7).
  - revert Hb8. norm_code. done.
  - lia.
  - apply frag_alt; [|done|done|unfold fits; lia|unfold fits; lia]. apply (frag_mono (capture_count s2)); [lia|done].
Qed.
Lemma sticky_disjunction depth : forall back, sticky (re_parse_disjunction depth back).
Proof.
  induction depth as [|depth IH]; intros back; cbn [re_parse_disjunction]; [keeps_auto|]. cbv zeta.
  pose proof (sticky_alternative _ IH back). keeps_auto. by apply sticky_disjunction_step.
Qed.

Lemma emitting_disjunction depth : forall back, emitting (re_parse_disjunction depth back).
Proof.
  induction depth as [|depth IH]; intros back; cbn [re_parse_disjunction]; [by apply emitting_framed; keeps_auto|].
  intros s0 Hs0. cbv zeta. pose proof (sticky_alternative _ (sticky_disjunction depth) back) as Hst.
  pose proof (emitting_alternative _ (sticky_disjunction depth) IH back) as Hem.
  pose proof (fun start => sticky_disjunction_step _ start Hst) as Hstep.
  edit. apply pwp_get. edit.
  eapply pwp_mono; [by apply Hem|]. intros [] s1 Hp. cbn in Hp. pose proof (st_size s0 Hs0) as [Hz0 _]. rewrite <- Hz0.
  apply (pwp_loop (fun _ s => exists p, emits s0 s p)); [keeps_auto| |done].
  intros _ s2 (p & Hp2). eapply pwp_mono; [by apply (disjunction_step_ok _ s0 s2 p)|]. by intros [|] s'.
Qed.

(** ** The compiler *)

(** The header of the code: the flags, two bytes filled in at the end and the
    length. *)
Lemma sticky_prologue : sticky compile_prologue.
Proof. unfold compile_prologue. keeps_auto. Qed.

Lemma prologue_ok s (Q : () -> REParseState -> Prop) : st_ok s ->
  (forall s1 s' p, appended s s1 (u8 (re_flags s) :: replicate 6 0) -> emits s1 s' p -> p <> [] -> Q () s') ->
  pwp compile_prologue s Q.
Proof.
  intros Hs HQ. unfold compile_prologue. edit. apply pwp_get. unfold dbuf_putc, dbuf_put_u32.
  apply pwp_put_bind; [done..|keeps_auto|]. intros s1 A1. apply pwp_put_bind; [apply A1|done|keeps_auto|]. intros s2 A2.
  apply pwp_put_bind; [apply A2|done|keeps_auto|]. intros s3 A3. apply pwp_put_bind; [apply A3|done|keeps_auto|]. intros s4 A4.
  pose proof (appended_trans _ _ _ _ _ A1 (appended_trans _ _ _ _ _ A2 (appended_trans _ _ _ _ _ A3 A4))) as Hh.
  assert (Hlast : forall s5 p, emits s4 s5 p -> pwp (re_emit_op_u8 (reop REOP_save_start) 0) s5 Q).
  { intros s5 p Hp. apply pwp_save; [apply Hp|done|destruct (st_count _ (em_ok _ _ _ Hp)); lia|]. intros s6 H6.
    apply (HQ s4 s6 (p ++ [ICapture REOP_save_start 0])); [exact Hh|by apply (emits_app s4 s5)|by destruct p]. }
  destruct (negb (has_flag (re_flags s) LRE_FLAG_STICKY)).
  2:{ edit. apply pwp_ret, (Hlast s4 []), emits_nil, A4. }
  edit. edit. apply pwp_op_u32; [apply A4|]. intros s5 A5. edit. apply pwp_op; [apply A5|]. intros s6 A6.
  edit. apply pwp_op_u32; [apply A6|]. intros s7 A7. apply pwp_ret, (Hlast s7 search_loop).
  pose proof (appended_trans _ _ _ _ _ A5 (appended_trans _ _ _ _ _ A6 A7)) as [B1 B2 B3].
  split; [done|exact B2|lia|]. rewrite B3. exact (frag_search _ []).
Qed.

(** Calls that leave the error flag of the code as it is. *)
Definition same_error (s s' : REParseState) : Prop := dbuf_error (byte_code s') = dbuf_error (byte_code s).
#[export] Instance same_error_refl : Reflexive same_error.
Proof. done. Qed.
#[export] Instance same_error_trans : Transitive same_error.
Proof. intros a b c. unfold same_error. congruence. Qed.

Lemma same_error_on_code {A} (f : DynBuf -> outcome (A * DynBuf)) :
  (forall b r b', f b = Ret (r, b') -> error b' = error b) -> keeps same_error (on_code f).
Proof.
  intros Hf s r s' E. unfold on_code in E. destruct (f (byte_code s)) as [[a b]|] eqn:Ef; [|done].
  injection E as _ <-. by eapply Hf.
Qed.
Lemma same_error_code_set pos v : keeps same_error (code_set pos v).
Proof. apply same_error_on_code. intros b r b' E. destruct (wr _ _ _); [|done]. by injection E as _ <-. Qed.
Lemma same_error_put_u32 pos v : keeps same_error (code_put_u32 pos v).
Proof. apply same_error_on_code. intros b r b' E. destruct (Bits.put_u32 _ _ _); [|done]. by injection E as _ <-. Qed.
#[local] Hint Resolve same_error_code_set same_error_put_u32 : keeps.

(** One bind of a run that succeeds. *)
Lemma run_bind {A B} (m : parser A) (k : A -> parser B) s b s' : pbind m k s = Ret (Some b, s') ->
  exists a s1, m s = Ret (Some a, s1) /\ k a s1 = Ret (Some b, s').
Proof. unfold pbind. destruct (m s) as [[[a|] s1]|]; [|done|done]. cbn. intros E. by exists a, s1. Qed.

Lemma error_before {A} (m : parser A) s a s' : sticky m -> m s = Ret (a, s') ->
  dbuf_error (byte_code s') = false -> dbuf_error (byte_code s) = false.
Proof. intros Hm E He. destruct (dbuf_error (byte_code s)) eqn:H2; [|done]. pose proof (Hm _ _ _ E H2). congruence. Qed.

(** What [lre_compile] returns: a header, verified code and what follows it. *)
Record compiled (code : list Z) (len : Z) (fl nc smax : Z) (p : list instr) (names : list Z) : Prop := {
  cm_code : exists l, zlen l = 4 /\ take (Z.to_nat len) code = [fl; nc; smax] ++ l ++ code_of p ++ names;
  cm_len : 0 <= len <= zlen code;
  cm_verified : verified nc smax p;
  cm_some : p <> [];
  cm_count : 1 <= nc <= 255;
  cm_stack : 0 <= smax <= STACK_SIZE_MAX;
}.

Lemma start_ok pattern buf_len flags : st_ok (compile_start pattern buf_len flags).
Proof. split; [apply dbuf_init_wf|done|cbn; lia]. Qed.

(** A put whose result is ignored. *)
Lemma dbuf_put_Ret b d r b' : wf b -> dbuf_put b d = Ret (r, b') ->
  wf b' /\ exists e, dbuf_data b' = dbuf_data b ++ e.
Proof.
  intros Hwf E. destruct (decide (size b + zlen d < 2 ^ 64)) as [Hlt|Hge].
  - pose proof (dbuf_put_spec b d Hwf Hlt) as Hp. rewrite E in Hp.
    destruct Hp as [Hwf' [(_ & Hd & _)|(_ & Hd & _)]]; (split; [done|]); [by exists d|exists []; by rewrite app_nil_r].
  - unfold dbuf_put in E.
    destruct (if allocated_size b <? _ then _ else _) as [[r1 b1]|] eqn:E1; [|done]. cbn [mbind outcome_bind] in E.
    assert (same_data b b1) as (Hwf1 & Hd & Hs1).
    { destruct (allocated_size b <? _); [|by injection E1 as _ <-].
      pose proof (dbuf_realloc_spec b _ Hwf (proj1 (u64_range (size b + zlen d)))) as Hp.
      rewrite E1 in Hp. apply Hp. }
    destruct (r1 =? 0).
    + destruct (wr_range _ _ _) as [m|] eqn:Ew; [|done]. apply wr_range_Ret in Ew. destruct Hwf1. lia.
    + injection E as _ <-. split; [done|]. exists []. by rewrite app_nil_r.
Qed.

(** The three numbers of the header filled in. *)
Lemma header_ok s f g1 g2 l c nc r s1 s2 s3 : st_ok s -> data s = [f; g1; g2] ++ l ++ c -> zlen l = 4 ->
  dbuf_error (byte_code s) = false -> code_set RE_HEADER_CAPTURE_COUNT nc s = Ret (Some (), s1) ->
  code_set RE_HEADER_STACK_SIZE r s1 = Ret (Some (), s2) ->
  code_put_u32 3 (size (byte_code s) - RE_HEADER_LEN) s2 = Ret (Some (), s3) ->
  becomes s s3 ([f; u8 nc; u8 r] ++ Bits.le_bytes 4 (zlen c) ++ c).
Proof.
  intros Hs Hd Hl He E1 E2 E3. pose proof (st_size s Hs) as [Hz _]. rewrite Hd in Hz. sizes_in Hz.
  pose proof (same_error_code_set _ _ _ _ _ E1) as He1. pose proof (same_error_code_set _ _ _ _ _ E2) as He2.
  pose proof (same_error_put_u32 _ _ _ _ _ E3) as He3. unfold same_error in *.
  pose proof (pwp_code_set s [f] g1 (g2 :: l ++ c) _ nc (fun _ s' => becomes s s' ([f; u8 nc] ++ g2 :: l ++ c)) Hs Hd eq_refl
    ltac:(done) () s1 E1 ltac:(congruence)) as [Hs1 Hd1 Hc1]. cbv beta in *.
  pose proof (pwp_code_set s1 [f; u8 nc] g2 (l ++ c) _ r (fun _ s' => becomes s1 s' ([f; u8 nc; u8 r] ++ l ++ c)) Hs1 Hd1 eq_refl
    ltac:(done) () s2 E2 ltac:(congruence)) as [Hs2 Hd2 Hc2].
  replace (size (byte_code s) - RE_HEADER_LEN) with (zlen c) in E3 by (unfold RE_HEADER_LEN in *; lia).
  pose proof (pwp_code_put_u32 s2 [f; u8 nc; u8 r] l c 3 (zlen c) (fun _ s' => becomes s2 s' ([f; u8 nc; u8 r] ++ Bits.le_bytes 4 (zlen c) ++ c))
    Hs2 Hd2 eq_refl Hl ltac:(done) () s3 E3 ltac:(congruence)) as [Hs3 Hd3 Hc3].
  split; [done|exact Hd3|congruence].
Qed.

Lemma wr_head {A} (x y : A) l : wr (x :: l) 0 y = Ret (y :: l).
Proof. rewrite wr_ok; [done|]. rewrite zlen_cons. pose proof (zlen_nonneg l). lia. Qed.

(** The names of the groups, if there are any. *)
Notation add_names s0 :=
  (if capture_count s0 - 1 <? size (group_names s0) then
    let* data := plift (rd_range (buf (group_names s0)) 0 (size (group_names s0))) in
    do* on_code (fun b => dbuf_put b data) in
    on_code (fun b =>
      flags ← rd (buf b) RE_HEADER_FLAGS;
      m ← wr (buf b) RE_HEADER_FLAGS (Z.lor flags LRE_FLAG_NAMED_GROUPS);
      Ret ((), set_buf b m))
  else pret ()).

Lemma add_names_ok s0 s f c s' : wf (byte_code s) -> data s = f :: c -> 
  add_names s0 s = Ret (Some (), s') ->
  wf (byte_code s') /\ exists f' names, data s' = f' :: c ++ names.
Proof.
  intros Hwf Hd E. destruct (capture_count s0 - 1 <? size (group_names s0)).
  2:{ injection E as <-. split; [done|]. exists f, []. by rewrite app_nil_r. }
  apply run_bind in E as (d & s1 & E1 & E). unfold plift in E1. destruct (rd_range _ _ _) as [d'|]; [|done].
  injection E1 as -> <-. apply run_bind in E as (r & s2 & E2 & E). apply on_code_inv in E2 as (b & E2 & ->).
  destruct (dbuf_put_Ret _ _ _ _ Hwf E2) as (Hwf2 & e & Hd2). apply on_code_inv in E as (b3 & E3 & ->).
  cbn [byte_code set_byte_code] in *. rewrite Hd in Hd2.
  destruct (dbuf_split b _ Hwf2 Hd2) as (rest & Hb & Hrest). rewrite Hb in E3. cbn [app] in E3. unfold RE_HEADER_FLAGS in E3.
  change (rd (f :: (c ++ e) ++ rest) 0) with (Ret f) in E3. cbn [mbind outcome_bind] in E3.
  rewrite wr_head in E3. cbn [mbind outcome_bind] in E3. injection E3 as <-.
  pose proof (zlen_data _ Hwf2) as Hz. rewrite Hd2 in Hz. cbn [app] in *. rewrite zlen_cons in Hz.
  destruct (dbuf_join b (Z.lor f LRE_FLAG_NAMED_GROUPS :: c ++ e) rest Hwf2) as [Hwf3 Hd3].
  - by rewrite zlen_cons.
  - rewrite zlen_app, zlen_cons. rewrite zlen_cons in Hrest. lia.
  - split; [exact Hwf3|]. eexists _, e. exact Hd3.
Qed.

Lemma sticky_op_u8 op v : sticky (re_emit_op_u8 op v).
Proof. auto with keeps. Qed.

(** The code of the pattern: after the header, a fragment and [REOP_match]. *)
Lemma body_ok depth s s1 s2 s3 s4 : st_ok s -> compile_prologue s = Ret (Some (), s1) ->
  re_parse_disjunction depth false s1 = Ret (Some (), s2) -> re_emit_op_u8 (reop REOP_save_end) 0 s2 = Ret (Some (), s3) ->
  re_emit_op (reop REOP_match) s3 = Ret (Some (), s4) -> dbuf_error (byte_code s4) = false ->
  exists p, st_ok s4 /\ frag (capture_count s4) p /\
    data s4 = data s ++ (u8 (re_flags s) :: replicate 6 0) ++ code_of (p ++ [IOp REOP_match]).
Proof.
  intros Hs E1 E2 E3 E4 He4.
  pose proof (error_before _ _ _ _ (sticky_emit_op _) E4 He4) as He3.
  pose proof (error_before _ _ _ _ (sticky_op_u8 _ _) E3 He3) as He2.
  pose proof (error_before _ _ _ _ (sticky_disjunction _ _) E2 He2) as He1.
  destruct (prologue_ok s (fun _ s1 => exists sh p, appended s sh (u8 (re_flags s) :: replicate 6 0) /\ emits sh s1 p) Hs
    ltac:(by intros sh s' p; exists sh, p) () s1 E1 He1) as (sh & p0 & Hh & Hp0).
  destruct (emitting_disjunction depth false s1 (em_ok _ _ _ Hp0) () s2 E2 He2) as (p1 & Hp1).
  pose proof (emits_app _ _ _ _ _ Hp0 Hp1) as Hp. pose proof (st_count _ (em_ok _ _ _ Hp1)).
  pose proof (pwp_save s2 REOP_save_end 0 (fun _ s' => emits s2 s' [ICapture REOP_save_end 0]) (em_ok _ _ _ Hp1) eq_refl
    ltac:(lia) ltac:(done) () s3 E3 He3) as Hp2.
  pose proof (emits_app _ _ _ _ _ Hp Hp2) as [P1 P2 P3 P4].
  pose proof (pwp_op s3 REOP_match (fun _ s' => appended s3 s' (encode (IOp REOP_match))) P1 ltac:(done) () s4 E4 He4) as [M1 M2 M3].
  eexists. split; [done|]. split; [rewrite M3; exact P4|].
  rewrite M2, P2, (ap_data _ _ _ Hh), (code_of_app _ [IOp REOP_match]), code_of_one. by rewrite <- !app_assoc.
Qed.

Lemma error_none {A} msg s (a : A) s' : re_parse_error msg s <> Ret (Some a, s').
Proof. unfold re_parse_error. by destruct (wr_range _ _ _). Qed.

Lemma lre_compile_ok error_msg error_msg_size pattern buf_len flags code len msg :
  lre_compile error_msg error_msg_size pattern buf_len flags = Ret (Some (code, len), msg) ->
  exists fl nc smax p names, compiled code len fl nc smax p names.
Proof.
  unfold lre_compile. destruct (compile_body _ _) as [[[[]|] s']|] eqn:E; [| |done]; cbn [mbind outcome_bind].
  2:{ destruct (CStr.pstrcpy _ _ _ _); discriminate. }
  destruct (wr error_msg 0 0) as [msg'|]; [|discriminate]. cbn [mbind outcome_bind]. intros [= <- <- <-].
  set (s := compile_start _ _ _) in *. pose proof (start_ok pattern buf_len flags) as Hs.
  unfold compile_body in E. apply run_bind in E as ([] & s1 & E1 & E). apply run_bind in E as ([] & s2 & E2 & E).
  unfold compile_epilogue in E. apply run_bind in E as ([] & s3 & E3 & E). apply run_bind in E as ([] & s4 & E4 & E).
  apply run_bind in E as (s4' & s4'' & [= <- <-] & E). apply run_bind in E as (c & s5 & E5 & E).
  assert (s5 = s4) as -> by (unfold peek in E5; destruct (rd _ _); [by injection E5|done]). clear E5.
  destruct (negb (c =? 0)); [by apply error_none in E|]. destruct (dbuf_error (byte_code s4)) eqn:He4; [by apply error_none in E|].
  destruct (body_ok _ _ _ _ _ _ Hs E1 E2 E3 E4 He4) as (p & Hs4 & Hp & Hd4).
  assert (data s4 = (u8 flags :: replicate 6 0) ++ code_of (p ++ [IOp REOP_match])) as Hd by exact Hd4. clear Hd4.
  apply run_bind in E as (r & s5 & E5 & E).
  destruct (compute_stack_size _ _) as [r'|] eqn:Er; [|done]. injection E5 as -> <-.
  destruct (Z.ltb_spec r 0) as [|Hr]; [by apply error_none in E|].
  assert (frag (capture_count s4) (p ++ [IOp REOP_match])) as Hpm by (apply frag_app; [done|by apply frag_one]).
  destruct (dbuf_split _ _ (st_wf _ Hs4) Hd) as (rest & Hbuf & _). pose proof (st_size s4 Hs4) as [Hz _].
  rewrite Hd, zlen_app in Hz. change (zlen (u8 flags :: replicate 6 0)) with RE_HEADER_LEN in Hz.
  rewrite Hbuf, <- Hz, <- app_assoc in Er.
  apply (compute_stack_size_spec (capture_count s4)) in Er as [Hr' Hdep]; [|apply Hpm|done|done].
  apply run_bind in E as ([] & s6 & E6 & E). apply run_bind in E as ([] & s7 & E7 & E). apply run_bind in E as ([] & s8 & E8 & E).
  destruct (header_ok s4 (u8 flags) 0 0 (replicate 4 0) _ _ _ s6 s7 s8 Hs4 Hd eq_refl He4 E6 E7 E8) as [Hs8 Hd8 _].
  destruct (add_names_ok s4 s8 _ _ s' (st_wf _ Hs8) Hd8 E) as (Hwf' & f' & names & Hd').
  pose proof (st_count _ Hs4) as Hcc. unfold STACK_SIZE_MAX in Hr'. rewrite (u8_small (capture_count s4)), (u8_small r) in Hd' by lia.
  exists f', (capture_count s4), r, (p ++ [IOp REOP_match]), names. destruct Hwf' as [W1 W2 W3 W4].
  split; [exists (Bits.le_bytes 4 (zlen (code_of (p ++ [IOp REOP_match])))); split; [done|]| | | | |].
  - fold (dbuf_data (byte_code s')). rewrite Hd'. cbn [app]. by rewrite <- app_assoc.
  - lia.
  - apply frag_verified; [done|]. intros k Hk. specialize (Hdep k).
    rewrite length_app in Hdep. rewrite depth_app_l in Hdep by done. apply Hdep. lia.
  - by destruct p.
  - done.
  - done.
Qed.
End Disjunctions.

(** ** The theorems *)


(** [/(a|b)+?\1{2,3}/] *)
Definition sample_pattern : list Z := str "(a|b)+?\1{2,3}" ++ [0].
Definition sample_result : option (list Z * Z) :=
  match @lre_compile (bounded_allocator 65536) (replicate 64 0) 64 sample_pattern 14 0 with
  | Ret (r, _) => r
  | Fault _ => None
  end.




(** The matcher finds "abbb" at index 1. *)
Example sample_run :
  match sample_result with
  | Some (code, len) => @lre_exec (bounded_allocator 65536) 1000 (replicate 4 None) (take (Z.to_nat len) code) (str "xabbba") 0 6 0
  | None => Fault OutOfFuel
  end = Ret (1, Some [Some 1; Some 5; Some 2; Some 3]).
Proof. vm_compute. reflexivity. Qed.
