(* ===== verification/GcObjects.v ===== *)
(** * Garbage-collected objects ([quickjs.c])

    The objects with a [JSGCObjectHeader], what each of them refers to as the
    mark functions see it, and the state of the collector.  Pointers to
    collected objects are [ptr]; other memory (strings, symbols, big numbers,
    byte buffers) has counts of its own and is not seen by the collector: a
    value in it is [JS_LEAF].  The fields that hold no reference are left out. *)

From S2P Require Import Prelude.
From stdpp Require Export gmap.
#[global] Open Scope Z_scope.

Definition ptr := positive.

(** A value: an object, a function bytecode, or anything without a
    collected object. *)
Inductive JSValue :=
  | JS_OBJ (p : ptr)
  | JS_BYTECODE (p : ptr)
  | JS_LEAF.

(** ** The structures *)

Record JSShapeProperty := mkSP { sp_flags : Z; sp_atom : Z }.
Definition JS_ATOM_NULL : Z := 0.
Definition JS_PROP_TMASK : Z := Z.shiftl 3 4.
Definition JS_PROP_NORMAL : Z := Z.shiftl 0 4.
Definition JS_PROP_GETSET : Z := Z.shiftl 1 4.
Definition JS_PROP_VARREF : Z := Z.shiftl 2 4.
Definition JS_PROP_AUTOINIT : Z := Z.shiftl 3 4.

(** [prop] holds [prop_count] elements. *)
Record JSShape := mkShape { proto : option ptr; sh_prop : list JSShapeProperty }.

(** The union of a property: reading another member than the one written is
    a fault. *)
Inductive JSProperty :=
  | U_value (v : JSValue)
  | U_getset (getter setter : option ptr)
  | U_var_ref (p : ptr)
  | U_init (realm : ptr).

(** [pvalue] points to [value] once the variable is detached, and to the
    frame before. *)
Record JSVarRef := mkVarRef { is_detached : bool; is_arg : bool; var_idx : Z; vr_value : JSValue }.

Record JSFunctionBytecode := mkBytecode { cpool : list JSValue; realm : option ptr; closure_var_count : Z }.

(** [arg_buf] holds the arguments and, from [var_buf] on, the variables and
    the stack; [cur_sp] is an index in it, or null while the function runs. *)
Record JSStackFrame := mkFrame {
  cur_func : JSValue;
  arg_buf : option (list JSValue);
  var_buf : Z;
  cur_sp : option Z;
  var_ref_list : list ptr;
}.
Record JSAsyncFunctionState := mkAsyncState { frame : JSStackFrame; this_val : JSValue }.
Record JSAsyncFunctionData := mkAsyncData {
  is_active : bool;
  func_state : JSAsyncFunctionState;
  resolving_funcs : JSValue * JSValue;
}.

(** The export entries are the [var_ref] of those of local type. *)
Record JSModuleDef := mkModule {
  local_exports : list (option ptr);
  module_ns : JSValue;
  func_obj : JSValue;
  eval_exception : JSValue;
  meta_obj : JSValue;
}.

Record JSContext := mkContext {
  loaded_modules : list JSModuleDef;
  global_obj : JSValue;
  global_var_obj : JSValue;
  throw_type_error : JSValue;
  eval_obj : JSValue;
  array_proto_values : JSValue;
  native_error_proto : list JSValue;
  class_proto : list JSValue;
  iterator_proto : JSValue;
  async_iterator_proto : JSValue;
  promise_ctor : JSValue;
  array_ctor : JSValue;
  regexp_ctor : JSValue;
  function_ctor : JSValue;
  function_proto : JSValue;
  array_shape : option ptr;
}.

(** *** Class-specific data *)

Inductive JSClassID :=
  | JS_CLASS_FREED   (* class_id = 0 *)
  | JS_CLASS_OBJECT | JS_CLASS_ARRAY | JS_CLASS_ERROR | JS_CLASS_NUMBER | JS_CLASS_STRING | JS_CLASS_BOOLEAN
  | JS_CLASS_SYMBOL | JS_CLASS_ARGUMENTS | JS_CLASS_MAPPED_ARGUMENTS | JS_CLASS_DATE | JS_CLASS_MODULE_NS
  | JS_CLASS_C_FUNCTION | JS_CLASS_BYTECODE_FUNCTION | JS_CLASS_BOUND_FUNCTION | JS_CLASS_C_FUNCTION_DATA
  | JS_CLASS_GENERATOR_FUNCTION | JS_CLASS_FOR_IN_ITERATOR | JS_CLASS_REGEXP | JS_CLASS_ARRAY_BUFFER
  | JS_CLASS_SHARED_ARRAY_BUFFER | JS_CLASS_UINT8C_ARRAY | JS_CLASS_INT8_ARRAY | JS_CLASS_UINT8_ARRAY
  | JS_CLASS_INT16_ARRAY | JS_CLASS_UINT16_ARRAY | JS_CLASS_INT32_ARRAY | JS_CLASS_UINT32_ARRAY
  | JS_CLASS_BIG_INT64_ARRAY | JS_CLASS_BIG_UINT64_ARRAY | JS_CLASS_FLOAT32_ARRAY | JS_CLASS_FLOAT64_ARRAY
  | JS_CLASS_DATAVIEW | JS_CLASS_BIG_INT | JS_CLASS_BIG_FLOAT | JS_CLASS_FLOAT_ENV | JS_CLASS_BIG_DECIMAL
  | JS_CLASS_OPERATOR_SET | JS_CLASS_MAP | JS_CLASS_SET | JS_CLASS_WEAKMAP | JS_CLASS_WEAKSET
  | JS_CLASS_MAP_ITERATOR | JS_CLASS_SET_ITERATOR | JS_CLASS_ARRAY_ITERATOR | JS_CLASS_STRING_ITERATOR
  | JS_CLASS_REGEXP_STRING_ITERATOR | JS_CLASS_GENERATOR | JS_CLASS_PROXY | JS_CLASS_PROMISE
  | JS_CLASS_PROMISE_RESOLVE_FUNCTION | JS_CLASS_PROMISE_REJECT_FUNCTION | JS_CLASS_ASYNC_FUNCTION
  | JS_CLASS_ASYNC_FUNCTION_RESOLVE | JS_CLASS_ASYNC_FUNCTION_REJECT | JS_CLASS_ASYNC_FROM_SYNC_ITERATOR
  | JS_CLASS_ASYNC_GENERATOR_FUNCTION | JS_CLASS_ASYNC_GENERATOR.

Inductive JSGeneratorStateEnum :=
  | JS_GENERATOR_STATE_SUSPENDED_START | JS_GENERATOR_STATE_SUSPENDED_YIELD
  | JS_GENERATOR_STATE_SUSPENDED_YIELD_STAR | JS_GENERATOR_STATE_EXECUTING | JS_GENERATOR_STATE_COMPLETED.
Inductive JSAsyncGeneratorStateEnum :=
  | JS_ASYNC_GENERATOR_STATE_SUSPENDED_START | JS_ASYNC_GENERATOR_STATE_SUSPENDED_YIELD
  | JS_ASYNC_GENERATOR_STATE_SUSPENDED_YIELD_STAR | JS_ASYNC_GENERATOR_STATE_EXECUTING
  | JS_ASYNC_GENERATOR_STATE_AWAITING_RETURN | JS_ASYNC_GENERATOR_STATE_COMPLETED.

Record JSAsyncGeneratorRequest := mkRequest { rq_result : JSValue; rq_promise : JSValue; rq_resolving_funcs : JSValue * JSValue }.
(** The records are not collected; [mr_addr] tells them apart. *)
Record JSMapRecord := mkRecord { mr_addr : ptr; mr_empty : bool; mr_key : JSValue; mr_value : JSValue }.
Record JSPromiseReactionData := mkReaction { rd_resolving_funcs : JSValue * JSValue; rd_handler : JSValue }.
Record JSOperatorSetData := mkOpset {
  self_ops : list (option ptr);
  opset_left : list (list (option ptr));
  opset_right : list (list (option ptr));
}.

(** The union [u] of an object; [None] stands for a null pointer. *)
Inductive JSObjectUnion :=
  | U_opaque
  | U_array (values : list JSValue)
  | U_object_data (v : JSValue)
  | U_cfunc (realm : option ptr)
  | U_func (home_object function_bytecode : option ptr) (var_refs : option (list (option ptr)))
  | U_bound_function (func_obj this_val : JSValue) (argv : list JSValue)
  | U_c_function_data (data : option (list JSValue))
  | U_for_in_iterator (obj : JSValue)
  | U_typed_array (buffer : option ptr)
  | U_operator_set (d : option JSOperatorSetData)
  | U_map_state (d : option (bool * list JSMapRecord))   (* is_weak, records *)
  | U_map_iterator_data (d : option JSValue)
  | U_array_iterator_data (d : option JSValue)
  | U_regexp_string_iterator_data (d : option (JSValue * JSValue))
  | U_generator_data (d : option (JSGeneratorStateEnum * JSAsyncFunctionState))
  | U_proxy_data (d : option (JSValue * JSValue))
  | U_promise_data (d : option (list JSPromiseReactionData * list JSPromiseReactionData * JSValue))
  | U_promise_function_data (d : option JSValue)
  | U_async_function_data (d : option ptr)
  | U_async_from_sync_iterator_data (d : option (JSValue * JSValue))
  | U_async_generator_data (d : option (list JSAsyncGeneratorRequest * JSAsyncGeneratorStateEnum * JSAsyncFunctionState)).

Record JSObject := mkObject {
  free_mark : bool;
  class_id : JSClassID;
  shape : option ptr;
  prop : list JSProperty;
  u : JSObjectUnion;
  first_weak_ref : list (ptr * ptr);   (* the records with this key, each after the object of its map *)
}.

Inductive gc_object :=
  | JS_GC_OBJ_TYPE_JS_OBJECT (o : JSObject)
  | JS_GC_OBJ_TYPE_FUNCTION_BYTECODE (b : JSFunctionBytecode)
  | JS_GC_OBJ_TYPE_SHAPE (sh : JSShape)
  | JS_GC_OBJ_TYPE_VAR_REF (v : JSVarRef)
  | JS_GC_OBJ_TYPE_ASYNC_FUNCTION (a : JSAsyncFunctionData)
  | JS_GC_OBJ_TYPE_JS_CONTEXT (c : JSContext).

(** The objects in memory; an address that is not in it has been released. *)
Definition heap := gmap ptr gc_object.

(** ** The mark functions

    Each gives the objects it calls [mark_func] on, in order. *)

(** [JS_MarkValue(rt, val, mark_func)] *)
Definition JS_MarkValue (v : JSValue) : list ptr :=
  match v with
  | JS_OBJ p | JS_BYTECODE p => [p]
  | JS_LEAF => []
  end.

Definition mark_values (l : list JSValue) : list ptr := l ≫= JS_MarkValue.
Definition mark_opt (p : option ptr) : list ptr := match p with Some p => [p] | None => [] end.
Definition mark_pair (v : JSValue * JSValue) : list ptr := JS_MarkValue v.1 ++ JS_MarkValue v.2.

(** The union does not hold the member that is read. *)
Definition wrong_member {A} : outcome A := Fault Uninitialised.

Definition get_var_ref_of (h : heap) (p : ptr) : outcome JSVarRef :=
  match h !! p with Some (JS_GC_OBJ_TYPE_VAR_REF v) => Ret v | _ => Fault Uninitialised end.
Definition get_shape_of (h : heap) (p : option ptr) : outcome (ptr * JSShape) :=
  match p with
  | None => Fault NullDeref
  | Some p => match h !! p with Some (JS_GC_OBJ_TYPE_SHAPE sh) => Ret (p, sh) | _ => Fault Uninitialised end
  end.
Definition get_bytecode_of (h : heap) (p : ptr) : outcome JSFunctionBytecode :=
  match h !! p with Some (JS_GC_OBJ_TYPE_FUNCTION_BYTECODE b) => Ret b | _ => Fault Uninitialised end.

Section Mark.
Context (h : heap).

(** A variable reference counts for the collector once it is detached. *)
Definition mark_var_ref (p : ptr) : outcome (list ptr) :=
  v ← get_var_ref_of h p;
  Ret (if is_detached v then [p] else []).

(** One property. *)
Definition mark_property (prs : JSShapeProperty) (pr : JSProperty) : outcome (list ptr) :=
  if sp_atom prs =? JS_ATOM_NULL then Ret []
  else
    let t := Z.land (sp_flags prs) JS_PROP_TMASK in
    if negb (t =? 0) then
      if t =? JS_PROP_GETSET then
        match pr with U_getset getter setter => Ret (mark_opt getter ++ mark_opt setter) | _ => wrong_member end
      else if t =? JS_PROP_VARREF then
        match pr with U_var_ref p => mark_var_ref p | _ => wrong_member end
      else if t =? JS_PROP_AUTOINIT then
        match pr with U_init realm => Ret [realm] | _ => wrong_member end   (* js_autoinit_mark *)
      else Ret []
    else match pr with U_value v => Ret (JS_MarkValue v) | _ => wrong_member end.

Fixpoint mark_properties (prs : list JSShapeProperty) (pr : list JSProperty) : outcome (list ptr) :=
  match prs, pr with
  | [], _ => Ret []
  | s :: prs, p :: pr => l ← mark_property s p; l' ← mark_properties prs pr; Ret (l ++ l')
  | _ :: _, [] => Fault OutOfBounds
  end.

(** [async_func_mark(rt, s, mark_func)] *)
Definition async_func_mark (s : JSAsyncFunctionState) : outcome (list ptr) :=
  let sf := frame s in
  stack ← match cur_sp sf with
          | None => Ret []
          | Some sp => match arg_buf sf with
                       | Some buf => rd_range buf 0 sp
                       | None => if sp =? 0 then Ret [] else Fault NullDeref
                       end
          end;
  Ret (JS_MarkValue (cur_func sf) ++ JS_MarkValue (this_val s) ++ mark_values stack).

(** *** The [gc_mark] functions of the classes *)

Definition js_array_mark (u : JSObjectUnion) : outcome (list ptr) :=
  match u with U_array values => Ret (mark_values values) | _ => wrong_member end.
Definition js_object_data_mark (u : JSObjectUnion) : outcome (list ptr) :=
  match u with U_object_data v => Ret (JS_MarkValue v) | _ => wrong_member end.
Definition js_c_function_mark (u : JSObjectUnion) : outcome (list ptr) :=
  match u with U_cfunc realm => Ret (mark_opt realm) | _ => wrong_member end.

Fixpoint mark_var_refs (n : nat) (var_refs : list (option ptr)) : outcome (list ptr) :=
  match n, var_refs with
  | O, _ => Ret []
  | S n, v :: var_refs =>
      l ← match v with Some p => mark_var_ref p | None => Ret [] end;
      l' ← mark_var_refs n var_refs; Ret (l ++ l')
  | S _, [] => Fault OutOfBounds
  end.

Definition js_bytecode_function_mark (u : JSObjectUnion) : outcome (list ptr) :=
  match u with
  | U_func home_object b var_refs =>
      l ← match b with
          | None => Ret []
          | Some b =>
              l ← match var_refs with
                  | Some var_refs => f ← get_bytecode_of h b; mark_var_refs (Z.to_nat (closure_var_count f)) var_refs
                  | None => Ret []
                  end;
              Ret (l ++ [b])
          end;
      Ret (mark_opt home_object ++ l)
  | _ => wrong_member
  end.

Definition js_bound_function_mark (u : JSObjectUnion) : outcome (list ptr) :=
  match u with
  | U_bound_function f t argv => Ret (JS_MarkValue f ++ JS_MarkValue t ++ mark_values argv)
  | _ => wrong_member
  end.
Definition js_c_function_data_mark (u : JSObjectUnion) : outcome (list ptr) :=
  match u with U_c_function_data d => Ret (mark_values (default [] d)) | _ => wrong_member end.
Definition js_for_in_iterator_mark (u : JSObjectUnion) : outcome (list ptr) :=
  match u with U_for_in_iterator obj => Ret (JS_MarkValue obj) | _ => wrong_member end.
Definition js_typed_array_mark (u : JSObjectUnion) : outcome (list ptr) :=
  match u with U_typed_array b => Ret (mark_opt b) | _ => wrong_member end.
Definition js_operator_set_mark (u : JSObjectUnion) : outcome (list ptr) :=
  match u with
  | U_operator_set None => Ret []
  | U_operator_set (Some d) =>
      Ret ((self_ops d ≫= mark_opt) ++ (opset_left d ≫= (fun ops => ops ≫= mark_opt)) ++
           (opset_right d ≫= (fun ops => ops ≫= mark_opt)))
  | _ => wrong_member
  end.
Definition js_map_mark (u : JSObjectUnion) : outcome (list ptr) :=
  match u with
  | U_map_state None => Ret []
  | U_map_state (Some (is_weak, records)) =>
      Ret (records ≫= (fun mr => (if is_weak then [] else JS_MarkValue (mr_key mr)) ++ JS_MarkValue (mr_value mr)))
  | _ => wrong_member
  end.
Definition mark_opt_value (d : option JSValue) : list ptr := match d with Some v => JS_MarkValue v | None => [] end.
Definition mark_opt_pair (d : option (JSValue * JSValue)) : list ptr := match d with Some v => mark_pair v | None => [] end.
Definition js_map_iterator_mark (u : JSObjectUnion) : outcome (list ptr) :=
  match u with U_map_iterator_data d => Ret (mark_opt_value d) | _ => wrong_member end.
Definition js_array_iterator_mark (u : JSObjectUnion) : outcome (list ptr) :=
  match u with U_array_iterator_data d => Ret (mark_opt_value d) | _ => wrong_member end.
Definition js_regexp_string_iterator_mark (u : JSObjectUnion) : outcome (list ptr) :=
  match u with U_regexp_string_iterator_data d => Ret (mark_opt_pair d) | _ => wrong_member end.
Definition js_generator_mark (u : JSObjectUnion) : outcome (list ptr) :=
  match u with
  | U_generator_data None | U_generator_data (Some (JS_GENERATOR_STATE_COMPLETED, _)) => Ret []
  | U_generator_data (Some (_, s)) => async_func_mark s
  | _ => wrong_member
  end.
Definition js_proxy_mark (u : JSObjectUnion) : outcome (list ptr) :=
  match u with U_proxy_data d => Ret (mark_opt_pair d) | _ => wrong_member end.
Definition mark_reaction (rd : JSPromiseReactionData) : list ptr :=
  mark_pair (rd_resolving_funcs rd) ++ JS_MarkValue (rd_handler rd).
Definition js_promise_mark (u : JSObjectUnion) : outcome (list ptr) :=
  match u with
  | U_promise_data None => Ret []
  | U_promise_data (Some (r0, r1, result)) => Ret ((r0 ≫= mark_reaction) ++ (r1 ≫= mark_reaction) ++ JS_MarkValue result)
  | _ => wrong_member
  end.
Definition js_promise_resolve_function_mark (u : JSObjectUnion) : outcome (list ptr) :=
  match u with U_promise_function_data d => Ret (mark_opt_value d) | _ => wrong_member end.
Definition js_async_function_resolve_mark (u : JSObjectUnion) : outcome (list ptr) :=
  match u with U_async_function_data d => Ret (mark_opt d) | _ => wrong_member end.
Definition js_async_from_sync_iterator_mark (u : JSObjectUnion) : outcome (list ptr) :=
  match u with U_async_from_sync_iterator_data d => Ret (mark_opt_pair d) | _ => wrong_member end.

(** The frame of an asynchronous generator is there in these states. *)
Definition has_frame (state : JSAsyncGeneratorStateEnum) : bool :=
  match state with
  | JS_ASYNC_GENERATOR_STATE_COMPLETED | JS_ASYNC_GENERATOR_STATE_AWAITING_RETURN => false
  | _ => true
  end.
Definition mark_request (req : JSAsyncGeneratorRequest) : list ptr :=
  JS_MarkValue (rq_result req) ++ JS_MarkValue (rq_promise req) ++ mark_pair (rq_resolving_funcs req).
Definition js_async_generator_mark (u : JSObjectUnion) : outcome (list ptr) :=
  match u with
  | U_async_generator_data None => Ret []
  | U_async_generator_data (Some (queue, state, s)) =>
      l ← if has_frame state then async_func_mark s else Ret [];
      Ret ((queue ≫= mark_request) ++ l)
  | _ => wrong_member
  end.

(** [rt->class_array[class_id].gc_mark], from [js_std_class_def] and the
    classes the intrinsics add. *)
Definition class_gc_mark (c : JSClassID) : option (JSObjectUnion -> outcome (list ptr)) :=
  match c with
  | JS_CLASS_ARRAY | JS_CLASS_ARGUMENTS => Some js_array_mark
  | JS_CLASS_NUMBER | JS_CLASS_STRING | JS_CLASS_BOOLEAN | JS_CLASS_SYMBOL | JS_CLASS_DATE
  | JS_CLASS_BIG_INT | JS_CLASS_BIG_FLOAT | JS_CLASS_BIG_DECIMAL => Some js_object_data_mark
  | JS_CLASS_C_FUNCTION => Some js_c_function_mark
  | JS_CLASS_BYTECODE_FUNCTION | JS_CLASS_GENERATOR_FUNCTION | JS_CLASS_ASYNC_FUNCTION
  | JS_CLASS_ASYNC_GENERATOR_FUNCTION => Some js_bytecode_function_mark
  | JS_CLASS_BOUND_FUNCTION => Some js_bound_function_mark
  | JS_CLASS_C_FUNCTION_DATA => Some js_c_function_data_mark
  | JS_CLASS_FOR_IN_ITERATOR => Some js_for_in_iterator_mark
  | JS_CLASS_UINT8C_ARRAY | JS_CLASS_INT8_ARRAY | JS_CLASS_UINT8_ARRAY | JS_CLASS_INT16_ARRAY
  | JS_CLASS_UINT16_ARRAY | JS_CLASS_INT32_ARRAY | JS_CLASS_UINT32_ARRAY | JS_CLASS_BIG_INT64_ARRAY
  | JS_CLASS_BIG_UINT64_ARRAY | JS_CLASS_FLOAT32_ARRAY | JS_CLASS_FLOAT64_ARRAY | JS_CLASS_DATAVIEW =>
      Some js_typed_array_mark
  | JS_CLASS_OPERATOR_SET => Some js_operator_set_mark
  | JS_CLASS_MAP | JS_CLASS_SET | JS_CLASS_WEAKMAP | JS_CLASS_WEAKSET => Some js_map_mark
  | JS_CLASS_MAP_ITERATOR | JS_CLASS_SET_ITERATOR => Some js_map_iterator_mark
  | JS_CLASS_ARRAY_ITERATOR | JS_CLASS_STRING_ITERATOR => Some js_array_iterator_mark
  | JS_CLASS_REGEXP_STRING_ITERATOR => Some js_regexp_string_iterator_mark
  | JS_CLASS_GENERATOR => Some js_generator_mark
  | JS_CLASS_PROXY => Some js_proxy_mark
  | JS_CLASS_PROMISE => Some js_promise_mark
  | JS_CLASS_PROMISE_RESOLVE_FUNCTION | JS_CLASS_PROMISE_REJECT_FUNCTION => Some js_promise_resolve_function_mark
  | JS_CLASS_ASYNC_FUNCTION_RESOLVE | JS_CLASS_ASYNC_FUNCTION_REJECT => Some js_async_function_resolve_mark
  | JS_CLASS_ASYNC_FROM_SYNC_ITERATOR => Some js_async_from_sync_iterator_mark
  | JS_CLASS_ASYNC_GENERATOR => Some js_async_generator_mark
  | JS_CLASS_FREED | JS_CLASS_OBJECT | JS_CLASS_ERROR | JS_CLASS_MAPPED_ARGUMENTS | JS_CLASS_MODULE_NS
  | JS_CLASS_REGEXP | JS_CLASS_ARRAY_BUFFER | JS_CLASS_SHARED_ARRAY_BUFFER | JS_CLASS_FLOAT_ENV => None
  end.

(** [js_mark_module_def(rt, m, mark_func)] *)
Definition js_mark_module_def (m : JSModuleDef) : list ptr :=
  (local_exports m ≫= mark_opt) ++ JS_MarkValue (module_ns m) ++ JS_MarkValue (func_obj m) ++
  JS_MarkValue (eval_exception m) ++ JS_MarkValue (meta_obj m).

(** [JS_MarkContext(rt, ctx, mark_func)] *)
Definition JS_MarkContext (ctx : JSContext) : list ptr :=
  (loaded_modules ctx ≫= js_mark_module_def) ++
  JS_MarkValue (global_obj ctx) ++ JS_MarkValue (global_var_obj ctx) ++
  JS_MarkValue (throw_type_error ctx) ++ JS_MarkValue (eval_obj ctx) ++
  JS_MarkValue (array_proto_values ctx) ++ mark_values (native_error_proto ctx) ++ mark_values (class_proto ctx) ++
  JS_MarkValue (iterator_proto ctx) ++ JS_MarkValue (async_iterator_proto ctx) ++ JS_MarkValue (promise_ctor ctx) ++
  JS_MarkValue (array_ctor ctx) ++ JS_MarkValue (regexp_ctor ctx) ++ JS_MarkValue (function_ctor ctx) ++
  JS_MarkValue (function_proto ctx) ++ mark_opt (array_shape ctx).

(** [case JS_GC_OBJ_TYPE_JS_OBJECT] of [mark_children]. *)
Definition mark_object (p : JSObject) : outcome (list ptr) :=
  '(ps, sh) ← get_shape_of h (shape p);
  l ← mark_properties (sh_prop sh) (prop p);
  l' ← match class_id p with
       | JS_CLASS_OBJECT => Ret []
       | c => match class_gc_mark c with Some gc_mark => gc_mark (u p) | None => Ret [] end
       end;
  Ret (ps :: l ++ l').

(** [mark_children(rt, gp, mark_func)]: the objects in the order of the calls. *)
Definition children (gp : ptr) : outcome (list ptr) :=
  match h !! gp with
  | None => Fault Uninitialised
  | Some (JS_GC_OBJ_TYPE_JS_OBJECT p) => mark_object p
  | Some (JS_GC_OBJ_TYPE_FUNCTION_BYTECODE b) => Ret (mark_values (cpool b) ++ mark_opt (realm b))
  | Some (JS_GC_OBJ_TYPE_VAR_REF v) => _ ← c_assert (is_detached v); Ret (JS_MarkValue (vr_value v))
  | Some (JS_GC_OBJ_TYPE_ASYNC_FUNCTION s) =>
      l ← if is_active s then async_func_mark (func_state s) else Ret [];
      Ret (l ++ mark_pair (resolving_funcs s))
  | Some (JS_GC_OBJ_TYPE_SHAPE sh) => Ret (mark_opt (proto sh))
  | Some (JS_GC_OBJ_TYPE_JS_CONTEXT ctx) => Ret (JS_MarkContext ctx)
  end.
End Mark.
