(* ===== verification/GcRuntime.v ===== *)
(** * The cycle collector: trial deletion ([quickjs.c])

    [gc_decref] takes the references between collected objects away from their
    counts, [gc_scan] gives them back from the objects that keep a count, and
    [tmp_obj_list] ends up with the others.  The intrusive lists are the lists
    of their elements ([ListHead] verifies the links); [list_del] works on
    whichever list the element is in. *)

From S2P Require Import Prelude GcObjects.

Record JSGCObjectHeader := mkHeader { ref_count : Z; mark : Z }.

Inductive JSGCPhaseEnum := JS_GC_PHASE_NONE | JS_GC_PHASE_DECREF | JS_GC_PHASE_REMOVE_CYCLES.

Record JSRuntime := mkRT {
  objs : heap;
  hdrs : gmap ptr JSGCObjectHeader;
  gc_obj_list : list ptr;
  gc_zero_ref_count_list : list ptr;
  tmp_obj_list : list ptr;
  gc_phase : JSGCPhaseEnum;
}.

Definition set_objs (rt : JSRuntime) (h : heap) : JSRuntime :=
  mkRT h (hdrs rt) (gc_obj_list rt) (gc_zero_ref_count_list rt) (tmp_obj_list rt) (gc_phase rt).
Definition set_hdrs (rt : JSRuntime) (h : gmap ptr JSGCObjectHeader) : JSRuntime :=
  mkRT (objs rt) h (gc_obj_list rt) (gc_zero_ref_count_list rt) (tmp_obj_list rt) (gc_phase rt).
Definition set_lists (rt : JSRuntime) (g z t : list ptr) : JSRuntime :=
  mkRT (objs rt) (hdrs rt) g z t (gc_phase rt).
Definition set_phase (rt : JSRuntime) (ph : JSGCPhaseEnum) : JSRuntime :=
  mkRT (objs rt) (hdrs rt) (gc_obj_list rt) (gc_zero_ref_count_list rt) (tmp_obj_list rt) ph.

Definition get_hdr (rt : JSRuntime) (p : ptr) : outcome JSGCObjectHeader :=
  match hdrs rt !! p with Some h => Ret h | None => Fault Uninitialised end.
Definition set_hdr (rt : JSRuntime) (p : ptr) (h : JSGCObjectHeader) : JSRuntime :=
  set_hdrs rt (<[p := h]> (hdrs rt)).

(** ** The lists *)

Definition unlink (p : ptr) (l : list ptr) : list ptr := filter (fun q => q <> p) l.

(** [list_del(&p->link)] *)
Definition list_del (rt : JSRuntime) (p : ptr) : JSRuntime :=
  set_lists rt (unlink p (gc_obj_list rt)) (unlink p (gc_zero_ref_count_list rt)) (unlink p (tmp_obj_list rt)).

Definition add_tail_gc (rt : JSRuntime) (p : ptr) : JSRuntime :=
  set_lists rt (gc_obj_list rt ++ [p]) (gc_zero_ref_count_list rt) (tmp_obj_list rt).
Definition add_tail_tmp (rt : JSRuntime) (p : ptr) : JSRuntime :=
  set_lists rt (gc_obj_list rt) (gc_zero_ref_count_list rt) (tmp_obj_list rt ++ [p]).
Definition add_tail_zero (rt : JSRuntime) (p : ptr) : JSRuntime :=
  set_lists rt (gc_obj_list rt) (gc_zero_ref_count_list rt ++ [p]) (tmp_obj_list rt).
Definition add_zero (rt : JSRuntime) (p : ptr) : JSRuntime :=
  set_lists rt (gc_obj_list rt) (p :: gc_zero_ref_count_list rt) (tmp_obj_list rt).

(** [el->next] for an element of the list: [None] is the head; following the
    link of an element that has left the list is a fault. *)
Fixpoint list_next (l : list ptr) (p : ptr) : outcome (option ptr) :=
  match l with
  | [] => Fault OutOfBounds
  | q :: l => if decide (q = p) then Ret (head l) else list_next l p
  end.

(** ** Marking *)

(** [mark_children(rt, p, f)] *)
Definition mark_children (rt : JSRuntime) (p : ptr) (f : JSRuntime -> ptr -> outcome JSRuntime) : outcome JSRuntime :=
  l ← children (objs rt) p;
  foldM f rt l.

Definition gc_decref_child (rt : JSRuntime) (p : ptr) : outcome JSRuntime :=
  h ← get_hdr rt p;
  _ ← c_assert (0 <? ref_count h);
  let rt := set_hdr rt p (mkHeader (ref_count h - 1) (mark h)) in
  if (ref_count h - 1 =? 0) && (mark h =? 1) then Ret (add_tail_tmp (list_del rt p) p)
  else Ret rt.

(** One object of the list. *)
Definition gc_decref_obj (rt : JSRuntime) (p : ptr) : outcome JSRuntime :=
  h ← get_hdr rt p;
  _ ← c_assert (mark h =? 0);
  rt ← mark_children rt p gc_decref_child;
  h ← get_hdr rt p;
  let rt := set_hdr rt p (mkHeader (ref_count h) 1) in
  if ref_count h =? 0 then Ret (add_tail_tmp (list_del rt p) p) else Ret rt.

(** [list_for_each_safe] reads the next link before the body. *)
Definition gc_decref (rt : JSRuntime) : outcome JSRuntime :=
  let rt := set_lists rt (gc_obj_list rt) (gc_zero_ref_count_list rt) [] in
  loop (S (length (gc_obj_list rt))) (fun '(el, rt) =>
    match el with
    | None => Ret (inr rt)
    | Some p =>
        el1 ← list_next (gc_obj_list rt) p;
        rt ← gc_decref_obj rt p;
        Ret (inl (el1, rt))
    end) (head (gc_obj_list rt), rt).

Definition gc_scan_incref_child (rt : JSRuntime) (p : ptr) : outcome JSRuntime :=
  h ← get_hdr rt p;
  let c := ref_count h + 1 in
  if c =? 1 then
    let rt := add_tail_gc (list_del rt p) p in
    Ret (set_hdr rt p (mkHeader c 0))
  else Ret (set_hdr rt p (mkHeader c (mark h))).

Definition gc_scan_incref_child2 (rt : JSRuntime) (p : ptr) : outcome JSRuntime :=
  h ← get_hdr rt p;
  Ret (set_hdr rt p (mkHeader (ref_count h + 1) (mark h))).

(** One object of [gc_obj_list]. *)
Definition gc_scan_obj (rt : JSRuntime) (p : ptr) : outcome JSRuntime :=
  h ← get_hdr rt p;
  _ ← c_assert (0 <? ref_count h);
  let rt := set_hdr rt p (mkHeader (ref_count h) 0) in
  mark_children rt p gc_scan_incref_child.

(** The first loop: the list grows while it is walked; at most every object is
    in it at the end. *)
Definition gc_scan_live (rt : JSRuntime) : outcome JSRuntime :=
  loop (S (length (gc_obj_list rt ++ tmp_obj_list rt))) (fun '(el, rt) =>
    match el with
    | None => Ret (inr rt)
    | Some p =>
        rt ← gc_scan_obj rt p;
        el ← list_next (gc_obj_list rt) p;
        Ret (inl (el, rt))
    end) (head (gc_obj_list rt), rt).

Definition gc_scan (rt : JSRuntime) : outcome JSRuntime :=
  rt ← gc_scan_live rt;
  foldM (fun rt p => mark_children rt p gc_scan_incref_child2) rt (tmp_obj_list rt).
