(* ===== verification/GcTrial.v ===== *)
(** * The cycle collector: what trial deletion finds

    After [gc_decref] and [gc_scan] the counts are the ones before, and
    [gc_obj_list] and [tmp_obj_list] hold the objects that are reachable from
    an object with a reference from outside, and the others. *)

From S2P Require Import Prelude GcObjects GcRuntime.

(** ** Counting references *)

(** The number of occurrences of [o]. *)
Fixpoint occ (o : ptr) (l : list ptr) : Z :=
  match l with
  | [] => 0
  | p :: l => (if decide (p = o) then 1 else 0) + occ o l
  end.

Lemma occ_app o l1 l2 : occ o (l1 ++ l2) = occ o l1 + occ o l2.
Proof. induction l1 as [|p l1 IH]; cbn [app occ]; lia. Qed.
Lemma occ_nonneg o l : 0 <= occ o l.
Proof. induction l as [|p l IH]; cbn [occ]; [lia|]. case_decide; lia. Qed.
Lemma occ_elem o l : 0 < occ o l <-> o ∈ l.
Proof.
  induction l as [|p l IH]; cbn [occ]; [split; [lia|by intros ?%elem_of_nil]|]. rewrite elem_of_cons.
  pose proof (occ_nonneg o l). case_decide; subst; [split; [auto|lia]|]. split; [|intros [->|]; [done|]]; intros; [right; apply IH|]; lia || by apply IH in H1; lia.
Qed.
Lemma occ_0 o l : o ∉ l -> occ o l = 0.
Proof. intros Hn. pose proof (occ_nonneg o l). destruct (Z.eq_dec (occ o l) 0); [done|]. destruct Hn. apply occ_elem. lia. Qed.
#[export] Instance occ_perm o : Proper ((≡ₚ) ==> (=)) (occ o).
Proof. induction 1; cbn [occ]; lia. Qed.

(** What [p] refers to, and the references from [L] to [o] when [p] refers to
    [k p]. *)
Definition kids (h : heap) (p : ptr) : list ptr := match children h p with Ret l => l | Fault _ => [] end.
Definition inc (k : ptr -> list ptr) (L : list ptr) (o : ptr) : Z := occ o (L ≫= k).

Lemma inc_app k L1 L2 o : inc k (L1 ++ L2) o = inc k L1 o + inc k L2 o.
Proof. unfold inc. by rewrite bind_app, occ_app. Qed.
Lemma inc_cons k p L o : inc k (p :: L) o = occ o (k p) + inc k L o.
Proof. unfold inc. by rewrite bind_cons, occ_app. Qed.
Lemma inc_nil k o : inc k [] o = 0.
Proof. done. Qed.
Lemma inc_nonneg k L o : 0 <= inc k L o.
Proof. apply occ_nonneg. Qed.
#[export] Instance inc_perm k : Proper ((≡ₚ) ==> (=) ==> (=)) (inc k).
Proof. intros L1 L2 HL o ? <-. unfold inc. by rewrite HL. Qed.
Lemma inc_elem k L p o : p ∈ L -> o ∈ k p -> 0 < inc k L o.
Proof. intros Hp Ho. unfold inc. apply occ_elem, list_elem_of_bind. eauto. Qed.

(** Reachability from the objects that satisfy [root]. *)
Inductive reachable (h : heap) (root : ptr -> Prop) : ptr -> Prop :=
  | reachable_root p : root p -> reachable h root p
  | reachable_step p q : reachable h root p -> q ∈ kids h p -> reachable h root q.

(** ** The state the collector starts in *)

Definition cnt (rt : JSRuntime) (p : ptr) : Z := match hdrs rt !! p with Some h => ref_count h | None => 0 end.

(** Every listed object has a count that covers the references from the other
    listed objects, all of which lead to listed objects; the marks are clear. *)
Record gc_ready (rt : JSRuntime) : Prop := {
  rd_nodup : NoDup (gc_obj_list rt);
  rd_hdr : forall p, p ∈ gc_obj_list rt -> hdrs rt !! p = Some (mkHeader (cnt rt p) 0);
  rd_kids : forall p, p ∈ gc_obj_list rt -> children (objs rt) p = Ret (kids (objs rt) p);
  rd_closed : forall p q, p ∈ gc_obj_list rt -> q ∈ kids (objs rt) p -> q ∈ gc_obj_list rt;
  rd_count : forall p, p ∈ gc_obj_list rt -> inc (kids (objs rt)) (gc_obj_list rt) p <= cnt rt p;
  rd_zero : gc_zero_ref_count_list rt = [];
}.

(** A reference from outside the collected objects. *)
Definition external (rt : JSRuntime) (p : ptr) : Prop :=
  p ∈ gc_obj_list rt /\ inc (kids (objs rt)) (gc_obj_list rt) p < cnt rt p.

(** ** Lists *)

Lemma list_next_mid l1 p l2 : p ∉ l1 -> list_next (l1 ++ p :: l2) p = Ret (head l2).
Proof.
  induction l1 as [|q l1 IH]; intros Hn; cbn [app list_next]; [by rewrite decide_True|].
  apply not_elem_of_cons in Hn as [Hq Hn]. rewrite decide_False by congruence. by apply IH.
Qed.

Lemma unlink_app p l1 l2 : unlink p (l1 ++ l2) = unlink p l1 ++ unlink p l2.
Proof. apply filter_app. Qed.
Lemma unlink_notin p l : p ∉ l -> unlink p l = l.
Proof.
  intros Hn. unfold unlink. induction l as [|q l IH]; [done|]. apply not_elem_of_cons in Hn as [Hq Hn].
  rewrite filter_cons_True by congruence. by rewrite IH.
Qed.
Lemma elem_of_unlink p q l : q ∈ unlink p l <-> q <> p /\ q ∈ l.
Proof. unfold unlink. by rewrite list_elem_of_filter. Qed.

Lemma filter_ext {A} (P Q : A -> Prop) `{!forall x, Decision (P x), !forall x, Decision (Q x)} (l : list A) :
  (forall x, x ∈ l -> (P x <-> Q x)) -> filter P l = filter Q l.
Proof.
  induction l as [|x l IH]; intros Hf; [done|]. rewrite !filter_cons, IH by (intros; apply Hf; set_solver).
  assert (P x <-> Q x) by (apply Hf; set_solver). do 2 case_decide; done || tauto.
Qed.

Lemma unlink_filter p (P : ptr -> Prop) `{!forall x, Decision (P x)} (Q : ptr -> Prop) `{!forall x, Decision (Q x)} l :
  (forall q, q ∈ l -> (Q q <-> P q /\ q <> p)) -> unlink p (filter P l) = filter Q l.
Proof.
  intros Hf. unfold unlink. rewrite list_filter_filter. apply filter_ext. intros q Hq. rewrite (Hf q Hq). tauto.
Qed.
#[export] Instance unlink_perm p : Proper ((≡ₚ) ==> (≡ₚ)) (unlink p).
Proof. intros l1 l2 E. unfold unlink. by rewrite E. Qed.
Lemma unlink_cons p l : unlink p (p :: l) = unlink p l.
Proof. unfold unlink. by rewrite filter_cons_False by tauto. Qed.
Lemma cons_unlink p l : NoDup l -> p ∈ l -> p :: unlink p l ≡ₚ l.
Proof.
  intros Hnd [l' Hl]%elem_of_Permutation. rewrite Hl in Hnd. apply NoDup_cons in Hnd as [Hn _].
  rewrite Hl, unlink_cons. by rewrite unlink_notin.
Qed.

(** ** The first pass *)

Section Decref.
Context (rt0 : JSRuntime) (Hready : gc_ready rt0).
Notation all := (gc_obj_list rt0).
Notation h0 := (objs rt0).
Notation cnt0 := (cnt rt0).

Definition mark_of (visited : list ptr) (p : ptr) : Z := if decide (p ∈ visited) then 1 else 0.

(** The objects before the current one are [visited], [todo] are the current
    and the later ones; [sub q] references to [q] have been taken away. *)
Record decref_inv (visited todo : list ptr) (sub : ptr -> Z) (rt : JSRuntime) : Prop := {
  di_all : all = visited ++ todo;
  di_objs : objs rt = h0;
  di_hdr : forall q, q ∈ all -> hdrs rt !! q = Some (mkHeader (cnt0 q - sub q) (mark_of visited q));
  di_gc : gc_obj_list rt = filter (fun q => cnt0 q - sub q <> 0) visited ++ todo;
  di_tmp : tmp_obj_list rt ≡ₚ filter (fun q => cnt0 q - sub q = 0) visited;
  di_zero : gc_zero_ref_count_list rt = [];
  di_other : forall q, q ∉ all -> hdrs rt !! q = hdrs rt0 !! q;
}.

Lemma decref_inv_ext visited todo sub sub' rt : (forall q, sub q = sub' q) ->
  decref_inv visited todo sub rt -> decref_inv visited todo sub' rt.
Proof.
  intros E [H1 H2 H3 H4 H5 H6 H7]. split; [done|done| | | |done|done].
  - intros q Hq. rewrite <- E. by apply H3.
  - rewrite H4. f_equal. apply filter_ext. intros q _. by rewrite E.
  - rewrite H5. erewrite filter_ext; [done|]. intros q _. cbv beta. by rewrite E.
Qed.

Lemma todo_not_visited visited todo q : all = visited ++ todo -> q ∈ todo -> q ∉ visited.
Proof. intros E Ht Hv. pose proof (rd_nodup _ Hready) as Hn. rewrite E in Hn. apply NoDup_app in Hn as (_ & Hd & _). by apply (Hd q). Qed.

(** Moving [q] to the other list when its count becomes zero. *)
Lemma move_to_tmp visited todo sub rt rt' q m : decref_inv visited todo sub rt -> q ∈ all -> q ∈ visited ->
  cnt0 q - sub q <> 0 -> objs rt' = h0 -> gc_obj_list rt' = gc_obj_list rt -> tmp_obj_list rt' = tmp_obj_list rt ->
  gc_zero_ref_count_list rt' = [] ->
  (forall p, p ∈ all -> hdrs rt' !! p = Some (mkHeader (cnt0 p - (sub p + occ p [q])) (mark_of visited p))) ->
  (forall p, p ∉ all -> hdrs rt' !! p = hdrs rt0 !! p) ->
  cnt0 q - (sub q + 1) = 0 -> m = add_tail_tmp (list_del rt' q) q ->
  decref_inv visited todo (fun p => sub p + occ p [q]) m.
Proof.
  intros [H1 H2 H3 H4 H5 H6 H7] Hq Hv Hne E1 E2 E3 E4 Hh Hh' Hz ->.
  assert (Hin : forall p, p ∈ visited -> p <> q -> sub p + occ p [q] = sub p).
  { intros p _ Hp. cbn [occ]. rewrite decide_False by done. lia. }
  assert (Hqq : sub q + occ q [q] = sub q + 1) by (cbn [occ]; rewrite decide_True by done; lia).
  split; cbn [objs hdrs gc_obj_list gc_zero_ref_count_list tmp_obj_list add_tail_tmp list_del set_lists]; try done.
  - rewrite E2, H4, unlink_app. f_equal.
    + apply unlink_filter. intros p Hp. destruct (decide (p = q)) as [->|Hpq].
      * rewrite Hqq. split; [lia|]. intros [_ ?]. done.
      * rewrite Hin by done. tauto.
    + apply unlink_notin. intros Ht. by apply (todo_not_visited visited todo q).
  - rewrite E3, unlink_notin.
    2:{ rewrite H5, list_elem_of_filter. tauto. }
    rewrite H5. apply NoDup_Permutation.
    + apply NoDup_app. split_and!; [| |apply NoDup_singleton].
      * pose proof (rd_nodup _ Hready) as Hn. rewrite H1 in Hn. apply NoDup_app in Hn as [Hn _]. by apply NoDup_filter.
      * intros p. rewrite list_elem_of_filter, list_elem_of_singleton. intros [? _] ->. done.
    + pose proof (rd_nodup _ Hready) as Hn. rewrite H1 in Hn. apply NoDup_app in Hn as [Hn _]. by apply NoDup_filter.
    + intros p. rewrite elem_of_app, !list_elem_of_filter, list_elem_of_singleton.
      destruct (decide (p = q)) as [->|Hpq]; [rewrite Hqq; tauto|].
      split; [intros [[? ?]|?]; [by rewrite Hin|done]|]. intros [Hx Hp]. rewrite Hin in Hx by done. tauto.
  - by rewrite E4.
Qed.

Lemma get_hdr_all rt visited todo sub q : decref_inv visited todo sub rt -> q ∈ all ->
  get_hdr rt q = Ret (mkHeader (cnt0 q - sub q) (mark_of visited q)).
Proof. intros [_ _ H3 _ _ _ _] Hq. unfold get_hdr. by rewrite H3. Qed.

Lemma set_hdr_other rt q m p : (forall p, p ∉ all -> hdrs rt !! p = hdrs rt0 !! p) -> q ∈ all -> p ∉ all ->
  hdrs (set_hdr rt q m) !! p = hdrs rt0 !! p.
Proof. intros Hr Hq Hp. cbn [hdrs set_hdr set_hdrs]. rewrite lookup_insert_ne by (by intros ->). by apply Hr. Qed.

Lemma set_hdr_all rt visited todo sub q : decref_inv visited todo sub rt -> q ∈ all ->
  forall p, p ∈ all -> hdrs (set_hdr rt q (mkHeader (cnt0 q - sub q - 1) (mark_of visited q))) !! p =
    Some (mkHeader (cnt0 p - (sub p + occ p [q])) (mark_of visited p)).
Proof.
  intros [_ _ H3 _ _ _ _] Hq p Hp. cbn [hdrs set_hdr set_hdrs occ]. destruct (decide (q = p)) as [->|Hne].
  - rewrite lookup_insert_eq. do 2 f_equal. lia.
  - rewrite lookup_insert_ne by done. rewrite H3 by done. do 2 f_equal. lia.
Qed.

Lemma decref_child_ok visited todo sub rt q : decref_inv visited todo sub rt -> q ∈ all -> sub q + 1 <= cnt0 q ->
  exists rt', gc_decref_child rt q = Ret rt' /\ decref_inv visited todo (fun p => sub p + occ p [q]) rt'.
Proof.
  intros Hinv Hq Hc. pose proof Hinv as [H1 H2 H3 H4 H5 H6 H7]. unfold gc_decref_child.
  rewrite (get_hdr_all _ _ _ _ _ Hinv Hq). cbn [mbind outcome_bind ref_count mark]. unfold c_assert.
  assert (0 <? cnt0 q - sub q = true) as -> by lia. cbn [mbind outcome_bind].
  pose proof (set_hdr_all _ _ _ _ q Hinv Hq) as Hh.
  pose proof (fun p => set_hdr_other rt q (mkHeader (cnt0 q - sub q - 1) (mark_of visited q)) p H7 Hq) as Hh'. set (rt' := set_hdr rt q _) in *.
  assert (Hqq : sub q + occ q [q] = sub q + 1) by (cbn [occ]; rewrite decide_True by done; lia).
  destruct ((cnt0 q - sub q - 1 =? 0) && (mark_of visited q =? 1)) eqn:E.
  - apply andb_true_iff in E as [Ez Em]. assert (q ∈ visited) as Hv by (unfold mark_of in Em; by case_decide).
    eexists. split; [done|]. apply (move_to_tmp visited todo sub rt rt' q); try done; lia.
  - eexists. split; [done|]. apply andb_false_iff in E.
    assert (Hsame : forall p, p ∈ visited -> (cnt0 p - (sub p + occ p [q]) = 0 <-> cnt0 p - sub p = 0)).
    { intros p Hp. destruct (decide (p = q)) as [->|Hne].
      - rewrite Hqq. destruct E as [E|E]; [lia|]. unfold mark_of in E. by rewrite decide_True in E.
      - cbn [occ]. rewrite decide_False by done. split; lia. }
    split; try done; cbn [objs gc_obj_list tmp_obj_list rt' set_hdr set_hdrs].
    + rewrite H4. f_equal. apply filter_ext. intros p Hp. specialize (Hsame p Hp). tauto.
    + rewrite H5. erewrite filter_ext; [done|]. intros p Hp. specialize (Hsame p Hp). cbv beta. tauto.
Qed.

Lemma decref_children_ok ks : forall visited todo sub rt, decref_inv visited todo sub rt -> (forall q, q ∈ ks -> q ∈ all) ->
  (forall q, q ∈ ks -> sub q + occ q ks <= cnt0 q) ->
  exists rt', foldM gc_decref_child rt ks = Ret rt' /\ decref_inv visited todo (fun p => sub p + occ p ks) rt'.
Proof.
  induction ks as [|q ks IH]; intros visited todo sub rt Hinv Hin Hc; cbn [foldM].
  - exists rt. split; [done|]. eapply decref_inv_ext; [|done]. intros p. cbn [occ]. lia.
  - assert (Hocc : forall p, occ p (q :: ks) = occ p [q] + occ p ks) by (intros p; cbn [occ]; lia).
    destruct (decref_child_ok visited todo sub rt q) as (rt1 & E1 & Hinv1); [done|set_solver| |].
    { specialize (Hc q ltac:(set_solver)). cbn [occ] in Hc. rewrite decide_True in Hc by done. pose proof (occ_nonneg q ks). lia. }
    rewrite E1. cbn [mbind outcome_bind].
    destruct (IH visited todo (fun p => sub p + occ p [q]) rt1 Hinv1) as (rt2 & E2 & Hinv2).
    + set_solver.
    + intros p Hp. cbv beta. specialize (Hc p ltac:(set_solver)). rewrite Hocc in Hc. lia.
    + exists rt2. split; [done|]. eapply decref_inv_ext; [|done]. intros p. cbv beta. rewrite Hocc. lia.
Qed.

(** One object of the list, and the loop. *)
Lemma mark_of_snoc visited p q : mark_of (visited ++ [p]) q = if decide (q = p) then 1 else mark_of visited q.
Proof. unfold mark_of. repeat case_decide; set_solver. Qed.

Lemma decref_obj_ok visited p todo rt : decref_inv visited (p :: todo) (inc (kids h0) visited) rt ->
  exists rt', gc_decref_obj rt p = Ret rt' /\ decref_inv (visited ++ [p]) todo (inc (kids h0) (visited ++ [p])) rt'.
Proof.
  intros Hinv. pose proof Hinv as [H1 H2 H3 H4 H5 H6 H7]. assert (p ∈ all) as Hp by (rewrite H1; set_solver).
  assert (p ∉ visited) as Hnv by (apply (todo_not_visited visited (p :: todo)); [done|set_solver]).
  unfold gc_decref_obj. rewrite (get_hdr_all _ _ _ _ _ Hinv Hp). cbn [mbind outcome_bind mark].
  unfold mark_of at 1. rewrite decide_False by done. cbn [c_assert Z.eqb mbind outcome_bind].
  unfold mark_children. rewrite H2, (rd_kids _ Hready p Hp). cbn [mbind outcome_bind].
  destruct (decref_children_ok (kids h0 p) visited (p :: todo) (inc (kids h0) visited) rt Hinv) as (rt1 & E1 & Hinv1).
  { intros q Hq. by apply (rd_closed _ Hready p). }
  { intros q Hq. pose proof (rd_count _ Hready q ltac:(by apply (rd_closed _ Hready p))) as Hc.
    rewrite H1, inc_app, inc_cons in Hc. pose proof (inc_nonneg (kids h0) todo q). lia. }
  set (sub := fun q => inc (kids h0) visited q + occ q (kids h0 p)) in *.
  rewrite E1. cbn [mbind outcome_bind]. rewrite (get_hdr_all _ _ _ _ _ Hinv1 Hp). cbn [mbind outcome_bind ref_count].
  assert (Hsub : forall q, sub q = inc (kids h0) (visited ++ [p]) q).
  { intros q. subst sub. cbv beta. rewrite inc_app, inc_cons, inc_nil. lia. }
  set (rt2 := set_hdr rt1 p _). pose proof Hinv1 as [G1 G2 G3 G4 G5 G6 G7].
  assert (Hh' : forall q, q ∉ all -> hdrs rt2 !! q = hdrs rt0 !! q) by (intros q Hq; by apply set_hdr_other).
  assert (Hh : forall q, q ∈ all -> hdrs rt2 !! q = Some (mkHeader (cnt0 q - sub q) (mark_of (visited ++ [p]) q))).
  { intros q Hq. subst rt2. cbn [hdrs set_hdr set_hdrs]. rewrite mark_of_snoc. destruct (decide (p = q)) as [->|Hne].
    - by rewrite lookup_insert_eq, decide_True.
    - rewrite lookup_insert_ne by done. rewrite decide_False by congruence. by apply G3. }
  assert (all = (visited ++ [p]) ++ todo) as Hall by (by rewrite H1, <- app_assoc).
  assert (p ∉ todo) as Hnt.
  { pose proof (rd_nodup _ Hready) as Hn. rewrite Hall in Hn. apply NoDup_app in Hn as (_ & Hd & _). apply Hd. set_solver. }
  destruct (Z.eqb_spec (cnt0 p - sub p) 0) as [Hz|Hz]; (eexists; split; [done|]; eapply decref_inv_ext; [exact Hsub|]).
  - split; cbn [objs hdrs gc_obj_list gc_zero_ref_count_list tmp_obj_list add_tail_tmp list_del set_lists rt2 set_hdr set_hdrs] in *; try done.
    + rewrite G4, unlink_app, filter_app. cbn [unlink]. rewrite (filter_cons_False _ _ []) by (cbv beta; lia).
      rewrite filter_nil, app_nil_r. f_equal.
      * apply unlink_filter. intros q Hq. split; [|tauto]. intros ?. split; [done|]. intros ->. done.
      * unfold unlink. rewrite filter_cons_False by tauto. by apply unlink_notin.
    + rewrite unlink_notin by (rewrite G5, list_elem_of_filter; tauto).
      rewrite filter_app, (filter_cons_True _ _ []), filter_nil, G5 by (cbv beta; lia). done.
    + by rewrite G6.
  - split; cbn [objs hdrs gc_obj_list gc_zero_ref_count_list tmp_obj_list add_tail_tmp list_del set_lists rt2 set_hdr set_hdrs] in *; try done.
    + rewrite G4, filter_app, (filter_cons_True _ _ []), filter_nil by (cbv beta; lia). by rewrite <- app_assoc.
    + rewrite filter_app, (filter_cons_False _ _ []), filter_nil, app_nil_r by (cbv beta; lia). done.
Qed.

Lemma gc_decref_ok : exists rt, gc_decref rt0 = Ret rt /\ decref_inv all [] (inc (kids h0) all) rt.
Proof.
  unfold gc_decref. set (rt1 := set_lists rt0 _ _ _).
  assert (Hinv : decref_inv [] all (inc (kids h0) []) rt1).
  { split; try done; [|cbn; apply (rd_zero _ Hready)]. intros q Hq. cbn [hdrs rt1 set_lists]. rewrite inc_nil, Z.sub_0_r.
    unfold mark_of. rewrite decide_False by apply not_elem_of_nil. by apply (rd_hdr _ Hready). }
  assert (Hloop : forall todo visited rt fuel, decref_inv visited todo (inc (kids h0) visited) rt -> (length todo < fuel)%nat ->
    exists rt', loop fuel (fun '(el, rt) =>
      match el with
      | None => Ret (inr rt)
      | Some p => el1 ← list_next (gc_obj_list rt) p; rt ← gc_decref_obj rt p; Ret (inl (el1, rt))
      end) (head todo, rt) = Ret rt' /\ decref_inv all [] (inc (kids h0) all) rt').
  { induction todo as [|p todo IH]; intros visited rt fuel Hi Hf; (destruct fuel as [|fuel]; [cbn in Hf; lia|]); cbn [loop head].
    - exists rt. split; [done|]. pose proof (di_all _ _ _ _ Hi) as E. rewrite app_nil_r in E. by rewrite E.
    - assert (p ∉ visited) by (apply (todo_not_visited visited (p :: todo)); [apply Hi|set_solver]).
      rewrite (di_gc _ _ _ _ Hi), list_next_mid by (rewrite list_elem_of_filter; tauto). cbn [mbind outcome_bind].
      destruct (decref_obj_ok visited p todo rt Hi) as (rt' & E & Hi'). rewrite E. cbn [mbind outcome_bind].
      apply (IH (visited ++ [p])); [done|]. cbn in Hf. lia. }
  apply (Hloop all [] rt1); [done|]. cbn [gc_obj_list set_lists rt1]. lia.
Qed.
End Decref.

(** ** The second pass *)

Section Scan.
Context (rt0 : JSRuntime) (Hready : gc_ready rt0).
Notation all := (gc_obj_list rt0).
Notation h0 := (objs rt0).
Notation ext := (fun q => cnt rt0 q - inc (kids h0) all q).
Notation root := (external rt0).

(** The references from [seen] have been given back, and some more ([add]);
    the listed objects are those with a count. *)
Record scan_inv (seen rest : list ptr) (add : ptr -> Z) (rt : JSRuntime) : Prop := {
  si_objs : objs rt = h0;
  si_gc : gc_obj_list rt = seen ++ rest;
  si_all : gc_obj_list rt ++ tmp_obj_list rt ≡ₚ all;
  si_hdr : forall q, q ∈ all -> exists m, hdrs rt !! q = Some (mkHeader (ext q + add q) m) /\ (q ∈ seen -> m = 0);
  si_count : forall q, q ∈ all -> (q ∈ gc_obj_list rt <-> 0 < ext q + add q);
  si_reach : forall q, q ∈ gc_obj_list rt -> reachable h0 root q;
  si_zero : gc_zero_ref_count_list rt = [];
  si_other : forall q, q ∉ all -> hdrs rt !! q = hdrs rt0 !! q;
}.

Lemma scan_inv_ext seen rest add add' rt : (forall q, add q = add' q) -> scan_inv seen rest add rt -> scan_inv seen rest add' rt.
Proof.
  intros E [H1 H2 H3 H4 H5 H6 H7 H8]. split; try done; intros q Hq; rewrite <- E; auto.
Qed.

Lemma scan_child_ok seen rest add rt q : scan_inv seen rest add rt -> q ∈ all -> 0 <= ext q + add q ->
  reachable h0 root q ->
  exists rt' rest', gc_scan_incref_child rt q = Ret rt' /\ scan_inv seen rest' (fun p => add p + occ p [q]) rt'.
Proof.
  intros Hinv Hq Hnn Hr. pose proof Hinv as [H1 H2 H3 H4 H5 H6 H7 H8]. unfold gc_scan_incref_child, get_hdr.
  destruct (H4 q Hq) as (m & Hm & Hseen). rewrite Hm. cbn [mbind outcome_bind ref_count mark].
  assert (Hqq : add q + occ q [q] = add q + 1) by (cbn [occ]; rewrite decide_True by done; lia).
  assert (Hpq : forall p, p <> q -> add p + occ p [q] = add p) by (intros p Hp; cbn [occ]; rewrite decide_False by done; lia).
  destruct (Z.eqb_spec (ext q + add q + 1) 1) as [Hz|Hz].
  - assert (q ∉ gc_obj_list rt) as Hng by (rewrite H5 by done; lia).
    assert (q ∈ tmp_obj_list rt) as Hin by (rewrite <- H3, elem_of_app in Hq; tauto).
    assert (NoDup (gc_obj_list rt ++ tmp_obj_list rt)) as Hnd by (rewrite H3; apply (rd_nodup _ Hready)).
    apply NoDup_app in Hnd as (_ & _ & Hnd).
    exists (set_hdr (add_tail_gc (list_del rt q) q) q (mkHeader (ext q + add q + 1) 0)), (rest ++ [q]). split; [done|].
    split; cbn [objs hdrs gc_obj_list gc_zero_ref_count_list tmp_obj_list set_hdr set_hdrs add_tail_gc list_del set_lists].
    + done.
    + rewrite unlink_notin by done. by rewrite H2, app_assoc.
    + rewrite unlink_notin by done. rewrite <- H3, <- app_assoc. f_equiv. cbn [app].
      by apply cons_unlink.
    + intros p Hp. destruct (decide (p = q)) as [->|Hne].
      * exists 0. split; [|done]. rewrite lookup_insert_eq, Hqq. do 2 f_equal. lia.
      * rewrite lookup_insert_ne by done. rewrite Hpq by done. by apply H4.
    + intros p Hp. rewrite unlink_notin by done. rewrite elem_of_app, list_elem_of_singleton.
      destruct (decide (p = q)) as [->|Hne]; [rewrite Hqq; split; [lia|auto]|]. rewrite Hpq by done. rewrite H5 by done. split; [intros [|]; done|auto].
    + intros p. rewrite unlink_notin by done. rewrite elem_of_app, list_elem_of_singleton. intros [Hp| ->]; [by apply H6|done].
    + by rewrite H7.
    + intros p Hp. by apply set_hdr_other.
  - exists (set_hdr rt q (mkHeader (ext q + add q + 1) m)), rest. split; [done|].
    split; cbn [objs hdrs gc_obj_list gc_zero_ref_count_list tmp_obj_list set_hdr set_hdrs]; try done.
    + intros p Hp. destruct (decide (p = q)) as [->|Hne].
      * exists m. split; [|done]. rewrite lookup_insert_eq, Hqq. do 2 f_equal. lia.
      * rewrite lookup_insert_ne by done. rewrite Hpq by done. by apply H4.
    + intros p Hp. rewrite H5 by done. destruct (decide (p = q)) as [->|Hne]; [rewrite Hqq; lia|]. by rewrite Hpq.
    + intros p Hp. by apply set_hdr_other.
Qed.

Lemma scan_children_ok ks : forall seen rest add rt, scan_inv seen rest add rt ->
  (forall q, q ∈ ks -> q ∈ all /\ 0 <= ext q + add q /\ reachable h0 root q) ->
  exists rt' rest', foldM gc_scan_incref_child rt ks = Ret rt' /\ scan_inv seen rest' (fun p => add p + occ p ks) rt'.
Proof.
  induction ks as [|q ks IH]; intros seen rest add rt Hinv Hks; cbn [foldM].
  - exists rt, rest. split; [done|]. eapply scan_inv_ext; [|done]. intros p. cbn [occ]. lia.
  - destruct (Hks q ltac:(set_solver)) as (Hq & Hn & Hr).
    destruct (scan_child_ok seen rest add rt q Hinv Hq Hn Hr) as (rt1 & rest1 & E1 & Hinv1). rewrite E1. cbn [mbind outcome_bind].
    destruct (IH seen rest1 _ rt1 Hinv1) as (rt2 & rest2 & E2 & Hinv2).
    { intros p Hp. destruct (Hks p ltac:(set_solver)) as (? & ? & ?). split_and!; [done| |done]. pose proof (occ_nonneg p [q]). lia. }
    exists rt2, rest2. split; [done|]. eapply scan_inv_ext; [|done]. intros p. cbv beta. cbn [occ]. lia.
Qed.

Lemma scan_gc_nodup seen rest add rt : scan_inv seen rest add rt -> NoDup (seen ++ rest) /\ (length (seen ++ rest) <= length all)%nat.
Proof.
  intros [H1 H2 H3 H4 H5 H6 H7 H8]. assert (NoDup (gc_obj_list rt ++ tmp_obj_list rt)) as Hnd by (rewrite H3; apply (rd_nodup _ Hready)).
  apply NoDup_app in Hnd as (Hnd & _ & _). rewrite H2 in Hnd. split; [done|].
  apply Permutation_length in H3. rewrite length_app in H3. rewrite <- H2. lia.
Qed.
Lemma scan_in_all seen rest add rt q : scan_inv seen rest add rt -> q ∈ seen ++ rest -> q ∈ all.
Proof. intros [H1 H2 H3 H4 H5 H6 H7 H8] Hq. rewrite <- H3, H2, elem_of_app. by left. Qed.

Lemma scan_obj_ok seen p rest rt : scan_inv seen (p :: rest) (inc (kids h0) seen) rt ->
  exists rt' rest', gc_scan_obj rt p = Ret rt' /\ scan_inv (seen ++ [p]) rest' (inc (kids h0) (seen ++ [p])) rt'.
Proof.
  intros Hinv. pose proof Hinv as [H1 H2 H3 H4 H5 H6 H7 H8].
  assert (p ∈ all) as Hp by (apply (scan_in_all _ _ _ _ _ Hinv); set_solver).
  assert (p ∈ gc_obj_list rt) as Hpg by (rewrite H2; set_solver).
  unfold gc_scan_obj, get_hdr. destruct (H4 p Hp) as (m & Hm & _). rewrite Hm. cbn [mbind outcome_bind ref_count].
  pose proof (proj1 (H5 p Hp) Hpg) as Hpos. unfold c_assert.
  assert (0 <? ext p + inc (kids h0) seen p = true) as -> by lia. cbn [mbind outcome_bind].
  set (rt1 := set_hdr rt p _).
  assert (Hinv1 : scan_inv (seen ++ [p]) rest (inc (kids h0) seen) rt1).
  { split; try done; cbn [gc_obj_list rt1 set_hdr set_hdrs]; [by rewrite H2, <- app_assoc| |by intros q Hq; apply set_hdr_other]. intros q Hq.
    cbn [hdrs rt1 set_hdr set_hdrs]. destruct (decide (p = q)) as [->|Hne]; [exists 0; by rewrite lookup_insert_eq|].
    rewrite lookup_insert_ne by done. destruct (H4 q Hq) as (m' & Hm' & Hs). exists m'. split; [done|]. set_solver. }
  unfold mark_children. cbn [objs rt1 set_hdr set_hdrs]. rewrite H1, (rd_kids _ Hready p Hp). cbn [mbind outcome_bind].
  destruct (scan_children_ok (kids h0 p) _ rest _ rt1 Hinv1) as (rt2 & rest2 & E2 & Hinv2).
  { intros q Hq. pose proof (rd_closed _ Hready p q Hp Hq) as Hqa. pose proof (rd_count _ Hready q Hqa).
    pose proof (inc_nonneg (kids h0) seen q). split_and!; [done|lia|]. apply (reachable_step _ _ p); [by apply H6|done]. }
  exists rt2, rest2. split; [done|]. eapply scan_inv_ext; [|done]. intros q. rewrite inc_app, inc_cons, inc_nil. lia.
Qed.

Lemma gc_scan_live_ok rt : scan_inv [] (gc_obj_list rt) (inc (kids h0) []) rt ->
  exists rt', gc_scan_live rt = Ret rt' /\ scan_inv (gc_obj_list rt') [] (inc (kids h0) (gc_obj_list rt')) rt'.
Proof.
  intros Hinv. unfold gc_scan_live. assert (length (gc_obj_list rt ++ tmp_obj_list rt) = length all) as ->
    by (apply Permutation_length, Hinv).
  assert (Hloop : forall fuel seen rest rt, scan_inv seen rest (inc (kids h0) seen) rt -> (length all - length seen < fuel)%nat ->
    exists rt', loop fuel (fun '(el, rt) =>
      match el with
      | None => Ret (inr rt)
      | Some p => rt ← gc_scan_obj rt p; el ← list_next (gc_obj_list rt) p; Ret (inl (el, rt))
      end) (head rest, rt) = Ret rt' /\ scan_inv (gc_obj_list rt') [] (inc (kids h0) (gc_obj_list rt')) rt').
  { induction fuel as [|fuel IH]; intros seen rest rt1 Hi Hf; [lia|]. cbn [loop].
    destruct rest as [|p rest]; cbn [head].
    - exists rt1. split; [done|]. pose proof (si_gc _ _ _ _ Hi) as E. rewrite app_nil_r in E. by rewrite E.
    - destruct (scan_obj_ok seen p rest rt1 Hi) as (rt2 & rest2 & E2 & Hi2). rewrite E2. cbn [mbind outcome_bind].
      destruct (scan_gc_nodup _ _ _ _ Hi2) as [Hnd Hlen]. rewrite (si_gc _ _ _ _ Hi2), <- app_assoc. cbn [app].
      rewrite list_next_mid.
      2:{ rewrite <- app_assoc in Hnd. apply NoDup_app in Hnd as (_ & Hd & _). intros Hs. by apply (Hd p Hs); set_solver. }
      cbn [mbind outcome_bind]. apply (IH (seen ++ [p])); [done|]. rewrite !length_app in *. cbn [length] in *. lia. }
  apply (Hloop _ [] (gc_obj_list rt) rt); [done|cbn; lia].
Qed.

(** The counts of the others come back. *)
Lemma scan_dead_child ks : forall (add : ptr -> Z) rt, (forall q, q ∈ all -> exists m, hdrs rt !! q = Some (mkHeader (ext q + add q) m)) ->
  (forall q, q ∈ ks -> q ∈ all) ->
  exists rt', foldM gc_scan_incref_child2 rt ks = Ret rt' /\
    objs rt' = objs rt /\ gc_obj_list rt' = gc_obj_list rt /\ tmp_obj_list rt' = tmp_obj_list rt /\
    gc_zero_ref_count_list rt' = gc_zero_ref_count_list rt /\ (forall q, q ∉ all -> hdrs rt' !! q = hdrs rt !! q) /\
    forall q, q ∈ all -> exists m, hdrs rt' !! q = Some (mkHeader (ext q + (add q + occ q ks)) m) /\
      exists c, hdrs rt !! q = Some (mkHeader c m).
Proof.
  induction ks as [|p ks IH]; intros add rt Hh Hks; cbn [foldM].
  - exists rt. split_and!; try done. intros q Hq. destruct (Hh q Hq) as [m Hm]. exists m. cbn [occ]. rewrite Z.add_0_r. eauto.
  - unfold gc_scan_incref_child2 at 1, get_hdr. destruct (Hh p ltac:(set_solver)) as [m Hm]. rewrite Hm. cbn [mbind outcome_bind ref_count mark].
    set (rt1 := set_hdr rt p _).
    destruct (IH (fun q => add q + occ q [p]) rt1) as (rt2 & E2 & O2 & G2 & T2 & Z2 & N2 & H2).
    + intros q Hq. cbn [hdrs rt1 set_hdr set_hdrs occ]. destruct (decide (p = q)) as [->|Hne].
      * exists m. rewrite lookup_insert_eq. do 2 f_equal. lia.
      * rewrite lookup_insert_ne by done. destruct (Hh q Hq) as [m' Hm']. exists m'. rewrite Hm'. do 2 f_equal. lia.
    + set_solver.
    + exists rt2. split_and!; try done.
      { intros q Hq. rewrite N2 by done. cbn [hdrs rt1 set_hdr set_hdrs]. apply lookup_insert_ne. intros ->. apply Hq, Hks. set_solver. }
      intros q Hq. destruct (H2 q Hq) as (m' & Hm' & c & Hc). exists m'. split.
      * rewrite Hm'. cbn [occ]. do 2 f_equal. lia.
      * cbn [hdrs rt1 set_hdr set_hdrs] in Hc. destruct (decide (p = q)) as [->|Hne].
        -- rewrite lookup_insert_eq in Hc. injection Hc as _ ->. eauto.
        -- rewrite lookup_insert_ne in Hc by done. eauto.
Qed.

Lemma scan_dead_ok L : forall (add : ptr -> Z) rt, objs rt = h0 ->
  (forall q, q ∈ all -> exists m, hdrs rt !! q = Some (mkHeader (ext q + add q) m)) ->
  (forall q, q ∈ L -> q ∈ all) ->
  exists rt', foldM (fun rt p => mark_children rt p gc_scan_incref_child2) rt L = Ret rt' /\
    objs rt' = objs rt /\ gc_obj_list rt' = gc_obj_list rt /\ tmp_obj_list rt' = tmp_obj_list rt /\
    gc_zero_ref_count_list rt' = gc_zero_ref_count_list rt /\ (forall q, q ∉ all -> hdrs rt' !! q = hdrs rt !! q) /\
    forall q, q ∈ all -> exists m, hdrs rt' !! q = Some (mkHeader (ext q + (add q + inc (kids h0) L q)) m) /\
      exists c, hdrs rt !! q = Some (mkHeader c m).
Proof.
  induction L as [|p L IH]; intros add rt Ho Hh HL; cbn [foldM].
  - exists rt. split_and!; try done. intros q Hq. destruct (Hh q Hq) as [m Hm]. exists m. rewrite inc_nil, Z.add_0_r. eauto.
  - assert (p ∈ all) as Hp by (apply HL; set_solver). unfold mark_children at 1.
    rewrite Ho, (rd_kids _ Hready p Hp). cbn [mbind outcome_bind].
    destruct (scan_dead_child (kids h0 p) add rt Hh) as (rt1 & E1 & O1 & G1 & T1 & Z1 & N1 & H1).
    { intros q Hq. by apply (rd_closed _ Hready p). }
    rewrite E1. cbn [mbind outcome_bind].
    destruct (IH (fun q => add q + occ q (kids h0 p)) rt1) as (rt2 & E2 & O2 & G2 & T2 & Z2 & N2 & H2).
    { congruence. } { intros q Hq. destruct (H1 q Hq) as (m & Hm & _). by exists m. } { set_solver. }
    exists rt2. split_and!; try congruence; [by intros q Hq; rewrite N2, N1|]. intros q Hq. destruct (H2 q Hq) as (m & Hm & c & Hc). exists m. split.
    + rewrite Hm, inc_cons. do 2 f_equal. lia.
    + destruct (H1 q Hq) as (m1 & Hm1 & c' & Hc'). rewrite Hm1 in Hc. injection Hc as _ ->. eauto.
Qed.
End Scan.

(** ** What the two passes do *)

(** The outcome of trial deletion. *)
Record gc_separated (rt0 rt : JSRuntime) : Prop := {
  sp_objs : objs rt = objs rt0;
  sp_split : gc_obj_list rt ++ tmp_obj_list rt ≡ₚ gc_obj_list rt0;
  sp_live : forall p, p ∈ gc_obj_list rt0 -> (p ∈ gc_obj_list rt <-> reachable (objs rt0) (external rt0) p);
  sp_count : forall p, p ∈ gc_obj_list rt0 -> cnt rt p = cnt rt0 p;
  sp_hdr : forall p, p ∈ gc_obj_list rt0 -> exists m, hdrs rt !! p = Some (mkHeader (cnt rt0 p) m) /\ (p ∈ gc_obj_list rt -> m = 0);
  sp_zero : gc_zero_ref_count_list rt = [];
  sp_other : forall p, p ∉ gc_obj_list rt0 -> hdrs rt !! p = hdrs rt0 !! p;
}.

Lemma reachable_listed rt p : gc_ready rt -> reachable (objs rt) (external rt) p -> p ∈ gc_obj_list rt.
Proof. intros Hr. induction 1 as [p [Hp _]|p q _ IH Hq]; [done|]. by apply (rd_closed _ Hr p). Qed.

Lemma trial_deletion_ok rt0 : gc_ready rt0 ->
  exists rt, (rt1 ← gc_decref rt0; gc_scan rt1) = Ret rt /\ gc_separated rt0 rt.
Proof.
  intros Hready. destruct (gc_decref_ok rt0 Hready) as (rt1 & E1 & [D1 D2 D3 D4 D5 D6 D7]). rewrite E1. cbn [mbind outcome_bind].
  rewrite app_nil_r in D4. set (all := gc_obj_list rt0) in *. set (h0 := objs rt0) in *.
  assert (Hcount : forall p, p ∈ all -> inc (kids h0) all p <= cnt rt0 p) by apply (rd_count _ Hready).
  assert (Hinv : scan_inv rt0 [] (gc_obj_list rt1) (inc (kids h0) []) rt1).
  { split; try done.
    - rewrite D4, D5, (filter_ext (fun q => cnt rt0 q - inc (kids h0) all q = 0) (fun q => ~ (cnt rt0 q - inc (kids h0) all q <> 0))) by (intros; lia).
      apply filter_app_complement.
    - intros q Hq. exists (mark_of all q). rewrite inc_nil, Z.add_0_r. split; [by apply D3|]. intros []%not_elem_of_nil.
    - intros q Hq. rewrite D4, list_elem_of_filter, inc_nil, Z.add_0_r. specialize (Hcount q Hq).
      change (inc (kids (objs rt0)) (gc_obj_list rt0) q) with (inc (kids h0) all q).
      split; [lia|]. intros; split; [lia|done].
    - intros q Hq. rewrite D4, list_elem_of_filter in Hq. destruct Hq as [Hne Hq]. apply reachable_root. split; [done|].
      specialize (Hcount q Hq). change (inc (kids h0) all q < cnt rt0 q). lia. }
  unfold gc_scan. destruct (gc_scan_live_ok rt0 Hready rt1 Hinv) as (rt2 & E2 & [S1 S2 S3 S4 S5 S6 S7 S8]). rewrite E2. cbn [mbind outcome_bind].
  destruct (scan_dead_ok rt0 Hready (tmp_obj_list rt2) (inc (kids h0) (gc_obj_list rt2)) rt2 S1) as (rt3 & E3 & O3 & G3 & T3 & Z3 & N3 & H3).
  { intros q Hq. destruct (S4 q Hq) as (m & Hm & _). by exists m. } { intros q Hq. rewrite <- S3, elem_of_app. by right. }
  exists rt3. split; [done|].
  assert (Hsum : forall q, inc (kids h0) (gc_obj_list rt2) q + inc (kids h0) (tmp_obj_list rt2) q = inc (kids h0) all q).
  { intros q. by rewrite <- inc_app, S3. }
  assert (Hh : forall p, p ∈ all -> exists m, hdrs rt3 !! p = Some (mkHeader (cnt rt0 p) m) /\ (p ∈ gc_obj_list rt3 -> m = 0)).
  { intros p Hp. destruct (H3 p Hp) as (m & Hm & c & Hc). exists m. rewrite Hsum in Hm. change (inc (kids (objs rt0)) (gc_obj_list rt0) p) with (inc (kids h0) all p) in Hm.
    split; [rewrite Hm; do 2 f_equal; lia|].
    rewrite G3. intros Hg. destruct (S4 p Hp) as (m' & Hm' & Hz). rewrite Hm' in Hc. injection Hc as _ ->. by apply Hz. }
  split; try done.
  - congruence.
  - by rewrite G3, T3.
  - intros p Hp. rewrite G3. split; [apply S6|]. clear Hp. induction 1 as [p [Hp Hlt]|p q Hr IH Hq].
    + apply S5; [done|]. change (inc (kids h0) all p < cnt rt0 p) in Hlt. change (0 < cnt rt0 p - inc (kids h0) all p + inc (kids h0) (gc_obj_list rt2) p). pose proof (inc_nonneg (kids h0) (gc_obj_list rt2) p). lia.
    + assert (q ∈ all) as Hqa by (apply (rd_closed _ Hready p); [by apply (reachable_listed rt0)|done]).
      apply S5; [done|]. pose proof (inc_elem (kids h0) _ p q IH Hq). specialize (Hcount q Hqa). change (0 < cnt rt0 q - inc (kids h0) all q + inc (kids h0) (gc_obj_list rt2) q). lia.
  - intros p Hp. destruct (Hh p Hp) as (m & Hm & _). unfold cnt at 1. by rewrite Hm.
  - by rewrite Z3.
  - intros p Hp. by rewrite N3, S8.
Qed.
