(* ===== verification/GcFree.v ===== *)
(** * The cycle collector: releasing objects ([quickjs.c])

    What the finalizers and the [free_*] functions give back, and the collector
    itself ([JS_RunGC]).  A finalizer is the list of its steps: the references
    it drops ([F_free]), the objects whose [free_mark] it reads ([F_live]), the
    frames whose variables it closes ([F_close]) and the records it takes from
    the list of their weak key ([F_delete_weak]).  Memory that is not a
    collected object (strings, the record an iterator points at, tables) is not
    followed. *)

From S2P Require Import Prelude GcObjects GcRuntime.

(** A counted reference, with the function that gives it back. *)
Inductive gc_ref :=
  | R_value (v : JSValue)          (* JS_FreeValueRT *)
  | R_shape (p : ptr)              (* js_free_shape *)
  | R_var_ref (p : ptr)            (* free_var_ref *)
  | R_context (p : ptr)            (* JS_FreeContext *)
  | R_async (p : ptr).             (* js_async_function_free *)

Inductive fin_step :=
  | F_free (r : gc_ref)
  | F_live (p : ptr)
  | F_close (sf : JSStackFrame)
  | F_delete_weak (key : JSValue) (mr : ptr).

Definition free_value (v : JSValue) : list fin_step := [F_free (R_value v)].
Definition free_values (l : list JSValue) : list fin_step := l ≫= free_value.
Definition free_pair (v : JSValue * JSValue) : list fin_step := free_value v.1 ++ free_value v.2.
Definition free_obj_opt (p : option ptr) : list fin_step :=
  match p with Some p => free_value (JS_OBJ p) | None => [] end.
Definition free_var_ref_opt (p : option ptr) : list fin_step :=
  match p with Some p => [F_free (R_var_ref p)] | None => [] end.
Definition free_context_opt (p : option ptr) : list fin_step :=
  match p with Some p => [F_free (R_context p)] | None => [] end.
Definition free_opt_value (d : option JSValue) : list fin_step := match d with Some v => free_value v | None => [] end.
Definition free_opt_pair (d : option (JSValue * JSValue)) : list fin_step := match d with Some v => free_pair v | None => [] end.

(** [free_property(rt, pr, prop_flags)] *)
Definition free_property (prs : JSShapeProperty) (pr : JSProperty) : outcome (list fin_step) :=
  let t := Z.land (sp_flags prs) JS_PROP_TMASK in
  if negb (t =? 0) then
    if t =? JS_PROP_GETSET then
      match pr with U_getset getter setter => Ret (free_obj_opt getter ++ free_obj_opt setter) | _ => wrong_member end
    else if t =? JS_PROP_VARREF then
      match pr with U_var_ref p => Ret [F_free (R_var_ref p)] | _ => wrong_member end
    else if t =? JS_PROP_AUTOINIT then
      match pr with U_init realm => Ret [F_free (R_context realm)] | _ => wrong_member end   (* js_autoinit_free *)
    else Ret []
  else match pr with U_value v => Ret (free_value v) | _ => wrong_member end.

Fixpoint free_properties (prs : list JSShapeProperty) (pr : list JSProperty) : outcome (list fin_step) :=
  match prs, pr with
  | [], _ => Ret []
  | s :: prs, p :: pr => l ← free_property s p; l' ← free_properties prs pr; Ret (l ++ l')
  | _ :: _, [] => Fault OutOfBounds
  end.

(** [async_func_free(rt, s)] *)
Definition async_func_free (s : JSAsyncFunctionState) : outcome (list fin_step) :=
  let sf := frame s in
  l ← match arg_buf sf with
      | None => Ret []
      | Some buf => match cur_sp sf with
                    | None => Fault AssertFailed
                    | Some sp => l ← rd_range buf 0 sp; Ret (free_values l)
                    end
      end;
  Ret ([F_close sf] ++ l ++ free_value (cur_func sf) ++ free_value (this_val s)).

(** *** The finalizers of the classes *)

Definition js_array_finalizer (u : JSObjectUnion) : outcome (list fin_step) :=
  match u with U_array values => Ret (free_values values) | _ => wrong_member end.
Definition js_object_data_finalizer (u : JSObjectUnion) : outcome (list fin_step) :=
  match u with U_object_data v => Ret (free_value v) | _ => wrong_member end.
Definition js_c_function_finalizer (u : JSObjectUnion) : outcome (list fin_step) :=
  match u with U_cfunc realm => Ret (free_context_opt realm) | _ => wrong_member end.

Definition js_bytecode_function_finalizer (h : heap) (u : JSObjectUnion) : outcome (list fin_step) :=
  match u with
  | U_func home_object b var_refs =>
      l ← match b with
          | None => Ret []
          | Some b =>
              l ← match var_refs with
                  | Some var_refs =>
                      f ← get_bytecode_of h b;
                      let n := Z.to_nat (closure_var_count f) in
                      if (length var_refs <? n)%nat then Fault OutOfBounds
                      else Ret (take n var_refs ≫= free_var_ref_opt)
                  | None => Ret []
                  end;
              Ret (l ++ free_value (JS_BYTECODE b))
          end;
      Ret (free_obj_opt home_object ++ l)
  | _ => wrong_member
  end.

Definition js_bound_function_finalizer (u : JSObjectUnion) : outcome (list fin_step) :=
  match u with
  | U_bound_function f t argv => Ret (free_value f ++ free_value t ++ free_values argv)
  | _ => wrong_member
  end.
Definition js_c_function_data_finalizer (u : JSObjectUnion) : outcome (list fin_step) :=
  match u with U_c_function_data d => Ret (free_values (default [] d)) | _ => wrong_member end.
Definition js_for_in_iterator_finalizer (u : JSObjectUnion) : outcome (list fin_step) :=
  match u with U_for_in_iterator obj => Ret (free_value obj) | _ => wrong_member end.
Definition js_typed_array_finalizer (u : JSObjectUnion) : outcome (list fin_step) :=
  match u with
  | U_typed_array None => Ret []
  | U_typed_array (Some b) => Ret (F_live b :: free_value (JS_OBJ b))
  | _ => wrong_member
  end.
Definition js_operator_set_finalizer (u : JSObjectUnion) : outcome (list fin_step) :=
  match u with
  | U_operator_set None => Ret []
  | U_operator_set (Some d) =>
      Ret ((self_ops d ≫= free_obj_opt) ++ (opset_left d ≫= (fun ops => ops ≫= free_obj_opt)) ++
           (opset_right d ≫= (fun ops => ops ≫= free_obj_opt)))
  | _ => wrong_member
  end.

Definition js_map_finalizer (u : JSObjectUnion) : outcome (list fin_step) :=
  match u with
  | U_map_state None => Ret []
  | U_map_state (Some (is_weak, records)) =>
      Ret (records ≫= (fun mr =>
        if mr_empty mr then []
        else (if is_weak then [F_delete_weak (mr_key mr) (mr_addr mr)] else free_value (mr_key mr)) ++ free_value (mr_value mr)))
  | _ => wrong_member
  end.

(** [JS_IsLiveObject] reads the map, when the iterator still has one. *)
Definition js_map_iterator_finalizer (u : JSObjectUnion) : outcome (list fin_step) :=
  match u with
  | U_map_iterator_data (Some v) =>
      Ret (match v with JS_OBJ p => [F_live p] | _ => [] end ++ free_value v)
  | U_map_iterator_data None => Ret []
  | _ => wrong_member
  end.
Definition js_array_iterator_finalizer (u : JSObjectUnion) : outcome (list fin_step) :=
  match u with U_array_iterator_data d => Ret (free_opt_value d) | _ => wrong_member end.
Definition js_regexp_string_iterator_finalizer (u : JSObjectUnion) : outcome (list fin_step) :=
  match u with U_regexp_string_iterator_data d => Ret (free_opt_pair d) | _ => wrong_member end.
Definition js_generator_finalizer (u : JSObjectUnion) : outcome (list fin_step) :=
  match u with
  | U_generator_data None | U_generator_data (Some (JS_GENERATOR_STATE_COMPLETED, _)) => Ret []
  | U_generator_data (Some (_, s)) => async_func_free s
  | _ => wrong_member
  end.
Definition js_proxy_finalizer (u : JSObjectUnion) : outcome (list fin_step) :=
  match u with U_proxy_data d => Ret (free_opt_pair d) | _ => wrong_member end.
Definition promise_reaction_data_free (rd : JSPromiseReactionData) : list fin_step :=
  free_pair (rd_resolving_funcs rd) ++ free_value (rd_handler rd).
Definition js_promise_finalizer (u : JSObjectUnion) : outcome (list fin_step) :=
  match u with
  | U_promise_data None => Ret []
  | U_promise_data (Some (r0, r1, result)) =>
      Ret ((r0 ≫= promise_reaction_data_free) ++ (r1 ≫= promise_reaction_data_free) ++ free_value result)
  | _ => wrong_member
  end.
Definition js_promise_resolve_function_finalizer (u : JSObjectUnion) : outcome (list fin_step) :=
  match u with U_promise_function_data d => Ret (free_opt_value d) | _ => wrong_member end.
Definition js_async_function_resolve_finalizer (u : JSObjectUnion) : outcome (list fin_step) :=
  match u with
  | U_async_function_data (Some p) => Ret [F_free (R_async p)]
  | U_async_function_data None => Ret []
  | _ => wrong_member
  end.
Definition js_async_from_sync_iterator_finalizer (u : JSObjectUnion) : outcome (list fin_step) :=
  match u with U_async_from_sync_iterator_data d => Ret (free_opt_pair d) | _ => wrong_member end.
Definition free_request (req : JSAsyncGeneratorRequest) : list fin_step :=
  free_value (rq_result req) ++ free_value (rq_promise req) ++ free_pair (rq_resolving_funcs req).
Definition js_async_generator_finalizer (u : JSObjectUnion) : outcome (list fin_step) :=
  match u with
  | U_async_generator_data None => Ret []
  | U_async_generator_data (Some (queue, state, s)) =>
      l ← if has_frame state then async_func_free s else Ret [];
      Ret ((queue ≫= free_request) ++ l)
  | _ => wrong_member
  end.

(** These release memory that is not collected only. *)
Definition js_regexp_finalizer (u : JSObjectUnion) : outcome (list fin_step) := Ret [].
Definition js_array_buffer_finalizer (u : JSObjectUnion) : outcome (list fin_step) := Ret [].
Definition js_float_env_finalizer (u : JSObjectUnion) : outcome (list fin_step) := Ret [].

(** [rt->class_array[class_id].finalizer] *)
Definition class_finalizer (h : heap) (c : JSClassID) : option (JSObjectUnion -> outcome (list fin_step)) :=
  match c with
  | JS_CLASS_ARRAY | JS_CLASS_ARGUMENTS => Some js_array_finalizer
  | JS_CLASS_NUMBER | JS_CLASS_STRING | JS_CLASS_BOOLEAN | JS_CLASS_SYMBOL | JS_CLASS_DATE
  | JS_CLASS_BIG_INT | JS_CLASS_BIG_FLOAT | JS_CLASS_BIG_DECIMAL => Some js_object_data_finalizer
  | JS_CLASS_C_FUNCTION => Some js_c_function_finalizer
  | JS_CLASS_BYTECODE_FUNCTION | JS_CLASS_GENERATOR_FUNCTION | JS_CLASS_ASYNC_FUNCTION
  | JS_CLASS_ASYNC_GENERATOR_FUNCTION => Some (js_bytecode_function_finalizer h)
  | JS_CLASS_BOUND_FUNCTION => Some js_bound_function_finalizer
  | JS_CLASS_C_FUNCTION_DATA => Some js_c_function_data_finalizer
  | JS_CLASS_FOR_IN_ITERATOR => Some js_for_in_iterator_finalizer
  | JS_CLASS_REGEXP => Some js_regexp_finalizer
  | JS_CLASS_ARRAY_BUFFER | JS_CLASS_SHARED_ARRAY_BUFFER => Some js_array_buffer_finalizer
  | JS_CLASS_UINT8C_ARRAY | JS_CLASS_INT8_ARRAY | JS_CLASS_UINT8_ARRAY | JS_CLASS_INT16_ARRAY
  | JS_CLASS_UINT16_ARRAY | JS_CLASS_INT32_ARRAY | JS_CLASS_UINT32_ARRAY | JS_CLASS_BIG_INT64_ARRAY
  | JS_CLASS_BIG_UINT64_ARRAY | JS_CLASS_FLOAT32_ARRAY | JS_CLASS_FLOAT64_ARRAY | JS_CLASS_DATAVIEW =>
      Some js_typed_array_finalizer
  | JS_CLASS_FLOAT_ENV => Some js_float_env_finalizer
  | JS_CLASS_OPERATOR_SET => Some js_operator_set_finalizer
  | JS_CLASS_MAP | JS_CLASS_SET | JS_CLASS_WEAKMAP | JS_CLASS_WEAKSET => Some js_map_finalizer
  | JS_CLASS_MAP_ITERATOR | JS_CLASS_SET_ITERATOR => Some js_map_iterator_finalizer
  | JS_CLASS_ARRAY_ITERATOR | JS_CLASS_STRING_ITERATOR => Some js_array_iterator_finalizer
  | JS_CLASS_REGEXP_STRING_ITERATOR => Some js_regexp_string_iterator_finalizer
  | JS_CLASS_GENERATOR => Some js_generator_finalizer
  | JS_CLASS_PROXY => Some js_proxy_finalizer
  | JS_CLASS_PROMISE => Some js_promise_finalizer
  | JS_CLASS_PROMISE_RESOLVE_FUNCTION | JS_CLASS_PROMISE_REJECT_FUNCTION => Some js_promise_resolve_function_finalizer
  | JS_CLASS_ASYNC_FUNCTION_RESOLVE | JS_CLASS_ASYNC_FUNCTION_REJECT => Some js_async_function_resolve_finalizer
  | JS_CLASS_ASYNC_FROM_SYNC_ITERATOR => Some js_async_from_sync_iterator_finalizer
  | JS_CLASS_ASYNC_GENERATOR => Some js_async_generator_finalizer
  | JS_CLASS_FREED | JS_CLASS_OBJECT | JS_CLASS_ERROR | JS_CLASS_MAPPED_ARGUMENTS | JS_CLASS_MODULE_NS => None
  end.

(** *** The other kinds of objects *)

(** [js_free_module_def(ctx, m)] *)
Definition js_free_module_def (m : JSModuleDef) : list fin_step :=
  (local_exports m ≫= free_var_ref_opt) ++ free_value (module_ns m) ++ free_value (func_obj m) ++
  free_value (eval_exception m) ++ free_value (meta_obj m).

Definition context_steps (ctx : JSContext) : list fin_step :=
  (loaded_modules ctx ≫= js_free_module_def) ++
  free_value (global_obj ctx) ++ free_value (global_var_obj ctx) ++
  free_value (throw_type_error ctx) ++ free_value (eval_obj ctx) ++
  free_value (array_proto_values ctx) ++ free_values (native_error_proto ctx) ++ free_values (class_proto ctx) ++
  free_value (iterator_proto ctx) ++ free_value (async_iterator_proto ctx) ++ free_value (promise_ctor ctx) ++
  free_value (array_ctor ctx) ++ free_value (regexp_ctor ctx) ++ free_value (function_ctor ctx) ++
  free_value (function_proto ctx) ++ (match array_shape ctx with Some p => [F_free (R_shape p)] | None => [] end).

Definition bytecode_steps (b : JSFunctionBytecode) : list fin_step :=
  free_values (cpool b) ++ free_context_opt (realm b).

Definition async_steps (s : JSAsyncFunctionData) : outcome (list fin_step) :=
  l ← if is_active s then async_func_free (func_state s) else Ret [];   (* js_async_function_terminate *)
  Ret (l ++ free_pair (resolving_funcs s)).

Definition finalizer_steps (h : heap) (o : JSObject) : outcome (list fin_step) :=
  match class_finalizer h (class_id o) with Some finalizer => finalizer (u o) | None => Ret [] end.

(** ** Releasing *)

(** [js_free_rt(rt, p)]: releasing memory twice is a fault. *)
Definition js_free_rt (rt : JSRuntime) (p : ptr) : outcome JSRuntime :=
  match objs rt !! p with
  | None => Fault Uninitialised
  | Some _ => Ret (set_hdrs (set_objs rt (delete p (objs rt))) (delete p (hdrs rt)))
  end.

(** [--p->ref_count], with the new count. *)
Definition decref (rt : JSRuntime) (p : ptr) : outcome (Z * JSRuntime) :=
  h ← get_hdr rt p;
  let c := ref_count h - 1 in
  Ret (c, set_hdr rt p (mkHeader c (mark h))).

(** [JS_DupValueRT(rt, v)] *)
Definition JS_DupValueRT (rt : JSRuntime) (v : JSValue) : outcome JSRuntime :=
  match v with
  | JS_OBJ p | JS_BYTECODE p => h ← get_hdr rt p; Ret (set_hdr rt p (mkHeader (ref_count h + 1) (mark h)))
  | JS_LEAF => Ret rt
  end.

(** [add_gc_object(rt, h, type)] *)
Definition add_gc_object (rt : JSRuntime) (p : ptr) : outcome JSRuntime :=
  h ← get_hdr rt p;
  Ret (add_tail_gc (set_hdr rt p (mkHeader (ref_count h) 0)) p).

(** [close_var_refs(rt, sf)]: the variables that closures refer to are copied
    out of the frame. *)
Definition close_var_refs (rt : JSRuntime) (sf : JSStackFrame) : outcome JSRuntime :=
  foldM (fun rt p =>
    vr ← get_var_ref_of (objs rt) p;
    buf ← match arg_buf sf with Some buf => Ret buf | None => Fault NullDeref end;
    v ← rd buf (if is_arg vr then var_idx vr else var_buf sf + var_idx vr);
    rt ← JS_DupValueRT rt v;
    let vr := mkVarRef true (is_arg vr) (var_idx vr) v in
    add_gc_object (set_objs rt (<[p := JS_GC_OBJ_TYPE_VAR_REF vr]> (objs rt))) p) rt (var_ref_list sf).

(** The frame of a suspended function without the variable [p]. *)
Definition unlink_state (p : ptr) (s : JSAsyncFunctionState) : JSAsyncFunctionState :=
  let sf := frame s in
  mkAsyncState (mkFrame (cur_func sf) (arg_buf sf) (var_buf sf) (cur_sp sf) (unlink p (var_ref_list sf))) (this_val s).
Definition unlink_frame (p : ptr) (o : gc_object) : gc_object :=
  match o with
  | JS_GC_OBJ_TYPE_JS_OBJECT o =>
      JS_GC_OBJ_TYPE_JS_OBJECT (mkObject (free_mark o) (class_id o) (shape o) (prop o)
        match u o with
        | U_generator_data (Some (st, s)) => U_generator_data (Some (st, unlink_state p s))
        | U_async_generator_data (Some (q, st, s)) => U_async_generator_data (Some (q, st, unlink_state p s))
        | u => u
        end (first_weak_ref o))
  | JS_GC_OBJ_TYPE_ASYNC_FUNCTION a =>
      JS_GC_OBJ_TYPE_ASYNC_FUNCTION (mkAsyncData (is_active a) (unlink_state p (func_state a)) (resolving_funcs a))
  | o => o
  end.

(** [list_del(&var_ref->header.link)] of a variable that is still on the stack
    of a function: it leaves the list of its frame. *)
Definition list_del_frame (rt : JSRuntime) (p : ptr) : JSRuntime := set_objs rt (unlink_frame p <$> objs rt).

Definition get_object (rt : JSRuntime) (p : ptr) : outcome JSObject :=
  match objs rt !! p with Some (JS_GC_OBJ_TYPE_JS_OBJECT o) => Ret o | _ => Fault Uninitialised end.
Definition set_object (rt : JSRuntime) (p : ptr) (o : JSObject) : JSRuntime :=
  set_objs rt (<[p := JS_GC_OBJ_TYPE_JS_OBJECT o]> (objs rt)).

(** *** Weak references *)

(** [delete_weak_ref(rt, mr)]: the record leaves the list of its key. *)
Definition delete_weak_ref (rt : JSRuntime) (key : JSValue) (mr : ptr) : outcome JSRuntime :=
  match key with
  | JS_OBJ p =>
      o ← get_object rt p;
      _ ← c_assert (existsb (fun r => Pos.eqb r.2 mr) (first_weak_ref o));
      Ret (set_object rt p (mkObject (free_mark o) (class_id o) (shape o) (prop o) (u o)
        (filter (fun r => r.2 <> mr) (first_weak_ref o))))
  | _ => Fault Uninitialised
  end.

(** The first loop of [reset_weak_ref]: the records leave their maps; their
    values are left to be released. *)
Fixpoint unlink_weak_records (rt : JSRuntime) (l : list (ptr * ptr)) : outcome (JSRuntime * list JSValue) :=
  match l with
  | [] => Ret (rt, [])
  | (m, a) :: l =>
      o ← get_object rt m;
      match u o with
      | U_map_state (Some (is_weak, records)) =>
          _ ← c_assert is_weak;
          match find (fun r => Pos.eqb (mr_addr r) a) records with
          | None => Fault Uninitialised
          | Some mr =>
              _ ← c_assert (negb (mr_empty mr));
              '(rt, values) ← unlink_weak_records (set_object rt m (mkObject (free_mark o) (class_id o) (shape o) (prop o)
                (U_map_state (Some (is_weak, filter (fun r => mr_addr r <> a) records))) (first_weak_ref o))) l;
              Ret (rt, mr_value mr :: values)
          end
      | _ => wrong_member
      end
  end.

Section Free.
(** The functions are recursive through [JS_FreeValueRT]. *)
Context (free_ref : JSRuntime -> gc_ref -> outcome JSRuntime).

Definition run_step (rt : JSRuntime) (s : fin_step) : outcome JSRuntime :=
  match s with
  | F_free r => free_ref rt r
  | F_live p => match objs rt !! p with Some _ => Ret rt | None => Fault Uninitialised end
  | F_close sf => close_var_refs rt sf
  | F_delete_weak key mr => delete_weak_ref rt key mr
  end.
Definition run_steps (rt : JSRuntime) (l : list fin_step) : outcome JSRuntime := foldM run_step rt l.

(** [reset_weak_ref(rt, p)] *)
Definition reset_weak_ref (rt : JSRuntime) (p : ptr) : outcome JSRuntime :=
  o ← get_object rt p;
  '(rt, values) ← unlink_weak_records rt (first_weak_ref o);
  rt ← run_steps rt (free_values values);
  o ← get_object rt p;
  Ret (set_object rt p (mkObject (free_mark o) (class_id o) (shape o) (prop o) (u o) [])).

(** The end of [free_object] and [free_function_bytecode]: the memory stays
    while garbage that is not yet released refers to it. *)
Definition free_or_keep (rt : JSRuntime) (p : ptr) : outcome JSRuntime :=
  let rt := list_del rt p in   (* remove_gc_object *)
  h ← get_hdr rt p;
  match gc_phase rt with
  | JS_GC_PHASE_REMOVE_CYCLES => if negb (ref_count h =? 0) then Ret (add_tail_zero rt p) else js_free_rt rt p
  | _ => js_free_rt rt p
  end.

(** [free_object(rt, p)] *)
Definition free_object (rt : JSRuntime) (p : ptr) (o : JSObject) : outcome JSRuntime :=
  let rt := set_object rt p (mkObject true (class_id o) (shape o) (prop o) (u o) (first_weak_ref o)) in
  '(ps, sh) ← get_shape_of (objs rt) (shape o);
  l ← free_properties (sh_prop sh) (prop o);
  rt ← run_steps rt l;
  rt ← free_ref rt (R_shape ps);
  o ← get_object rt p;
  let rt := set_object rt p (mkObject true (class_id o) None [] (u o) (first_weak_ref o)) in
  rt ← match first_weak_ref o with [] => Ret rt | _ => reset_weak_ref rt p end;
  o ← get_object rt p;
  l ← finalizer_steps (objs rt) o;
  rt ← run_steps rt l;
  o ← get_object rt p;
  let rt := set_object rt p (mkObject true JS_CLASS_FREED None [] U_opaque (first_weak_ref o)) in
  free_or_keep rt p.

(** [free_function_bytecode(rt, b)] *)
Definition free_function_bytecode (rt : JSRuntime) (p : ptr) (b : JSFunctionBytecode) : outcome JSRuntime :=
  rt ← run_steps rt (bytecode_steps b);
  free_or_keep rt p.

(** [free_gc_object(rt, gp)] *)
Definition free_gc_object (rt : JSRuntime) (p : ptr) : outcome JSRuntime :=
  match objs rt !! p with
  | Some (JS_GC_OBJ_TYPE_JS_OBJECT o) => free_object rt p o
  | Some (JS_GC_OBJ_TYPE_FUNCTION_BYTECODE b) => free_function_bytecode rt p b
  | Some _ => Fault Aborted
  | None => Fault Uninitialised
  end.

(** [free_zero_refcount(rt)] *)
Definition free_zero_refcount (rt : JSRuntime) : outcome JSRuntime :=
  rt ← loop (S (size (objs rt))) (fun rt =>
    match gc_zero_ref_count_list rt with
    | [] => Ret (inr rt)
    | p :: _ =>
        h ← get_hdr rt p;
        _ ← c_assert (ref_count h =? 0);
        rt ← free_gc_object rt p; Ret (inl rt)
    end) (set_phase rt JS_GC_PHASE_DECREF);
  Ret (set_phase rt JS_GC_PHASE_NONE).

(** [__JS_FreeValueRT(rt, v)] for an object or a function bytecode. *)
Definition __JS_FreeValueRT (rt : JSRuntime) (p : ptr) : outcome JSRuntime :=
  match gc_phase rt with
  | JS_GC_PHASE_REMOVE_CYCLES => Ret rt
  | JS_GC_PHASE_DECREF => Ret (add_zero (list_del rt p) p)
  | JS_GC_PHASE_NONE => free_zero_refcount (add_zero (list_del rt p) p)
  end.

(** The end of the kinds that are released at once. *)
Definition release (rt : JSRuntime) (p : ptr) (l : list fin_step) : outcome JSRuntime :=
  rt ← run_steps rt l;
  js_free_rt (list_del rt p) p.

(** [js_free_shape0(rt, sh)] *)
Definition js_free_shape0 (rt : JSRuntime) (p : ptr) (c : Z) : outcome JSRuntime :=
  '(_, sh) ← get_shape_of (objs rt) (Some p);
  _ ← c_assert (c =? 0);
  release rt p (free_obj_opt (proto sh)).

(** [js_free_shape(rt, sh)] *)
Definition js_free_shape (rt : JSRuntime) (p : ptr) : outcome JSRuntime :=
  '(c, rt) ← decref rt p;
  if c <=? 0 then js_free_shape0 rt p c else Ret rt.

(** [free_var_ref(rt, var_ref)] *)
Definition free_var_ref (rt : JSRuntime) (p : ptr) : outcome JSRuntime :=
  h ← get_hdr rt p;
  _ ← c_assert (0 <? ref_count h);
  '(c, rt) ← decref rt p;
  if c =? 0 then
    v ← get_var_ref_of (objs rt) p;
    if is_detached v then release rt p (free_value (vr_value v))
    else js_free_rt (list_del_frame rt p) p
  else Ret rt.

(** [JS_FreeContext(ctx)] *)
Definition JS_FreeContext (rt : JSRuntime) (p : ptr) : outcome JSRuntime :=
  '(c, rt) ← decref rt p;
  if 0 <? c then Ret rt
  else
    _ ← c_assert (c =? 0);
    match objs rt !! p with
    | Some (JS_GC_OBJ_TYPE_JS_CONTEXT ctx) => release rt p (context_steps ctx)
    | _ => Fault Uninitialised
    end.

(** [js_async_function_free(rt, s)] *)
Definition js_async_function_free (rt : JSRuntime) (p : ptr) : outcome JSRuntime :=
  '(c, rt) ← decref rt p;
  if c =? 0 then
    match objs rt !! p with
    | Some (JS_GC_OBJ_TYPE_ASYNC_FUNCTION s) => l ← async_steps s; release rt p l   (* js_async_function_free0 *)
    | _ => Fault Uninitialised
    end
  else Ret rt.

Definition free_step (rt : JSRuntime) (r : gc_ref) : outcome JSRuntime :=
  match r with
  | R_value JS_LEAF => Ret rt
  | R_value (JS_OBJ p | JS_BYTECODE p) =>
      '(c, rt) ← decref rt p;
      if c <=? 0 then __JS_FreeValueRT rt p else Ret rt
  | R_shape p => js_free_shape rt p
  | R_var_ref p => free_var_ref rt p
  | R_context p => JS_FreeContext rt p
  | R_async p => js_async_function_free rt p
  end.
End Free.

(** Objects wait in [gc_zero_ref_count_list], so the recursion is bounded: a
    context refers to shapes and variables, and these to values. *)
Fixpoint free_ref (depth : nat) (rt : JSRuntime) (r : gc_ref) : outcome JSRuntime :=
  match depth with
  | O => Fault OutOfFuel
  | S depth => free_step (free_ref depth) rt r
  end.
Definition free_depth : nat := 5.

(** [JS_FreeValueRT(rt, v)] *)
Definition JS_FreeValueRT (rt : JSRuntime) (v : JSValue) : outcome JSRuntime := free_ref free_depth rt (R_value v).

(** ** The collector *)

Definition is_js_value (h : heap) (p : ptr) : bool :=
  match h !! p with
  | Some (JS_GC_OBJ_TYPE_JS_OBJECT _ | JS_GC_OBJ_TYPE_FUNCTION_BYTECODE _) => true
  | _ => false
  end.

(** The first loop of [gc_free_cycles]. *)
Definition gc_free_tmp (rt : JSRuntime) : outcome JSRuntime :=
  loop (S (length (tmp_obj_list rt))) (fun rt =>
    match tmp_obj_list rt with
    | [] => Ret (inr rt)
    | p :: _ =>
        match objs rt !! p with
        | None => Fault Uninitialised
        | Some (JS_GC_OBJ_TYPE_JS_OBJECT _ | JS_GC_OBJ_TYPE_FUNCTION_BYTECODE _) =>
            rt ← free_gc_object (free_ref free_depth) rt p; Ret (inl rt)
        | Some _ => Ret (inl (add_tail_zero (list_del rt p) p))
        end
    end) rt.

(** The memory of an object that was released while garbage referred to it. *)
Definition gc_free_kept (rt : JSRuntime) (p : ptr) : outcome JSRuntime :=
  _ ← c_assert (is_js_value (objs rt) p);
  js_free_rt rt p.

(** [gc_free_cycles(rt)] *)
Definition gc_free_cycles (rt : JSRuntime) : outcome JSRuntime :=
  rt ← gc_free_tmp (set_phase rt JS_GC_PHASE_REMOVE_CYCLES);
  let rt := set_phase rt JS_GC_PHASE_NONE in
  rt ← foldM gc_free_kept rt (gc_zero_ref_count_list rt);
  Ret (set_lists rt (gc_obj_list rt) [] (tmp_obj_list rt)).

(** [JS_RunGC(rt)] *)
Definition JS_RunGC (rt : JSRuntime) : outcome JSRuntime :=
  rt ← gc_decref rt;
  rt ← gc_scan rt;
  gc_free_cycles rt.
