(* ===== verification/GcSteps.v ===== *)
(** * The cycle collector: what is marked is what is given back

    For an object with no dangling properties, records or frames
    ([object_wf]), the references that its finalizer drops are those that its
    mark function reports, each as many times. *)

From S2P Require Import Prelude GcObjects GcRuntime GcTrial GcFree.

Definition ref_target (r : gc_ref) : list ptr :=
  match r with
  | R_value v => JS_MarkValue v
  | R_shape p | R_var_ref p | R_context p | R_async p => [p]
  end.
Definition step_target (s : fin_step) : list ptr := match s with F_free r => ref_target r | _ => [] end.
Definition targets (l : list fin_step) : list ptr := l ≫= step_target.

(** The steps that release [p]. *)
Definition object_steps (h : heap) (o : JSObject) : outcome (list fin_step) :=
  '(ps, sh) ← get_shape_of h (shape o);
  l ← free_properties (sh_prop sh) (prop o);
  l' ← finalizer_steps h o;
  Ret (l ++ F_free (R_shape ps) :: l').

Definition steps (h : heap) (p : ptr) : outcome (list fin_step) :=
  match h !! p with
  | None => Fault Uninitialised
  | Some (JS_GC_OBJ_TYPE_JS_OBJECT o) => object_steps h o
  | Some (JS_GC_OBJ_TYPE_FUNCTION_BYTECODE b) => Ret (bytecode_steps b)
  | Some (JS_GC_OBJ_TYPE_SHAPE sh) => Ret (free_obj_opt (proto sh))
  | Some (JS_GC_OBJ_TYPE_VAR_REF v) => Ret (if is_detached v then free_value (vr_value v) else [])
  | Some (JS_GC_OBJ_TYPE_ASYNC_FUNCTION s) => async_steps s
  | Some (JS_GC_OBJ_TYPE_JS_CONTEXT ctx) => Ret (context_steps ctx)
  end.

(** ** Well-formed objects *)

Definition is_leaf (v : JSValue) : bool := match v with JS_LEAF => true | _ => false end.

(** A deleted property is a plain one without a value. *)
Definition property_wf (prs : JSShapeProperty) (pr : JSProperty) : bool :=
  negb (sp_atom prs =? JS_ATOM_NULL) ||
  (Z.land (sp_flags prs) JS_PROP_TMASK =? 0) && match pr with U_value JS_LEAF => true | _ => false end.
Fixpoint properties_wf (prs : list JSShapeProperty) (pr : list JSProperty) : bool :=
  match prs, pr with
  | s :: prs, p :: pr => property_wf s p && properties_wf prs pr
  | _, _ => true
  end.

(** A frame that is not running and whose variables no closure refers to. *)
Definition state_wf (s : JSAsyncFunctionState) : bool :=
  let sf := frame s in
  match var_ref_list sf with [] => true | _ => false end &&
  match arg_buf sf, cur_sp sf with
  | Some buf, Some sp => true
  | None, Some sp => sp =? 0
  | None, None => true
  | Some _, None => false
  end.

(** The record of a deleted entry holds nothing. *)
Definition record_wf (mr : JSMapRecord) : bool := negb (mr_empty mr) || is_leaf (mr_key mr) && is_leaf (mr_value mr).

Definition union_wf (u : JSObjectUnion) : bool :=
  match u with
  | U_map_state (Some (is_weak, records)) => if is_weak then match records with [] => true | _ => false end else forallb record_wf records
  | U_generator_data (Some (JS_GENERATOR_STATE_COMPLETED, _)) => true
  | U_generator_data (Some (_, s)) => state_wf s
  | U_async_generator_data (Some (_, state, s)) => negb (has_frame state) || state_wf s
  | _ => true
  end.

Definition object_wf (h : heap) (p : ptr) : bool :=
  match h !! p with
  | Some (JS_GC_OBJ_TYPE_JS_OBJECT o) =>
      match get_shape_of h (shape o) with Ret (_, sh) => properties_wf (sh_prop sh) (prop o) | _ => false end && union_wf (u o) &&
      match first_weak_ref o with [] => true | _ => false end
  | Some (JS_GC_OBJ_TYPE_ASYNC_FUNCTION s) => negb (is_active s) || state_wf (func_state s)
  | Some _ => true
  | None => false
  end.

(** ** The steps drop what is marked *)

Section Targets.
Context (h : heap).

(** A variable that is still on a stack. *)
Definition open_var (o : ptr) : bool :=
  match h !! o with Some (JS_GC_OBJ_TYPE_VAR_REF v) => negb (is_detached v) | _ => false end.

Context (o : ptr) (Ho : open_var o = false).

Definition same_refs (s : list fin_step) (l : list ptr) : Prop := occ o (targets s) = occ o l.

Lemma same_app s1 s2 l1 l2 : same_refs s1 l1 -> same_refs s2 l2 -> same_refs (s1 ++ s2) (l1 ++ l2).
Proof. unfold same_refs, targets. intros E1 E2. by rewrite bind_app, !occ_app, E1, E2. Qed.
Lemma same_comm s1 s2 l1 l2 : same_refs s1 l1 -> same_refs s2 l2 -> same_refs (s2 ++ s1) (l1 ++ l2).
Proof. unfold same_refs, targets. intros E1 E2. rewrite bind_app, !occ_app, E1, E2. lia. Qed.
Lemma same_nil : same_refs [] [].
Proof. done. Qed.
Lemma same_bind {A} (f : A -> list fin_step) (g : A -> list ptr) (l : list A) :
  (forall x, x ∈ l -> same_refs (f x) (g x)) -> same_refs (l ≫= f) (l ≫= g).
Proof.
  induction l as [|x l IH]; intros Hf; [done|]. rewrite !bind_cons. apply same_app; [apply Hf; set_solver|].
  apply IH. intros y Hy. apply Hf. set_solver.
Qed.

Lemma same_value v : same_refs (free_value v) (JS_MarkValue v).
Proof. unfold same_refs, targets, free_value. cbn. by rewrite app_nil_r. Qed.
Lemma same_values l : same_refs (free_values l) (mark_values l).
Proof. apply same_bind. intros v _. apply same_value. Qed.
Lemma same_pair v : same_refs (free_pair v) (mark_pair v).
Proof. apply same_app; apply same_value. Qed.
Lemma same_obj_opt p : same_refs (free_obj_opt p) (mark_opt p).
Proof. destruct p; [apply same_value|done]. Qed.
Lemma same_context_opt p : same_refs (free_context_opt p) (mark_opt p).
Proof. by destruct p. Qed.
Lemma same_opt_value d : same_refs (free_opt_value d) (mark_opt_value d).
Proof. destruct d; [apply same_value|done]. Qed.
Lemma same_opt_pair d : same_refs (free_opt_pair d) (mark_opt_pair d).
Proof. destruct d; [apply same_pair|done]. Qed.
Lemma same_var_opt p : same_refs (free_var_ref_opt p) (mark_opt p).
Proof. by destruct p. Qed.

(** A call and its outcome: the steps of [m] against the marks of [n]. *)
Definition matches (m : outcome (list fin_step)) (n : outcome (list ptr)) : Prop :=
  forall l, n = Ret l -> exists s, m = Ret s /\ same_refs s l.

Lemma matches_ret s l : same_refs s l -> matches (Ret s) (Ret l).
Proof. intros Hs l' [= <-]. by exists s. Qed.
Lemma matches_wrong : matches wrong_member wrong_member.
Proof. intros l E. discriminate E. Qed.
Lemma matches_app m1 m2 n1 n2 : matches m1 n1 -> matches m2 n2 ->
  matches (s ← m1; s' ← m2; Ret (s ++ s')) (l ← n1; l' ← n2; Ret (l ++ l')).
Proof.
  intros H1 H2 l E. destruct n1 as [l1|]; [|done]. destruct n2 as [l2|]; [|done]. injection E as <-.
  destruct (H1 l1 eq_refl) as (s1 & -> & S1). destruct (H2 l2 eq_refl) as (s2 & -> & S2).
  exists (s1 ++ s2). split; [done|]. by apply same_app.
Qed.

Lemma mark_var_ref_occ p l : mark_var_ref h p = Ret l -> occ o l = occ o [p].
Proof.
  unfold mark_var_ref, get_var_ref_of. destruct (h !! p) as [[]|] eqn:E; try done. cbn. intros [= <-].
  destruct (is_detached v) eqn:Ed; [done|]. cbn [occ]. rewrite decide_False; [done|]. intros ->.
  unfold open_var in Ho. rewrite E, Ed in Ho. done.
Qed.

Lemma matches_property s p : property_wf s p = true -> matches (free_property s p) (mark_property h s p).
Proof.
  unfold property_wf, free_property, mark_property. intros Hw. destruct (sp_atom s =? JS_ATOM_NULL); cbn [negb orb] in Hw.
  - apply andb_true_iff in Hw as [-> Hp]. cbn [negb]. destruct p as [[]| | |]; try done. by apply matches_ret.
  - destruct (negb _); [|destruct p; try apply matches_wrong; apply matches_ret, same_value].
    destruct (_ =? JS_PROP_GETSET); [destruct p; try apply matches_wrong; apply matches_ret, same_app; apply same_obj_opt|].
    destruct (_ =? JS_PROP_VARREF).
    { destruct p; try apply matches_wrong. intros l E. eexists. split; [done|]. unfold same_refs. by rewrite (mark_var_ref_occ _ _ E). }
    destruct (_ =? JS_PROP_AUTOINIT); [|by apply matches_ret]. destruct p; try apply matches_wrong. by apply matches_ret.
Qed.

Lemma matches_properties : forall prs pr, properties_wf prs pr = true -> matches (free_properties prs pr) (mark_properties h prs pr).
Proof.
  induction prs as [|s prs IH]; intros [|p pr] Hw; try (by apply matches_ret); [by intros l E|].
  cbn [properties_wf] in Hw. apply andb_true_iff in Hw as [H1 H2]. cbn [free_properties mark_properties].
  apply matches_app; [by apply matches_property|by apply IH].
Qed.

Lemma matches_state s : state_wf s = true -> matches (async_func_free s) (async_func_mark s).
Proof.
  unfold state_wf, async_func_free, async_func_mark. intros [Hv Hw]%andb_true_iff.
  assert (Hclose : forall m l, same_refs m l -> same_refs ([F_close (frame s)] ++ m) l) by done.
  assert (Hrev : forall m l, same_refs m (mark_values l) ->
    same_refs ([F_close (frame s)] ++ m ++ free_value (cur_func (frame s)) ++ free_value (this_val s))
      (JS_MarkValue (cur_func (frame s)) ++ JS_MarkValue (this_val s) ++ mark_values l)).
  { intros m l Hm. apply Hclose. rewrite (app_assoc (JS_MarkValue _)). apply same_comm; [|done]. apply same_app; apply same_value. }
  destruct (cur_sp (frame s)) as [sp|]; destruct (arg_buf (frame s)) as [buf|]; try done.
  - intros l E. destruct (rd_range buf 0 sp) as [x|]; [|done]. injection E as <-. eexists. split; [done|]. apply Hrev, same_values.
  - intros l E. rewrite Hw in E. injection E as <-. eexists. split; [done|]. by apply (Hrev [] []).
  - intros l E. injection E as <-. eexists. split; [done|]. by apply (Hrev [] []).
Qed.

Lemma matches_var_refs n : forall var_refs l, mark_var_refs h n var_refs = Ret l ->
  (n <= length var_refs)%nat /\ same_refs (take n var_refs ≫= free_var_ref_opt) l.
Proof.
  induction n as [|n IH]; intros var_refs l E; cbn [mark_var_refs] in E.
  - injection E as <-. split; [lia|done].
  - destruct var_refs as [|v var_refs]; [done|].
    destruct (match v with Some p => mark_var_ref h p | None => Ret [] end) as [l1|] eqn:E1; [|done]. cbn in E.
    destruct (mark_var_refs h n var_refs) as [l2|] eqn:E2; [|done]. injection E as <-.
    destruct (IH _ _ E2) as [Hl Hs]. split; [cbn; lia|]. cbn [take]. rewrite bind_cons. apply same_app; [|done].
    destruct v as [p|]; [|by injection E1 as <-]. unfold same_refs. rewrite (mark_var_ref_occ _ _ E1). done.
Qed.

Lemma matches_function u : matches (js_bytecode_function_finalizer h u) (js_bytecode_function_mark h u).
Proof.
  destruct u; try apply matches_wrong. cbn [js_bytecode_function_finalizer js_bytecode_function_mark].
  destruct function_bytecode as [b|]; [|apply matches_ret, same_app; [apply same_obj_opt|done]].
  intros l E. destruct var_refs as [vr|].
  - destruct (get_bytecode_of h b) as [f|]; [|done]. cbn [mbind outcome_bind] in *. cbv zeta.
    destruct (mark_var_refs _ _ _) as [l1|] eqn:E1; [|done]. injection E as <-.
    destruct (matches_var_refs _ _ _ E1) as [Hl Hs].
    destruct (Nat.ltb_spec (length vr) (Z.to_nat (closure_var_count f))); [lia|]. cbn [mbind outcome_bind].
    eexists. split; [done|]. apply same_app; [apply same_obj_opt|]. apply same_app; [done|apply same_value].
  - cbn [mbind outcome_bind] in *. injection E as <-. eexists. split; [done|]. apply same_app; [apply same_obj_opt|apply (same_value (JS_BYTECODE b))].
Qed.

Lemma matches_map u : union_wf u = true -> matches (js_map_finalizer u) (js_map_mark u).
Proof.
  destruct u; try (intros _; apply matches_wrong). destruct d as [[w records]|]; [|by intros _; apply matches_ret].
  cbn [union_wf js_map_finalizer js_map_mark]. destruct w; [by destruct records; [intros _; apply matches_ret|]|].
  rewrite forallb_forall. intros Hw. apply matches_ret, same_bind. intros mr Hmr. specialize (Hw mr (proj1 (list_elem_of_In _ _) Hmr)).
  unfold record_wf in Hw. destruct (mr_empty mr); [|apply same_app; apply same_value].
  cbn [negb orb] in Hw. apply andb_true_iff in Hw as [H1 H2]. by destruct (mr_key mr), (mr_value mr).
Qed.

Lemma matches_generator u : union_wf u = true -> matches (js_generator_finalizer u) (js_generator_mark u).
Proof.
  destruct u; try (intros _; apply matches_wrong). destruct d as [[st s]|]; [|by intros _; apply matches_ret].
  intros Hw. destruct st; cbn [js_generator_finalizer js_generator_mark]; try (by apply matches_ret); by apply matches_state.
Qed.
Lemma matches_async_generator u : union_wf u = true -> matches (js_async_generator_finalizer u) (js_async_generator_mark u).
Proof.
  destruct u; try (intros _; apply matches_wrong). destruct d as [[[q st] s]|]; [|by intros _; apply matches_ret].
  cbn [union_wf js_async_generator_finalizer js_async_generator_mark]. intros Hw.
  assert (Hq : same_refs (q ≫= free_request) (q ≫= mark_request)).
  { apply same_bind. intros r _. do 2 (apply same_app; [apply same_value|]). apply same_pair. }
  destruct (has_frame st); cbn [negb orb] in Hw; [|by apply matches_ret, same_app].
  intros l E. destruct (async_func_mark s) as [l1|] eqn:E1; [|done]. injection E as <-.
  destruct (matches_state s Hw l1 E1) as (s1 & -> & Hs). eexists. split; [done|]. by apply same_app.
Qed.

Lemma matches_array u : matches (js_array_finalizer u) (js_array_mark u).
Proof. destruct u; try apply matches_wrong. apply matches_ret, same_values. Qed.
Lemma matches_object_data u : matches (js_object_data_finalizer u) (js_object_data_mark u).
Proof. destruct u; try apply matches_wrong. apply matches_ret, same_value. Qed.
Lemma matches_c_function u : matches (js_c_function_finalizer u) (js_c_function_mark u).
Proof. destruct u; try apply matches_wrong. apply matches_ret, same_context_opt. Qed.
Lemma matches_bound u : matches (js_bound_function_finalizer u) (js_bound_function_mark u).
Proof. destruct u; try apply matches_wrong. apply matches_ret. do 2 (apply same_app; [apply same_value|]). apply same_values. Qed.
Lemma matches_c_function_data u : matches (js_c_function_data_finalizer u) (js_c_function_data_mark u).
Proof. destruct u; try apply matches_wrong. apply matches_ret, same_values. Qed.
Lemma matches_for_in u : matches (js_for_in_iterator_finalizer u) (js_for_in_iterator_mark u).
Proof. destruct u; try apply matches_wrong. apply matches_ret, same_value. Qed.
Lemma matches_typed_array u : matches (js_typed_array_finalizer u) (js_typed_array_mark u).
Proof. destruct u; try apply matches_wrong. destruct buffer; apply matches_ret; [apply (same_value (JS_OBJ _))|done]. Qed.
Lemma matches_operator_set u : matches (js_operator_set_finalizer u) (js_operator_set_mark u).
Proof.
  destruct u; try apply matches_wrong. destruct d; apply matches_ret; [|done].
  assert (Hops : forall l, same_refs (l ≫= free_obj_opt) (l ≫= mark_opt)) by (intros l; apply same_bind; intros; apply same_obj_opt).
  apply same_app; [done|]. apply same_app; apply same_bind; done.
Qed.
Lemma matches_map_iterator u : matches (js_map_iterator_finalizer u) (js_map_iterator_mark u).
Proof. destruct u; try apply matches_wrong. destruct d as [[]|]; apply matches_ret; try done; apply (same_value (JS_OBJ _)). Qed.
Lemma matches_array_iterator u : matches (js_array_iterator_finalizer u) (js_array_iterator_mark u).
Proof. destruct u; try apply matches_wrong. apply matches_ret, same_opt_value. Qed.
Lemma matches_regexp_string_iterator u : matches (js_regexp_string_iterator_finalizer u) (js_regexp_string_iterator_mark u).
Proof. destruct u; try apply matches_wrong. apply matches_ret, same_opt_pair. Qed.
Lemma matches_proxy u : matches (js_proxy_finalizer u) (js_proxy_mark u).
Proof. destruct u; try apply matches_wrong. apply matches_ret, same_opt_pair. Qed.
Lemma matches_promise u : matches (js_promise_finalizer u) (js_promise_mark u).
Proof.
  destruct u; try apply matches_wrong. destruct d as [[[r0 r1] v]|]; apply matches_ret; [|done].
  assert (Hr : forall l, same_refs (l ≫= promise_reaction_data_free) (l ≫= mark_reaction)).
  { intros l. apply same_bind. intros r _. apply same_app; [apply same_pair|apply same_value]. }
  apply same_app; [done|]. apply same_app; [done|apply same_value].
Qed.
Lemma matches_promise_function u : matches (js_promise_resolve_function_finalizer u) (js_promise_resolve_function_mark u).
Proof. destruct u; try apply matches_wrong. apply matches_ret, same_opt_value. Qed.
Lemma matches_async_resolve u : matches (js_async_function_resolve_finalizer u) (js_async_function_resolve_mark u).
Proof. destruct u; try apply matches_wrong. by destruct d; apply matches_ret. Qed.
Lemma matches_from_sync u : matches (js_async_from_sync_iterator_finalizer u) (js_async_from_sync_iterator_mark u).
Proof. destruct u; try apply matches_wrong. apply matches_ret, same_opt_pair. Qed.

(** The tables agree on which classes have data. *)
Lemma matches_class c u : union_wf u = true ->
  match class_finalizer h c, class_gc_mark h c with
  | Some f, Some g => matches (f u) (g u)
  | Some f, None => f u = Ret []
  | None, None => True
  | None, Some _ => False
  end.
Proof.
  intros Hw. destruct c; try done; cbn [class_finalizer class_gc_mark];
    auto using matches_function, matches_map, matches_generator, matches_async_generator, matches_array, matches_object_data,
      matches_c_function, matches_bound, matches_c_function_data, matches_for_in, matches_typed_array, matches_operator_set,
      matches_map_iterator, matches_array_iterator, matches_regexp_string_iterator, matches_proxy, matches_promise,
      matches_promise_function, matches_async_resolve, matches_from_sync.
Qed.

Lemma matches_finalizer ob : union_wf (u ob) = true ->
  matches (finalizer_steps h ob)
    (match class_id ob with
     | JS_CLASS_OBJECT => Ret []
     | c => match class_gc_mark h c with Some gc_mark => gc_mark (u ob) | None => Ret [] end
     end).
Proof.
  intros Hw. unfold finalizer_steps. pose proof (matches_class (class_id ob) (u ob) Hw) as Hm.
  destruct (class_id ob); cbn [class_finalizer class_gc_mark] in *; try exact Hm; by apply matches_ret.
Qed.

Lemma matches_object ob : union_wf (u ob) = true ->
  (forall ps sh, get_shape_of h (shape ob) = Ret (ps, sh) -> properties_wf (sh_prop sh) (prop ob) = true) ->
  matches (object_steps h ob) (mark_object h ob).
Proof.
  intros Hw Hp l E. unfold object_steps, mark_object in *. destruct (get_shape_of h (shape ob)) as [[ps sh]|]; [|done].
  cbn [mbind outcome_bind] in *. specialize (Hp ps sh eq_refl).
  destruct (mark_properties _ _ _) as [l1|] eqn:E1; [|done]. cbn [mbind outcome_bind] in *.
  destruct (matches_properties _ _ Hp l1 E1) as (s1 & -> & Hs1). cbn [mbind outcome_bind].
  match type of E with (mbind _ ?m) = _ => destruct m as [l2|] eqn:E2; [|done] end. injection E as <-.
  destruct (matches_finalizer ob Hw l2 E2) as (s2 & -> & Hs2). eexists. split; [done|].
  change (ps :: l1 ++ l2) with ([ps] ++ l1 ++ l2). change (F_free (R_shape ps) :: s2) with ([F_free (R_shape ps)] ++ s2).
  unfold same_refs, targets in *. rewrite !bind_app, !occ_app, Hs1, Hs2. cbn. lia.
Qed.

Lemma same_module m : same_refs (js_free_module_def m) (js_mark_module_def m).
Proof.
  apply same_app; [apply same_bind; intros; apply same_var_opt|]. do 3 (apply same_app; [apply same_value|]). apply same_value.
Qed.
Lemma same_context c : same_refs (context_steps c) (JS_MarkContext c).
Proof.
  unfold context_steps, JS_MarkContext. apply same_app; [apply same_bind; intros; apply same_module|].
  do 5 (apply same_app; [apply same_value|]). do 2 (apply same_app; [apply same_values|]).
  do 7 (apply same_app; [apply same_value|]). by destruct (array_shape c).
Qed.

(** What is released with a well-formed object is what marking reports. *)
Lemma matches_steps p : object_wf h p = true -> matches (steps h p) (children h p).
Proof.
  unfold object_wf, steps, children. destruct (h !! p) as [[ob|b|sh|v|a|c]|]; [..|done].
  - intros [[Hs Hw]%andb_true_iff _]%andb_true_iff. apply matches_object; [done|]. intros ps sh E. by rewrite E in Hs.
  - intros _. apply matches_ret, same_app; [apply same_values|apply same_context_opt].
  - intros _. apply matches_ret, same_obj_opt.
  - intros _ l E. destruct (is_detached v); [|done]. injection E as <-. eexists. split; [done|]. apply same_value.
  - intros Hw l E. unfold async_steps. destruct (is_active a); cbn [negb orb] in Hw.
    + destruct (async_func_mark _) as [l1|] eqn:E1; [|done]. injection E as <-.
      destruct (matches_state _ Hw l1 E1) as (s1 & -> & Hs). eexists. split; [done|]. apply same_app; [done|apply same_pair].
    + injection E as <-. eexists. split; [done|]. apply same_pair.
  - intros _. apply matches_ret, same_context.
Qed.
End Targets.
