(* ===== verification/GcSweep.v ===== *)
(** * The cycle collector: the sweep

    [gc_free_cycles] releases exactly the objects trial deletion has put in
    [tmp_obj_list], each once and none while it is still in use, and takes the
    references from them off the counts of the others. *)

From S2P Require Import Prelude GcObjects GcRuntime GcTrial GcFree GcSteps.

(** ** Counts that change *)

Lemma inc_minus k L p o : NoDup L -> p ∈ L -> inc k L o = occ o (k p) + inc k (unlink p L) o.
Proof. intros Hn Hp. by rewrite <- (cons_unlink p L Hn Hp), inc_cons at 1. Qed.

Lemma unlink_nodup p l : NoDup l -> NoDup (unlink p l).
Proof. apply NoDup_filter. Qed.

(** [l] without the elements of [D]. *)
Definition minus (D l : list ptr) : list ptr := filter (fun q => q ∉ D) l.

Lemma elem_of_minus q D l : q ∈ minus D l <-> q ∉ D /\ q ∈ l.
Proof. unfold minus. by rewrite list_elem_of_filter. Qed.
Lemma minus_nil l : minus [] l = l.
Proof. unfold minus. induction l as [|q l IH]; [done|]. rewrite filter_cons_True by apply not_elem_of_nil. by rewrite IH. Qed.
Lemma minus_app D E l : minus (D ++ E) l = minus E (minus D l).
Proof. unfold minus. rewrite list_filter_filter. apply filter_ext. intros q _. rewrite elem_of_app. tauto. Qed.
Lemma minus_cons d D l : minus (d :: D) l = minus D (unlink d l).
Proof. unfold minus, unlink. rewrite list_filter_filter. apply filter_ext. intros q _. rewrite elem_of_cons. tauto. Qed.
Lemma unlink_minus d D l : unlink d (minus D l) = minus D (unlink d l).
Proof. unfold minus, unlink. rewrite !list_filter_filter. apply filter_ext. intros q _. tauto. Qed.
Lemma minus_notin D l : (forall q, q ∈ l -> q ∉ D) -> minus D l = l.
Proof.
  intros Hn. unfold minus. induction l as [|q l IH]; [done|]. rewrite filter_cons_True by (apply Hn; set_solver).
  rewrite IH; [done|]. intros r Hr. apply Hn. set_solver.
Qed.
Lemma minus_nodup D l : NoDup l -> NoDup (minus D l).
Proof. apply NoDup_filter. Qed.

(** Lookups in a heap. *)
Lemma heap_delete_ne (h : heap) p o : p <> o -> (delete p h : heap) !! o = h !! o.
Proof. apply lookup_delete_ne. Qed.
Lemma heap_delete_Some (h : heap) p o ob : (delete p h : heap) !! o = Some ob <-> p <> o /\ h !! o = Some ob.
Proof. apply lookup_delete_Some. Qed.
Lemma heap_insert_eq (h : heap) p ob : (<[p := ob]> h : heap) !! p = Some ob.
Proof. apply lookup_insert_eq. Qed.
Lemma heap_insert_ne (h : heap) p ob o : p <> o -> (<[p := ob]> h : heap) !! o = h !! o.
Proof. apply lookup_insert_ne. Qed.
Lemma heap_fmap f (h : heap) o : (f <$> h : heap) !! o = f <$> (h !! o).
Proof. apply lookup_fmap. Qed.

(** ** The invariant *)

(** Objects that a script can hold, which are released in two steps in a
    cycle; the others are released with their last reference. *)
Notation js h o := (is_js_value h o = true).

Definition ref_ok (h : heap) (r : gc_ref) : bool :=
  match r with
  | R_value JS_LEAF => true
  | R_value (JS_OBJ p) => match h !! p with Some (JS_GC_OBJ_TYPE_JS_OBJECT _) => true | _ => false end
  | R_value (JS_BYTECODE p) => match h !! p with Some (JS_GC_OBJ_TYPE_FUNCTION_BYTECODE _) => true | _ => false end
  | R_shape p => match h !! p with Some (JS_GC_OBJ_TYPE_SHAPE _) => true | _ => false end
  | R_var_ref p => match h !! p with Some (JS_GC_OBJ_TYPE_VAR_REF _) => true | _ => false end
  | R_context p => match h !! p with Some (JS_GC_OBJ_TYPE_JS_CONTEXT _) => true | _ => false end
  | R_async p => match h !! p with Some (JS_GC_OBJ_TYPE_ASYNC_FUNCTION _) => true | _ => false end
  end.

(** A step that drops a reference of the right kind, or closes a frame that
    has nothing to close. *)
Definition step_ok (h : heap) (s : fin_step) : bool :=
  match s with
  | F_free r => ref_ok h r
  | F_live p => match h !! p with Some _ => true | None => false end
  | F_close sf => match var_ref_list sf with [] => true | _ => false end
  | F_delete_weak _ _ => false
  end.

(** [free_mark] is read of objects that are still referred to. *)
Fixpoint reads_ok (l : list fin_step) : bool :=
  match l with
  | F_live p :: l => existsb (Pos.eqb p) (targets l) && reads_ok l
  | _ :: l => reads_ok l
  | [] => true
  end.

(** The references to [o] in a list of references. *)
Definition owed (pend : list gc_ref) (o : ptr) : Z := occ o (pend ≫= ref_target).

Lemma owed_cons r pend o : owed (r :: pend) o = occ o (ref_target r) + owed pend o.
Proof. unfold owed. by rewrite bind_cons, occ_app. Qed.
Lemma owed_app l pend o : owed (l ++ pend) o = owed l o + owed pend o.
Proof. unfold owed. by rewrite bind_app, occ_app. Qed.
Lemma owed_nonneg pend o : 0 <= owed pend o.
Proof. apply occ_nonneg. Qed.

(** The nesting of a release. *)
Definition rank (r : gc_ref) : nat := match r with R_value _ => 1 | R_context _ => 3 | _ => 2 end.
Definition steps_rank (n : nat) (l : list fin_step) : Prop := forall r, F_free r ∈ l -> (rank r < n)%nat.

(** [o'] is [o] but for the list of the variables of its frame. *)
Definition same_but_frames (o o' : gc_object) : Prop := exists D, o' = foldr unlink_frame o D.

Definition same_kind (o o' : gc_object) : Prop :=
  match o, o' with
  | JS_GC_OBJ_TYPE_JS_OBJECT _, JS_GC_OBJ_TYPE_JS_OBJECT _ => True
  | JS_GC_OBJ_TYPE_JS_OBJECT _, _ | _, JS_GC_OBJ_TYPE_JS_OBJECT _ => False
  | _, _ => o' = o
  end.

(** A frame without variables that closures still share with it. *)
Definition frames_closed (h : heap) (o : gc_object) : Prop := forall p, open_var h p = true -> unlink_frame p o = o.

Lemma reads_tail l1 l2 : reads_ok (l1 ++ l2) = true -> reads_ok l2 = true.
Proof. induction l1 as [|[] l1 IH]; cbn [app reads_ok]; try done. intros [_ ?]%andb_true_iff. by apply IH. Qed.
Lemma reads_frees l : (forall s, s ∈ l -> exists r, s = F_free r) -> reads_ok l = true.
Proof.
  induction l as [|s l IH]; intros Hl; [done|]. destruct (Hl s ltac:(set_solver)) as [r ->]. cbn [reads_ok]. apply IH. set_solver.
Qed.
Lemma free_property_frees s p l : free_property s p = Ret l -> forall x, x ∈ l -> exists r, x = F_free r.
Proof.
  unfold free_property. intros E x Hx. repeat case_match; try done; injection E as <-; unfold free_value, free_obj_opt in *;
    repeat case_match; set_solver.
Qed.
Lemma free_properties_frees prs : forall pr l, free_properties prs pr = Ret l -> forall x, x ∈ l -> exists r, x = F_free r.
Proof.
  induction prs as [|s prs IH]; intros [|p pr] l E x Hx; cbn [free_properties] in E; try done; try (injection E as <-; by apply not_elem_of_nil in Hx).
  destruct (free_property s p) as [l1|] eqn:E1; [|done]. cbn [mbind outcome_bind] in E.
  destruct (free_properties prs pr) as [l2|] eqn:E2; [|done]. injection E as <-.
  apply elem_of_app in Hx as [Hx|Hx]; [by apply (free_property_frees s p l1)|by apply (IH pr l2)].
Qed.

Section Sweep.
(** The heap at the start of the sweep, the objects that stay, what each object
    refers to and the references to it from elsewhere. *)
Context (h0 : heap) (live : list ptr) (own : ptr -> list ptr) (e : ptr -> Z).

Record swept : Prop := {
  sp_closed : forall p q, p ∈ live -> q ∈ own p -> q ∈ live;
  sp_positive : forall o L, o ∈ live -> NoDup L -> (forall q, q ∈ live -> q ∈ L) -> 0 < e o + inc own L o;
  sp_nonneg : forall o, 0 <= e o;
  sp_garbage : forall o ob, h0 !! o = Some ob -> o ∉ live -> e o = 0;
  sp_nodup : NoDup live;
  sp_steps : forall p, (exists o, h0 !! p = Some o) -> p ∉ live -> exists l, steps h0 p = Ret l /\
    own p = targets l /\ forallb (step_ok h0) l = true /\ reads_ok l = true;
  sp_frames : forall p o, h0 !! p = Some o -> p ∉ live -> frames_closed h0 o;
  sp_weak : forall p o, h0 !! p = Some (JS_GC_OBJ_TYPE_JS_OBJECT o) -> p ∉ live -> first_weak_ref o = [];
}.

Context (Hsw : swept).

(** [U]: the objects that still count; [M]: those whose references have been
    given back, or are being; [pend]: references that are about to be; [z] an
    object that has just lost its last reference. *)
Record sweep (z : option ptr) (U M : list ptr) (pend : list gc_ref) (rt : JSRuntime) : Prop := {
  sw_phase : gc_phase rt = JS_GC_PHASE_REMOVE_CYCLES;
  sw_nodup : NoDup (U ++ M);
  sw_live : forall o, o ∈ live -> o ∈ U /\ exists ob0 ob, h0 !! o = Some ob0 /\ objs rt !! o = Some ob /\ same_but_frames ob0 ob;
  sw_same : forall o, o ∈ U -> o ∉ live -> exists ob, h0 !! o = Some ob /\ objs rt !! o = Some ob;
  sw_done : forall o, o ∈ M -> exists ob0 ob, h0 !! o = Some ob0 /\ objs rt !! o = Some ob /\ same_kind ob0 ob /\ frames_closed h0 ob;
  sw_dom : forall o ob, objs rt !! o = Some ob -> o ∈ U ++ M;
  sw_hdr : forall o, o ∈ U ++ M -> exists m,
    hdrs rt !! o = Some (mkHeader (e o + inc own U o + owed pend o) m) /\ (o ∈ live -> open_var h0 o = false -> m = 0);
  sw_refs : forall p o, p ∈ U -> o ∈ own p -> o ∈ U ++ M;
  sw_pend : forall r, r ∈ pend -> ref_ok h0 r = true /\ forall o, o ∈ ref_target r -> o ∈ U ++ M;
  sw_eager : forall o, o ∈ U -> ~ js h0 o -> z <> Some o -> 0 < e o + inc own U o + owed pend o;
  sw_gone : forall o, o ∈ M -> ~ js h0 o -> e o + inc own U o + owed pend o = 0;
  sw_lists : forall o, o ∈ gc_obj_list rt ++ gc_zero_ref_count_list rt ++ tmp_obj_list rt -> open_var h0 o = false;
}.

(** The outcome of dropping references: some more objects, of the kinds that
    are released at once, are gone. *)
Record freed (U M : list ptr) (pend : list gc_ref) (rt rt' : JSRuntime) : Prop := {
  fr_done : forall o, o ∈ M -> objs rt' !! o = objs rt !! o;
  fr_gone : exists D, sweep None (minus D U) M pend rt' /\ (forall d, d ∈ D -> d ∈ U /\ d ∉ live /\ ~ js h0 d) /\
    gc_obj_list rt' = minus D (gc_obj_list rt) /\
    gc_zero_ref_count_list rt' = minus D (gc_zero_ref_count_list rt) /\
    tmp_obj_list rt' = minus D (tmp_obj_list rt);
}.

Lemma freed_refl U M pend rt rt' : sweep None U M pend rt' -> objs rt' = objs rt -> gc_obj_list rt' = gc_obj_list rt ->
  gc_zero_ref_count_list rt' = gc_zero_ref_count_list rt -> tmp_obj_list rt' = tmp_obj_list rt -> freed U M pend rt rt'.
Proof. intros Hs Ho G Z T. split; [by rewrite Ho|]. exists []. rewrite !minus_nil. split_and!; try done. by intros d []%not_elem_of_nil. Qed.

(** One call after the other. *)
Lemma freed_bind U M p1 p2 rt rt1 (m : outcome JSRuntime) : freed U M p1 rt rt1 ->
  (forall U', (forall o, o ∈ U' -> o ∈ U) -> sweep None U' M p1 rt1 -> exists rt2, m = Ret rt2 /\ freed U' M p2 rt1 rt2) ->
  exists rt2, m = Ret rt2 /\ freed U M p2 rt rt2.
Proof.
  intros [Hsame (D & Hs & HD & G & Z & T)] Hk. destruct (Hk (minus D U)) as (rt2 & Hm & Hsame' & E & Hs' & HE & G' & Z' & T').
  { intros o. rewrite elem_of_minus. tauto. } { done. }
  exists rt2. split; [done|]. split; [intros o Ho; by rewrite Hsame', Hsame|].
  exists (D ++ E). rewrite !minus_app. split_and!; [done| |congruence..].
  intros d [Hd|Hd]%elem_of_app; [by apply HD|]. destruct (HE d Hd) as (Hu & ? & ?). apply elem_of_minus in Hu. tauto.
Qed.

(** *** Lookups *)

Lemma frames_kind o D : match o with JS_GC_OBJ_TYPE_JS_OBJECT _ => exists o', foldr unlink_frame o D = JS_GC_OBJ_TYPE_JS_OBJECT o'
  | JS_GC_OBJ_TYPE_ASYNC_FUNCTION _ => exists o', foldr unlink_frame o D = JS_GC_OBJ_TYPE_ASYNC_FUNCTION o'
  | o => foldr unlink_frame o D = o end.
Proof.
  induction D as [|d D IH]; [destruct o; eauto|]. cbn [foldr]. destruct o; try (by rewrite IH); destruct IH as [o' ->]; cbn [unlink_frame]; eauto.
Qed.

Lemma sweep_obj z U M pend rt o : sweep z U M pend rt -> o ∈ U ++ M -> exists ob0 ob, h0 !! o = Some ob0 /\ objs rt !! o = Some ob /\
  match ob0 with JS_GC_OBJ_TYPE_JS_OBJECT _ => exists o', ob = JS_GC_OBJ_TYPE_JS_OBJECT o'
  | JS_GC_OBJ_TYPE_ASYNC_FUNCTION _ => exists o', ob = JS_GC_OBJ_TYPE_ASYNC_FUNCTION o'
  | _ => ob = ob0 end.
Proof.
  intros Hs Ho. destruct (decide (o ∈ live)) as [Hl|Hl].
  - destruct (sw_live _ _ _ _ _ Hs o Hl) as (_ & ob0 & ob & E0 & E & D & ->). exists ob0, (foldr unlink_frame ob0 D).
    split_and!; [done..|]. pose proof (frames_kind ob0 D). by destruct ob0.
  - apply elem_of_app in Ho as [Ho|Ho].
    + destruct (sw_same _ _ _ _ _ Hs o Ho Hl) as (ob & E0 & E). exists ob, ob. split_and!; [done..|]. destruct ob; eauto.
    + destruct (sw_done _ _ _ _ _ Hs o Ho) as (ob0 & ob & E0 & E & Hk & _). exists ob0, ob. split_and!; [done..|].
      destruct ob0, ob; cbn in Hk; try done; eauto.
Qed.

Lemma sweep_js z U M pend rt o : sweep z U M pend rt -> o ∈ U ++ M -> is_js_value (objs rt) o = is_js_value h0 o.
Proof.
  intros Hs Ho. destruct (sweep_obj _ _ _ _ _ _ Hs Ho) as (ob0 & ob & E0 & E & Hk). unfold is_js_value. rewrite E0, E.
  destruct ob0; try (destruct Hk as [o' ->]; done); by rewrite Hk.
Qed.

(** *** Dropping one reference *)

Lemma decref_sweep U M r pend rt p : sweep None U M (r :: pend) rt -> ref_target r = [p] ->
  exists rt', decref rt p = Ret (e p + inc own U p + owed pend p, rt') /\
    sweep (Some p) U M pend rt' /\ p ∈ U ++ M /\ ref_ok h0 r = true /\
    (objs rt' = objs rt /\ gc_obj_list rt' = gc_obj_list rt /\ gc_zero_ref_count_list rt' = gc_zero_ref_count_list rt /\ tmp_obj_list rt' = tmp_obj_list rt).
Proof.
  intros Hs Hr. pose proof Hs as [W1 W2 W3 W4 W5 W6 W7 W8 W9 W10 W11 W12].
  destruct (W9 r ltac:(set_solver)) as [Hok Hin]. assert (p ∈ U ++ M) as Hp by (apply Hin; rewrite Hr; set_solver).
  destruct (W7 p Hp) as (m & Hm & Hml). unfold decref, get_hdr. rewrite Hm. cbn [mbind outcome_bind ref_count mark].
  assert (Hpp : owed (r :: pend) p = 1 + owed pend p).
  { rewrite owed_cons, Hr. cbn [occ]. by rewrite decide_True. }
  assert (Hoo : forall o, o <> p -> owed (r :: pend) o = owed pend o).
  { intros o Ho. rewrite owed_cons, Hr. cbn [occ]. rewrite decide_False by done. lia. }
  cbv zeta.
  assert (e p + inc own U p + owed (r :: pend) p - 1 = e p + inc own U p + owed pend p) as -> by (rewrite Hpp; lia).
  eexists. split; [done|]. split; [|split_and!; done].
  split; cbn [gc_phase objs hdrs set_hdr set_hdrs gc_obj_list gc_zero_ref_count_list tmp_obj_list]; try done.
  - intros o Ho. destruct (decide (p = o)) as [->|Hne].
    + rewrite lookup_insert_eq. by exists m.
    + rewrite lookup_insert_ne by done. rewrite <- (Hoo o) by done. by apply W7.
  - intros r' Hr'. apply W9. set_solver.
  - intros o Ho Hj Hz. rewrite <- (Hoo o) by congruence. by apply W10.
  - intros o Ho Hj. destruct (decide (o = p)) as [->|Hne]; [|rewrite <- (Hoo o) by done; by apply W11].
    specialize (W11 p Ho Hj). rewrite Hpp in W11. pose proof (owed_nonneg pend p). pose proof (inc_nonneg own U p).
    pose proof (sp_nonneg Hsw p). lia.
Qed.

(** The object is alive, waits in a list, or still counts. *)
Lemma sweep_none p U M pend rt : sweep (Some p) U M pend rt ->
  (js h0 p \/ 0 < e p + inc own U p + owed pend p \/ p ∈ M) -> sweep None U M pend rt.
Proof.
  intros Hs Hp. pose proof Hs as [W1 W2 W3 W4 W5 W6 W7 W8 W9 W10 W11 W12]. split; try done.
  intros o Ho Hj _. destruct (decide (o = p)) as [->|Hne]; [|apply W10; [done..|congruence]].
  destruct Hp as [Hp|[Hp|Hp]]; [done|done|]. apply NoDup_app in W2 as (_ & W2 & _). by destruct (W2 p Ho Hp).
Qed.

(** Without references, an object is neither alive nor released yet. *)
Lemma zero_garbage U M r pend rt p : sweep None U M (r :: pend) rt -> ref_target r = [p] -> ~ js h0 p ->
  e p + inc own U p + owed pend p <= 0 ->
  p ∈ U /\ p ∉ live /\ e p = 0 /\ inc own U p = 0 /\ owed pend p = 0.
Proof.
  intros Hs Hr Hj Hz. pose proof (owed_nonneg pend p). pose proof (inc_nonneg own U p). pose proof (sp_nonneg Hsw p).
  assert (p ∉ live) as Hl.
  { intros Hl. pose proof (sw_nodup _ _ _ _ _ Hs) as Hn. apply NoDup_app in Hn as (Hn & _ & _).
    pose proof (sp_positive Hsw p U Hl Hn (fun q Hq => proj1 (sw_live _ _ _ _ _ Hs q Hq))). lia. }
  split_and!; [|done|lia..]. destruct (sw_pend _ _ _ _ _ Hs r ltac:(set_solver)) as [_ Hin].
  pose proof (Hin p ltac:(rewrite Hr; set_solver)) as [Hu|Hm]%elem_of_app; [done|].
  pose proof (sw_gone _ _ _ _ _ Hs p Hm Hj) as Hg. rewrite owed_cons, Hr in Hg. cbn [occ] in Hg. rewrite decide_True in Hg by done. lia.
Qed.

(** *** Taking an object out *)

Definition frees (l : list fin_step) : list gc_ref := l ≫= (fun s => match s with F_free r => [r] | _ => [] end).

Lemma elem_of_frees r l : r ∈ frees l <-> F_free r ∈ l.
Proof.
  unfold frees. rewrite list_elem_of_bind. split.
  - intros ([r'|?|?|??] & Hr & Hl); try by apply not_elem_of_nil in Hr. apply list_elem_of_singleton in Hr. by subst.
  - intros Hr. exists (F_free r). split; [by apply list_elem_of_singleton|done].
Qed.
Lemma frees_app l1 l2 : frees (l1 ++ l2) = frees l1 ++ frees l2.
Proof. apply bind_app. Qed.
Lemma owed_frees l o : owed (frees l) o = occ o (targets l).
Proof.
  induction l as [|s l IH]; [done|]. unfold frees, targets in *. rewrite !bind_cons, owed_app, occ_app, IH. f_equal.
  destruct s; try done. unfold owed. rewrite bind_cons, occ_app. cbn. lia.
Qed.
Lemma frees_target r l o : r ∈ frees l -> o ∈ ref_target r -> o ∈ targets l.
Proof. intros Hr%elem_of_frees Ho. apply list_elem_of_bind. by exists (F_free r). Qed.

(** The references of [p] are given back from now on. *)
Lemma sweep_start z U M pend rt p l : sweep z U M pend rt -> p ∈ U -> p ∉ live -> z = None \/ z = Some p ->
  steps h0 p = Ret l -> (~ js h0 p -> e p + inc own U p + owed pend p = 0) ->
  sweep None (unlink p U) (p :: M) (frees l ++ pend) rt /\ own p = targets l /\ forallb (step_ok h0) l = true /\ reads_ok l = true.
Proof.
  intros [W1 W2 W3 W4 W5 W6 W7 W8 W9 W10 W11 W12] Hp Hl Hz Hst Hc.
  assert (Hh : exists ob, h0 !! p = Some ob) by (destruct (W4 p Hp Hl) as (ob & ? & _); eauto).
  destruct (sp_steps Hsw p Hh Hl) as (l' & Hst' & Hown & Hok & Hreads). rewrite Hst in Hst'. injection Hst' as <-.
  split; [|done]. pose proof W2 as Hnd. apply NoDup_app in Hnd as (HnU & Hd & HnM).
  assert (Hmem : forall o, o ∈ U ++ M <-> o ∈ unlink p U ++ p :: M).
  { intros o. rewrite !elem_of_app, elem_of_cons, elem_of_unlink. destruct (decide (o = p)) as [->|?]; tauto. }
  assert (Hcnt : forall o, e o + inc own (unlink p U) o + owed (frees l ++ pend) o = e o + inc own U o + owed pend o).
  { intros o. rewrite owed_app, owed_frees, <- Hown, (inc_minus own U p o) by done. lia. }
  split; try done.
  - apply NoDup_app. split_and!; [by apply unlink_nodup| |].
    + intros o [Hne Ho]%elem_of_unlink [->|Hm]%elem_of_cons; [done|]. by apply (Hd o).
    + apply NoDup_cons. split; [by apply Hd|done].
  - intros o Ho. destruct (W3 o Ho) as [Hu Hob]. split; [|done]. apply elem_of_unlink. split; [by intros ->|done].
  - intros o [_ Ho]%elem_of_unlink. by apply W4.
  - intros o [->|Ho]%elem_of_cons; [|by apply W5]. destruct (W4 p Hp Hl) as (ob & E0 & E). exists ob, ob. split_and!; try done.
    + by destruct ob.
    + by apply (sp_frames Hsw p).
  - intros o ob Ho. apply Hmem. by apply (W6 o ob).
  - intros o Ho. rewrite Hcnt. by apply W7, Hmem.
  - intros q o [_ Hq]%elem_of_unlink Ho. apply Hmem. by apply (W8 q).
  - intros r [Hr|Hr]%elem_of_app.
    + split.
      * apply elem_of_frees in Hr. rewrite forallb_forall in Hok. by apply (Hok (F_free r)), list_elem_of_In.
      * intros o Ho. apply Hmem, (W8 p); [done|]. rewrite Hown. by apply (frees_target r).
    + destruct (W9 r Hr) as [? Hin]. split; [done|]. intros o Ho. by apply Hmem, Hin.
  - intros o [Hne Ho]%elem_of_unlink Hj _. rewrite Hcnt. apply W10; [done..|]. destruct Hz as [-> | ->]; congruence.
  - intros o [->|Ho]%elem_of_cons Hj; rewrite Hcnt; [by apply Hc|by apply W11].
Qed.

(** Its memory, in the end. *)
Lemma sweep_end U M pend rt rt' p : sweep None U (p :: M) pend rt -> e p + inc own U p + owed pend p = 0 ->
  gc_phase rt' = gc_phase rt -> objs rt' = delete p (objs rt) -> hdrs rt' = delete p (hdrs rt) ->
  (forall o, o ∈ gc_obj_list rt' ++ gc_zero_ref_count_list rt' ++ tmp_obj_list rt' ->
     o ∈ gc_obj_list rt ++ gc_zero_ref_count_list rt ++ tmp_obj_list rt) ->
  sweep None U M pend rt'.
Proof.
  intros [W1 W2 W3 W4 W5 W6 W7 W8 W9 W10 W11 W12] Hc Hph Ho Hh Hls.
  pose proof (owed_nonneg pend p). pose proof (inc_nonneg own U p). pose proof (sp_nonneg Hsw p).
  apply NoDup_app in W2 as (HnU & Hd & [HpM HnM]%NoDup_cons).
  assert (HpU : forall o, o ∈ U -> o <> p) by (intros o HoU ->; apply (Hd p); set_solver).
  assert (HpM' : forall o, o ∈ M -> o <> p) by (by intros o HoM ->).
  split; try done; [by rewrite Hph|..].
  - apply NoDup_app. split_and!; [done| |done]. intros o HoU HoM. apply (Hd o); set_solver.
  - intros o Hol. destruct (W3 o Hol) as (HoU & ob0 & ob & E0 & E & Hsb). split; [done|]. exists ob0, ob.
    rewrite Ho, heap_delete_ne by (apply not_eq_sym; by apply HpU). done.
  - intros o HoU Hol. destruct (W4 o HoU Hol) as (ob & E0 & E). exists ob.
    rewrite Ho, heap_delete_ne by (apply not_eq_sym; by apply HpU). done.
  - intros o HoM. rewrite Ho, heap_delete_ne by (apply not_eq_sym; by apply HpM'). apply W5. set_solver.
  - intros o ob. rewrite Ho, heap_delete_Some. intros [Hne Hob]. apply W6 in Hob. set_solver.
  - intros o HoUM. rewrite Hh, lookup_delete_ne; [apply W7; set_solver|]. intros <-. apply elem_of_app in HoUM as [?|?]; [by apply (HpU p)|done].
  - intros q o Hq Hoq. assert (o <> p) by (intros ->; pose proof (inc_elem own U q p Hq Hoq); lia). specialize (W8 q o Hq Hoq). set_solver.
  - intros r Hr. destruct (W9 r Hr) as [Hok Hin]. split; [done|]. intros o Hor. specialize (Hin o Hor).
    assert (o <> p); [|set_solver]. intros ->. assert (0 < owed pend p); [|lia]. apply occ_elem, list_elem_of_bind. by exists r.
  - intros o HoM. apply W11. set_solver.
  - intros o Hol. by apply W12, Hls.
Qed.

(** A released object that is kept can be written. *)
Lemma sweep_write U M pend rt p o' : sweep None U M pend rt -> p ∈ M -> js h0 p -> is_js_value h0 p = true ->
  (exists o, objs rt !! p = Some (JS_GC_OBJ_TYPE_JS_OBJECT o)) -> frames_closed h0 (JS_GC_OBJ_TYPE_JS_OBJECT o') ->
  sweep None U M pend (set_object rt p o').
Proof.
  intros [W1 W2 W3 W4 W5 W6 W7 W8 W9 W10 W11 W12] HpM Hj _ [o Ho] Hf. pose proof W2 as (HnU & Hd & HnM)%NoDup_app.
  assert (HpU : forall q, q ∈ U -> p <> q) by (intros q Hq ->; by apply (Hd q)).
  split; try done; cbn [objs set_object set_objs].
  - intros q Hq. destruct (W3 q Hq) as [Hu Hob]. split; [done|]. rewrite heap_insert_ne; [done|by apply HpU].
  - intros q Hq. rewrite heap_insert_ne by (by apply HpU). by apply W4.
  - intros q Hq. destruct (W5 q Hq) as (ob0 & ob & E0 & E & Hk & Hc). destruct (decide (p = q)) as [<-|Hne].
    + exists ob0, (JS_GC_OBJ_TYPE_JS_OBJECT o'). rewrite heap_insert_eq. split_and!; try done.
      rewrite Ho in E. injection E as <-. by destruct ob0.
    + exists ob0, ob. by rewrite heap_insert_ne.
  - intros q ob. destruct (decide (p = q)) as [<-|Hne]; [intros _; set_solver|]. rewrite heap_insert_ne by done. apply W6.
Qed.

(** *** Releasing *)

Section Depth.
Context (n : nat) (IH : forall U M pend r rt, (rank r <= n)%nat -> sweep None U M (r :: pend) rt ->
  exists rt', free_ref n rt r = Ret rt' /\ freed U M pend rt rt').

Lemma run_steps_ok l : forall U M pend rt, forallb (step_ok h0) l = true -> reads_ok l = true -> steps_rank (S n) l ->
  sweep None U M (frees l ++ pend) rt -> exists rt', run_steps (free_ref n) rt l = Ret rt' /\ freed U M pend rt rt'.
Proof.
  induction l as [|s l IHl]; intros U M pend rt Hok Hrd Hrk Hs; [exists rt; split; [done|by apply freed_refl]|].
  cbn [forallb] in Hok. apply andb_true_iff in Hok as [Hs1 Hok]. unfold run_steps. cbn [foldM].
  assert (Hrk' : steps_rank (S n) l) by (intros r Hr; apply Hrk; set_solver). destruct s as [r|p|sf|]; cbn [run_step]; [..|done].
  - destruct (IH U M (frees l ++ pend) r rt) as (rt1 & -> & Hf); [|exact Hs|].
    { specialize (Hrk r ltac:(set_solver)). lia. }
    eapply freed_bind; [exact Hf|]. intros U' _ Hs'. by apply IHl.
  - cbn [reads_ok] in Hrd. apply andb_true_iff in Hrd as [Hp Hrd]. apply existsb_exists in Hp as (q & Hq & ->%Pos.eqb_eq).
    apply list_elem_of_In, list_elem_of_bind in Hq as ([r| | |] & Hqr & Hr); try by apply not_elem_of_nil in Hqr.
    destruct (sw_pend _ _ _ _ _ Hs r) as [_ Hin]; [apply elem_of_app; left; apply elem_of_frees; set_solver|].
    destruct (sweep_obj _ _ _ _ _ q Hs (Hin q Hqr)) as (ob0 & ob & _ & -> & _). cbn [mbind outcome_bind]. by apply IHl.
  - unfold close_var_refs. cbn [step_ok] in Hs1. destruct (var_ref_list sf); [|done]. cbn [foldM mbind outcome_bind]. by apply IHl.
Qed.

Lemma release_ok U M pend rt p l : sweep (Some p) U M pend rt -> p ∈ U -> p ∉ live -> ~ js h0 p ->
  e p + inc own U p + owed pend p = 0 -> steps h0 p = Ret l -> steps_rank (S n) l ->
  exists rt', release (free_ref n) rt p l = Ret rt' /\ freed U M pend rt rt'.
Proof.
  intros Hs Hp Hl Hj Hc Hst Hrk.
  destruct (sweep_start _ _ _ _ _ _ _ Hs Hp Hl (or_intror eq_refl) Hst (fun _ => Hc)) as (Hs1 & Hown & Hok & Hrd).
  destruct (run_steps_ok l _ _ _ _ Hok Hrd Hrk Hs1) as (rt1 & E1 & [Hsame (D & Hs2 & HD & G & Z & T)]).
  unfold release. rewrite E1. cbn [mbind outcome_bind]. unfold js_free_rt. cbn [objs list_del set_lists].
  destruct (sweep_obj _ _ _ _ _ p Hs2 ltac:(set_solver)) as (ob0 & ob & _ & Hob & _). rewrite Hob. eexists. split; [done|].
  assert (HpM : p ∉ M) by (pose proof (sw_nodup _ _ _ _ _ Hs) as (_ & Hd & _)%NoDup_app; by apply Hd).
  split.
  - intros o Ho. cbn [objs set_objs set_hdrs]. rewrite heap_delete_ne by (by intros ->). apply Hsame. set_solver.
  - exists (p :: D). rewrite !minus_cons. split_and!.
    + eapply sweep_end; [exact Hs2|apply (sw_gone _ _ _ _ _ Hs2); [set_solver|done]|done..|].
      intros o. cbn [gc_obj_list gc_zero_ref_count_list tmp_obj_list set_objs set_hdrs list_del set_lists].
      rewrite !elem_of_app, !elem_of_unlink. tauto.
    + intros d [->|Hd]%elem_of_cons; [done|]. destruct (HD d Hd) as (Hu & ?). apply elem_of_unlink in Hu. tauto.
    + cbn. by rewrite G, unlink_minus.
    + cbn. by rewrite Z, unlink_minus.
    + cbn. by rewrite T, unlink_minus.
Qed.
End Depth.

(** *** The nesting is bounded *)

Lemma rank_app n l1 l2 : steps_rank n l1 -> steps_rank n l2 -> steps_rank n (l1 ++ l2).
Proof. intros H1 H2 r [Hr|Hr]%elem_of_app; [by apply H1|by apply H2]. Qed.
Lemma rank_cons n s l : steps_rank n [s] -> steps_rank n l -> steps_rank n (s :: l).
Proof. apply (rank_app n [s] l). Qed.
Lemma rank_nil n : steps_rank n [].
Proof. by intros r ?%not_elem_of_nil. Qed.
Lemma rank_bind {A} n (f : A -> list fin_step) l : (forall x, steps_rank n (f x)) -> steps_rank n (l ≫= f).
Proof. intros Hf r (x & Hr & _)%list_elem_of_bind. by apply (Hf x). Qed.
Lemma rank_value n v : (2 <= n)%nat -> steps_rank n (free_value v).
Proof. intros Hn r [= ->]%list_elem_of_singleton. cbn. lia. Qed.
Lemma rank_free n r : (rank r < n)%nat -> steps_rank n [F_free r].
Proof. by intros Hr r' [= ->]%list_elem_of_singleton. Qed.
Lemma rank_close n sf : steps_rank n [F_close sf].
Proof. by intros r ?%list_elem_of_singleton. Qed.
Create HintDb ranks.
#[local] Hint Resolve le_n le_S rank_app rank_nil rank_bind rank_value rank_close : ranks.

Lemma async_func_rank s l : async_func_free s = Ret l -> steps_rank 2 l.
Proof.
  unfold async_func_free. destruct (match arg_buf (frame s) with Some _ => _ | None => _ end) as [l1|] eqn:E; [|done].
  assert (steps_rank 2 l1).
  { destruct (arg_buf (frame s)) as [buf|]; [|by injection E as <-; auto with ranks]. destruct (cur_sp (frame s)) as [sp|]; [|done].
    destruct (rd_range buf 0 sp) as [l2|]; [|done]. injection E as <-. unfold free_values. auto with ranks. }
  intros [= <-]. apply (rank_app 2 [F_close (frame s)]); [auto with ranks|]. apply rank_app; [done|]. apply (rank_app 2 (free_value _)); auto with ranks.
Qed.

Lemma async_rank s l : async_steps s = Ret l -> steps_rank 2 l.
Proof.
  unfold async_steps. destruct (is_active s).
  - destruct (async_func_free (func_state s)) as [l1|] eqn:E; [|done]. intros [= <-]. apply async_func_rank in E. apply rank_app; [done|]. apply (rank_app 2 (free_value _)); auto with ranks.
  - intros [= <-]. apply (rank_app 2 (free_value _)); auto with ranks.
Qed.

Lemma context_rank c : steps_rank 3 (context_steps c).
Proof.
  assert (Hv : forall v, steps_rank 3 (free_value v)) by auto with ranks.
  assert (Hvs : forall l, steps_rank 3 (free_values l)) by (unfold free_values; auto with ranks).
  unfold context_steps. apply rank_app.
  - apply rank_bind. intros m. unfold js_free_module_def. apply rank_app; [|auto with ranks].
    apply rank_bind. intros [p|]; [apply rank_free; cbn; lia|auto with ranks].
  - repeat (apply rank_app; [auto|]). destruct (array_shape c); [apply rank_free; cbn; lia|auto with ranks].
Qed.

(** What an object refers to is released in fewer nested calls. *)
Lemma eager_rank r p l : ref_ok h0 r = true -> ref_target r = [p] -> ~ js h0 p -> steps h0 p = Ret l -> steps_rank (rank r) l.
Proof.
  unfold steps, is_js_value. intros Hok Hr Hj. destruct r as [[q|q|]|q|q|q|q]; cbn in Hr; try done; injection Hr as ->; cbn in Hok;
    destruct (h0 !! p) as [[ob|b|sh|v|a|c]|] eqn:E; try done; try (by destruct Hj).
  - intros [= <-]. destruct (proto sh); cbn [free_obj_opt rank]; auto with ranks.
  - intros [= <-]. destruct (is_detached v); cbn [rank]; auto with ranks.
  - intros [= <-]. apply context_rank.
  - apply async_rank.
Qed.

(** *** One reference *)

Lemma freed_from U M pend rt rt1 rt' : objs rt1 = objs rt /\ gc_obj_list rt1 = gc_obj_list rt /\
  gc_zero_ref_count_list rt1 = gc_zero_ref_count_list rt /\ tmp_obj_list rt1 = tmp_obj_list rt ->
  freed U M pend rt1 rt' -> freed U M pend rt rt'.
Proof. intros (Ho & G & Z & T) [Hs Hg]. split; [by rewrite <- Ho|]. by rewrite <- G, <- Z, <- T. Qed.

Definition ref_frees (n : nat) : Prop := forall U M pend r rt, (rank r <= n)%nat -> sweep None U M (r :: pend) rt ->
  exists rt', free_ref n rt r = Ret rt' /\ freed U M pend rt rt'.

Lemma eager_release n U M pend r rt rt1 p : ref_frees n -> (rank r <= S n)%nat -> sweep None U M (r :: pend) rt -> sweep (Some p) U M pend rt1 ->
  objs rt1 = objs rt /\ gc_obj_list rt1 = gc_obj_list rt /\ gc_zero_ref_count_list rt1 = gc_zero_ref_count_list rt /\ tmp_obj_list rt1 = tmp_obj_list rt ->
  ref_target r = [p] -> ~ js h0 p -> e p + inc own U p + owed pend p <= 0 ->
  e p + inc own U p + owed pend p = 0 /\ p ∈ U /\ p ∉ live /\ (exists ob, h0 !! p = Some ob /\ objs rt1 !! p = Some ob) /\
  forall l, steps h0 p = Ret l -> exists rt', release (free_ref n) rt1 p l = Ret rt' /\ freed U M pend rt rt'.
Proof.
  intros IH Hrk Hs Hs1 Hsame Hr Hj Hz. destruct (zero_garbage _ _ _ _ _ _ Hs Hr Hj Hz) as (HpU & Hpl & He & Hi & Hw).
  split_and!; [lia|done|done|by apply (sw_same _ _ _ _ _ Hs1)|].
  intros l Hst. destruct (release_ok n IH U M pend rt1 p l) as (rt' & E & Hf); try done; [lia| |].
  - destruct (sw_pend _ _ _ _ _ Hs r ltac:(set_solver)) as [Hok _]. intros r' Hr'.
    pose proof (eager_rank r p l Hok Hr Hj Hst r' Hr'). lia.
  - exists rt'. split; [done|]. by apply (freed_from U M pend rt rt1).
Qed.

Lemma eager_keep U M pend rt rt1 p : sweep (Some p) U M pend rt1 ->
  objs rt1 = objs rt /\ gc_obj_list rt1 = gc_obj_list rt /\ gc_zero_ref_count_list rt1 = gc_zero_ref_count_list rt /\ tmp_obj_list rt1 = tmp_obj_list rt ->
  js h0 p \/ 0 < e p + inc own U p + owed pend p \/ p ∈ M -> freed U M pend rt rt1.
Proof. intros Hs (Ho & G & Z & T) Hp. apply freed_refl; try done. by apply (sweep_none p). Qed.

(** The variable of a frame. *)
Lemma open_release U M pend rt p v : sweep (Some p) U M pend rt -> p ∈ U -> p ∉ live -> e p + inc own U p + owed pend p = 0 ->
  h0 !! p = Some (JS_GC_OBJ_TYPE_VAR_REF v) -> is_detached v = false ->
  exists rt', js_free_rt (list_del_frame rt p) p = Ret rt' /\ freed U M pend rt rt'.
Proof.
  intros Hs Hp Hl Hc E0 Hd. assert (Hst : steps h0 p = Ret []) by (unfold steps; by rewrite E0, Hd).
  assert (Hopen : open_var h0 p = true) by (unfold open_var; by rewrite E0, Hd).
  destruct (sw_same _ _ _ _ _ Hs p Hp Hl) as (ob & E0' & E). rewrite E0 in E0'. injection E0' as <-.
  destruct (sweep_start _ _ _ _ _ _ _ Hs Hp Hl (or_intror eq_refl) Hst (fun _ => Hc)) as (Hs1 & Hown & _).
  change (frees [] ++ pend) with pend in Hs1.
  assert (Hnl : forall o, o ∈ gc_obj_list rt ++ gc_zero_ref_count_list rt ++ tmp_obj_list rt -> o <> p).
  { intros o Ho ->. pose proof (sw_lists _ _ _ _ _ Hs p Ho). congruence. }
  assert (Hsame : forall o, o ∈ M -> unlink_frame p <$> objs rt !! o = objs rt !! o).
  { intros o Ho. destruct (sw_done _ _ _ _ _ Hs o Ho) as (ob0 & ob & _ & -> & _ & Hf). cbn. by rewrite (Hf p Hopen). }
  assert (HpM : p ∉ M) by (pose proof (sw_nodup _ _ _ _ _ Hs) as (_ & Hdj & _)%NoDup_app; by apply Hdj).
  assert (Hs2 : sweep None (unlink p U) (p :: M) pend (list_del_frame rt p)).
  { destruct Hs1 as [W1 W2 W3 W4 W5 W6 W7 W8 W9 W10 W11 W12]. split; try done; cbn [objs list_del_frame set_objs].
    - intros o Ho. destruct (W3 o Ho) as (Hu & ob0 & ob & F0 & F & D & ->). split; [done|].
      exists ob0, (unlink_frame p (foldr unlink_frame ob0 D)). rewrite heap_fmap, F. split_and!; [done..|]. by exists (p :: D).
    - intros o Ho Hol. destruct (W4 o Ho Hol) as (ob & F0 & F). exists ob. rewrite heap_fmap, F. cbn.
      by rewrite (sp_frames Hsw o ob F0 Hol p Hopen).
    - intros o Ho. destruct (W5 o Ho) as (ob0 & ob & F0 & F & Hk & Hf). exists ob0, ob. rewrite heap_fmap, F. cbn. by rewrite (Hf p Hopen).
    - intros o ob. rewrite heap_fmap. intros (ob1 & F & _)%fmap_Some. by apply (W6 o ob1). }
  unfold js_free_rt. cbn [objs list_del_frame set_objs]. rewrite heap_fmap, E. cbn [fmap option_fmap option_map].
  eexists. split; [done|]. split.
  - intros o Ho. cbn [objs set_objs set_hdrs]. rewrite heap_delete_ne by (by intros ->). rewrite heap_fmap. by apply Hsame.
  - exists [p]. rewrite !minus_cons, !minus_nil.
    rewrite (unlink_notin p (gc_obj_list rt)), (unlink_notin p (gc_zero_ref_count_list rt)), (unlink_notin p (tmp_obj_list rt))
      by (intros Hin; apply (Hnl p); [rewrite !elem_of_app; tauto|done]).
    split_and!; try done.
    + eapply sweep_end; [exact Hs2| |done..|cbn; done]. rewrite (inc_minus own U p p), Hown in Hc; cbn in Hc; [lia| |done].
      by pose proof (sw_nodup _ _ _ _ _ Hs) as (? & _)%NoDup_app.
    + intros d ->%list_elem_of_singleton. split_and!; [done..|]. unfold is_js_value. by rewrite E0.
Qed.

Lemma sweep_leaf U M pend rt : sweep None U M (R_value JS_LEAF :: pend) rt -> sweep None U M pend rt.
Proof. intros [W1 W2 W3 W4 W5 W6 W7 W8 W9 W10 W11 W12]. split; try done. intros r Hr. apply W9. set_solver. Qed.

(** What dropping a reference of any kind starts with. *)
Ltac drop_one Hs p E1 Hs1 Hp Hsame Hkeep :=
  match type of Hs with sweep None ?U ?M (?r :: ?pend) ?rt =>
    let rt1 := fresh "rt1" in
    destruct (decref_sweep U M r pend rt p Hs eq_refl) as (rt1 & E1 & Hs1 & Hp & _ & Hsame);
    pose proof (eager_keep U M pend rt rt1 p Hs1 Hsame) as Hkeep
  end.

Section Kinds.
Context (n : nat) (IH : ref_frees n) (U M : list ptr) (pend : list gc_ref) (rt : JSRuntime) (p : ptr).

Lemma free_js_ok r : sweep None U M (r :: pend) rt -> r = R_value (JS_OBJ p) \/ r = R_value (JS_BYTECODE p) ->
  exists rt', free_step (free_ref n) rt r = Ret rt' /\ freed U M pend rt rt'.
Proof.
  intros Hs Hr. assert (Ht : ref_target r = [p]) by (by destruct Hr as [-> | ->]).
  destruct (decref_sweep U M r pend rt p Hs Ht) as (rt1 & E1 & Hs1 & Hp & Hok & Hsame).
  assert (Hj : js h0 p) by (unfold is_js_value; destruct Hr as [-> | ->]; cbn in Hok; by destruct (h0 !! p) as [[]|]).
  exists rt1. split; [|apply (eager_keep U M pend rt rt1 p Hs1 Hsame); by left].
  destruct Hr as [-> | ->]; cbn [free_step]; rewrite E1; cbn [mbind outcome_bind]; unfold __JS_FreeValueRT;
    rewrite (sw_phase _ _ _ _ _ Hs1); by destruct (_ <=? 0).
Qed.

Lemma free_shape_ok : (1 <= n)%nat -> sweep None U M (R_shape p :: pend) rt ->
  exists rt', js_free_shape (free_ref n) rt p = Ret rt' /\ freed U M pend rt rt'.
Proof.
  intros Hn Hs. drop_one Hs p E1 Hs1 Hp Hsame Hkeep. destruct (sw_pend _ _ _ _ _ Hs (R_shape p) ltac:(set_solver)) as [Hok _].
  unfold js_free_shape. rewrite E1. cbn [mbind outcome_bind]. cbn in Hok. destruct (h0 !! p) as [[| |sh| | |]|] eqn:E0; try done.
  assert (Hj : ~ js h0 p) by (unfold is_js_value; by rewrite E0).
  destruct (Z.leb_spec (e p + inc own U p + owed pend p) 0) as [Hz|Hz]; [|exists rt1; split; [done|apply Hkeep; auto]].
  destruct (eager_release n U M pend (R_shape p) rt rt1 p IH ltac:(cbn; lia) Hs Hs1 Hsame eq_refl Hj Hz) as (Hc & HpU & Hpl & (ob & E0' & E) & Hr).
  rewrite E0 in E0'. injection E0' as <-.
  unfold js_free_shape0, get_shape_of. rewrite E, Hc. cbn [mbind outcome_bind c_assert Z.eqb]. apply Hr. unfold steps. by rewrite E0.
Qed.

Lemma free_var_ref_ok : (1 <= n)%nat -> sweep None U M (R_var_ref p :: pend) rt ->
  exists rt', free_var_ref (free_ref n) rt p = Ret rt' /\ freed U M pend rt rt'.
Proof.
  intros Hn Hs. drop_one Hs p E1 Hs1 Hp Hsame Hkeep. destruct (sw_pend _ _ _ _ _ Hs (R_var_ref p) ltac:(set_solver)) as [Hok _].
  cbn in Hok. destruct (h0 !! p) as [[| | |v| |]|] eqn:E0; try done. assert (Hj : ~ js h0 p) by (unfold is_js_value; by rewrite E0).
  unfold free_var_ref. destruct (sw_hdr _ _ _ _ _ Hs p Hp) as (m & Hm & _). unfold get_hdr at 1. rewrite Hm. cbn [mbind outcome_bind ref_count].
  rewrite owed_cons. cbn [ref_target occ]. rewrite decide_True by done.
  pose proof (owed_nonneg pend p). pose proof (inc_nonneg own U p). pose proof (sp_nonneg Hsw p).
  unfold c_assert at 1. destruct (Z.ltb_spec 0 (e p + inc own U p + (1 + 0 + owed pend p))); [|lia]. rewrite E1. cbn [mbind outcome_bind].
  destruct (Z.eqb_spec (e p + inc own U p + owed pend p) 0) as [Hz|Hz]; [|exists rt1; split; [done|apply Hkeep; right; left; lia]].
  destruct (eager_release n U M pend (R_var_ref p) rt rt1 p IH ltac:(cbn; lia) Hs Hs1 Hsame eq_refl Hj ltac:(lia)) as (Hc & HpU & Hpl & (ob & E0' & E) & Hr).
  rewrite E0 in E0'. injection E0' as <-.
  unfold get_var_ref_of. rewrite E. cbn [mbind outcome_bind]. destruct (is_detached v) eqn:Ed.
  - apply Hr. unfold steps. by rewrite E0, Ed.
  - destruct (open_release U M pend rt1 p v) as (rt' & E2 & Hf); try done. exists rt'. split; [done|]. by apply (freed_from U M pend rt rt1).
Qed.

Lemma free_context_ok : (2 <= n)%nat -> sweep None U M (R_context p :: pend) rt ->
  exists rt', JS_FreeContext (free_ref n) rt p = Ret rt' /\ freed U M pend rt rt'.
Proof.
  intros Hn Hs. drop_one Hs p E1 Hs1 Hp Hsame Hkeep. destruct (sw_pend _ _ _ _ _ Hs (R_context p) ltac:(set_solver)) as [Hok _].
  unfold JS_FreeContext. rewrite E1. cbn [mbind outcome_bind]. cbn in Hok. destruct (h0 !! p) as [[| | | | |c]|] eqn:E0; try done.
  assert (Hj : ~ js h0 p) by (unfold is_js_value; by rewrite E0).
  destruct (Z.ltb_spec 0 (e p + inc own U p + owed pend p)) as [Hz|Hz]; [exists rt1; split; [done|apply Hkeep; auto]|].
  destruct (eager_release n U M pend (R_context p) rt rt1 p IH ltac:(cbn; lia) Hs Hs1 Hsame eq_refl Hj Hz) as (Hc & HpU & Hpl & (ob & E0' & E) & Hr).
  rewrite E0 in E0'. injection E0' as <-. rewrite E, Hc. cbn [mbind outcome_bind c_assert Z.eqb]. apply Hr. unfold steps. by rewrite E0.
Qed.

Lemma free_async_ok : (1 <= n)%nat -> sweep None U M (R_async p :: pend) rt ->
  exists rt', js_async_function_free (free_ref n) rt p = Ret rt' /\ freed U M pend rt rt'.
Proof.
  intros Hn Hs. drop_one Hs p E1 Hs1 Hp Hsame Hkeep. destruct (sw_pend _ _ _ _ _ Hs (R_async p) ltac:(set_solver)) as [Hok _].
  unfold js_async_function_free. rewrite E1. cbn [mbind outcome_bind]. cbn in Hok. destruct (h0 !! p) as [[| | | |a|]|] eqn:E0; try done.
  assert (Hj : ~ js h0 p) by (unfold is_js_value; by rewrite E0).
  pose proof (owed_nonneg pend p). pose proof (inc_nonneg own U p). pose proof (sp_nonneg Hsw p).
  destruct (Z.eqb_spec (e p + inc own U p + owed pend p) 0) as [Hz|Hz]; [|exists rt1; split; [done|apply Hkeep; right; left; lia]].
  destruct (eager_release n U M pend (R_async p) rt rt1 p IH ltac:(cbn; lia) Hs Hs1 Hsame eq_refl Hj ltac:(lia)) as (Hc & HpU & Hpl & (ob & E0' & E) & Hr).
  rewrite E0 in E0'. injection E0' as <-.
  rewrite E. destruct (sp_steps Hsw p (ex_intro _ _ E0) Hpl) as (l & Hst & _). pose proof Hst as Hst'. unfold steps in Hst'. rewrite E0 in Hst'.
  rewrite Hst'. cbn [mbind outcome_bind]. by apply Hr.
Qed.
End Kinds.

(** Dropping a reference while the sweep goes on. *)
Lemma free_ref_ok n : ref_frees n.
Proof.
  induction n as [|n IH]; intros U M pend r rt Hrk Hs; [by destruct r; cbn in Hrk; lia|]. cbn [free_ref].
  destruct r as [[p|p|]|p|p|p|p]; cbn in Hrk; cbn [free_step].
  - apply (free_js_ok n U M pend rt p (R_value (JS_OBJ p)) Hs). by left.
  - apply (free_js_ok n U M pend rt p (R_value (JS_BYTECODE p)) Hs). by right.
  - exists rt. split; [done|]. apply freed_refl; [by apply sweep_leaf|done..].
  - apply free_shape_ok; [done|lia|done].
  - apply free_var_ref_ok; [done|lia|done].
  - apply free_context_ok; [done|lia|done].
  - apply free_async_ok; [done|lia|done].
Qed.

(** ** An object of a cycle *)

Lemma rank_any n l : (4 <= n)%nat -> steps_rank n l.
Proof. intros Hn r _. destruct r; cbn; lia. Qed.

(** The objects that are read during the release are the ones of the start. *)
Lemma read_same U M pend rt r p : sweep None U M pend rt -> r ∈ pend -> ref_target r = [p] ->
  forall ob, h0 !! p = Some ob ->
  match ob with JS_GC_OBJ_TYPE_JS_OBJECT _ | JS_GC_OBJ_TYPE_ASYNC_FUNCTION _ => True | _ => objs rt !! p = Some ob end.
Proof.
  intros Hs Hr Ht ob E0. destruct (sw_pend _ _ _ _ _ Hs r Hr) as [_ Hin].
  destruct (sweep_obj _ _ _ _ _ p Hs (Hin p ltac:(rewrite Ht; set_solver))) as (ob0 & ob' & E0' & E & Hk).
  rewrite E0 in E0'. injection E0' as <-. destruct ob; try done; by rewrite E, Hk.
Qed.

Lemma function_same uu l pend rt U M : js_bytecode_function_finalizer h0 uu = Ret l -> sweep None U M (frees l ++ pend) rt ->
  js_bytecode_function_finalizer (objs rt) uu = Ret l.
Proof.
  destruct uu; try done. cbn [js_bytecode_function_finalizer]. destruct function_bytecode as [b|]; [|done].
  destruct var_refs as [vr|]; [|done]. unfold get_bytecode_of. destruct (h0 !! b) as [[|f| | | |]|] eqn:E0; try done. cbn [mbind outcome_bind].
  destruct (_ <? _)%nat eqn:El; [done|]. cbn [mbind outcome_bind]. intros [= <-] Hs.
  pose proof (read_same U M _ rt (R_value (JS_BYTECODE b)) b Hs) as Hb. rewrite (Hb ltac:(rewrite elem_of_app; left; apply elem_of_frees; set_solver) eq_refl _ E0).
  cbn [mbind outcome_bind]. by rewrite El.
Qed.

Lemma finalizer_same o o1 l pend rt U M : class_id o1 = class_id o -> u o1 = u o -> finalizer_steps h0 o = Ret l ->
  sweep None U M (frees l ++ pend) rt -> finalizer_steps (objs rt) o1 = Ret l.
Proof.
  intros Hc Hu. unfold finalizer_steps. rewrite Hc, Hu. destruct (class_id o); cbn [class_finalizer]; try done; apply function_same.
Qed.

(** *** The end of a release *)

(** The lists after [p] has been released with [D]; its memory is kept in
    [gc_zero_ref_count_list] when it still has references. *)
Definition collected (U M : list ptr) (p : ptr) (rt rt' : JSRuntime) : Prop := exists D M',
  sweep None (minus D (unlink p U)) M' [] rt' /\ (forall d, d ∈ D -> d ∈ unlink p U /\ d ∉ live /\ ~ js h0 d) /\
  gc_obj_list rt' = minus (p :: D) (gc_obj_list rt) /\ tmp_obj_list rt' = minus (p :: D) (tmp_obj_list rt) /\
  (M' = p :: M /\ gc_zero_ref_count_list rt' = minus (p :: D) (gc_zero_ref_count_list rt) ++ [p] \/
   M' = M /\ gc_zero_ref_count_list rt' = minus (p :: D) (gc_zero_ref_count_list rt)).

Lemma js_open p : js h0 p -> open_var h0 p = false.
Proof. unfold is_js_value, open_var. by destruct (h0 !! p) as [[]|]. Qed.

Lemma free_or_keep_ok U M p rt rt1 D : sweep None (minus D (unlink p U)) (p :: M) [] rt1 -> js h0 p ->
  (forall d, d ∈ D -> d ∈ unlink p U /\ d ∉ live /\ ~ js h0 d) ->
  gc_obj_list rt1 = minus D (gc_obj_list rt) -> gc_zero_ref_count_list rt1 = minus D (gc_zero_ref_count_list rt) ->
  tmp_obj_list rt1 = minus D (tmp_obj_list rt) ->
  exists rt', free_or_keep rt1 p = Ret rt' /\ collected U M p rt rt'.
Proof.
  intros Hs Hj HD G Z T. destruct (sw_hdr _ _ _ _ _ Hs p ltac:(set_solver)) as (m & Hm & _).
  unfold free_or_keep, get_hdr. cbn [hdrs list_del set_lists]. rewrite Hm. cbn [mbind outcome_bind gc_phase list_del set_lists ref_count].
  rewrite (sw_phase _ _ _ _ _ Hs). destruct (Z.eqb_spec (e p + inc own (minus D (unlink p U)) p + owed [] p) 0) as [Hz|Hz]; cbn [negb].
  - unfold js_free_rt. cbn [objs list_del set_lists].
    destruct (sweep_obj _ _ _ _ _ p Hs ltac:(set_solver)) as (ob0 & ob & _ & Hob & _). rewrite Hob. eexists. split; [done|].
    exists D, M. rewrite !minus_cons. split_and!; [|done|by cbn; rewrite G, unlink_minus|by cbn; rewrite T, unlink_minus|].
    + eapply sweep_end; [exact Hs|done..|]. intros o. cbn. rewrite !elem_of_app, !elem_of_unlink. tauto.
    + right. split; [done|]. cbn. by rewrite Z, unlink_minus.
  - eexists. split; [done|]. exists D, (p :: M). rewrite !minus_cons.
    split_and!; [|done|by cbn; rewrite G, unlink_minus|by cbn; rewrite T, unlink_minus|].
    + destruct Hs as [W1 W2 W3 W4 W5 W6 W7 W8 W9 W10 W11 W12]. split; try done. intros o. cbn.
      rewrite !elem_of_app, !elem_of_unlink, list_elem_of_singleton. intros Ho.
      destruct (decide (o = p)) as [->|Hne]; [by apply js_open|]. apply W12. rewrite !elem_of_app. tauto.
    + left. split; [done|]. cbn. by rewrite Z, unlink_minus.
Qed.

Lemma frames_closed_u o o' : u o' = u o -> frames_closed h0 (JS_GC_OBJ_TYPE_JS_OBJECT o) -> frames_closed h0 (JS_GC_OBJ_TYPE_JS_OBJECT o').
Proof.
  intros Hu Hf p Hp. specialize (Hf p Hp). cbn [unlink_frame] in *. injection Hf as Hf'. apply (f_equal u) in Hf'. cbn [u] in Hf'. rewrite Hu, Hf', <- Hu. by destruct o'.
Qed.
Lemma frames_closed_opaque b c s l w : frames_closed h0 (JS_GC_OBJ_TYPE_JS_OBJECT (mkObject b c s l U_opaque w)).
Proof. done. Qed.

Lemma set_object_lists rt p o : objs (set_object rt p o) !! p = Some (JS_GC_OBJ_TYPE_JS_OBJECT o) /\
  gc_obj_list (set_object rt p o) = gc_obj_list rt /\ gc_zero_ref_count_list (set_object rt p o) = gc_zero_ref_count_list rt /\
  tmp_obj_list (set_object rt p o) = tmp_obj_list rt.
Proof. split; [apply heap_insert_eq|done]. Qed.

Lemma object_steps_split o l : object_steps h0 o = Ret l -> exists ps sh l1 l2, l = l1 ++ F_free (R_shape ps) :: l2 /\
  get_shape_of h0 (shape o) = Ret (ps, sh) /\ free_properties (sh_prop sh) (prop o) = Ret l1 /\ finalizer_steps h0 o = Ret l2.
Proof.
  unfold object_steps. destruct (get_shape_of h0 (shape o)) as [[ps sh]|]; [|done]. cbn [mbind outcome_bind].
  destruct (free_properties _ _) as [l1|] eqn:E1; [|done]. destruct (finalizer_steps h0 o) as [l2|]; [|done]. intros [= <-].
  exists ps, sh, l1, l2. by split_and!.
Qed.

Lemma shape_same U M pend rt o ps sh : sweep None U M pend rt -> R_shape ps ∈ pend -> get_shape_of h0 (shape o) = Ret (ps, sh) ->
  get_shape_of (objs rt) (shape o) = Ret (ps, sh).
Proof.
  intros Hs Hr. unfold get_shape_of. destruct (shape o) as [q|]; [|done]. destruct (h0 !! q) as [[| |sh'| | |]|] eqn:E0; try done.
  intros [= -> ->]. by rewrite (read_same U M pend rt (R_shape ps) ps Hs Hr eq_refl _ E0).
Qed.

(** The properties, the shape and the finalizer of an object. *)
Lemma free_object_ok U M p rt o : sweep None U M [] rt -> p ∈ U -> p ∉ live -> h0 !! p = Some (JS_GC_OBJ_TYPE_JS_OBJECT o) ->
  exists rt', free_object (free_ref free_depth) rt p o = Ret rt' /\ collected U M p rt rt'.
Proof.
  intros Hs HpU Hpl E0. assert (Hj : js h0 p) by (unfold is_js_value; by rewrite E0).
  destruct (sp_steps Hsw p (ex_intro _ _ E0) Hpl) as (l & Hst & _). pose proof (sp_frames Hsw p _ E0 Hpl) as Hfr.
  destruct (sweep_start _ _ _ _ _ _ _ Hs HpU Hpl (or_introl eq_refl) Hst ltac:(done)) as (Hs1 & _ & Hok & Hrd).
  assert (Ho : objs rt !! p = Some (JS_GC_OBJ_TYPE_JS_OBJECT o)) by (destruct (sw_same _ _ _ _ _ Hs p HpU Hpl) as (ob & ? & ->); congruence).
  unfold steps in Hst. rewrite E0 in Hst. destruct (object_steps_split o l Hst) as (ps & sh & l1 & l2 & -> & Hsh & Hpr & Hfin).
  rewrite forallb_app in Hok. apply andb_true_iff in Hok as [Hok1 [_ Hok2]%andb_true_iff]. apply reads_tail in Hrd as Hrd2. cbn [reads_ok] in Hrd2.
  pose proof (reads_frees l1 (free_properties_frees _ _ _ Hpr)) as Hrd1. rewrite app_nil_r, frees_app in Hs1.
  unfold free_object. set (o1 := mkObject true (class_id o) (shape o) (prop o) (u o) (first_weak_ref o)). destruct (set_object_lists rt p o1) as (A1 & A2 & A3 & A4).
  apply (sweep_write _ _ _ _ p o1) in Hs1; [|set_solver|done|done|by exists o|exact (frames_closed_u o o1 eq_refl Hfr)]. set (rt1 := set_object rt p o1) in *.
  rewrite (shape_same _ _ _ _ o ps sh Hs1); [|set_solver|done]. cbn [mbind outcome_bind]. rewrite Hpr. cbn [mbind outcome_bind].
  destruct (run_steps_ok free_depth (free_ref_ok _) l1 _ _ _ rt1 Hok1 Hrd1 (rank_any (S free_depth) _ ltac:(unfold free_depth; lia)) Hs1) as (rt2 & E2 & Hf2).
  rewrite E2. cbn [mbind outcome_bind].
  edestruct (freed_bind _ _ _ (frees l2) _ _ (free_ref free_depth rt2 (R_shape ps)) Hf2) as (rt3 & E3 & [Hd3 (D & Hs3 & HD & G3 & Z3 & T3)]).
  { intros U' _ Hs'. apply free_ref_ok; [unfold free_depth; cbn; lia|done]. }
  rewrite E3. cbn [mbind outcome_bind]. assert (Ho3 : objs rt3 !! p = Some (JS_GC_OBJ_TYPE_JS_OBJECT o1)) by (rewrite Hd3 by set_solver; done).
  unfold get_object. rewrite Ho3. cbn [mbind outcome_bind]. set (o2 := mkObject true (class_id o1) None [] (u o1) (first_weak_ref o1)).
  destruct (set_object_lists rt3 p o2) as (B1 & B2 & B3 & B4).
  apply (sweep_write _ _ _ _ p o2) in Hs3; [|set_solver|done|done|by exists o1|exact (frames_closed_u o o2 eq_refl Hfr)]. set (rt4 := set_object rt3 p o2) in *.
  change (first_weak_ref o1) with (first_weak_ref o). rewrite (sp_weak Hsw p o E0 Hpl). cbn [mbind outcome_bind]. rewrite B1. cbn [mbind outcome_bind].
  rewrite <- (app_nil_r (frees l2)) in Hs3. rewrite (finalizer_same o o2 l2 [] rt4 _ _ eq_refl eq_refl Hfin Hs3). cbn [mbind outcome_bind].
  destruct (run_steps_ok free_depth (free_ref_ok _) l2 _ _ _ rt4 Hok2 Hrd2 (rank_any (S free_depth) _ ltac:(unfold free_depth; lia)) Hs3) as (rt5 & E5 & [Hd5 (D' & Hs5 & HD' & G5 & Z5 & T5)]).
  rewrite E5. cbn [mbind outcome_bind]. rewrite Hd5, B1 by set_solver. cbn [mbind outcome_bind].
  set (o3 := mkObject true JS_CLASS_FREED None [] U_opaque (first_weak_ref o2)). destruct (set_object_lists rt5 p o3) as (C1 & C2 & C3 & C4).
  apply (sweep_write _ _ _ _ p o3) in Hs5; [|set_solver|done|done|rewrite Hd5 by set_solver; by exists o2|apply frames_closed_opaque].
  apply (free_or_keep_ok U M p rt _ (D ++ D')); rewrite ?minus_app; try done; try congruence.
  intros d [Hd|Hd]%elem_of_app; [by apply HD|]. destruct (HD' d Hd) as [[_ Hx]%elem_of_minus ?]. done.
Qed.

(** [free_gc_object] of an object in a cycle. *)
Lemma free_gc_object_ok U M p rt : sweep None U M [] rt -> p ∈ U -> p ∉ live -> js h0 p ->
  exists rt', free_gc_object (free_ref free_depth) rt p = Ret rt' /\ collected U M p rt rt'.
Proof.
  intros Hs HpU Hpl Hj. destruct (sw_same _ _ _ _ _ Hs p HpU Hpl) as (ob & E0 & E). unfold free_gc_object. rewrite E.
  unfold is_js_value in Hj. rewrite E0 in Hj. destruct ob as [o|b| | | |]; try done; [by apply free_object_ok|].
  assert (Hj' : js h0 p) by (unfold is_js_value; by rewrite E0).
  destruct (sp_steps Hsw p (ex_intro _ _ E0) Hpl) as (l & Hst & _).
  destruct (sweep_start _ _ _ _ _ _ _ Hs HpU Hpl (or_introl eq_refl) Hst ltac:(done)) as (Hs1 & _ & Hok & Hrd).
  unfold steps in Hst. rewrite E0 in Hst. injection Hst as <-. unfold free_function_bytecode.
  destruct (run_steps_ok free_depth (free_ref_ok _) _ _ _ _ rt Hok Hrd (rank_any (S free_depth) _ ltac:(unfold free_depth; lia)) Hs1) as (rt1 & -> & [_ (D & Hs2 & HD & G & Z & T)]).
  cbn [mbind outcome_bind]. by apply (free_or_keep_ok U M p rt rt1 D).
Qed.

(** ** The loop *)

(** [tmp_obj_list] has the garbage that is to be released, of all kinds;
    [gc_zero_ref_count_list] what is released but for its memory, and the
    garbage that is released with its last reference. *)
Record sweep_loop (G U M : list ptr) (rt : JSRuntime) : Prop := {
  sl_sweep : sweep None U M [] rt;
  sl_gc : gc_obj_list rt = G;
  sl_live : forall o, o ∈ G -> o ∈ live;
  sl_tmp : forall o, o ∈ tmp_obj_list rt -> o ∈ U /\ o ∉ live;
  sl_rest : forall o, o ∈ U -> o ∉ live -> js h0 o -> o ∈ tmp_obj_list rt;
  sl_zero : forall o, o ∈ gc_zero_ref_count_list rt -> o ∈ M \/ o ∈ U /\ o ∉ live /\ ~ js h0 o;
  sl_done : forall o, o ∈ M -> o ∈ gc_zero_ref_count_list rt /\ js h0 o;
  sl_nodup : NoDup (gc_zero_ref_count_list rt);
}.

Lemma minus_length p D l : p ∈ l -> (length (minus (p :: D) l) < length l)%nat.
Proof. intros Hp. unfold minus. apply length_filter_lt with p; [done|set_solver]. Qed.

Lemma sweep_done_garbage U M pend rt o : sweep None U M pend rt -> o ∈ M -> o ∉ U /\ o ∉ live.
Proof.
  intros Hs Ho. pose proof (sw_nodup _ _ _ _ _ Hs) as (_ & Hd & _)%NoDup_app.
  split; [intros Hu; by apply (Hd o)|]. intros Hl. destruct (sw_live _ _ _ _ _ Hs o Hl) as [Hu _]. by apply (Hd o).
Qed.

Lemma loop_object G U M rt p : sweep_loop G U M rt -> p ∈ tmp_obj_list rt -> js h0 p ->
  exists rt' U' M', free_gc_object (free_ref free_depth) rt p = Ret rt' /\ sweep_loop G U' M' rt' /\
    (length (tmp_obj_list rt') < length (tmp_obj_list rt))%nat.
Proof.
  intros [L1 L2 L3 L4 L5 L6 L7 L8] Hp Hj. destruct (L4 p Hp) as [HpU Hpl].
  destruct (free_gc_object_ok U M p rt L1 HpU Hpl Hj) as (rt' & E & D & M' & Hs & HD & G' & T' & Z').
  assert (HDl : forall o, o ∈ live -> o ∉ p :: D).
  { intros o Ho [->|Hd]%elem_of_cons; [done|]. destruct (HD o Hd) as (_ & ? & _). done. }
  assert (HDM : forall o, o ∈ M -> o ∉ p :: D).
  { intros o Ho. destruct (sweep_done_garbage _ _ _ _ _ L1 Ho) as [Hu _]. intros [->|Hd]%elem_of_cons; [done|].
    destruct (HD o Hd) as ([_ ?]%elem_of_unlink & _). done. }
  assert (HUD : forall o, o ∈ U -> o ∉ p :: D -> o ∈ minus D (unlink p U)).
  { intros o Ho [Hne Hd]%not_elem_of_cons. apply elem_of_minus. split; [done|]. by apply elem_of_unlink. }
  assert (HM : forall o, o ∈ M -> o ∈ M') by (intros o Ho; destruct Z' as [[-> _]|[-> _]]; set_solver).
  exists rt', (minus D (unlink p U)), M'. split; [done|]. split; [|rewrite T'; by apply minus_length]. split; try done.
  - rewrite G', L2. apply minus_notin. intros o Ho. by apply HDl, L3.
  - rewrite T'. intros o [Hn Ho]%elem_of_minus. destruct (L4 o Ho). split; [by apply HUD|done].
  - rewrite T'. intros o [HoD [Hne HoU]%elem_of_unlink]%elem_of_minus Hol Hjo. apply elem_of_minus. split; [set_solver|by apply L5].
  - assert (Hold : forall o, o ∈ minus (p :: D) (gc_zero_ref_count_list rt) -> o ∈ M' \/ o ∈ minus D (unlink p U) /\ o ∉ live /\ ~ js h0 o).
    { intros o [Hn Ho]%elem_of_minus. destruct (L6 o Ho) as [?|(? & ? & ?)]; [left; by apply HM|]. right. split_and!; [by apply HUD|done..]. }
    intros o. destruct Z' as [[-> ->]|[-> ->]]; [|apply Hold]. intros [Ho| ->%list_elem_of_singleton]%elem_of_app; [by apply Hold|set_solver].
  - assert (Hold : forall o, o ∈ M -> o ∈ minus (p :: D) (gc_zero_ref_count_list rt) /\ js h0 o).
    { intros o Ho. destruct (L7 o Ho). split; [|done]. apply elem_of_minus. split; [by apply HDM|done]. }
    intros o. destruct Z' as [[-> ->]|[-> ->]]; [|apply Hold]. intros [->|Ho]%elem_of_cons; [set_solver|]. destruct (Hold o Ho). set_solver.
  - destruct Z' as [[_ ->]|[_ ->]]; [|by apply minus_nodup]. apply NoDup_app. split_and!; [by apply minus_nodup| |apply NoDup_singleton].
    intros o [Ho _]%elem_of_minus ->%list_elem_of_singleton. set_solver.
Qed.

Lemma loop_other G U M rt p : sweep_loop G U M rt -> p ∈ tmp_obj_list rt -> ~ js h0 p ->
  sweep_loop G U M (add_tail_zero (list_del rt p) p) /\
  (length (tmp_obj_list (add_tail_zero (list_del rt p) p)) < length (tmp_obj_list rt))%nat.
Proof.
  intros [L1 L2 L3 L4 L5 L6 L7 L8] Hp Hj. destruct (L4 p Hp) as [HpU Hpl]. split; cbn [add_tail_zero list_del set_lists tmp_obj_list].
  - split; cbn [add_tail_zero list_del set_lists tmp_obj_list gc_obj_list gc_zero_ref_count_list]; try done.
    + destruct L1 as [W1 W2 W3 W4 W5 W6 W7 W8 W9 W10 W11 W12]. split; try done. cbn [add_tail_zero list_del set_lists tmp_obj_list gc_obj_list gc_zero_ref_count_list].
      intros o. rewrite !elem_of_app, !elem_of_unlink, list_elem_of_singleton. intros Ho. apply W12. rewrite !elem_of_app.
      destruct Ho as [?|[[?| ->]|?]]; tauto.
    + rewrite L2. apply unlink_notin. intros Hg. by apply Hpl, L3.
    + intros o [_ Ho]%elem_of_unlink. by apply L4.
    + intros o Hu Hl Hjo. apply elem_of_unlink. split; [by intros ->|by apply L5].
    + intros o [[_ Ho]%elem_of_unlink| ->%list_elem_of_singleton]%elem_of_app; [by apply L6|by right].
    + intros o Ho. destruct (L7 o Ho) as [Hz Hjo]. split; [|done]. apply elem_of_app. left. apply elem_of_unlink. split; [by intros ->|done].
    + apply NoDup_app. split_and!; [by apply unlink_nodup| |apply NoDup_singleton].
      intros o [Hne _]%elem_of_unlink. by rewrite list_elem_of_singleton.
  - rewrite <- (minus_nil (unlink p _)), <- minus_cons. by apply minus_length.
Qed.

Lemma gc_free_tmp_ok G U M rt : sweep_loop G U M rt ->
  exists rt' U' M', gc_free_tmp rt = Ret rt' /\ sweep_loop G U' M' rt' /\ tmp_obj_list rt' = [].
Proof.
  intros Hl. enough (Hw : wp (gc_free_tmp rt) (fun rt' => exists U' M', sweep_loop G U' M' rt' /\ tmp_obj_list rt' = [])).
  { destruct (gc_free_tmp rt) as [rt'|]; [|done]. destruct Hw as (U' & M' & ?). by exists rt', U', M'. }
  unfold gc_free_tmp.
  apply (wp_loop (fun rt => exists U M, sweep_loop G U M rt) (fun rt => Z.of_nat (length (tmp_obj_list rt)))); [|by exists U, M|lia].
  clear U M rt Hl. intros rt (U & M & Hl). destruct (tmp_obj_list rt) as [|p l] eqn:Et; [by exists U, M|].
  assert (Hp : p ∈ tmp_obj_list rt) by (rewrite Et; set_solver). destruct (sl_tmp _ _ _ _ Hl p Hp) as [HpU Hpl].
  destruct (sw_same _ _ _ _ _ (sl_sweep _ _ _ _ Hl) p HpU Hpl) as (ob & E0 & E). rewrite E.
  destruct (decide (js h0 p)) as [Hj|Hj].
  - destruct (loop_object G U M rt p Hl Hp Hj) as (rt' & U' & M' & Ef & Hl' & Hlt). unfold is_js_value in Hj. rewrite E0 in Hj.
    destruct ob; try done; rewrite Ef; cbn [mbind outcome_bind wp]; (split; [by exists U', M'|]); rewrite Et in Hlt; lia.
  - destruct (loop_other G U M rt p Hl Hp Hj) as [Hl' Hlt]. unfold is_js_value in Hj. rewrite E0 in Hj.
    destruct ob; try (by destruct Hj); cbn [wp]; (split; [by exists U, M|]); rewrite Et in Hlt; lia.
Qed.

(** *** Nothing is left behind *)

Definition kind_rank (p : ptr) : nat := match h0 !! p with Some (JS_GC_OBJ_TYPE_JS_CONTEXT _) => 3 | _ => 2 end.

Lemma kind_ref p ob : h0 !! p = Some ob -> ~ js h0 p -> exists r, ref_ok h0 r = true /\ ref_target r = [p] /\ rank r = kind_rank p.
Proof.
  intros E Hj. unfold is_js_value in Hj. unfold kind_rank. rewrite E in *. destruct ob; try (by destruct Hj).
  - exists (R_shape p). cbn. by rewrite E.
  - exists (R_var_ref p). cbn. by rewrite E.
  - exists (R_async p). cbn. by rewrite E.
  - exists (R_context p). cbn. by rewrite E.
Qed.
Lemma ref_kind r p : ref_ok h0 r = true -> p ∈ ref_target r -> ~ js h0 p -> rank r = kind_rank p.
Proof.
  unfold is_js_value, kind_rank. intros Hok Hp Hj. destruct r as [[q|q|]|q|q|q|q]; cbn in Hok, Hp;
    try (by apply not_elem_of_nil in Hp); apply list_elem_of_singleton in Hp as ->; destruct (h0 !! q) as [[]|]; try done; by destruct Hj.
Qed.

Lemma referrer G U M rt o : sweep_loop G U M rt -> tmp_obj_list rt = [] -> o ∈ U -> o ∉ live ->
  exists p, p ∈ U /\ p ∉ live /\ (kind_rank o < kind_rank p)%nat.
Proof.
  intros Hl Ht Ho Hol. pose proof (sl_sweep _ _ _ _ Hl) as Hs.
  assert (Hnj : forall q, q ∈ U -> q ∉ live -> ~ js h0 q).
  { intros q Hq Hql Hj. pose proof (sl_rest _ _ _ _ Hl q Hq Hql Hj) as Hin. rewrite Ht in Hin. by apply not_elem_of_nil in Hin. }
  destruct (sw_same _ _ _ _ _ Hs o Ho Hol) as (ob & E0 & _).
  pose proof (sw_eager _ _ _ _ _ Hs o Ho (Hnj o Ho Hol) ltac:(done)) as Hpos. rewrite (sp_garbage Hsw o ob E0 Hol) in Hpos. unfold owed in Hpos.
  assert (0 < inc own U o) as Hin by (cbn in Hpos; lia). apply occ_elem, list_elem_of_bind in Hin as (p & Hop & Hp).
  assert (p ∉ live) as Hpl by (intros Hpl; by apply Hol, (sp_closed Hsw p)). exists p. split_and!; [done..|].
  destruct (sw_same _ _ _ _ _ Hs p Hp Hpl) as (ob' & E0' & _).
  destruct (sp_steps Hsw p (ex_intro _ _ E0') Hpl) as (l & Hst & Hown & Hok & _).
  rewrite Hown in Hop. apply list_elem_of_bind in Hop as (s & Hos & Hsl). destruct s as [r| | |]; try by apply not_elem_of_nil in Hos.
  rewrite forallb_forall in Hok. specialize (Hok (F_free r) (proj1 (list_elem_of_In _ _) Hsl)).
  destruct (kind_ref p ob' E0' (Hnj p Hp Hpl)) as (r0 & Hok0 & Ht0 & <-).
  rewrite <- (ref_kind r o Hok Hos (Hnj o Ho Hol)). by apply (eager_rank r0 p l Hok0 Ht0 (Hnj p Hp Hpl) Hst).
Qed.

Lemma nothing_left G U M rt o : sweep_loop G U M rt -> tmp_obj_list rt = [] -> o ∈ U -> o ∈ live.
Proof.
  intros Hl Ht Ho. destruct (decide (o ∈ live)) as [?|Hol]; [done|].
  destruct (referrer G U M rt o Hl Ht Ho Hol) as (p & Hp & Hpl & Hlt). destruct (referrer G U M rt p Hl Ht Hp Hpl) as (q & _ & _ & Hlt').
  exfalso. revert Hlt Hlt'. unfold kind_rank. repeat case_match; lia.
Qed.

(** *** The memory that was kept *)

Lemma free_kept l : forall rt, NoDup l -> (forall o, o ∈ l -> is_js_value (objs rt) o = true) ->
  exists rt', foldM gc_free_kept rt l = Ret rt' /\
    (forall o, objs rt' !! o = if decide (o ∈ l) then None else objs rt !! o) /\
    (forall o, o ∉ l -> hdrs rt' !! o = hdrs rt !! o) /\
    gc_obj_list rt' = gc_obj_list rt /\ tmp_obj_list rt' = tmp_obj_list rt /\ gc_phase rt' = gc_phase rt.
Proof.
  induction l as [|p l IH]; intros rt Hn Hj; cbn [foldM].
  - by exists rt.
  - apply NoDup_cons in Hn as [Hp Hn]. pose proof (Hj p ltac:(set_solver)) as Hjp. unfold gc_free_kept at 1. rewrite Hjp. cbn [c_assert mbind outcome_bind].
    unfold js_free_rt. unfold is_js_value in Hjp. destruct (objs rt !! p) as [ob|] eqn:E; [|done].
    set (rt1 := set_hdrs _ _). destruct (IH rt1) as (rt' & E' & Ho & Hh & Hr); [done| |].
    { intros o Hol. unfold is_js_value. cbn [objs rt1 set_hdrs set_objs]. rewrite heap_delete_ne by (by intros ->). apply Hj. set_solver. }
    exists rt'. split_and!; [done| | |apply Hr..].
    + intros o. rewrite Ho. cbn [objs rt1 set_hdrs set_objs]. destruct (decide (o = p)) as [->|Hne].
      * rewrite (decide_False (P := p ∈ l)), decide_True by set_solver. apply lookup_delete_eq.
      * rewrite heap_delete_ne by done. repeat case_decide; done || set_solver.
    + intros o [Hne Hol]%not_elem_of_cons. rewrite Hh by done. cbn [hdrs rt1 set_hdrs set_objs]. by apply lookup_delete_ne.
Qed.

(** The objects that stay, as they were, and the others gone. *)
Record only_live (G : list ptr) (rt' : JSRuntime) : Prop := {
  ol_gc : gc_obj_list rt' = G;
  ol_zero : gc_zero_ref_count_list rt' = [];
  ol_tmp : tmp_obj_list rt' = [];
  ol_phase : gc_phase rt' = JS_GC_PHASE_NONE;
  ol_live : forall o, o ∈ live -> exists ob0 ob, h0 !! o = Some ob0 /\ objs rt' !! o = Some ob /\ same_but_frames ob0 ob;
  ol_gone : forall o, o ∉ live -> objs rt' !! o = None;
  ol_hdr : forall o, o ∈ live -> exists m, hdrs rt' !! o = Some (mkHeader (e o + inc own live o) m) /\ (open_var h0 o = false -> m = 0);
}.

Lemma gc_free_cycles_ok G U M rt : sweep_loop G U M (set_phase rt JS_GC_PHASE_REMOVE_CYCLES) ->
  exists rt', gc_free_cycles rt = Ret rt' /\ only_live G rt'.
Proof.
  intros Hl. unfold gc_free_cycles. destruct (gc_free_tmp_ok G U M _ Hl) as (rt1 & U' & M' & -> & Hl' & Ht). cbn [mbind outcome_bind].
  pose proof (sl_sweep _ _ _ _ Hl') as Hs. pose proof (fun o => nothing_left G U' M' rt1 o Hl' Ht) as Hnl.
  assert (Hz : forall o, o ∈ gc_zero_ref_count_list rt1 <-> o ∈ M').
  { intros o. split; [|apply (sl_done _ _ _ _ Hl')]. intros [?|(Hu & Hol & _)]%(sl_zero _ _ _ _ Hl'); [done|]. by destruct Hol; apply Hnl. }
  destruct (free_kept (gc_zero_ref_count_list rt1) (set_phase rt1 JS_GC_PHASE_NONE)) as (rt2 & E2 & Ho & Hh & HG & HT & HP).
  { apply (sl_nodup _ _ _ _ Hl'). }
  { intros o Hol. destruct (sl_done _ _ _ _ Hl' o) as [_ Hj]; [by apply Hz|]. cbn [objs set_phase].
    rewrite (sweep_js _ _ _ _ _ o Hs); [done|]. apply elem_of_app. right. by apply Hz. }
  cbv zeta. change (gc_zero_ref_count_list (set_phase rt1 JS_GC_PHASE_NONE)) with (gc_zero_ref_count_list rt1).
  rewrite E2. cbn [mbind outcome_bind]. eexists. split; [done|].
  assert (Hlz : forall o, o ∈ live -> o ∉ gc_zero_ref_count_list rt1).
  { intros o Hol Hzo%Hz. by destruct (sweep_done_garbage _ _ _ _ _ Hs Hzo). }
  split; cbn [gc_obj_list gc_zero_ref_count_list tmp_obj_list gc_phase objs hdrs set_lists]; try done.
  - rewrite HG. apply (sl_gc _ _ _ _ Hl').
  - by rewrite HT.
  - intros o Hol. rewrite Ho, decide_False by (by apply Hlz). apply (sw_live _ _ _ _ _ Hs o Hol).
  - intros o Hol. rewrite Ho. case_decide as Hd; [done|]. cbn [objs set_phase]. destruct (objs rt1 !! o) as [ob|] eqn:E; [|done].
    apply (sw_dom _ _ _ _ _ Hs) in E as [Hu|Hm]%elem_of_app; [by destruct Hol; apply Hnl|]. by destruct Hd; apply Hz.
  - intros o Hol. rewrite Hh by (by apply Hlz). cbn [hdrs set_phase]. destruct (sw_live _ _ _ _ _ Hs o Hol) as [Hu _].
    destruct (sw_hdr _ _ _ _ _ Hs o ltac:(set_solver)) as (m & Hm & Hz0). exists m. split; [|by apply Hz0]. rewrite Hm. do 2 f_equal.
    assert (inc own U' o = inc own live o) as ->; [|unfold owed; cbn; lia]. apply inc_perm; [|done].
    apply NoDup_Permutation; [|apply (sp_nodup Hsw)|].
    + by pose proof (sw_nodup _ _ _ _ _ Hs) as (? & _)%NoDup_app.
    + intros q. split; [apply Hnl|]. intros Hq. by destruct (sw_live _ _ _ _ _ Hs q Hq).
Qed.
End Sweep.
