(* ===== verification/GcCollect.v ===== *)
(** * The cycle collector

    [JS_RunGC] on a heap whose counts cover its references: it returns, the
    objects that cannot be reached from a reference outside the heap are gone,
    and the others are as they were, with counts that cover their references
    again. *)

From S2P Require Import Prelude GcObjects GcRuntime GcTrial GcFree GcSteps GcSweep.

(** ** The steps of a release are harmless *)

(** Only references are dropped, and only frames that have nothing to close
    are closed. *)
Definition calm_step (s : fin_step) : Prop :=
  match s with F_free _ => True | F_live _ => False | F_close sf => var_ref_list sf = [] | F_delete_weak _ _ => False end.
Definition calm (l : list fin_step) : Prop := forall s, s ∈ l -> calm_step s.

Lemma calm_nil : calm [].
Proof. by intros s ?%not_elem_of_nil. Qed.
Lemma calm_app l1 l2 : calm l1 -> calm l2 -> calm (l1 ++ l2).
Proof. intros H1 H2 s [Hs|Hs]%elem_of_app; [by apply H1|by apply H2]. Qed.
Lemma calm_cons r l : calm l -> calm (F_free r :: l).
Proof. intros Hl s [->|Hs]%elem_of_cons; [done|by apply Hl]. Qed.
Lemma calm_bind {A} (f : A -> list fin_step) l : (forall x, calm (f x)) -> calm (l ≫= f).
Proof. intros Hf s (x & Hs & _)%list_elem_of_bind. by apply (Hf x). Qed.
Create HintDb calm.
#[local] Hint Resolve calm_nil calm_app calm_cons calm_bind : calm.

Lemma calm_value v : calm (free_value v).
Proof. apply calm_cons, calm_nil. Qed.
#[local] Hint Resolve calm_value : calm.
Lemma calm_values l : calm (free_values l).
Proof. unfold free_values. auto with calm. Qed.
Lemma calm_pair v : calm (free_pair v).
Proof. unfold free_pair. auto with calm. Qed.
Lemma calm_obj_opt p : calm (free_obj_opt p).
Proof. destruct p; cbn [free_obj_opt]; auto with calm. Qed.
Lemma calm_var_opt p : calm (free_var_ref_opt p).
Proof. destruct p; cbn [free_var_ref_opt]; auto with calm. Qed.
Lemma calm_context_opt p : calm (free_context_opt p).
Proof. destruct p; cbn [free_context_opt]; auto with calm. Qed.
Lemma calm_opt_value d : calm (free_opt_value d).
Proof. destruct d; cbn [free_opt_value]; auto with calm. Qed.
#[local] Hint Resolve calm_values calm_pair calm_obj_opt calm_var_opt calm_context_opt calm_opt_value : calm.
Lemma calm_opt_pair d : calm (free_opt_pair d).
Proof. destruct d; cbn [free_opt_pair]; auto with calm. Qed.
Lemma calm_reaction rd : calm (promise_reaction_data_free rd).
Proof. unfold promise_reaction_data_free. auto with calm. Qed.
Lemma calm_request rq : calm (free_request rq).
Proof. unfold free_request. auto with calm. Qed.
Lemma calm_module m : calm (js_free_module_def m).
Proof. unfold js_free_module_def. auto 8 with calm. Qed.
#[local] Hint Resolve calm_opt_pair calm_reaction calm_request calm_module : calm.

Lemma calm_context c : calm (context_steps c).
Proof. unfold context_steps. repeat (apply calm_app; [auto with calm|]). destruct (array_shape c); auto with calm. Qed.

Lemma calm_state s l : state_wf s = true -> async_func_free s = Ret l -> calm l.
Proof.
  unfold state_wf, async_func_free. intros [Hv _]%andb_true_iff E.
  destruct (match arg_buf (frame s) with Some _ => _ | None => _ end) as [l1|] eqn:E1; [|done]. injection E as <-.
  assert (calm l1).
  { destruct (arg_buf (frame s)) as [buf|]; [|by injection E1 as <-; auto with calm]. destruct (cur_sp (frame s)) as [sp|]; [|done].
    destruct (rd_range buf 0 sp); [|done]. injection E1 as <-. auto with calm. }
  apply (calm_app [_]); [|auto with calm]. intros x ->%list_elem_of_singleton. cbn. by destruct (var_ref_list (frame s)).
Qed.

(** A finalizer reads the mark of an object that it then releases. *)
Definition tame (l : list fin_step) : Prop := calm l \/ exists p, l = F_live p :: free_value (JS_OBJ p).

Lemma tame_function h uu l : js_bytecode_function_finalizer h uu = Ret l -> calm l.
Proof.
  destruct uu; try done. cbn [js_bytecode_function_finalizer]. destruct function_bytecode as [b|]; [|intros [= <-]; auto with calm].
  destruct var_refs as [vr|]; [|intros [= <-]; auto with calm]. destruct (get_bytecode_of h b); [|done]. cbn [mbind outcome_bind].
  destruct (_ <? _)%nat; [done|]. intros [= <-]. auto 7 with calm.
Qed.
Lemma tame_async_generator uu l : union_wf uu = true -> js_async_generator_finalizer uu = Ret l -> calm l.
Proof.
  destruct uu; try done. destruct d as [[[q st] s]|]; [|intros _ [= <-]; auto with calm]. cbn [union_wf js_async_generator_finalizer].
  destruct (has_frame st); cbn [negb orb]; [|intros _ [= <-]; auto with calm].
  intros Hw E. destruct (async_func_free s) as [l1|] eqn:E1; [|done]. injection E as <-. pose proof (calm_state s l1 Hw E1). auto with calm.
Qed.
Lemma tame_generator uu l : union_wf uu = true -> js_generator_finalizer uu = Ret l -> calm l.
Proof.
  destruct uu; try done. destruct d as [[st s]|]; [|intros _ [= <-]; auto with calm].
  destruct st; cbn [union_wf js_generator_finalizer]; intros Hw E; try (by apply (calm_state s)). injection E as <-. auto with calm.
Qed.

Lemma tame_map uu l : union_wf uu = true -> js_map_finalizer uu = Ret l -> calm l.
Proof.
  destruct uu; try done. destruct d as [[w records]|]; [|intros _ [= <-]; auto with calm].
  cbn [union_wf js_map_finalizer]. intros Hw [= <-]. destruct w; [destruct records; [apply calm_nil|done]|].
  apply calm_bind. intros mr. destruct (mr_empty mr); auto with calm.
Qed.

Lemma tame_finalizer h o l : union_wf (u o) = true -> finalizer_steps h o = Ret l -> tame l.
Proof.
  unfold finalizer_steps. intros Hw.
  destruct (class_id o); cbn [class_finalizer]; intros E;
    try (left; exact (tame_function _ _ _ E)); try (left; exact (tame_generator _ _ Hw E)); try (left; exact (tame_async_generator _ _ Hw E)); try (left; exact (tame_map _ _ Hw E));
    try (injection E as <-; left; auto with calm; fail); destruct (u o); try discriminate E; cbn in E; repeat case_match; try discriminate E;
    injection E as <-; first [left; auto 8 with calm; fail | right; eexists; reflexivity].
Qed.

Lemma step_ok_calm h l : calm l -> (forall r, F_free r ∈ l -> ref_ok h r = true) -> forallb (step_ok h) l = true.
Proof.
  intros Hl Hr. apply forallb_forall. intros s Hs%list_elem_of_In. specialize (Hl s Hs). destruct s as [r| |sf|]; cbn in *; [by apply Hr|done|by rewrite Hl|done].
Qed.
Lemma reads_calm l1 l2 : calm l1 -> reads_ok (l1 ++ l2) = reads_ok l2.
Proof.
  induction l1 as [|s l1 IH]; intros Hl; [done|]. pose proof (Hl s ltac:(set_solver)) as Hs. cbn [app].
  assert (calm l1) by (intros x Hx; apply Hl; set_solver). destruct s; try done; cbn [reads_ok]; by apply IH.
Qed.
Lemma reads_calm_nil l : calm l -> reads_ok l = true.
Proof. intros Hl. rewrite <- (app_nil_r l). by rewrite reads_calm. Qed.

Lemma step_ok_tame h l : tame l -> (forall r, F_free r ∈ l -> ref_ok h r = true) -> forallb (step_ok h) l = true /\ reads_ok l = true.
Proof.
  intros [Hl|[p ->]] Hr; [split; [by apply step_ok_calm|by apply reads_calm_nil]|].
  pose proof (Hr (R_value (JS_OBJ p)) ltac:(set_solver)) as Hok. cbn [ref_ok] in Hok. cbn. rewrite Pos.eqb_refl. split; [|done].
  destruct (h !! p) as [[]|]; done.
Qed.

(** What [gc_free_cycles] needs of the steps of a garbage object. *)
Lemma steps_safe h p l : object_wf h p = true -> steps h p = Ret l -> (forall r, F_free r ∈ l -> ref_ok h r = true) ->
  forallb (step_ok h) l = true /\ reads_ok l = true.
Proof.
  unfold object_wf, steps. destruct (h !! p) as [[ob|b|sh|v|a|c]|]; [..|done].
  - intros [[_ Hw]%andb_true_iff _]%andb_true_iff E Hr. unfold object_steps in E. destruct (get_shape_of h (shape ob)) as [[ps sh]|]; [|done]. cbn [mbind outcome_bind] in E.
    destruct (free_properties _ _) as [l1|] eqn:E1; [|done]. cbn [mbind outcome_bind] in E.
    destruct (finalizer_steps h ob) as [l2|] eqn:E2; [|done]. injection E as <-.
    assert (Hc : calm l1) by (intros s Hs; by destruct (free_properties_frees _ _ _ E1 s Hs) as [r ->]).
    destruct (step_ok_tame h l2) as [H1 H2]; [by apply (tame_finalizer h ob)|intros r Hx; apply Hr; set_solver|].
    rewrite forallb_app, reads_calm by done. cbn [forallb step_ok reads_ok]. rewrite H1, H2, step_ok_calm by (done || intros r Hx; apply Hr; set_solver).
    split; [|done]. rewrite andb_true_r. apply Hr. set_solver.
  - intros _ [= <-] Hr. apply step_ok_tame; [left; unfold bytecode_steps; auto with calm|done].
  - intros _ [= <-] Hr. apply step_ok_tame; [left; auto with calm|done].
  - intros _ [= <-] Hr. apply step_ok_tame; [left; destruct (is_detached v); auto with calm|done].
  - unfold async_steps. intros Hw E Hr. apply step_ok_tame; [left|done]. destruct (is_active a); cbn [negb orb] in Hw.
    + destruct (async_func_free (func_state a)) as [l1|] eqn:E1; [|done]. injection E as <-. pose proof (calm_state _ _ Hw E1). auto with calm.
    + injection E as <-. auto with calm.
  - intros _ [= <-] Hr. apply step_ok_tame; [left; apply calm_context|done].
Qed.

(** ** The heap a collection starts from *)

(** The references that go with [p]. *)
Definition given_back (h : heap) (p : ptr) : list ptr := match steps h p with Ret l => targets l | Fault _ => [] end.

(** The collector's lists and counts are in order, everything in memory counts
    and is listed, but for the variables on the stacks; and what is not
    reachable is well formed, refers to objects of the right kinds, shares no
    variable of its frame with a closure and is no key and no map of weak references. *)
Record collectable (rt : JSRuntime) : Prop := {
  cl_ready : gc_ready rt;
  cl_dom : forall o ob, objs rt !! o = Some ob -> o ∈ gc_obj_list rt \/ open_var (objs rt) o = true;
  cl_used : forall o ob, objs rt !! o = Some ob -> 0 < cnt rt o;
  cl_vars : forall o, open_var (objs rt) o = true -> inc (given_back (objs rt)) (gc_obj_list rt) o <= cnt rt o;
  cl_wf : forall p, p ∈ gc_obj_list rt -> ~ reachable (objs rt) (external rt) p -> object_wf (objs rt) p = true;
  cl_refs : forall p l r, p ∈ gc_obj_list rt -> ~ reachable (objs rt) (external rt) p -> steps (objs rt) p = Ret l ->
    F_free r ∈ l -> ref_ok (objs rt) r = true;
  cl_frames : forall p ob, p ∈ gc_obj_list rt -> ~ reachable (objs rt) (external rt) p -> objs rt !! p = Some ob ->
    frames_closed (objs rt) ob;
}.

(** What a collection leaves. *)
Record gc_result (rt : JSRuntime) (garbage : list ptr) (rt' : JSRuntime) : Prop := {
  gr_split : gc_obj_list rt' ++ garbage ≡ₚ gc_obj_list rt;
  gr_live : forall p, p ∈ gc_obj_list rt' <-> reachable (objs rt) (external rt) p;
  gr_kept : forall p, p ∈ gc_obj_list rt' -> exists ob ob', objs rt !! p = Some ob /\ objs rt' !! p = Some ob' /\ same_but_frames ob ob';
  gr_freed : forall p, p ∈ garbage -> objs rt' !! p = None;
  gr_count : forall p, p ∈ gc_obj_list rt' ->
    hdrs rt' !! p = Some (mkHeader (cnt rt p - inc (given_back (objs rt)) garbage p) 0);
  gr_vars : forall o, open_var (objs rt) o = true ->
    let c := cnt rt o - inc (given_back (objs rt)) garbage o in
    if 0 <? c then objs rt' !! o = objs rt !! o /\ cnt rt' o = c else objs rt' !! o = None;
  gr_zero : gc_zero_ref_count_list rt' = [];
  gr_tmp : tmp_obj_list rt' = [];
  gr_phase : gc_phase rt' = JS_GC_PHASE_NONE;
}.

(** ** From trial deletion to the sweep *)

Section Run.
Context (rt0 rt1 : JSRuntime) (Hc : collectable rt0) (Hsep : gc_separated rt0 rt1).
Notation h := (objs rt0).
Notation all := (gc_obj_list rt0).
Notation G := (gc_obj_list rt1).
Notation T := (tmp_obj_list rt1).

Definition opens : list ptr := filter (fun o => open_var h o = true) (map_to_list h).*1.
Definition own (p : ptr) : list ptr := if decide (p ∈ G) then kids h p else given_back h p.
Definition U0 : list ptr := G ++ T ++ opens.
(** The references from elsewhere. *)
Definition base (o : ptr) : Z := Z.max 0 (cnt rt0 o - inc own U0 o).
Definition lv : list ptr := G ++ filter (fun o => 0 < base o) opens.

Lemma listed_iff p : p ∈ all <-> p ∈ G \/ p ∈ T.
Proof. by rewrite <- (sp_split _ _ Hsep), elem_of_app. Qed.

Lemma listed_object p : p ∈ all -> exists ob, h !! p = Some ob.
Proof. intros Hp. pose proof (rd_kids _ (cl_ready _ Hc) p Hp) as E. unfold children in E. destruct (h !! p); [by eexists|done]. Qed.

Lemma listed_not_open p : p ∈ all -> open_var h p = false.
Proof.
  intros Hp. pose proof (rd_kids _ (cl_ready _ Hc) p Hp) as E. unfold children in E. unfold open_var.
  destruct (h !! p) as [[| | |v| |]|]; try done. by destruct (is_detached v).
Qed.

Lemma elem_of_opens o : o ∈ opens <-> open_var h o = true.
Proof.
  unfold opens. rewrite list_elem_of_filter, list_elem_of_fmap. split; [by intros [? _]|]. intros Ho. split; [done|].
  unfold open_var in Ho. destruct (h !! o) as [ob|] eqn:E; [|done]. exists (o, ob). split; [done|]. by apply elem_of_map_to_list.
Qed.

Lemma opens_nodup : NoDup opens.
Proof. apply NoDup_filter, NoDup_fst_map_to_list. Qed.

Lemma GT_nodup : NoDup (G ++ T).
Proof. rewrite (sp_split _ _ Hsep). apply (rd_nodup _ (cl_ready _ Hc)). Qed.

Lemma U0_nodup : NoDup U0.
Proof.
  unfold U0. rewrite app_assoc. apply NoDup_app. split_and!; [apply GT_nodup| |apply opens_nodup].
  intros p Hp Ho%elem_of_opens. rewrite listed_not_open in Ho; [done|]. by rewrite listed_iff, <- elem_of_app.
Qed.

Lemma elem_of_U0 o : o ∈ U0 <-> o ∈ all \/ open_var h o = true.
Proof. unfold U0. rewrite !elem_of_app, listed_iff, elem_of_opens. tauto. Qed.

Lemma tmp_garbage p : p ∈ T -> p ∈ all /\ p ∉ G /\ ~ reachable h (external rt0) p.
Proof.
  intros Hp. assert (p ∈ all) as Ha by (apply listed_iff; by right). pose proof GT_nodup as (_ & Hd & _)%NoDup_app.
  assert (p ∉ G) as Hg by (intros Hg; by apply (Hd p)). split_and!; [done..|]. by rewrite <- (sp_live _ _ Hsep p Ha).
Qed.

Lemma open_steps o : open_var h o = true -> steps h o = Ret [] /\ own o = [].
Proof.
  intros Ho. assert (steps h o = Ret []) as Hst.
  { unfold open_var in Ho. unfold steps. destruct (h !! o) as [[| | |v| |]|]; try done. by destruct (is_detached v). }
  split; [done|]. unfold own. rewrite decide_False; [unfold given_back; by rewrite Hst|].
  intros Hg. rewrite listed_not_open in Ho; [done|]. apply listed_iff. by left.
Qed.

(** What a garbage object gives back. *)
Lemma garbage_steps p : p ∈ T -> exists l, steps h p = Ret l /\ own p = targets l /\
  (forall o, open_var h o = false -> occ o (own p) = occ o (kids h p)) /\ forallb (step_ok h) l = true /\ reads_ok l = true.
Proof.
  intros Hp. destruct (tmp_garbage p Hp) as (Ha & Hg & Hr). pose proof (cl_wf _ Hc p Ha Hr) as Hw.
  pose proof (rd_kids _ (cl_ready _ Hc) p Ha) as Hk.
  assert (Hst : exists l, steps h p = Ret l).
  { destruct (listed_object p Ha) as [ob E]. destruct (matches_steps h p (listed_not_open p Ha) p Hw _ Hk) as (s & ? & _). by exists s. }
  destruct Hst as [l Hst]. exists l. assert (own p = targets l) as Hown by (unfold own, given_back; by rewrite decide_False, Hst).
  split; [done|]. split; [done|]. split.
  - intros o Ho. rewrite Hown. destruct (matches_steps h o Ho p Hw _ Hk) as (s & Hs & Hsame). rewrite Hst in Hs. injection Hs as <-. exact Hsame.
  - apply (steps_safe h p l Hw Hst). intros r Hr'. by apply (cl_refs _ Hc p l).
Qed.

Lemma inc_ext k k' L o : (forall p, p ∈ L -> occ o (k p) = occ o (k' p)) -> inc k L o = inc k' L o.
Proof.
  induction L as [|p L IH]; intros Hk; [done|]. rewrite !inc_cons, (Hk p), IH; [done| |]; intros; try apply Hk; set_solver.
Qed.
Lemma inc_zero k L o : (forall p, p ∈ L -> o ∉ k p) -> inc k L o = 0.
Proof. intros Hk. apply occ_0. intros (p & Ho & Hp)%list_elem_of_bind. by apply (Hk p). Qed.

Lemma inc_opens o : inc own opens o = 0.
Proof. apply inc_zero. intros p Hp%elem_of_opens. destruct (open_steps p Hp) as [_ ->]. apply not_elem_of_nil. Qed.
Lemma own_G p : p ∈ G -> own p = kids h p.
Proof. intros Hp. unfold own. by rewrite decide_True. Qed.
Lemma own_T p : p ∈ T -> own p = given_back h p.
Proof. intros Hp. unfold own. rewrite decide_False; [done|]. by destruct (tmp_garbage p Hp) as (_ & ? & _). Qed.

(** The references of the listed objects are the ones that are marked. *)
Lemma inc_listed o : open_var h o = false -> inc own U0 o = inc (kids h) all o.
Proof.
  intros Ho. unfold U0. rewrite app_assoc, inc_app, inc_opens, <- (sp_split _ _ Hsep), Z.add_0_r. apply inc_ext. intros p [Hp|Hp]%elem_of_app.
  - by rewrite own_G.
  - destruct (garbage_steps p Hp) as (l & _ & _ & Hk & _). by apply Hk.
Qed.
Lemma inc_open o : open_var h o = true -> inc own U0 o = inc (given_back h) T o.
Proof.
  intros Ho. unfold U0. rewrite !inc_app, inc_opens. rewrite (inc_zero own G o), (inc_ext own (given_back h) T o); [lia| |].
  - intros p Hp. by rewrite own_T.
  - intros p Hp. rewrite own_G by done. intros Hk. assert (p ∈ all) as Ha by (apply listed_iff; by left).
    pose proof (rd_closed _ (cl_ready _ Hc) p o Ha Hk) as Hoa. by rewrite (listed_not_open o Hoa) in Ho.
Qed.

Lemma base_count o : o ∈ U0 -> base o + inc own U0 o = cnt rt0 o.
Proof.
  intros Ho. assert (inc own U0 o <= cnt rt0 o); [|unfold base; lia]. destruct (open_var h o) eqn:Eo.
  - rewrite inc_open by done. pose proof (cl_vars _ Hc o Eo) as Hv. rewrite <- (sp_split _ _ Hsep), inc_app in Hv.
    pose proof (inc_nonneg (given_back h) G o). lia.
  - rewrite inc_listed by done. apply (rd_count _ (cl_ready _ Hc)). apply elem_of_U0 in Ho as [?|?]; [done|congruence].
Qed.

Lemma object_in_U0 o ob : h !! o = Some ob -> o ∈ U0.
Proof. intros E. apply elem_of_U0. by apply (cl_dom _ Hc o ob). Qed.
Lemma U0_object o : o ∈ U0 -> exists ob, h !! o = Some ob.
Proof. intros [Ho|Ho]%elem_of_U0; [by apply listed_object|]. unfold open_var in Ho. destruct (h !! o); [by eexists|done]. Qed.

Lemma lv_U0 o : o ∈ lv -> o ∈ U0.
Proof. unfold lv, U0. rewrite !elem_of_app, list_elem_of_filter. tauto. Qed.
Lemma dead_U0 o : o ∈ U0 -> o ∉ lv -> o ∈ T \/ open_var h o = true /\ base o = 0.
Proof.
  unfold lv, U0. rewrite !elem_of_app, list_elem_of_filter. intros [Ho|[Ho|Ho]] Hl; [tauto|by left|]. right.
  split; [by apply elem_of_opens|]. pose proof (Z.le_max_l 0 (cnt rt0 o - inc own U0 o)). unfold base in *. destruct (decide (0 < Z.max 0 (cnt rt0 o - inc own U0 o))); [tauto|lia].
Qed.
Lemma T_dead o : o ∈ T -> o ∉ lv.
Proof.
  intros Ho. destruct (tmp_garbage o Ho) as (Ha & Hg & _). unfold lv. rewrite elem_of_app, list_elem_of_filter. intros [?|[_ Hop%elem_of_opens]]; [done|].
  by rewrite listed_not_open in Hop.
Qed.

Lemma base_external p : p ∈ all -> (0 < base p <-> external rt0 p).
Proof.
  intros Hp. pose proof (base_count p) as Hb. rewrite (inc_listed p (listed_not_open p Hp)) in Hb. unfold external.
  specialize (Hb ltac:(apply elem_of_U0; by left)). split; [intros; split; [done|lia]|intros [_ ?]; lia].
Qed.

Lemma G_listed p : p ∈ G -> p ∈ all.
Proof. intros Hp. apply listed_iff. by left. Qed.
Lemma G_reachable p : p ∈ G <-> reachable h (external rt0) p.
Proof.
  split; [intros Hp; by apply (sp_live _ _ Hsep p (G_listed p Hp))|]. intros Hr. apply (sp_live _ _ Hsep p); [|done].
  by apply (reachable_listed rt0 p (cl_ready _ Hc)).
Qed.
Lemma G_closed p q : p ∈ G -> q ∈ kids h p -> q ∈ G.
Proof. intros Hp Hq. apply G_reachable. apply (reachable_step _ _ p); [by apply G_reachable|done]. Qed.

Lemma run_swept : swept h lv own base.
Proof.
  split.
  - intros p q Hp Hq. unfold lv in *. apply elem_of_app in Hp as [Hp|[_ Hp%elem_of_opens]%list_elem_of_filter].
    + rewrite own_G in Hq by done. apply elem_of_app. left. by apply (G_closed p).
    + destruct (open_steps p Hp) as [_ E]. rewrite E in Hq. by apply not_elem_of_nil in Hq.
  - intros o L Ho _ HL. pose proof (inc_nonneg own L o) as Hn. unfold lv in Ho.
    apply elem_of_app in Ho as [Ho|[? _]%list_elem_of_filter]; [|lia]. assert (0 <= base o) by apply Z.le_max_l.
    pose proof Ho as Hr%G_reachable. inversion Hr as [? Hx|p ? Hp Hk]; subst.
    + apply (base_external o (G_listed o Ho)) in Hx. lia.
    + apply G_reachable in Hp. assert (0 < inc own L o); [|lia]. apply (inc_elem own L p); [|by rewrite own_G].
      apply HL. unfold lv. apply elem_of_app. by left.
  - intros o. apply Z.le_max_l.
  - intros o ob E Hl. destruct (dead_U0 o (object_in_U0 o ob E) Hl) as [Ho|[_ ?]]; [|done].
    destruct (tmp_garbage o Ho) as (Ha & _ & Hr). assert (0 <= base o) by apply Z.le_max_l.
    assert (~ 0 < base o); [|lia]. rewrite (base_external o Ha). intros Hx. by apply Hr, reachable_root.
  - unfold lv. pose proof U0_nodup as Hn. unfold U0 in Hn. rewrite app_assoc in Hn. apply NoDup_app in Hn as ((HG & _ & _)%NoDup_app & Hd & _).
    apply NoDup_app. split_and!; [done| |apply NoDup_filter, opens_nodup]. intros o Ho [_ Hop]%list_elem_of_filter. apply (Hd o); [|done]. apply elem_of_app. by left.
  - intros p [ob E] Hl. destruct (dead_U0 p (object_in_U0 p ob E) Hl) as [Hp|[Hp _]].
    + destruct (garbage_steps p Hp) as (l & ? & ? & _ & ? & ?). by exists l.
    + destruct (open_steps p Hp) as [? E']. exists []. by rewrite E'.
  - intros p ob E Hl. destruct (dead_U0 p (object_in_U0 p ob E) Hl) as [Hp|[Hp _]].
    + destruct (tmp_garbage p Hp) as (Ha & _ & Hr). by apply (cl_frames _ Hc p ob).
    + unfold open_var in Hp. rewrite E in Hp. by destruct ob.
  - intros p o E Hl. destruct (dead_U0 p (object_in_U0 p _ E) Hl) as [Hp|[Hp _]].
    + destruct (tmp_garbage p Hp) as (Ha & _ & Hr). pose proof (cl_wf _ Hc p Ha Hr) as Hw. unfold object_wf in Hw. rewrite E in Hw.
      apply andb_true_iff in Hw as [_ Hw]. by destruct (first_weak_ref o).
    + unfold open_var in Hp. by rewrite E in Hp.
Qed.

Lemma cnt_hdr rt p : 0 < cnt rt p -> exists m, hdrs rt !! p = Some (mkHeader (cnt rt p) m).
Proof. unfold cnt. destruct (hdrs rt !! p) as [[c m]|]; [by exists m|lia]. Qed.

Lemma run_hdr o : o ∈ U0 -> exists m, hdrs rt1 !! o = Some (mkHeader (base o + inc own U0 o + owed [] o) m) /\
  (o ∈ lv -> open_var h o = false -> m = 0).
Proof.
  intros Ho. rewrite base_count by done. change (owed [] o) with 0. rewrite Z.add_0_r. pose proof Ho as [Ha|Hop]%elem_of_U0.
  - destruct (sp_hdr _ _ Hsep o Ha) as (m & Hm & Hz). exists m. split; [done|]. intros Hl Hnop. apply Hz. unfold lv in Hl.
    apply elem_of_app in Hl as [?|[_ Hop%elem_of_opens]%list_elem_of_filter]; [done|congruence].
  - destruct (U0_object o Ho) as [ob E]. destruct (cnt_hdr rt0 o (cl_used _ Hc o ob E)) as [m Hm]. exists m. split; [|congruence].
    rewrite (sp_other _ _ Hsep); [done|]. intros Ha. by rewrite listed_not_open in Hop.
Qed.

Lemma run_refs p o : p ∈ U0 -> o ∈ own p -> o ∈ U0.
Proof.
  intros [Hp|[Hp|Hp%elem_of_opens]%elem_of_app]%elem_of_app Ho.
  - rewrite own_G in Ho by done. apply elem_of_U0. left. by apply G_listed, (G_closed p).
  - destruct (garbage_steps p Hp) as (l & _ & Hown & _ & Hok & _). rewrite Hown in Ho. apply list_elem_of_bind in Ho as ([r| | |] & Ho & Hr); try by apply not_elem_of_nil in Ho.
    rewrite forallb_forall in Hok. specialize (Hok _ (proj1 (list_elem_of_In _ _) Hr)). cbn in Hok.
    destruct (h !! o) as [ob|] eqn:E; [by apply (object_in_U0 o ob)|]. exfalso.
    destruct r as [[q|q|]|q|q|q|q]; cbn in Ho; try (by apply not_elem_of_nil in Ho); apply list_elem_of_singleton in Ho as ->; cbn in Hok; by rewrite E in Hok.
  - destruct (open_steps p Hp) as [_ E]. rewrite E in Ho. by apply not_elem_of_nil in Ho.
Qed.

Lemma run_loop : sweep_loop h lv own base G U0 [] (set_phase rt1 JS_GC_PHASE_REMOVE_CYCLES).
Proof.
  pose proof (sp_objs _ _ Hsep) as Eo. pose proof (sp_zero _ _ Hsep) as Ez.
  assert (Hlist : forall o, o ∈ G ++ [] ++ T -> o ∈ all) by (intros o [?|?]%elem_of_app; apply listed_iff; auto).
  split; cbn [gc_obj_list tmp_obj_list gc_zero_ref_count_list set_phase]; try rewrite Ez; try done.
  - split; cbn [gc_phase objs hdrs gc_obj_list tmp_obj_list gc_zero_ref_count_list set_phase]; rewrite ?app_nil_r, ?Eo, ?Ez; try done.
    + apply U0_nodup.
    + intros o Ho. pose proof (lv_U0 o Ho) as Hu. split; [done|]. destruct (U0_object o Hu) as [ob E]. exists ob, ob. split_and!; [done..|]. by exists [].
    + intros o Hu _. destruct (U0_object o Hu) as [ob E]. by exists ob.
    + by intros o ?%not_elem_of_nil.
    + apply object_in_U0.
    + apply run_hdr.
    + intros p o. apply run_refs.
    + by intros r ?%not_elem_of_nil.
    + intros o Ho _ _. rewrite base_count by done. destruct (U0_object o Ho) as [ob E]. pose proof (cl_used _ Hc o ob E). change (owed [] o) with 0. lia.
    + by intros o ?%not_elem_of_nil.
    + intros o Ho. by apply listed_not_open, Hlist.
  - intros o Ho. unfold lv. apply elem_of_app. by left.
  - intros o Ho. split; [unfold U0; set_solver|by apply T_dead].
  - intros o Ho Hl Hj. destruct (dead_U0 o Ho Hl) as [?|[Hop _]]; [done|]. apply js_open in Hj. congruence.
  - by intros o ?%not_elem_of_nil.
  - by intros o ?%not_elem_of_nil.
  - apply NoDup_nil_2.
Qed.

Lemma inc_lv o : inc own lv o = inc own G o.
Proof.
  unfold lv. rewrite inc_app, (inc_zero own (filter _ _)); [lia|]. intros p [_ Hp%elem_of_opens]%list_elem_of_filter.
  destruct (open_steps p Hp) as [_ ->]. apply not_elem_of_nil.
Qed.
Lemma inc_T o : inc own T o = inc (given_back h) T o.
Proof. apply inc_ext. intros p Hp. by rewrite own_T. Qed.
Lemma left_count o : o ∈ U0 -> base o + inc own lv o = cnt rt0 o - inc (given_back h) T o.
Proof. intros Ho. rewrite inc_lv, <- (base_count o Ho), <- inc_T. unfold U0. rewrite !inc_app, inc_opens. lia. Qed.

Lemma open_object o : open_var h o = true -> exists v, h !! o = Some (JS_GC_OBJ_TYPE_VAR_REF v).
Proof. unfold open_var. destruct (h !! o) as [[]|]; try done. by eexists. Qed.

Lemma run_result rt' : only_live h lv own base G rt' -> gc_result rt0 T rt'.
Proof.
  intros [Hgc Hz Ht Hp Hlive Hgone Hhdr]. assert (HGl : forall o, o ∈ G -> o ∈ lv) by (intros o Ho; unfold lv; apply elem_of_app; by left).
  split; try done; rewrite ?Hgc.
  - apply (sp_split _ _ Hsep).
  - apply G_reachable.
  - intros p Hg. by apply Hlive, HGl.
  - intros p Hg. by apply Hgone, T_dead.
  - intros p Hg. destruct (Hhdr p (HGl p Hg)) as (m & -> & Hm). rewrite Hm by (by apply listed_not_open, G_listed).
    by rewrite left_count by (by apply lv_U0, HGl).
  - intros o Ho. cbv zeta. assert (Hu : o ∈ U0) by (apply elem_of_U0; by right). rewrite <- (left_count o Hu).
    assert (inc own lv o = 0) as E0.
    { rewrite inc_lv. pose proof (inc_open o Ho) as Hi. rewrite <- inc_T in Hi. unfold U0 in Hi. rewrite !inc_app, inc_opens in Hi. lia. }
    rewrite E0, Z.add_0_r. destruct (Z.ltb_spec 0 (base o)) as [Hb|Hb].
    + assert (Hl : o ∈ lv) by (unfold lv; apply elem_of_app; right; apply list_elem_of_filter; split; [done|by apply elem_of_opens]).
      destruct (open_object o Ho) as [v Ev]. destruct (Hlive o Hl) as (ob0 & ob & E1 & E2 & D & ->). rewrite Ev in E1. injection E1 as <-.
      rewrite E2, Ev. rewrite (frames_kind (JS_GC_OBJ_TYPE_VAR_REF v) D). split; [done|].
      unfold cnt. destruct (Hhdr o Hl) as (m & -> & _). cbn. lia.
    + apply Hgone. unfold lv. rewrite elem_of_app, list_elem_of_filter. intros [Hg|[? _]]; [|lia].
      by rewrite (listed_not_open o (G_listed o Hg)) in Ho.
Qed.
End Run.

(** ** The collector *)

Lemma run_gc_ok rt : collectable rt -> exists rt' garbage, JS_RunGC rt = Ret rt' /\ gc_result rt garbage rt'.
Proof.
  intros Hc. destruct (trial_deletion_ok rt (cl_ready _ Hc)) as (rt1 & E1 & Hsep). unfold JS_RunGC.
  destruct (gc_decref rt) as [rt2|]; [|done]. cbn [mbind outcome_bind] in *. rewrite E1. cbn [mbind outcome_bind].
  destruct (gc_free_cycles_ok (objs rt) (lv rt rt1) (own rt rt1) (base rt rt1) (run_swept rt rt1 Hc Hsep) _ _ _ _ (run_loop rt rt1 Hc Hsep)) as (rt' & E' & Ho).
  exists rt', (tmp_obj_list rt1). split; [done|]. by apply run_result.
Qed.



(** ** A small heap *)

Definition plain (c : JSClassID) (sh : ptr) (pr : list JSProperty) (u : JSObjectUnion) : gc_object :=
  JS_GC_OBJ_TYPE_JS_OBJECT (mkObject false c (Some sh) pr u []).
Definition heap_of (l : list (ptr * (gc_object * Z))) : JSRuntime :=
  mkRT (list_to_map ((fun '(p, (o, _)) => (p, o)) <$> l)) (list_to_map ((fun '(p, (_, c)) => (p, mkHeader c 0)) <$> l))
    (l.*1) [] [] JS_GC_PHASE_NONE.

(** Objects 3 and 4 refer to each other and share the shape 1; the array 5 has
    itself as its element and a reference from outside. *)
Definition cycles : JSRuntime :=
  heap_of [(1%positive, (JS_GC_OBJ_TYPE_SHAPE (mkShape None [mkSP 0 5]), 2));
           (2%positive, (JS_GC_OBJ_TYPE_SHAPE (mkShape None []), 1));
           (3%positive, (plain JS_CLASS_OBJECT 1%positive [U_value (JS_OBJ 4%positive)] U_opaque, 1));
           (4%positive, (plain JS_CLASS_OBJECT 1%positive [U_value (JS_OBJ 3%positive)] U_opaque, 1));
           (5%positive, (plain JS_CLASS_ARRAY 2%positive [] (U_array [JS_OBJ 5%positive]), 2))].

Ltac by_cases H := repeat (apply elem_of_cons in H as [?|H]; [simplify_eq|]); [..|by apply not_elem_of_nil in H].

Lemma cycles_collectable : collectable cycles.
Proof.
  assert (Hobj : forall o ob, objs cycles !! o = Some ob -> o ∈ gc_obj_list cycles).
  { intros o ob E. unfold cycles, heap_of in E. cbn [objs] in E. apply elem_of_list_to_map_2 in E. revert E. cbn. set_solver. }
  assert (Hopen : forall o, open_var (objs cycles) o = true -> False).
  { intros o Ho. unfold open_var in Ho. destruct (objs cycles !! o) as [ob|] eqn:E; [|done]. pose proof (Hobj o ob E) as Hin.
    by_cases Hin; vm_compute in E; injection E as <-; done. }
  split.
  - split.
    + apply (bool_decide_unpack _). by vm_compute.
    + intros p Hp. by_cases Hp; by vm_compute.
    + intros p Hp. by_cases Hp; by vm_compute.
    + intros p q Hp Hq. by_cases Hp; vm_compute in Hq; by_cases Hq; apply (bool_decide_unpack _); by vm_compute.
    + intros p Hp. by_cases Hp; by vm_compute.
    + done.
  - intros o ob E. left. by apply (Hobj o ob).
  - intros o ob E. pose proof (Hobj o ob E) as Hp. by_cases Hp; by vm_compute.
  - intros o Ho. by apply Hopen in Ho.
  - intros p Hp _. by_cases Hp; by vm_compute.
  - intros p l r Hp _ E Hr. by_cases Hp; vm_compute in E; injection E as <-; by_cases Hr; by vm_compute.
  - intros p ob Hp _ E v Hv. by apply Hopen in Hv.
Qed.


Definition collected_cycles : JSRuntime := match JS_RunGC cycles with Ret rt => rt | Fault _ => cycles end.

(** The array stays, with its shape. *)
Example collected_cycles_list : gc_obj_list collected_cycles = [5%positive; 2%positive] /\ objs collected_cycles !! 3%positive = None.
Proof. by vm_compute. Qed.


(** ** A variable that a closure shares with a suspended generator

    The mark functions skip a variable that is still on a frame, and the frame
    is marked by its generator only.  Closure 5 is in use and shares variable 6
    with generator 3, which only its own frame refers to; the variable holds
    object 4. *)

Definition captured : JSRuntime :=
  let fr := mkAsyncState (mkFrame JS_LEAF (Some [JS_OBJ 4%positive; JS_OBJ 3%positive]) 0 (Some 2) [6%positive]) JS_LEAF in
  let rt := heap_of [(2%positive, (JS_GC_OBJ_TYPE_SHAPE (mkShape None []), 3));
    (3%positive, (plain JS_CLASS_GENERATOR 2%positive [] (U_generator_data (Some (JS_GENERATOR_STATE_SUSPENDED_YIELD, fr))), 1));
    (4%positive, (plain JS_CLASS_OBJECT 2%positive [] U_opaque, 1));
    (5%positive, (plain JS_CLASS_BYTECODE_FUNCTION 2%positive [] (U_func None (Some 7%positive) (Some [Some 6%positive])), 1));
    (7%positive, (JS_GC_OBJ_TYPE_FUNCTION_BYTECODE (mkBytecode [] None 1), 1));
    (6%positive, (JS_GC_OBJ_TYPE_VAR_REF (mkVarRef false false 0 JS_LEAF), 1))] in
  set_lists rt [2%positive; 3%positive; 4%positive; 5%positive; 7%positive] [] [].

(** The collector releases object 4 although the variable of the closure, which
    stays, refers to it: releasing the closure then reads released memory. *)
Theorem captured_variable_dangles : exists rt, JS_RunGC captured = Ret rt /\
  objs rt !! 6%positive = Some (JS_GC_OBJ_TYPE_VAR_REF (mkVarRef true false 0 (JS_OBJ 4%positive))) /\
  objs rt !! 4%positive = None /\ JS_FreeValueRT rt (JS_OBJ 5%positive) = Fault Uninitialised.
Proof.
  destruct (JS_RunGC captured) as [rt|] eqn:E; [|by vm_compute in E].
  exists rt. assert (rt = match JS_RunGC captured with Ret r => r | Fault _ => captured end) as -> by (by rewrite E).
  clear E. split_and!; by vm_compute.
Qed.

(** ** The parts *)

(** C13: taking the references between the objects away from their counts and
    giving them back from the ones that keep a count ends with every object and
    count as before, the objects that can be reached from outside in
    [gc_obj_list] and the others in [tmp_obj_list]. *)
Theorem trial_deletion_separates rt : gc_ready rt ->
  exists rt', (rt1 ← gc_decref rt; gc_scan rt1) = Ret rt' /\ objs rt' = objs rt /\
    gc_obj_list rt' ++ tmp_obj_list rt' ≡ₚ gc_obj_list rt /\
    (forall p, p ∈ gc_obj_list rt' <-> reachable (objs rt) (external rt) p) /\
    (forall p, p ∈ gc_obj_list rt -> cnt rt' p = cnt rt p).
Proof.
  intros Hr. destruct (trial_deletion_ok rt Hr) as (rt' & E & [S1 S2 S3 S4 S5 S6 S7]). exists rt'. split_and!; try done. intros p. split.
  - intros Hp. apply S3; [|done]. rewrite <- S2. apply elem_of_app. by left.
  - intros Hp. apply S3; [|done]. by apply reachable_listed.
Qed.

Lemma trial_deletion_separates_witness : gc_ready cycles /\ exists rt', (rt1 ← gc_decref cycles; gc_scan rt1) = Ret rt' /\ objs rt' = objs cycles.
Proof.
  split; [exact (cl_ready _ cycles_collectable)|].
  destruct (trial_deletion_separates cycles (cl_ready _ cycles_collectable)) as (rt' & E & O & _). exists rt'. split; assumption.
Defined.

(** C14: the references that releasing a well-formed object drops are the ones
    its mark function reports, each as many times, but for the variables on a
    stack, which are not marked. *)
Theorem release_drops_marks h p l : object_wf h p = true -> children h p = Ret l ->
  exists s, steps h p = Ret s /\ forall o, open_var h o = false -> occ o (targets s) = occ o l.
Proof.
  intros Hw E. destruct (steps h p) as [s|f] eqn:Es.
  - exists s. split; [done|]. intros o Ho. destruct (matches_steps h o Ho p Hw l E) as (s' & E' & Hs). rewrite Es in E'. by injection E' as <-.
  - exfalso. assert (Hx : exists o, open_var h o = false).
    { exists (fresh (dom h)). unfold open_var. destruct (h !! fresh (dom h)) eqn:Ef; [|done]. apply elem_of_dom_2, is_fresh in Ef. done. }
    destruct Hx as [o Ho]. destruct (matches_steps h o Ho p Hw l E) as (s' & E' & _). by rewrite Es in E'.
Qed.

Lemma release_drops_marks_witness : exists s, steps (objs captured) 5%positive = Ret s /\ occ 7%positive (targets s) = 1.
Proof.
  destruct (release_drops_marks (objs captured) 5%positive [2%positive; 7%positive]) as (s & E & H).
  - vm_compute. reflexivity.
  - vm_compute. reflexivity.
  - exists s. split; [exact E|]. rewrite H by (vm_compute; reflexivity). vm_compute. reflexivity.
Defined.
