(* ===== verification/JsValues.v ===== *)
(** * Values and their comparison ([quickjs.c])

    Strings, [js_strict_eq2] with its three modes and the hash of a key of a Map
    or Set.  A double is its 64 bits; objects and symbols are their addresses;
    a big integer is its value. *)

From S2P Require Import Prelude Cutils.

(** A string of bytes or of 16-bit units. *)
Record JSString := mkString { is_wide_char : bool; units : list Z }.
Definition sizeof_JSString : Z := 16.

Inductive jsval :=
  | JS_UNDEFINED
  | JS_NULL
  | JS_BOOL (b : bool)
  | JS_INT (i : Z)
  | JS_FLOAT64 (d : Z)
  | JS_STRING (p : JSString)
  | JS_SYMBOL (p : Z)
  | JS_OBJECT (p : Z)
  | JS_BIG_INT (n : Z).

#[export] Instance JSString_eq_dec : EqDecision JSString.
Proof. solve_decision. Defined.
#[export] Instance jsval_eq_dec : EqDecision jsval.
Proof. solve_decision. Defined.

(** The tags of a build without NaN boxing. *)
Definition JS_TAG_BIG_INT : Z := -10.
Definition JS_TAG_SYMBOL : Z := -8.
Definition JS_TAG_STRING : Z := -7.
Definition JS_TAG_OBJECT : Z := -1.
Definition JS_TAG_INT : Z := 0.
Definition JS_TAG_BOOL : Z := 1.
Definition JS_TAG_NULL : Z := 2.
Definition JS_TAG_UNDEFINED : Z := 3.
Definition JS_TAG_FLOAT64 : Z := 7.

Definition JS_VALUE_GET_NORM_TAG (v : jsval) : Z :=
  match v with
  | JS_UNDEFINED => JS_TAG_UNDEFINED
  | JS_NULL => JS_TAG_NULL
  | JS_BOOL _ => JS_TAG_BOOL
  | JS_INT _ => JS_TAG_INT
  | JS_FLOAT64 _ => JS_TAG_FLOAT64
  | JS_STRING _ => JS_TAG_STRING
  | JS_SYMBOL _ => JS_TAG_SYMBOL
  | JS_OBJECT _ => JS_TAG_OBJECT
  | JS_BIG_INT _ => JS_TAG_BIG_INT
  end.

(** ** Doubles *)

Definition JS_FLOAT64_NAN : Z := 0x7ff8000000000000.
Definition isnan (d : Z) : bool := 0x7ff0000000000000 <? Z.land d 0x7fffffffffffffff.
Definition is_zero (d : Z) : bool := Z.land d 0x7fffffffffffffff =? 0.
(** [d1 == d2] *)
Definition float64_eq (d1 d2 : Z) : bool :=
  negb (isnan d1) && negb (isnan d2) && ((d1 =? d2) || is_zero d1 && is_zero d2).

(** The conversion of an [int]: exact, as 53 bits are enough. *)
Definition float64_of_int (i : Z) : Z :=
  if i =? 0 then 0
  else
    let m := Z.abs i in
    let e := Z.log2 m in
    Z.lor (Z.shiftl (b2z (i <? 0)) 63) (Z.shiftl (e + 1023) 52 + (Z.shiftl m (52 - e) - 2 ^ 52)).

(** ** Strings *)

(** [memcmp16_8], [memcmp16], and [memcmp] on bytes, of which only the sign
    counts. *)
Fixpoint memcmp16 (src1 src2 : list Z) (len : nat) : outcome Z :=
  match len with
  | O => Ret 0
  | S len =>
      match src1, src2 with
      | a :: src1, b :: src2 => let c := a - b in if negb (c =? 0) then Ret c else memcmp16 src1 src2 len
      | _, _ => Fault OutOfBounds
      end
  end.

(** [js_string_memcmp(p1, p2, len)] *)
Definition js_string_memcmp (p1 p2 : JSString) (len : Z) : outcome Z :=
  if negb (is_wide_char p1) then
    if negb (is_wide_char p2) then memcmp16 (units p1) (units p2) (Z.to_nat len)
    else res ← memcmp16 (units p2) (units p1) (Z.to_nat len); Ret (- res)
  else memcmp16 (units p1) (units p2) (Z.to_nat len).

(** [js_string_compare(ctx, p1, p2)] *)
Definition js_string_compare (p1 p2 : JSString) : outcome Z :=
  let len := Bits.min_int (zlen (units p1)) (zlen (units p2)) in
  res ← js_string_memcmp p1 p2 len;
  if res =? 0 then
    if zlen (units p1) =? zlen (units p2) then Ret 0
    else if zlen (units p1) <? zlen (units p2) then Ret (-1)
    else Ret 1
  else Ret res.

(** ** Equality *)

Inductive JSStrictEqModeEnum := JS_EQ_STRICT | JS_EQ_SAME_VALUE | JS_EQ_SAME_VALUE_ZERO.

Definition number_test (eq_mode : JSStrictEqModeEnum) (d1 d2 : Z) : bool :=
  match eq_mode with
  | JS_EQ_STRICT => float64_eq d1 d2
  | _ =>
      if isnan d1 || isnan d2 then Bool.eqb (isnan d1) (isnan d2)
      else match eq_mode with JS_EQ_SAME_VALUE_ZERO => float64_eq d1 d2 | _ => d1 =? d2 end
  end.

(** [js_strict_eq2(ctx, op1, op2, eq_mode)] *)
Definition js_strict_eq2 (op1 op2 : jsval) (eq_mode : JSStrictEqModeEnum) : outcome bool :=
  match op1 with
  | JS_BOOL b1 => Ret (match op2 with JS_BOOL b2 => Bool.eqb b1 b2 | _ => false end)
  | JS_NULL => Ret (match op2 with JS_NULL => true | _ => false end)
  | JS_UNDEFINED => Ret (match op2 with JS_UNDEFINED => true | _ => false end)
  | JS_STRING p1 => match op2 with JS_STRING p2 => res ← js_string_compare p1 p2; Ret (res =? 0) | _ => Ret false end
  | JS_SYMBOL p1 => Ret (match op2 with JS_SYMBOL p2 => p1 =? p2 | _ => false end)
  | JS_OBJECT p1 => Ret (match op2 with JS_OBJECT p2 => p1 =? p2 | _ => false end)
  | JS_INT i1 =>
      Ret (match op2 with
           | JS_INT i2 => number_test eq_mode (float64_of_int i1) (float64_of_int i2)
           | JS_FLOAT64 d2 => number_test eq_mode (float64_of_int i1) d2
           | _ => false
           end)
  | JS_FLOAT64 d1 =>
      Ret (match op2 with
           | JS_FLOAT64 d2 => number_test eq_mode d1 d2
           | JS_INT i2 => number_test eq_mode d1 (float64_of_int i2)
           | _ => false
           end)
  | JS_BIG_INT n1 => Ret (match op2 with JS_BIG_INT n2 => n1 =? n2 | _ => false end)
  end.

Definition js_strict_eq (op1 op2 : jsval) : outcome bool := js_strict_eq2 op1 op2 JS_EQ_STRICT.
Definition js_same_value (op1 op2 : jsval) : outcome bool := js_strict_eq2 op1 op2 JS_EQ_SAME_VALUE.
Definition js_same_value_zero (op1 op2 : jsval) : outcome bool := js_strict_eq2 op1 op2 JS_EQ_SAME_VALUE_ZERO.

(** ** Hashes *)

(** [hash_string8] and [hash_string16] *)
Definition hash_string16 (str : list Z) (h : Z) : Z := foldl (fun h c => u32 (h * 263 + c)) h str.
Definition hash_string (str : JSString) (h : Z) : Z := hash_string16 (units str) h.

Definition hash_float64 (d : Z) : Z := u32 (Z.lxor (Z.land d UINT32_MAX) (Z.shiftr d 32) * 3163).

(** [map_hash_key(ctx, key)] *)
Definition map_hash_key (key : jsval) : Z :=
  let h :=
    match key with
    | JS_BOOL b => b2z b
    | JS_STRING p => hash_string p 0
    | JS_OBJECT p | JS_SYMBOL p => u32 (p * 3163)
    | JS_INT i => hash_float64 (float64_of_int (i32 (i * 3163)))
    | JS_FLOAT64 d => hash_float64 (if isnan d then JS_FLOAT64_NAN else d)
    | _ => 0
    end in
  Z.lxor h (u32 (JS_VALUE_GET_NORM_TAG key)).

(** [map_normalize_key(ctx, key)] *)
Definition map_normalize_key (key : jsval) : jsval :=
  match key with
  | JS_FLOAT64 d => if float64_eq d 0 then JS_INT 0 else key
  | _ => key
  end.

(** ** Equality of keys *)

(** [js_string_compare] is zero on the same units, of any width. *)
Lemma memcmp16_zero : forall l1 l2 n, (n <= length l1)%nat -> (n <= length l2)%nat ->
  exists c, memcmp16 l1 l2 n = Ret c /\ (c = 0 <-> take n l1 = take n l2).
Proof.
  intros l1 l2 n. revert l1 l2. induction n as [|n IH]; intros [|a l1] [|b l2] H1 H2; cbn [length] in *; try lia.
  all: try (exists 0; done). cbn [memcmp16 take]. destruct (Z.eqb_spec (a - b) 0) as [E|E]; cbn [negb].
  - destruct (IH l1 l2 ltac:(lia) ltac:(lia)) as (c & -> & Hc). exists c. split; [done|]. rewrite Hc. assert (a = b) by lia. subst.
    split; [by intros ->|by intros [= ->]].
  - exists (a - b). split; [done|]. split; [lia|]. intros [= ->]. lia.
Qed.

Lemma js_string_memcmp_zero p1 p2 len : 0 <= len <= zlen (units p1) -> len <= zlen (units p2) ->
  exists c, js_string_memcmp p1 p2 len = Ret c /\ (c = 0 <-> take (Z.to_nat len) (units p1) = take (Z.to_nat len) (units p2)).
Proof.
  unfold zlen, js_string_memcmp. intros H1 H2.
  destruct (memcmp16_zero (units p1) (units p2) (Z.to_nat len) ltac:(lia) ltac:(lia)) as (c & E & Hc).
  destruct (memcmp16_zero (units p2) (units p1) (Z.to_nat len) ltac:(lia) ltac:(lia)) as (c' & E' & Hc').
  destruct (negb (is_wide_char p1)), (negb (is_wide_char p2)); rewrite ?E, ?E'; cbn [mbind outcome_bind]; eauto.
  exists (- c'). split; [done|]. split; [intros; symmetry; apply Hc'; lia|]. intros Eq. enough (c' = 0) by lia. by apply Hc'.
Qed.

Lemma js_string_compare_eq p1 p2 : exists c, js_string_compare p1 p2 = Ret c /\ (c = 0 <-> units p1 = units p2).
Proof.
  unfold js_string_compare, Bits.min_int. set (len := if zlen (units p1) <? zlen (units p2) then zlen (units p1) else zlen (units p2)).
  assert (Hlen : 0 <= len <= zlen (units p1) /\ len <= zlen (units p2)) by (unfold len, zlen; destruct (Z.ltb_spec (Z.of_nat (length (units p1))) (Z.of_nat (length (units p2)))); lia).
  destruct (js_string_memcmp_zero p1 p2 len) as (c & -> & Hc); [lia..|]. cbn [mbind outcome_bind].
  destruct (Z.eqb_spec c 0) as [Ez|Ez].
  - destruct (Z.eqb_spec (zlen (units p1)) (zlen (units p2))) as [El|El].
    + exists 0. split; [done|]. split; [intros _|done]. apply Hc in Ez. assert (len = zlen (units p1)) by (unfold len; rewrite El, Z.ltb_irrefl; done).
      unfold zlen in *. rewrite !take_ge in Ez by lia. done.
    + destruct (_ <? _); eexists; (split; [done|]); (split; [lia|]); intros Eu; by rewrite Eu in El.
  - exists c. split; [done|]. split; [lia|]. intros Eu. apply Hc. by rewrite Eu.
Qed.

(** *** Integers as doubles *)

Definition int32 (i : Z) : Prop := - 2 ^ 31 <= i < 2 ^ 31.

Lemma float64_of_int_parts i : int32 i -> i <> 0 -> exists e m, 0 <= e <= 31 /\ 0 <= m < 2 ^ 52 /\
  float64_of_int i = b2z (i <? 0) * 2 ^ 63 + ((e + 1023) * 2 ^ 52 + m) /\ Z.abs i * 2 ^ (52 - e) = 2 ^ 52 + m.
Proof.
  unfold int32, float64_of_int. intros Hi Hz. destruct (Z.eqb_spec i 0) as [?|_]; [done|]. cbv zeta.
  set (a := Z.abs i). assert (Ha : 0 < a <= 2 ^ 31) by (unfold a; lia). pose proof (Z.log2_spec a ltac:(lia)) as [Hl1 Hl2].
  pose proof (Z.log2_nonneg a). assert (Z.log2 a <= 31) by (rewrite <- (Z.log2_pow2 31) by lia; apply Z.log2_le_mono; lia).
  set (e := Z.log2 a) in *. exists e, (a * 2 ^ (52 - e) - 2 ^ 52).
  assert (E1 : 2 ^ e * 2 ^ (52 - e) = 2 ^ 52) by (rewrite <- Z.pow_add_r by lia; f_equal; lia).
  assert (E2 : 2 ^ Z.succ e * 2 ^ (52 - e) = 2 ^ 53) by (rewrite <- Z.pow_add_r by lia; f_equal; lia).
  assert (0 < 2 ^ (52 - e)) by (apply Z.pow_pos_nonneg; lia).
  assert (B : 2 ^ 52 <= a * 2 ^ (52 - e) < 2 ^ 53) by nia. change (2 ^ 53) with (2 * 2 ^ 52) in B.
  split_and!; try lia. rewrite !Z.shiftl_mul_pow2 by lia.
  rewrite <- Z.lxor_lor, <- Z.add_nocarry_lxor; [lia|..].
  all: apply Z.bits_inj'; intros n Hn; rewrite Z.land_spec, Z.bits_0; destruct (Z.lt_ge_cases n 63).
  1,3: rewrite Z.mul_pow2_bits_low by lia; done.
  all: rewrite (Z.bits_above_log2 ((e + 1023) * 2 ^ 52 + _)); [by rewrite andb_false_r|nia|].
  all: apply Z.lt_le_trans with 63; [|done]; apply Z.log2_lt_pow2; [nia|]; change (2 ^ 63) with (2048 * 2 ^ 52); nia.
Qed.

Lemma land_low63 d : Z.land d 0x7fffffffffffffff = d mod 2 ^ 63.
Proof. change 0x7fffffffffffffff with (Z.ones 63). apply Z.land_ones. lia. Qed.

Lemma float64_of_int_low i : int32 i -> i <> 0 -> exists e m, 0 <= e <= 31 /\ 0 <= m < 2 ^ 52 /\
  Z.land (float64_of_int i) 0x7fffffffffffffff = (e + 1023) * 2 ^ 52 + m.
Proof.
  intros Hi Hz. destruct (float64_of_int_parts i Hi Hz) as (e & m & He & Hm & E & _). exists e, m. split_and!; try lia.
  rewrite land_low63, E, Z.add_comm, Z.mod_add by lia. apply Z.mod_small. change (2 ^ 63) with (2048 * 2 ^ 52). nia.
Qed.

Lemma float64_of_int_not_nan i : int32 i -> isnan (float64_of_int i) = false.
Proof.
  intros Hi. destruct (Z.eq_dec i 0) as [->|Hz]; [done|]. unfold isnan.
  destruct (float64_of_int_low i Hi Hz) as (e & m & He & Hm & ->). apply Z.ltb_ge. change 0x7ff0000000000000 with (2047 * 2 ^ 52). nia.
Qed.
Lemma float64_of_int_zero i : int32 i -> is_zero (float64_of_int i) = (i =? 0).
Proof.
  intros Hi. destruct (Z.eqb_spec i 0) as [->|Hz]; [done|]. unfold is_zero.
  destruct (float64_of_int_low i Hi Hz) as (e & m & He & Hm & ->). apply Z.eqb_neq. nia.
Qed.
Lemma float64_of_int_inj i j : int32 i -> int32 j -> float64_of_int i = float64_of_int j -> i = j.
Proof.
  intros Hi Hj E. pose proof (float64_of_int_zero i Hi) as Zi. pose proof (float64_of_int_zero j Hj) as Zj. rewrite E, Zj in Zi.
  destruct (Z.eqb_spec i 0) as [->|Hi0], (Z.eqb_spec j 0) as [->|Hj0]; try done.
  destruct (float64_of_int_parts i Hi Hi0) as (e & m & He & Hm & Ei & Vi). destruct (float64_of_int_parts j Hj Hj0) as (e' & m' & He' & Hm' & Ej & Vj).
  rewrite Ei, Ej in E. clear Ei Ej Zi Zj. change (2 ^ 63) with (2048 * 2 ^ 52) in E.
  assert (b2z (i <? 0) = b2z (j <? 0) /\ e = e' /\ m = m') as (Eb & <- & <-).
  { assert (forall b, b2z b = 0 \/ b2z b = 1) as Hb by (intros []; auto). destruct (Hb (i <? 0)), (Hb (j <? 0)); split_and!; nia. }
  rewrite <- Vj in Vi. apply Z.mul_reg_r in Vi; [|apply Z.pow_nonzero; lia].
  destruct (Z.ltb_spec i 0), (Z.ltb_spec j 0); try done; lia.
Qed.

(** *** Keys *)

(** A key as the methods use it: a number that an [int] can hold is one.  The
    engine also makes doubles that are such numbers, see [map_misses_double]. *)
Definition key_wf (k : jsval) : Prop :=
  match k with
  | JS_INT i => int32 i
  | JS_FLOAT64 d => is_zero d = false /\ forall i, int32 i -> d <> float64_of_int i
  | _ => True
  end.

(** One key for each class of same values. *)
Definition canon (k : jsval) : jsval :=
  match k with
  | JS_FLOAT64 d => if isnan d then JS_FLOAT64 JS_FLOAT64_NAN else k
  | JS_STRING p => JS_STRING (mkString true (units p))
  | _ => k
  end.

Lemma hash_canon k : map_hash_key (canon k) = map_hash_key k.
Proof. destruct k as [| | | |d| | | |]; try done. unfold canon, map_hash_key. destruct (isnan d) eqn:E; [done|]. by rewrite E. Qed.

Lemma number_test_zero d1 d2 : number_test JS_EQ_SAME_VALUE_ZERO d1 d2 =
  if isnan d1 || isnan d2 then Bool.eqb (isnan d1) (isnan d2) else (d1 =? d2) || is_zero d1 && is_zero d2.
Proof. unfold number_test, float64_eq. by destruct (isnan d1), (isnan d2). Qed.

Lemma same_value_canon k1 k2 : key_wf k1 -> key_wf k2 ->
  exists b, js_same_value_zero k1 k2 = Ret b /\ (b = true <-> canon k1 = canon k2).
Proof.
  assert (Hd : forall i d, key_wf (JS_INT i) -> key_wf (JS_FLOAT64 d) -> number_test JS_EQ_SAME_VALUE_ZERO (float64_of_int i) d = false /\
    number_test JS_EQ_SAME_VALUE_ZERO d (float64_of_int i) = false /\ forall j, canon (JS_FLOAT64 d) <> JS_INT j).
  { intros i d Hi [Hz Hne]. cbn in Hi. rewrite !number_test_zero, (float64_of_int_not_nan i Hi), Hz.
    assert (E1 : (float64_of_int i =? d) = false) by (apply Z.eqb_neq; intros E; by apply (Hne i)). rewrite (Z.eqb_sym d), E1.
    cbn [canon]. rewrite andb_false_r. destruct (isnan d); done. }
  intros H1 H2. unfold js_same_value_zero, js_strict_eq2.
  destruct k1 as [| |b1|i1|d1|p1|s1|o1|n1], k2 as [| |b2|i2|d2|p2|s2|o2|n2]; try (eexists; split; [done|]; done);
    try (eexists; split; [done|]; cbn [canon]; case_match; done).
  - exists (Bool.eqb b1 b2). split; [done|]. rewrite eqb_true_iff. cbn. split; congruence.
  - eexists. split; [done|]. cbn in H1, H2. rewrite number_test_zero, !float64_of_int_not_nan, !float64_of_int_zero by done. cbn [orb canon].
    rewrite orb_true_iff, andb_true_iff, !Z.eqb_eq. split; [|intros [= ->]; auto]. intros [E|[-> ->]]; [|done]. f_equal. by apply float64_of_int_inj.
  - eexists. split; [done|]. destruct (Hd i1 d2 H1 H2) as (-> & _ & Hn). split; [done|]. intros E. by destruct (Hn i1).
  - eexists. split; [done|]. destruct (Hd i2 d1 H2 H1) as (_ & -> & Hn). split; [done|]. intros E. by destruct (Hn i2).
  - eexists. split; [done|]. destruct H1 as [Z1 _], H2 as [Z2 _]. rewrite number_test_zero, Z1, orb_false_r. cbn [canon].
    destruct (isnan d1) eqn:N1, (isnan d2) eqn:N2; cbn; try done.
    + split; [done|]. intros [= E]. by rewrite <- E in N2.
    + split; [done|]. intros [= E]. by rewrite E in N1.
    + rewrite Z.eqb_eq. split; congruence.
  - destruct (js_string_compare_eq p1 p2) as (c & -> & Hc). cbn [mbind outcome_bind]. exists (c =? 0). split; [done|].
    rewrite Z.eqb_eq, Hc. cbn [canon]. split; [by intros ->|by intros [= ->]].
  - exists (s1 =? s2). split; [done|]. rewrite Z.eqb_eq. cbn. split; congruence.
  - exists (o1 =? o2). split; [done|]. rewrite Z.eqb_eq. cbn. split; congruence.
  - exists (n1 =? n2). split; [done|]. rewrite Z.eqb_eq. cbn. split; congruence.
Qed.
