(* ===== verification/MapRecords.v ===== *)
(** * Map, Set, WeakMap and WeakSet ([quickjs.c])

    The records of a map are in a list, in the order of their insertion, and in
    the chains of a hash table.  An iterator holds a reference to the record it
    is at: a record that is deleted meanwhile stays in the list, empty, until
    the last iterator has left it.  One map with its iterators is modelled; the
    intrusive lists are the lists of their elements ([ListHead] verifies the
    links); [refs] counts the references to a value that have been taken, less
    those given back. *)

From S2P Require Import Prelude Cutils JsValues.
From stdpp Require Export gmap.
#[global] Open Scope Z_scope.

Definition ptr := positive.

Record JSMapRecord := mkRecord { ref_count : Z; empty : bool; key : jsval; value : jsval }.

Record JSMapState := mkMap {
  is_weak : bool;
  records : list ptr;
  record_count : Z;
  hash_table : list (list ptr);
  hash_size : Z;
  record_count_threshold : Z;
}.

Inductive JSIteratorKindEnum := JS_ITERATOR_KIND_KEY | JS_ITERATOR_KIND_VALUE | JS_ITERATOR_KIND_KEY_AND_VALUE.

(** [it_obj] is false once [obj] is undefined. *)
Record JSMapIteratorData := mkIter { it_obj : bool; it_kind : JSIteratorKindEnum; cur_record : option ptr }.

Record world := mkWorld {
  recs : gmap ptr JSMapRecord;
  mstate : JSMapState;
  iters : gmap ptr JSMapIteratorData;
  first_weak_ref : gmap Z (list ptr);   (* of the objects that are keys *)
  refs : jsval -> Z;
}.

Definition set_recs (w : world) (r : gmap ptr JSMapRecord) : world := mkWorld r (mstate w) (iters w) (first_weak_ref w) (refs w).
Definition set_mstate (w : world) (s : JSMapState) : world := mkWorld (recs w) s (iters w) (first_weak_ref w) (refs w).
Definition set_iters (w : world) (i : gmap ptr JSMapIteratorData) : world := mkWorld (recs w) (mstate w) i (first_weak_ref w) (refs w).
Definition set_weak (w : world) (f : gmap Z (list ptr)) : world := mkWorld (recs w) (mstate w) (iters w) f (refs w).
Definition set_refs (w : world) (f : jsval -> Z) : world := mkWorld (recs w) (mstate w) (iters w) (first_weak_ref w) f.

Definition get_rec (w : world) (p : ptr) : outcome JSMapRecord :=
  match recs w !! p with Some r => Ret r | None => Fault Uninitialised end.
Definition set_rec (w : world) (p : ptr) (r : JSMapRecord) : world := set_recs w (<[p := r]> (recs w)).

Definition JS_DupValue (w : world) (v : jsval) : world :=
  set_refs w (fun u => refs w u + b2z (bool_decide (u = v))).
Definition JS_FreeValue (w : world) (v : jsval) : world :=
  set_refs w (fun u => refs w u - b2z (bool_decide (u = v))).

(** ** Lists *)

Definition unlink (p : ptr) (l : list ptr) : list ptr := filter (fun q => q <> p) l.
Definition set_lists (s : JSMapState) (r : list ptr) (t : list (list ptr)) : JSMapState :=
  mkMap (is_weak s) r (record_count s) t (hash_size s) (record_count_threshold s).
(** [list_del(&mr->link)] and [list_del(&mr->hash_link)] *)
Definition del_link (w : world) (p : ptr) : world :=
  set_mstate w (set_lists (mstate w) (unlink p (records (mstate w))) (hash_table (mstate w))).
Definition del_hash_link (w : world) (p : ptr) : world :=
  set_mstate w (set_lists (mstate w) (records (mstate w)) (unlink p <$> hash_table (mstate w))).
(** [list_add_tail(&mr->hash_link, &hash_table[h])] *)
Definition add_chain (t : list (list ptr)) (h : Z) (p : ptr) : outcome (list (list ptr)) :=
  c ← rd t h; wr t h (c ++ [p]).
(** [el->next]: [None] is the head of the list. *)
Fixpoint list_next (l : list ptr) (p : ptr) : outcome (option ptr) :=
  match l with
  | [] => Fault OutOfBounds
  | q :: l => if decide (q = p) then Ret (head l) else list_next l p
  end.

Definition set_count (s : JSMapState) (n : Z) : JSMapState :=
  mkMap (is_weak s) (records s) n (hash_table s) (hash_size s) (record_count_threshold s).

(** ** Memory *)

(** The addresses of new records and iterators, and the usable size of a hash
    table of so many bytes, unless memory is short. *)
Class MapAllocator := {
  record_alloc : gmap ptr JSMapRecord -> option ptr;
  record_fresh : forall m p, record_alloc m = Some p -> m !! p = None;
  iter_alloc : gmap ptr JSMapIteratorData -> option ptr;
  iter_fresh : forall m p, iter_alloc m = Some p -> m !! p = None;
  table_realloc : Z -> option Z;
}.

Section Map.
Context `{MapAllocator}.

Definition sizeof_list_head : Z := 16.

(** [js_map_constructor(ctx, new_target, 0, NULL, magic)] *)
Definition js_map_constructor (weak : bool) : option world :=
  match table_realloc (sizeof_list_head * 1) with
  | None => None
  | Some _ => Some (mkWorld ∅ (mkMap weak [] 0 [[]] 1 4) ∅ ∅ (fun _ => 0))
  end.

(** ** Records *)

(** The chain of a hash table. *)
Fixpoint find_in_chain (w : world) (l : list ptr) (k : jsval) : outcome (option ptr) :=
  match l with
  | [] => Ret None
  | p :: l =>
      mr ← get_rec w p;
      b ← js_same_value_zero (key mr) k;
      if (b : bool) then Ret (Some p) else find_in_chain w l k
  end.

(** [map_find_record(ctx, s, key)] *)
Definition map_find_record (w : world) (k : jsval) : outcome (option ptr) :=
  let s := mstate w in
  let h := Z.land (map_hash_key k) (u32 (hash_size s - 1)) in
  c ← rd (hash_table s) h;
  find_in_chain w c k.

(** The records go to the new chains. *)
Definition rehash (w : world) (new_hash_size : Z) : outcome (list (list ptr)) :=
  foldM (fun t p =>
    mr ← get_rec w p;
    if empty mr then Ret t
    else add_chain t (Z.land (map_hash_key (key mr)) (u32 (new_hash_size - 1))) p)
    (replicate (Z.to_nat new_hash_size) []) (records (mstate w)).

(** [map_hash_resize(ctx, s)] *)
Definition map_hash_resize (w : world) : outcome world :=
  let s := mstate w in
  let new_hash_size := if hash_size s =? 1 then 4 else u32 (hash_size s * 2) in
  let size := sizeof_list_head * new_hash_size in
  match table_realloc size with
  | None => Ret w
  | Some usable =>
      let slack := if size <? usable then usable - size else 0 in
      let new_hash_size := u32 (new_hash_size + slack / sizeof_list_head) in
      t ← rehash w new_hash_size;
      Ret (set_mstate w (mkMap (is_weak s) (records s) (record_count s) t new_hash_size (u32 (new_hash_size * 2))))
  end.

(** [map_add_record(ctx, s, key)] *)
Definition map_add_record (w : world) (k : jsval) : outcome (option ptr * world) :=
  match record_alloc (recs w) with
  | None => Ret (None, w)
  | Some mr =>
      w ← (if is_weak (mstate w) then
             match k with
             | JS_OBJECT p => Ret (set_weak w (<[p := mr :: default [] (first_weak_ref w !! p)]> (first_weak_ref w)))
             | _ => Fault Uninitialised
             end
           else Ret (JS_DupValue w k));
      let w := set_rec w mr (mkRecord 1 false k JS_UNDEFINED) in
      let s := mstate w in
      t ← add_chain (hash_table s) (Z.land (map_hash_key k) (u32 (hash_size s - 1))) mr;
      let w := set_mstate w (set_count (set_lists s (records s ++ [mr]) t) (u32 (record_count s + 1))) in
      w ← (if record_count_threshold (mstate w) <=? record_count (mstate w) then map_hash_resize w else Ret w);
      Ret (Some mr, w)
  end.

(** [delete_weak_ref(rt, mr)] *)
Definition delete_weak_ref (w : world) (mr : ptr) (k : jsval) : outcome world :=
  match k with
  | JS_OBJECT p =>
      let l := default [] (first_weak_ref w !! p) in
      _ ← c_assert (bool_decide (mr ∈ l));
      Ret (set_weak w (<[p := unlink mr l]> (first_weak_ref w)))
  | _ => Fault Uninitialised
  end.

(** The end of a record: [list_del(&mr->link); js_free_rt(rt, mr)]. *)
Definition free_record (w : world) (p : ptr) : world :=
  let w := del_link w p in set_recs w (delete p (recs w)).

(** [map_delete_record(rt, s, mr)] *)
Definition map_delete_record (w : world) (p : ptr) : outcome world :=
  mr ← get_rec w p;
  if empty mr then Ret w
  else
    let w := del_hash_link w p in
    w ← (if is_weak (mstate w) then delete_weak_ref w p (key mr) else Ret (JS_FreeValue w (key mr)));
    let w := JS_FreeValue w (value mr) in
    let w :=
      if ref_count mr - 1 =? 0 then free_record w p
      else set_rec w p (mkRecord (ref_count mr - 1) true JS_UNDEFINED JS_UNDEFINED) in
    Ret (set_mstate w (set_count (mstate w) (u32 (record_count (mstate w) - 1)))).

(** [map_decref_record(rt, mr)] *)
Definition map_decref_record (w : world) (p : ptr) : outcome world :=
  mr ← get_rec w p;
  if ref_count mr - 1 =? 0 then
    _ ← c_assert (empty mr);
    Ret (free_record w p)
  else Ret (set_rec w p (mkRecord (ref_count mr - 1) (empty mr) (key mr) (value mr))).

(** [reset_weak_ref(rt, p)]: the object that is the key is released. *)
Definition reset_weak_ref (w : world) (p : Z) : outcome world :=
  let l := default [] (first_weak_ref w !! p) in
  w ← foldM (fun w mr =>
    r ← get_rec w mr;
    _ ← c_assert (is_weak (mstate w));
    _ ← c_assert (negb (empty r));
    Ret (del_link (del_hash_link w mr) mr)) w l;
  w ← foldM (fun w mr =>
    r ← get_rec w mr;
    Ret (set_recs (JS_FreeValue w (value r)) (delete mr (recs w)))) w l;
  Ret (set_weak w (delete p (first_weak_ref w))).

(** ** The methods *)

Inductive map_result :=
  | R_exception
  | R_map                      (* the map itself *)
  | R_undefined
  | R_value (v : jsval)
  | R_bool (b : bool)
  | R_size (n : Z)
  | R_iterator (p : ptr)
  | R_done
  | R_item (v : jsval)
  | R_entry (k v : jsval).

Definition JS_IsObject (v : jsval) : bool := match v with JS_OBJECT _ => true | _ => false end.

(** [js_map_set(ctx, this_val, argc, argv, magic)]; a set has the value
    undefined. *)
Definition js_map_set (w : world) (k v : jsval) : outcome (map_result * world) :=
  let k := map_normalize_key k in
  if is_weak (mstate w) && negb (JS_IsObject k) then Ret (R_exception, w)
  else
    r ← map_find_record w k;
    '(r, w) ← match r with
              | Some mr => rec ← get_rec w mr; Ret (Some mr, JS_FreeValue w (value rec))
              | None => map_add_record w k
              end;
    match r with
    | None => Ret (R_exception, w)
    | Some mr =>
        rec ← get_rec w mr;
        let w := JS_DupValue w v in
        Ret (R_map, set_rec w mr (mkRecord (ref_count rec) (empty rec) (key rec) v))
    end.

(** [js_map_get(ctx, this_val, argc, argv, magic)] *)
Definition js_map_get (w : world) (k : jsval) : outcome (map_result * world) :=
  r ← map_find_record w (map_normalize_key k);
  match r with
  | None => Ret (R_undefined, w)
  | Some mr => rec ← get_rec w mr; Ret (R_value (value rec), JS_DupValue w (value rec))
  end.

(** [js_map_has(ctx, this_val, argc, argv, magic)] *)
Definition js_map_has (w : world) (k : jsval) : outcome (map_result * world) :=
  r ← map_find_record w (map_normalize_key k);
  Ret (R_bool match r with Some _ => true | None => false end, w).

(** [js_map_delete(ctx, this_val, argc, argv, magic)] *)
Definition js_map_delete (w : world) (k : jsval) : outcome (map_result * world) :=
  r ← map_find_record w (map_normalize_key k);
  match r with
  | None => Ret (R_bool false, w)
  | Some mr => w ← map_delete_record w mr; Ret (R_bool true, w)
  end.

(** [js_map_clear(ctx, this_val, argc, argv, magic)] *)
Definition js_map_clear (w : world) : outcome (map_result * world) :=
  w ← loop (S (length (records (mstate w)))) (fun '(el, w) =>
    match el with
    | None => Ret (inr w)
    | Some mr =>
        el1 ← list_next (records (mstate w)) mr;
        w ← map_delete_record w mr;
        Ret (inl (el1, w))
    end) (head (records (mstate w)), w);
  Ret (R_undefined, w).

(** [js_map_get_size(ctx, this_val, magic)] *)
Definition js_map_get_size (w : world) : outcome (map_result * world) := Ret (R_size (record_count (mstate w)), w).

(** *** Iterators *)

(** [js_create_map_iterator(ctx, this_val, argc, argv, magic)] *)
Definition js_create_map_iterator (w : world) (kind : JSIteratorKindEnum) : outcome (map_result * world) :=
  match iter_alloc (iters w) with
  | None => Ret (R_exception, w)
  | Some p => Ret (R_iterator p, set_iters w (<[p := mkIter true kind None]> (iters w)))
  end.

(** The loop that skips the empty records. *)
Definition skip_empty (w : world) (el : option ptr) : outcome (option ptr) :=
  loop (S (length (records (mstate w)))) (fun el =>
    match el with
    | None => Ret (inr None)
    | Some p =>
        mr ← get_rec w p;
        if negb (empty mr) then Ret (inr (Some p))
        else el ← list_next (records (mstate w)) p; Ret (inl el)
    end) el.

(** [js_map_iterator_next(ctx, this_val, argc, argv, pdone, magic)] *)
Definition js_map_iterator_next (w : world) (is_set : bool) (p : ptr) : outcome (map_result * world) :=
  it ← match iters w !! p with Some it => Ret it | None => Fault Uninitialised end;
  if negb (it_obj it) then Ret (R_done, w)
  else
    '(el, w) ← match cur_record it with
               | None => Ret (head (records (mstate w)), w)
               | Some mr => el ← list_next (records (mstate w)) mr; w ← map_decref_record w mr; Ret (el, w)
               end;
    el ← skip_empty w el;
    match el with
    | None => Ret (R_done, set_iters w (<[p := mkIter false (it_kind it) None]> (iters w)))
    | Some mr =>
        rec ← get_rec w mr;
        let w := set_rec w mr (mkRecord (ref_count rec + 1) (empty rec) (key rec) (value rec)) in
        let w := set_iters w (<[p := mkIter true (it_kind it) (Some mr)]> (iters w)) in
        let v := if is_set : bool then key rec else value rec in
        match it_kind it with
        | JS_ITERATOR_KIND_KEY => Ret (R_item (key rec), JS_DupValue w (key rec))
        | JS_ITERATOR_KIND_VALUE => Ret (R_item v, JS_DupValue w v)
        | JS_ITERATOR_KIND_KEY_AND_VALUE => Ret (R_entry (key rec) v, JS_DupValue (JS_DupValue w (key rec)) v)
        end
    end.

(** [js_map_iterator_finalizer(rt, val)] while the map is alive. *)
Definition js_map_iterator_finalizer (w : world) (p : ptr) : outcome world :=
  it ← match iters w !! p with Some it => Ret it | None => Fault Uninitialised end;
  w ← match cur_record it with
      | Some mr => if it_obj it then map_decref_record w mr else Ret w
      | None => Ret w
      end;
  Ret (set_iters w (delete p (iters w))).

(** [js_map_forEach(ctx, this_val, argc, argv, magic)]: [func] is the callback,
    which tells whether it throws; [fuel] bounds the calls, as a callback can
    add records for ever. *)
Definition js_map_forEach (fuel : nat) (is_set : bool) (func : jsval -> jsval -> world -> outcome (bool * world)) (w : world) :
    outcome (map_result * world) :=
  loop fuel (fun '(el, w) =>
    match el with
    | None => Ret (inr (R_undefined, w))
    | Some p =>
        mr ← get_rec w p;
        if negb (empty mr) then
          let w := set_rec w p (mkRecord (ref_count mr + 1) (empty mr) (key mr) (value mr)) in
          let w := JS_DupValue w (key mr) in
          let arg0 := if is_set : bool then key mr else value mr in
          let w := if is_set : bool then w else JS_DupValue w (value mr) in
          '(ret, w) ← func arg0 (key mr) w;
          let w := JS_FreeValue w arg0 in
          let w := if is_set : bool then w else JS_FreeValue w (key mr) in
          el ← list_next (records (mstate w)) p;
          w ← map_decref_record w p;
          if (ret : bool) then Ret (inr (R_exception, w)) else Ret (inl (el, w))
        else
          el ← list_next (records (mstate w)) p;
          Ret (inl (el, w))
    end) (head (records (mstate w)), w).

(** [js_map_finalizer(rt, val)]: no iterator is left. *)
Definition js_map_finalizer (w : world) : outcome world :=
  w ← foldM (fun w p =>
    mr ← get_rec w p;
    w ← (if negb (empty mr) then
           w ← (if is_weak (mstate w) then delete_weak_ref w p (key mr) else Ret (JS_FreeValue w (key mr)));
           Ret (JS_FreeValue w (value mr))
         else Ret w);
    Ret (set_recs w (delete p (recs w)))) w (records (mstate w));
  Ret (set_mstate w (mkMap (is_weak (mstate w)) [] 0 [] 0 0)).
End Map.
