(* ===== verification/MapSpec.v ===== *)
(** * Map and Set: the specification

    [[MapData]] is the list of the entries in the order of their insertion; a
    deleted entry leaves an empty place, and an iterator is an index into the
    list.  The methods as steps of this state. *)

From S2P Require Import Prelude Cutils JsValues MapRecords.

(** ** Sums over maps *)

Section Sum.
Context {A : Type} (f : A -> Z).

Definition msum (m : gmap ptr A) : Z := lsum f (snd <$> map_to_list m).

Lemma msum_empty : msum ∅ = 0.
Proof. unfold msum. by rewrite map_to_list_empty. Qed.
Lemma msum_insert m i x : m !! i = None -> msum (<[i := x]> m) = f x + msum m.
Proof. intros Hi. unfold msum. by rewrite (lsum_Permutation f _ (snd <$> (i, x) :: map_to_list m)) by (apply fmap_Permutation, map_to_list_insert, Hi). Qed.
Lemma msum_delete m i x : m !! i = Some x -> msum m = f x + msum (delete i m).
Proof. intros Hi. rewrite <- (insert_delete_id m i x Hi) at 1. by rewrite msum_insert by apply lookup_delete_eq. Qed.
Lemma msum_update m i x y : m !! i = Some x -> msum (<[i := y]> m) = msum m - f x + f y.
Proof.
  intros Hi. rewrite (msum_delete m i x Hi), <- insert_delete_eq, msum_insert by apply lookup_delete_eq. lia.
Qed.
Lemma msum_nonneg m : (forall i x, m !! i = Some x -> 0 <= f x) -> 0 <= msum m.
Proof. intros Hf. apply lsum_nonneg. intros x ([i y] & -> & Hy%elem_of_map_to_list)%list_elem_of_fmap. by apply (Hf i). Qed.
Lemma msum_zero m : (forall i x, m !! i = Some x -> f x = 0) -> msum m = 0.
Proof.
  unfold msum. intros Hf. assert (Hl : forall x, x ∈ (snd <$> map_to_list m) -> f x = 0).
  { intros x ([i y] & -> & Hy%elem_of_map_to_list)%list_elem_of_fmap. by apply (Hf i). }
  revert Hl. generalize (snd <$> map_to_list m). induction l as [|x l IH]; intros Hl; [done|].
  rewrite lsum_cons, (Hl x) by set_solver. apply IH. set_solver.
Qed.
End Sum.

(** ** The specification *)

(** Keys that are the same value (zeros and NaNs are one). *)
Definition same_key (k1 k2 : jsval) : bool := match js_same_value_zero k1 k2 with Ret b => b | Fault _ => false end.

Definition entry := option (jsval * jsval).

Record spec := mkSpec { entries : list entry; cursors : gmap ptr (JSIteratorKindEnum * option nat) }.

Definition has_key (k : jsval) (e : entry) : bool := match e with Some (k', _) => same_key k' k | None => false end.
Fixpoint find_entry (k : jsval) (es : list entry) : option nat :=
  match es with
  | [] => None
  | e :: es => if has_key k e then Some O else S <$> find_entry k es
  end.
Fixpoint next_entry (es : list entry) : option nat :=
  match es with
  | [] => None
  | Some _ :: es => Some O
  | None :: es => S <$> next_entry es
  end.
Definition live_count (es : list entry) : Z := lsum (fun e => b2z (bool_decide (is_Some e))) es.

Definition set_entry (es : list entry) (k v : jsval) : list entry :=
  match find_entry k es with
  | Some i => match es !! i with Some (Some (k', _)) => <[i := Some (k', v)]> es | _ => es end
  | None => es ++ [Some (k, v)]
  end.

Inductive map_op :=
  | Op_set (k v : jsval)
  | Op_get (k : jsval)
  | Op_has (k : jsval)
  | Op_delete (k : jsval)
  | Op_clear
  | Op_size
  | Op_iterator (kind : JSIteratorKindEnum)
  | Op_next (p : ptr)
  | Op_free_iterator (p : ptr)
  | Op_collect (p : Z).          (* the object at [p] is released *)

Definition item (is_set : bool) (kind : JSIteratorKindEnum) (k v : jsval) : map_result :=
  let v := if is_set then k else v in
  match kind with
  | JS_ITERATOR_KIND_KEY => R_item k
  | JS_ITERATOR_KIND_VALUE => R_item v
  | JS_ITERATOR_KIND_KEY_AND_VALUE => R_entry k v
  end.

Notation norm := map_normalize_key.

(** What a call may answer, and the state after it: [Op_set] and [Op_iterator]
    can run out of memory, and only objects are keys of a weak map. *)
Inductive spec_step (weak is_set : bool) (s : spec) : map_op -> map_result -> spec -> Prop :=
  | S_set k v : (weak = true -> JS_IsObject k = true) ->
      spec_step weak is_set s (Op_set k v) R_map (mkSpec (set_entry (entries s) (norm k) v) (cursors s))
  | S_set_oom k v : find_entry (norm k) (entries s) = None -> spec_step weak is_set s (Op_set k v) R_exception s
  | S_set_type k v : weak = true -> JS_IsObject k = false -> spec_step weak is_set s (Op_set k v) R_exception s
  | S_get k i k' v : find_entry (norm k) (entries s) = Some i -> entries s !! i = Some (Some (k', v)) ->
      spec_step weak is_set s (Op_get k) (R_value v) s
  | S_get_none k : find_entry (norm k) (entries s) = None -> spec_step weak is_set s (Op_get k) R_undefined s
  | S_has k : spec_step weak is_set s (Op_has k) (R_bool (bool_decide (is_Some (find_entry (norm k) (entries s))))) s
  | S_delete k i : find_entry (norm k) (entries s) = Some i ->
      spec_step weak is_set s (Op_delete k) (R_bool true) (mkSpec (<[i := None]> (entries s)) (cursors s))
  | S_delete_none k : find_entry (norm k) (entries s) = None -> spec_step weak is_set s (Op_delete k) (R_bool false) s
  | S_clear : spec_step weak is_set s Op_clear R_undefined (mkSpec ((fun _ => None) <$> entries s) (cursors s))
  | S_size : spec_step weak is_set s Op_size (R_size (u32 (live_count (entries s)))) s
  | S_iterator kind p : cursors s !! p = None ->
      spec_step weak is_set s (Op_iterator kind) (R_iterator p) (mkSpec (entries s) (<[p := (kind, Some O)]> (cursors s)))
  | S_iterator_oom kind : spec_step weak is_set s (Op_iterator kind) R_exception s
  | S_next p kind i j k v : cursors s !! p = Some (kind, Some i) -> next_entry (drop i (entries s)) = Some j ->
      entries s !! (i + j)%nat = Some (Some (k, v)) ->
      spec_step weak is_set s (Op_next p) (item is_set kind k v) (mkSpec (entries s) (<[p := (kind, Some (S (i + j)))]> (cursors s)))
  | S_next_end p kind i : cursors s !! p = Some (kind, Some i) -> next_entry (drop i (entries s)) = None ->
      spec_step weak is_set s (Op_next p) R_done (mkSpec (entries s) (<[p := (kind, None)]> (cursors s)))
  | S_next_done p kind : cursors s !! p = Some (kind, None) -> spec_step weak is_set s (Op_next p) R_done s
  | S_free_iterator p : is_Some (cursors s !! p) ->
      spec_step weak is_set s (Op_free_iterator p) R_undefined (mkSpec (entries s) (delete p (cursors s)))
  | S_collect p : spec_step weak is_set s (Op_collect p) R_undefined
      (mkSpec ((fun e => if has_key (JS_OBJECT p) e then None else e) <$> entries s) (cursors s)).

Inductive spec_run (weak is_set : bool) (s : spec) : list (map_op * map_result) -> spec -> Prop :=
  | run_nil : spec_run weak is_set s [] s
  | run_step tr s' op r s'' : spec_run weak is_set s tr s' -> spec_step weak is_set s' op r s'' ->
      spec_run weak is_set s (tr ++ [(op, r)]) s''.

(** The references to [v] that the entries hold and that an answer gives. *)
Definition is_val (u v : jsval) : Z := b2z (bool_decide (u = v)).
Definition entry_refs (weak : bool) (v : jsval) (e : entry) : Z :=
  match e with Some (k, x) => (if weak then 0 else is_val v k) + is_val v x | None => 0 end.
Definition held (weak : bool) (es : list entry) (v : jsval) : Z := lsum (entry_refs weak v) es.
Definition given (r : map_result) (v : jsval) : Z :=
  match r with
  | R_value x | R_item x => is_val v x
  | R_entry k x => is_val v k + is_val v x
  | _ => 0
  end.
Definition all_given (tr : list (map_op * map_result)) (v : jsval) : Z := lsum (fun '(_, r) => given r v) tr.

(** ** Running the methods *)

(** What a caller must respect: keys are values the engine makes, an iterator
    is used while it exists, a weak map has no iterators, size or [clear], and
    only the keys of a weak map are released under it. *)
Definition op_ok (w : world) (op : map_op) : Prop :=
  match op with
  | Op_set k _ | Op_get k | Op_has k | Op_delete k => key_wf (map_normalize_key k)
  | Op_clear | Op_size | Op_iterator _ => is_weak (mstate w) = false
  | Op_next p | Op_free_iterator p => is_weak (mstate w) = false /\ is_Some (iters w !! p)
  | Op_collect _ => is_weak (mstate w) = true
  end.

Section Run.
Context `{MapAllocator} (is_set : bool).

Definition exec (w : world) (op : map_op) : outcome (map_result * world) :=
  match op with
  | Op_set k v => js_map_set w k v
  | Op_get k => js_map_get w k
  | Op_has k => js_map_has w k
  | Op_delete k => js_map_delete w k
  | Op_clear => js_map_clear w
  | Op_size => js_map_get_size w
  | Op_iterator kind => js_create_map_iterator w kind
  | Op_next p => js_map_iterator_next w is_set p
  | Op_free_iterator p => w ← js_map_iterator_finalizer w p; Ret (R_undefined, w)
  | Op_collect p => w ← reset_weak_ref w p; Ret (R_undefined, w)
  end.

(** The calls that take [w] to [w'], with their answers. *)
Inductive calls (w : world) : list (map_op * map_result) -> world -> Prop :=
  | calls_nil : calls w [] w
  | calls_step tr w' op r w'' : calls w tr w' -> op_ok w' op -> exec w' op = Ret (r, w'') -> calls w (tr ++ [(op, r)]) w''.
End Run.
