(* ===== verification/MapRefine.v ===== *)
(** * Map and Set: the records implement the specification

    The invariant of a map between two calls.  Every record has a position in
    the list of entries of the specification: the records are in the order of
    their positions, a record that is not empty is the entry at its position, and
    an iterator is one place after the position of the record it is at.  The
    chains of the hash table hold the records whose key has that hash, so that
    [map_find_record] finds the entry of a key. *)

From stdpp Require Import sorting.
From S2P Require Import Prelude Cutils JsValues MapRecords MapSpec.
#[local] Open Scope Z_scope.

(** ** The invariant *)

(** The chain of a key in a table of [n] chains. *)
Definition slot (n : Z) (k : jsval) : Z := Z.land (map_hash_key k) (u32 (n - 1)).

(** Records, map and entries; [lk] counts the locks on a record. *)
Record core (R : gmap ptr JSMapRecord) (m : JSMapState) (es : list entry) (pos : ptr -> nat) (lk : ptr -> Z) : Prop := mkCore {
  c_order : StronglySorted (fun p q => (pos p < pos q)%nat) (records m);
  c_listed : forall p : ptr, p ∈ records m <-> is_Some (R !! p);
  c_entry : forall (p : ptr) r, R !! p = Some r -> es !! pos p = Some (if empty r then None else Some (key r, value r));
  c_record : forall i k v, es !! i = Some (Some (k, v)) -> exists (p : ptr) r, R !! p = Some r /\ empty r = false /\ pos p = i;
  c_wf : forall i k v, es !! i = Some (Some (k, v)) -> key_wf k;
  c_distinct : forall i j k v k' v', es !! i = Some (Some (k, v)) -> es !! j = Some (Some (k', v')) -> canon k = canon k' -> i = j;
  c_size : 0 < hash_size m < 2 ^ 31 /\ zlen (hash_table m) = hash_size m;
  c_chain : forall i c (p : ptr), hash_table m !! i = Some c ->
    (p ∈ c <-> exists r, R !! p = Some r /\ empty r = false /\ slot (hash_size m) (key r) = Z.of_nat i);
  c_count : forall (p : ptr) r, R !! p = Some r -> ref_count r = b2z (negb (empty r)) + lk p /\ 0 < ref_count r;
  c_locked : forall p : ptr, 0 <= lk p /\ (0 < lk p -> is_Some (R !! p));
  c_total : is_weak m = false -> record_count m = u32 (live_count es);
}.

(** An iterator and its index. *)
Definition cursor_rel (pos : ptr -> nat) (it : JSMapIteratorData) (c : JSIteratorKindEnum * option nat) : Prop :=
  it_kind it = c.1 /\
  c.2 = (if it_obj it then Some match cur_record it with Some p => S (pos p) | None => O end else None) /\
  (it_obj it = false -> cur_record it = None).

Definition locks (its : gmap ptr JSMapIteratorData) (p : ptr) : Z :=
  msum (fun it => b2z (bool_decide (cur_record it = Some p))) its.

(** The weak references to the records of a weak map. *)
Record weak_ok (R : gmap ptr JSMapRecord) (fw : gmap Z (list ptr)) : Prop := mkWeak {
  k_record : forall (p : ptr) r, R !! p = Some r -> empty r = false /\ exists o, key r = JS_OBJECT o /\ p ∈ default [] (fw !! o);
  k_object : forall (o : Z) (p : ptr), p ∈ default [] (fw !! o) -> exists r, R !! p = Some r /\ key r = JS_OBJECT o;
  k_nodup : forall o : Z, NoDup (default [] (fw !! o));
}.

Record refines (w : world) (s : spec) (g : jsval -> Z) (pos : ptr -> nat) : Prop := mkRefines {
  r_core : core (recs w) (mstate w) (entries s) pos (locks (iters w));
  r_iters : forall q : ptr, option_Forall2 (cursor_rel pos) (iters w !! q) (cursors s !! q);
  r_weak : is_weak (mstate w) = true -> iters w = ∅ /\ weak_ok (recs w) (first_weak_ref w);
  r_refs : forall v, refs w v = held (is_weak (mstate w)) (entries s) v + g v;
}.

(** ** The entry of a key *)

Lemma same_key_canon k1 k2 : key_wf k1 -> key_wf k2 -> same_key k1 k2 = bool_decide (canon k1 = canon k2).
Proof.
  intros H1 H2. unfold same_key. destruct (same_value_canon k1 k2 H1 H2) as (b & -> & Hb). apply eq_true_iff_eq. by rewrite Hb, bool_decide_eq_true.
Qed.

Lemma find_entry_none k es : (forall i k' v, es !! i = Some (Some (k', v)) -> key_wf k' /\ canon k' <> canon k) -> key_wf k ->
  find_entry k es = None.
Proof.
  intros Hes Hk. induction es as [|e es IH]; [done|]. cbn [find_entry].
  rewrite IH by (intros i k' v E; by apply (Hes (S i) k' v)). destruct e as [[k' v]|]; [|done]. cbn [has_key].
  destruct (Hes O k' v eq_refl) as [H1 H2]. rewrite same_key_canon by done. by rewrite bool_decide_eq_false_2.
Qed.

Lemma find_entry_some k es i k' v : (forall i k' v, es !! i = Some (Some (k', v)) -> key_wf k') ->
  (forall i j k v k' v', es !! i = Some (Some (k, v)) -> es !! j = Some (Some (k', v')) -> canon k = canon k' -> i = j) ->
  key_wf k -> es !! i = Some (Some (k', v)) -> canon k' = canon k -> find_entry k es = Some i.
Proof.
  revert i. induction es as [|e es IH]; intros i Hwf Hd Hk Hi Hc; [done|]. cbn [find_entry]. destruct i as [|i].
  - injection Hi as ->. cbn [has_key]. rewrite same_key_canon by (try done; by apply (Hwf O k' v)). by rewrite bool_decide_eq_true_2.
  - cbn [lookup list_lookup] in Hi. assert (has_key k e = false) as ->.
    { destruct e as [[k'' v'']|]; [|done]. cbn [has_key]. rewrite same_key_canon by (try done; by apply (Hwf O k'' v'')).
      apply bool_decide_eq_false. intros E. assert (O = S i); [|done]. apply (Hd O (S i) k'' v'' k' v); [done..|congruence]. }
    rewrite (IH i); [done|..]; try done.
    + intros j k1 v1 E. by apply (Hwf (S j) k1 v1).
    + intros j1 j2 k1 v1 k2 v2 E1 E2 E. assert (S j1 = S j2) by (by apply (Hd (S j1) (S j2) k1 v1 k2 v2)). lia.
Qed.

Lemma land_le_r a x : 0 <= x -> Z.land a x <= x.
Proof.
  intros Hx. enough (0 <= x - Z.land a x) by lia. rewrite Z.sub_nocarry_ldiff; [apply Z.ldiff_nonneg; by left|].
  apply Z.bits_inj'. intros n Hn. rewrite Z.ldiff_spec, Z.land_spec, Z.bits_0. by destruct (Z.testbit a n), (Z.testbit x n).
Qed.

Lemma slot_lt n k : 0 < n < 2 ^ 31 -> 0 <= slot n k < n.
Proof.
  intros Hn. unfold slot. rewrite u32_small by lia. assert (0 <= Z.land (map_hash_key k) (n - 1)) by (apply Z.land_nonneg; lia).
  pose proof (land_le_r (map_hash_key k) (n - 1) ltac:(lia)). lia.
Qed.

Section Core.
Context {R : gmap ptr JSMapRecord} {m : JSMapState} {es : list entry} {pos : ptr -> nat} {lk : ptr -> Z} (HC : core R m es pos lk).

Lemma core_pos_lt p : is_Some (R !! p) -> (pos p < length es)%nat.
Proof. intros [r E]. by eapply lookup_lt_Some, (c_entry _ _ _ _ _ HC). Qed.

Lemma sorted_NoDup (l : list ptr) : StronglySorted (fun p q => (pos p < pos q)%nat) l -> NoDup l.
Proof.
  induction 1 as [|p l Hs IH Hf]; [apply NoDup_nil_2|]. apply NoDup_cons_2; [|done]. intros Hp. rewrite Forall_forall in Hf. specialize (Hf p Hp). lia.
Qed.

Lemma core_pos_inj p q : is_Some (R !! p) -> is_Some (R !! q) -> pos p = pos q -> p = q.
Proof.
  rewrite <- !(c_listed _ _ _ _ _ HC). generalize (c_order _ _ _ _ _ HC). generalize (records m).
  induction 1 as [|a l Hs IH Hf]; [set_solver|]. rewrite Forall_forall in Hf. rewrite !elem_of_cons.
  intros [->|Hp] [->|Hq] E; [done|..]; [pose proof (Hf q Hq)|pose proof (Hf p Hp)|]; try lia. by apply IH.
Qed.

Lemma core_find_some k p r : key_wf k -> R !! p = Some r -> empty r = false -> canon (key r) = canon k -> find_entry k es = Some (pos p).
Proof.
  intros Hk Hp He Hc. pose proof (c_entry _ _ _ _ _ HC p r Hp) as Hpe. rewrite He in Hpe.
  eapply find_entry_some; [apply HC|apply HC|done|apply Hpe|done].
Qed.

Lemma slot_bounds k : 0 <= slot (hash_size m) k < hash_size m.
Proof. apply slot_lt, HC. Qed.

End Core.

(** ** Finding a record *)

Lemma wp_get_rec w p (Q : JSMapRecord -> Prop) r : recs w !! p = Some r -> Q r -> wp (get_rec w p) Q.
Proof. intros E HQ. unfold get_rec. by rewrite E. Qed.

Lemma wp_find_in_chain w c k : key_wf k -> (forall p, p ∈ c -> exists r, recs w !! p = Some r /\ key_wf (key r)) ->
  wp (find_in_chain w c k) (fun r => match r with
    | Some p => p ∈ c /\ exists mr, recs w !! p = Some mr /\ canon (key mr) = canon k
    | None => forall p mr, p ∈ c -> recs w !! p = Some mr -> canon (key mr) <> canon k
    end).
Proof.
  intros Hk. induction c as [|p c IH]; intros Hc; cbn [find_in_chain]; [apply wp_ret; set_solver|].
  destruct (Hc p ltac:(set_solver)) as (r & Hr & Hkr). wp_step. eapply wp_get_rec; [done|].
  destruct (same_value_canon (key r) k Hkr Hk) as (b & -> & Hb). cbn [mbind outcome_bind]. destruct b.
  - apply wp_ret. split; [set_solver|]. exists r. split; [done|]. by apply Hb.
  - eapply wp_mono; [apply IH; set_solver|]. intros [q|].
    + intros [Hq He]. split; [set_solver|done].
    + intros Hn q mr [->|Hq]%elem_of_cons Hmr E; [|by apply (Hn q mr)]. simplify_eq. by apply Hb in E.
Qed.

Lemma wp_map_find_record w es pos lk k : core (recs w) (mstate w) es pos lk -> key_wf k ->
  wp (map_find_record w k) (fun r => match r with
    | Some p => exists mr, recs w !! p = Some mr /\ empty mr = false /\ find_entry k es = Some (pos p)
    | None => find_entry k es = None /\ forall i k' v, es !! i = Some (Some (k', v)) -> canon k' <> canon k
    end).
Proof.
  intros HC Hk. unfold map_find_record. pose proof (slot_bounds HC k) as Hb. destruct (c_size _ _ _ _ _ HC) as [_ Hz].
  apply wp_bind, wp_rd; [rewrite Hz; exact Hb|]. intros c Ec. fold (slot (hash_size (mstate w)) k) in Ec.
  assert (Hc : forall p, p ∈ c <-> exists r, recs w !! p = Some r /\ empty r = false /\ slot (hash_size (mstate w)) (key r) = slot (hash_size (mstate w)) k).
  { intros p. rewrite (c_chain _ _ _ _ _ HC _ _ p Ec), Z2Nat.id by lia. done. }
  assert (Hent : forall p r, recs w !! p = Some r -> empty r = false -> es !! pos p = Some (Some (key r, value r))).
  { intros p r E He. rewrite (c_entry _ _ _ _ _ HC p r E). by rewrite He. }
  eapply wp_mono; [apply wp_find_in_chain; [done|]|].
  - intros p (r & Hr & He & _)%Hc. exists r. split; [done|]. eapply (c_wf _ _ _ _ _ HC), Hent; done.
  - intros [p|].
    + intros [Hp (mr & Hmr & E)]. apply Hc in Hp as (r & Hr & He & _). simplify_eq. exists r. split_and!; [done..|]. by eapply core_find_some.
    + intros Hn. assert (Hno : forall i k' v, es !! i = Some (Some (k', v)) -> canon k' <> canon k).
      { intros i k' v Ei. destruct (c_record _ _ _ _ _ HC i k' v Ei) as (p & r & Hr & He & <-). rewrite (Hent p r Hr He) in Ei. simplify_eq.
        intros E. apply (Hn p r); [|done|done]. apply Hc. exists r. split_and!; [done..|]. unfold slot. by rewrite <- hash_canon, E, hash_canon. }
      split; [|done]. apply find_entry_none; [|done]. intros i k' v Ei. split; [by apply (c_wf _ _ _ _ _ HC i k' v)|by apply (Hno i k' v)].
Qed.

(** ** The table *)

(** The chains of the records of [P]. *)
Definition chains (R : gmap ptr JSMapRecord) (n : Z) (P : ptr -> Prop) (t : list (list ptr)) : Prop :=
  zlen t = n /\ forall i c p, t !! i = Some c ->
    (p ∈ c <-> P p /\ exists r, R !! p = Some r /\ empty r = false /\ slot n (key r) = Z.of_nat i).

Lemma wp_add_chain R n P t p r : 0 < n < 2 ^ 31 -> chains R n P t -> R !! p = Some r -> empty r = false ->
  wp (add_chain t (slot n (key r)) p) (chains R n (fun q => P q \/ q = p)).
Proof.
  intros Hn [Hz Hc] Hp He. pose proof (slot_lt n (key r) Hn) as Hs. unfold add_chain. apply wp_bind, wp_rd; [lia|]. intros c Ec.
  apply wp_wr; [lia|]. split; [by rewrite zlen_insert|]. intros i c' q. pose proof (lookup_lt_Some _ _ _ Ec).
  destruct (decide (i = Z.to_nat (slot n (key r)))) as [->|Hi].
  - rewrite list_lookup_insert_eq by done. intros [= <-]. rewrite elem_of_app, list_elem_of_singleton, (Hc _ _ q Ec), Z2Nat.id by lia.
    split; [intros [[? ?]| ->]|intros [[HP| ->] Hx]]; eauto. split; [auto|]. exists r. split_and!; done.
  - rewrite list_lookup_insert_ne by done. intros Ec'. rewrite (Hc _ _ q Ec'). split; [naive_solver|]. intros [[HP| ->] Hx]; [eauto|].
    destruct Hx as (r' & Hr' & _ & Hs'). simplify_eq. lia.
Qed.

Lemma wp_rehash w n : 0 < n < 2 ^ 31 -> (forall p, p ∈ records (mstate w) -> is_Some (recs w !! p)) ->
  wp (rehash w n) (chains (recs w) n (fun p => p ∈ records (mstate w))).
Proof.
  intros Hn Hl. unfold rehash.
  apply (wp_foldM (fun t rest => exists dn, records (mstate w) = dn ++ rest /\ chains (recs w) n (fun p => p ∈ dn) t)).
  - intros t p rest (dn & E & Ht). destruct (Hl p ltac:(rewrite E; set_solver)) as [r Hr]. wp_step. eapply wp_get_rec; [done|].
    assert (E' : records (mstate w) = (dn ++ [p]) ++ rest) by (by rewrite <- app_assoc). destruct (empty r) eqn:He.
    + apply wp_ret. exists (dn ++ [p]). split; [done|]. destruct Ht as [Hz Hc]. split; [done|]. intros i c q Ec.
      rewrite (Hc i c q Ec), elem_of_app, list_elem_of_singleton. split; [naive_solver|]. intros [[Hq| ->] (r' & Hr' & He' & Hs)]; [eauto|congruence].
    + eapply wp_mono; [by eapply (wp_add_chain (recs w) n)|]. intros t' [Hz Hc]. exists (dn ++ [p]). split; [done|]. split; [done|].
      intros i c q Ec. rewrite (Hc i c q Ec). by rewrite elem_of_app, list_elem_of_singleton.
  - intros t (dn & E & Ht). rewrite app_nil_r in E. by rewrite E.
  - exists []. split; [done|]. split; [unfold zlen; rewrite length_replicate; lia|]. intros i c p Ec. apply lookup_replicate in Ec as [-> _]. set_solver.
Qed.

(** ** Changes of the records *)

Lemma u32_add_idemp x y : u32 (u32 x + y) = u32 (x + y).
Proof. apply Z.add_mod_idemp_l. lia. Qed.
Lemma u32_sub_idemp x y : u32 (u32 x - y) = u32 (x - y).
Proof. apply Zminus_mod_idemp_l. Qed.

Lemma sorted_unlink pos p l : StronglySorted (fun p q => (pos p < pos q)%nat) l -> StronglySorted (fun p q => (pos p < pos q)%nat) (unlink p l).
Proof.
  induction 1 as [|q l Hs IH Hf]; [constructor|]. unfold unlink in *. rewrite filter_cons. case_decide; [|done]. constructor; [done|].
  rewrite Forall_forall in *. intros x [_ Hx]%list_elem_of_filter. auto.
Qed.
Lemma elem_of_unlinked p q l : q ∈ unlink p l <-> q ∈ l /\ q <> p.
Proof. unfold unlink. rewrite list_elem_of_filter. naive_solver. Qed.
Lemma lookup_unlink_table p (t : list (list ptr)) i c : (unlink p <$> t) !! i = Some c -> exists c0, t !! i = Some c0 /\ c = unlink p c0.
Proof. rewrite list_lookup_fmap. destruct (t !! i); naive_solver. Qed.

Section Changes.
Context {R : gmap ptr JSMapRecord} {m : JSMapState} {es : list entry} {pos : ptr -> nat} {lk : ptr -> Z} (HC : core R m es pos lk).

Lemma core_chains : chains R (hash_size m) (fun _ => True) (hash_table m).
Proof. split; [apply HC|]. intros i c p Ec. rewrite (c_chain _ _ _ _ _ HC i c p Ec). naive_solver. Qed.

Lemma core_resize t n th : 0 < n < 2 ^ 31 -> chains R n (fun p => p ∈ records m) t ->
  core R (mkMap (is_weak m) (records m) (record_count m) t n th) es pos lk.
Proof.
  intros Hn [Hz Hc]. destruct HC as [H1 H2 H3 H4 H5 H6 H7 H8 H9 H10 H11]. constructor; cbn; try done.
  intros i c p Ec. rewrite (Hc i c p Ec), H2. split; [naive_solver|]. intros (r & E & ?). split; eauto.
Qed.

Lemma core_add p k v t n : R !! p = None -> key_wf k -> (forall i k' v', es !! i = Some (Some (k', v')) -> canon k' <> canon k) ->
  chains (<[p := mkRecord 1 false k v]> R) (hash_size m) (fun _ => True) t -> n = u32 (record_count m + 1) ->
  core (<[p := mkRecord 1 false k v]> R) (set_count (set_lists m (records m ++ [p]) t) n) (es ++ [Some (k, v)])
    (fun q => if decide (q = p) then length es else pos q) lk.
Proof.
  intros Hp Hk Hno [Hz Hc] ->. pose proof (fun q => core_pos_lt HC q) as Hlt. destruct HC as [H1 H2 H3 H4 H5 H6 H7 H8 H9 H10 H11].
  assert (Hnew : forall i (e : entry), (es ++ [Some (k, v)]) !! i = Some e -> es !! i = Some e \/ i = length es /\ e = Some (k, v)).
  { intros i e [E|[Hi E]]%lookup_app_Some; [by left|right]. apply list_lookup_singleton_Some in E as [? <-]. split; [lia|done]. }
  assert (Hpl : p ∉ records m) by (rewrite H2, Hp; by intros [? ?]).
  constructor; cbn -[decide].
  - apply StronglySorted_app. split_and!; [|..]; [|..|repeat constructor].
    + intros a b Ha ->%list_elem_of_singleton. rewrite (decide_False (P := a = p)) by (intros ->; done). rewrite decide_True by done. by apply Hlt, H2.
    + revert H1 Hpl. clear. induction 1 as [|q l Hs IH Hf]; [constructor|]. intros Hpl. rewrite not_elem_of_cons in Hpl. destruct Hpl as [Hne Hpl]. constructor; [by apply IH|].
      rewrite Forall_forall in *. intros x Hx. rewrite !decide_False by (congruence || (intros ->; done)). auto.
  - intros q. rewrite elem_of_app, list_elem_of_singleton, H2. destruct (decide (q = p)) as [->|Hq]; [rewrite lookup_insert_eq; naive_solver|rewrite lookup_insert_ne by done; naive_solver].
  - intros q r. destruct (decide (q = p)) as [->|Hq].
    + rewrite lookup_insert_eq. intros [= <-]. cbn.
      by apply list_lookup_middle.
    + rewrite lookup_insert_ne by done. intros E. rewrite lookup_app_l by (apply Hlt; eauto). by apply H3.
  - intros i k' v' [E|[-> [= -> ->]]]%Hnew.
    + destruct (H4 i k' v' E) as (q & r & Hq & He & Hi). exists q, r. assert (q <> p) by congruence. rewrite lookup_insert_ne by done. by rewrite decide_False.
    + eexists p, _. rewrite lookup_insert_eq. by rewrite decide_True.
  - intros i k' v' [E|[-> [= -> ->]]]%Hnew; [by apply (H5 i k' v')|done].
  - intros i j k1 v1 k2 v2 [E1|[-> [= -> ->]]]%Hnew [E2|[-> [= -> ->]]]%Hnew E; [by apply (H6 i j k1 v1 k2 v2)|..]; [| |done].
    + by destruct (Hno i k1 v1 E1).
    + by destruct (Hno j k2 v2 E2).
  - by split; [apply H7|].
  - intros i c q Ec. rewrite (Hc i c q Ec). naive_solver.
  - intros q r. destruct (decide (q = p)) as [->|Hq].
    + rewrite lookup_insert_eq. intros [= <-]. cbn. destruct (H10 p) as [Hl1 Hl2]. assert (~ 0 < lk p) by (intros Hl; destruct (Hl2 Hl); congruence). lia.
    + rewrite lookup_insert_ne by done. apply H9.
  - intros q. destruct (H10 q) as [Hl1 Hl2]. split; [done|]. intros Hl. destruct (decide (q = p)) as [->|Hq]; [rewrite lookup_insert_eq; eauto|rewrite lookup_insert_ne by done; auto].
  - intros Hw. rewrite (H11 Hw), u32_add_idemp. unfold live_count. by rewrite lsum_app.
Qed.

Lemma lookup_set_entry i j (e e' : entry) : <[i := e]> es !! j = Some e' -> (j = i /\ e' = e) \/ (j <> i /\ es !! j = Some e').
Proof. intros [(-> & -> & _)|[Hne E]]%list_lookup_insert_Some; [by left|right; done]. Qed.

(** A record that is changed, or deleted and locked. *)
Lemma core_update p r r' t n lk' : let e := if empty r' then None else Some (key r', value r') in
  R !! p = Some r -> (empty r' = false -> key r' = key r /\ empty r = false) ->
  chains (<[p := r']> R) (hash_size m) (fun _ => True) t ->
  ref_count r' = b2z (negb (empty r')) + lk' p -> 0 < ref_count r' -> 0 <= lk' p -> (forall q, q <> p -> lk' q = lk q) ->
  (is_weak m = false -> n = u32 (live_count (<[pos p := e]> es))) ->
  core (<[p := r']> R) (set_count (set_lists m (records m) t) n) (<[pos p := e]> es) pos lk'.
Proof.
  intros e Hp Hkey [Hz Hc] Hrc Hrc0 Hlk Hlk' Hn. pose proof (core_pos_lt HC) as Hlt. pose proof (core_pos_inj HC) as Hinj.
  destruct HC as [H1 H2 H3 H4 H5 H6 H7 H8 H9 H10 H11].
  assert (Hold : forall i k v, <[pos p := e]> es !! i = Some (Some (k, v)) -> exists v', es !! i = Some (Some (k, v'))).
  { intros i k v [[-> E]|[_ E]]%lookup_set_entry; [|eauto]. unfold e in E. destruct (empty r') eqn:He; [done|]. injection E as -> ->.
    destruct (Hkey eq_refl) as [-> Her]. rewrite (H3 p r Hp), Her. eauto. }
  constructor; cbn; try done.
  - intros q. rewrite H2. destruct (decide (q = p)) as [->|Hq]; [rewrite lookup_insert_eq, Hp; naive_solver|by rewrite lookup_insert_ne].
  - intros q rq. destruct (decide (q = p)) as [->|Hq].
    + rewrite lookup_insert_eq. intros [= <-]. apply list_lookup_insert_eq, Hlt. eauto.
    + rewrite lookup_insert_ne by done. intros E. rewrite list_lookup_insert_ne; [by apply H3|]. intros Ep. apply Hq. symmetry. apply Hinj; eauto.
  - intros i k v [[-> E]|[Hi E]]%lookup_set_entry.
    + exists p, r'. rewrite lookup_insert_eq. split_and!; [done| |done]. unfold e in E. by destruct (empty r').
    + destruct (H4 i k v E) as (q & rq & Hq & He & <-). exists q, rq. rewrite lookup_insert_ne by congruence. done.
  - intros i k v [v' E]%Hold. by apply (H5 i k v').
  - intros i j k v k' v' [w E]%Hold [w' E']%Hold. by apply (H6 i j k w k' w').
  - by split; [apply H7|].
  - intros i c q Ec. rewrite (Hc i c q Ec). naive_solver.
  - intros q rq. destruct (decide (q = p)) as [->|Hq]; [rewrite lookup_insert_eq; by intros [= <-]|].
    rewrite lookup_insert_ne by done. rewrite Hlk' by done. apply H9.
  - intros q. destruct (decide (q = p)) as [->|Hq]; [rewrite lookup_insert_eq; eauto|]. rewrite lookup_insert_ne, Hlk' by done. apply H10.
Qed.

(** A record that is freed. *)
Lemma core_remove p r t n lk' : R !! p = Some r -> chains (delete p R) (hash_size m) (fun _ => True) t -> lk' p = 0 ->
  (forall q, q <> p -> lk' q = lk q) -> (is_weak m = false -> n = u32 (live_count (<[pos p := None]> es))) ->
  core (delete p R) (set_count (set_lists m (unlink p (records m)) t) n) (<[pos p := None]> es) pos lk'.
Proof.
  intros Hp [Hz Hc] Hlk Hlk' Hn. pose proof (core_pos_inj HC) as Hinj. destruct HC as [H1 H2 H3 H4 H5 H6 H7 H8 H9 H10 H11].
  assert (Hold : forall i k v, <[pos p := None]> es !! i = Some (Some (k, v)) -> i <> pos p /\ es !! i = Some (Some (k, v))).
  { intros i k v [[-> E]|E]%lookup_set_entry; [done|done]. }
  constructor; cbn; try done.
  - by apply sorted_unlink.
  - intros q. rewrite elem_of_unlinked, H2. destruct (decide (q = p)) as [->|Hq]; [rewrite lookup_delete_eq, is_Some_alt; naive_solver|rewrite lookup_delete_ne by done; naive_solver].
  - intros q rq [Hq E]%lookup_delete_Some. rewrite list_lookup_insert_ne; [by apply H3|]. intros Ep. apply Hq. apply Hinj; eauto.
  - intros i k v [Hi E]%Hold. destruct (H4 i k v E) as (q & rq & Hq & He & <-). exists q, rq. rewrite lookup_delete_ne by congruence. done.
  - intros i k v [_ E]%Hold. by apply (H5 i k v).
  - intros i j k v k' v' [_ E]%Hold [_ E']%Hold. by apply (H6 i j k v k' v').
  - by split; [apply H7|].
  - intros i c q Ec. rewrite (Hc i c q Ec). naive_solver.
  - intros q rq [Hq E]%lookup_delete_Some. rewrite Hlk' by done. by apply H9.
  - intros q. destruct (decide (q = p)) as [->|Hq]; [rewrite Hlk; split; [done|lia]|]. rewrite lookup_delete_ne, Hlk' by done. apply H10.
Qed.
End Changes.

(** The chains after these changes. *)
Lemma chains_unlink_delete R n t p : chains R n (fun _ => True) t -> chains (delete p R) n (fun _ => True) (unlink p <$> t).
Proof.
  intros [Hz Hc]. split; [unfold zlen; by rewrite length_fmap|]. intros i c q (c0 & Ec & ->)%lookup_unlink_table.
  rewrite elem_of_unlinked, (Hc i c0 q Ec). split.
  - intros [[_ (r & E & Hr)] Hq]. split; [done|]. exists r. by rewrite lookup_delete_ne.
  - intros [_ (r & [Hq E]%lookup_delete_Some & Hr)]. split; [eauto|done].
Qed.
Lemma chains_unlink_empty R n t p r : chains R n (fun _ => True) t -> empty r = true -> chains (<[p := r]> R) n (fun _ => True) (unlink p <$> t).
Proof.
  intros [Hz Hc] He. split; [unfold zlen; by rewrite length_fmap|]. intros i c q (c0 & Ec & ->)%lookup_unlink_table.
  rewrite elem_of_unlinked, (Hc i c0 q Ec). split.
  - intros [[_ (r' & E & Hr)] Hq]. split; [done|]. exists r'. by rewrite lookup_insert_ne.
  - intros [_ (r' & [[-> ->]|[Hq E]]%lookup_insert_Some & Hr)]; [naive_solver congruence|]. split; [eauto|done].
Qed.
Lemma chains_update R n t p r r' : chains R n (fun _ => True) t -> R !! p = Some r -> empty r' = empty r -> (empty r = false -> key r' = key r) ->
  chains (<[p := r']> R) n (fun _ => True) t.
Proof.
  intros [Hz Hc] Hp He Hk. split; [done|]. intros i c q Ec. rewrite (Hc i c q Ec). destruct (decide (q = p)) as [->|Hq]; [|by rewrite lookup_insert_ne].
  rewrite lookup_insert_eq. split; intros [_ (x & E & Hx & Hs)]; simplify_eq; split; try done; eexists; (split; [done|]).
  - rewrite He, Hk by done. done.
  - rewrite He in Hx. rewrite <- Hk by done. done.
Qed.
Lemma chains_drop R n t p r : chains R n (fun _ => True) t -> R !! p = Some r -> empty r = true -> chains (delete p R) n (fun _ => True) t.
Proof.
  intros [Hz Hc] Hp He. split; [done|]. intros i c q Ec. rewrite (Hc i c q Ec). split; intros [_ (x & E & Hx)]; split; try done; exists x.
  - rewrite lookup_delete_ne by (intros ->; naive_solver congruence). done.
  - by apply lookup_delete_Some in E as [_ E].
Qed.

(** ** The methods *)

Lemma held_insert weak es i (e e' : entry) v : es !! i = Some e ->
  held weak (<[i := e']> es) v = held weak es v - entry_refs weak v e + entry_refs weak v e'.
Proof. apply lsum_insert. Qed.
Lemma held_app weak es (e : entry) v : held weak (es ++ [e]) v = held weak es v + entry_refs weak v e.
Proof. unfold held. rewrite lsum_app. cbn. unfold lsum. cbn. lia. Qed.
Lemma live_count_insert es i (e e' : entry) : es !! i = Some e ->
  live_count (<[i := e']> es) = live_count es - b2z (bool_decide (is_Some e)) + b2z (bool_decide (is_Some e')).
Proof. intros E. unfold live_count. by rewrite (lsum_insert _ es i e). Qed.

Lemma cursors_ext pos pos' (its : gmap ptr JSMapIteratorData) (cs : gmap ptr (JSIteratorKindEnum * option nat)) :
  (forall q, option_Forall2 (cursor_rel pos) (its !! q) (cs !! q)) ->
  (forall p, 0 < locks its p -> pos' p = pos p) -> forall q, option_Forall2 (cursor_rel pos') (its !! q) (cs !! q).
Proof.
  intros H Hpos q. specialize (H q). destruct (its !! q) as [it|] eqn:E; inversion H as [? c (H1 & H2 & H3)|]; subst; constructor.
  split_and!; [done| |done]. rewrite H2. destruct (it_obj it); [|done]. destruct (cur_record it) as [p|] eqn:Ec; [|done]. do 2 f_equal. symmetry. apply Hpos.
  unfold locks. rewrite (msum_delete _ its q it E), Ec. rewrite bool_decide_eq_true_2 by done.
  enough (0 <= msum (fun it => b2z (bool_decide (cur_record it = Some p))) (delete q its)) by (cbn [b2z]; lia).
  apply msum_nonneg. intros. by case_bool_decide.
Qed.

Section Methods.
Context `{MapAllocator} (is_set : bool).
(** A table has less than 2^31 chains: its memory is less than 2^35 bytes. *)
Context (small_tables : forall n u, table_realloc n = Some u -> n < 2 ^ 35 /\ u < 2 ^ 35).

Lemma wp_map_hash_resize w es pos lk : core (recs w) (mstate w) es pos lk ->
  wp (map_hash_resize w) (fun w' => exists m', w' = set_mstate w m' /\ is_weak m' = is_weak (mstate w) /\ core (recs w) m' es pos lk).
Proof.
  intros HC. unfold map_hash_resize. destruct (c_size _ _ _ _ _ HC) as [Hs _].
  set (n0 := if hash_size (mstate w) =? 1 then 4 else u32 (hash_size (mstate w) * 2)). destruct (table_realloc _) as [u|] eqn:Eu.
  2:{ apply wp_ret. exists (mstate w). split; [by destruct w|done]. }
  destruct (small_tables _ _ Eu) as [Hn Hu]. unfold sizeof_list_head in *.
  assert (0 < n0) by (unfold n0; destruct (Z.eqb_spec (hash_size (mstate w)) 1); [done|]; rewrite u32_small by lia; lia).
  assert (Hn0 : 0 < n0 < 2 ^ 31) by lia.
  set (sl := if 16 * n0 <? u then u - 16 * n0 else 0). assert (Hsl : 0 <= sl / 16 /\ n0 + sl / 16 < 2 ^ 31) by (unfold sl; clearbody n0; destruct (Z.ltb_spec (16 * n0) u); Z.to_euclidean_division_equations; lia).
  rewrite (u32_small (n0 + sl / 16)) by lia. wp_step. eapply wp_mono.
  - apply wp_rehash; [lia|]. intros p Hp. by apply (c_listed _ _ _ _ _ HC).
  - intros t Ht. apply wp_ret. eexists. split; [done|]. split; [done|]. apply core_resize; [done|lia|done].
Qed.

(** A new record; [js_map_set] gives it its value. *)
Lemma wp_map_add_record w es pos lk k : core (recs w) (mstate w) es pos lk -> key_wf k ->
  (forall i k' v', es !! i = Some (Some (k', v')) -> canon k' <> canon k) -> (is_weak (mstate w) = true -> JS_IsObject k = true) ->
  wp (map_add_record w k) (fun '(r, w') => match r with
    | None => w' = w
    | Some p => recs w !! p = None /\ recs w' = <[p := mkRecord 1 false k JS_UNDEFINED]> (recs w) /\
        iters w' = iters w /\ is_weak (mstate w') = is_weak (mstate w) /\
        core (recs w') (mstate w') (es ++ [Some (k, JS_UNDEFINED)]) (fun q => if decide (q = p) then length es else pos q) lk /\
        (forall v, refs w' v = refs w v + (if is_weak (mstate w) then 0 else is_val v k)) /\
        (is_weak (mstate w) = true -> forall o, k = JS_OBJECT o ->
          first_weak_ref w' = <[o := p :: default [] (first_weak_ref w !! o)]> (first_weak_ref w))
    end).
Proof.
  intros HC Hk Hno Hobj. unfold map_add_record. destruct (record_alloc (recs w)) as [p|] eqn:Ep; [|by apply wp_ret].
  pose proof (record_fresh _ _ Ep) as Hp. apply wp_bind.
  apply (wp_mono _ (fun w1 => recs w1 = recs w /\ mstate w1 = mstate w /\ iters w1 = iters w /\
     (forall v, refs w1 v = refs w v + (if is_weak (mstate w) then 0 else is_val v k)) /\
     (is_weak (mstate w) = true -> forall o, k = JS_OBJECT o -> first_weak_ref w1 = <[o := p :: default [] (first_weak_ref w !! o)]> (first_weak_ref w)))).
  { destruct (is_weak (mstate w)) eqn:Ew.
    - destruct k; try (by specialize (Hobj eq_refl)). apply wp_ret. cbn. split_and!; try done; [intros; lia|]. by intros _ o [= ->].
    - apply wp_ret. cbn. split_and!; done. }
  intros w1 (E1 & E2 & E3 & E4 & E5). set (r := mkRecord 1 false k JS_UNDEFINED).
  assert (Hch : chains (<[p := r]> (recs w)) (hash_size (mstate w)) (fun q => q <> p) (hash_table (mstate w))).
  { destruct (core_chains HC) as [Hz Hc]. split; [done|]. intros i c q Ec. rewrite (Hc i c q Ec).
    split; intros [Hq (r' & E & Hr)].
    - assert (q <> p) by congruence. split; [done|]. exists r'. by rewrite lookup_insert_ne.
    - rewrite lookup_insert_ne in E by done. eauto. }
  apply wp_bind. cbn [mstate set_rec set_recs recs]. rewrite E2. eapply wp_mono.
  { apply (wp_add_chain (<[p := r]> (recs w)) (hash_size (mstate w)) (fun q => q <> p) _ p r); [apply HC|done|by rewrite lookup_insert_eq|done]. }
  intros t [Hz Ht]. assert (HC1 : core (<[p := r]> (recs w)) (set_count (set_lists (mstate w) (records (mstate w) ++ [p]) t) (u32 (record_count (mstate w) + 1)))
    (es ++ [Some (k, JS_UNDEFINED)]) (fun q => if decide (q = p) then length es else pos q) lk).
  { apply core_add; try done. split; [done|]. intros i c q Ec. rewrite (Ht i c q Ec). split; [naive_solver|]. intros [_ Hr]. split; [|done].
    destruct (decide (q = p)); auto. }
  apply wp_bind. cbn [mstate set_mstate]. destruct (_ <=? _).
  - eapply wp_mono.
    { apply wp_map_hash_resize. cbn [mstate set_mstate recs set_rec set_recs]. rewrite E1. exact HC1. }
    intros w' (m' & -> & Hwk & HC'). cbn in *. rewrite E1 in *. split_and!; try done.
  - cbn. rewrite E1. split_and!; done.
Qed.

(** The call answers as the specification may, and the invariant holds again. *)
Definition simulates (w : world) (s : spec) (g : jsval -> Z) (op : map_op) : Prop :=
  wp (exec is_set w op) (fun '(r, w') => exists s' pos', spec_step (is_weak (mstate w)) is_set s op r s' /\
    is_weak (mstate w') = is_weak (mstate w) /\ refines w' s' (fun v => g v + given r v) pos').

Lemma insert_last (es : list entry) x y : <[length es := y]> (es ++ [x]) = es ++ [y].
Proof. induction es as [|e es IH]; [done|]. exact (f_equal (cons e) IH). Qed.

Lemma map_eta m : set_count (set_lists m (records m) (hash_table m)) (record_count m) = m.
Proof. by destruct m. Qed.

Lemma refines_same w s g pos r : refines w s g pos -> (forall v, given r v = 0) -> refines w s (fun v => g v + given r v) pos.
Proof. intros [H1 H2 H3 H4] Hr. constructor; try done. intros v. rewrite H4, Hr. lia. Qed.

Lemma weak_ok_add (R : gmap ptr JSMapRecord) fw p o r : weak_ok R fw -> R !! p = None -> empty r = false -> key r = JS_OBJECT o ->
  weak_ok (<[p := r]> R) (<[o := p :: default [] (fw !! o)]> fw).
Proof.
  intros [K1 K2 K3] Hp He Hk. assert (Hnew : forall o', p ∉ default [] (fw !! o')) by (intros o' Hin; destruct (K2 o' p Hin) as (? & ? & _); congruence).
  constructor.
  - intros q r' [[-> <-]|[Hq E]]%lookup_insert_Some.
    + split; [done|]. exists o. split; [done|]. rewrite lookup_insert_eq. set_solver.
    + destruct (K1 q r' E) as [He' (o' & Hk' & Hin)]. split; [done|]. exists o'. split; [done|]. destruct (decide (o' = o)) as [->|Ho]; [rewrite lookup_insert_eq; set_solver|by rewrite lookup_insert_ne].
  - intros o' q. destruct (decide (o' = o)) as [->|Ho].
    + rewrite lookup_insert_eq. cbn. intros [->|Hq]%elem_of_cons; [exists r; by rewrite lookup_insert_eq|].
      destruct (K2 o q Hq) as (r' & E & Hr'). exists r'. rewrite lookup_insert_ne by congruence. done.
    + rewrite lookup_insert_ne by done. intros Hq. destruct (K2 o' q Hq) as (r' & E & Hr'). exists r'. rewrite lookup_insert_ne by congruence. done.
  - intros o'. destruct (decide (o' = o)) as [->|Ho]; [rewrite lookup_insert_eq; cbn; by apply NoDup_cons_2|by rewrite lookup_insert_ne].
Qed.

Lemma weak_ok_update (R : gmap ptr JSMapRecord) fw p r r' : weak_ok R fw -> R !! p = Some r -> empty r' = empty r -> key r' = key r -> weak_ok (<[p := r']> R) fw.
Proof.
  intros [K1 K2 K3] Hp He Hk. constructor; [| |done].
  - intros q x [[-> <-]|[Hq E]]%lookup_insert_Some; [rewrite He, Hk|]; by apply K1.
  - intros o q Hq. destruct (K2 o q Hq) as (x & E & Hx). destruct (decide (q = p)) as [->|Hne]; [rewrite lookup_insert_eq|rewrite lookup_insert_ne by done; eauto].
    exists r'. split; [done|]. rewrite Hk. by simplify_eq.
Qed.

Lemma sim_set w s g pos k v : refines w s g pos -> key_wf (map_normalize_key k) -> simulates w s g (Op_set k v).
Proof.
  intros HR Hk. unfold simulates, exec, js_map_set. set (k1 := map_normalize_key k) in *.
  assert (Hobj : JS_IsObject k1 = JS_IsObject k) by (unfold k1, map_normalize_key; destruct k; try done; by destruct (float64_eq _ _)).
  destruct (is_weak (mstate w) && negb (JS_IsObject k1)) eqn:Ew.
  { apply andb_true_iff in Ew as [Ew Eo]. rewrite Hobj in Eo. apply negb_true_iff in Eo. apply wp_ret. exists s, pos.
    split_and!; [by apply S_set_type|done|]. by apply refines_same. }
  assert (Hwo : is_weak (mstate w) = true -> JS_IsObject k1 = true) by (intros E; rewrite E in Ew; by apply negb_false_iff in Ew).
  pose proof (r_core _ _ _ _ HR) as HC. apply wp_bind. eapply wp_mono; [by eapply wp_map_find_record|]. cbv beta. intros [p|].
  - intros (mr & Hp & He & Hf). apply wp_bind, wp_bind. eapply wp_get_rec; [done|]. apply wp_ret. apply wp_bind. eapply wp_get_rec; [done|]. apply wp_ret.
    pose proof (c_entry _ _ _ _ _ HC p mr Hp) as Hent. rewrite He in Hent.
    exists (mkSpec (<[pos p := Some (key mr, v)]> (entries s)) (cursors s)), pos. split_and!; [|done|].
    { pose proof (S_set (is_weak (mstate w)) is_set s k v) as Hst. fold k1 in Hst. unfold set_entry in Hst. rewrite Hf, Hent in Hst. apply Hst. by rewrite <- Hobj. }
    destruct HR as [_ H2 H3 H4]. constructor; cbn; try done.
    + rewrite <- (map_eta (mstate w)), He.
      pose proof (core_update HC p mr (mkRecord (ref_count mr) false (key mr) v) (hash_table (mstate w)) (record_count (mstate w)) (locks (iters w))) as HU.
      cbn in HU. destruct (c_count _ _ _ _ _ HC p mr Hp) as [Hc1 Hc2]. rewrite He in Hc1. apply HU; try done.
      * eapply chains_update; [by eapply core_chains|done|done|done].
      * apply HC.
      * intros Hw. rewrite (c_total _ _ _ _ _ HC Hw). rewrite (live_count_insert _ _ (Some (key mr, value mr))) by done. f_equal. cbn. lia.
    + intros Hw. destruct (H3 Hw) as [Hi Hk3]. split; [done|]. rewrite He. by eapply weak_ok_update.
    + intros u. rewrite (held_insert _ _ _ (Some (key mr, value mr))), H4 by done. unfold entry_refs, is_val. cbn. lia.
  - intros [Hf Hno]. apply wp_bind. eapply wp_mono; [by eapply wp_map_add_record|]. cbv beta. intros [[p|] w1].
    2:{ intros ->. apply wp_ret. exists s, pos. split_and!; [by apply S_set_oom|done|by apply refines_same]. }
    intros (Hp & E1 & E2 & E3 & HC1 & E4 & E5). apply wp_bind. eapply wp_get_rec; [by rewrite E1, lookup_insert_eq|]. apply wp_ret. cbn.
    assert (Hlk0 : locks (iters w) p = 0).
    { destruct (c_locked _ _ _ _ _ HC p) as [Hl1 Hl2]. enough (~ 0 < locks (iters w) p) by lia. intros Hl. destruct (Hl2 Hl). congruence. }
    exists (mkSpec (entries s ++ [Some (k1, v)]) (cursors s)), (fun q => if decide (q = p) then length (entries s) else pos q).
    split_and!; [| |]; [|done|].
    { pose proof (S_set (is_weak (mstate w)) is_set s k v) as Hst. fold k1 in Hst. unfold set_entry in Hst. rewrite Hf in Hst. apply Hst. by rewrite <- Hobj. }
    destruct HR as [_ H2 H3 H4]. constructor; cbn -[decide]; try done.
    + rewrite <- (map_eta (mstate w1)). rewrite E2. rewrite E1 in *.
      pose proof (core_update HC1 p _ (mkRecord 1 false k1 v) (hash_table (mstate w1)) (record_count (mstate w1)) (locks (iters w)) (lookup_insert_eq _ _ _)) as HU.
      cbn -[decide] in HU. rewrite decide_True in HU by done. rewrite insert_last in HU. apply HU; try done.
      * eapply chains_update; [by eapply core_chains|by rewrite lookup_insert_eq|done|done].
      * by rewrite Hlk0.
      * by rewrite Hlk0.
      * intros Hw. rewrite (c_total _ _ _ _ _ HC1 Hw). unfold live_count. by rewrite !lsum_app.
    + rewrite E2. eapply cursors_ext; [done|]. intros q Hq. rewrite decide_False; [done|]. intros ->. lia.
    + rewrite E3. intros Hw. destruct (H3 Hw) as [Hi Hk3]. rewrite E2. split; [done|]. specialize (Hwo Hw). destruct k1 as [| | | | | | |o|]; try done.
      rewrite E1, insert_insert_eq, (E5 Hw o) by done. by apply weak_ok_add.
    + intros u. rewrite E3, held_app, E4, H4. unfold entry_refs, is_val. cbn. lia.
Qed.

Lemma sim_get w s g pos k : refines w s g pos -> key_wf (map_normalize_key k) -> simulates w s g (Op_get k).
Proof.
  intros HR Hk. unfold simulates, exec, js_map_get. pose proof (r_core _ _ _ _ HR) as HC. apply wp_bind.
  eapply wp_mono; [by eapply wp_map_find_record|]. cbv beta. intros [p|].
  - intros (mr & Hp & He & Hf). apply wp_bind. eapply wp_get_rec; [done|]. apply wp_ret. pose proof (c_entry _ _ _ _ _ HC p mr Hp) as Hent. rewrite He in Hent.
    exists s, pos. split_and!; [by eapply S_get|done|]. destruct HR as [H1 H2 H3 H4]. constructor; try done. intros v. cbn. rewrite H4. unfold is_val. lia.
  - intros [Hf _]. apply wp_ret. exists s, pos. split_and!; [by apply S_get_none|done|by apply refines_same].
Qed.

Lemma sim_has w s g pos k : refines w s g pos -> key_wf (map_normalize_key k) -> simulates w s g (Op_has k).
Proof.
  intros HR Hk. unfold simulates, exec, js_map_has. apply wp_bind. eapply wp_mono; [eapply wp_map_find_record; [apply HR|done]|]. cbv beta.
  intros r Hr. apply wp_ret. exists s, pos. split_and!; [|done|by apply refines_same].
  replace (match r with Some _ => true | None => false end) with (bool_decide (is_Some (find_entry (map_normalize_key k) (entries s)))); [apply S_has|].
  destruct r as [p|]; [destruct Hr as (mr & _ & _ & ->)|destruct Hr as [-> _]]; [by apply bool_decide_eq_true_2|by apply bool_decide_eq_false_2, is_Some_None].
Qed.

(** *** Deletion *)

Lemma weak_ok_delete (R : gmap ptr JSMapRecord) fw p o r : weak_ok R fw -> R !! p = Some r -> key r = JS_OBJECT o ->
  weak_ok (delete p R) (<[o := unlink p (default [] (fw !! o))]> fw).
Proof.
  intros [K1 K2 K3] Hp Hk. constructor.
  - intros q r' [Hq E]%lookup_delete_Some. destruct (K1 q r' E) as [He (o' & Hk' & Hin)]. split; [done|]. exists o'. split; [done|].
    destruct (decide (o' = o)) as [->|Ho]; [rewrite lookup_insert_eq; by apply elem_of_unlinked|by rewrite lookup_insert_ne].
  - intros o' q Hq. assert (Hq' : q ∈ default [] (fw !! o') /\ q <> p).
    { destruct (decide (o' = o)) as [->|Ho]; [rewrite lookup_insert_eq in Hq; by apply elem_of_unlinked in Hq|]. rewrite lookup_insert_ne in Hq by done. split; [done|].
      intros ->. destruct (K2 o' p Hq) as (r' & E & Hk'). congruence. }
    destruct (K2 o' q (proj1 Hq')) as (r' & E & Hr'). exists r'. rewrite lookup_delete_ne by (intros ->; by destruct Hq'). done.
  - intros o'. destruct (decide (o' = o)) as [->|Ho]; [rewrite lookup_insert_eq; by apply NoDup_filter|by rewrite lookup_insert_ne].
Qed.

Lemma wp_map_delete_record w s g pos p r : refines w s g pos -> recs w !! p = Some r ->
  wp (map_delete_record w p) (fun w' => is_weak (mstate w') = is_weak (mstate w) /\ iters w' = iters w /\
    (records (mstate w') = records (mstate w) \/ records (mstate w') = unlink p (records (mstate w))) /\
    refines w' (mkSpec (<[pos p := None]> (entries s)) (cursors s)) g pos).
Proof.
  intros HR Hp. unfold map_delete_record. pose proof HR as [HC H2 H3 H4]. apply wp_bind. eapply wp_get_rec; [done|].
  pose proof (c_entry _ _ _ _ _ HC p r Hp) as Hent. destruct (c_count _ _ _ _ _ HC p r Hp) as [Hc1 Hc2]. destruct (empty r) eqn:He.
  { apply wp_ret. split_and!; [done..|by left|]. rewrite list_insert_id by done. by destruct s. }
  cbn in Hc1. pose proof (c_locked _ _ _ _ _ HC p) as [Hl _].
  assert (Hn : is_weak (mstate w) = false -> u32 (record_count (mstate w) - 1) = u32 (live_count (<[pos p := None]> (entries s)))).
  { intros Hw. rewrite (c_total _ _ _ _ _ HC Hw), u32_sub_idemp, (live_count_insert _ _ (Some (key r, value r))) by done. f_equal. cbn. lia. }
  apply wp_bind. apply (wp_mono _ (fun w1 => recs w1 = recs w /\ iters w1 = iters w /\ mstate w1 = mstate (del_hash_link w p) /\
    (forall v, refs w1 v = refs w v - (if is_weak (mstate w) then 0 else is_val v (key r))) /\
    (is_weak (mstate w) = true -> exists o, key r = JS_OBJECT o /\ first_weak_ref w1 = <[o := unlink p (default [] (first_weak_ref w !! o))]> (first_weak_ref w)))).
  { cbn. destruct (is_weak (mstate w)) eqn:Ew; [|by apply wp_ret]. destruct (H3 eq_refl) as [_ Hwk]. destruct (k_record _ _ Hwk p r Hp) as [_ (o & -> & Hin)].
    cbn. rewrite bool_decide_eq_true_2 by done. cbn. split_and!; [done..| |eauto]. intros; lia. }
  intros w1 (E1 & E2 & E3 & E4 & E5). cbv zeta.
  assert (Hch := core_chains HC). destruct (Z.eqb_spec (ref_count r - 1) 0) as [E0|E0]; apply wp_ret; cbn; rewrite E2, E3; cbn; (split_and!; [done..|auto|]).
  - constructor; cbn; [|by rewrite E2| |].
    + rewrite ?E1, ?E3, ?E2. cbn. eapply (core_remove HC); [done|by apply chains_unlink_delete|lia|done|done].
    + rewrite ?E1, ?E2, ?E3. cbn. intros Hw. destruct (H3 Hw) as [Hi Hwk]. destruct (E5 Hw) as (o & Hk & ->). split; [done|]. by eapply weak_ok_delete.
    + intros v. rewrite ?E3, E4, H4, (held_insert _ _ _ (Some (key r, value r))) by done. cbn. unfold is_val. destruct (is_weak _); lia.
  - constructor; cbn; [|by rewrite E2| |].
    + rewrite ?E1, ?E3, ?E2. cbn. pose proof (core_update HC p r (mkRecord (ref_count r - 1) true JS_UNDEFINED JS_UNDEFINED)) as HU. cbn in HU. apply HU; try done.
      * by apply chains_unlink_empty.
      * lia.
      * lia.
    + rewrite ?E1, ?E2, ?E3. cbn. intros Hw. destruct (H3 Hw) as [Hi _]. rewrite Hi in Hc1. unfold locks in Hc1. rewrite msum_empty in Hc1. lia.
    + intros v. rewrite ?E3, E4, H4, (held_insert _ _ _ (Some (key r, value r))) by done. cbn. unfold is_val. destruct (is_weak _); lia.
Qed.

Lemma sim_delete w s g pos k : refines w s g pos -> key_wf (map_normalize_key k) -> simulates w s g (Op_delete k).
Proof.
  intros HR Hk. unfold simulates, exec, js_map_delete. pose proof (r_core _ _ _ _ HR) as HC. apply wp_bind.
  eapply wp_mono; [by eapply wp_map_find_record|]. cbv beta. intros [p|].
  - intros (mr & Hp & He & Hf). apply wp_bind. eapply wp_mono; [by eapply wp_map_delete_record|]. cbv beta. intros w' (Hw & _ & _ & HR'). apply wp_ret.
    eexists _, pos. split_and!; [by apply S_delete|done|by apply refines_same].
  - intros [Hf _]. apply wp_ret. exists s, pos. split_and!; [by apply S_delete_none|done|by apply refines_same].
Qed.

(** *** All records *)

Lemma list_next_at pre p suf : NoDup (pre ++ p :: suf) -> list_next (pre ++ p :: suf) p = Ret (head suf).
Proof.
  induction pre as [|q pre IH]; cbn; [by rewrite decide_True|]. intros [Hq Hn]%NoDup_cons. rewrite decide_False by (intros ->; set_solver). by apply IH.
Qed.
Lemma unlink_id p l : p ∉ l -> unlink p l = l.
Proof. unfold unlink. induction l as [|q l IH]; [done|]. intros Hp. rewrite filter_cons, decide_True by set_solver. f_equal. set_solver. Qed.
Lemma unlink_at pre p suf : NoDup (pre ++ p :: suf) -> unlink p (pre ++ p :: suf) = pre ++ suf.
Proof.
  intros Hn. unfold unlink. rewrite filter_app, filter_cons, decide_False by (intros Hx; by apply Hx).
  apply NoDup_app in Hn as (_ & Hd & [Hp _]%NoDup_cons). f_equal; apply unlink_id; set_solver.
Qed.
Lemma core_records_NoDup R m es pos lk : core R m es pos lk -> NoDup (records m).
Proof. intros HC. eapply sorted_NoDup, HC. Qed.

Lemma all_none (es es' : list entry) : length es' = length es -> (forall i e, es' !! i = Some e -> e = None) -> es' = (fun _ => None) <$> es.
Proof.
  revert es. induction es' as [|e es' IH]; intros [|e0 es] Hl Hn; try done. cbn. f_equal; [by apply (Hn O)|]. apply IH; [by injection Hl|]. intros i. apply (Hn (S i)).
Qed.

Lemma sim_clear w s g pos : refines w s g pos -> simulates w s g Op_clear.
Proof.
  intros HR. unfold simulates, exec, js_map_clear. apply wp_bind.
  apply (wp_loop_ghost (fun '(el, w') n => exists s' pre suf, refines w' s' g pos /\ is_weak (mstate w') = is_weak (mstate w) /\
    records (mstate w') = pre ++ suf /\ el = head suf /\ n = zlen suf /\ cursors s' = cursors s /\ length (entries s') = length (entries s) /\
    forall i k v, entries s' !! i = Some (Some (k, v)) -> exists p, p ∈ suf /\ pos p = i)) with (m := zlen (records (mstate w))).
  - intros [el w'] n (s' & pre & suf & HR' & Hw & Er & -> & -> & Ec & El & Hlive). destruct suf as [|p suf]; cbn [head].
    + apply wp_ret, wp_ret. exists s', pos. split_and!; [|done|by apply refines_same].
      replace s' with (mkSpec ((fun _ : entry => None) <$> entries s) (cursors s)); [apply S_clear|]. destruct s' as [es' cs']; cbn in *; subst. f_equal.
      symmetry. apply all_none; [done|]. intros i [[k v]|] E; [|done]. destruct (Hlive i k v E) as (p & Hp & _). set_solver.
    + pose proof (core_records_NoDup _ _ _ _ _ (r_core _ _ _ _ HR')) as Hnd. rewrite Er in *. rewrite list_next_at by done. cbn [mbind outcome_bind].
      destruct (proj1 (c_listed _ _ _ _ _ (r_core _ _ _ _ HR') p)) as [r Hp]; [rewrite Er; set_solver|].
      apply wp_bind. eapply wp_mono; [by eapply wp_map_delete_record|]. cbv beta. intros w2 (Hw2 & _ & Hr2 & HR2). apply wp_ret.
      exists (zlen suf). split; [|rewrite zlen_cons; pose proof (zlen_nonneg suf); lia].
      assert (Hpos : forall i k v, entries s' !! i = Some (Some (k, v)) -> i <> pos p -> exists q, q ∈ suf /\ pos q = i).
      { intros i k v E Hi. destruct (Hlive i k v E) as (q & [->|Hq]%elem_of_cons & <-); [done|eauto]. }
      exists (mkSpec (<[pos p := None]> (entries s')) (cursors s')), (if decide (records (mstate w2) = pre ++ suf) then pre else pre ++ [p]), suf. cbn.
      split_and!; try done; [congruence| | |].
      * case_decide; [done|]. rewrite <- app_assoc. rewrite Er, unlink_at in Hr2 by done. naive_solver.
      * by rewrite length_insert.
      * intros i k v [[-> ?]|[Hi E]]%lookup_set_entry; [done|]. by eapply Hpos.
  - exists s, [], (records (mstate w)). split_and!; try done. intros i k v E.
    destruct (c_record _ _ _ _ _ (r_core _ _ _ _ HR) i k v E) as (p & r & Hp & _ & <-). exists p. split; [|done]. apply (c_listed _ _ _ _ _ (r_core _ _ _ _ HR)). eauto.
  - unfold zlen. lia.
Qed.

Lemma sim_size w s g pos : refines w s g pos -> is_weak (mstate w) = false -> simulates w s g Op_size.
Proof.
  intros HR Hw. unfold simulates, exec, js_map_get_size. apply wp_ret. exists s, pos. rewrite (c_total _ _ _ _ _ (r_core _ _ _ _ HR) Hw).
  split_and!; [apply S_size|done|by apply refines_same].
Qed.

(** *** Iterators *)

Lemma locks_fresh its q it p : its !! q = None -> cur_record it = None -> locks (<[q := it]> its) p = locks its p.
Proof. intros Hq Hc. unfold locks. rewrite msum_insert, Hc by done. by rewrite bool_decide_eq_false_2. Qed.
Lemma locks_update its q it it' p : its !! q = Some it ->
  locks (<[q := it']> its) p = locks its p - b2z (bool_decide (cur_record it = Some p)) + b2z (bool_decide (cur_record it' = Some p)).
Proof. intros Hq. unfold locks. by rewrite (msum_update _ its q it it') by done. Qed.
Lemma locks_delete its q it p : its !! q = Some it -> locks (delete q its) p = locks its p - b2z (bool_decide (cur_record it = Some p)).
Proof. intros Hq. unfold locks. rewrite (msum_delete _ its q it Hq). lia. Qed.
Lemma locks_pos its q it p : its !! q = Some it -> cur_record it = Some p -> 0 < locks its p.
Proof.
  intros Hq Hc. unfold locks. rewrite (msum_delete _ its q it Hq), Hc, bool_decide_eq_true_2 by done.
  enough (0 <= msum (fun it => b2z (bool_decide (cur_record it = Some p))) (delete q its)) by (cbn [b2z]; lia). apply msum_nonneg. intros. by case_bool_decide.
Qed.

Lemma core_locks_ext R m es pos lk lk' : core R m es pos lk -> (forall p, lk' p = lk p) -> core R m es pos lk'.
Proof.
  intros [H1 H2 H3 H4 H5 H6 H7 H8 H9 H10 H11] E. constructor; try done.
  - intros p r. rewrite E. apply H9.
  - intros p. rewrite E. apply H10.
Qed.

Lemma sim_iterator w s g pos kind : refines w s g pos -> is_weak (mstate w) = false -> simulates w s g (Op_iterator kind).
Proof.
  intros HR Hw. unfold simulates, exec, js_create_map_iterator. destruct (iter_alloc (iters w)) as [q|] eqn:Eq; apply wp_ret.
  - pose proof (iter_fresh _ _ Eq) as Hq. destruct HR as [HC H2 H3 H4]. eexists _, pos. split_and!; [apply S_iterator| |].
    + specialize (H2 q). rewrite Hq in H2. by inversion H2.
    + done.
    + constructor; cbn; [|..].
      * eapply core_locks_ext; [done|]. intros p. by apply locks_fresh.
      * intros p. destruct (decide (p = q)) as [->|Hp]; [rewrite !lookup_insert_eq; by repeat constructor|by rewrite !lookup_insert_ne].
      * congruence.
      * intros v. rewrite H4. lia.
  - exists s, pos. split_and!; [apply S_iterator_oom|done|by apply refines_same].
Qed.

(** A lock is taken or given back. *)
Lemma core_relock {R m es pos lk} (HC : core R m es pos lk) p r d : R !! p = Some r -> 0 <= lk p + d -> 0 < ref_count r + d ->
  core (<[p := mkRecord (ref_count r + d) (empty r) (key r) (value r)]> R) m es pos (fun q => lk q + (if decide (q = p) then d else 0)).
Proof.
  intros Hp Hl Hr. pose proof (c_entry _ _ _ _ _ HC p r Hp) as Hent. destruct (c_count _ _ _ _ _ HC p r Hp) as [Hc _].
  pose proof (core_update HC p r (mkRecord (ref_count r + d) (empty r) (key r) (value r)) (hash_table m) (record_count m) (fun q => lk q + (if decide (q = p) then d else 0))) as HU.
  cbn -[decide] in HU. rewrite map_eta, list_insert_id in HU by done. rewrite decide_True in HU by done. apply HU; try done; [by eapply chains_update; [by eapply core_chains|..]|lia|..].
  - intros q Hq. rewrite decide_False by done. lia.
  - apply HC.
Qed.

Lemma core_drop {R m es pos lk} (HC : core R m es pos lk) p r : R !! p = Some r -> empty r = true -> ref_count r = 1 ->
  core (delete p R) (set_lists m (unlink p (records m)) (hash_table m)) es pos (fun q => lk q + (if decide (q = p) then -1 else 0)).
Proof.
  intros Hp He Hr. pose proof (c_entry _ _ _ _ _ HC p r Hp) as Hent. rewrite He in Hent. destruct (c_count _ _ _ _ _ HC p r Hp) as [Hc _]. rewrite He in Hc. cbn in Hc.
  pose proof (core_remove HC p r (hash_table m) (record_count m) (fun q => lk q + (if decide (q = p) then -1 else 0))) as HU.
  cbn -[decide] in HU. rewrite list_insert_id in HU by done. rewrite decide_True in HU by done. apply HU; try done.
  - by eapply chains_drop; [by eapply core_chains|..].
  - lia.
  - intros q Hq. rewrite decide_False by done. lia.
  - apply HC.
Qed.

Lemma wp_map_decref_record w es pos lk p : core (recs w) (mstate w) es pos lk -> 0 < lk p ->
  wp (map_decref_record w p) (fun w' => exists R m, w' = set_mstate (set_recs w R) m /\ is_weak m = is_weak (mstate w) /\
    (records m = records (mstate w) \/ records m = unlink p (records (mstate w))) /\
    core R m es pos (fun q => lk q + (if decide (q = p) then -1 else 0))).
Proof.
  intros HC Hl. destruct (c_locked _ _ _ _ _ HC p) as [_ Hx]. destruct (Hx Hl) as [r Hp]. destruct (c_count _ _ _ _ _ HC p r Hp) as [Hc1 Hc2].
  unfold map_decref_record. apply wp_bind. eapply wp_get_rec; [done|]. destruct (Z.eqb_spec (ref_count r - 1) 0) as [E|E].
  - assert (He : empty r = true) by (destruct (empty r); [done|cbn in Hc1; lia]). rewrite He. apply wp_ret. eexists _, _.
    split; [done|]. split_and!; [done|by right|]. apply (core_drop HC p r); [done..|lia].
  - apply wp_ret. eexists _, (mstate w). split; [by unfold set_rec, set_recs, set_mstate|]. split_and!; [done|by left|]. apply (core_relock HC p r (-1)); [done|lia|lia].
Qed.

(** *** The next record *)

Lemma next_entry_none (es : list entry) : (forall i e, es !! i = Some e -> e = None) -> next_entry es = None.
Proof. induction es as [|e es IH]; intros Hn; [done|]. rewrite (Hn O e eq_refl). cbn. rewrite IH; [done|]. intros i. apply (Hn (S i)). Qed.
Lemma next_entry_some (es : list entry) j e : es !! j = Some (Some e) -> (forall i e, (i < j)%nat -> es !! i = Some e -> e = None) -> next_entry es = Some j.
Proof.
  revert j. induction es as [|e0 es IH]; intros j Hj Hn; [done|]. destruct j as [|j]; [by injection Hj as ->|].
  rewrite (Hn O e0 ltac:(lia) eq_refl). cbn. rewrite (IH j); [done|done|]. intros i e1 Hi. apply (Hn (S i)). lia.
Qed.

Lemma wp_skip_empty w es pos lk pre suf i : core (recs w) (mstate w) es pos lk -> records (mstate w) = pre ++ suf ->
  (forall p, p ∈ pre -> (pos p < i)%nat) -> (forall p, p ∈ suf -> (i <= pos p)%nat) ->
  wp (skip_empty w (head suf)) (fun r => match r with
    | None => next_entry (drop i es) = None
    | Some p => exists mr j, recs w !! p = Some mr /\ empty mr = false /\ pos p = (i + j)%nat /\ next_entry (drop i es) = Some j
    end).
Proof.
  intros HC Er Hpre Hsuf. pose proof (core_records_NoDup _ _ _ _ _ HC) as Hnd. pose proof (c_order _ _ _ _ _ HC) as Hso. rewrite Er in Hso.
  assert (Hlive : forall n k v, es !! (i + n)%nat = Some (Some (k, v)) -> exists p r, p ∈ suf /\ recs w !! p = Some r /\ empty r = false /\ pos p = (i + n)%nat).
  { intros n k v E. destruct (c_record _ _ _ _ _ HC _ k v E) as (p & r & Hp & He & Hx). exists p, r. split_and!; try done.
    assert (Hin : p ∈ pre ++ suf) by (rewrite <- Er; apply HC; eauto). apply elem_of_app in Hin as [Hin|Hin]; [|done]. specialize (Hpre p Hin). lia. }
  unfold skip_empty. apply (wp_loop_ghost (fun el n => exists dn rest, suf = dn ++ rest /\ el = head rest /\ n = zlen rest /\
    forall p r, p ∈ dn -> recs w !! p = Some r -> empty r = true)) with (m := zlen suf).
  - intros el n (dn & rest & -> & -> & -> & Hdn). destruct rest as [|p rest]; cbn [head].
    + apply wp_ret. apply next_entry_none. intros n [[k v]|] E; [|done]. rewrite lookup_drop in E. destruct (Hlive n k v E) as (p & r & Hp & Hr & He & _).
      rewrite app_nil_r in Hp. by rewrite (Hdn p r Hp Hr) in He.
    + destruct (proj1 (c_listed _ _ _ _ _ HC p)) as [r Hp]; [rewrite Er; set_solver|]. apply wp_bind. eapply wp_get_rec; [done|]. destruct (empty r) eqn:He; cbn [negb].
      * rewrite Er. replace (pre ++ dn ++ p :: rest) with ((pre ++ dn) ++ p :: rest) in * by (by rewrite <- app_assoc). rewrite list_next_at by congruence.
        apply wp_ret. exists (zlen rest). split; [|rewrite zlen_cons; pose proof (zlen_nonneg rest); lia].
        exists (dn ++ [p]), rest. split_and!; [by rewrite <- app_assoc|done..|]. intros q rq [Hq|Hq%list_elem_of_singleton]%elem_of_app; [by apply Hdn|congruence].
      * apply wp_ret. pose proof (Hsuf p ltac:(set_solver)) as Hge. exists r, (pos p - i)%nat. split_and!; try done; [lia|].
        apply (next_entry_some _ _ (key r, value r)).
        -- rewrite lookup_drop. replace (i + (pos p - i))%nat with (pos p) by lia. pose proof (c_entry _ _ _ _ _ HC p r Hp) as Hent. by rewrite He in Hent.
        -- intros n [[k v]|] Hn E; [|done]. rewrite lookup_drop in E. destruct (Hlive n k v E) as (q & rq & Hq & Hrq & Heq & Hpos).
           apply elem_of_app in Hq as [Hq|[->|Hq]%elem_of_cons]; [by rewrite (Hdn q rq Hq Hrq) in Heq|lia|].
           assert (pos p < pos q)%nat; [|lia]. apply (StronglySorted_app_1_elem_of (fun p q => (pos p < pos q)%nat) (pre ++ dn ++ [p]) rest p q); [|set_solver|done].
           by rewrite <- !app_assoc.
  - exists [], suf. split_and!; try done. set_solver.
  - rewrite Er. unfold zlen. rewrite length_app. lia.
Qed.

(** The iterator leaves its record; the rest of the list is where it goes on. *)
Lemma wp_leave w s g pos q it : refines w s g pos -> iters w !! q = Some it ->
  let i := match cur_record it with Some p => S (pos p) | None => O end in
  wp (match cur_record it with
      | None => Ret (head (records (mstate w)), w)
      | Some mr => el ← list_next (records (mstate w)) mr; w ← map_decref_record w mr; Ret (el, w)
      end)
    (fun '(el, w') => exists R m pre suf, w' = set_mstate (set_recs w R) m /\ is_weak m = is_weak (mstate w) /\
      core R m (entries s) pos (fun x => locks (iters w) x - b2z (bool_decide (cur_record it = Some x))) /\
      records m = pre ++ suf /\ el = head suf /\ (forall p, p ∈ pre -> (pos p < i)%nat) /\ (forall p, p ∈ suf -> (i <= pos p)%nat)).
Proof.
  intros [HC H2 H3 H4] Hq. cbv zeta. destruct (cur_record it) as [p|] eqn:Ec.
  - pose proof (locks_pos _ _ _ _ Hq Ec) as Hl. pose proof (core_records_NoDup _ _ _ _ _ HC) as Hnd. pose proof (c_order _ _ _ _ _ HC) as Hso.
    assert (Hin : p ∈ records (mstate w)) by (apply HC, (c_locked _ _ _ _ _ HC), Hl). apply list_elem_of_split in Hin as (pre & suf & Er).
    rewrite Er in *. rewrite list_next_at by done. cbn [mbind outcome_bind].
    change (wp (map_decref_record w p ≫= fun w' => Ret (head suf, w')) (fun '(el, w') => exists R m pre suf, w' = set_mstate (set_recs w R) m /\ is_weak m = is_weak (mstate w) /\
      core R m (entries s) pos (fun x => locks (iters w) x - b2z (bool_decide (Some p = Some x))) /\
      records m = pre ++ suf /\ el = head suf /\ (forall q, q ∈ pre -> (pos q < S (pos p))%nat) /\ (forall q, q ∈ suf -> (S (pos p) <= pos q)%nat))).
    apply wp_bind. eapply wp_mono; [by eapply wp_map_decref_record|]. cbv beta. intros w' (R & m & -> & Hw & Hr & HC'). apply wp_ret.
    exists R, m, (if decide (records m = pre ++ suf) then pre else pre ++ [p]), suf. rewrite Er, unlink_at in Hr by done.
    assert (Hpre : forall x, x ∈ pre -> (pos x < pos p)%nat) by (intros x Hx; apply (StronglySorted_app_1_elem_of (fun p q => (pos p < pos q)%nat) pre (p :: suf) x p); [done..|set_solver]).
    split_and!; [done|done| | |done| |].
    + eapply core_locks_ext; [done|]. intros x. case_bool_decide as Hx; [injection Hx as <-; rewrite decide_True by done|rewrite decide_False by congruence]; cbn; lia.
    + case_decide; [done|]. rewrite <- app_assoc. naive_solver.
    + intros x Hx. assert (Hx' : x ∈ pre \/ x = p) by (case_decide; set_solver). destruct Hx' as [Hx'| ->]; [specialize (Hpre x Hx')|]; lia.
    + intros x Hx. assert (pos p < pos x)%nat; [|lia]. apply (StronglySorted_app_1_elem_of (fun p q => (pos p < pos q)%nat) (pre ++ [p]) suf p x); [by rewrite <- app_assoc|set_solver|done].
  - apply wp_ret. exists (recs w), (mstate w), [], (records (mstate w)). split_and!; try done; [by destruct w| |set_solver|].
    + eapply core_locks_ext; [done|]. intros x. rewrite bool_decide_eq_false_2 by done. cbn. lia.
    + intros; lia.
Qed.

Lemma sim_next w s g pos q : refines w s g pos -> is_weak (mstate w) = false -> is_Some (iters w !! q) -> simulates w s g (Op_next q).
Proof.
  intros HR Hw [it Hq]. unfold simulates, exec, js_map_iterator_next. rewrite Hq. cbn [mbind outcome_bind].
  pose proof (r_iters _ _ _ _ HR q) as Hit. rewrite Hq in Hit. inversion Hit as [? [kind c] (Hk & Hcu & Hfin) E1 Ecur|]; subst. symmetry in Ecur. cbn in Hk, Hcu. subst kind c.
  destruct (it_obj it) eqn:Eo; cbn [negb].
  2:{ apply wp_ret. exists s, pos. split_and!; [by eapply S_next_done|done|by apply refines_same]. }
  apply wp_bind. eapply wp_mono; [by eapply wp_leave|]. cbv beta. intros [el w1] (R & m & pre & suf & -> & Hw1 & HC1 & Er & -> & Hpre & Hsuf).
  set (i := match cur_record it with Some p => S (pos p) | None => O end) in *. destruct HR as [HC H2 H3 H4].
  apply wp_bind. eapply wp_mono; [by apply (wp_skip_empty (set_mstate (set_recs w R) m) (entries s) pos _ pre suf i HC1)|]. cbv beta. intros [p|].
  - intros (mr & j & Hp & He & Hpos & Hn). cbn in Hp. apply wp_bind. eapply wp_get_rec; [done|].
    pose proof (c_entry _ _ _ _ _ HC1 p mr Hp) as Hent. rewrite He, Hpos in Hent. destruct (c_count _ _ _ _ _ HC1 p mr Hp) as [_ Hrc].
    pose proof (c_locked _ _ _ _ _ HC1 p) as [Hl1 _]. pose proof (core_relock HC1 p mr 1 Hp ltac:(lia) ltac:(lia)) as HC2.
    assert (HR2 : forall w2 r, w2 = set_refs (set_iters (set_rec (set_mstate (set_recs w R) m) p (mkRecord (ref_count mr + 1) (empty mr) (key mr) (value mr)))
        (<[q := mkIter true (it_kind it) (Some p)]> (iters w))) (refs w2) -> (forall v, refs w2 v = refs w v + given r v) ->
        refines w2 (mkSpec (entries s) (<[q := (it_kind it, Some (S (i + j)))]> (cursors s))) (fun v => g v + given r v) pos).
    { intros w2 r -> Hrf. constructor; cbn.
      - eapply core_locks_ext; [exact HC2|]. intros x. rewrite (locks_update _ _ _ _ _ Hq). cbn -[decide].
        destruct (decide (x = p)) as [->|Hx]; [rewrite (bool_decide_eq_true_2 (Some p = Some p)) by done|rewrite (bool_decide_eq_false_2 (Some p = Some x)) by congruence]; cbn; lia.
      - intros x. destruct (decide (x = q)) as [->|Hx]; [rewrite !lookup_insert_eq|by rewrite !lookup_insert_ne]. constructor. split_and!; cbn; [done| |done]. by rewrite Hpos.
      - congruence.
      - intros v. cbn in Hrf. rewrite Hw1, Hrf, H4. lia. }
    pose proof (S_next (is_weak (mstate w)) is_set s q (it_kind it) i j (key mr) (value mr) Ecur Hn Hent) as Hst. unfold item in Hst.
    destruct (it_kind it); apply wp_ret; eexists _, pos; (split_and!; [exact Hst|exact Hw1|]); (apply HR2; [done|]); intros v; cbn; unfold is_val; lia.
  - intros Hn. apply wp_ret. eexists _, pos. split_and!; [by eapply S_next_end|exact Hw1|]. constructor; cbn.
    + eapply core_locks_ext; [exact HC1|]. intros x. rewrite (locks_update _ _ _ _ _ Hq). cbn.
      rewrite (bool_decide_eq_false_2 (None = Some x)) by done. cbn. lia.
    + intros x. destruct (decide (x = q)) as [->|Hx]; [rewrite !lookup_insert_eq|by rewrite !lookup_insert_ne]. by repeat constructor.
    + congruence.
    + intros v. rewrite Hw1, H4. lia.
Qed.

Lemma sim_free_iterator w s g pos q : refines w s g pos -> is_weak (mstate w) = false -> is_Some (iters w !! q) -> simulates w s g (Op_free_iterator q).
Proof.
  intros HR Hw [it Hq]. unfold simulates, exec, js_map_iterator_finalizer. rewrite Hq. cbn [mbind outcome_bind]. destruct HR as [HC H2 H3 H4].
  assert (Hst : spec_step (is_weak (mstate w)) is_set s (Op_free_iterator q) R_undefined (mkSpec (entries s) (delete q (cursors s)))).
  { apply S_free_iterator. specialize (H2 q). rewrite Hq in H2. inversion H2. eauto. }
  assert (Hfree : forall w1 m R, w1 = set_mstate (set_recs w R) m -> is_weak m = is_weak (mstate w) ->
    core R m (entries s) pos (fun x => locks (iters w) x - b2z (bool_decide (cur_record it = Some x))) ->
    refines (set_iters w1 (delete q (iters w1))) (mkSpec (entries s) (delete q (cursors s))) (fun v => g v + given R_undefined v) pos).
  { intros w1 m R -> Hw1 HC1. constructor; cbn.
    - eapply core_locks_ext; [exact HC1|]. intros x. by rewrite (locks_delete _ _ _ _ Hq).
    - intros x. destruct (decide (x = q)) as [->|Hx]; [rewrite !lookup_delete_eq; constructor|by rewrite !lookup_delete_ne].
    - congruence.
    - intros v. rewrite Hw1, H4. lia. }
  pose proof (H2 q) as Hit. rewrite Hq in Hit. inversion Hit as [? c (_ & _ & Hfin)|]; subst. destruct (cur_record it) as [p|] eqn:Ec.
  - destruct (it_obj it); [|by specialize (Hfin eq_refl)]. apply wp_bind, wp_bind.
    eapply wp_mono; [eapply wp_map_decref_record; [exact HC|by eapply locks_pos]|]. cbv beta. intros w1 (R & m & E & Hw1 & _ & HC1). apply wp_ret, wp_ret.
    eexists _, pos. split_and!; [done|by subst|]. eapply Hfree; [done..|]. eapply core_locks_ext; [exact HC1|]. intros x.
    case_bool_decide as Hx; [injection Hx as <-; rewrite decide_True by done|rewrite decide_False by congruence]; cbn; lia.
  - apply wp_ret. eexists _, pos. split_and!; [done|done|]. eapply (Hfree w (mstate w) (recs w)); [by destruct w|done|].
    eapply core_locks_ext; [done|]. intros x. rewrite bool_decide_eq_false_2 by done. cbn. lia.
Qed.

(** *** A key of a weak map is released *)

Lemma canon_object k o : canon k = JS_OBJECT o -> k = JS_OBJECT o.
Proof. destruct k as [| | | |d| | | |]; try done. cbn. by destruct (isnan d). Qed.

Lemma collect_none (es : list entry) o : (forall i k v, es !! i = Some (Some (k, v)) -> key_wf k /\ k <> JS_OBJECT o) ->
  (fun e => if has_key (JS_OBJECT o) e then None else e) <$> es = es.
Proof.
  induction es as [|e es IH]; intros Hn; [done|]. rewrite fmap_cons. f_equal; [|apply IH; intros i; apply (Hn (S i))]. destruct e as [[k v]|]; [|done]. cbn [has_key].
  destruct (Hn O k v eq_refl) as [Hk Hne]. rewrite same_key_canon, bool_decide_eq_false_2; try done. intros E%canon_object. done.
Qed.
Lemma collect_one (es : list entry) o i v : (forall i k v, es !! i = Some (Some (k, v)) -> key_wf k) -> es !! i = Some (Some (JS_OBJECT o, v)) ->
  (forall j v', es !! j = Some (Some (JS_OBJECT o, v')) -> j = i) ->
  (fun e => if has_key (JS_OBJECT o) e then None else e) <$> es = <[i := None]> es.
Proof.
  revert i. induction es as [|e es IH]; intros i Hwf Hi Hu; [done|]. rewrite fmap_cons. destruct i as [|i].
  - injection Hi as ->. cbn [has_key]. rewrite same_key_canon, bool_decide_eq_true_2 by done. cbn. f_equal. apply collect_none. intros j k v' E.
    split; [by apply (Hwf (S j) k v')|]. intros ->. by specialize (Hu (S j) v' E).
  - change (<[S i := None]> (e :: es)) with (e :: <[i := None]> es). f_equal.
    + destruct e as [[k v']|]; [|done]. cbn [has_key]. pose proof (Hwf O k v' eq_refl) as Hk. rewrite same_key_canon, bool_decide_eq_false_2; try done.
      intros ->%canon_object. by specialize (Hu O v' eq_refl).
    + apply IH; [intros j; apply (Hwf (S j))|done|]. intros j v' E. specialize (Hu (S j) v' E). lia.
Qed.

Lemma sim_collect w s g pos o : refines w s g pos -> is_weak (mstate w) = true -> simulates w s g (Op_collect o).
Proof.
  intros [HC H2 H3 H4] Hw. unfold simulates, exec, reset_weak_ref. destruct (H3 Hw) as [Hi Hwk]. pose proof Hwk as [K1 K2 K3].
  pose proof (S_collect (is_weak (mstate w)) is_set s o) as Hst. destruct (default [] (first_weak_ref w !! o)) as [|p l] eqn:El.
  - apply wp_ret. eexists _, pos. split_and!; [exact Hst|done|]. rewrite collect_none.
    2:{ intros i k v E. split; [by apply (c_wf _ _ _ _ _ HC i k v)|]. intros ->. destruct (c_record _ _ _ _ _ HC _ _ _ E) as (p & r & Hp & He & <-).
        rewrite (c_entry _ _ _ _ _ HC p r Hp), He in E. destruct (K1 p r Hp) as [_ (o' & Hk & Hin)]. assert (o' = o) as -> by congruence. rewrite El in Hin. set_solver. }
    constructor; cbn; try done; [|intros v; rewrite H4; lia]. intros _. split; [done|]. constructor.
    + intros p r Hp. destruct (K1 p r Hp) as [He (o' & Hk & Hin)]. split; [done|]. exists o'. split; [done|]. rewrite lookup_delete_ne; [done|]. intros ->. rewrite El in Hin. set_solver.
    + intros o' p. rewrite lookup_delete. case_decide; [set_solver|]. apply K2.
    + intros o'. rewrite lookup_delete. case_decide; [apply NoDup_nil_2|]. apply K3.
  - destruct (K2 o p ltac:(rewrite El; set_solver)) as (r & Hp & Hk). destruct (K1 p r Hp) as [He _]. pose proof (c_entry _ _ _ _ _ HC p r Hp) as Hent. rewrite He, Hk in Hent.
    assert (Hone : forall q rq, recs w !! q = Some rq -> key rq = JS_OBJECT o -> q = p).
    { intros q rq Hq Hkq. destruct (K1 q rq Hq) as [Heq _]. pose proof (c_entry _ _ _ _ _ HC q rq Hq) as Hentq. rewrite Heq, Hkq in Hentq.
      apply (core_pos_inj HC); eauto. by eapply (c_distinct _ _ _ _ _ HC). }
    assert (l = []) as ->.
    { destruct l as [|q l]; [done|]. destruct (K2 o q ltac:(rewrite El; set_solver)) as (rq & Hq & Hkq). pose proof (K3 o) as Hnd. rewrite El, (Hone q rq Hq Hkq) in Hnd.
      apply NoDup_cons in Hnd as [Hnd _]. set_solver. }
    unfold get_rec. cbn. rewrite Hp. cbn. rewrite Hw. cbn. rewrite He. cbn. unfold get_rec. cbn. rewrite Hp. cbn. rewrite Hw in Hst. eexists _, pos. split_and!; [exact Hst|exact Hw|].
    rewrite (collect_one _ o (pos p) (value r)); [|apply HC|done|].
    2:{ intros j v' E. by eapply (c_distinct _ _ _ _ _ HC). }
    constructor; cbn; try done.
    + pose proof (core_remove HC p r (unlink p <$> hash_table (mstate w)) (record_count (mstate w)) (locks (iters w))) as HU. apply HU; try done.
      * apply chains_unlink_delete. by eapply core_chains.
      * unfold locks. by rewrite Hi, msum_empty.
      * congruence.
    + intros _. split; [done|]. pose proof (weak_ok_delete _ _ p o r Hwk Hp Hk) as Hwk'. rewrite El, (unlink_at [] p [] (NoDup_singleton p) : unlink p [p] = []) in Hwk'.
      destruct Hwk' as [W1 W2 W3]. constructor.
      * intros q rq Hq. destruct (W1 q rq Hq) as [Heq (o' & Hkq & Hin)]. split; [done|]. exists o'. split; [done|]. destruct (decide (o' = o)) as [->|Ho]; [rewrite lookup_insert_eq in Hin; set_solver|].
        rewrite lookup_insert_ne in Hin by done. by rewrite lookup_delete_ne.
      * intros o' q. rewrite lookup_delete. case_decide as Ho; [set_solver|]. intros Hq. apply W2. by rewrite lookup_insert_ne.
      * intros o'. rewrite lookup_delete. case_decide; [apply NoDup_nil_2|]. apply K3.
    + intros v. rewrite H4, (held_insert _ _ _ (Some (JS_OBJECT o, value r))) by done. rewrite Hw. cbn. unfold is_val. lia.
Qed.

Lemma sim_all w s g pos op : refines w s g pos -> op_ok w op -> simulates w s g op.
Proof.
  intros HR Hop. destruct op; cbn in Hop.
  - by eapply sim_set. - by eapply sim_get. - by eapply sim_has. - by eapply sim_delete. - by eapply sim_clear. - by eapply sim_size.
  - by eapply sim_iterator. - destruct Hop. by eapply sim_next. - destruct Hop. by eapply sim_free_iterator. - by eapply sim_collect.
Qed.

(** ** Sequences of calls *)

Lemma refines_ext w s g g' pos : refines w s g pos -> (forall v, g' v = g v) -> refines w s g' pos.
Proof. intros [H1 H2 H3 H4] E. constructor; try done. intros v. by rewrite E. Qed.

Lemma constructor_refines weak w : js_map_constructor weak = Some w ->
  is_weak (mstate w) = weak /\ exists pos, refines w (mkSpec [] ∅) (all_given []) pos.
Proof.
  unfold js_map_constructor. destruct (table_realloc _); [|done]. intros [= <-]. split; [done|]. exists (fun _ => O).
  constructor; cbn; [|intros q; rewrite !lookup_empty; constructor| |done].
  - constructor; cbn; try done.
    + constructor.
    + intros p. rewrite lookup_empty, is_Some_alt. set_solver.
    + intros [|i] c p Ec; simplify_eq/=. split; [set_solver|]. intros (r & E & _). by rewrite lookup_empty in E.
  - intros _. split; [done|]. constructor; [done| |].
    + intros o p. rewrite lookup_empty. set_solver.
    + intros o. rewrite lookup_empty. apply NoDup_nil_2.
Qed.

Lemma calls_refine weak w0 tr w : js_map_constructor weak = Some w0 -> calls is_set w0 tr w ->
  is_weak (mstate w) = weak /\ exists s pos, spec_run weak is_set (mkSpec [] ∅) tr s /\ refines w s (all_given tr) pos.
Proof.
  intros H0. induction 1 as [|tr w op r w' Hc [Hw (s & pos & Hs & HR)] Hop He].
  - destruct (constructor_refines weak w0 H0) as [Hw [pos HR]]. split; [done|]. exists (mkSpec [] ∅), pos. split; [constructor|done].
  - pose proof (sim_all w s _ pos op HR Hop) as Hsim. unfold simulates in Hsim. rewrite He in Hsim. destruct Hsim as (s' & pos' & Hst & Hw' & HR').
    rewrite Hw in *. split; [done|]. exists s', pos'. split; [by econstructor|]. eapply refines_ext; [done|]. intros v. unfold all_given. rewrite lsum_app. cbn. unfold lsum. cbn. lia.
Qed.


(** ** The end of a map *)

Lemma wp_js_map_finalizer w s g pos : refines w s g pos -> iters w = ∅ ->
  wp (js_map_finalizer w) (fun w' => recs w' = ∅ /\ (forall v, refs w' v = g v) /\ forall o p, p ∉ default [] (first_weak_ref w' !! o) \/ is_weak (mstate w) = false).
Proof.
  intros [HC H2 H3 H4] Hi. unfold js_map_finalizer. rewrite Hi in HC. unfold locks in HC. apply wp_bind.
  apply (wp_foldM (fun w' rest => exists m' es', core (recs w') m' es' pos (fun _ => 0) /\ records m' = rest /\ is_weak m' = is_weak (mstate w) /\ mstate w' = mstate w /\
    (is_weak (mstate w) = true -> weak_ok (recs w') (first_weak_ref w')) /\ forall v, refs w' v = held (is_weak (mstate w)) es' v + g v)).
  - intros w1 p rest (m & es & HC1 & Er & Hwm & Hms & Hwk & Hrf). destruct (proj1 (c_listed _ _ _ _ _ HC1 p)) as [r Hp]; [rewrite Er; set_solver|].
    apply wp_bind. eapply wp_get_rec; [done|]. destruct (c_count _ _ _ _ _ HC1 p r Hp) as [Hc1 Hc2]. destruct (empty r) eqn:He; [cbn in Hc1; lia|]. cbn [negb].
    pose proof (c_entry _ _ _ _ _ HC1 p r Hp) as Hent. rewrite He in Hent.
    assert (HC2 := core_remove HC1 p r (unlink p <$> hash_table m) (u32 (live_count (<[pos p := None]> es))) (fun _ => 0) Hp
      (chains_unlink_delete _ _ _ p (core_chains HC1)) eq_refl (fun _ _ => eq_refl) (fun _ => eq_refl)).
    pose proof (core_records_NoDup _ _ _ _ _ HC1) as Hnd. rewrite Er in Hnd.
    assert (Hun : unlink p (p :: rest) = rest) by (exact (unlink_at [] p rest Hnd)).
    apply wp_bind. apply wp_bind. rewrite Hms. destruct (is_weak (mstate w)) eqn:Ew.
    + specialize (Hwk eq_refl). destruct (k_record _ _ Hwk p r Hp) as [_ (o & Hk & Hin)]. rewrite Hk. cbn. rewrite bool_decide_eq_true_2 by done. cbn.
      eexists _, _. split_and!; [exact HC2|by cbn; rewrite Er|done|done| |].
      * intros _. by eapply weak_ok_delete.
      * intros v. rewrite Hrf, (held_insert _ _ _ (Some (key r, value r))) by done. cbn. unfold is_val. lia.
    + cbn. eexists _, _. split_and!; [exact HC2|by cbn; rewrite Er|done|done|done|].
      intros v. rewrite Hrf, (held_insert _ _ _ (Some (key r, value r))) by done. cbn. unfold is_val. lia.
  - intros w1 (m & es & HC1 & Er & Hwm & Hms & Hwk & Hrf). apply wp_ret. cbn.
    assert (Hem : recs w1 = ∅). { apply map_eq. intros p. rewrite lookup_empty. apply eq_None_not_Some. rewrite <- (c_listed _ _ _ _ _ HC1), Er. set_solver. }
    split_and!; [done| |].
    + intros v. rewrite Hrf. enough (held (is_weak (mstate w)) es v = 0) by lia. unfold held.
      assert (Hnone : forall e, e ∈ es -> e = None).
      { intros [[k x]|] [i E]%list_elem_of_lookup; [|done]. destruct (c_record _ _ _ _ _ HC1 i k x E) as (p & r & Hp & _). by rewrite Hem, lookup_empty in Hp. }
      clear -Hnone. induction es as [|e es IH]; [done|]. rewrite lsum_cons, (Hnone e) by set_solver. cbn. apply IH. set_solver.
    + intros o p. destruct (is_weak (mstate w)); [|by right]. left. intros Hin. destruct (k_object _ _ (Hwk eq_refl) o p Hin) as (r & Hp & _). by rewrite Hem, lookup_empty in Hp.
  - exists (mstate w), (entries s). split_and!; try done. intros Hw. by apply H3.
Qed.

End Methods.

(** ** Examples *)

Section Examples.
#[local] Instance demo_allocator : MapAllocator := {|
  record_alloc m := Some (fresh (dom m));
  record_fresh m p E := ltac:(injection E as <-; apply not_elem_of_dom, is_fresh);
  iter_alloc m := Some (fresh (dom m));
  iter_fresh m p E := ltac:(injection E as <-; apply not_elem_of_dom, is_fresh);
  table_realloc n := if n <? 2 ^ 30 then Some n else None;
|}.

Lemma demo_tables : forall n u, table_realloc n = Some u -> n < 2 ^ 35 /\ u < 2 ^ 35.
Proof. cbn. intros n u. destruct (Z.ltb_spec n (2 ^ 30)); [|done]. intros [= <-]. lia. Qed.

(** Calls with keys that are integers, objects or undefined, evaluated. *)
Definition simple_key (k : jsval) : bool :=
  match k with JS_INT i => (- 2 ^ 31 <=? i) && (i <? 2 ^ 31) | JS_OBJECT _ | JS_UNDEFINED => true | _ => false end.
Definition simple_ok (w : world) (op : map_op) : bool :=
  match op with
  | Op_set k _ | Op_get k | Op_has k | Op_delete k => simple_key k
  | Op_clear | Op_size | Op_iterator _ => negb (is_weak (mstate w))
  | Op_next p | Op_free_iterator p => negb (is_weak (mstate w)) && bool_decide (is_Some (iters w !! p))
  | Op_collect _ => is_weak (mstate w)
  end.
Lemma simple_ok_sound w op : simple_ok w op = true -> op_ok w op.
Proof.
  assert (Hk : forall k, simple_key k = true -> key_wf (map_normalize_key k)).
  { intros [| | |i| | | | |]; try done. cbn. intros [?%Z.leb_le ?%Z.ltb_lt]%andb_true_iff. split; lia. }
  destruct op; cbn; auto; intros E; breflect; auto. all: split; [done|]; by eapply bool_decide_eq_true.
Qed.

Fixpoint exec_all (is_set : bool) (w : world) (ops : list map_op) : outcome (list map_result * world) :=
  match ops with
  | [] => Ret ([], w)
  | op :: ops =>
      _ ← c_assert (simple_ok w op);
      '(r, w) ← exec is_set w op; '(rs, w) ← exec_all is_set w ops; Ret (r :: rs, w)
  end.

Lemma calls_cons is_set w op r w1 tr w2 : op_ok w op -> exec is_set w op = Ret (r, w1) -> calls is_set w1 tr w2 -> calls is_set w ((op, r) :: tr) w2.
Proof.
  intros Hop He. induction 1 as [|tr w' op' r' w'' Hc IH Hop' He'].
  - apply (calls_step _ _ [] w); [constructor|done..].
  - by apply (calls_step _ _ ((op, r) :: tr) w').
Qed.
Lemma exec_all_calls is_set ops : forall w rs w', exec_all is_set w ops = Ret (rs, w') -> calls is_set w (zip ops rs) w'.
Proof.
  induction ops as [|op ops IH]; cbn; intros w rs w' E; [injection E as <- <-; constructor|].
  destruct (simple_ok w op) eqn:Eok; [|done]. destruct (exec is_set w op) as [[r w1]|] eqn:Ex; [|done]. cbn in E.
  destruct (exec_all is_set w1 ops) as [[rs1 w2]|] eqn:Ea; [|done]. injection E as <- <-. cbn.
  eapply calls_cons; [by apply simple_ok_sound|done|by apply IH].
Qed.

Definition new_map (weak : bool) : world := match js_map_constructor weak with Some w => w | None => mkWorld ∅ (mkMap weak [] 0 [] 0 0) ∅ ∅ (fun _ => 0) end.
Fixpoint exec_any (w : world) (ops : list map_op) : outcome (list map_result) :=
  match ops with [] => Ret [] | op :: ops => '(r, w) ← exec false w op; rs ← exec_any w ops; Ret (r :: rs) end.
Definition answers (ops : list map_op) : outcome (list map_result) := fst <$> exec_all false (new_map false) ops.

(** An iterator survives the deletion of the entry it is at and sees the one
    that is added. *)
Example iterate_and_delete :
  answers [Op_set (JS_INT 1) JS_NULL; Op_set (JS_INT 2) JS_NULL; Op_iterator JS_ITERATOR_KIND_KEY; Op_next 1%positive; Op_delete (JS_INT 1);
           Op_set (JS_INT 3) JS_NULL; Op_set (JS_INT 1) JS_NULL; Op_next 1%positive; Op_next 1%positive; Op_next 1%positive; Op_next 1%positive; Op_size] =
  Ret [R_map; R_map; R_iterator 1%positive; R_item (JS_INT 1); R_bool true; R_map; R_map; R_item (JS_INT 2); R_item (JS_INT 3); R_item (JS_INT 1); R_done; R_size 3].
Proof. vm_compute. reflexivity. Qed.

(** The engine represents 0.5 + 0.5 as a double: it is the same value as the
    integer 1, but is not found in a map of four entries. *)
Example map_misses_double :
  js_same_value_zero (JS_INT 1) (JS_FLOAT64 (float64_of_int 1)) = Ret true /\
  exec_any (new_map false) [Op_set (JS_INT 1) JS_NULL; Op_set (JS_INT 2) JS_NULL; Op_set (JS_INT 3) JS_NULL; Op_has (JS_FLOAT64 (float64_of_int 1));
           Op_set (JS_INT 4) JS_NULL; Op_has (JS_FLOAT64 (float64_of_int 1)); Op_has (JS_INT 1)] =
  Ret [R_map; R_map; R_map; R_bool true; R_map; R_bool false; R_bool true].
Proof. split; vm_compute; reflexivity. Qed.

Definition weak_churn (n : nat) : list map_op :=
  concat ((fun i => [Op_set (JS_OBJECT (Z.of_nat i)) JS_NULL; Op_collect (Z.of_nat i)]) <$> seq 0 n).

(** A weak map of which every key is released grows its table all the same. *)
Example weak_map_grows :
  (fun '(_, w) => (length (records (mstate w)), record_count (mstate w), hash_size (mstate w))) <$> exec_all false (new_map true) (weak_churn 40) =
  Ret (O, 40, 32).
Proof. vm_compute. reflexivity. Qed.

Definition demo_ops : list map_op :=
  [Op_set (JS_INT 1) JS_NULL; Op_set (JS_INT 2) (JS_BOOL true); Op_iterator JS_ITERATOR_KIND_KEY; Op_next 1%positive; Op_delete (JS_INT 1);
   Op_next 1%positive; Op_get (JS_INT 2); Op_free_iterator 1%positive].
Definition demo_results : list map_result :=
  [R_map; R_map; R_iterator 1%positive; R_item (JS_INT 1); R_bool true; R_item (JS_INT 2); R_value (JS_BOOL true); R_undefined].
Definition demo_trace : list (map_op * map_result) := zip demo_ops demo_results.

Lemma demo_calls : exists w, calls false (new_map false) demo_trace w /\ iters w = ∅.
Proof.
  assert (E : (fun '(rs, w) => (rs, map_to_list (iters w))) <$> exec_all false (new_map false) demo_ops = Ret (demo_results, [])) by (vm_compute; reflexivity).
  destruct (exec_all false (new_map false) demo_ops) as [[rs w]|] eqn:Ea; [|done]. cbn in E. injection E as -> Ei. exists w.
  split; [by apply exec_all_calls|by apply map_to_list_empty_iff].
Qed.


End Examples.
