(* ===== verification/BfLimbs.v ===== *)
(** * Arbitrary precision: natural numbers as limbs ([libbf.c], [mp_*])

    A number is an array of 64-bit limbs, the low ones first.  A function that
    works on [n] limbs at a pointer has the list of these limbs as its argument
    and returns the ones it writes; where a caller passes a pointer into an
    array, it reads and writes the part with a bounds check.  An operation that
    works in place ([res] equal to an operand) reads each limb before it writes
    it, so that the two lists are independent. *)

From S2P Require Import Prelude Cutils.

Definition LIMB_BITS : Z := 64.
Definition B : Z := 2 ^ 64.

(** ** Operations *)

(** [mp_add(res, op1, op2, n, carry)] *)
Fixpoint mp_add (op1 op2 : list Z) (k : Z) : list Z * Z :=
  match op1, op2 with
  | v :: op1, w :: op2 =>
      let a := u64 (v + w) in
      let k1 := a <? v in
      let a := u64 (a + k) in
      let k := b2z ((a <? k) || k1) in
      let '(res, k) := mp_add op1 op2 k in
      (a :: res, k)
  | _, _ => ([], k)
  end.

(** [mp_add_ui(tab, b, n)] *)
Fixpoint mp_add_ui (tab : list Z) (k : Z) : list Z * Z :=
  match tab with
  | [] => ([], k)
  | v :: tab =>
      if k =? 0 then (v :: tab, k)
      else
        let a := u64 (v + k) in
        let '(tab, k) := mp_add_ui tab (b2z (a <? k)) in
        (a :: tab, k)
  end.

(** [mp_sub(res, op1, op2, n, carry)] *)
Fixpoint mp_sub (op1 op2 : list Z) (k : Z) : list Z * Z :=
  match op1, op2 with
  | v :: op1, w :: op2 =>
      let a := u64 (v - w) in
      let k1 := v <? a in
      let v := u64 (a - k) in
      let k := b2z ((a <? v) || k1) in
      let '(res, k) := mp_sub op1 op2 k in
      (v :: res, k)
  | _, _ => ([], k)
  end.

(** [mp_neg(res, op2, n, carry)] *)
Fixpoint mp_neg (op2 : list Z) (k : Z) : list Z * Z :=
  match op2 with
  | [] => ([], k)
  | w :: op2 =>
      let v := 0 in
      let a := u64 (v - w) in
      let k1 := v <? a in
      let v := u64 (a - k) in
      let k := b2z ((a <? v) || k1) in
      let '(res, k) := mp_neg op2 k in
      (v :: res, k)
  end.

(** [mp_sub_ui(tab, b, n)] *)
Fixpoint mp_sub_ui (tab : list Z) (k : Z) : list Z * Z :=
  match tab with
  | [] => ([], k)
  | v :: tab =>
      let a := u64 (v - k) in
      let k := b2z (v <? a) in
      if k =? 0 then (a :: tab, k)
      else let '(tab, k) := mp_sub_ui tab k in (a :: tab, k)
  end.

(** [mp_shr(tab_r, tab, n, shift, high)]: from the high limb down, each limb
    takes its high bits from the one above. *)
Fixpoint mp_shr_loop (tab : list Z) (shift high : Z) : list Z * Z :=
  match tab with
  | [] => ([], high)
  | a :: tab =>
      let '(r, l) := mp_shr_loop tab shift high in
      (Z.lor (Z.shiftr a shift) (u64 (Z.shiftl l (LIMB_BITS - shift))) :: r, a)
  end.

Definition mp_shr (tab : list Z) (shift high : Z) : outcome (list Z * Z) :=
  _ ← c_assert ((1 <=? shift) && (shift <? LIMB_BITS));
  let '(r, l) := mp_shr_loop tab shift high in
  Ret (r, Z.land l (u64 (Z.shiftl 1 shift - 1))).

Definition u128 (x : Z) : Z := uwrap 128 x.

(** [mp_mul1(tabr, taba, n, b, l)] *)
Fixpoint mp_mul1 (taba : list Z) (b l : Z) : list Z * Z :=
  match taba with
  | [] => ([], l)
  | a :: taba =>
      let t := u128 (u128 (a * b) + l) in
      let '(r, h) := mp_mul1 taba b (u64 (Z.shiftr t LIMB_BITS)) in
      (u64 t :: r, h)
  end.

(** [mp_add_mul1(tabr, taba, n, b)], with the carry [l] *)
Fixpoint mp_add_mul1 (tabr taba : list Z) (b l : Z) : list Z * Z :=
  match tabr, taba with
  | r :: tabr, a :: taba =>
      let t := u128 (u128 (u128 (a * b) + l) + r) in
      let '(res, h) := mp_add_mul1 tabr taba b (u64 (Z.shiftr t LIMB_BITS)) in
      (u64 t :: res, h)
  | _, _ => ([], l)
  end.

(** [mp_sub_mul1(tabr, taba, n, b)], with the borrow [l] *)
Fixpoint mp_sub_mul1 (tabr taba : list Z) (b l : Z) : list Z * Z :=
  match tabr, taba with
  | r :: tabr, a :: taba =>
      let t := u128 (u128 (r - u128 (a * b)) - l) in
      let '(res, h) := mp_sub_mul1 tabr taba b (u64 (- Z.shiftr t LIMB_BITS)) in
      (u64 t :: res, h)
  | _, _ => ([], l)
  end.

(** [mp_mul_basecase(result, op1, op1_size, op2, op2_size)]: [result] is the
    array before the call. *)
Definition mp_mul_basecase (result op1 op2 : list Z) : outcome (list Z) :=
  let op1_size := zlen op1 in
  b ← rd op2 0;
  _ ← rd_range result 0 op1_size;
  let '(r, h) := mp_mul1 op1 b 0 in
  result ← wr_range result 0 r;
  result ← wr result op1_size h;
  foldM (fun result i =>
    b ← rd op2 i;
    s ← rd_range result i op1_size;
    let '(s, r) := mp_add_mul1 s op1 b 0 in
    result ← wr_range result i s;
    wr result (i + op1_size) r) result (seqZ 1 (zlen op2 - 1)).

(** [udiv1norm_init(d)] *)
Definition udiv1norm_init (d : Z) : Z :=
  let a1 := u64 (- d - 1) in
  let a0 := u64 (-1) in
  u64 (Z.lor (Z.shiftl a1 LIMB_BITS) a0 / d).

(** [udiv1norm(pr, a1, a0, d, d_inv)]: quotient and remainder *)
Definition udiv1norm (a1 a0 d d_inv : Z) : Z * Z :=
  let n1m := u64 (Z.shiftr (i64 a0) (LIMB_BITS - 1)) in
  let n_adj := u64 (a0 + Z.land n1m d) in
  let a := u128 (u128 (d_inv * u64 (a1 - n1m)) + n_adj) in
  let q := u64 (u64 (Z.shiftr a LIMB_BITS) + a1) in
  let a := Z.lor (Z.shiftl a1 LIMB_BITS) a0 in
  let a := u128 (u128 (a - u128 (q * d)) - d) in
  let ah := u64 (Z.shiftr a LIMB_BITS) in
  let q := u64 (q + u64 (1 + ah)) in
  let r := u64 (u64 a + Z.land ah d) in
  (q, r).

Definition UDIV1NORM_THRESHOLD : Z := 3.
Definition DIVNORM_LARGE_THRESHOLD : Z := 50.

(** The loops of [mp_div1norm(tabr, taba, n, b, r)], from the high limb down. *)
Fixpoint mp_div1norm_loop (div : Z -> Z -> Z * Z) (taba : list Z) (r : Z) : list Z * Z :=
  match taba with
  | [] => ([], r)
  | a :: taba =>
      let '(tabr, r) := mp_div1norm_loop div taba r in
      let '(q, r) := div r a in
      (q :: tabr, r)
  end.

Definition div_dlimb (b r a : Z) : Z * Z :=
  let a1 := Z.lor (Z.shiftl r LIMB_BITS) a in
  (u64 (a1 / b), u64 (a1 mod b)).

Definition mp_div1norm (taba : list Z) (b r : Z) : list Z * Z :=
  if UDIV1NORM_THRESHOLD <=? zlen taba then
    let b_inv := udiv1norm_init b in
    mp_div1norm_loop (fun r a => udiv1norm r a b b_inv) taba r
  else mp_div1norm_loop (div_dlimb b) taba r.

(** [mp_cmp(taba, tabb, n)] *)
Fixpoint mp_cmp (taba tabb : list Z) : Z :=
  match taba, tabb with
  | a :: taba, b :: tabb =>
      let c := mp_cmp taba tabb in
      if negb (c =? 0) then c
      else if negb (a =? b) then (if a <? b then -1 else 1)
      else 0
  | _, _ => 0
  end.

(** The body of the loop of [mp_divnorm] after a negative result. *)
Definition divnorm_correct (tabb : list Z) (nb i : Z) (st : Z * list Z) : outcome ((Z * list Z) + (Z * list Z)) :=
  let '(q, taba) := st in
  let q := u64 (q - 1) in
  s ← rd_range taba i nb;
  let '(s, c) := mp_add s tabb 0 in
  taba ← wr_range taba i s;
  if negb (c =? 0) then
    v ← rd taba (i + nb);
    let v := u64 (v + 1) in
    taba ← wr taba (i + nb) v;
    if v =? 0 then Ret (inr (q, taba)) else Ret (inl (q, taba))
  else Ret (inl (q, taba)).

(** One step of [mp_divnorm]: the quotient limb at [i]; three rounds of the
    loop are more than it takes. *)
Definition divnorm_step (tabb : list Z) (nb b1 b1_inv : Z) (st : list Z * list Z) (i : Z) : outcome (list Z * list Z) :=
  let '(tabq, taba) := st in
  h ← rd taba (i + nb);
  l ← rd taba (i + nb - 1);
  let q :=
    if b1 <=? h then u64 (-1)
    else if negb (b1_inv =? 0) then fst (udiv1norm h l b1 b1_inv)
    else u64 (Z.lor (Z.shiftl h LIMB_BITS) l / b1) in
  s ← rd_range taba i nb;
  let '(s, r) := mp_sub_mul1 s tabb q 0 in
  taba ← wr_range taba i s;
  v ← rd taba (i + nb);
  let a := u64 (v - r) in
  taba ← wr taba (i + nb) a;
  '(q, taba) ← (if v <? a then
    loop 3 (divnorm_correct tabb nb i) (q, taba)
    else Ret (q, taba));
  tabq ← wr tabq i q;
  Ret (tabq, taba).

(** [mp_divnorm(s, tabq, taba, na, tabb, nb)] below the size from which
    [mp_divnorm_large] takes over: the new [tabq] and [taba]. *)
Definition mp_divnorm (tabq taba tabb : list Z) : outcome (option (list Z * list Z)) :=
  let na := zlen taba in
  let nb := zlen tabb in
  b1 ← rd tabb (nb - 1);
  if nb =? 1 then
    let '(q, r) := mp_div1norm taba b1 0 in
    tabq ← wr_range tabq 0 q;
    taba ← wr taba 0 r;
    Ret (Some (tabq, taba))
  else
    let n := na - nb in
    if DIVNORM_LARGE_THRESHOLD <=? Z.min n nb then Ret None
    else
      let b1_inv := if UDIV1NORM_THRESHOLD <=? n then udiv1norm_init b1 else 0 in
      s ← rd_range taba n nb;
      let q := if mp_cmp s tabb <? 0 then 0 else 1 in
      tabq ← wr tabq n q;
      taba ← (if negb (q =? 0) then wr_range taba n (fst (mp_sub s tabb 0)) else Ret taba);
      st ← foldM (divnorm_step tabb nb b1 b1_inv) (tabq, taba) (rev (seqZ 0 n));
      Ret (Some st).

(** ** Values *)

Definition limb (x : Z) : Prop := 0 <= x < B.
Definition lval (l : list Z) : Z := foldr (fun x a => x + B * a) 0 l.

Lemma lval_nil : lval [] = 0.
Proof. done. Qed.
Lemma lval_cons x l : lval (x :: l) = x + B * lval l.
Proof. done. Qed.
Lemma Bpow_S n : B ^ Z.of_nat (S n) = B * B ^ Z.of_nat n.
Proof. rewrite Nat2Z.inj_succ, Z.pow_succ_r; lia. Qed.
Lemma Bpow_pos n : 0 < B ^ Z.of_nat n.
Proof. apply Z.pow_pos_nonneg; [done|lia]. Qed.
Lemma lval_app l k : lval (l ++ k) = lval l + B ^ Z.of_nat (length l) * lval k.
Proof.
  induction l as [|x l IH]; cbn [app length]; [rewrite lval_nil, Z.pow_0_r; lia|]. rewrite !lval_cons, IH, Bpow_S. ring.
Qed.
Lemma lval_bounds l : Forall limb l -> 0 <= lval l < B ^ Z.of_nat (length l).
Proof.
  induction 1 as [|x l Hx Hl IH]; [done|]. rewrite lval_cons. cbn [length]. rewrite Bpow_S. unfold limb, B in *. nia.
Qed.
#[global] Arguments lval : simpl never.
#[global] Opaque B.

(** ** Additions and subtractions *)

Lemma B_pos : 1 < B.
Proof. done. Qed.
Lemma u64_mod x : u64 x = x mod B.
Proof. done. Qed.
Lemma limb_u64 x : limb (u64 x).
Proof. apply Z.mod_pos_bound. done. Qed.
Lemma u64_id x : limb x -> u64 x = x.
Proof. apply Z.mod_small. Qed.

Lemma add_carry v w : limb v -> limb w -> v + w = u64 (v + w) + B * b2z (u64 (v + w) <? v).
Proof.
  unfold limb. intros Hv Hw. rewrite u64_mod. pose proof B_pos. destruct (Z.lt_ge_cases (v + w) B).
  - rewrite Z.mod_small by lia. destruct (Z.ltb_spec (v + w) v); cbn [b2z]; lia.
  - replace ((v + w) mod B) with (v + w - B) by (apply (Z.mod_unique_pos _ _ 1); lia). destruct (Z.ltb_spec (v + w - B) v); cbn [b2z]; lia.
Qed.
Lemma sub_borrow v w : limb v -> limb w -> v - w = u64 (v - w) - B * b2z (v <? u64 (v - w)).
Proof.
  unfold limb. intros Hv Hw. rewrite u64_mod. pose proof B_pos. destruct (Z.le_gt_cases w v).
  - rewrite Z.mod_small by lia. destruct (Z.ltb_spec v (v - w)); cbn [b2z]; lia.
  - replace ((v - w) mod B) with (v - w + B) by (apply (Z.mod_unique_pos _ _ (-1)); lia). destruct (Z.ltb_spec v (v - w + B)); cbn [b2z]; lia.
Qed.

(** A carry of 0 or 1 after the two additions of a step. *)
Lemma add_step v w k : limb v -> limb w -> 0 <= k <= 1 ->
  let a := u64 (v + w) in let r := u64 (a + k) in v + w + k = r + B * b2z ((r <? k) || (a <? v)).
Proof.
  intros Hv Hw Hk a r. pose proof B_pos. pose proof (add_carry v w Hv Hw) as E1. fold a in E1.
  pose proof (add_carry k a ltac:(unfold limb; lia) (limb_u64 _)) as E2. rewrite (Z.add_comm k a) in E2. fold r in E2.
  pose proof (limb_u64 (a + k)) as Hr. fold r in Hr. unfold limb in *. destruct (r <? k), (a <? v); cbn [b2z orb] in *; lia.
Qed.
Lemma sub_step v w k : limb v -> limb w -> 0 <= k <= 1 ->
  let a := u64 (v - w) in let r := u64 (a - k) in v - w - k = r - B * b2z ((a <? r) || (v <? a)).
Proof.
  intros Hv Hw Hk a r. pose proof B_pos. pose proof (sub_borrow v w Hv Hw) as E1. fold a in E1.
  pose proof (sub_borrow a k (limb_u64 _) ltac:(unfold limb; lia)) as E2. fold r in E2.
  pose proof (limb_u64 (a - k)) as Hr. fold r in Hr. unfold limb in *. destruct (a <? r), (v <? a); cbn [b2z orb] in *; lia.
Qed.

(** What every element-wise operation returns. *)
Definition limbs_of (n : nat) (l : list Z) : Prop := length l = n /\ Forall limb l.

Lemma limbs_cons n x l : limb x -> limbs_of n l -> limbs_of (S n) (x :: l).
Proof. intros Hx [<- Hl]. split; [done|]. by constructor. Qed.
Lemma limbs_nil : limbs_of O [].
Proof. by split. Qed.
#[export] Hint Resolve limbs_cons limbs_nil limb_u64 : limbs.
Lemma b2z_01 b : 0 <= b2z b <= 1.
Proof. destruct b; cbn; lia. Qed.

Lemma mp_add_spec : forall op1 op2 k, length op1 = length op2 -> Forall limb op1 -> Forall limb op2 -> 0 <= k <= 1 ->
  limbs_of (length op1) (mp_add op1 op2 k).1 /\ 0 <= (mp_add op1 op2 k).2 <= 1 /\
  lval (mp_add op1 op2 k).1 + B ^ Z.of_nat (length op1) * (mp_add op1 op2 k).2 = lval op1 + lval op2 + k.
Proof.
  induction op1 as [|v op1 IH]; intros [|w op2] k Hl H1 H2 Hk; try done; cbn [mp_add].
  - cbn [fst snd length]. split_and!; [apply limbs_nil|lia..|]. rewrite lval_nil. cbn. lia.
  - apply Forall_cons in H1 as [Hv H1], H2 as [Hw H2]. pose proof (add_step v w k Hv Hw Hk) as E. cbv zeta in E.
    set (r := u64 (u64 (v + w) + k)) in *. set (k' := b2z ((r <? k) || (u64 (v + w) <? v))) in *.
    destruct (IH op2 k' ltac:(by injection Hl) H1 H2 (b2z_01 _)) as (Hr & Hk' & Ev). destruct (mp_add op1 op2 k') as [res kk]. cbn [fst snd length] in *.
    split_and!; [apply limbs_cons; [apply limb_u64|done]|lia..|]. rewrite !lval_cons, Bpow_S. nia.
Qed.

Lemma mp_sub_spec : forall op1 op2 k, length op1 = length op2 -> Forall limb op1 -> Forall limb op2 -> 0 <= k <= 1 ->
  limbs_of (length op1) (mp_sub op1 op2 k).1 /\ 0 <= (mp_sub op1 op2 k).2 <= 1 /\
  lval (mp_sub op1 op2 k).1 - B ^ Z.of_nat (length op1) * (mp_sub op1 op2 k).2 = lval op1 - lval op2 - k.
Proof.
  induction op1 as [|v op1 IH]; intros [|w op2] k Hl H1 H2 Hk; try done; cbn [mp_sub].
  - cbn [fst snd length]. split_and!; [apply limbs_nil|lia..|]. rewrite lval_nil. cbn. lia.
  - apply Forall_cons in H1 as [Hv H1], H2 as [Hw H2]. pose proof (sub_step v w k Hv Hw Hk) as E. cbv zeta in E.
    set (r := u64 (u64 (v - w) - k)) in *. set (k' := b2z ((u64 (v - w) <? r) || (v <? u64 (v - w)))) in *.
    destruct (IH op2 k' ltac:(by injection Hl) H1 H2 (b2z_01 _)) as (Hr & Hk' & Ev). destruct (mp_sub op1 op2 k') as [res kk]. cbn [fst snd length] in *.
    split_and!; [apply limbs_cons; [apply limb_u64|done]|lia..|]. rewrite !lval_cons, Bpow_S. nia.
Qed.

Lemma mp_neg_spec : forall op2 k, Forall limb op2 -> 0 <= k <= 1 ->
  mp_neg op2 k = mp_sub (replicate (length op2) 0) op2 k.
Proof.
  induction op2 as [|w op2 IH]; intros k H2 Hk; [done|]. apply Forall_cons in H2 as [Hw H2]. cbn [mp_neg length replicate mp_sub].
  by rewrite IH by (try done; apply b2z_01).
Qed.

Lemma mp_add_ui_spec : forall tab k, Forall limb tab -> limb k ->
  limbs_of (length tab) (mp_add_ui tab k).1 /\ limb (mp_add_ui tab k).2 /\ (tab <> [] -> (mp_add_ui tab k).2 <= 1) /\
  lval (mp_add_ui tab k).1 + B ^ Z.of_nat (length tab) * (mp_add_ui tab k).2 = lval tab + k.
Proof.
  induction tab as [|v tab IH]; intros k H1 Hk; cbn [mp_add_ui].
  - cbn [fst snd length]. split_and!; [apply limbs_nil|done..|]. rewrite lval_nil. cbn. lia.
  - pose proof B_pos. destruct (Z.eqb_spec k 0) as [->|Hk0]; [cbn [fst snd]; split_and!; [by split|done|done|lia]|].
    apply Forall_cons in H1 as [Hv H1]. pose proof (add_carry k v Hk Hv) as E. rewrite (Z.add_comm k v) in E. set (a := u64 (v + k)) in *.
    assert (Hb : limb (b2z (a <? k))) by (unfold limb; pose proof (b2z_01 (a <? k)); lia).
    destruct (IH (b2z (a <? k)) H1 Hb) as (Hr & Hk' & Hle & Ev). assert (Hle' : (mp_add_ui tab (b2z (a <? k))).2 <= 1).
    { destruct tab; [apply b2z_01|by apply Hle]. }
    destruct (mp_add_ui tab (b2z (a <? k))) as [res kk]. cbn [fst snd length] in *.
    split_and!; [apply limbs_cons; [apply limb_u64|done]|done|done|]. rewrite !lval_cons, Bpow_S. nia.
Qed.

Lemma mp_sub_ui_spec : forall tab k, tab <> [] -> Forall limb tab -> limb k ->
  limbs_of (length tab) (mp_sub_ui tab k).1 /\ 0 <= (mp_sub_ui tab k).2 <= 1 /\
  lval (mp_sub_ui tab k).1 - B ^ Z.of_nat (length tab) * (mp_sub_ui tab k).2 = lval tab - k.
Proof.
  induction tab as [|v tab IH]; intros k Hne H1 Hk; [done|]. cbn [mp_sub_ui]. pose proof B_pos.
  apply Forall_cons in H1 as [Hv H1]. pose proof (sub_borrow v k Hv Hk) as E. set (a := u64 (v - k)) in *. cbn [length].
  destruct (v <? a); cbn [b2z Z.eqb] in *.
  - destruct tab as [|w tab].
    + cbn [mp_sub_ui fst snd]. split_and!; [apply limbs_cons; [apply limb_u64|apply limbs_nil]|lia..|]. rewrite !lval_cons, lval_nil. cbn. lia.
    + destruct (IH 1 ltac:(done) H1 ltac:(unfold limb; lia)) as (Hr & Hk' & Ev). destruct (mp_sub_ui (w :: tab) 1) as [res kk]. cbn [fst snd] in *.
      split_and!; [apply limbs_cons; [apply limb_u64|done]|lia..|]. rewrite (lval_cons a), (lval_cons v), Bpow_S. nia.
  - cbn [fst snd]. split_and!; [apply limbs_cons; [apply limb_u64|by split]|lia..|]. rewrite !lval_cons. lia.
Qed.

(** ** Products *)

Lemma u128_mod x : u128 x = x mod (B * B).
Proof. done. Qed.
Lemma u128_id x : 0 <= x < B * B -> u128 x = x.
Proof. apply Z.mod_small. Qed.
Lemma shiftr_limb x : Z.shiftr x LIMB_BITS = x / B.
Proof. by rewrite Z.shiftr_div_pow2. Qed.
Lemma shiftl_limb x : Z.shiftl x LIMB_BITS = x * B.
Proof. by rewrite Z.shiftl_mul_pow2. Qed.
Lemma dlimb_high t : 0 <= t < B * B -> u64 (Z.shiftr t LIMB_BITS) = t / B.
Proof.
  intros Ht. pose proof B_pos. rewrite shiftr_limb. apply u64_id. split; [apply Z.div_pos; lia|]. apply Z.div_lt_upper_bound; lia.
Qed.
Lemma limb_div t : 0 <= t < B * B -> limb (t / B).
Proof. intros Ht. pose proof B_pos. split; [apply Z.div_pos; lia|]. apply Z.div_lt_upper_bound; lia. Qed.
Lemma limb_divmod x : x = x mod B + B * (x / B).
Proof. pose proof B_pos. pose proof (Z.div_mod x B ltac:(lia)). lia. Qed.

Lemma mul_step a b l r : limb a -> limb b -> limb l -> limb r -> 0 <= a * b + l + r < B * B /\ a * b + l < B * B /\ 0 <= a * b < B * B.
Proof. unfold limb. intros. pose proof B_pos. split_and!; nia. Qed.

Lemma mp_mul1_spec : forall taba b l, Forall limb taba -> limb b -> limb l ->
  limbs_of (length taba) (mp_mul1 taba b l).1 /\ limb (mp_mul1 taba b l).2 /\
  lval (mp_mul1 taba b l).1 + B ^ Z.of_nat (length taba) * (mp_mul1 taba b l).2 = lval taba * b + l.
Proof.
  induction taba as [|a taba IH]; intros b l Ha Hb Hl; cbn [mp_mul1].
  - cbn [fst snd length]. split_and!; [apply limbs_nil|done|]. rewrite lval_nil. cbn. lia.
  - apply Forall_cons in Ha as [Ha H1]. destruct (mul_step a b l 0 Ha Hb Hl ltac:(done)) as (_ & Hx & Hy). rewrite (u128_id (a * b)), u128_id by (unfold limb in *; lia).
    assert (Hxx : 0 <= a * b + l < B * B) by (unfold limb in *; lia). rewrite dlimb_high by done.
    destruct (IH b ((a * b + l) / B) H1 Hb (limb_div _ Hxx)) as (Hr & Hh & E). destruct (mp_mul1 taba b ((a * b + l) / B)) as [r h]. cbn [fst snd length] in *.
    split_and!; [apply limbs_cons; [apply limb_u64|done]|done|]. rewrite !lval_cons, Bpow_S, u64_mod. pose proof (limb_divmod (a * b + l)). nia.
Qed.

Lemma mp_add_mul1_spec : forall tabr taba b l, length tabr = length taba -> Forall limb tabr -> Forall limb taba -> limb b -> limb l ->
  limbs_of (length taba) (mp_add_mul1 tabr taba b l).1 /\ limb (mp_add_mul1 tabr taba b l).2 /\
  lval (mp_add_mul1 tabr taba b l).1 + B ^ Z.of_nat (length taba) * (mp_add_mul1 tabr taba b l).2 = lval tabr + lval taba * b + l.
Proof.
  induction tabr as [|r tabr IH]; intros [|a taba] b l Hlen Hr Ha Hb Hl; try done; cbn [mp_add_mul1].
  - cbn [fst snd length]. split_and!; [apply limbs_nil|done|]. rewrite lval_nil. cbn. lia.
  - apply Forall_cons in Ha as [Ha H1], Hr as [Hr H2]. destruct (mul_step a b l r Ha Hb Hl Hr) as (Hz & Hx & Hy).
    rewrite (u128_id (a * b)), (u128_id (a * b + l)), u128_id by (unfold limb in *; lia). rewrite dlimb_high by done.
    destruct (IH taba b ((a * b + l + r) / B) ltac:(by injection Hlen) H2 H1 Hb (limb_div _ Hz)) as (Hrs & Hh & E).
    destruct (mp_add_mul1 tabr taba b ((a * b + l + r) / B)) as [res h]. cbn [fst snd length] in *.
    split_and!; [apply limbs_cons; [apply limb_u64|done]|done|]. rewrite !lval_cons, Bpow_S, u64_mod. pose proof (limb_divmod (a * b + l + r)). nia.
Qed.

(** The borrow of a step of [mp_sub_mul1]. *)
Lemma sub_mul_step r a b l : limb r -> limb a -> limb b -> limb l ->
  let t := u128 (u128 (r - u128 (a * b)) - l) in
  u64 t = (r - a * b - l) mod B /\ u64 (- Z.shiftr t LIMB_BITS) = - ((r - a * b - l) / B) /\ limb (- ((r - a * b - l) / B)).
Proof.
  intros Hr Ha Hb Hl t. pose proof B_pos. destruct (mul_step a b l 0 Ha Hb Hl ltac:(done)) as (_ & Hx & Hy). unfold limb in *. set (x := r - a * b - l).
  assert (Et : t = x mod (B * B)) by (unfold t, x; rewrite (u128_id (a * b)) by lia; rewrite !u128_mod, Zminus_mod_idemp_l; done).
  assert (Hq : - (B - 1) <= x / B <= 0).
  { split; [apply Z.div_le_lower_bound; [lia|]; unfold x; nia|]. assert (x / B < 1) by (apply Z.div_lt_upper_bound; [lia|]; unfold x; nia). lia. }
  split_and!.
  - rewrite Et, u64_mod. apply Z.mod_mod_divide. by exists B.
  - rewrite Et, shiftr_limb, u64_mod. rewrite Z.rem_mul_r by lia.
    replace ((x mod B + B * ((x / B) mod B)) / B) with ((x / B) mod B).
    + rewrite <- Z.sub_0_l, Zminus_mod_idemp_r, Z.sub_0_l. apply Z.mod_small. lia.
    + rewrite Z.mul_comm, Z.div_add by lia. rewrite (Z.div_small (x mod B)) by (apply Z.mod_pos_bound; lia). lia.
  - lia.
  - lia.
Qed.

Lemma mp_sub_mul1_spec : forall tabr taba b l, length tabr = length taba -> Forall limb tabr -> Forall limb taba -> limb b -> limb l ->
  limbs_of (length taba) (mp_sub_mul1 tabr taba b l).1 /\ limb (mp_sub_mul1 tabr taba b l).2 /\
  lval (mp_sub_mul1 tabr taba b l).1 - B ^ Z.of_nat (length taba) * (mp_sub_mul1 tabr taba b l).2 = lval tabr - lval taba * b - l.
Proof.
  induction tabr as [|r tabr IH]; intros [|a taba] b l Hlen Hr Ha Hb Hl; try done; cbn [mp_sub_mul1].
  - cbn [fst snd length]. split_and!; [apply limbs_nil|done|]. rewrite lval_nil. cbn. lia.
  - apply Forall_cons in Ha as [Ha H1], Hr as [Hr H2]. destruct (sub_mul_step r a b l Hr Ha Hb Hl) as (E1 & E2 & H3). cbv zeta in E1, E2. rewrite E1, E2.
    destruct (IH taba b (- ((r - a * b - l) / B)) ltac:(by injection Hlen) H2 H1 Hb H3) as (Hrs & Hh & E).
    destruct (mp_sub_mul1 tabr taba b (- ((r - a * b - l) / B))) as [res h]. cbn [fst snd length] in *.
    split_and!; [apply limbs_cons; [rewrite <- E1; apply limb_u64|done]|done|]. rewrite !lval_cons, Bpow_S. pose proof (limb_divmod (r - a * b - l)). nia.
Qed.

(** ** Shifts and comparison *)

Lemma lor_disjoint k x y : 0 <= k -> 0 <= x < 2 ^ k -> 0 <= y -> Z.lor (y * 2 ^ k) x = y * 2 ^ k + x.
Proof.
  intros Hk Hx Hy. assert (E : Z.land (y * 2 ^ k) x = 0).
  { apply Z.bits_inj'. intros n Hn. rewrite Z.land_spec, Z.bits_0. destruct (Z.lt_ge_cases n k); [by rewrite Z.mul_pow2_bits_low by lia|].
    destruct (Z.eq_dec x 0) as [->|]; [by rewrite Z.bits_0, andb_false_r|]. rewrite (Z.bits_above_log2 x); [by rewrite andb_false_r|lia|].
    apply Z.lt_le_trans with k; [|done]. apply Z.log2_lt_pow2; lia. }
  rewrite <- Z.lxor_lor by done. by rewrite <- Z.add_nocarry_lxor.
Qed.
Lemma lor_high x y : limb x -> 0 <= y -> Z.lor (y * B) x = y * B + x.
Proof. intros Hx Hy. by apply (lor_disjoint 64). Qed.

Lemma mp_cmp_spec : forall l k, length l = length k -> Forall limb l -> Forall limb k -> mp_cmp l k = Z.sgn (lval l - lval k).
Proof.
  induction l as [|a l IH]; intros [|b k] Hlen Hl Hk; try done. apply Forall_cons in Hl as [Ha Hl], Hk as [Hb Hk].
  cbn [mp_cmp]. rewrite (IH k) by (try done; by injection Hlen). rewrite !lval_cons. unfold limb in *. pose proof B_pos.
  destruct (Z.sgn_spec (lval l - lval k)) as [[H1 E]|[[H1 E]|[H1 E]]]; rewrite E; cbn [Z.eqb negb].
  - rewrite Z.sgn_pos; [done|nia].
  - assert (lval l = lval k) as -> by lia. destruct (Z.eqb_spec a b) as [->|Hne]; cbn [negb]; [by rewrite Z.sub_diag|].
    destruct (Z.ltb_spec a b); [rewrite Z.sgn_neg|rewrite Z.sgn_pos]; lia.
  - rewrite Z.sgn_neg; [done|nia].
Qed.

(** The limb of a shift. *)
Lemma shr_step a l s : limb a -> limb l -> 1 <= s < 64 ->
  Z.lor (Z.shiftr a s) (u64 (Z.shiftl l (LIMB_BITS - s))) = a / 2 ^ s + (l mod 2 ^ s) * 2 ^ (64 - s).
Proof.
  intros Ha Hl Hs. unfold limb, LIMB_BITS in *. rewrite Z.shiftr_div_pow2, Z.shiftl_mul_pow2, u64_mod by lia.
  assert (EB : B = 2 ^ s * 2 ^ (64 - s)) by (rewrite <- Z.pow_add_r by lia; by replace (s + (64 - s)) with 64 by lia).
  assert (0 < 2 ^ s) by (apply Z.pow_pos_nonneg; lia). assert (0 < 2 ^ (64 - s)) by (apply Z.pow_pos_nonneg; lia).
  rewrite EB, Z.mul_mod_distr_r by lia. rewrite Z.lor_comm, lor_disjoint; [lia|lia|..].
  - split; [apply Z.div_pos; lia|]. apply Z.div_lt_upper_bound; lia.
  - apply Z.mod_pos_bound. lia.
Qed.

Lemma mp_shr_loop_spec : forall tab s high, Forall limb tab -> limb high -> 1 <= s < 64 ->
  limbs_of (length tab) (mp_shr_loop tab s high).1 /\ limb (mp_shr_loop tab s high).2 /\
  (mp_shr_loop tab s high).2 = hd high tab /\
  lval tab + B ^ Z.of_nat (length tab) * (high mod 2 ^ s) = lval (mp_shr_loop tab s high).1 * 2 ^ s + hd high tab mod 2 ^ s.
Proof.
  induction tab as [|a tab IH]; intros s high Ht Hh Hs; cbn [mp_shr_loop].
  - cbn [fst snd length hd]. split_and!; [apply limbs_nil|done|done|]. rewrite !lval_nil. cbn. lia.
  - apply Forall_cons in Ht as [Ha Ht]. destruct (IH s high Ht Hh Hs) as (Hr & Hl & El & E). destruct (mp_shr_loop tab s high) as [r l]. cbn [fst snd length hd] in *.
    rewrite (shr_step a l s Ha Hl Hs). assert (EB : B = 2 ^ s * 2 ^ (64 - s)) by (rewrite <- Z.pow_add_r by lia; by replace (s + (64 - s)) with 64 by lia).
    assert (0 < 2 ^ s) by (apply Z.pow_pos_nonneg; lia). assert (0 < 2 ^ (64 - s)) by (apply Z.pow_pos_nonneg; lia).
    pose proof (Z.mod_pos_bound l (2 ^ s) ltac:(lia)). unfold limb in *.
    assert (0 <= a / 2 ^ s < 2 ^ (64 - s)) by (split; [apply Z.div_pos; lia|apply Z.div_lt_upper_bound; lia]).
    split_and!; [apply limbs_cons; [unfold limb; rewrite EB; nia|done]|lia..|].
    rewrite !lval_cons, Bpow_S, <- El in *. pose proof (Z.div_mod a (2 ^ s) ltac:(lia)).
    assert (E3 : B * (lval tab + B ^ Z.of_nat (length tab) * (high mod 2 ^ s)) = B * (lval r * 2 ^ s) + 2 ^ s * 2 ^ (64 - s) * (l mod 2 ^ s)) by (rewrite E, <- EB; ring).
    lia.
Qed.

(** ** Division by one limb *)

Section Udiv.
Context (d : Z) (Hd : 2 ^ 63 <= d < B).

Lemma half_B : B = 2 * 2 ^ 63.
Proof. done. Qed.

Lemma udiv1norm_init_spec : udiv1norm_init d = (B * B - 1) / d - B /\ limb (udiv1norm_init d).
Proof.
  pose proof half_B. unfold udiv1norm_init. rewrite !u64_mod, shiftl_limb.
  replace ((- d - 1) mod B) with (B - 1 - d) by (apply (Z.mod_unique_pos _ _ (-1)); lia).
  replace ((-1) mod B) with (B - 1) by (apply (Z.mod_unique_pos _ _ (-1)); lia).
  rewrite lor_high by (unfold limb; lia). replace ((B - 1 - d) * B + (B - 1)) with (B * B - 1 + (- B) * d) by ring. rewrite Z.div_add by lia.
  assert (Hlo : B <= (B * B - 1) / d) by (apply Z.div_le_lower_bound; nia).
  assert (Hhi : (B * B - 1) / d < 2 * B) by (apply Z.div_lt_upper_bound; nia).
  replace ((B * B - 1) / d + - B) with ((B * B - 1) / d - B) by lia. rewrite Z.mod_small by lia. unfold limb. lia.
Qed.
End Udiv.

(** The quotient that the inverse gives is right or one too small. *)
Lemma udiv_estimate d v a1 a0 t : 2 ^ 63 <= d < B -> v = (B * B - 1) / d -> 0 <= a1 < d -> limb a0 -> t = (if 2 ^ 63 <=? a0 then 1 else 0) ->
  let X := v * (a1 + t) - 2 * t * B + a0 + t * d in let Q := (a1 * B + a0) / d in Q - 1 <= X / B <= Q.
Proof.
  intros Hd Hv Ha1 Ha0 Ht X Q. pose proof half_B. unfold limb in Ha0. assert (0 < 2 ^ 63) by done. set (HB := 2 ^ 63) in *.
  pose proof (Z.div_mod (B * B - 1) d ltac:(lia)) as Ev. pose proof (Z.mod_pos_bound (B * B - 1) d ltac:(lia)) as He. rewrite <- Hv in Ev.
  set (e := (B * B - 1) mod d + 1) in *. assert (Ee : v * d = B * B - e) by (unfold e; lia). assert (He' : 1 <= e <= d) by (unfold e; lia).
  assert (EX : X * d - (a1 * B + a0) * B = t * ((B - d) * (B - d)) - e * (a1 + t) - a0 * (B - d)).
  { replace (X * d) with ((v * d) * (a1 + t) + (a0 + t * d - 2 * t * B) * d) by (unfold X; ring). rewrite Ee.
    destruct (HB <=? a0); subst t; ring. }
  pose proof (Z.div_mod (a1 * B + a0) d ltac:(lia)) as EQ. pose proof (Z.mod_pos_bound (a1 * B + a0) d ltac:(lia)) as HQ. fold Q in EQ.
  assert (Hup : X * d <= (a1 * B + a0) * B).
  { enough (t * ((B - d) * (B - d)) - e * (a1 + t) - a0 * (B - d) <= 0) by lia. destruct (Z.leb_spec HB a0); subst t; [|nia].
    assert ((B - d) * (B - d) <= a0 * (B - d)) by (apply Z.mul_le_mono_nonneg_r; lia). nia. }
  assert (Hlo : (a1 * B + a0) * B - d * B <= X * d).
  { enough (- (d * B) <= t * ((B - d) * (B - d)) - e * (a1 + t) - a0 * (B - d)) by lia. destruct (Z.leb_spec HB a0); subst t.
    - assert (e * (a1 + 1) <= d * d) by (apply Z.mul_le_mono_nonneg; lia). assert ((B - d) * (a0 - B + d) <= (B - d) * (d - 1)) by (apply Z.mul_le_mono_nonneg_l; lia). lia.
    - assert (e * (a1 + 0) <= d * (d - 1)) by (apply Z.mul_le_mono_nonneg; lia). assert (a0 * (B - d) <= d * (B - d)) by (apply Z.mul_le_mono_nonneg_r; lia).
      lia. }
  split.
  - apply Z.div_le_lower_bound; [lia|]. apply (Z.mul_le_mono_pos_r _ _ d); [lia|]. nia.
  - assert (X / B < Q + 1); [|lia]. apply Z.div_lt_upper_bound; [lia|]. apply (Z.mul_lt_mono_pos_r d); [lia|]. nia.
Qed.

Lemma u64_wrap x y : x = y + B -> limb y -> u64 x = y.
Proof. intros -> Hy. rewrite u64_mod. symmetry. apply (Z.mod_unique_pos _ _ 1); [apply Hy|lia]. Qed.

Lemma land_ones_limb x : limb x -> Z.land (B - 1) x = x.
Proof. intros Hx. rewrite Z.land_comm. change (B - 1) with (Z.ones 64). rewrite Z.land_ones by lia. by apply Z.mod_small. Qed.

(** [n1m] is a mask of the top bit of [a0]. *)
Lemma sign_mask a0 : limb a0 -> u64 (Z.shiftr (i64 a0) (LIMB_BITS - 1)) = if 2 ^ 63 <=? a0 then B - 1 else 0.
Proof.
  intros Ha. pose proof half_B. unfold limb, i64, swrap in *. change (2 ^ 64) with B. rewrite (Z.mod_small a0 B) by lia.
  change (64 - 1) with 63. change (LIMB_BITS - 1) with 63. rewrite Z.shiftr_div_pow2 by lia.
  destruct (Z.ltb_spec a0 (2 ^ 63)), (Z.leb_spec (2 ^ 63) a0); try lia.
  - rewrite Z.div_small by lia. done.
  - replace ((a0 - B) / 2 ^ 63) with (-1) by (apply (Z.div_unique_pos _ _ _ (a0 - 2 ^ 63)); lia). rewrite u64_mod. symmetry. apply (Z.mod_unique_pos _ _ (-1)); lia.
Qed.

Lemma udiv1norm_spec a1 a0 d : 2 ^ 63 <= d < B -> 0 <= a1 < d -> limb a0 ->
  udiv1norm a1 a0 d (udiv1norm_init d) = ((a1 * B + a0) / d, (a1 * B + a0) mod d).
Proof.
  intros Hd Ha1 Ha0. pose proof half_B. assert (0 < 2 ^ 63) by done. destruct (udiv1norm_init_spec d Hd) as [Ei Hi]. set (t := if 2 ^ 63 <=? a0 then 1 else 0).
  pose proof (udiv_estimate d _ a1 a0 t Hd eq_refl Ha1 Ha0 eq_refl) as Hest. cbv zeta in Hest.
  set (v := (B * B - 1) / d) in *. set (Q := (a1 * B + a0) / d) in *. unfold udiv1norm. rewrite (sign_mask a0 Ha0).
  assert (E1 : u64 (a1 - (if 2 ^ 63 <=? a0 then B - 1 else 0)) = a1 + t).
  { unfold t. destruct (2 ^ 63 <=? a0); [|rewrite u64_id; unfold limb; lia]. rewrite u64_mod. symmetry. apply (Z.mod_unique_pos _ _ (-1)); lia. }
  assert (E2 : u64 (a0 + Z.land (if 2 ^ 63 <=? a0 then B - 1 else 0) d) = a0 + t * (d - B)).
  { unfold t, limb in *. destruct (Z.leb_spec (2 ^ 63) a0).
    - rewrite land_ones_limb by (unfold limb; lia). apply u64_wrap; unfold limb; lia.
    - rewrite Z.land_0_l, u64_id by (unfold limb; lia). lia. }
  rewrite E1, E2, Ei. assert (Ht : 0 <= t <= 1) by (unfold t; destruct (2 ^ 63 <=? a0); lia).
  assert (Hn : 0 <= a0 + t * (d - B) < B) by (unfold t, limb in *; destruct (Z.leb_spec (2 ^ 63) a0); lia).
  assert (Hp : 0 <= (v - B) * (a1 + t) /\ (v - B) * (a1 + t) + (a0 + t * (d - B)) < B * B) by (rewrite Ei in Hi; unfold limb in *; nia).
  rewrite (u128_id ((v - B) * (a1 + t))), u128_id by lia. rewrite dlimb_high by lia.
  assert (HQ : 0 <= Q < B) by (unfold Q, limb in *; split; [apply Z.div_pos; nia|apply Z.div_lt_upper_bound; nia]).
  assert (E3 : ((v - B) * (a1 + t) + (a0 + t * (d - B))) / B + a1 = (v * (a1 + t) - 2 * t * B + a0 + t * d) / B).
  { rewrite <- Z.div_add by lia. f_equal. ring. }
  rewrite E3. set (q := (v * (a1 + t) - 2 * t * B + a0 + t * d) / B) in *.
  pose proof (Z.div_mod (a1 * B + a0) d ltac:(lia)) as EN. pose proof (Z.mod_pos_bound (a1 * B + a0) d ltac:(lia)) as HR. fold Q in EN.
  set (Rm := (a1 * B + a0) mod d) in *. rewrite shiftl_limb, lor_high by (unfold limb in *; lia).
  assert (Hq0 : 0 <= q).
  { unfold q. apply Z.div_pos; [|lia]. replace (v * (a1 + t) - 2 * t * B + a0 + t * d) with ((v - B) * (a1 + t) + (a0 + t * (d - B)) + a1 * B) by ring. nia. }
  assert (Hq : q = Q \/ q = Q - 1) by lia. destruct Hq as [->| ->].
  - rewrite (u64_id Q) by done. rewrite (u128_id (Q * d)) by nia. rewrite (u128_id (a1 * B + a0 - Q * d)) by nia.
    assert (Ea : u128 (a1 * B + a0 - Q * d - d) = Rm - d + B * B) by (rewrite u128_mod; symmetry; apply (Z.mod_unique_pos _ _ (-1)); nia). rewrite Ea.
    assert (Eh : u64 (Z.shiftr (Rm - d + B * B) LIMB_BITS) = B - 1).
    { rewrite dlimb_high by nia. symmetry. apply (Z.div_unique_pos _ _ _ (Rm - d + B)); lia. }
    rewrite Eh, land_ones_limb by (unfold limb; lia). f_equal.
    + rewrite (u64_wrap (1 + (B - 1)) 0) by (unfold limb; lia). rewrite Z.add_0_r. by apply u64_id.
    + rewrite (u64_mod (Rm - d + B * B)), Z.mod_add by lia. rewrite u64_mod, Z.add_mod_idemp_l by lia. replace (Rm - d + d) with Rm by lia. apply Z.mod_small. lia.
  - rewrite (u64_id (Q - 1)) by (unfold limb; lia). rewrite (u128_id ((Q - 1) * d)) by nia. rewrite (u128_id (a1 * B + a0 - (Q - 1) * d)) by nia.
    assert (Ea : u128 (a1 * B + a0 - (Q - 1) * d - d) = Rm) by (rewrite u128_id; nia). rewrite Ea.
    assert (Eh : u64 (Z.shiftr Rm LIMB_BITS) = 0) by (rewrite dlimb_high by nia; apply Z.div_small; lia).
    rewrite Eh, Z.land_0_l. f_equal.
    + rewrite (u64_id (1 + 0)) by (unfold limb; lia). rewrite u64_id by (unfold limb; lia). lia.
    + rewrite Z.add_0_r, (u64_id Rm) by (unfold limb; lia). apply u64_id. unfold limb. lia.
Qed.

Lemma mp_div1norm_loop_spec div b : 0 < b < B -> (forall r a, 0 <= r < b -> limb a -> div r a = ((r * B + a) / b, (r * B + a) mod b)) ->
  forall taba r, Forall limb taba -> 0 <= r < b ->
  limbs_of (length taba) (mp_div1norm_loop div taba r).1 /\ 0 <= (mp_div1norm_loop div taba r).2 < b /\
  lval (mp_div1norm_loop div taba r).1 * b + (mp_div1norm_loop div taba r).2 = B ^ Z.of_nat (length taba) * r + lval taba.
Proof.
  intros Hb Hdiv. induction taba as [|a taba IH]; intros r Ha Hr; cbn [mp_div1norm_loop].
  - cbn [fst snd length]. split_and!; [apply limbs_nil|lia..|]. rewrite !lval_nil. cbn. lia.
  - apply Forall_cons in Ha as [Ha H1]. destruct (IH r H1 Hr) as (Hq & Hr1 & E). destruct (mp_div1norm_loop div taba r) as [tabr r1]. cbn [fst snd] in *.
    rewrite Hdiv by done. cbn [fst snd length]. pose proof (Z.div_mod (r1 * B + a) b ltac:(lia)). pose proof (Z.mod_pos_bound (r1 * B + a) b ltac:(lia)).
    unfold limb in Ha. split_and!; [apply limbs_cons; [|done]|lia..|].
    + split; [apply Z.div_pos; nia|apply Z.div_lt_upper_bound; nia].
    + rewrite !lval_cons, Bpow_S. nia.
Qed.

Lemma div_dlimb_spec b r a : 0 < b < B -> 0 <= r < b -> limb a -> div_dlimb b r a = ((r * B + a) / b, (r * B + a) mod b).
Proof.
  intros Hb Hr Ha. unfold div_dlimb. rewrite shiftl_limb, lor_high by (try done; lia). unfold limb in Ha.
  pose proof (Z.mod_pos_bound (r * B + a) b ltac:(lia)). rewrite !u64_id; unfold limb; [done|lia|].
  split; [apply Z.div_pos; nia|apply Z.div_lt_upper_bound; nia].
Qed.

Lemma mp_div1norm_spec taba b r : 2 ^ 63 <= b < B -> Forall limb taba -> 0 <= r < b ->
  limbs_of (length taba) (mp_div1norm taba b r).1 /\ 0 <= (mp_div1norm taba b r).2 < b /\
  lval (mp_div1norm taba b r).1 * b + (mp_div1norm taba b r).2 = B ^ Z.of_nat (length taba) * r + lval taba.
Proof.
  intros Hb Ha Hr. assert (0 < 2 ^ 63) by done. unfold mp_div1norm. destruct (_ <=? _); apply mp_div1norm_loop_spec; try done; try lia.
  - intros r' a Hr' Ha'. by apply udiv1norm_spec.
  - intros r' a Hr' Ha'. apply div_dlimb_spec; [lia|done..].
Qed.

(** ** The product *)

Lemma rd_range_app {A} (lo s hi : list A) i n : i = zlen lo -> n = zlen s -> rd_range (lo ++ s ++ hi) i n = Ret s.
Proof.
  intros -> ->. rewrite rd_range_ok by (rewrite ?zlen_app; pose proof (zlen_nonneg lo); pose proof (zlen_nonneg s); pose proof (zlen_nonneg hi); lia).
  unfold zlen. by rewrite !Nat2Z.id, drop_app_length, take_app_length.
Qed.
Lemma wr_range_app {A} (lo s s' hi : list A) i : i = zlen lo -> length s' = length s -> wr_range (lo ++ s ++ hi) i s' = Ret (lo ++ s' ++ hi).
Proof.
  intros -> Hs. rewrite wr_range_ok by (unfold zlen; rewrite ?length_app; lia). do 2 f_equal; [unfold zlen; by rewrite Nat2Z.id, take_app_length|].
  f_equal. rewrite app_assoc. replace (Z.to_nat (zlen lo + zlen s')) with (length (lo ++ s)) by (unfold zlen; rewrite length_app; lia). by rewrite drop_app_length.
Qed.
Lemma wr_app {A} (lo hi : list A) x y i : i = zlen lo -> wr (lo ++ x :: hi) i y = Ret (lo ++ y :: hi).
Proof.
  intros ->. rewrite wr_ok by (unfold zlen; rewrite length_app; cbn; lia). f_equal. unfold zlen. by rewrite Nat2Z.id, insert_app_r_alt, Nat.sub_diag by lia.
Qed.
Lemma rd_app {A} (lo hi : list A) x i : i = zlen lo -> rd (lo ++ x :: hi) i = Ret x.
Proof. intros ->. apply rd_Ret. unfold zlen. rewrite Nat2Z.id. split; [lia|]. by apply list_lookup_middle. Qed.

Lemma split_at {A} (l : list A) n m : length l = (n + m)%nat -> exists lo hi, l = lo ++ hi /\ length lo = n /\ length hi = m.
Proof. intros E. exists (take n l), (drop n l). rewrite take_drop, length_take, length_drop. split_and!; [done|lia..]. Qed.

Lemma wp_mul_step op1 op2 b result lo hi i : Forall limb op1 -> limb b -> op2 !! Z.to_nat i = Some b -> 0 <= i ->
  result = lo ++ hi -> limbs_of (Z.to_nat i + length op1) lo -> hi <> [] ->
  wp (b ← rd op2 i;
      s ← rd_range result i (zlen op1);
      let '(s, r) := mp_add_mul1 s op1 b 0 in
      result ← wr_range result i s;
      wr result (i + zlen op1) r)
    (fun result' => exists lo', result' = lo' ++ tail hi /\ limbs_of (Z.to_nat (i + 1) + length op1) lo' /\ lval lo' = lval lo + B ^ i * (lval op1 * b)).
Proof.
  intros H1 Hb Eb Hi -> [Hlen Hlo] Hne. destruct hi as [|x hi]; [done|]. apply wp_bind. rewrite (proj2 (rd_Ret op2 i b)) by done. cbn [wp].
  destruct (split_at lo (Z.to_nat i) (length op1) Hlen) as (l0 & s & -> & El0 & Es). apply Forall_app in Hlo as [H0 Hs].
  rewrite <- app_assoc. apply wp_bind. rewrite rd_range_app by (unfold zlen; lia). cbn [wp].
  destruct (mp_add_mul1_spec s op1 b 0 Es Hs H1 Hb ltac:(done)) as ([Hl' Hs'] & Hh & E). destruct (mp_add_mul1 s op1 b 0) as [s' r]. cbn [fst snd] in *.
  apply wp_bind. rewrite wr_range_app by (unfold zlen; lia). cbn [wp]. rewrite app_assoc, wr_app by (unfold zlen; rewrite length_app; lia). cbn [wp tail].
  exists (l0 ++ s' ++ [r]). split_and!; [by rewrite <- !app_assoc| |].
  - split; [rewrite !length_app; cbn; lia|]. rewrite !Forall_app. split_and!; [done..|by constructor].
  - rewrite !lval_app, lval_cons, lval_nil, El0, Hl', Z2Nat.id by lia. rewrite !Z.mul_0_r, !Z.add_0_r in *. rewrite E. ring.
Qed.

Lemma lval_take_S op2 i b : op2 !! i = Some b -> lval (take (S i) op2) = lval (take i op2) + B ^ Z.of_nat i * b.
Proof.
  intros E. rewrite (take_S_r _ _ _ E), lval_app, lval_cons, lval_nil, length_take. pose proof (lookup_lt_Some _ _ _ E). rewrite Nat.min_l by lia. ring.
Qed.

Lemma wp_mp_mul_basecase result op1 op2 : op2 <> [] -> Forall limb op1 -> Forall limb op2 -> length result = (length op1 + length op2)%nat ->
  wp (mp_mul_basecase result op1 op2) (fun res => limbs_of (length op1 + length op2) res /\ lval res = lval op1 * lval op2).
Proof.
  intros Hne H1 H2 Hlen. destruct op2 as [|b0 op2]; [done|]. unfold mp_mul_basecase. cbn [length] in Hlen.
  pose proof (proj1 (Forall_cons _ _ _) H2) as [Hb0 _]. apply wp_bind. rewrite (proj2 (rd_Ret (b0 :: op2) 0 b0)) by done. cbn [wp].
  destruct (split_at result (length op1) (S (length op2)) Hlen) as (lo & hi & -> & El & Eh). destruct hi as [|x hi]; [done|].
  apply wp_bind. rewrite (rd_range_app [] lo (x :: hi)) by (unfold zlen; cbn; lia). cbn [wp].
  destruct (mp_mul1_spec op1 b0 0 H1 Hb0 ltac:(done)) as ([Hl' Hs'] & Hh & E). destruct (mp_mul1 op1 b0 0) as [r h]. cbn [fst snd] in *.
  apply wp_bind. rewrite (wr_range_app [] lo r (x :: hi)) by (done || congruence). cbn [wp]. rewrite app_nil_l. apply wp_bind. rewrite wr_app by (unfold zlen; lia). cbn [wp].
  apply (wp_foldM (fun res rest => exists i lo hi, rest = seqZ i (zlen (b0 :: op2) - i) /\ 1 <= i <= zlen (b0 :: op2) /\ res = lo ++ hi /\
    limbs_of (Z.to_nat i + length op1) lo /\ length hi = (length (b0 :: op2) - Z.to_nat i)%nat /\ lval lo = lval op1 * lval (take (Z.to_nat i) (b0 :: op2)))).
  - intros res j rest (i & lo1 & hi1 & Es & Hi & Er & Hlo1 & Hhi & Ev). destruct (Z.lt_ge_cases i (zlen (b0 :: op2))) as [Hlt|].
    2:{ rewrite seqZ_nil in Es by lia. done. }
    rewrite seqZ_cons in Es by lia. injection Es as -> ->. unfold zlen in *. destruct (lookup_lt_is_Some_2 (b0 :: op2) (Z.to_nat i) ltac:(lia)) as [b Eb].
    eapply wp_mono; [apply (wp_mul_step op1 (b0 :: op2) b res lo1 hi1 i); try done; [|lia|]|].
    + exact (Forall_lookup_1 _ _ _ _ H2 Eb).
    + destruct hi1; [cbn [length] in *; lia|done].
    + intros res' (lo' & -> & Hlo' & Ev'). exists (i + 1), lo', (tail hi1). split_and!; try done; try lia.
      * f_equal; lia.
      * destruct hi1; cbn [length tail] in *; lia.
      * rewrite Ev', Ev. replace (Z.to_nat (i + 1)) with (S (Z.to_nat i)) by lia. rewrite (lval_take_S _ _ _ Eb), Z2Nat.id by lia. ring.
  - intros res (i & lo1 & hi1 & Es & Hi & -> & [Hl1 Hlo1] & Hhi & Ev). assert (Hi' : i = zlen (b0 :: op2)).
    { destruct (Z.lt_ge_cases i (zlen (b0 :: op2))); [|lia]. rewrite seqZ_cons in Es by lia. done. }
    subst i. unfold zlen in *. rewrite Nat2Z.id in *. rewrite take_ge in Ev by lia. destruct hi1; [|cbn [length] in *; lia]. rewrite app_nil_r.
    split; [|done]. split; [rewrite Hl1; lia|done].
  - exists 1, (r ++ [h]), hi. split_and!; try done; [unfold zlen; cbn [length]; lia|by rewrite <- app_assoc| |cbn [length] in *; lia|].
    + split; [rewrite length_app; cbn; lia|]. apply Forall_app. split; [done|by constructor].
    + change (Z.to_nat 1) with 1%nat. cbn [take]. rewrite lval_app, !lval_cons, !lval_nil, Hl'. rewrite !Z.mul_0_r, !Z.add_0_r in *. lia.
Qed.

(** ** Division *)

(** The quotient limb that two limbs by one give is at most two too large. *)
Lemma knuth_estimate P b1 b' h l w' q : 0 < P -> 2 ^ 63 <= b1 < B -> 0 <= b' < P -> 0 <= h -> limb l -> 0 <= w' < P ->
  (h * B + l) * P + w' < B * (b1 * P + b') -> q = (if b1 <=? h then B - 1 else (h * B + l) / b1) ->
  let b := b1 * P + b' in let w := (h * B + l) * P + w' in limb q /\ w - q * b < b /\ 0 <= w - q * b + 2 * b.
Proof.
  intros HP Hb1 Hb' Hh Hl Hw' Hlt Hq b w. pose proof half_B. unfold limb in *. assert (0 < 2 ^ 63) by done.
  assert (Hb : 0 < b) by (unfold b; nia). assert (Hqs : 0 <= q < B /\ q * b1 <= h * B + l /\ w < (q + 1) * b).
  { subst q. destruct (Z.leb_spec b1 h).
    - split_and!; [lia..|nia|]. fold b w in Hlt. replace (B - 1 + 1) with B by lia. done.
    - pose proof (Z.div_mod (h * B + l) b1 ltac:(lia)) as E. pose proof (Z.mod_pos_bound (h * B + l) b1 ltac:(lia)) as Hm. set (q := (h * B + l) / b1) in *.
      split_and!; [apply Z.div_pos; nia|apply Z.div_lt_upper_bound; nia|lia|]. assert (h * B + l <= q * b1 + (b1 - 1)) by lia.
      assert (w <= (q * b1 + (b1 - 1)) * P + w') by (unfold w; nia). assert (0 <= q) by (apply Z.div_pos; nia). unfold b. nia. }
  destruct Hqs as (Hq1 & Hq2 & Hq3). split_and!; [lia..|lia|]. assert (q * b1 * P <= w) by (unfold w; nia).
  assert (q * b' <= (B - 1) * P) by (apply Z.mul_le_mono_nonneg; lia). unfold b in *. nia.
Qed.

Section Divnorm.
Context (tabb : list Z) (nb : nat) (b1 b1_inv : Z).
Context (Hlen : length tabb = nb) (Hnb : (2 <= nb)%nat) (Hlimbs : Forall limb tabb) (Hb1 : tabb !! (nb - 1)%nat = Some b1) (Hnorm : 2 ^ 63 <= b1).
Context (Hinv : b1_inv = 0 \/ b1_inv = udiv1norm_init b1).

Notation b := (lval tabb).

Lemma divnorm_b1 : limb b1.
Proof. exact (Forall_lookup_1 _ _ _ _ Hlimbs Hb1). Qed.

Lemma divnorm_b : exists b', 0 <= b' < B ^ Z.of_nat (nb - 1) /\ b = b1 * B ^ Z.of_nat (nb - 1) + b'.
Proof.
  destruct (split_at tabb (nb - 1) 1 ltac:(lia)) as (lo & hi & E & El & Eh). destruct hi as [|x [|]]; try done. rewrite E in *.
  rewrite lookup_app_r in Hb1 by lia. rewrite El, Nat.sub_diag in Hb1. injection Hb1 as ->. exists (lval lo). rewrite lval_app, lval_cons, lval_nil, El.
  split; [|lia]. rewrite <- El. apply lval_bounds. by apply Forall_app in Hlimbs as [? _].
Qed.

(** The loop that corrects the quotient adds [b] until the number wraps. *)
Notation corrects := (divnorm_correct tabb (Z.of_nat nb)).

Lemma corrects_step lo s a hi q i w : i = zlen lo -> limbs_of nb s -> limb a -> limb q -> 0 <= w ->
  lval s + B ^ Z.of_nat nb * a = w - q * b + B ^ Z.of_nat nb * B -> w - q * b < 0 ->
  exists s' a', limbs_of nb s' /\ limb a' /\ limb (q - 1) /\
    ((0 <= w - (q - 1) * b /\ corrects i (q, lo ++ s ++ a :: hi) = Ret (inr (q - 1, lo ++ s' ++ a' :: hi)) /\ lval s' + B ^ Z.of_nat nb * a' = w - (q - 1) * b) \/
     (w - (q - 1) * b < 0 /\ corrects i (q, lo ++ s ++ a :: hi) = Ret (inl (q - 1, lo ++ s' ++ a' :: hi)) /\
      lval s' + B ^ Z.of_nat nb * a' = w - (q - 1) * b + B ^ Z.of_nat nb * B)).
Proof.
  intros -> [Es Hs] Ha Hq Hw E Hneg. pose proof half_B. assert (Hq1 : limb (q - 1)) by (unfold limb in *; assert (q <> 0) by (intros ->; lia); lia).
  unfold divnorm_correct. rewrite (u64_id (q - 1)) by done. rewrite (rd_range_app lo s (a :: hi)) by (unfold zlen; lia). cbn [mbind outcome_bind].
  destruct (mp_add_spec s tabb 0 ltac:(lia) Hs Hlimbs ltac:(lia)) as ([El' Hs'] & Hc & Ev). destruct (mp_add s tabb 0) as [s' c]. cbn [fst snd] in *.
  rewrite wr_range_app by (try done; lia). cbn [mbind outcome_bind]. rewrite Es in *. pose proof (Bpow_pos nb). set (P := B ^ Z.of_nat nb) in *.
  pose proof (lval_bounds s' Hs') as Hbs. rewrite El' in Hbs. fold P in Hbs. unfold limb in Ha.
  assert (Hcase : c = 0 \/ c = 1) by lia. destruct Hcase as [->| ->]; cbn [Z.eqb negb].
  - exists s', a. split_and!; [by split|done..|]. right. split_and!; [nia|done|lia].
  - rewrite app_assoc. rewrite rd_app by (unfold zlen; rewrite length_app; lia). cbn [mbind outcome_bind].
    rewrite wr_app by (unfold zlen; rewrite length_app; lia). cbn [mbind outcome_bind]. rewrite <- app_assoc. exists s', (u64 (a + 1)). split_and!; [by split|apply limb_u64|done|].
    destruct (Z.eq_dec a (B - 1)) as [->|Hne].
    + left. assert (E0 : u64 (B - 1 + 1) = 0) by (apply u64_wrap; [lia|done]). rewrite E0. cbn [Z.eqb]. split_and!; [nia|done|lia].
    + right. rewrite (u64_id (a + 1)) by (unfold limb; lia). destruct (Z.eqb_spec (a + 1) 0); [lia|]. split_and!; [nia|done|lia].
Qed.

Lemma wp_corrects lo s a hi q i w k : (1 <= k <= 2)%nat -> i = zlen lo -> limbs_of nb s -> limb a -> limb q -> 0 <= w ->
  lval s + B ^ Z.of_nat nb * a = w - q * b + B ^ Z.of_nat nb * B -> w - q * b < 0 -> 0 <= w - q * b + Z.of_nat k * b ->
  wp (loop (S k) (corrects i) (q, lo ++ s ++ a :: hi)) (fun '(q', t) => exists s' a', t = lo ++ s' ++ a' :: hi /\ limbs_of nb s' /\ limb a' /\ limb q' /\
    lval s' + B ^ Z.of_nat nb * a' = w - q' * b /\ 0 <= w - q' * b < b).
Proof.
  revert s a q. induction k as [|k IH]; intros s a q Hk Hi Hs Ha Hq Hw E Hneg Hpos; [lia|].
  destruct (corrects_step lo s a hi q i w Hi Hs Ha Hq Hw E Hneg) as (s' & a' & Hs' & Ha' & Hq' & [(H1 & E1 & E2)|(H1 & E1 & E2)]).
  - cbn [loop]. rewrite E1. cbn [wp]. exists s', a'. split_and!; try done; lia.
  - destruct k as [|k]; [lia|]. change (wp (match corrects i (q, lo ++ s ++ a :: hi) with Ret (inl s0) => loop (S (S k)) (corrects i) s0 | Ret (inr r) => Ret r | Fault f => Fault f end)
      (fun '(q', t) => exists s' a', t = lo ++ s' ++ a' :: hi /\ limbs_of nb s' /\ limb a' /\ limb q' /\ lval s' + B ^ Z.of_nat nb * a' = w - q' * b /\ 0 <= w - q' * b < b)).
    rewrite E1. apply IH; try done; try lia.
Qed.

(** The limb that a step computes first. *)
Lemma quotient_limb h l : 0 <= h < b1 -> limb l -> (if negb (b1_inv =? 0) then fst (udiv1norm h l b1 b1_inv) else u64 (Z.lor (Z.shiftl h LIMB_BITS) l / b1)) = (h * B + l) / b1.
Proof.
  intros Hh Hl. pose proof divnorm_b1 as Hb. unfold limb in *. pose proof half_B. destruct (Z.eqb_spec b1_inv 0) as [E|E]; cbn [negb].
  - rewrite shiftl_limb, lor_high by (try done; lia). apply u64_id. split; [apply Z.div_pos; nia|apply Z.div_lt_upper_bound; nia].
  - destruct Hinv as [?| ->]; [done|]. by rewrite udiv1norm_spec by (unfold limb; lia).
Qed.

Lemma wp_divnorm_step lo s h hi tabq i x : i = zlen lo -> limbs_of nb s -> limb h -> tabq !! Z.to_nat i = Some x -> lval s + B ^ Z.of_nat nb * h < B * b ->
  wp (divnorm_step tabb (Z.of_nat nb) b1 b1_inv (tabq, lo ++ s ++ h :: hi) i) (fun '(tabq', t) => exists q s' a', tabq' = <[Z.to_nat i := q]> tabq /\
    t = lo ++ s' ++ a' :: hi /\ limbs_of nb s' /\ limb a' /\ limb q /\ lval s' + B ^ Z.of_nat nb * a' = lval s + B ^ Z.of_nat nb * h - q * b /\
    0 <= lval s' + B ^ Z.of_nat nb * a' < b).
Proof.
  intros Hi Hs Hh Hx Hlt. destruct divnorm_b as (b' & Hb' & Eb). pose proof divnorm_b1 as Hb1l. pose proof Hs as [Es Hsl].
  destruct (split_at s (nb - 1) 1 ltac:(lia)) as (sl & sh & E & El & Eh). destruct sh as [|l [|]]; try done.
  assert (Hl : limb l /\ Forall limb sl) by (rewrite E, Forall_app, Forall_singleton in Hsl; naive_solver). destruct Hl as [Hl Hsl'].
  assert (Ew : lval s + B ^ Z.of_nat nb * h = (h * B + l) * B ^ Z.of_nat (nb - 1) + lval sl).
  { rewrite E, lval_app, lval_cons, lval_nil, El. replace nb with (S (nb - 1)) at 2 by lia. rewrite Bpow_S. ring. }
  set (w := lval s + B ^ Z.of_nat nb * h) in *. pose proof (lval_bounds sl Hsl') as Hbsl. rewrite El in Hbsl.
  set (q := if b1 <=? h then B - 1 else (h * B + l) / b1).
  destruct (knuth_estimate (B ^ Z.of_nat (nb - 1)) b1 b' h l (lval sl) q) as (Hq & Hq1 & Hq2); try done; [apply Bpow_pos|split; [done|apply Hb1l]|apply Hh|rewrite <- Ew, <- Eb; done|].
  rewrite <- Ew, <- Eb in Hq1, Hq2. unfold divnorm_step. rewrite app_assoc. rewrite (rd_app (lo ++ s) hi h (i + Z.of_nat nb)) by (unfold zlen in *; rewrite length_app; lia). cbn [mbind outcome_bind].
  rewrite <- app_assoc. assert (Erl : rd (lo ++ s ++ h :: hi) (i + Z.of_nat nb - 1) = Ret l).
  { rewrite E, <- !app_assoc, app_assoc. cbn [app]. apply rd_app. unfold zlen in *. rewrite length_app. lia. }
  rewrite Erl. cbn [mbind outcome_bind].
  assert (Eq : (if b1 <=? h then u64 (-1) else if negb (b1_inv =? 0) then fst (udiv1norm h l b1 b1_inv) else u64 (Z.lor (Z.shiftl h LIMB_BITS) l / b1)) = q).
  { unfold q. destruct (Z.leb_spec b1 h); [done|]. apply quotient_limb; [unfold limb in Hh; lia|done]. }
  rewrite Eq. rewrite (rd_range_app lo s (h :: hi)) by (unfold zlen in *; lia). cbn [mbind outcome_bind].
  destruct (mp_sub_mul1_spec s tabb q 0 ltac:(lia) Hsl Hlimbs Hq ltac:(done)) as ([El' Hs'] & Hr & Ev). destruct (mp_sub_mul1 s tabb q 0) as [s' r]. cbn [fst snd] in *. rewrite Hlen in *.
  rewrite wr_range_app by (try done; lia). cbn [mbind outcome_bind]. rewrite app_assoc. rewrite (rd_app (lo ++ s') hi h (i + Z.of_nat nb)) by (unfold zlen in *; rewrite length_app; lia). cbn [mbind outcome_bind].
  rewrite wr_app by (unfold zlen in *; rewrite length_app; lia). cbn [mbind outcome_bind]. rewrite <- app_assoc.
  pose proof (sub_borrow h r Hh Hr) as Eb2. set (a := u64 (h - r)) in *. pose proof (limb_u64 (h - r)) as Ha. fold a in Ha. pose proof (Bpow_pos nb) as HP. set (P := B ^ Z.of_nat nb) in *.
  pose proof (lval_bounds s' Hs') as Hbs. rewrite El' in Hbs. fold P in Hbs. pose proof (lookup_lt_Some _ _ _ Hx) as Hxl. unfold limb in Hh, Ha, Hr.
  assert (Hpost : forall q' s' a', limbs_of nb s' -> limb a' -> limb q' -> lval s' + P * a' = w - q' * b -> 0 <= w - q' * b < b ->
    wp (tabq' ← wr tabq i q'; Ret (tabq', lo ++ s' ++ a' :: hi)) (fun '(tabq', t) => exists q s'0 a', tabq' = <[Z.to_nat i := q]> tabq /\
    t = lo ++ s'0 ++ a' :: hi /\ limbs_of nb s'0 /\ limb a' /\ limb q /\ lval s'0 + P * a' = w - q * b /\ 0 <= lval s'0 + P * a' < b)).
  { intros q' s1 a1 H1 H2 H3 H4 H5. rewrite wr_ok by (subst i; unfold zlen in *; lia). cbn. exists q', s1, a1. rewrite H4. split_and!; try done; lia. }
  pose proof (lval_bounds s Hsl) as Hbw. assert (Hw : 0 <= w) by (unfold w; nia). destruct (h <? a); cbn [b2z] in Eb2.
  - assert (E3 : lval s' + P * a = w - q * b + P * B) by (replace a with (h - r + B * 1) by lia; unfold w; lia).
    apply wp_bind. eapply wp_mono; [apply (wp_corrects lo s' a hi q i w 2); [lia|done|by split|done|done|done|done|nia|lia]|].
    intros [q' t] (s2 & a2 & -> & H1 & H2 & H3 & H4 & H5). by apply Hpost.
  - assert (E3 : lval s' + P * a = w - q * b) by (replace a with (h - r) by lia; unfold w; lia).
    cbn [mbind outcome_bind]. apply Hpost; [by split|done|done|done|nia].
Qed.
End Divnorm.

(** The state after the quotient limbs from [j] up are known. *)
Definition divnorm_inv (tabb taba0 : list Z) (n : nat) (j : Z) (st : list Z * list Z) : Prop :=
  let '(tabq, taba) := st in
  0 <= j /\ length tabq = S n /\ Forall limb (drop (Z.to_nat j) tabq) /\ limbs_of (length taba0) taba /\
  lval (drop (Z.to_nat j) taba) < lval tabb /\ lval taba0 = lval (drop (Z.to_nat j) tabq) * B ^ j * lval tabb + lval taba.

Lemma high_zero P x y b : 0 < P -> 0 <= x -> 0 <= y -> x + P * y < b -> b <= P -> y = 0.
Proof. nia. Qed.
Lemma drop_insert_same {A} (l : list A) i x : (i < length l)%nat -> drop i (<[i := x]> l) = x :: drop (S i) l.
Proof. intros Hi. rewrite drop_insert_ge, Nat.sub_diag by lia. destruct (lookup_lt_is_Some_2 l i Hi) as [y Ey]. by rewrite (drop_S l y i Ey). Qed.

Lemma wp_divnorm_loop tabb taba0 b1 b1_inv n : (2 <= length tabb)%nat -> Forall limb tabb -> tabb !! (length tabb - 1)%nat = Some b1 -> 2 ^ 63 <= b1 ->
  b1_inv = 0 \/ b1_inv = udiv1norm_init b1 -> (length taba0 = n + length tabb)%nat ->
  forall st i, divnorm_inv tabb taba0 n (i + 1) st -> 0 <= i < Z.of_nat n -> wp (divnorm_step tabb (Z.of_nat (length tabb)) b1 b1_inv st i) (divnorm_inv tabb taba0 n i).
Proof.
  intros Hnb Hlb Hb1 Hnorm Hinv Hlen [tabq taba] i (_ & Hq & Hql & [Ht Hta] & Hlt & E) Hi. pose proof half_B.
  destruct (split_at taba (Z.to_nat i) (length tabb + S (n - 1 - Z.to_nat i)) ltac:(lia)) as (lo & rest & -> & El & Er).
  destruct (split_at rest (length tabb) (S (n - 1 - Z.to_nat i)) ltac:(lia)) as (s & hi & -> & Es & Eh). destruct hi as [|h hi]; [done|].
  rewrite !Forall_app, Forall_cons in Hta. destruct Hta as (Hlo & Hs & Hh & Hhi). destruct s as [|s0 s]; [cbn in Es; lia|].
  assert (Ed : drop (Z.to_nat (i + 1)) (lo ++ (s0 :: s) ++ h :: hi) = s ++ h :: hi).
  { replace (Z.to_nat (i + 1)) with (length (lo ++ [s0])) by (rewrite length_app; cbn; lia). replace (lo ++ (s0 :: s) ++ h :: hi) with ((lo ++ [s0]) ++ s ++ h :: hi) by (by rewrite <- app_assoc). apply drop_app_length. }
  rewrite Ed in Hlt. pose proof (lval_bounds tabb Hlb) as Hbb. pose proof (lval_bounds hi Hhi) as Hbhi. pose proof (proj1 (Forall_cons _ _ _) Hs) as [Hs0 Hs1].
  set (P := B ^ Z.of_nat (length tabb)) in *.
  assert (Ew : s0 + B * lval (s ++ h :: hi) = lval (s0 :: s) + P * (h + B * lval hi)).
  { rewrite <- lval_cons, app_comm_cons, lval_app, (lval_cons h), Es. done. }
  pose proof (lval_bounds (s0 :: s) Hs) as Hbs. rewrite Es in Hbs. fold P in Hbs. unfold limb in Hh, Hs0.
  assert (Ehi : lval hi = 0).
  { destruct (Z.eq_dec (lval hi) 0); [done|]. exfalso. assert (1 <= lval hi) by lia. assert (s0 + B * lval (s ++ h :: hi) < B * P) by nia. nia. }
  assert (Hw : lval (s0 :: s) + P * h < B * lval tabb) by nia.
  destruct (lookup_lt_is_Some_2 tabq (Z.to_nat i) ltac:(lia)) as [x Hx].
  eapply wp_mono; [eapply (wp_divnorm_step tabb (length tabb) b1 b1_inv); try done; unfold zlen; lia|].
  intros [tabq' t] (q & s' & a' & -> & -> & [Hs'l Hs'] & Ha' & Hq' & E1 & H1). fold P in E1, H1.
  unfold divnorm_inv. rewrite length_insert. rewrite drop_insert_same by lia. replace (S (Z.to_nat i)) with (Z.to_nat (i + 1)) by lia.
  replace (drop (Z.to_nat i) (lo ++ s' ++ a' :: hi)) with (s' ++ a' :: hi) by (by rewrite <- El, drop_app_length).
  assert (Ev : lval (s' ++ a' :: hi) = lval s' + P * a') by (rewrite lval_app, lval_cons, Hs'l, Ehi; fold P; ring).
  split_and!; try done; [lia|by constructor| |lia|].
  - split; [rewrite length_app in Ht |- *; rewrite length_app in Ht |- *; cbn [length] in *; lia|]. rewrite !Forall_app, Forall_cons. done.
  - rewrite E, (lval_app lo (s' ++ _)), Ev, E1, lval_cons, lval_app, lval_app, (lval_cons h), Ehi, Es, El, Z2Nat.id by lia. fold P. rewrite Z.pow_add_r, Z.pow_1_r by lia. ring.
Qed.

Lemma divnorm_end tabb taba0 n tq ta : divnorm_inv tabb taba0 n 0 (tq, ta) -> Forall limb tabb -> (length tabb <= length taba0)%nat ->
  limbs_of (S n) tq /\ length ta = length taba0 /\ lval taba0 = lval tq * lval tabb + lval (take (length tabb) ta) /\ 0 <= lval (take (length tabb) ta) < lval tabb.
Proof.
  intros (_ & Hl & Hql & [Htl Htt] & Hlt & E) Hb Hle. change (Z.to_nat 0) with O in *. rewrite !drop_0 in *. rewrite Z.pow_0_r, Z.mul_1_r in E.
  assert (Hb1' := lval_bounds (take (length tabb) ta) ltac:(by apply Forall_take)). assert (Hb2' := lval_bounds (drop (length tabb) ta) ltac:(by apply Forall_drop)).
  assert (Ets : lval ta = lval (take (length tabb) ta) + B ^ Z.of_nat (length tabb) * lval (drop (length tabb) ta)).
  { rewrite <- (take_drop (length tabb) ta) at 1. by rewrite lval_app, length_take, Nat.min_l by lia. }
  assert (E0 : lval (drop (length tabb) ta) = 0).
  { eapply (high_zero _ (lval (take (length tabb) ta)) _ (lval tabb)); [apply Bpow_pos|apply Hb1'|apply Hb2'|by rewrite <- Ets|apply Z.lt_le_incl, lval_bounds, Hb]. }
  rewrite E0, Z.mul_0_r, Z.add_0_r in Ets. rewrite <- Ets. split_and!; [by split|done..|rewrite Ets; apply Hb1'|done].
Qed.

(** The first quotient limb is 0 or 1. *)
Lemma divnorm_start tabb lo s s' q tabq : length s = length tabb -> Forall limb lo -> limbs_of (length tabb) s' -> length tabq = S (length lo) ->
  0 <= q <= 1 -> lval s' < lval tabb -> lval s = q * lval tabb + lval s' ->
  divnorm_inv tabb (lo ++ s) (length lo) (Z.of_nat (length lo)) (<[length lo := q]> tabq, lo ++ s').
Proof.
  intros Es Hlo [Hs1 Hs2] Hq Hq1 Hlt E. unfold divnorm_inv. rewrite Nat2Z.id, length_insert, drop_insert_same, drop_app_length by (clear -Hq; lia).
  rewrite drop_ge by (clear -Hq; lia). split_and!; [clear; lia|done|constructor; [|done]| |done|].
  - clear -Hq1. pose proof B_pos. unfold limb. lia.
  - split; [rewrite !length_app; clear -Hs1 Es; lia|]. by rewrite Forall_app.
  - rewrite !lval_app, lval_cons, lval_nil, E. ring.
Qed.

Lemma normalized_half tabb b1 : tabb !! (length tabb - 1)%nat = Some b1 -> 2 ^ 63 <= b1 -> Forall limb tabb -> (2 <= length tabb)%nat ->
  B ^ Z.of_nat (length tabb) <= 2 * lval tabb.
Proof.
  intros Hb1 Hn Hb Hl. destruct (divnorm_b tabb (length tabb) b1) as (b' & Hb' & Eb); [done..|]. pose proof half_B.
  replace (length tabb) with (S (length tabb - 1)) at 1 by lia. rewrite Bpow_S, Eb. pose proof (Bpow_pos (length tabb - 1)).
  set (P := B ^ Z.of_nat (length tabb - 1)) in *. clearbody P. clear -Hb' Hn H H0. set (HB := 2 ^ 63) in *. clearbody HB. nia.
Qed.

Lemma sgn_lt x y : (Z.sgn (x - y) <? 0) = (x <? y).
Proof. destruct (Z.ltb_spec x y); [rewrite Z.sgn_neg by lia; done|]. destruct (Z.ltb_spec (Z.sgn (x - y)) 0) as [Hs|]; [apply Z.sgn_neg_iff in Hs; lia|done]. Qed.

Lemma wp_divnorm_first tabb b1 lo s n tabq : tabb !! (length tabb - 1)%nat = Some b1 -> 2 ^ 63 <= b1 -> Forall limb tabb -> (2 <= length tabb)%nat ->
  length lo = n -> length s = length tabb -> Forall limb lo -> Forall limb s ->
  (forall s', length s' = length s -> wr_range (lo ++ s) (Z.of_nat n) s' = Ret (lo ++ s')) -> length tabq = S n ->
  let q := if Z.sgn (lval s - lval tabb) <? 0 then 0 else 1 in
  wp (if negb (q =? 0) then wr_range (lo ++ s) (Z.of_nat n) (fst (mp_sub s tabb 0)) else Ret (lo ++ s))
    (fun t => divnorm_inv tabb (lo ++ s) n (Z.of_nat n) (<[n := q]> tabq, t)).
Proof.
  intros Hb1 Hn Hb Hl <- Es Hlo Hs Ewr Hq. cbv zeta. rewrite sgn_lt. destruct (Z.ltb_spec (lval s) (lval tabb)) as [Hlt|Hge]; cbn [Z.eqb negb].
  - apply wp_ret. apply divnorm_start; [done..|lia|done|lia].
  - pose proof (normalized_half tabb b1 Hb1 Hn Hb Hl) as Hbig. pose proof (lval_bounds s Hs) as Hbs. rewrite Es in Hbs.
    destruct (mp_sub_spec s tabb 0 Es Hs Hb ltac:(lia)) as ([Hs1 Hs2] & Hk & E). destruct (mp_sub s tabb 0) as [s' k]. cbn [fst snd] in *.
    rewrite Ewr by done. cbn [wp]. pose proof (lval_bounds s' Hs2) as Hbs'. rewrite Hs1, Es in *. pose proof (Bpow_pos (length tabb)).
    set (P := B ^ Z.of_nat (length tabb)) in *. clearbody P. assert (k = 0) by (clear -Hbs Hbs' Hk E Hge H; nia). subst k.
    apply divnorm_start; [done|done|by split|done|lia|lia|lia].
Qed.

(** [mp_divnorm] divides. *)
Lemma wp_mp_divnorm tabq taba tabb b1 : tabb !! (length tabb - 1)%nat = Some b1 -> 2 ^ 63 <= b1 -> Forall limb taba -> Forall limb tabb ->
  (length tabb <= length taba)%nat -> length tabq = (length taba - length tabb + 1)%nat ->
  Z.min (zlen taba - zlen tabb) (zlen tabb) < DIVNORM_LARGE_THRESHOLD ->
  wp (mp_divnorm tabq taba tabb) (fun r => exists tabq' taba', r = Some (tabq', taba') /\ limbs_of (length tabq) tabq' /\ length taba' = length taba /\
    lval taba = lval tabq' * lval tabb + lval (take (length tabb) taba') /\ 0 <= lval (take (length tabb) taba') < lval tabb).
Proof.
  intros Hb1 Hnorm Ha Hb Hle Hlq Hmin. pose proof half_B. pose proof (lookup_lt_Some _ _ _ Hb1) as Hl1. pose proof (Forall_lookup_1 _ _ _ _ Hb Hb1) as Hb1l.
  unfold mp_divnorm. apply wp_bind. rewrite (proj2 (rd_Ret tabb (zlen tabb - 1) b1)) by (unfold zlen; split; [lia|rewrite <- Hb1; f_equal; lia]). cbn [wp].
  destruct (Z.eqb_spec (zlen tabb) 1) as [E1|E1].
  - destruct tabb as [|x [|]]; unfold zlen in E1; cbn [length] in *; try lia. injection Hb1 as ->. destruct taba as [|a taba]; [cbn in *; lia|]. clear E1.
    destruct (mp_div1norm_spec (a :: taba) b1 0 ltac:(unfold limb in *; lia) Ha ltac:(unfold limb in *; lia)) as ([Hql Hq] & Hr & E).
    destruct (mp_div1norm (a :: taba) b1 0) as [q r]. cbn [fst snd] in *. rewrite Z.mul_0_r, Z.add_0_l in E.
    rewrite <- (app_nil_r tabq), (wr_range_app [] tabq q []) by (done || (cbn [length] in *; lia)). cbn [mbind outcome_bind].
    rewrite (wr_app [] taba a r 0 eq_refl : wr (a :: taba) 0 r = Ret (r :: taba)). cbn [mbind outcome_bind wp]. rewrite ?app_nil_l, ?app_nil_r. exists q, (r :: taba).
    cbn [length] in *. change (take 1 (r :: taba)) with [r]. rewrite (lval_cons r []), (lval_cons b1 []), lval_nil. rewrite !Z.mul_0_r, !Z.add_0_r.
    split_and!; [done|split; [lia|done]|done|lia..].
  - assert (Hnb : (2 <= length tabb)%nat) by (unfold zlen in E1; lia). rewrite (proj2 (Z.leb_gt _ _)) by done.
    set (n := (length taba - length tabb)%nat). assert (En : zlen taba - zlen tabb = Z.of_nat n) by (unfold zlen, n; lia). rewrite En.
    destruct (split_at taba n (length tabb) ltac:(lia)) as (lo & s & Et & El & Es). rewrite Et in *. apply Forall_app in Ha as [Hlo Hs]. rewrite length_app in *.
    assert (Erd : rd_range (lo ++ s) (Z.of_nat n) (zlen tabb) = Ret s) by (pose proof (rd_range_app lo s [] (Z.of_nat n) (zlen tabb)) as Hx; rewrite app_nil_r in Hx; apply Hx; unfold zlen; lia).
    assert (Ewr : forall s', length s' = length s -> wr_range (lo ++ s) (Z.of_nat n) s' = Ret (lo ++ s')) by (intros s' Hs'; pose proof (wr_range_app lo s s' [] (Z.of_nat n)) as Hx; rewrite !app_nil_r in Hx; apply Hx; [unfold zlen; lia|done]).
    apply wp_bind. rewrite Erd. cbn [wp]. rewrite mp_cmp_spec by (try done; lia).
    apply wp_bind, wp_wr; [unfold zlen; lia|]. rewrite Nat2Z.id.
    set (q := if Z.sgn (lval s - lval tabb) <? 0 then 0 else 1).
    apply wp_bind. apply (wp_mono _ (fun t => divnorm_inv tabb (lo ++ s) n (Z.of_nat n) (<[n := q]> tabq, t))).
    { apply (wp_divnorm_first tabb b1); [done..|]. clear -Hlq El Es. lia. }
    intros t Hinv0. apply wp_bind. set (b1_inv := if UDIV1NORM_THRESHOLD <=? Z.of_nat n then udiv1norm_init b1 else 0).
    assert (Hbi : b1_inv = 0 \/ b1_inv = udiv1norm_init b1) by (unfold b1_inv; destruct (_ <=? _); auto).
    apply (wp_foldM (fun st rest => exists j, 0 <= j <= Z.of_nat n /\ rest = rev (seqZ 0 j) /\ divnorm_inv tabb (lo ++ s) n j st)).
    + intros st i rest (j & Hj & Er & HI). destruct (Z.eq_dec j 0) as [->|Hj0]; [done|]. replace j with (j - 1 + 1) in Er by lia.
      rewrite seqZ_app, rev_app_distr in Er by lia. rewrite (seqZ_cons _ 1), (seqZ_nil _ (Z.pred 1)) in Er by lia. cbn [rev app] in Er. injection Er as -> ->. rewrite Z.add_0_l. unfold zlen.
      eapply wp_mono; [eapply (wp_divnorm_loop tabb (lo ++ s) b1 b1_inv n); try done|].
      * rewrite length_app. lia.
      * by replace (j - 1 + 1) with j by lia.
      * lia.
      * intros st' HI'. exists (j - 1). split_and!; [lia..|done|done].
    + intros [tq ta] (j & Hj & Er & HI). assert (j = 0) as ->.
      { destruct (Z.eq_dec j 0); [done|]. replace j with (j - 1 + 1) in Er by lia. rewrite seqZ_app, rev_app_distr, (seqZ_cons _ 1) in Er by lia. done. }
      apply wp_ret. exists tq, ta. destruct (divnorm_end _ _ _ _ _ HI Hb) as ([H1 H2] & H3 & H4 & H5); [by rewrite length_app|].
      split_and!; [done|split; [|done]|by rewrite H3, length_app|done|apply H5|apply H5]. rewrite H1. clear -Hlq El Es. lia.
    + exists (Z.of_nat n). split_and!; [lia..|done|exact Hinv0].
Qed.

(** ** Properties *)

(** C25: the division of two limbs by one with a precomputed inverse
    ([udiv1norm]) gives the quotient and the remainder, for every normalized
    divisor. *)
Theorem udiv1norm_correct a1 a0 d : 2 ^ 63 <= d < 2 ^ 64 -> 0 <= a1 < d -> 0 <= a0 < 2 ^ 64 ->
  udiv1norm a1 a0 d (udiv1norm_init d) = ((a1 * 2 ^ 64 + a0) / d, (a1 * 2 ^ 64 + a0) mod d).
Proof. exact (udiv1norm_spec a1 a0 d). Qed.

Lemma udiv1norm_correct_witness : udiv1norm 5 7 (2 ^ 63 + 1) (udiv1norm_init (2 ^ 63 + 1)) = (9, 9223372036854775806).
Proof.
  transitivity ((5 * 2 ^ 64 + 7) / (2 ^ 63 + 1), (5 * 2 ^ 64 + 7) mod (2 ^ 63 + 1)); [|vm_compute; reflexivity].
  apply (udiv1norm_correct 5 7 (2 ^ 63 + 1)); lia.
Defined.

(** [mp_mul_basecase] writes the exact product of the two numbers and
    stays in its arrays. *)
Theorem mp_mul_basecase_correct result op1 op2 : op2 <> [] -> Forall limb op1 -> Forall limb op2 -> length result = (length op1 + length op2)%nat ->
  exists res, mp_mul_basecase result op1 op2 = Ret res /\ length res = length result /\ Forall limb res /\ lval res = lval op1 * lval op2.
Proof.
  intros Hne H1 H2 Hl. pose proof (wp_mp_mul_basecase result op1 op2 Hne H1 H2 Hl) as Hm. apply wp_elim in Hm as (res & E & [Hr1 Hr2] & Hv).
  exists res. split_and!; try done. by rewrite Hl.
Qed.

Lemma mp_mul_basecase_correct_witness : exists res, mp_mul_basecase [0; 0; 0] [2 ^ 64 - 1; 3] [5] = Ret res /\ lval res = 5 * (2 ^ 64 - 1 + 3 * 2 ^ 64).
Proof.
  destruct (mp_mul_basecase_correct [0; 0; 0] [2 ^ 64 - 1; 3] [5]) as (res & E & _ & _ & Hv); [done|repeat constructor; done..|].
  exists res. split; [exact E|]. rewrite Hv. vm_compute. reflexivity.
Defined.


