(* ===== verification/BfRound.v ===== *)
(** * Arbitrary precision: floating point numbers and rounding ([libbf.c])

    A [bf_t] that is finite and not zero is [+-m * 2^(expn - 64 * len)] with [m]
    the number of its [len] limbs, the top bit of which is set.  [__bf_round]
    rounds it to a number of bits in any of the modes, with the exponent range
    and the flags of the IEEE standard. *)

From S2P Require Import Prelude Cutils BfLimbs.

(** ** Numbers *)

Record bf_t := mkBf { sign : Z; expn : Z; tab : list Z }.

Definition BF_RAW_EXP_MIN : Z := - 2 ^ 63.
Definition BF_RAW_EXP_MAX : Z := 2 ^ 63 - 1.
Definition BF_EXP_ZERO : Z := BF_RAW_EXP_MIN.
Definition BF_EXP_INF : Z := BF_RAW_EXP_MAX - 1.
Definition BF_EXP_NAN : Z := BF_RAW_EXP_MAX.
Definition BF_EXP_BITS_MAX : Z := LIMB_BITS - 3.
Definition BF_PREC_MAX : Z := 2 ^ (LIMB_BITS - 2) - 2.
Definition BF_PREC_INF : Z := BF_PREC_MAX + 1.

Definition BF_RNDN : Z := 0.
Definition BF_RNDZ : Z := 1.
Definition BF_RNDD : Z := 2.
Definition BF_RNDU : Z := 3.
Definition BF_RNDNA : Z := 4.
Definition BF_RNDA : Z := 5.
Definition BF_RNDF : Z := 6.
Definition BF_RND_MASK : Z := 7.
Definition BF_FLAG_SUBNORMAL : Z := 8.
Definition BF_FLAG_RADPNT_PREC : Z := 16.

Definition BF_ST_INVALID_OP : Z := 1.
Definition BF_ST_OVERFLOW : Z := 4.
Definition BF_ST_UNDERFLOW : Z := 8.
Definition BF_ST_INEXACT : Z := 16.
Definition BF_ST_MEM_ERROR : Z := 32.

(** [bf_get_exp_bits(flags)] *)
Definition bf_get_exp_bits (flags : Z) : Z :=
  let e := Z.land (Z.shiftr flags 5) 63 in
  if e =? 63 then BF_EXP_BITS_MAX + 1 else BF_EXP_BITS_MAX - e.

(** Memory: a request to grow may be refused, one to shrink is not (the code
    says of it that it cannot fail). *)
Class BfAllocator := {
  bf_realloc : list Z -> Z -> option (list Z);
  bf_realloc_length : forall p n q, 0 <= n -> bf_realloc p n = Some q -> zlen q = n;
  bf_realloc_keeps : forall p n q, zlen p <= n -> bf_realloc p n = Some q -> p `prefix_of` q;
  bf_realloc_shrinks : forall p n, 0 <= n <= zlen p -> bf_realloc p n = Some (take (Z.to_nat n) p);
}.

Section Bf.
Context `{BfAllocator}.

(** [bf_resize(r, len)]: whether it succeeds *)
Definition bf_resize (r : bf_t) (len : Z) : bool * bf_t :=
  if len =? zlen (tab r) then (true, r)
  else match bf_realloc (tab r) len with
       | Some t => (true, mkBf (sign r) (expn r) t)
       | None => (false, r)
       end.

Definition bf_set_nan (r : bf_t) : bf_t := let '(_, r) := bf_resize r 0 in mkBf 0 BF_EXP_NAN (tab r).
Definition bf_set_zero (r : bf_t) (is_neg : Z) : bf_t := let '(_, r) := bf_resize r 0 in mkBf is_neg BF_EXP_ZERO (tab r).
Definition bf_set_inf (r : bf_t) (is_neg : Z) : bf_t := let '(_, r) := bf_resize r 0 in mkBf is_neg BF_EXP_INF (tab r).

(** [bf_set_ui(r, a)] and [bf_set_si(r, a)] *)
Definition clz (a : Z) : Z := if a =? 0 then LIMB_BITS else Bits.clz64 false a.

Definition bf_set_ui (r : bf_t) (a : Z) : outcome (Z * bf_t) :=
  let r := mkBf 0 (expn r) (tab r) in
  if a =? 0 then let '(_, r) := bf_resize (mkBf (sign r) BF_EXP_ZERO (tab r)) 0 in Ret (0, r)
  else
    let '(ok, r) := bf_resize r 1 in
    if negb ok then Ret (BF_ST_MEM_ERROR, bf_set_nan r)
    else
      let shift := clz a in
      t ← wr (tab r) 0 (u64 (Z.shiftl a shift));
      Ret (0, mkBf (sign r) (LIMB_BITS - shift) t).

Definition bf_set_si (r : bf_t) (a : Z) : outcome (Z * bf_t) :=
  if a <? 0 then '(ret, r) ← bf_set_ui r (u64 (i64 (- a))); Ret (ret, mkBf 1 (expn r) (tab r))
  else bf_set_ui r a.

(** ** Bits *)

(** [get_bit(tab, len, pos)] *)
Definition get_bit (t : list Z) (len pos : Z) : outcome Z :=
  let i := Z.shiftr pos 6 in
  if (i <? 0) || (len <=? i) then Ret 0
  else v ← rd t i; Ret (Z.land (Z.shiftr v (Z.land pos (LIMB_BITS - 1))) 1).

(** [limb_mask(start, last)] *)
Definition limb_mask (start last : Z) : Z :=
  let n := last - start + 1 in
  if n =? LIMB_BITS then u64 (-1) else u64 (Z.shiftl (Z.shiftl 1 n - 1) start).

(** The loop of [scan_bit_nz]: is one of the [n] low limbs not zero? *)
Fixpoint scan_down (t : list Z) (n : nat) : outcome bool :=
  match n with
  | O => Ret false
  | S n => v ← rd t (Z.of_nat n); if negb (v =? 0) then Ret true else scan_down t n
  end.

(** [scan_bit_nz(r, bit_pos)] *)
Definition scan_bit_nz (r : bf_t) (bit_pos : Z) : outcome bool :=
  let pos := Z.shiftr bit_pos 6 in
  if pos <? 0 then Ret false
  else
    x ← rd (tab r) pos;
    let v := Z.land x (limb_mask 0 (Z.land bit_pos (LIMB_BITS - 1))) in
    if negb (v =? 0) then Ret true else scan_down (tab r) (Z.to_nat pos).

(** ** Rounding *)

(** [bf_get_rnd_add(pret, r, l, prec, rnd_mode)]: the addend, and whether the
    result is inexact *)
Definition bf_get_rnd_add (r : bf_t) (l prec rnd_mode : Z) : outcome (bool * bool) :=
  bit0 ← (if rnd_mode =? BF_RNDF then Ret true else scan_bit_nz r (i64 (l * LIMB_BITS - 1 - Z.max 0 (prec + 1))));
  b1 ← get_bit (tab r) l (i64 (l * LIMB_BITS - 1 - prec));
  let bit1 := negb (b1 =? 0) in
  let inexact := bit1 || bit0 in
  add_one ←
    (if rnd_mode =? BF_RNDZ then Ret false
     else if rnd_mode =? BF_RNDN then
       if bit1 then
         if (bit0 : bool) then Ret true
         else e ← get_bit (tab r) l (i64 (l * LIMB_BITS - 1 - (prec - 1))); Ret (negb (e =? 0))
       else Ret false
     else if (rnd_mode =? BF_RNDD) || (rnd_mode =? BF_RNDU) then
       Ret (if sign r =? b2z (rnd_mode =? BF_RNDD) then inexact else false)
     else if rnd_mode =? BF_RNDA then Ret inexact
     else if (rnd_mode =? BF_RNDNA) || (rnd_mode =? BF_RNDF) then Ret bit1
     else Fault Aborted);
  Ret (add_one, inexact).

(** [bf_set_overflow(r, sign, prec, flags)] *)
Definition bf_set_overflow (r : bf_t) (sg prec flags : Z) : outcome (Z * bf_t) :=
  let rnd_mode := Z.land flags BF_RND_MASK in
  if (prec =? BF_PREC_INF) || (rnd_mode =? BF_RNDN) || (rnd_mode =? BF_RNDNA) || (rnd_mode =? BF_RNDA)
     || ((rnd_mode =? BF_RNDD) && (sg =? 1)) || ((rnd_mode =? BF_RNDU) && (sg =? 0))
  then Ret (Z.lor BF_ST_OVERFLOW BF_ST_INEXACT, bf_set_inf r sg)
  else
    let l := (prec + LIMB_BITS - 1) / LIMB_BITS in
    let '(ok, r) := bf_resize r l in
    if negb ok then Ret (BF_ST_MEM_ERROR, bf_set_nan r)
    else
      t ← wr (tab r) 0 (limb_mask (Z.land (- prec) (LIMB_BITS - 1)) (LIMB_BITS - 1));
      t ← foldM (fun t i => wr t i (u64 (-1))) t (seqZ 1 (l - 1));
      let e_max := Z.shiftl 1 (bf_get_exp_bits flags - 1) in
      Ret (Z.lor BF_ST_OVERFLOW BF_ST_INEXACT, mkBf sg e_max t).

(** The loop that adds [carry] to the limbs of a list. *)
Fixpoint round_carry (t : list Z) (carry : Z) : list Z * Z :=
  match t with
  | [] => ([], carry)
  | a :: t =>
      let v := u64 (a + carry) in
      let c := b2z (v <? carry) in
      if c =? 0 then (v :: t, 0) else let '(t, c) := round_carry t c in (v :: t, c)
  end.

(** One is added to the limbs from [pos] on: the new limbs and exponent. *)
Definition round_add (t : list Z) (l pos carry e : Z) : outcome (list Z * Z) :=
  s ← rd_range t pos (l - pos);
  let '(s, c) := round_carry s carry in
  let '(s, e) := if negb (c =? 0) then (fst (mp_shr_loop s 1 1), i64 (e + 1)) else (s, e) in
  t ← wr_range t pos s;
  Ret (t, e).

(** [while (r->tab[i] == 0) i++;] *)
Definition skip_zeros (t : list Z) (i : Z) : outcome Z :=
  loop (S (length t)) (fun i => v ← rd t i; if v =? 0 then Ret (inl (i + 1)) else Ret (inr i)) i.

(** The end of [__bf_round]: the bits from ['prec - 1'] on are kept. *)
Definition round_truncate (r : bf_t) (l prec ret : Z) : outcome (Z * bf_t) :=
  let bit_pos := i64 (l * LIMB_BITS - 1 - (prec - 1)) in
  let i := Z.shiftr bit_pos 6 in
  '(i, t) ← (if 0 <=? i then
      let shift := Z.land bit_pos (LIMB_BITS - 1) in
      if negb (shift =? 0) then
        v ← rd (tab r) i; t ← wr (tab r) i (Z.land v (limb_mask shift (LIMB_BITS - 1))); Ret (i, t)
      else Ret (i, tab r)
    else Ret (0, tab r));
  i ← skip_zeros t i;
  t ← (if 0 <? i then s ← rd_range t i (l - i); wr_range t 0 s else Ret t);
  let '(_, r) := bf_resize (mkBf (sign r) (expn r) t) (if 0 <? i then l - i else l) in
  Ret (ret, r).

(** The underflow, overflow and truncation that follow the addition. *)
Definition round_finish (r : bf_t) (prec1 flags l prec ret e_min e_max : Z) : outcome (Z * bf_t) :=
  if (expn r <? e_min) && (Z.land flags BF_FLAG_SUBNORMAL =? 0) then
    Ret (Z.lor ret (Z.lor BF_ST_UNDERFLOW BF_ST_INEXACT), bf_set_zero r (sign r))
  else
    let ret := if (expn r <? e_min) && negb (Z.land ret BF_ST_INEXACT =? 0) then Z.lor ret BF_ST_UNDERFLOW else ret in
    if e_max <? expn r then bf_set_overflow r (sign r) prec1 flags
    else round_truncate r l prec ret.

(** [__bf_round(r, prec1, flags, l, ret)] *)
Definition bf_round_internal (r : bf_t) (prec1 flags l ret : Z) : outcome (Z * bf_t) :=
  let e_range := Z.shiftl 1 (bf_get_exp_bits flags - 1) in
  let e_min := - e_range + 3 in
  let e_max := e_range in
  prec ←
    (if negb (Z.land flags BF_FLAG_RADPNT_PREC =? 0) then
       Ret (if negb (prec1 =? BF_PREC_INF) then i64 (expn r + prec1) else prec1)
     else if (expn r <? e_min) && negb (Z.land flags BF_FLAG_SUBNORMAL =? 0) then
       _ ← c_assert (negb (prec1 =? BF_PREC_INF)); Ret (i64 (prec1 - (e_min - expn r)))
     else Ret prec1);
  let rnd_mode := Z.land flags BF_RND_MASK in
  '(add_one, inexact) ← bf_get_rnd_add r l prec rnd_mode;
  let ret := if (inexact : bool) then Z.lor ret BF_ST_INEXACT else ret in
  if prec <=? 0 then
    if (add_one : bool) then
      let '(_, r) := bf_resize r 1 in
      t ← wr (tab r) 0 (Z.shiftl 1 (LIMB_BITS - 1));
      Ret (Z.lor ret (Z.lor BF_ST_UNDERFLOW BF_ST_INEXACT), mkBf (sign r) (i64 (expn r + 1 - prec)) t)
    else Ret (Z.lor ret (Z.lor BF_ST_UNDERFLOW BF_ST_INEXACT), bf_set_zero r (sign r))
  else if (add_one : bool) then
    let bit_pos := i64 (l * LIMB_BITS - 1 - (prec - 1)) in
    let pos := Z.shiftr bit_pos 6 in
    let carry := Z.shiftl 1 (Z.land bit_pos (LIMB_BITS - 1)) in
    '(t, e) ← round_add (tab r) l pos carry (expn r);
    round_finish (mkBf (sign r) e t) prec1 flags l prec ret e_min e_max
  else round_finish r prec1 flags l prec ret e_min e_max.

(** [bf_round(r, prec, flags)] *)
Definition bf_round (r : bf_t) (prec flags : Z) : outcome (Z * bf_t) :=
  if zlen (tab r) =? 0 then Ret (0, r) else bf_round_internal r prec flags (zlen (tab r)) 0.

(** The loop that finds the length without the high zero limbs. *)
Fixpoint trim_len (t : list Z) (l : nat) : outcome nat :=
  match l with
  | O => Ret O
  | S k => v ← rd t (Z.of_nat k); if v =? 0 then trim_len t k else Ret l
  end.

(** The loop that shifts the limbs left. *)
Fixpoint shift_left (t : list Z) (shift v : Z) : list Z :=
  match t with
  | [] => []
  | a :: t => Z.lor (u64 (Z.shiftl a shift)) (Z.shiftr v (LIMB_BITS - shift)) :: shift_left t shift a
  end.

(** [bf_normalize_and_round(r, prec1, flags)] *)
Definition bf_normalize_and_round (r : bf_t) (prec1 flags : Z) : outcome (Z * bf_t) :=
  l ← trim_len (tab r) (length (tab r));
  if (Z.of_nat l =? 0) then let '(_, r) := bf_resize (mkBf (sign r) BF_EXP_ZERO (tab r)) 0 in Ret (0, r)
  else
    let e := i64 (expn r - (zlen (tab r) - Z.of_nat l) * LIMB_BITS) in
    v ← rd (tab r) (Z.of_nat l - 1);
    let shift := clz v in
    '(t, e) ← (if negb (shift =? 0) then
        s ← rd_range (tab r) 0 (Z.of_nat l);
        t ← wr_range (tab r) 0 (shift_left s shift 0);
        Ret (t, i64 (e - shift))
      else Ret (tab r, e));
    bf_round_internal (mkBf (sign r) e t) prec1 flags (Z.of_nat l) 0.

(** ** Multiplication *)

Definition FFT_MUL_THRESHOLD : Z := 100.

(** [bf_mul(r, a, b, prec, flags)] with [r] different from [a] and [b], below the
    length from which the product is computed by a Fourier transform; else
    [None]. *)
Definition bf_mul (r a b : bf_t) (prec flags : Z) : outcome (option (Z * bf_t)) :=
  let '(a, b) := if zlen (tab a) <? zlen (tab b) then (b, a) else (a, b) in
  let r_sign := Z.lxor (sign a) (sign b) in
  if zlen (tab b) =? 0 then
    Ret (Some
      (if (expn a =? BF_EXP_NAN) || (expn b =? BF_EXP_NAN) then (0, bf_set_nan r)
       else if (expn a =? BF_EXP_INF) || (expn b =? BF_EXP_INF) then
         if ((expn a =? BF_EXP_INF) && (expn b =? BF_EXP_ZERO)) || ((expn a =? BF_EXP_ZERO) && (expn b =? BF_EXP_INF))
         then (BF_ST_INVALID_OP, bf_set_nan r)
         else (0, bf_set_inf r r_sign)
       else (0, bf_set_zero r r_sign)))
  else
    let precl := (prec + 2 + LIMB_BITS - 1) / LIMB_BITS in
    let faithful := Z.land flags BF_RND_MASK =? BF_RNDF in
    let a_len := if faithful then Z.min (zlen (tab a)) precl else zlen (tab a) in
    let b_len := if faithful then Z.min (zlen (tab b)) precl else zlen (tab b) in
    a_tab ← rd_range (tab a) (zlen (tab a) - a_len) a_len;
    b_tab ← rd_range (tab b) (zlen (tab b) - b_len) b_len;
    if FFT_MUL_THRESHOLD <=? b_len then Ret None
    else
      let '(ok, r) := bf_resize r (a_len + b_len) in
      if negb ok then Ret (Some (BF_ST_MEM_ERROR, bf_set_nan r))
      else
        t ← mp_mul_basecase (tab r) a_tab b_tab;
        res ← bf_normalize_and_round (mkBf r_sign (i64 (expn a + expn b)) t) prec flags;
        Ret (Some res).
End Bf.

(** ** Bits of a number *)

Lemma B_64 : B = 2 ^ 64.
Proof. done. Qed.
Lemma Bpow_2 n : B ^ Z.of_nat n = 2 ^ (64 * Z.of_nat n).
Proof. rewrite B_64, <- Z.pow_mul_r by lia. done. Qed.

(** A number cut at a bit. *)
Lemma lval_cut t k x : Forall limb t -> t !! k = Some x ->
  lval t = lval (take k t) + B ^ Z.of_nat k * (x + B * lval (drop (S k) t)) /\ 0 <= lval (take k t) < B ^ Z.of_nat k /\ limb x /\ 0 <= lval (drop (S k) t).
Proof.
  intros Ht E. pose proof (lookup_lt_Some _ _ _ E) as Hk. split_and!.
  - rewrite <- (take_drop k t) at 1. rewrite lval_app, length_take, Nat.min_l, (drop_S _ _ _ E), lval_cons by lia. done.
  - apply lval_bounds. by apply Forall_take.
  - replace k with (length (take k t)) at 2 by (rewrite length_take; lia). apply lval_bounds. by apply Forall_take.
  - apply (Forall_lookup_1 _ _ _ _ Ht E).
  - apply lval_bounds. by apply Forall_drop.
Qed.

Lemma mod_cut lo k x hi s : 0 <= k -> 0 <= s <= 64 -> 0 <= lo < 2 ^ (64 * k) -> (lo + 2 ^ (64 * k) * (x + B * hi)) mod 2 ^ (64 * k + s) = lo + 2 ^ (64 * k) * (x mod 2 ^ s).
Proof.
  intros Hk Hs Hlo. rewrite Z.pow_add_r by lia. assert (0 < 2 ^ (64 * k)) by (apply Z.pow_pos_nonneg; lia). assert (0 < 2 ^ s) by (apply Z.pow_pos_nonneg; lia).
  pose proof (Z.mod_pos_bound x (2 ^ s) ltac:(lia)). pose proof (Z.div_mod x (2 ^ s) ltac:(lia)) as Ex.
  assert (EB : B = 2 ^ s * 2 ^ (64 - s)) by (rewrite <- Z.pow_add_r, B_64 by lia; f_equal; lia).
  symmetry. apply (Z.mod_unique_pos _ _ (x / 2 ^ s + 2 ^ (64 - s) * hi)); [nia|]. rewrite EB, Ex at 1. ring.
Qed.

Lemma testbit_lval : forall t pos, Forall limb t -> 0 <= pos ->
  Z.testbit (lval t) pos = match t !! Z.to_nat (pos / 64) with Some v => Z.testbit v (pos mod 64) | None => false end.
Proof.
  induction t as [|x t IH]; intros pos Ht Hp; [by rewrite lval_nil, Z.bits_0|]. apply Forall_cons in Ht as [Hx Ht]. pose proof (lval_bounds t Ht) as Hb.
  rewrite lval_cons, Z.add_comm, (Z.mul_comm B), <- lor_high by (done || lia). rewrite Z.lor_spec, B_64. destruct (Z.lt_ge_cases pos 64).
  - rewrite Z.mul_pow2_bits_low by lia. rewrite Z.div_small, Z.mod_small by lia. done.
  - rewrite Z.mul_pow2_bits, IH by (done || lia). replace (pos / 64) with ((pos - 64) / 64 + 1) by (rewrite <- Z.div_add by lia; f_equal; lia).
    assert (0 <= (pos - 64) / 64) by (apply Z.div_pos; lia). replace (Z.to_nat ((pos - 64) / 64 + 1)) with (S (Z.to_nat ((pos - 64) / 64))) by lia. cbn [lookup list_lookup].
    replace (pos mod 64) with ((pos - 64) mod 64) by (rewrite <- (Z.mod_add (pos - 64) 1 64) by lia; f_equal; lia).
    assert (Z.testbit x pos = false) as ->; [|by rewrite orb_false_r]. destruct (Z.eq_dec x 0) as [->|]; [apply Z.bits_0|].
    apply Z.bits_above_log2; [apply Hx|]. apply Z.lt_le_trans with 64; [|done]. apply Z.log2_lt_pow2; unfold limb in Hx; rewrite B_64 in Hx; lia.
Qed.

Lemma land_bit_index x : Z.land x (LIMB_BITS - 1) = x mod 64.
Proof. change (LIMB_BITS - 1) with (Z.ones 6). by rewrite Z.land_ones. Qed.
Lemma shiftr_6 x : Z.shiftr x 6 = x / 64.
Proof. by rewrite Z.shiftr_div_pow2. Qed.

Lemma get_bit_spec t l pos : Forall limb t -> 0 <= l <= zlen t -> get_bit t l pos = Ret (b2z (Z.testbit (lval (take (Z.to_nat l) t)) pos)).
Proof.
  intros Ht Hl. unfold get_bit. rewrite shiftr_6, land_bit_index. destruct (Z.lt_ge_cases pos 0) as [Hn|Hp].
  { rewrite Z.testbit_neg_r by done. assert (pos / 64 < 0) by (apply Z.div_lt_upper_bound; lia). by rewrite (proj2 (Z.ltb_lt _ _)). }
  assert (0 <= pos / 64) by (apply Z.div_pos; lia). rewrite (proj2 (Z.ltb_ge _ _)) by done. cbn [orb].
  rewrite testbit_lval by (try done; by apply Forall_take). destruct (Z.leb_spec l (pos / 64)).
  - rewrite (proj2 (lookup_ge_None _ _)); [done|]. rewrite length_take. lia.
  - rewrite lookup_take_lt by lia. destruct (rd_ok t (pos / 64)) as (v & Ev & ->); [lia|]. rewrite Ev. cbn [mbind outcome_bind]. f_equal.
    pose proof (Z.mod_pos_bound pos 64 ltac:(lia)). change 1 with (Z.ones 1). rewrite Z.land_ones by lia. rewrite Z.shiftr_div_pow2 by lia. change (2 ^ 1) with 2.
    rewrite <- Z.testbit_spec' by lia. by destruct (Z.testbit v (pos mod 64)).
Qed.

Lemma limb_mask_low p : 0 <= p < 64 -> limb_mask 0 p = Z.ones (p + 1).
Proof.
  intros Hp. unfold limb_mask, LIMB_BITS. rewrite Z.sub_0_r, Z.shiftl_0_r. destruct (Z.eqb_spec (p + 1) 64) as [->|Hne]; [done|].
  rewrite Z.shiftl_mul_pow2, Z.mul_1_l, u64_mod, Z.ones_equiv, Z.mod_small; [lia|..]; try lia. rewrite B_64. assert (0 < 2 ^ (p + 1)) by (apply Z.pow_pos_nonneg; lia).
  assert (2 ^ (p + 1) <= 2 ^ 64) by (apply Z.pow_le_mono_r; lia). lia.
Qed.

Lemma limb_mask_high s : 0 <= s < 64 -> limb_mask s 63 = Z.shiftl (Z.ones (64 - s)) s.
Proof.
  intros Hs. unfold limb_mask, LIMB_BITS. replace (63 - s + 1) with (64 - s) by lia. destruct (Z.eqb_spec (64 - s) 64) as [E|Hne].
  { assert (s = 0) as -> by lia. done. }
  rewrite u64_mod, !Z.shiftl_mul_pow2, Z.ones_equiv, Z.mul_1_l by lia. rewrite Z.mod_small; [f_equal; lia|]. rewrite B_64.
  assert (0 < 2 ^ s) by (apply Z.pow_pos_nonneg; lia). assert (0 < 2 ^ (64 - s)) by (apply Z.pow_pos_nonneg; lia).
  assert (2 ^ 64 = 2 ^ (64 - s) * 2 ^ s) by (rewrite <- Z.pow_add_r by lia; f_equal; lia). nia.
Qed.

Lemma land_high v s : limb v -> 0 <= s < 64 -> Z.land v (limb_mask s 63) = v / 2 ^ s * 2 ^ s.
Proof.
  intros Hv Hs. rewrite limb_mask_high by done. rewrite <- Z.shiftl_mul_pow2, <- Z.shiftr_div_pow2 by lia. apply Z.bits_inj'. intros n Hn.
  rewrite Z.land_spec. destruct (Z.lt_ge_cases n s); [rewrite !Z.shiftl_spec_low by done; by rewrite andb_false_r|].
  rewrite !Z.shiftl_spec by lia. rewrite Z.shiftr_spec by lia. replace (n - s + s) with n by lia. destruct (Z.lt_ge_cases n 64).
  - rewrite Z.ones_spec_low by lia. by rewrite andb_true_r.
  - rewrite Z.ones_spec_high, andb_false_r by lia. symmetry. destruct (Z.eq_dec v 0) as [->|]; [apply Z.bits_0|]. apply Z.bits_above_log2; [apply Hv|].
    apply Z.lt_le_trans with 64; [|done]. apply Z.log2_lt_pow2; unfold limb in Hv; rewrite B_64 in Hv; lia.
Qed.

Lemma scan_down_spec t n : Forall limb t -> (n <= length t)%nat -> scan_down t n = Ret (negb (lval (take n t) =? 0)).
Proof.
  intros Ht. induction n as [|n IH]; intros Hn; [done|]. cbn [scan_down]. destruct (rd_ok t (Z.of_nat n)) as (v & Ev & ->); [unfold zlen; lia|]. rewrite Nat2Z.id in Ev.
  cbn [mbind outcome_bind]. rewrite (lval_take_S _ _ _ Ev). pose proof (lval_bounds (take n t) ltac:(by apply Forall_take)) as Hb. pose proof (Bpow_pos n).
  pose proof (Forall_lookup_1 _ _ _ _ Ht Ev) as Hv. unfold limb in Hv. destruct (Z.eqb_spec v 0) as [->|Hne]; cbn [negb].
  - rewrite IH by lia. by rewrite Z.mul_0_r, Z.add_0_r.
  - f_equal. symmetry. apply negb_true_iff, Z.eqb_neq. nia.
Qed.

Lemma scan_bit_nz_spec r pos : Forall limb (tab r) -> -1 <= pos < 64 * zlen (tab r) -> scan_bit_nz r pos = Ret (negb (lval (tab r) mod 2 ^ (pos + 1) =? 0)).
Proof.
  intros Ht Hp. unfold scan_bit_nz. rewrite shiftr_6, land_bit_index. destruct (Z.eq_dec pos (-1)) as [->|]; [by rewrite Z.mod_1_r|].
  assert (Hk : 0 <= pos / 64 < zlen (tab r)) by (split; [apply Z.div_pos; lia|apply Z.div_lt_upper_bound; lia]). rewrite (proj2 (Z.ltb_ge _ _)) by lia.
  destruct (rd_ok (tab r) (pos / 64) Hk) as (x & Ex & ->). cbn [mbind outcome_bind]. pose proof (Z.mod_pos_bound pos 64 ltac:(lia)) as Hm. pose proof (Z.div_mod pos 64 ltac:(lia)) as Ep.
  rewrite limb_mask_low, Z.land_ones by lia. destruct (lval_cut _ _ _ Ht Ex) as (E & Hlo & Hx & Hhi). rewrite Bpow_2, Z2Nat.id in * by lia.
  replace (pos + 1) with (64 * (pos / 64) + (pos mod 64 + 1)) by lia. rewrite E, mod_cut by lia.
  rewrite scan_down_spec by (try done; unfold zlen in *; lia). assert (0 < 2 ^ (64 * (pos / 64))) by (apply Z.pow_pos_nonneg; lia).
  pose proof (Z.mod_pos_bound x (2 ^ (pos mod 64 + 1)) ltac:(apply Z.pow_pos_nonneg; lia)). destruct (Z.eqb_spec (x mod 2 ^ (pos mod 64 + 1)) 0) as [->|]; cbn [negb].
  - by rewrite Z.mul_0_r, Z.add_0_r.
  - f_equal. symmetry. apply negb_true_iff, Z.eqb_neq. nia.
Qed.

(** ** The rounding of an integer

    [m] is cut at bit [s]: the quotient is kept, and [rnd_up] tells whether one
    is added to it. *)

Definition rnd_up (mode sg m s : Z) : bool :=
  let q := m / 2 ^ s in
  let r := m mod 2 ^ s in
  let half := 2 ^ (s - 1) in
  if mode =? BF_RNDZ then false
  else if mode =? BF_RNDN then (half <? r) || ((r =? half) && Z.odd q)
  else if mode =? BF_RNDD then negb (r =? 0) && (sg =? 1)
  else if mode =? BF_RNDU then negb (r =? 0) && (sg =? 0)
  else if mode =? BF_RNDA then negb (r =? 0)
  else half <=? r.

Definition rnd_inexact (mode m s : Z) : bool := (mode =? BF_RNDF) || negb (m mod 2 ^ s =? 0).

(** The bit at [s - 1] and the bits below it. *)
Lemma mod_top_bit m s : 0 <= m -> 0 < s -> m mod 2 ^ s = b2z (Z.testbit m (s - 1)) * 2 ^ (s - 1) + m mod 2 ^ (s - 1) /\ 2 ^ s = 2 * 2 ^ (s - 1) /\ 0 <= m mod 2 ^ (s - 1) < 2 ^ (s - 1).
Proof.
  intros Hm Hs. assert (E : 2 ^ s = 2 ^ (s - 1) * 2) by (replace s with (s - 1 + 1) at 1 by lia; rewrite Z.pow_add_r by lia; done).
  assert (0 < 2 ^ (s - 1)) by (apply Z.pow_pos_nonneg; lia). split_and!; [|lia|apply Z.mod_pos_bound; lia|apply Z.mod_pos_bound; lia].
  rewrite E, Z.rem_mul_r by lia. rewrite <- Z.testbit_spec' by lia. destruct (Z.testbit m (s - 1)); cbn [b2z Z.b2z]; lia.
Qed.

Lemma odd_div m s : 0 <= s -> Z.odd (m / 2 ^ s) = Z.testbit m s.
Proof. intros Hs. by rewrite <- Z.shiftr_div_pow2, <- Z.bit0_odd, Z.shiftr_spec by lia. Qed.

Lemma mod_take t l n : Forall limb t -> 0 <= l <= zlen t -> 0 <= n <= 64 * l -> lval t mod 2 ^ n = lval (take (Z.to_nat l) t) mod 2 ^ n.
Proof.
  intros Ht Hl Hn. rewrite <- (take_drop (Z.to_nat l) t) at 1. rewrite lval_app, length_take, Nat.min_l by (unfold zlen in *; lia). rewrite Bpow_2, Z2Nat.id by lia.
  replace (64 * l) with (n + (64 * l - n)) by lia. rewrite Z.pow_add_r by lia. rewrite <- Z.mul_assoc, Z.mul_comm, Z.mul_comm, (Z.mul_comm (2 ^ n)), Z.mod_add; [done|].
  apply Z.pow_nonzero; lia.
Qed.

Section Round.
Context (r : bf_t) (l prec : Z).
Context (Ht : Forall limb (tab r)) (Hl : 0 < l <= zlen (tab r)) (Hsg : sign r = 0 \/ sign r = 1) (Hl64 : l < 2 ^ 55) (Hp64 : - 2 ^ 62 - 8 <= prec < 2 ^ 63 - 2).

Notation m := (lval (take (Z.to_nat l) (tab r))).
Notation s := (64 * l - prec).

Lemma i64_id x : - 2 ^ 63 <= x < 2 ^ 63 -> i64 x = x.
Proof. intros Hx. apply swrap_small; lia. Qed.

Lemma m_nonneg : 0 <= m < 2 ^ (64 * l).
Proof.
  pose proof (lval_bounds (take (Z.to_nat l) (tab r)) ltac:(by apply Forall_take)) as Hb. rewrite length_take, Nat.min_l, Bpow_2, Z2Nat.id in Hb by (unfold zlen in *; lia). done.
Qed.

Lemma bit0_spec : 0 < s -> scan_bit_nz r (i64 (l * LIMB_BITS - 1 - Z.max 0 (prec + 1))) = Ret (negb (m mod 2 ^ (s - 1) =? 0)).
Proof.
  intros Hs. unfold LIMB_BITS in *. rewrite i64_id by lia. rewrite scan_bit_nz_spec by (try done; lia). do 3 f_equal. rewrite (mod_take _ l) by (try done; lia).
  destruct (Z.le_gt_cases 0 (prec + 1)); [f_equal; f_equal; lia|]. pose proof m_nonneg as Hm. rewrite Z.max_l by lia. replace (l * 64 - 1 - 0 + 1) with (64 * l) by lia.
  assert (2 ^ (64 * l) <= 2 ^ (s - 1)) by (apply Z.pow_le_mono_r; lia). rewrite !Z.mod_small by lia. done.
Qed.

Lemma get_rnd_add_spec mode : 0 <= mode <= 6 -> 0 < s -> bf_get_rnd_add r l prec mode = Ret (rnd_up mode (sign r) m s, rnd_inexact mode m s).
Proof.
  intros Hm Hs. unfold bf_get_rnd_add. rewrite bit0_spec by done. pose proof m_nonneg as Hmn. destruct (mod_top_bit m s ltac:(lia) Hs) as (Em & E2 & Hlow).
  rewrite !get_bit_spec by (try done; lia). unfold LIMB_BITS in *. rewrite !i64_id by lia.
  replace (l * 64 - 1 - prec) with (s - 1) by lia. replace (l * 64 - 1 - (prec - 1)) with s by lia. unfold rnd_up, rnd_inexact. rewrite odd_div by lia. rewrite Em.
  set (low := m mod 2 ^ (s - 1)) in *. assert (Hh : 0 < 2 ^ (s - 1)) by (apply Z.pow_pos_nonneg; lia). set (h := 2 ^ (s - 1)) in *. set (e := Z.testbit m s). set (b1 := Z.testbit m (s - 1)).
  clearbody low h e b1. assert (Hmode : mode = 0 \/ mode = 1 \/ mode = 2 \/ mode = 3 \/ mode = 4 \/ mode = 5 \/ mode = 6) by lia.
  destruct Hmode as [->|[->|[->|[->|[->|[->| ->]]]]]]; cbn -[Z.mul Z.add Z.ltb Z.leb Z.eqb]; destruct b1, (Z.eqb_spec low 0) as [->|Hlow0], Hsg as [->| ->], e; cbn -[Z.mul Z.add Z.ltb Z.leb];
    rewrite ?Z.mul_0_l, ?Z.mul_1_l, ?Z.add_0_l, ?Z.add_0_r, ?Z.eqb_refl, ?Z.ltb_irrefl, ?Z.leb_refl;
    repeat match goal with |- context [?x <? ?y] => destruct (Z.ltb_spec x y); try lia | |- context [?x <=? ?y] => destruct (Z.leb_spec x y); try lia | |- context [?x =? ?y] => destruct (Z.eqb_spec x y); try lia end; done.
Qed.

Lemma get_rnd_add_exact mode : 0 <= mode <= 6 -> s <= 0 -> bf_get_rnd_add r l prec mode = Ret (false, mode =? BF_RNDF).
Proof.
  intros Hm Hs. unfold bf_get_rnd_add, LIMB_BITS in *. assert (Eb : scan_bit_nz r (i64 (l * 64 - 1 - Z.max 0 (prec + 1))) = Ret false).
  { rewrite i64_id by lia. unfold scan_bit_nz. rewrite shiftr_6. assert ((l * 64 - 1 - Z.max 0 (prec + 1)) / 64 < 0) by (apply Z.div_lt_upper_bound; lia). by rewrite (proj2 (Z.ltb_lt _ _)). }
  rewrite Eb, !get_bit_spec by (try done; lia). rewrite !i64_id by lia. rewrite (Z.testbit_neg_r _ (l * 64 - 1 - prec)) by lia.
  assert (Hmode : mode = 0 \/ mode = 1 \/ mode = 2 \/ mode = 3 \/ mode = 4 \/ mode = 5 \/ mode = 6) by lia.
  destruct Hmode as [->|[->|[->|[->|[->|[->| ->]]]]]]; cbn; try done; by destruct Hsg as [->| ->].
Qed.
End Round.

(** ** Truncation *)

Lemma wp_skip_zeros t i k v : 0 <= i <= k -> t !! Z.to_nat k = Some v -> v <> 0 ->
  wp (skip_zeros t i) (fun j => i <= j <= k /\ (forall n, i <= n < j -> t !! Z.to_nat n = Some 0) /\ exists v, t !! Z.to_nat j = Some v /\ v <> 0).
Proof.
  intros Hi Hk Hv. pose proof (lookup_lt_Some _ _ _ Hk) as Hlt. unfold skip_zeros.
  apply (wp_loop_ghost (fun j n => i <= j <= k /\ n = k - j /\ forall n, i <= n < j -> t !! Z.to_nat n = Some 0)) with (m := k - i).
  - intros j n (Hj & -> & Hz). apply wp_bind, wp_rd; [unfold zlen; lia|]. intros x Hx. destruct (Z.eqb_spec x 0) as [->|Hne]; apply wp_ret.
    + destruct (Z.eq_dec j k) as [->|]; [congruence|]. exists (k - (j + 1)). split; [|lia]. split_and!; [lia..|]. intros n0 Hn. destruct (Z.eq_dec n0 j) as [->|]; [done|]. apply Hz. lia.
    + split_and!; [lia..|done|eauto].
  - split_and!; [lia..|]. intros n Hn. lia.
  - lia.
Qed.

(** Low limbs that are zero are only a factor. *)
Lemma lval_drop_zeros t (i j : nat) : (i <= j <= length t)%nat -> (forall n, (i <= n < j)%nat -> t !! n = Some 0) -> lval (drop i t) = B ^ Z.of_nat (j - i) * lval (drop j t).
Proof.
  intros Hj Hz. remember (j - i)%nat as d eqn:Ed. revert i Hj Hz Ed. induction d as [|d IH]; intros i Hj Hz Ed.
  - assert (j = i) as -> by lia. rewrite Z.pow_0_r. lia.
  - rewrite (drop_S t 0 i) by (apply Hz; lia). rewrite lval_cons, Bpow_S, (IH (S i)); [ring|lia| |lia]. intros n Hn. apply Hz. lia.
Qed.

Definition bf_normal (t : list Z) : Prop := Forall limb t /\ 2 ^ (64 * zlen t - 1) <= lval t /\ exists x t', t = x :: t' /\ x <> 0.

Lemma floor_cut lo k x hi s : 0 <= k -> 0 <= s < 64 -> 0 <= lo < 2 ^ (64 * k) -> 0 <= x -> 0 <= hi ->
  (lo + 2 ^ (64 * k) * (x + B * hi)) / 2 ^ (64 * k + s) * 2 ^ (64 * k + s) = 2 ^ (64 * k) * (x / 2 ^ s * 2 ^ s + B * hi).
Proof.
  intros Hk Hs Hlo Hx Hhi. pose proof (mod_cut lo k x hi s Hk ltac:(lia) Hlo) as Em. assert (0 < 2 ^ (64 * k + s)) by (apply Z.pow_pos_nonneg; lia). assert (0 < 2 ^ s) by (apply Z.pow_pos_nonneg; lia).
  pose proof (Z.div_mod (lo + 2 ^ (64 * k) * (x + B * hi)) (2 ^ (64 * k + s)) ltac:(lia)) as E. pose proof (Z.div_mod x (2 ^ s) ltac:(lia)) as Ex. rewrite Em in E. nia.
Qed.

Section Truncate.
Context `{BfAllocator} (r : bf_t) (l prec : Z).
Context (Ht : Forall limb (tab r)) (Hl : 0 < l <= zlen (tab r)) (Hl64 : l < 2 ^ 55) (Hp : 1 <= prec < 2 ^ 63 - 2).
Context (Hm : 2 ^ (64 * l - 1) <= lval (take (Z.to_nat l) (tab r))).

Notation m := (lval (take (Z.to_nat l) (tab r))).
Notation u := (Z.max 0 (64 * l - prec)).

(** The masked limbs. *)
Lemma wp_truncate_mask :
  let bit_pos := i64 (l * LIMB_BITS - 1 - (prec - 1)) in
  let i := Z.shiftr bit_pos 6 in
  wp (if 0 <=? i then
      let shift := Z.land bit_pos (LIMB_BITS - 1) in
      if negb (shift =? 0) then
        v ← rd (tab r) i; t ← wr (tab r) i (Z.land v (limb_mask shift (LIMB_BITS - 1))); Ret (i, t)
      else Ret (i, tab r)
    else Ret (0, tab r))
  (fun '(i, t) => 0 <= i < l /\ length t = length (tab r) /\ Forall limb t /\ B ^ i * lval (drop (Z.to_nat i) (take (Z.to_nat l) t)) = m / 2 ^ u * 2 ^ u).
Proof.
  cbv zeta. change (LIMB_BITS - 1) with 63. unfold LIMB_BITS. rewrite i64_id by lia. replace (l * 64 - 1 - (prec - 1)) with (64 * l - prec) by lia. rewrite shiftr_6.
  change 63 with (LIMB_BITS - 1). rewrite land_bit_index. change (LIMB_BITS - 1) with 63. pose proof (m_nonneg r l Ht Hl) as Hmn. destruct (Z.lt_ge_cases (64 * l - prec) 0) as [Hneg|Hpos].
  { assert ((64 * l - prec) / 64 < 0) by (apply Z.div_lt_upper_bound; lia). rewrite (proj2 (Z.leb_gt _ _)) by done. apply wp_ret. rewrite Z.max_l by lia.
    rewrite Z.pow_0_r, Z.div_1_r, Z.mul_1_r. change (Z.to_nat 0) with O. rewrite drop_0. split_and!; [lia..|done|done|lia]. }
  rewrite Z.max_r by lia. assert (Hi : 0 <= (64 * l - prec) / 64 < l) by (split; [apply Z.div_pos; lia|apply Z.div_lt_upper_bound; lia]).
  rewrite (proj2 (Z.leb_le _ _)) by lia. set (i := (64 * l - prec) / 64) in *. pose proof (Z.mod_pos_bound (64 * l - prec) 64 ltac:(lia)) as Hsh. set (sh := (64 * l - prec) mod 64) in *.
  assert (Ep : 64 * l - prec = 64 * i + sh) by (unfold i, sh; apply Z.div_mod; lia).
  assert (HtT : Forall limb (take (Z.to_nat l) (tab r))) by (by apply Forall_take).
  destruct (lookup_lt_is_Some_2 (tab r) (Z.to_nat i)) as [x Ex]; [unfold zlen in *; lia|].
  assert (ExT : take (Z.to_nat l) (tab r) !! Z.to_nat i = Some x) by (by rewrite lookup_take_lt by lia).
  destruct (lval_cut _ _ _ HtT ExT) as (E & Hlo & Hx & Hhi). rewrite Bpow_2, Z2Nat.id in * by lia.
  assert (Ev : m / 2 ^ (64 * l - prec) * 2 ^ (64 * l - prec) = 2 ^ (64 * i) * (x / 2 ^ sh * 2 ^ sh + B * lval (drop (S (Z.to_nat i)) (take (Z.to_nat l) (tab r))))).
  { rewrite Ep, E. apply floor_cut; try lia. apply Hx. }
  assert (EB : B ^ i = 2 ^ (64 * i)) by (rewrite B_64, <- Z.pow_mul_r by lia; done).
  destruct (Z.eqb_spec sh 0) as [E0|Hne]; cbn [negb].
  - apply wp_ret. split_and!; [lia..|done|done|]. rewrite (drop_S _ _ _ ExT), lval_cons, Ev, E0, Z.pow_0_r, Z.div_1_r, Z.mul_1_r, EB. done.
  - apply wp_bind, wp_rd; [unfold zlen in *; lia|]. intros x' Ex'. rewrite Ex in Ex'. injection Ex' as <-. apply wp_bind, wp_wr; [unfold zlen in *; lia|]. apply wp_ret.
    rewrite land_high by (try done; lia). assert (Hlx : limb (x / 2 ^ sh * 2 ^ sh)).
    { unfold limb in *. assert (0 < 2 ^ sh) by (apply Z.pow_pos_nonneg; lia). pose proof (Z.div_mod x (2 ^ sh) ltac:(lia)). pose proof (Z.mod_pos_bound x (2 ^ sh) ltac:(lia)).
      assert (0 <= x / 2 ^ sh) by (apply Z.div_pos; lia). nia. }
    split_and!; [lia..|by rewrite length_insert|by apply Forall_insert|].
    rewrite take_insert_lt by lia. rewrite drop_insert_same by (rewrite length_take; unfold zlen in *; lia). rewrite lval_cons, Ev, EB. done.
Qed.

Lemma floor_top : 2 ^ (64 * l - 1) <= m / 2 ^ u * 2 ^ u.
Proof.
  assert (E : 2 ^ (64 * l - 1) = 2 ^ (64 * l - 1 - u) * 2 ^ u) by (rewrite <- Z.pow_add_r by lia; f_equal; lia). rewrite E.
  apply Z.mul_le_mono_nonneg_r; [apply Z.pow_nonneg; lia|]. apply Z.div_le_lower_bound; [apply Z.pow_pos_nonneg; lia|]. lia.
Qed.

Lemma wp_round_truncate ret :
  wp (round_truncate r l prec ret) (fun '(ret', r') => ret' = ret /\ sign r' = sign r /\ expn r' = expn r /\ bf_normal (tab r') /\
    exists j, 0 <= j /\ j + zlen (tab r') = l /\ lval (tab r') * 2 ^ (64 * j) = m / 2 ^ u * 2 ^ u).
Proof.
  unfold round_truncate. apply wp_bind. eapply wp_mono; [exact wp_truncate_mask|]. intros [i t] (Hi & Hlen & Htt & Ev).
  set (W := take (Z.to_nat l) t) in *. assert (HlW : length W = Z.to_nat l) by (unfold W; rewrite length_take; unfold zlen in *; lia).
  assert (HW : Forall limb W) by (by apply Forall_take). pose proof floor_top as Htop. rewrite <- Ev in Htop. assert (0 < 2 ^ (64 * l - 1)) by (apply Z.pow_pos_nonneg; lia).
  assert (Hlast : exists k v, i <= k < l /\ t !! Z.to_nat k = Some v /\ v <> 0).
  { destruct (decide (Forall (fun v => v = 0) (drop (Z.to_nat i) W))) as [Hz|Hnz].
    - exfalso. enough (lval (drop (Z.to_nat i) W) = 0) by nia. clear -Hz. induction Hz as [|x y -> _ IH]; [done|]. rewrite lval_cons, IH. lia.
    - apply not_Forall_Exists in Hnz; [|apply _]. apply Exists_exists in Hnz as (v & Hin & Hv). apply list_elem_of_lookup in Hin as [n Hn]. rewrite lookup_drop in Hn.
      pose proof (lookup_lt_Some _ _ _ Hn). exists (i + Z.of_nat n), v. unfold W in Hn. rewrite lookup_take_lt in Hn by lia. split_and!; [lia..| |done]. rewrite <- Hn. f_equal. lia. }
  destruct Hlast as (k & v & Hk & Ek & Hv). apply wp_bind. eapply wp_mono; [apply (wp_skip_zeros t i k v); [lia|done|done]|]. intros j (Hj & Hz & (x & Ex & Hx)).
  assert (ExW : W !! Z.to_nat j = Some x) by (unfold W; by rewrite lookup_take_lt by lia).
  assert (Eval : lval (drop (Z.to_nat j) W) * 2 ^ (64 * j) = m / 2 ^ u * 2 ^ u).
  { rewrite <- Ev, (lval_drop_zeros W (Z.to_nat i) (Z.to_nat j)).
    - rewrite Bpow_2, B_64, <- Z.pow_mul_r by lia. rewrite Z.mul_assoc, <- Z.pow_add_r by lia. rewrite Z.mul_comm. do 2 f_equal. lia.
    - lia.
    - intros n Hn. unfold W. rewrite lookup_take_lt by lia. specialize (Hz (Z.of_nat n) ltac:(lia)). by rewrite Nat2Z.id in Hz. }
  assert (HlZ : zlen (drop (Z.to_nat j) W) = l - j) by (unfold zlen; rewrite length_drop; lia).
  assert (Hnorm : bf_normal (drop (Z.to_nat j) W)).
  { split_and!; [by apply Forall_drop| |exists x, (drop (S (Z.to_nat j)) W); by rewrite (drop_S _ _ _ ExW)]. rewrite HlZ. rewrite Ev, <- Eval in Htop.
    apply (Z.mul_le_mono_pos_r _ _ (2 ^ (64 * j))); [apply Z.pow_pos_nonneg; lia|]. rewrite <- Z.pow_add_r by lia. by replace (64 * (l - j) - 1 + 64 * j) with (64 * l - 1) by lia. }
  apply wp_bind. apply (wp_mono _ (fun t' => take (Z.to_nat (l - j)) t' = drop (Z.to_nat j) W /\ zlen t' = zlen (tab r))).
  { destruct (Z.ltb_spec 0 j).
    - apply wp_bind. rewrite rd_range_ok by (unfold zlen in *; lia). cbn [wp]. rewrite take_drop_commute. replace (Z.to_nat j + Z.to_nat (l - j))%nat with (Z.to_nat l) by lia. fold W.
      rewrite wr_range_ok by (rewrite ?HlZ; unfold zlen in *; lia). cbn [wp]. rewrite take_0, app_nil_l. split.
      + rewrite take_app_le by (unfold zlen in *; lia). apply take_ge. unfold zlen in *. lia.
      + rewrite zlen_app, HlZ, zlen_drop. unfold zlen in *. lia.
    - assert (j = 0) as -> by lia. apply wp_ret. rewrite Z.sub_0_r. fold W. split; [done|unfold zlen in *; lia]. }
  intros t' [Et' Hlt']. replace (if 0 <? j then l - j else l) with (l - j) by (destruct (Z.ltb_spec 0 j); lia).
  unfold bf_resize. cbn [tab sign expn]. destruct (Z.eqb_spec (l - j) (zlen t')) as [Eq|Hne].
  - cbn. rewrite take_ge in Et' by (unfold zlen in *; lia). subst t'. split_and!; [done..|]. exists j. split_and!; [lia..|done].
  - rewrite bf_realloc_shrinks by (unfold zlen in *; lia). cbn. rewrite Et'. split_and!; [done..|]. exists j. split_and!; [lia..|done].
Qed.
End Truncate.

(** ** Adding one *)

Lemma round_carry_add_ui : forall t k, limb k -> k <> 0 -> round_carry t k = mp_add_ui t k.
Proof.
  induction t as [|a t IH]; intros k Hk Hk0; [done|]. cbn [round_carry mp_add_ui]. destruct (Z.eqb_spec k 0); [done|].
  destruct (u64 (a + k) <? k); cbn [b2z Z.eqb]; [by rewrite IH|]. by destruct t.
Qed.

Lemma wp_round_add t l prec e : Forall limb t -> 0 < l <= zlen t -> l < 2 ^ 55 -> 1 <= prec -> 0 < 64 * l - prec -> 2 ^ (64 * l - 1) <= lval (take (Z.to_nat l) t) ->
  - 2 ^ 62 - 2 <= e <= 2 ^ 62 + 2 ->
  let s := 64 * l - prec in let q := lval (take (Z.to_nat l) t) / 2 ^ s in
  wp (round_add t l (s / 64) (2 ^ (s mod 64)) e) (fun '(t', e') => length t' = length t /\ Forall limb t' /\ 2 ^ (64 * l - 1) <= lval (take (Z.to_nat l) t') /\
    ((e' = e /\ lval (take (Z.to_nat l) t') / 2 ^ s = q + 1 /\ q + 1 < 2 ^ prec) \/ (e' = e + 1 /\ lval (take (Z.to_nat l) t') / 2 ^ s = 2 ^ (prec - 1) /\ q + 1 = 2 ^ prec))).
Proof.
  intros Ht Hl Hl64 Hp Hs Hm He s q. set (T := take (Z.to_nat l) t) in *. assert (HT : Forall limb T) by (by apply Forall_take).
  assert (HlT : length T = Z.to_nat l) by (unfold T; rewrite length_take; unfold zlen in *; lia).
  assert (Hpos : 0 <= s / 64 < l) by (split; [apply Z.div_pos; lia|apply Z.div_lt_upper_bound; lia]). set (pos := s / 64) in *.
  pose proof (Z.mod_pos_bound s 64 ltac:(lia)) as Hsh. set (sh := s mod 64) in *. assert (Es : s = 64 * pos + sh) by (unfold pos, sh; apply Z.div_mod; lia).
  assert (Hc : limb (2 ^ sh) /\ 2 ^ sh <> 0).
  { split; [|apply Z.pow_nonzero; lia]. split; [apply Z.pow_nonneg; lia|]. rewrite B_64. apply Z.pow_lt_mono_r; lia. }
  unfold round_add. apply wp_bind. rewrite rd_range_ok by (unfold zlen in *; lia). cbn [wp]. rewrite take_drop_commute. replace (Z.to_nat pos + Z.to_nat (l - pos))%nat with (Z.to_nat l) by lia.
  fold T. set (S := drop (Z.to_nat pos) T) in *. assert (HS : Forall limb S) by (by apply Forall_drop). assert (HlS : length S = Z.to_nat (l - pos)) by (unfold S; rewrite length_drop; lia).
  set (lo := take (Z.to_nat pos) T) in *. assert (Hlo : Forall limb lo) by (by apply Forall_take). assert (Hllo : length lo = Z.to_nat pos) by (unfold lo; rewrite length_take; lia).
  assert (ET : T = lo ++ S) by (unfold lo, S; by rewrite take_drop). pose proof (lval_bounds lo Hlo) as Hblo. rewrite Hllo, Bpow_2, Z2Nat.id in Hblo by lia.
  assert (Em : lval T = lval lo + 2 ^ (64 * pos) * lval S) by (rewrite ET, lval_app, Hllo, Bpow_2, Z2Nat.id by lia; done).
  rewrite round_carry_add_ui by apply Hc. destruct (mp_add_ui_spec S (2 ^ sh) HS (proj1 Hc)) as ([Hl1 HS1] & Hc1 & Hc2 & E1). destruct (mp_add_ui S (2 ^ sh)) as [S1 c]. cbn [fst snd] in *.
  assert (HneS : S <> []) by (intros E0; rewrite E0 in HlS; cbn in HlS; lia). specialize (Hc2 HneS). rewrite HlS, Bpow_2, Z2Nat.id in E1 by lia.
  pose proof (lval_bounds S HS) as HbS. pose proof (lval_bounds S1 HS1) as HbS1. rewrite Hl1, HlS, Bpow_2, Z2Nat.id in HbS1 by lia. rewrite HlS, Bpow_2, Z2Nat.id in HbS by lia.
  set (N := 2 ^ (64 * (l - pos))) in *. assert (HN : 2 ^ (64 * l) = 2 ^ (64 * pos) * N) by (unfold N; rewrite <- Z.pow_add_r by lia; f_equal; lia).
  assert (Hd : forall x, 0 <= x -> (lval lo + 2 ^ (64 * pos) * x) / 2 ^ s = x / 2 ^ sh).
  { intros x Hx. rewrite Es, Z.pow_add_r by lia. rewrite <- Z.div_div by (apply Z.pow_nonzero || apply Z.pow_pos_nonneg; lia). f_equal. rewrite Z.add_comm, Z.mul_comm, Z.div_add_l by (apply Z.pow_nonzero; lia).
    rewrite (Z.div_small (lval lo)) by done. lia. }
  assert (Hw : forall S2 e2 (Q : list Z * Z -> Prop), length S2 = length S -> (forall t', length t' = length t -> Forall limb S2 -> Forall limb t' -> take (Z.to_nat l) t' = lo ++ S2 -> Q (t', e2)) -> Forall limb S2 ->
    wp (t ← wr_range t pos S2; Ret (t, e2)) Q).
  { intros S2 e2 Q Hl2 HQ HS2. apply wp_bind. assert (Et : t = lo ++ S ++ drop (Z.to_nat l) t) by (rewrite app_assoc, <- ET; unfold T; by rewrite take_drop). rewrite Et at 1.
    rewrite wr_range_app by (try done; unfold zlen; lia). cbn [wp]. apply HQ; try done.
    - rewrite !length_app, Hl2, length_drop. unfold zlen in *. lia.
    - rewrite !Forall_app. split_and!; [done..|by apply Forall_drop].
    - rewrite app_assoc. rewrite take_app_le by (rewrite length_app; lia). apply take_ge. rewrite length_app. lia. }
  assert (Hsp : 2 ^ (64 * l) = 2 ^ prec * 2 ^ s) by (rewrite <- Z.pow_add_r by lia; f_equal; lia). assert (H2s : 0 < 2 ^ s) by (apply Z.pow_pos_nonneg; lia).
  assert (H2p : 0 < 2 ^ (64 * pos)) by (apply Z.pow_pos_nonneg; lia). assert (H2h : 0 < 2 ^ sh) by (apply Z.pow_pos_nonneg; lia).
  assert (Hq : q = lval S / 2 ^ sh) by (unfold q; rewrite Em; apply Hd; lia).
  assert (HNp : N = 2 ^ prec * 2 ^ sh) by (unfold N; rewrite <- Z.pow_add_r by lia; f_equal; lia).
  assert (Hcc : c = 0 \/ c = 1) by (unfold limb in Hc1; lia). destruct Hcc as [->| ->]; cbn [Z.eqb negb].
  - apply Hw; [lia| |done]. intros t' Hl' _ Ht' Et'. rewrite Et'. split_and!; [done..| |].
    + rewrite lval_app, Hllo, Bpow_2, Z2Nat.id by lia. clear -E1 Em Hm H2p H2h. nia.
    + left. rewrite lval_app, Hllo, Bpow_2, Z2Nat.id by lia. rewrite Hd by lia. replace (lval S1) with (lval S + 1 * 2 ^ sh) by lia. rewrite Z.div_add by lia. split_and!; [done|lia|].
      rewrite Hq. assert (lval S / 2 ^ sh < 2 ^ prec - 1); [|lia]. apply Z.div_lt_upper_bound; [done|]. lia.
  - destruct (mp_shr_loop_spec S1 1 1 HS1 ltac:(done) ltac:(lia)) as ([Hl2 HS2] & _ & _ & E2). destruct (mp_shr_loop S1 1 1) as [S2 v]. cbn [fst snd] in *. change (1 mod 2 ^ 1) with 1 in E2.
    rewrite Hl1, HlS, Bpow_2, Z2Nat.id in E2 by lia. fold N in E2. change (2 ^ 1) with 2 in E2.
    apply Hw; [lia| |done]. intros t' Hl' _ Ht' Et'. rewrite Et'. assert (Hmod : 0 <= hd 1 S1 mod 2 < 2) by (apply Z.mod_pos_bound; lia).
    assert (HN2 : N = 2 * (2 ^ (prec - 1) * 2 ^ sh)) by (rewrite HNp; replace prec with (prec - 1 + 1) at 1 by lia; rewrite Z.pow_add_r by lia; lia).
    assert (Hdv : lval S2 / 2 ^ sh = 2 ^ (prec - 1)) by (symmetry; apply (Z.div_unique_pos _ _ _ (lval S2 - 2 ^ (prec - 1) * 2 ^ sh)); lia).
    split_and!; [done..| |].
    + rewrite lval_app, Hllo, Bpow_2, Z2Nat.id by lia. assert (N <= 2 * lval S2) by lia. assert (2 ^ (64 * l) = 2 * 2 ^ (64 * l - 1)) by (replace (64 * l) with (64 * l - 1 + 1) at 1 by lia; rewrite Z.pow_add_r by lia; lia). clear -Hblo HN H H0 H2p. nia.
    + right. rewrite lval_app, Hllo, Bpow_2, Z2Nat.id by lia. rewrite Hd by lia. split_and!; [apply i64_id; lia|done|].
      rewrite Hq. enough (lval S / 2 ^ sh = 2 ^ prec - 1) by lia. symmetry. apply (Z.div_unique_pos _ _ _ (lval S - (2 ^ prec - 1) * 2 ^ sh)); lia.
Qed.

(** ** What rounding returns *)

Inductive bf_val := V_nan | V_zero (sg : Z) | V_inf (sg : Z) | V_fin (sg m e : Z).   (* [+-m * 2^e] *)

Definition dy_eq (m1 e1 m2 e2 : Z) : Prop := m1 * 2 ^ (e1 - Z.min e1 e2) = m2 * 2 ^ (e2 - Z.min e1 e2).

Definition bf_repr (r : bf_t) (v : bf_val) : Prop :=
  match v with
  | V_nan => tab r = [] /\ expn r = BF_EXP_NAN
  | V_zero sg => tab r = [] /\ expn r = BF_EXP_ZERO /\ sign r = sg
  | V_inf sg => tab r = [] /\ expn r = BF_EXP_INF /\ sign r = sg
  | V_fin sg m e => sign r = sg /\ bf_normal (tab r) /\ dy_eq (lval (tab r)) (expn r - 64 * zlen (tab r)) m e
  end.

(** The precision in bits of a number with exponent [e]. *)
Definition round_prec (flags prec1 e e_min : Z) : Z :=
  if negb (Z.land flags BF_FLAG_RADPNT_PREC =? 0) then if negb (prec1 =? BF_PREC_INF) then e + prec1 else prec1
  else if (e <? e_min) && negb (Z.land flags BF_FLAG_SUBNORMAL =? 0) then prec1 - (e_min - e)
  else prec1.

(** Whether an overflow gives an infinity. *)
Definition overflow_inf (flags prec1 sg : Z) : bool :=
  let mode := Z.land flags BF_RND_MASK in
  (prec1 =? BF_PREC_INF) || (mode =? BF_RNDN) || (mode =? BF_RNDNA) || (mode =? BF_RNDA)
  || ((mode =? BF_RNDD) && (sg =? 1)) || ((mode =? BF_RNDU) && (sg =? 0)).

(** The rounding of [m * 2^(e - n)], where [m] has [n] bits: status and value. *)
Definition round_spec (flags prec1 sg e m n : Z) : Z * bf_val :=
  let mode := Z.land flags BF_RND_MASK in
  let e_range := 2 ^ (bf_get_exp_bits flags - 1) in
  let e_min := - e_range + 3 in
  let e_max := e_range in
  let P := round_prec flags prec1 e e_min in
  let s := n - P in
  let inexact := if s <=? 0 then mode =? BF_RNDF else rnd_inexact mode m s in
  let st := if inexact then BF_ST_INEXACT else 0 in
  let q := m / 2 ^ s + b2z (rnd_up mode sg m s) in
  if P <=? 0 then (Z.lor BF_ST_UNDERFLOW BF_ST_INEXACT, if q =? 0 then V_zero sg else V_fin sg q (e - P))
  else
    let e' := if (0 <? s) && (q =? 2 ^ P) then e + 1 else e in
    if (e' <? e_min) && (Z.land flags BF_FLAG_SUBNORMAL =? 0) then (Z.lor BF_ST_UNDERFLOW BF_ST_INEXACT, V_zero sg)
    else if e_max <? e' then
      (Z.lor BF_ST_OVERFLOW BF_ST_INEXACT, if overflow_inf flags prec1 sg then V_inf sg else V_fin sg (2 ^ prec1 - 1) (e_max - prec1))
    else
      (if (e' <? e_min) && inexact then Z.lor st BF_ST_UNDERFLOW else st,
       if s <=? 0 then V_fin sg m (e - n) else V_fin sg q (e - P)).

(** What a caller respects: a mode, an exponent range of at least three bits, a
    precision, which is not infinite for subnormal numbers. *)
Record round_args (flags prec1 e : Z) : Prop := mkArgs {
  ra_mode : 0 <= Z.land flags BF_RND_MASK <= 6;
  ra_bits : 3 <= bf_get_exp_bits flags <= 62;
  ra_prec : 0 <= prec1 <= BF_PREC_INF;
  ra_sub : Z.land flags BF_FLAG_SUBNORMAL <> 0 -> prec1 <> BF_PREC_INF;
  ra_exp : - 2 ^ 62 <= e <= 2 ^ 62 - 8;
  ra_zero : prec1 = 0 -> e < 2 ^ (bf_get_exp_bits flags - 1);
}.

Section Spec.
Context `{BfAllocator}.

(** Memory is short: a request is refused. *)
Definition no_memory : Prop := exists p n, bf_realloc p n = None.

Lemma resize_fails r l r' : bf_resize r l = (false, r') -> no_memory.
Proof. unfold bf_resize. destruct (l =? zlen (tab r)); [done|]. destruct (bf_realloc (tab r) l) eqn:E; [done|]. intros _. by exists (tab r), l. Qed.
Lemma resize_length r l r' : 0 <= l -> bf_resize r l = (true, r') -> zlen (tab r') = l.
Proof.
  intros Hl Er. unfold bf_resize in Er. destruct (Z.eqb_spec l (zlen (tab r))); [by simplify_eq|].
  destruct (bf_realloc (tab r) l) as [t|] eqn:Ea; simplify_eq/=. by apply bf_realloc_length in Ea.
Qed.

Lemma bf_resize_0 r : bf_resize r 0 = (true, mkBf (sign r) (expn r) []).
Proof.
  unfold bf_resize. destruct (Z.eqb_spec 0 (zlen (tab r))) as [E|E].
  - destruct r as [sg e [|x t]]; [done|]. unfold zlen in E. cbn in E. lia.
  - rewrite bf_realloc_shrinks by (pose proof (zlen_nonneg (tab r)); lia). done.
Qed.
Lemma repr_zero r sg : bf_repr (bf_set_zero r sg) (V_zero sg).
Proof. unfold bf_set_zero. by rewrite bf_resize_0. Qed.
Lemma repr_inf r sg : bf_repr (bf_set_inf r sg) (V_inf sg).
Proof. unfold bf_set_inf. by rewrite bf_resize_0. Qed.
Lemma repr_nan r : bf_repr (bf_set_nan r) V_nan.
Proof. unfold bf_set_nan. by rewrite bf_resize_0. Qed.

Lemma dy_eq_intro m1 e1 m2 e2 k : 0 <= k -> m1 * 2 ^ k = m2 -> e1 = e2 + k -> dy_eq m1 e1 m2 e2.
Proof. intros Hk <- ->. unfold dy_eq. rewrite Z.min_r by lia. rewrite Z.sub_diag, Z.pow_0_r. replace (e2 + k - e2) with k by lia. lia. Qed.
Lemma dy_eq_scale m1 e1 m2 e2 a b : 0 <= a -> 0 <= b -> m1 * 2 ^ a = m2 * 2 ^ b -> e1 - a = e2 - b -> dy_eq m1 e1 m2 e2.
Proof.
  intros Ha Hb E He. unfold dy_eq. destruct (Z.le_gt_cases e1 e2).
  - rewrite Z.min_l by lia. rewrite Z.sub_diag, Z.pow_0_r, Z.mul_1_r. replace b with (e2 - e1 + a) in E by lia. rewrite Z.pow_add_r, Z.mul_assoc in E by lia.
    apply Z.mul_reg_r in E; [done|apply Z.pow_nonzero; lia].
  - rewrite Z.min_r by lia. rewrite Z.sub_diag, Z.pow_0_r, Z.mul_1_r. replace a with (e1 - e2 + b) in E by lia. rewrite Z.pow_add_r, Z.mul_assoc in E by lia.
    apply Z.mul_reg_r in E; [done|apply Z.pow_nonzero; lia].
Qed.

(** The largest finite number. *)
Lemma wp_fill_ones t l : 1 <= l -> zlen t = l -> wp (foldM (fun t i => wr t i (u64 (-1))) t (seqZ 1 (l - 1))) (fun t' => exists x t0, t = x :: t0 /\ t' = x :: replicate (Z.to_nat (l - 1)) (B - 1)).
Proof.
  intros Hl Hz. destruct t as [|x t]; [unfold zlen in Hz; cbn in Hz; lia|].
  apply (wp_foldM (fun t' rest => exists i k, rest = seqZ i (l - i) /\ 1 <= i <= l /\ t' = x :: replicate (Z.to_nat (i - 1)) (B - 1) ++ k /\ zlen k = l - i)).
  - intros t' j rest (i & k & Er & Hi & -> & Hk). destruct (Z.lt_ge_cases i l) as [Hlt|]; [|rewrite seqZ_nil in Er by lia; done]. rewrite seqZ_cons in Er by lia. injection Er as -> ->.
    destruct k as [|y k]; [unfold zlen in Hk; cbn in Hk; lia|]. rewrite app_comm_cons, wr_app by (unfold zlen; cbn [length]; rewrite length_replicate; lia). cbn [wp].
    exists (i + 1), k. split_and!; [f_equal; lia|lia..| |rewrite zlen_cons in Hk; lia].
    replace (Z.to_nat (i + 1 - 1)) with (S (Z.to_nat (i - 1))) by lia. rewrite replicate_S_end, <- app_assoc. done.
  - intros t' (i & k & Er & Hi & -> & Hk). assert (i = l) as ->. { destruct (Z.lt_ge_cases i l); [|lia]. rewrite seqZ_cons in Er by lia. done. }
    destruct k; [|unfold zlen in Hk; cbn in Hk; lia]. exists x, t. rewrite app_nil_r. done.
  - exists 1, t. split_and!; [done|lia..|done|]. rewrite zlen_cons in Hz. lia.
Qed.

Lemma lval_ones n : lval (replicate n (B - 1)) = B ^ Z.of_nat n - 1.
Proof. induction n as [|n IH]; [done|]. cbn [replicate]. rewrite lval_cons, IH, Bpow_S. lia. Qed.

Lemma wp_bf_set_overflow r sg prec flags : 1 <= prec <= BF_PREC_INF -> 1 <= bf_get_exp_bits flags ->
  wp (bf_set_overflow r sg prec flags) (fun '(ret, r') =>
    (ret = Z.lor BF_ST_OVERFLOW BF_ST_INEXACT /\ bf_repr r' (if overflow_inf flags prec sg then V_inf sg else V_fin sg (2 ^ prec - 1) (2 ^ (bf_get_exp_bits flags - 1) - prec))) \/
    (ret = BF_ST_MEM_ERROR /\ overflow_inf flags prec sg = false /\ no_memory /\ bf_repr r' V_nan)).
Proof.
  intros Hp He. unfold bf_set_overflow. fold (overflow_inf flags prec sg). destruct (overflow_inf flags prec sg) eqn:Eo.
  { apply wp_ret. left. split; [done|apply repr_inf]. }
  unfold LIMB_BITS. set (l := (prec + 64 - 1) / 64). assert (Hl : 1 <= l /\ 64 * (l - 1) < prec <= 64 * l) by (unfold l; Z.to_euclidean_division_equations; lia).
  destruct (bf_resize r l) as [ok r1] eqn:Er. destruct ok; cbn [negb]; [|apply wp_ret; right; split_and!; [done|done|by eapply resize_fails|apply repr_nan]].
  pose proof (resize_length r l r1 ltac:(lia) Er) as Hz.
  apply wp_bind, wp_wr; [lia|]. apply wp_bind. eapply wp_mono; [apply wp_fill_ones; [lia|by rewrite zlen_insert]|]. intros t' (x & t0 & Ex & ->). apply wp_ret. left. split; [done|].
  destruct (tab r1) as [|y t1]; [unfold zlen in Hz; cbn in Hz; lia|]. cbn in Ex. injection Ex as <- <-. change (Z.land (- prec) 63) with (Z.land (- prec) (LIMB_BITS - 1)). rewrite land_bit_index.
  assert (Esh : (- prec) mod 64 = 64 * l - prec) by (symmetry; apply (Z.mod_unique_pos _ _ (- l)); lia). rewrite Esh. set (s := 64 * l - prec).
  rewrite limb_mask_high, (Z.shiftl_mul_pow2 (Z.ones _)), Z.ones_equiv by lia. assert (E64 : B = 2 ^ (64 - s) * 2 ^ s) by (rewrite B_64, <- Z.pow_add_r by lia; f_equal; lia).
  assert (0 < 2 ^ s) by (apply Z.pow_pos_nonneg; lia). assert (H1 : 2 ^ 1 <= 2 ^ (64 - s)) by (apply Z.pow_le_mono_r; lia). change (2 ^ 1) with 2 in H1.
  assert (Ex : Z.pred (2 ^ (64 - s)) * 2 ^ s = B - 2 ^ s) by (rewrite E64; lia). rewrite Ex.
  assert (Ev : lval ((B - 2 ^ s) :: replicate (Z.to_nat (l - 1)) (B - 1)) = 2 ^ (64 * l) - 2 ^ s).
  { rewrite lval_cons, lval_ones. replace (64 * l) with (64 * Z.of_nat (S (Z.to_nat (l - 1)))) by lia. rewrite <- Bpow_2, Bpow_S. lia. }
  assert (Hlen : zlen ((B - 2 ^ s) :: replicate (Z.to_nat (l - 1)) (B - 1)) = l) by (unfold zlen; cbn [length]; rewrite length_replicate; lia).
  assert (E2 : 2 ^ (64 * l) = 2 ^ prec * 2 ^ s) by (rewrite <- Z.pow_add_r by lia; f_equal; lia).
  split_and!; [done| |].
  - split_and!; cbn [tab]; [|rewrite Ev, Hlen|exists (B - 2 ^ s); eexists; split; [done|nia]].
    + constructor; [unfold limb; nia|]. apply Forall_replicate. pose proof B_pos. unfold limb. lia.
    + replace (64 * l) with (64 * l - 1 + 1) at 2 by lia. rewrite Z.pow_add_r by lia. change (2 ^ 1) with 2. assert (2 ^ s <= 2 ^ (64 * l - 1)) by (apply Z.pow_le_mono_r; lia). lia.
  - cbn [tab expn]. rewrite Ev, Hlen. rewrite Z.shiftl_mul_pow2, Z.mul_1_l by lia. apply (dy_eq_scale _ _ _ _ 0 s); [lia|lia|rewrite E2; lia|lia].
Qed.

(** [ret] and the number [r'] are a result, or memory was short for the largest
    finite number. *)
Definition round_post (flags prec1 sg : Z) (res : Z * bf_val) : Z * bf_t -> Prop := fun '(ret, r') =>
  (ret = res.1 /\ bf_repr r' res.2) \/
  (ret = BF_ST_MEM_ERROR /\ res.1 = Z.lor BF_ST_OVERFLOW BF_ST_INEXACT /\ overflow_inf flags prec1 sg = false /\ no_memory /\ bf_repr r' V_nan).

Lemma wp_round_finish r prec1 flags l prec inexact e_min e_max v :
  Forall limb (tab r) -> 0 < l <= zlen (tab r) -> l < 2 ^ 55 -> 1 <= prec < 2 ^ 63 - 2 -> 2 ^ (64 * l - 1) <= lval (take (Z.to_nat l) (tab r)) ->
  1 <= bf_get_exp_bits flags -> e_max = 2 ^ (bf_get_exp_bits flags - 1) -> (1 <= prec1 \/ expn r <= e_max) -> prec1 <= BF_PREC_INF ->
  (forall r', sign r' = sign r -> expn r' = expn r -> bf_normal (tab r') ->
     (exists j, 0 <= j /\ j + zlen (tab r') = l /\ lval (tab r') * 2 ^ (64 * j) = lval (take (Z.to_nat l) (tab r)) / 2 ^ Z.max 0 (64 * l - prec) * 2 ^ Z.max 0 (64 * l - prec)) -> bf_repr r' v) ->
  let st := if inexact : bool then BF_ST_INEXACT else 0 in
  wp (round_finish r prec1 flags l prec st e_min e_max) (round_post flags prec1 (sign r)
    (if (expn r <? e_min) && (Z.land flags BF_FLAG_SUBNORMAL =? 0) then (Z.lor BF_ST_UNDERFLOW BF_ST_INEXACT, V_zero (sign r))
     else if e_max <? expn r then (Z.lor BF_ST_OVERFLOW BF_ST_INEXACT, if overflow_inf flags prec1 (sign r) then V_inf (sign r) else V_fin (sign r) (2 ^ prec1 - 1) (e_max - prec1))
     else (if (expn r <? e_min) && inexact then Z.lor st BF_ST_UNDERFLOW else st, v))).
Proof.
  intros Ht Hl Hl64 Hp Hm Hb Hemax Hov Hp1 Hv st. unfold round_finish. destruct ((expn r <? e_min) && (Z.land flags BF_FLAG_SUBNORMAL =? 0)).
  { apply wp_ret. left. split; [unfold st; by destruct inexact|apply repr_zero]. }
  assert (Est : negb (Z.land st BF_ST_INEXACT =? 0) = inexact) by (unfold st; by destruct inexact). rewrite Est. destruct (Z.ltb_spec e_max (expn r)) as [Hgt|Hle].
  - eapply wp_mono; [apply wp_bf_set_overflow; lia|]. intros [ret r'] [[-> Hr]|(-> & Ho & Hr)]; [left|right]; cbn; [by subst e_max|done].
  - eapply wp_mono; [by apply wp_round_truncate|]. intros [ret r'] (-> & Hs & He & Hn & Hj). left. split; [done|]. by apply Hv.
Qed.

Lemma round_prec_bounds flags prec1 e e_min : round_args flags prec1 e -> e_min = - 2 ^ (bf_get_exp_bits flags - 1) + 3 ->
  let P := round_prec flags prec1 e e_min in
  - 2 ^ 62 - 8 <= P < 2 ^ 63 - 2 /\ (P <= 0 -> - 2 ^ 63 <= e + 1 - P < 2 ^ 63) /\
  (if negb (Z.land flags BF_FLAG_RADPNT_PREC =? 0) then Ret (if negb (prec1 =? BF_PREC_INF) then i64 (e + prec1) else prec1)
     else if (e <? e_min) && negb (Z.land flags BF_FLAG_SUBNORMAL =? 0) then _ ← c_assert (negb (prec1 =? BF_PREC_INF)); Ret (i64 (prec1 - (e_min - e))) else Ret prec1) = Ret P.
Proof.
  intros [Hm Hb Hp Hsub He Hz] Hemin P. assert (Hr : 2 ^ 2 <= 2 ^ (bf_get_exp_bits flags - 1) <= 2 ^ 61) by (split; apply Z.pow_le_mono_r; lia). change (2 ^ 2) with 4 in Hr.
  unfold P, round_prec. unfold BF_PREC_INF, BF_PREC_MAX, LIMB_BITS in *. change (2 ^ (64 - 2) - 2 + 1) with (2 ^ 62 - 1) in *.
  destruct (negb (Z.land flags BF_FLAG_RADPNT_PREC =? 0)).
  { destruct (Z.eqb_spec prec1 (2 ^ 62 - 1)); cbn [negb]; [subst; split_and!; [lia..|done]|]. rewrite i64_id by lia. split_and!; [lia..|done]. }
  destruct (Z.ltb_spec e e_min); cbn [andb]; [|split_and!; [lia..|done]]. destruct (Z.eqb_spec (Z.land flags BF_FLAG_SUBNORMAL) 0) as [E|E]; cbn [negb]; [split_and!; [lia..|done]|].
  specialize (Hsub E). destruct (Z.eqb_spec prec1 (2 ^ 62 - 1)); [lia|]. cbn [negb c_assert mbind outcome_bind]. rewrite i64_id by lia. split_and!; [lia..|done].
Qed.
(** [r] holds, in its low [l] limbs, a number with its top bit set. *)
Record round_pre (r : bf_t) (l : Z) : Prop := mkPre {
  rp_limbs : Forall limb (tab r);
  rp_len : 0 < l <= zlen (tab r) /\ l < 2 ^ 55;
  rp_sign : sign r = 0 \/ sign r = 1;
  rp_top : 2 ^ (64 * l - 1) <= lval (take (Z.to_nat l) (tab r));
}.

(** A number of precision zero or less: one, or zero. *)
Lemma wp_round_tiny r l P up : round_pre r l -> - 2 ^ 63 <= expn r + 1 - P < 2 ^ 63 ->
  wp (if up : bool then let '(_, r) := bf_resize r 1 in t ← wr (tab r) 0 (Z.shiftl 1 (LIMB_BITS - 1)); Ret (Z.lor BF_ST_UNDERFLOW BF_ST_INEXACT, mkBf (sign r) (i64 (expn r + 1 - P)) t)
      else Ret (Z.lor BF_ST_UNDERFLOW BF_ST_INEXACT, bf_set_zero r (sign r)))
    (fun '(ret, r') => ret = Z.lor BF_ST_UNDERFLOW BF_ST_INEXACT /\ bf_repr r' (if b2z up =? 0 then V_zero (sign r) else V_fin (sign r) (b2z up) (expn r - P))).
Proof.
  intros [Ht Hl Hsg Hm] He. destruct up; [|apply wp_ret; split; [done|apply repr_zero]].
  assert (Er : exists x, (bf_resize r 1).2 = mkBf (sign r) (expn r) [x]).
  { destruct r as [sg e0 [|x t]]; [unfold zlen in Hl; cbn in Hl; lia|]. unfold bf_resize. cbn [tab sign expn]. exists x. destruct (Z.eqb_spec 1 (zlen (x :: t))) as [E|E].
    - rewrite zlen_cons in E. destruct t; [done|]. rewrite zlen_cons in E. pose proof (zlen_nonneg t). lia.
    - rewrite bf_realloc_shrinks by (cbn [tab] in Hl; lia). done. }
  destruct Er as [x Er]. destruct (bf_resize r 1) as [ok r1]. cbn in Er. subst r1. cbn [tab sign expn]. apply wp_bind, wp_wr; [unfold zlen; cbn; lia|]. apply wp_ret. split; [done|].
  rewrite i64_id by done. cbn [b2z Z.eqb bf_repr sign tab expn]. change (<[Z.to_nat 0:=_]> [x]) with [2 ^ 63]. split_and!; [done| |].
  - split_and!; [|done|by exists (2 ^ 63), []]. by repeat constructor.
  - change (lval [2 ^ 63]) with (2 ^ 63). change (zlen [2 ^ 63]) with 1. apply (dy_eq_scale _ _ _ _ 0 63); lia.
Qed.

(** What [round_truncate] leaves represents [q * 2^(e2)]. *)
Lemma repr_truncated r' l sg e q e2 a b : sign r' = sg -> expn r' = e -> bf_normal (tab r') -> 0 <= b ->
  (exists j, 0 <= j /\ j + zlen (tab r') = l /\ lval (tab r') * 2 ^ (64 * j) = a) -> a = q * 2 ^ b -> e - 64 * l = e2 - b -> bf_repr r' (V_fin sg q e2).
Proof. intros <- <- Hn Hb (j & Hj & Hl & E) -> He. split_and!; [done..|]. apply (dy_eq_scale _ _ _ _ (64 * j) b); [lia|done|done|lia]. Qed.

Lemma wp_bf_round_internal r prec1 flags l : round_pre r l -> round_args flags prec1 (expn r) ->
  wp (bf_round_internal r prec1 flags l 0)
     (round_post flags prec1 (sign r) (round_spec flags prec1 (sign r) (expn r) (lval (take (Z.to_nat l) (tab r))) (64 * l))).
Proof.
  intros Hpre Hargs. pose proof (round_prec_bounds flags prec1 (expn r) _ Hargs eq_refl) as (HP & Htiny & EP). pose proof Hpre as [Ht [Hl Hl64] Hsg Hm]. pose proof Hargs as [Hmode Hbits Hp1 _ He Hz0].
  unfold bf_round_internal, round_spec. rewrite (Z.shiftl_mul_pow2 1 (bf_get_exp_bits flags - 1)), Z.mul_1_l by lia. set (er := 2 ^ (bf_get_exp_bits flags - 1)) in *. rewrite EP. cbn [mbind outcome_bind].
  set (P := round_prec flags prec1 (expn r) (- er + 3)) in *. set (m := lval (take (Z.to_nat l) (tab r))) in *. set (mode := Z.land flags BF_RND_MASK) in *. assert (Hov : 1 <= prec1 \/ expn r + 1 <= er) by lia.
  pose proof (m_nonneg r l Ht Hl) as Hmn. fold m in Hmn. destruct (Z.leb_spec (64 * l - P) 0) as [Hs|Hs].
  - (* every bit is kept *)
    rewrite (get_rnd_add_exact r l P) by done. cbn [mbind outcome_bind]. rewrite (proj2 (Z.leb_gt P 0)) by lia. rewrite (proj2 (Z.ltb_ge 0 (64 * l - P))) by lia. cbn [andb]. change (Z.lor 0 BF_ST_INEXACT) with BF_ST_INEXACT.
    apply wp_round_finish; try done; try lia. intros r' Hsr Her Hn Hj. apply (repr_truncated r' l _ _ _ _ _ 0 Hsr Her Hn ltac:(lia) Hj); [|lia].
    fold m. rewrite Z.max_l by lia. by rewrite Z.pow_0_r, Z.div_1_r.
  - rewrite (get_rnd_add_spec r l P) by done. cbn [mbind outcome_bind]. fold m. change (Z.lor 0 BF_ST_INEXACT) with BF_ST_INEXACT. destruct (Z.leb_spec P 0) as [HP0|HP0].
    + (* no bit is kept *)
      assert (Eq0 : m / 2 ^ (64 * l - P) = 0) by (apply Z.div_small; assert (2 ^ (64 * l) <= 2 ^ (64 * l - P)) by (apply Z.pow_le_mono_r; lia); lia). rewrite Eq0, Z.add_0_l.
      assert (Eret : Z.lor (if rnd_inexact mode m (64 * l - P) then BF_ST_INEXACT else 0) (Z.lor BF_ST_UNDERFLOW BF_ST_INEXACT) = Z.lor BF_ST_UNDERFLOW BF_ST_INEXACT) by (by destruct (rnd_inexact mode m (64 * l - P))).
      rewrite Eret. eapply wp_mono; [apply (wp_round_tiny r l P _ Hpre); lia|]. intros [ret r'] [-> Hr]. by left.
    + rewrite (proj2 (Z.ltb_lt 0 (64 * l - P))) by lia. cbn [andb]. rewrite Z.shiftl_mul_pow2, Z.mul_1_l by (rewrite land_bit_index; apply Z.mod_pos_bound; lia). rewrite shiftr_6, land_bit_index. unfold LIMB_BITS. rewrite i64_id by lia. replace (l * 64 - 1 - (P - 1)) with (64 * l - P) by lia.
      assert (H2 : 2 ^ (64 * l) = 2 ^ P * 2 ^ (64 * l - P)) by (rewrite <- Z.pow_add_r by lia; f_equal; lia).
      destruct (rnd_up mode (sign r) m (64 * l - P)); cbn [b2z].
      * apply wp_bind. eapply wp_mono; [apply (wp_round_add (tab r) l P (expn r)); try done; lia|]. intros [t' e'] (Hlt & Ht' & Hm' & Hcase). fold m in Hcase.
        set (r1 := mkBf (sign r) e' t'). assert (Hl' : 0 < l <= zlen (tab r1)) by (unfold zlen in *; cbn; lia). destruct Hcase as [(-> & Eq & Hlt2)|(-> & Eq & Heq2)].
        -- rewrite (proj2 (Z.eqb_neq _ (2 ^ P))) by lia. change (sign r) with (sign r1). change (expn r) with (expn r1). apply wp_round_finish; try done; try (cbn; lia).
           intros r' Hsr Her Hn Hj. apply (repr_truncated r' l _ _ _ _ _ (64 * l - P) Hsr Her Hn ltac:(lia) Hj); [|lia]. rewrite Z.max_r by lia. cbn [tab r1]. by rewrite Eq.
        -- rewrite Heq2, Z.eqb_refl. change (sign r) with (sign r1). change (expn r + 1) with (expn r1). apply wp_round_finish; try done; try (cbn; lia).
           intros r' Hsr Her Hn Hj. apply (repr_truncated r' l _ _ _ _ _ (64 * l - P - 1) Hsr Her Hn ltac:(lia) Hj); [|cbn; lia]. rewrite Z.max_r by lia. cbn [tab r1]. rewrite Eq, <- !Z.pow_add_r by lia. f_equal. lia.
      * rewrite Z.add_0_r. assert (m / 2 ^ (64 * l - P) < 2 ^ P) by (apply Z.div_lt_upper_bound; [apply Z.pow_pos_nonneg|]; lia). rewrite (proj2 (Z.eqb_neq _ (2 ^ P))) by lia.
        apply wp_round_finish; try done; try lia.
        intros r' Hsr Her Hn Hj. apply (repr_truncated r' l _ _ _ _ _ (64 * l - P) Hsr Her Hn ltac:(lia) Hj); [|lia]. rewrite Z.max_r by lia. done.
Qed.
End Spec.
