(* ===== verification/BfMul.v ===== *)
(** * Arbitrary precision: normalization and multiplication ([libbf.c])

    [bf_normalize_and_round] brings any non-zero number of limbs to the form
    that [__bf_round] expects; [bf_mul] multiplies the limbs and normalizes.
    What they return is the rounding of the exact value, which is a function of
    the value alone: [round_value]. *)

From S2P Require Import Prelude Cutils BfLimbs BfRound.

(** [bf_mul_2exp(r, e, prec, flags)] *)
Definition BF_EXT_EXP_BITS_MAX : Z := BF_EXP_BITS_MAX + 1.

Definition bf_mul_2exp `{BfAllocator} (r : bf_t) (e prec flags : Z) : outcome (Z * bf_t) :=
  if zlen (tab r) =? 0 then Ret (0, r)
  else
    let e_max := Z.shiftl 1 BF_EXT_EXP_BITS_MAX - 1 in
    let e := Z.min (Z.max e (- e_max)) e_max in
    bf_round_internal (mkBf (sign r) (i64 (expn r + e)) (tab r)) prec flags (zlen (tab r)) 0.

(** ** Values up to the scale of the mantissa *)

Lemma dy_eq_elim m1 e1 m2 e2 : dy_eq m1 e1 m2 e2 -> exists a b, 0 <= a /\ 0 <= b /\ m1 * 2 ^ a = m2 * 2 ^ b /\ e1 - a = e2 - b.
Proof. intros E. exists (e1 - Z.min e1 e2), (e2 - Z.min e1 e2). split_and!; [lia..|exact E|lia]. Qed.

Definition bf_veq (v w : bf_val) : Prop :=
  match v, w with
  | V_nan, V_nan => True
  | V_zero s, V_zero s' | V_inf s, V_inf s' => s = s'
  | V_fin s m e, V_fin s' m' e' => s = s' /\ dy_eq m e m' e'
  | _, _ => False
  end.

#[export] Instance bf_veq_refl : Reflexive bf_veq.
Proof. by intros []. Qed.
#[export] Instance bf_veq_sym : Symmetric bf_veq.
Proof.
  intros [] []; cbn; try done. intros [-> E]. split; [done|]. apply dy_eq_elim in E as (a & b & Ha & Hb & E & He). by apply (dy_eq_scale _ _ _ _ b a).
Qed.

Lemma dy_eq_trans m1 e1 m2 e2 m3 e3 : dy_eq m1 e1 m2 e2 -> dy_eq m2 e2 m3 e3 -> dy_eq m1 e1 m3 e3.
Proof.
  intros (a & b & Ha & Hb & E & He)%dy_eq_elim (c & d & Hc & Hd & F & Hf)%dy_eq_elim. apply (dy_eq_scale _ _ _ _ (a + c) (b + d)); [lia..| |lia].
  rewrite !Z.pow_add_r by lia. rewrite Z.mul_assoc, E, (Z.mul_comm (2 ^ b)), Z.mul_assoc, <- F. ring.
Qed.
#[export] Instance bf_veq_trans : Transitive bf_veq.
Proof. intros [] [] []; cbn; try done; [congruence..|]. intros [-> E] [-> F]. split; [done|]. by eapply dy_eq_trans. Qed.

#[export] Instance bf_repr_proper : Proper (eq ==> bf_veq ==> iff) bf_repr.
Proof.
  intros r _ <-. enough (Himp : forall v w, bf_veq v w -> bf_repr r v -> bf_repr r w) by (intros v w E; split; apply Himp; [done|by symmetry]).
  intros [] []; cbn; try done; [by intros ->..|]. intros [-> E] (Hs & Hn & F). split_and!; [done..|]. by eapply dy_eq_trans.
Qed.

(** ** The rounding of a value *)

(** [round_value flags prec sg m x]: the rounding of [m * 2^x]. *)
Definition round_value (flags prec1 sg m x : Z) : Z * bf_val :=
  let n := Z.log2 m + 1 in round_spec flags prec1 sg (x + n) m n.

Lemma div_scale m s k : 0 <= s -> 0 <= k -> m * 2 ^ k / 2 ^ (s + k) = m / 2 ^ s.
Proof. intros Hs Hk. rewrite Z.pow_add_r by lia. apply Z.div_mul_cancel_r; apply Z.pow_nonzero; lia. Qed.
Lemma mod_scale m s k : 0 <= s -> 0 <= k -> (m * 2 ^ k) mod 2 ^ (s + k) = m mod 2 ^ s * 2 ^ k.
Proof. intros Hs Hk. rewrite Z.pow_add_r by lia. apply Z.mul_mod_distr_r; apply Z.pow_nonzero; lia. Qed.

Lemma rnd_inexact_scale mode m s k : 0 <= s -> 0 <= k -> rnd_inexact mode (m * 2 ^ k) (s + k) = rnd_inexact mode m s.
Proof.
  intros Hs Hk. unfold rnd_inexact. rewrite mod_scale by done. assert (0 < 2 ^ k) by (apply Z.pow_pos_nonneg; lia). do 2 f_equal.
  destruct (Z.eqb_spec (m mod 2 ^ s) 0) as [->|]; [done|]. apply Z.eqb_neq. nia.
Qed.

Lemma rnd_up_scale mode sg m s k : 0 < s -> 0 <= k -> rnd_up mode sg (m * 2 ^ k) (s + k) = rnd_up mode sg m s.
Proof.
  intros Hs Hk. unfold rnd_up. rewrite mod_scale, div_scale by lia. replace (s + k - 1) with (s - 1 + k) by lia. rewrite Z.pow_add_r by lia.
  assert (H2 : 0 < 2 ^ k) by (apply Z.pow_pos_nonneg; lia). set (r := m mod 2 ^ s). set (h := 2 ^ (s - 1)). clearbody r h.
  assert (E0 : (r * 2 ^ k =? 0) = (r =? 0)) by (destruct (Z.eqb_spec r 0) as [->|]; [done|apply Z.eqb_neq; nia]).
  assert (E1 : (h * 2 ^ k <? r * 2 ^ k) = (h <? r)) by (destruct (Z.ltb_spec h r); [apply Z.ltb_lt|apply Z.ltb_ge]; nia).
  assert (E2 : (r * 2 ^ k =? h * 2 ^ k) = (r =? h)) by (destruct (Z.eqb_spec r h) as [->|]; [apply Z.eqb_refl|apply Z.eqb_neq; nia]).
  assert (E3 : (h * 2 ^ k <=? r * 2 ^ k) = (h <=? r)) by (destruct (Z.leb_spec h r); [apply Z.leb_le|apply Z.leb_gt]; nia). by rewrite E0, E1, E2, E3.
Qed.

(** Nothing is cut from a multiple. *)
Lemma rnd_exact mode sg m s k : 0 <= m -> 0 < s <= k ->
  m * 2 ^ k / 2 ^ s = m * 2 ^ (k - s) /\ rnd_up mode sg (m * 2 ^ k) s = false /\ rnd_inexact mode (m * 2 ^ k) s = (mode =? BF_RNDF).
Proof.
  intros Hm Hs. assert (E : m * 2 ^ k = m * 2 ^ (k - s) * 2 ^ s) by (rewrite <- Z.mul_assoc, <- Z.pow_add_r by lia; do 2 f_equal; lia).
  assert (Emod : (m * 2 ^ k) mod 2 ^ s = 0) by (rewrite E; apply Z.mod_mul, Z.pow_nonzero; lia). assert (0 < 2 ^ (s - 1)) by (apply Z.pow_pos_nonneg; lia).
  split_and!; [rewrite E; apply Z.div_mul, Z.pow_nonzero; lia| |unfold rnd_inexact; rewrite Emod; apply orb_false_r].
  unfold rnd_up. rewrite Emod. change (0 =? 0) with true. cbn [negb andb]. rewrite (proj2 (Z.ltb_ge _ 0)), (proj2 (Z.leb_gt _ 0)), (proj2 (Z.eqb_neq 0 _)) by lia.
  cbn [orb andb]. by repeat case_match.
Qed.

(** Whether bits are cut or the mantissa is scaled, the rounding is the same. *)
Lemma round_spec_scale flags prec1 sg e m n k : 0 <= k -> 0 < n -> 0 <= m < 2 ^ n ->
  let a := round_spec flags prec1 sg e (m * 2 ^ k) (n + k) in let b := round_spec flags prec1 sg e m n in a.1 = b.1 /\ bf_veq a.2 b.2.
Proof.
  intros Hk Hn Hm. unfold round_spec. set (er := 2 ^ (bf_get_exp_bits flags - 1)). set (P := round_prec flags prec1 e (- er + 3)). set (mode := Z.land flags BF_RND_MASK). cbv zeta.
  destruct (Z.leb_spec (n - P) 0) as [Hs|Hs].
  - rewrite (proj2 (Z.ltb_ge 0 (n - P))) by lia. cbn [andb]. destruct (Z.leb_spec (n + k - P) 0) as [Hs'|Hs'].
    + rewrite (proj2 (Z.ltb_ge 0 (n + k - P))) by lia. cbn [andb]. rewrite (proj2 (Z.leb_gt P 0)) by lia.
      repeat case_match; split; try done; (split; [done|]); apply (dy_eq_scale _ _ _ _ 0 k); lia.
    + rewrite (proj2 (Z.ltb_lt 0 (n + k - P))) by lia. cbn [andb]. destruct (rnd_exact mode sg m (n + k - P) k ltac:(lia) ltac:(lia)) as (Eq & Eu & Ei). rewrite Eq, Eu, Ei. cbn [b2z]. rewrite Z.add_0_r.
      replace (k - (n + k - P)) with (P - n) by lia. rewrite (proj2 (Z.leb_gt P 0)) by lia.
      assert (m * 2 ^ (P - n) < 2 ^ P) by (replace P with (n + (P - n)) at 2 by lia; rewrite Z.pow_add_r by lia; apply Z.mul_lt_mono_pos_r; [apply Z.pow_pos_nonneg|]; lia).
      rewrite (proj2 (Z.eqb_neq _ (2 ^ P))) by lia. repeat case_match; split; try done; (split; [done|]); apply (dy_eq_scale _ _ _ _ 0 (P - n)); lia.
  - rewrite (proj2 (Z.leb_gt (n + k - P) 0)), !(proj2 (Z.ltb_lt 0 _)) by lia. cbn [andb]. replace (n + k - P) with (n - P + k) by lia.
    rewrite rnd_up_scale, rnd_inexact_scale, div_scale by lia. done.
Qed.

(** ** Normalization *)

Lemma wp_trim_len t n : (n <= length t)%nat ->
  wp (trim_len t n) (fun l => (l <= n)%nat /\ lval (take n t) = lval (take l t) /\ (l = O \/ exists v, t !! (l - 1)%nat = Some v /\ v <> 0)).
Proof.
  induction n as [|n IH]; intros Hn; cbn [trim_len]; [apply wp_ret; split_and!; [lia|done|by left]|]. apply wp_bind, wp_rd; [unfold zlen; lia|]. rewrite Nat2Z.id. intros v Ev.
  destruct (Z.eqb_spec v 0) as [->|Hne].
  - eapply wp_mono; [apply IH; lia|]. intros l (Hl & E & Hv). rewrite (lval_take_S _ _ _ Ev). split_and!; [lia|lia|done].
  - apply wp_ret. split_and!; [lia|done|]. right. exists v. by rewrite Nat.sub_succ, Nat.sub_0_r.
Qed.

Lemma shl_step a v s : limb a -> limb v -> 1 <= s < 64 ->
  limb (Z.lor (u64 (Z.shiftl a s)) (Z.shiftr v (64 - s))) /\ Z.lor (u64 (Z.shiftl a s)) (Z.shiftr v (64 - s)) + B * (a / 2 ^ (64 - s)) = a * 2 ^ s + v / 2 ^ (64 - s).
Proof.
  intros Ha Hv Hs. assert (EB : B = 2 ^ (64 - s) * 2 ^ s) by (rewrite <- Z.pow_add_r, B_64 by lia; f_equal; lia). assert (0 < 2 ^ s) by (apply Z.pow_pos_nonneg; lia). assert (0 < 2 ^ (64 - s)) by (apply Z.pow_pos_nonneg; lia).
  rewrite u64_mod, Z.shiftl_mul_pow2, Z.shiftr_div_pow2 by lia. rewrite EB at 1. rewrite Z.mul_mod_distr_r by lia.
  pose proof (Z.mod_pos_bound a (2 ^ (64 - s)) ltac:(lia)) as Hm. pose proof (Z.div_mod a (2 ^ (64 - s)) ltac:(lia)) as Ed.
  assert (Hq : 0 <= v / 2 ^ (64 - s) < 2 ^ s) by (unfold limb in Hv; split; [apply Z.div_pos; lia|apply Z.div_lt_upper_bound; lia]).
  rewrite EB at 1. rewrite Z.mul_mod_distr_r by lia. rewrite lor_disjoint by lia. unfold limb in *. split; [rewrite EB; nia|]. rewrite Ed at 3. rewrite EB. ring.
Qed.

Lemma shift_left_spec : forall t s v, Forall limb t -> limb v -> 1 <= s < 64 ->
  limbs_of (length t) (shift_left t s v) /\ lval (shift_left t s v) + B ^ Z.of_nat (length t) * (List.last t v / 2 ^ (64 - s)) = lval t * 2 ^ s + v / 2 ^ (64 - s).
Proof.
  induction t as [|a t IH]; intros s v Ht Hv Hs; [split; [apply limbs_nil|]; cbn [shift_left List.last length]; rewrite lval_nil, Z.pow_0_r; lia|].
  apply Forall_cons in Ht as [Ha Ht]. destruct (IH s a Ht Ha Hs) as [Hl E]. destruct (shl_step a v s Ha Hv Hs) as [Hx Ex]. cbn [shift_left length]. unfold LIMB_BITS.
  split; [by apply limbs_cons|]. rewrite !lval_cons, Bpow_S. assert (El : List.last (a :: t) v = List.last t a) by (clear; destruct t as [|b t]; [done|]; cbn; clear; revert b; induction t as [|c t IH]; intros b; [done|exact (IH c)]).
  rewrite El. nia.
Qed.

(** The bits of a number whose top limb is [x]. *)
Lemma log2_lval t x : Forall limb t -> limb x -> 0 < x -> Z.log2 (lval (t ++ [x])) = 64 * zlen t + Z.log2 x.
Proof.
  intros Ht Hx Hp. pose proof (lval_bounds t Ht) as Hb. rewrite lval_app, lval_cons, lval_nil, Z.mul_0_r, Z.add_0_r. rewrite Bpow_2 in *. unfold zlen. pose proof (Z.log2_spec x Hp) as [Hl Hu].
  apply Z.log2_unique; [pose proof (Z.log2_nonneg x); lia|]. pose proof (Z.log2_nonneg x). replace (Z.succ (64 * Z.of_nat (length t) + Z.log2 x)) with (64 * Z.of_nat (length t) + Z.succ (Z.log2 x)) by lia.
  rewrite !Z.pow_add_r by lia. assert (0 < 2 ^ (64 * Z.of_nat (length t))) by (apply Z.pow_pos_nonneg; lia). nia.
Qed.

Section Mul.
Context `{BfAllocator}.

(** [round_post] of a value. *)
Lemma round_post_veq flags prec1 sg a b res : a.1 = b.1 -> bf_veq a.2 b.2 -> round_post flags prec1 sg a res -> round_post flags prec1 sg b res.
Proof. destruct res as [ret r']. intros E1 E2 [[-> Hr]|(-> & Ho & Hinf & Hno & Hr)]; [left|right]; [by rewrite <- E2|]. split_and!; try done. by rewrite <- E1. Qed.

Lemma wp_bf_normalize_and_round r prec1 flags : Forall limb (tab r) -> 0 < lval (tab r) -> zlen (tab r) < 2 ^ 55 -> sign r = 0 \/ sign r = 1 -> expn r <= 2 ^ 62 - 8 ->
  let x := expn r - 64 * zlen (tab r) in round_args flags prec1 (x + (Z.log2 (lval (tab r)) + 1)) ->
  wp (bf_normalize_and_round r prec1 flags) (round_post flags prec1 (sign r) (round_value flags prec1 (sign r) (lval (tab r)) x)).
Proof.
  intros Ht Hnz Hlen Hsg Hexp x Hargs. unfold bf_normalize_and_round. apply wp_bind. eapply wp_mono; [apply wp_trim_len; lia|]. intros l (Hl & El & Hv). rewrite firstn_all in El.
  destruct (decide (l = O)) as [->|Hl0]; [rewrite El, take_0, lval_nil in Hnz; lia|]. destruct Hv as [->|(v & Ev & Hv)]; [lia|]. rewrite (proj2 (Z.eqb_neq _ 0)) by lia.
  set (m := lval (tab r)) in *. set (s := take (l - 1) (tab r)). assert (Hlv : limb v) by (apply (Forall_lookup_1 _ _ _ _ Ht Ev)). assert (Hs : Forall limb s) by (by apply Forall_take).
  assert (Es : take l (tab r) = s ++ [v]) by (replace l with (S (l - 1)) by lia; by apply take_S_r). assert (Hls : length s = (l - 1)%nat) by (unfold s; rewrite length_take; lia).
  assert (Hlog : Z.log2 m = 64 * (Z.of_nat l - 1) + Z.log2 v) by (rewrite El, Es, log2_lval by (try done; unfold limb in Hlv; lia); unfold zlen; lia).
  assert (Hvlog : 0 <= Z.log2 v < 64) by (split; [apply Z.log2_nonneg|]; unfold limb in Hlv; rewrite B_64 in Hlv; apply Z.log2_lt_pow2; lia).
  set (n := Z.log2 m + 1) in *. set (sh := 64 * Z.of_nat l - n). assert (Esh : clz v = sh).
  { unfold clz. rewrite (proj2 (Z.eqb_neq v 0)) by done. unfold Bits.clz64, Bits.builtin_clz, sh. lia. }
  assert (Hzl : Z.of_nat l <= zlen (tab r)) by (unfold zlen; lia). pose proof Hargs as [_ _ _ _ He _].
  apply wp_bind, wp_rd; [lia|]. replace (Z.to_nat (Z.of_nat l - 1)) with (l - 1)%nat by lia. rewrite Ev. intros v' [= <-]. rewrite Esh. unfold LIMB_BITS. rewrite (i64_id (expn r - _)) by lia.
  assert (Hm : 2 ^ (n - 1) <= m < 2 ^ n) by (pose proof (Z.log2_spec m Hnz); unfold n; replace (Z.log2 m + 1 - 1) with (Z.log2 m) by lia; by replace (Z.log2 m + 1) with (Z.succ (Z.log2 m)) by lia).
  assert (Hfin : forall t, Forall limb t -> length t = length (tab r) -> lval (take l t) = m * 2 ^ sh ->
    wp (bf_round_internal (mkBf (sign r) (x + n) t) prec1 flags (Z.of_nat l) 0) (round_post flags prec1 (sign r) (round_value flags prec1 (sign r) m x))).
  { intros t Ht' Hlt Em. eapply wp_mono.
    - apply (wp_bf_round_internal (mkBf (sign r) (x + n) t)); [|done]. constructor; cbn [tab sign]; [done|unfold zlen in *; lia|done|]. rewrite Nat2Z.id, Em.
      replace (64 * Z.of_nat l - 1) with (n - 1 + sh) by lia. rewrite Z.pow_add_r by lia. apply Z.mul_le_mono_nonneg_r; [apply Z.pow_nonneg; lia|lia].
    - intros res. cbn [tab sign expn]. rewrite Nat2Z.id, Em. unfold round_value. fold n. replace (64 * Z.of_nat l) with (n + sh) by lia.
      destruct (round_spec_scale flags prec1 (sign r) (x + n) m n sh) as [E1 E2]; [lia..|]. by apply round_post_veq. }
  destruct (Z.eqb_spec sh 0) as [Es0|Hsh]; cbn [negb mbind outcome_bind].
  - replace (expn r - (zlen (tab r) - Z.of_nat l) * 64) with (x + n) by lia. apply Hfin; [done..|]. rewrite Es0, Z.pow_0_r. lia.
  - assert (Hslen : length (take l (tab r)) = l) by (rewrite length_take; lia). pose proof (shift_left_spec (take l (tab r)) sh 0 ltac:(by apply Forall_take) ltac:(done) ltac:(lia)) as [[Hl' Hf'] Ev'].
    rewrite Hslen in Hl', Ev'. rewrite rd_range_ok by (unfold zlen; lia). cbn [mbind outcome_bind]. rewrite drop_0, Nat2Z.id. rewrite wr_range_ok by (unfold zlen in *; lia).
    cbn [mbind outcome_bind]. rewrite take_0, app_nil_l, i64_id by lia. replace (expn r - (zlen (tab r) - Z.of_nat l) * 64 - sh) with (x + n) by lia. apply Hfin.
    + apply Forall_app. split; [done|by apply Forall_drop].
    + rewrite length_app, length_drop, Hl'. unfold zlen in *. lia.
    + rewrite take_app_le by lia. rewrite take_ge by lia. rewrite Es, List.last_last, <- Es in Ev'. rewrite El. rewrite (Z.div_small v), (Z.div_small 0) in Ev'; [lia| |].
      * split; [lia|]. apply Z.pow_pos_nonneg; lia.
      * unfold limb in Hlv. pose proof (Z.log2_spec v ltac:(lia)). replace (64 - sh) with (Z.succ (Z.log2 v)) by lia. lia.
Qed.

(** A normalized number needs no normalization. *)
Lemma normal_pos t : bf_normal t -> 0 < zlen t /\ 2 ^ (64 * zlen t - 1) <= lval t < 2 ^ (64 * zlen t).
Proof.
  intros (Ht & Hm & x & t' & E & _). pose proof (lval_bounds t Ht) as Hb. rewrite Bpow_2 in Hb. assert (0 < zlen t) by (rewrite E, zlen_cons; pose proof (zlen_nonneg t'); lia).
  split_and!; [done|done|]. apply Hb.
Qed.

Lemma wp_round_normal r prec1 flags : bf_normal (tab r) -> zlen (tab r) < 2 ^ 55 -> sign r = 0 \/ sign r = 1 -> round_args flags prec1 (expn r) ->
  wp (bf_round_internal r prec1 flags (zlen (tab r)) 0) (round_post flags prec1 (sign r) (round_value flags prec1 (sign r) (lval (tab r)) (expn r - 64 * zlen (tab r)))).
Proof.
  intros Hn Hlen Hsg Hargs. destruct (normal_pos _ Hn) as [Hz Hb]. unfold round_value.
  assert (Hlog : Z.log2 (lval (tab r)) = 64 * zlen (tab r) - 1) by (apply Z.log2_unique; [lia|]; by replace (Z.succ (64 * zlen (tab r) - 1)) with (64 * zlen (tab r)) by lia).
  assert (Et : take (Z.to_nat (zlen (tab r))) (tab r) = tab r) by (apply take_ge; unfold zlen; lia).
  rewrite Hlog. replace (64 * zlen (tab r) - 1 + 1) with (64 * zlen (tab r)) by lia. rewrite Z.sub_add. rewrite <- Et at 2. apply wp_bf_round_internal; [|done].
  constructor; [apply Hn|lia|done|]. rewrite Et. apply Hb.
Qed.

(** ** Well-formed numbers and their values *)

Record bf_wf (a : bf_t) : Prop := mkWf {
  wf_sign : sign a = 0 \/ sign a = 1;
  wf_form : (tab a = [] /\ (expn a = BF_EXP_NAN \/ expn a = BF_EXP_INF \/ expn a = BF_EXP_ZERO)) \/
            (bf_normal (tab a) /\ - 2 ^ 61 < expn a <= 2 ^ 61 - 4 /\ zlen (tab a) < 2 ^ 54);
}.

Definition bf_value (a : bf_t) : bf_val :=
  match tab a with
  | [] => if expn a =? BF_EXP_NAN then V_nan else if expn a =? BF_EXP_INF then V_inf (sign a) else V_zero (sign a)
  | _ => V_fin (sign a) (lval (tab a)) (expn a - 64 * zlen (tab a))
  end.

(** The product of two values, rounded. *)
Definition mul_value (flags prec : Z) (v w : bf_val) : Z * bf_val :=
  match v, w with
  | V_nan, _ | _, V_nan => (0, V_nan)
  | V_inf _, V_zero _ | V_zero _, V_inf _ => (BF_ST_INVALID_OP, V_nan)
  | V_inf s, (V_inf t | V_fin t _ _) | V_fin s _ _, V_inf t => (0, V_inf (Z.lxor s t))
  | V_zero s, (V_zero t | V_fin t _ _) | V_fin s _ _, V_zero t => (0, V_zero (Z.lxor s t))
  | V_fin s m x, V_fin t m' x' => round_value flags prec (Z.lxor s t) (m * m') (x + x')
  end.

(** The arguments of an operation. *)
Record op_args (flags prec : Z) : Prop := mkOp {
  oa_mode : 0 <= Z.land flags BF_RND_MASK <= 6;
  oa_bits : 3 <= bf_get_exp_bits flags <= 62;
  oa_prec : 1 <= prec <= BF_PREC_INF;
  oa_sub : Z.land flags BF_FLAG_SUBNORMAL <> 0 -> prec <> BF_PREC_INF;
}.

Lemma op_args_round flags prec e : op_args flags prec -> - 2 ^ 62 <= e <= 2 ^ 62 - 8 -> round_args flags prec e.
Proof. intros [] He. constructor; try done; lia. Qed.

(** The result of an operation: the status and the value, or short memory. *)
Definition op_post (res : Z * bf_val) : Z * bf_t -> Prop := fun '(ret, r') =>
  (ret = res.1 /\ bf_repr r' res.2) \/ (ret = BF_ST_MEM_ERROR /\ no_memory /\ bf_repr r' V_nan).

Lemma round_op_post flags prec sg res out : round_post flags prec sg res out -> op_post res out.
Proof. destruct out. intros [?|(? & ? & ? & ? & ?)]; [by left|by right]. Qed.

Lemma mul_value_comm flags prec v w : mul_value flags prec v w = mul_value flags prec w v.
Proof. destruct v, w; cbn; try done; rewrite ?(Z.lxor_comm sg0 sg); try done. by rewrite (Z.mul_comm m), (Z.add_comm e). Qed.

Lemma lxor_sign s t : s = 0 \/ s = 1 -> t = 0 \/ t = 1 -> Z.lxor s t = 0 \/ Z.lxor s t = 1.
Proof. intros [->| ->] [->| ->]; cbn; auto. Qed.

Lemma bf_mul_swap r a b prec flags : zlen (tab a) < zlen (tab b) -> bf_mul r a b prec flags = bf_mul r b a prec flags.
Proof. intros Hlt. unfold bf_mul. by rewrite (proj2 (Z.ltb_lt _ _) Hlt), (proj2 (Z.ltb_ge (zlen (tab b)) _)) by lia. Qed.

(** One operand at least is not a finite number. *)
Lemma bf_mul_special r a b prec flags : bf_wf a -> bf_wf b -> tab b = [] ->
  exists res, bf_mul r a b prec flags = Ret (Some res) /\ op_post (mul_value flags prec (bf_value a) (bf_value b)) res.
Proof.
  intros [Hsa Ha] [Hsb Hb] Eb. unfold bf_mul. rewrite Eb. change (zlen []) with 0. rewrite (proj2 (Z.ltb_ge (zlen (tab a)) 0)) by apply zlen_nonneg. rewrite Eb. change (zlen [] =? 0) with true. cbn iota.
  eexists. split; [done|]. destruct Hb as [[_ Hb]|[(_ & _ & x & t' & E & _) _]]; [|congruence]. unfold bf_value. rewrite Eb.
  destruct Ha as [[-> [->|[->| ->]]]|[(_ & _ & x & t' & -> & _) [He _]]]; destruct Hb as [->|[->| ->]]; cbn -[Z.pow];
    rewrite ?(proj2 (Z.eqb_neq (expn a) _)) by (unfold BF_EXP_NAN, BF_EXP_INF, BF_EXP_ZERO, BF_RAW_EXP_MAX, BF_RAW_EXP_MIN; lia); cbn -[Z.pow];
    left; split; try done; first [apply repr_nan | apply repr_inf | apply repr_zero].
Qed.

(** The product of two normalized numbers has all its bits but one or two. *)
Lemma log2_product t u : bf_normal t -> bf_normal u -> let n := 64 * (zlen t + zlen u) in 0 < lval t * lval u /\ n - 2 <= Z.log2 (lval t * lval u) < n.
Proof.
  intros [Hz Ht]%normal_pos [Hz' Hu]%normal_pos n. assert (0 < 2 ^ (64 * zlen t - 1)) by (apply Z.pow_pos_nonneg; lia). assert (0 < 2 ^ (64 * zlen u - 1)) by (apply Z.pow_pos_nonneg; lia).
  assert (Hp : 0 < lval t * lval u) by nia. split_and!; [done| |].
  - apply Z.log2_le_pow2; [done|]. replace (n - 2) with ((64 * zlen t - 1) + (64 * zlen u - 1)) by lia. rewrite Z.pow_add_r by lia. nia.
  - apply Z.log2_lt_pow2; [done|]. replace n with (64 * zlen t + 64 * zlen u) by lia. rewrite Z.pow_add_r by lia. nia.
Qed.

Lemma bf_mul_finite r a b prec flags : op_args flags prec -> Z.land flags BF_RND_MASK <> BF_RNDF -> bf_wf a -> bf_wf b -> zlen (tab b) <= zlen (tab a) -> 0 < zlen (tab b) < FFT_MUL_THRESHOLD ->
  exists res, bf_mul r a b prec flags = Ret (Some res) /\ op_post (mul_value flags prec (bf_value a) (bf_value b)) res.
Proof.
  intros Hop Hmode [Hsa Ha] [Hsb Hb] Hle Hlb. destruct Ha as [[E _]|(Hna & Hea & Hla)]; [rewrite E in Hle; unfold zlen in *; cbn in Hle; lia|]. destruct Hb as [[E _]|(Hnb & Heb & Hlb')]; [rewrite E in Hlb; unfold zlen in Hlb; cbn in Hlb; lia|].
  destruct (log2_product _ _ Hna Hnb) as [Hpos Hlog]. pose proof (normal_pos _ Hna) as [Hza _].
  assert (Hv : mul_value flags prec (bf_value a) (bf_value b) = round_value flags prec (Z.lxor (sign a) (sign b)) (lval (tab a) * lval (tab b)) (expn a + expn b - 64 * (zlen (tab a) + zlen (tab b)))).
  { unfold bf_value. destruct Hna as (_ & _ & y & t' & Ea & _), Hnb as (_ & _ & z & u' & Eb & _). rewrite Ea, Eb. cbn [mul_value]. f_equal. lia. }
  rewrite Hv. unfold bf_mul. rewrite (proj2 (Z.ltb_ge (zlen (tab a)) _)) by lia. rewrite (proj2 (Z.eqb_neq (zlen (tab b)) 0)), (proj2 (Z.eqb_neq _ BF_RNDF)) by (done || lia). rewrite !Z.sub_diag.
  rewrite !rd_range_ok by (unfold zlen; lia). cbn [mbind outcome_bind]. rewrite !drop_0, !take_ge by (unfold zlen; lia). rewrite (proj2 (Z.leb_gt FFT_MUL_THRESHOLD _)) by lia.
  destruct (bf_resize r (zlen (tab a) + zlen (tab b))) as [ok r1] eqn:Er. destruct ok; cbn [negb].
  - apply resize_length in Er; [|lia]. pose proof (proj1 Hna) as Hfa. pose proof (proj1 Hnb) as Hfb.
    pose proof (wp_mp_mul_basecase (tab r1) (tab a) (tab b)) as Hmul. apply wp_elim in Hmul as (t & -> & [Hlt Hft] & Et); [|intros E0; rewrite E0 in Hlb; unfold zlen in Hlb; cbn in Hlb; lia|done..|unfold zlen in Er; lia].
    cbn [mbind outcome_bind]. assert (Hzt : zlen t = zlen (tab a) + zlen (tab b)) by (unfold zlen; lia). rewrite i64_id by lia.
    set (r2 := mkBf (Z.lxor (sign a) (sign b)) (expn a + expn b) t). pose proof (wp_bf_normalize_and_round r2 prec flags) as Hn.
    apply wp_elim in Hn as (res & -> & Hres); cbn [tab sign expn r2] in *; rewrite ?Et, ?Hzt in *; [|done|done|lia|by apply lxor_sign|lia|apply op_args_round; [done|lia]].
    exists res. split; [done|]. by apply round_op_post in Hres.
  - eexists. split; [done|]. right. split_and!; [done|by eapply resize_fails|apply repr_nan].
Qed.
End Mul.

(** ** Theorems *)

(** C10: [bf_mul], for every pair of well-formed numbers, every precision and
    every rounding mode but the faithful one, when the shorter operand has
    less than 100 limbs: the status and the number it returns are those of the
    product of the two values.  For finite values that is the exact product
    rounded once, in the mode and to the precision asked for, with the
    exponent range, the subnormal numbers and the overflow of the flags; NaN,
    infinities and signed zeros follow the IEEE rules.  The only other outcome
    is the memory error, with NaN, and only when a request is refused. *)
Theorem bf_mul_correct `{BfAllocator} r a b prec flags : op_args flags prec -> Z.land flags BF_RND_MASK <> BF_RNDF -> bf_wf a -> bf_wf b ->
  Z.min (zlen (tab a)) (zlen (tab b)) < FFT_MUL_THRESHOLD ->
  exists ret r', bf_mul r a b prec flags = Ret (Some (ret, r')) /\
    let '(st, v) := mul_value flags prec (bf_value a) (bf_value b) in
    (ret = st /\ bf_repr r' v) \/ (ret = BF_ST_MEM_ERROR /\ no_memory /\ bf_repr r' V_nan).
Proof.
  intros Hop Hmode Ha Hb Hmin. enough (Hex : exists res, bf_mul r a b prec flags = Ret (Some res) /\ op_post (mul_value flags prec (bf_value a) (bf_value b)) res).
  { destruct Hex as ([ret r'] & E & Hp). exists ret, r'. split; [done|]. by destruct (mul_value flags prec (bf_value a) (bf_value b)). }
  assert (Hord : forall a b, bf_wf a -> bf_wf b -> zlen (tab b) <= zlen (tab a) -> zlen (tab b) < FFT_MUL_THRESHOLD ->
    exists res, bf_mul r a b prec flags = Ret (Some res) /\ op_post (mul_value flags prec (bf_value a) (bf_value b)) res).
  { intros a0 b0 Ha0 Hb0 Hle Hlt. destruct (tab b0) as [|y t] eqn:E; [by apply bf_mul_special|]. apply bf_mul_finite; try done; rewrite E; [done|]. rewrite zlen_cons in *. pose proof (zlen_nonneg t). lia. }
  destruct (Z.lt_ge_cases (zlen (tab a)) (zlen (tab b))) as [Hlt|Hge].
  - rewrite bf_mul_swap, mul_value_comm by done. apply Hord; try done; lia.
  - apply Hord; try done; lia.
Qed.

(** The allocator of a machine with memory enough. *)
Definition sys_realloc (p : list Z) (n : Z) : option (list Z) := Some (take (Z.to_nat n) p ++ replicate (Z.to_nat n - length p) 0).

#[local] Program Instance sys_alloc : BfAllocator := {| bf_realloc := sys_realloc |}.
Next Obligation. intros p n q Hn [= <-]. unfold zlen. rewrite length_app, length_take, length_replicate. lia. Qed.
Next Obligation. intros p n q Hn [= <-]. unfold zlen in Hn. rewrite take_ge by lia. by apply prefix_app_r. Qed.
Next Obligation. intros p n Hn. unfold sys_realloc, zlen in *. replace (Z.to_nat n - length p)%nat with O by lia. by rewrite app_nil_r. Qed.

(** [3 * 5] to three bits: 15 lies between 14 and 16, and 16 is the even one. *)
Lemma bf_mul_correct_witness : let a := mkBf 0 2 [3 * 2 ^ 62] in let b := mkBf 1 3 [5 * 2 ^ 61] in
  mul_value 0 3 (bf_value a) (bf_value b) = (BF_ST_INEXACT, V_fin 1 (2 ^ 3) 1) /\
  exists r', bf_mul (mkBf 0 0 []) a b 3 0 = Ret (Some (BF_ST_INEXACT, r')) /\ bf_repr r' (V_fin 1 (2 ^ 3) 1).
Proof.
  intros a b. assert (Hn : forall x, 2 ^ 63 <= x < 2 ^ 64 -> bf_normal [x]).
  { intros x Hx. split_and!; [constructor; [unfold limb; rewrite B_64; lia|constructor]| |exists x, []; split; [done|lia]].
    rewrite lval_cons, lval_nil. change (64 * zlen [x] - 1) with 63. lia. }
  assert (Hm : mul_value 0 3 (bf_value a) (bf_value b) = (BF_ST_INEXACT, V_fin 1 (2 ^ 3) 1)) by (vm_compute; reflexivity). split; [exact Hm|].
  destruct (bf_mul_correct (mkBf 0 0 []) a b 3 0) as (ret & r' & E & Hr).
  - constructor; vm_compute; first [split; discriminate | by intros []].
  - discriminate.
  - constructor; [by left|right]. split; [apply Hn; vm_compute; split; [discriminate|reflexivity]|split; [split; vm_compute; [reflexivity|discriminate]|reflexivity]].
  - constructor; [by right|right]. split; [apply Hn; vm_compute; split; [discriminate|reflexivity]|split; [split; vm_compute; [reflexivity|discriminate]|reflexivity]].
  - reflexivity.
  - rewrite Hm in Hr. exists r'. destruct Hr as [[-> Hr]|(_ & (p & n & Hno) & _)]; [|discriminate Hno]. split; [exact E|exact Hr].
Defined.



(** [bf_round] is said never to fail for want of memory; rounding towards zero
    it does when an overflow needs more limbs than the number has. *)
#[local] Program Instance no_growth : BfAllocator := {| bf_realloc p n := if n <=? zlen p then Some (take (Z.to_nat n) p) else None |}.
Next Obligation. intros p n q Hn. cbn. destruct (Z.leb_spec n (zlen p)); intros [= <-]. unfold zlen in *. rewrite length_take. lia. Qed.
Next Obligation. intros p n q Hn. cbn. destruct (Z.leb_spec n (zlen p)); intros [= <-]. rewrite take_ge by (unfold zlen in *; lia). done. Qed.
Next Obligation. intros p n Hn. cbn. by rewrite (proj2 (Z.leb_le _ _)) by lia. Qed.

Example bf_round_memory_error : exists r', bf_round (mkBf 0 (2 ^ 60 + 1) [2 ^ 63]) 128 BF_RNDZ = Ret (BF_ST_MEM_ERROR, r') /\ expn r' = BF_EXP_NAN.
Proof. eexists. split; vm_compute; reflexivity. Qed.

(** With no digit after the radix point, the largest finite number has no limb
    either; its first limb is written all the same. *)
Example bf_round_precision_zero : exists f, bf_round (mkBf 0 (2 ^ 60 + 1) [2 ^ 63]) 0 (Z.lor BF_RNDZ BF_FLAG_RADPNT_PREC) = Fault f.
Proof. eexists. vm_compute. reflexivity. Qed.
