(* ===== verification/BfCmp.v ===== *)
(** * Arbitrary precision: comparison ([libbf.c])

    Limbs and bits of a number at any position, the comparison of absolute
    values ([bf_cmpu]) and the two orders built on it, [bf_cmp] and
    [bf_cmp_full]. *)

From S2P Require Import Prelude Cutils BfLimbs BfRound BfMul.

(** [get_limbz(a, idx)] *)
Definition get_limbz (a : bf_t) (idx : Z) : outcome Z :=
  let idx := u64 idx in
  if zlen (tab a) <=? idx then Ret 0 else rd (tab a) idx.

(** [get_bits(tab, len, pos)] *)
Definition get_bits (t : list Z) (len pos : Z) : outcome Z :=
  let i := u64 (Z.shiftr pos 6) in
  let p := Z.land pos (LIMB_BITS - 1) in
  a0 ← (if i <? len then rd t i else Ret 0);
  if p =? 0 then Ret a0
  else
    let i := u64 (i + 1) in
    a1 ← (if i <? len then rd t i else Ret 0);
    Ret (Z.lor (Z.shiftr a0 p) (u64 (Z.shiftl a1 (LIMB_BITS - p)))).

(** The loop of [bf_cmpu], from limb [n - 1] down. *)
Fixpoint cmpu_loop (a b : bf_t) (len : Z) (n : nat) : outcome Z :=
  match n with
  | O => Ret 0
  | S i =>
      v1 ← get_limbz a (zlen (tab a) - len + Z.of_nat i);
      v2 ← get_limbz b (zlen (tab b) - len + Z.of_nat i);
      if negb (v1 =? v2) then Ret (if v1 <? v2 then -1 else 1) else cmpu_loop a b len i
  end.

(** [bf_cmpu(a, b)] *)
Definition bf_cmpu (a b : bf_t) : outcome Z :=
  if negb (expn a =? expn b) then Ret (if expn a <? expn b then -1 else 1)
  else
    let len := Z.max (zlen (tab a)) (zlen (tab b)) in
    cmpu_loop a b len (Z.to_nat len).

(** [bf_cmp_full(a, b)] *)
Definition bf_cmp_full (a b : bf_t) : outcome Z :=
  if (expn a =? BF_EXP_NAN) || (expn b =? BF_EXP_NAN) then
    Ret (if expn a =? expn b then 0 else if expn a =? BF_EXP_NAN then 1 else -1)
  else if negb (sign a =? sign b) then Ret (1 - 2 * sign a)
  else res ← bf_cmpu a b; Ret (if negb (sign a =? 0) then - res else res).

(** [bf_cmp(a, b)] *)
Definition bf_cmp (a b : bf_t) : outcome Z :=
  if (expn a =? BF_EXP_NAN) || (expn b =? BF_EXP_NAN) then Ret 2
  else if negb (sign a =? sign b) then
    if (expn a =? BF_EXP_ZERO) && (expn b =? BF_EXP_ZERO) then Ret 0 else Ret (1 - 2 * sign a)
  else res ← bf_cmpu a b; Ret (if negb (sign a =? 0) then - res else res).

(** ** Limbs of a number *)

(** The bits of [n] from [p] on, which may be negative. *)
Definition bits_at (n p : Z) : Z := Z.shiftr n p mod B.
Definition limb_at (n j : Z) : Z := bits_at n (64 * j).

Lemma bits_at_limb n p : limb (bits_at n p).
Proof. apply Z.mod_pos_bound. pose proof B_pos. lia. Qed.

Lemma bits_at_testbit n p k : 0 <= k < 64 -> Z.testbit (bits_at n p) k = Z.testbit n (k + p).
Proof. intros Hk. unfold bits_at. rewrite B_64, Z.mod_pow2_bits_low, Z.shiftr_spec by lia. done. Qed.

Lemma bits_at_intro n p v : limb v -> (forall k, 0 <= k < 64 -> Z.testbit v k = Z.testbit n (k + p)) -> v = bits_at n p.
Proof.
  intros Hv Hk. rewrite <- (Z.mod_small v B) by exact Hv. apply Z.bits_inj'. intros k Hk0. unfold bits_at. rewrite B_64. destruct (Z.lt_ge_cases k 64).
  - rewrite !Z.mod_pow2_bits_low by lia. rewrite Z.shiftr_spec by lia. apply Hk. lia.
  - rewrite !Z.mod_pow2_bits_high by lia. done.
Qed.

Lemma bits_at_shiftl n s p : 0 <= s -> bits_at (Z.shiftl n s) p = bits_at n (p - s).
Proof. intros Hs. unfold bits_at. by rewrite Z.shiftr_shiftl_r by done. Qed.

(** The limb of a list that an index of the machine reads. *)
Lemma limb_testbit t i k : Forall limb t -> 0 <= k < 64 -> Z.testbit (lval t) (64 * i + k) = match (if 0 <=? i then t !! Z.to_nat i else None) with Some v => Z.testbit v k | None => false end.
Proof.
  intros Ht Hk. destruct (Z.leb_spec 0 i).
  - rewrite testbit_lval by (try done; lia). rewrite (Z.mul_comm 64 i), Z.div_add_l, Z.div_small, Z.add_0_r by lia. rewrite Z.add_comm, Z.mod_add, Z.mod_small by lia. done.
  - apply Z.testbit_neg_r. lia.
Qed.

Lemma rd_limb t i : Forall limb t -> zlen t < 2 ^ 62 -> - 2 ^ 62 <= i < 2 ^ 62 ->
  exists v, (if zlen t <=? u64 i then Ret 0 else rd t (u64 i)) = Ret v /\ limb v /\ forall k, 0 <= k < 64 -> Z.testbit v k = Z.testbit (lval t) (64 * i + k).
Proof.
  intros Ht Hlen Hi. destruct (Z.lt_ge_cases i 0) as [Hn|Hp].
  - assert (u64 i = i + B) as -> by (rewrite u64_mod; symmetry; apply (Z.mod_unique_pos _ _ (-1)); rewrite B_64; lia). rewrite (proj2 (Z.leb_le _ _)) by (rewrite B_64; lia).
    exists 0. split_and!; [done..|]. intros k Hk. rewrite limb_testbit, (proj2 (Z.leb_gt 0 i)) by (done || lia). apply Z.bits_0.
  - rewrite u64_small by lia. destruct (Z.leb_spec (zlen t) i).
    + exists 0. split_and!; [done..|]. intros k Hk. rewrite limb_testbit, (proj2 (Z.leb_le 0 i)) by (done || lia). rewrite (proj2 (lookup_ge_None _ _)) by (unfold zlen in *; lia). apply Z.bits_0.
    + destruct (rd_ok t i) as (v & Ev & ->); [lia|]. exists v. split_and!; [done|by apply (Forall_lookup_1 _ _ _ _ Ht Ev)..|]. intros k Hk. rewrite limb_testbit, (proj2 (Z.leb_le 0 i)) by (done || lia). by rewrite Ev.
Qed.

Lemma get_limbz_spec a idx : Forall limb (tab a) -> zlen (tab a) < 2 ^ 62 -> - 2 ^ 62 <= idx < 2 ^ 62 -> get_limbz a idx = Ret (limb_at (lval (tab a)) idx).
Proof.
  intros Ht Hlen Hi. unfold get_limbz. cbv zeta. destruct (rd_limb _ idx Ht Hlen Hi) as (v & -> & Hv & Hk). f_equal. apply bits_at_intro; [done|]. intros k Hk0. rewrite Hk by done. f_equal. lia.
Qed.

Lemma get_bits_spec t pos : Forall limb t -> zlen t < 2 ^ 62 -> - 2 ^ 63 <= pos < 2 ^ 63 -> get_bits t (zlen t) pos = Ret (bits_at (lval t) pos).
Proof.
  intros Ht Hlen Hpos. unfold get_bits. cbv zeta. rewrite shiftr_6, land_bit_index. pose proof (Z.div_mod pos 64 ltac:(lia)) as Ed. pose proof (Z.mod_pos_bound pos 64 ltac:(lia)) as Hm.
  set (i := pos / 64) in *. set (p := pos mod 64) in *.
  assert (Hif : forall j, (if j <? zlen t then rd t j else Ret 0) = (if zlen t <=? j then Ret 0 else rd t j)) by (intros j; rewrite Z.ltb_antisym; by destruct (zlen t <=? j)).
  rewrite (Hif (u64 i)). destruct (rd_limb _ i Ht Hlen ltac:(lia)) as (a0 & -> & Ha0 & Hk0). cbn [mbind outcome_bind]. destruct (Z.eqb_spec p 0) as [E0|Hp].
  { f_equal. apply bits_at_intro; [done|]. intros k Hk. rewrite Hk0 by done. f_equal. lia. }
  assert (u64 (u64 i + 1) = u64 (i + 1)) as -> by (unfold u64, uwrap; by rewrite Zplus_mod_idemp_l). rewrite Hif. destruct (rd_limb _ (i + 1) Ht Hlen ltac:(lia)) as (a1 & -> & Ha1 & Hk1). cbn [mbind outcome_bind].
  f_equal. unfold LIMB_BITS. assert (EB : B = 2 ^ p * 2 ^ (64 - p)) by (rewrite <- Z.pow_add_r, B_64 by lia; f_equal; lia).
  assert (E1 : u64 (Z.shiftl a1 (64 - p)) = a1 mod 2 ^ p * 2 ^ (64 - p)) by (rewrite u64_mod, Z.shiftl_mul_pow2, EB by lia; apply Z.mul_mod_distr_r; apply Z.pow_nonzero; lia).
  assert (H1 : 0 <= a1 mod 2 ^ p < 2 ^ p) by (apply Z.mod_pos_bound, Z.pow_pos_nonneg; lia). assert (H2 : 0 < 2 ^ (64 - p)) by (apply Z.pow_pos_nonneg; lia).
  assert (H0 : 0 <= Z.shiftr a0 p < 2 ^ (64 - p)) by (rewrite Z.shiftr_div_pow2 by lia; unfold limb in Ha0; split; [apply Z.div_pos; [lia|apply Z.pow_pos_nonneg; lia]|apply Z.div_lt_upper_bound; [apply Z.pow_pos_nonneg; lia|lia]]).
  rewrite Z.lor_comm, E1. apply bits_at_intro; [clear -H0 H1 H2 EB Hm; set (y := a1 mod 2 ^ p) in *; set (x := Z.shiftr a0 p) in *; rewrite lor_disjoint by lia; unfold limb; rewrite EB; nia|]. intros k Hk. rewrite Z.lor_spec. destruct (Z.lt_ge_cases k (64 - p)).
  - rewrite Z.mul_pow2_bits_low, Z.shiftr_spec, Hk0, orb_false_l by lia. f_equal. lia.
  - rewrite Z.mul_pow2_bits, Z.mod_pow2_bits_low, Z.shiftr_spec, Hk1 by lia. assert (Z.testbit a0 (k + p) = false) as ->; [|rewrite orb_false_r; f_equal; lia].
    rewrite <- (Z.mod_small a0 B) by exact Ha0. rewrite B_64. apply Z.mod_pow2_bits_high. lia.
Qed.

(** ** Comparison of absolute values *)

(** The limbs of [a] at the top of [len] limbs. *)
Definition aligned (a : bf_t) (len : Z) : Z := Z.shiftl (lval (tab a)) (64 * (len - zlen (tab a))).

Lemma lval_nonneg t : Forall limb t -> 0 <= lval t.
Proof. intros Ht. apply lval_bounds, Ht. Qed.

Lemma mod_limb n k : 0 <= k -> n mod B ^ (k + 1) = n mod B ^ k + B ^ k * limb_at n k.
Proof.
  intros Hk. pose proof B_pos. rewrite Z.pow_add_r, Z.pow_1_r, Z.rem_mul_r by (try apply Z.pow_nonzero; lia). unfold limb_at, bits_at. rewrite Z.shiftr_div_pow2 by lia. do 4 f_equal. rewrite B_64, <- Z.pow_mul_r by lia. done.
Qed.

Lemma aligned_limb a len j : Forall limb (tab a) -> zlen (tab a) < 2 ^ 60 -> zlen (tab a) <= len < 2 ^ 60 -> - 2 ^ 60 <= j < 2 ^ 60 ->
  get_limbz a (zlen (tab a) - len + j) = Ret (limb_at (aligned a len) j).
Proof.
  intros Ht Hl Hlen Hj. pose proof (zlen_nonneg (tab a)). rewrite get_limbz_spec by (done || lia). unfold limb_at, aligned. rewrite bits_at_shiftl by lia. do 2 f_equal. lia.
Qed.

Lemma sgn_limbs u x v y P : 0 <= u < P -> 0 <= v < P -> Z.sgn (u + P * x - (v + P * y)) = if negb (x =? y) then (if x <? y then -1 else 1) else Z.sgn (u - v).
Proof. intros Hu Hv. destruct (Z.eqb_spec x y) as [->|]; cbn [negb]; [f_equal; lia|]. destruct (Z.ltb_spec x y); [apply Z.sgn_neg|apply Z.sgn_pos]; nia. Qed.

Lemma cmpu_loop_spec a b len n : Forall limb (tab a) -> Forall limb (tab b) -> zlen (tab a) <= len < 2 ^ 60 -> zlen (tab b) <= len -> Z.of_nat n <= len ->
  cmpu_loop a b len n = Ret (Z.sgn (aligned a len mod B ^ Z.of_nat n - aligned b len mod B ^ Z.of_nat n)).
Proof.
  intros Ha Hb Hla Hlb. induction n as [|n IH]; intros Hn; cbn [cmpu_loop]; [by rewrite !Z.mod_1_r|].
  rewrite !aligned_limb by (done || lia). cbn [mbind outcome_bind]. replace (Z.of_nat (S n)) with (Z.of_nat n + 1) by lia. rewrite !mod_limb, IH by lia. pose proof (Bpow_pos n).
  rewrite sgn_limbs by (apply Z.mod_pos_bound; lia). by destruct (negb _).
Qed.

(** The order of [m * 2^x] and [m' * 2^x']. *)
Definition cmp_dyadic (m x m' x' : Z) : Z := Z.sgn (m * 2 ^ (x - Z.min x x') - m' * 2 ^ (x' - Z.min x x')).

Lemma cmp_dyadic_at m x m' x' x0 : x0 <= x -> x0 <= x' -> cmp_dyadic m x m' x' = Z.sgn (m * 2 ^ (x - x0) - m' * 2 ^ (x' - x0)).
Proof.
  intros H1 H2. unfold cmp_dyadic. set (k := Z.min x x'). replace (x - x0) with (x - k + (k - x0)) by lia. replace (x' - x0) with (x' - k + (k - x0)) by lia.
  rewrite !Z.pow_add_r, !Z.mul_assoc, <- Z.mul_sub_distr_r, Z.sgn_mul by lia. assert (0 < 2 ^ (k - x0)) by (apply Z.pow_pos_nonneg; lia). rewrite (Z.sgn_pos (2 ^ (k - x0))) by done. lia.
Qed.

Lemma cmp_dyadic_swap m x m' x' : cmp_dyadic m x m' x' = - cmp_dyadic m' x' m x.
Proof. unfold cmp_dyadic. rewrite (Z.min_comm x' x), <- Z.sgn_opp. f_equal. lia. Qed.

Lemma exponent_order t u e f : bf_normal t -> bf_normal u -> e < f -> cmp_dyadic (lval t) (e - 64 * zlen t) (lval u) (f - 64 * zlen u) = -1.
Proof.
  intros [Hz Ht]%normal_pos [Hz' Hu]%normal_pos Hef. set (x0 := Z.min (e - 64 * zlen t) (f - 64 * zlen u)). rewrite (cmp_dyadic_at _ _ _ _ x0) by lia. apply Z.sgn_neg.
  assert (H1 : lval t * 2 ^ (e - 64 * zlen t - x0) < 2 ^ (e - x0)).
  { replace (e - x0) with (64 * zlen t + (e - 64 * zlen t - x0)) by lia. rewrite Z.pow_add_r by lia. apply Z.mul_lt_mono_pos_r; [apply Z.pow_pos_nonneg|]; lia. }
  assert (H2 : 2 ^ (f - 1 - x0) <= lval u * 2 ^ (f - 64 * zlen u - x0)).
  { replace (f - 1 - x0) with (64 * zlen u - 1 + (f - 64 * zlen u - x0)) by lia. rewrite Z.pow_add_r by lia. apply Z.mul_le_mono_nonneg_r; [apply Z.pow_nonneg|]; lia. }
  assert (2 ^ (e - x0) <= 2 ^ (f - 1 - x0)) by (apply Z.pow_le_mono_r; lia). lia.
Qed.

Lemma aligned_mul a len : zlen (tab a) <= len -> aligned a len = lval (tab a) * 2 ^ (64 * (len - zlen (tab a))).
Proof. intros Hl. unfold aligned. by rewrite Z.shiftl_mul_pow2 by lia. Qed.

Lemma aligned_bounds a len : Forall limb (tab a) -> zlen (tab a) <= len -> 0 <= aligned a len < B ^ len.
Proof.
  intros Ht Hl. pose proof (lval_bounds _ Ht) as Hb. pose proof (zlen_nonneg (tab a)). rewrite aligned_mul by done. rewrite Bpow_2 in Hb. fold (zlen (tab a)) in Hb.
  replace (B ^ len) with (2 ^ (64 * zlen (tab a)) * 2 ^ (64 * (len - zlen (tab a)))) by (rewrite B_64, <- Z.pow_mul_r, <- Z.pow_add_r by lia; f_equal; lia).
  assert (0 < 2 ^ (64 * (len - zlen (tab a)))) by (apply Z.pow_pos_nonneg; lia). nia.
Qed.

Lemma bf_cmpu_finite a b : bf_normal (tab a) -> bf_normal (tab b) -> zlen (tab a) < 2 ^ 60 -> zlen (tab b) < 2 ^ 60 ->
  bf_cmpu a b = Ret (cmp_dyadic (lval (tab a)) (expn a - 64 * zlen (tab a)) (lval (tab b)) (expn b - 64 * zlen (tab b))).
Proof.
  intros Ha Hb Hla Hlb. unfold bf_cmpu. destruct (Z.eqb_spec (expn a) (expn b)) as [E|Hne]; cbn [negb].
  - set (len := Z.max (zlen (tab a)) (zlen (tab b))). pose proof (proj1 Ha) as Hfa. pose proof (proj1 Hb) as Hfb. pose proof (zlen_nonneg (tab a)).
    rewrite cmpu_loop_spec by (done || lia). rewrite Z2Nat.id by lia. rewrite !Z.mod_small by (apply aligned_bounds; [done|lia]). f_equal.
    rewrite (cmp_dyadic_at _ _ _ _ (expn a - 64 * len)) by lia. rewrite !aligned_mul by lia. do 4 f_equal; lia.
  - destruct (Z.ltb_spec (expn a) (expn b)); [by rewrite exponent_order|]. rewrite cmp_dyadic_swap, exponent_order by (done || lia). done.
Qed.

(** ** The order of values *)

Definition signed (sg m : Z) : Z := if sg =? 1 then - m else m.

(** The standard order: [2] when one of the values is NaN, and [-0 = 0]. *)
Definition value_cmp (v w : bf_val) : Z :=
  match v, w with
  | V_nan, _ | _, V_nan => 2
  | V_inf s, V_inf t => t - s
  | V_inf s, _ => signed s 1
  | _, V_inf t => - signed t 1
  | V_zero _, V_zero _ => 0
  | V_zero _, V_fin t m x => cmp_dyadic 0 x (signed t m) x
  | V_fin s m x, V_zero _ => cmp_dyadic (signed s m) x 0 x
  | V_fin s m x, V_fin t m' x' => cmp_dyadic (signed s m) x (signed t m') x'
  end.

(** The full order: [-0 < 0], and NaN is above every other value. *)
Definition value_cmp_full (v w : bf_val) : Z :=
  match v, w with
  | V_nan, V_nan => 0
  | V_nan, _ => 1
  | _, V_nan => -1
  | V_zero s, V_zero t => t - s
  | _, _ => value_cmp v w
  end.

Lemma wf_cases a : bf_wf a ->
  (tab a = [] /\ expn a = BF_EXP_NAN /\ bf_value a = V_nan) \/ (tab a = [] /\ expn a = BF_EXP_INF /\ bf_value a = V_inf (sign a)) \/
  (tab a = [] /\ expn a = BF_EXP_ZERO /\ bf_value a = V_zero (sign a)) \/
  (bf_normal (tab a) /\ (BF_EXP_ZERO < expn a < BF_EXP_INF) /\ zlen (tab a) < 2 ^ 54 /\ bf_value a = V_fin (sign a) (lval (tab a)) (expn a - 64 * zlen (tab a))).
Proof.
  intros [_ [[Et Hc]|(Hn & He & Hl)]].
  - unfold bf_value. rewrite Et. destruct Hc as [->|[->| ->]]; cbn; auto 7.
  - right; right; right. split_and!; [done|change BF_EXP_ZERO with (- 2 ^ 63); change BF_EXP_INF with (2 ^ 63 - 2); lia..|done|]. unfold bf_value. by destruct Hn as (_ & _ & x & t' & -> & _).
Qed.

Lemma cmpu_expn a b : expn a <> expn b -> bf_cmpu a b = Ret (if expn a <? expn b then -1 else 1).
Proof. intros Hne. unfold bf_cmpu. by rewrite (proj2 (Z.eqb_neq _ _) Hne). Qed.
Lemma cmpu_special a b : tab a = [] -> tab b = [] -> expn a = expn b -> bf_cmpu a b = Ret 0.
Proof. intros Ha Hb E. unfold bf_cmpu. rewrite E, Z.eqb_refl, Ha, Hb. done. Qed.

(** [bf_cmpu] on well-formed numbers: NaN is above infinity. *)
Definition value_cmpu (v w : bf_val) : Z :=
  match v, w with
  | V_nan, V_nan | V_inf _, V_inf _ | V_zero _, V_zero _ => 0
  | V_nan, _ => 1 | _, V_nan => -1
  | V_inf _, _ => 1 | _, V_inf _ => -1
  | V_zero _, _ => -1 | _, V_zero _ => 1
  | V_fin _ m x, V_fin _ m' x' => cmp_dyadic m x m' x'
  end.

Lemma bf_cmpu_value a b : bf_wf a -> bf_wf b -> bf_cmpu a b = Ret (value_cmpu (bf_value a) (bf_value b)).
Proof.
  intros Ha Hb. destruct (wf_cases a Ha) as [(Ea & Xa & ->)|[(Ea & Xa & ->)|[(Ea & Xa & ->)|(Na & Xa & La & ->)]]], (wf_cases b Hb) as [(Eb & Xb & ->)|[(Eb & Xb & ->)|[(Eb & Xb & ->)|(Nb & Xb & Lb & ->)]]];
    cbn [value_cmpu]; try (rewrite cmpu_special by congruence; done); try (apply bf_cmpu_finite; (done || lia));
    change BF_EXP_ZERO with (- 2 ^ 63) in *; change BF_EXP_INF with (2 ^ 63 - 2) in *; change BF_EXP_NAN with (2 ^ 63 - 1) in *;
    rewrite cmpu_expn by lia; destruct (Z.ltb_spec (expn a) (expn b)); (done || lia).
Qed.

Lemma signed_mul s m k : signed s m * k = signed s (m * k).
Proof. unfold signed. destruct (s =? 1); lia. Qed.

Lemma cmp_signed s m x t m' x' : s = 0 \/ s = 1 -> t = 0 \/ t = 1 -> 0 < m -> 0 < m' ->
  cmp_dyadic (signed s m) x (signed t m') x' = if negb (s =? t) then 1 - 2 * s else if negb (s =? 0) then - cmp_dyadic m x m' x' else cmp_dyadic m x m' x'.
Proof.
  intros Hs Ht Hm Hm'. unfold cmp_dyadic. set (k := Z.min x x'). assert (0 < 2 ^ (x - k)) by (apply Z.pow_pos_nonneg; lia). assert (0 < 2 ^ (x' - k)) by (apply Z.pow_pos_nonneg; lia).
  assert (0 < m * 2 ^ (x - k)) by nia. assert (0 < m' * 2 ^ (x' - k)) by nia. rewrite !signed_mul. set (u := m * 2 ^ (x - k)) in *. set (v := m' * 2 ^ (x' - k)) in *. clearbody u v.
  destruct Hs as [->| ->], Ht as [->| ->]; cbn; unfold signed; cbn; [done|apply Z.sgn_pos; lia|apply Z.sgn_neg; lia|]. rewrite <- Z.sgn_opp. f_equal. lia.
Qed.

Lemma cmp_zero_l t m x : 0 < m -> t = 0 \/ t = 1 -> cmp_dyadic 0 x (signed t m) x = 2 * t - 1.
Proof.
  intros Hm Ht. unfold cmp_dyadic. rewrite Z.min_id, Z.sub_diag. destruct Ht as [->| ->]; unfold signed; cbn -[Z.sgn Z.mul]; [rewrite Z.sgn_neg|rewrite Z.sgn_pos]; lia.
Qed.
Lemma cmp_zero_r t m x : 0 < m -> t = 0 \/ t = 1 -> cmp_dyadic (signed t m) x 0 x = 1 - 2 * t.
Proof. intros Hm Ht. rewrite cmp_dyadic_swap, cmp_zero_l by done. lia. Qed.

Lemma normal_lval t : bf_normal t -> 0 < lval t.
Proof. intros [Hz Ht]%normal_pos. assert (0 < 2 ^ (64 * zlen t - 1)) by (apply Z.pow_pos_nonneg; lia). lia. Qed.

(** C24: [bf_cmp] and [bf_cmp_full] on well-formed numbers of any size are the
    standard and the full order of their values: finite values are compared
    exactly, whatever the number of their limbs. *)
Theorem bf_cmp_correct a b : bf_wf a -> bf_wf b ->
  bf_cmp a b = Ret (value_cmp (bf_value a) (bf_value b)) /\ bf_cmp_full a b = Ret (value_cmp_full (bf_value a) (bf_value b)).
Proof.
  intros Ha Hb. unfold bf_cmp, bf_cmp_full. rewrite bf_cmpu_value by done. cbn [mbind outcome_bind]. pose proof (wf_sign _ Ha) as Hsa. pose proof (wf_sign _ Hb) as Hsb.
  destruct (wf_cases a Ha) as [(Ea & Xa & ->)|[(Ea & Xa & ->)|[(Ea & Xa & ->)|(Na & Xa & La & ->)]]], (wf_cases b Hb) as [(Eb & Xb & ->)|[(Eb & Xb & ->)|[(Eb & Xb & ->)|(Nb & Xb & Lb & ->)]]];
    change BF_EXP_ZERO with (- 2 ^ 63) in *; change BF_EXP_INF with (2 ^ 63 - 2) in *; change BF_EXP_NAN with (2 ^ 63 - 1) in *;
    repeat match goal with |- context [?x =? ?y] => match x with expn _ => first [rewrite (proj2 (Z.eqb_neq x y)) by lia | rewrite (proj2 (Z.eqb_eq x y)) by lia] end end;
    cbn [orb andb value_cmp value_cmp_full value_cmpu]; try done; rewrite ?cmp_signed, ?cmp_zero_l, ?cmp_zero_r by first [done | by apply normal_lval];
    unfold signed; destruct Hsa as [Esa|Esa], Hsb as [Esb|Esb]; rewrite ?Esa, ?Esb; done.
Qed.

(** [3 > -5 * 2^-70], numbers of one and of two limbs. *)
Lemma bf_cmp_correct_witness : let a := mkBf 0 2 [3 * 2 ^ 62] in let b := mkBf 1 2 [5; 3 * 2 ^ 62] in
  bf_cmp a b = Ret 1 /\ bf_cmp_full b a = Ret (-1) /\ bf_cmp b (mkBf 1 2 [3 * 2 ^ 62]) = Ret (-1).
Proof.
  intros a b. assert (Hf : forall sg t, sg = 0 \/ sg = 1 -> bf_normal t -> zlen t < 2 ^ 54 -> bf_wf (mkBf sg 2 t)) by (intros sg t Hs Hn Hl; constructor; [done|right; split_and!; [done|cbn; lia..|done]]).
  assert (H1 : bf_normal [3 * 2 ^ 62]) by (split_and!; [by constructor|vm_compute; discriminate|by exists (3 * 2 ^ 62), []]).
  assert (H2 : bf_normal [5; 3 * 2 ^ 62]) by (split_and!; [by repeat constructor|vm_compute; discriminate|by exists 5, [3 * 2 ^ 62]]).
  assert (Ha : bf_wf a) by (apply Hf; [by left|done|done]). assert (Ha' : bf_wf (mkBf 1 2 [3 * 2 ^ 62])) by (apply Hf; [by right|done|done]). assert (Hb : bf_wf b) by (apply Hf; [by right|done|done]).
  rewrite (proj1 (bf_cmp_correct a b Ha Hb)), (proj2 (bf_cmp_correct b a Hb Ha)), (proj1 (bf_cmp_correct b _ Hb Ha')). split_and!; vm_compute; reflexivity.
Defined.
