(* ===== verification/BfAdd.v ===== *)
(** * Arbitrary precision: addition and subtraction ([libbf.c])

    [bf_add_internal] adds or subtracts only as many limbs as the precision
    needs, after the bits that cancel; the limbs below are reduced to one sticky
    bit, and the gap between two numbers far apart is skipped.  The result is
    nevertheless the exact sum, rounded once. *)

From S2P Require Import Prelude Cutils BfLimbs BfRound BfMul BfCmp.

Section Add.
Context `{BfAllocator}.

(** [bf_set(r, a)] with [r] different from [a] *)
Definition bf_set (r a : bf_t) : outcome (Z * bf_t) :=
  let '(ok, r) := bf_resize r (zlen (tab a)) in
  if negb ok then Ret (BF_ST_MEM_ERROR, bf_set_nan r)
  else
    t ← wr_range (tab r) 0 (tab a);
    Ret (0, mkBf (sign a) (expn a) t).

(** ** The bits that cancel *)

(** The loop that looks for the first limb where [a] and [b] differ. *)
Definition cancel_equal (a b : bf_t) (b_offset : Z) (st : Z * Z) : outcome ((Z * Z) + (Z * Z * Z * Z)) :=
  let '(n, bit_offset) := st in
  v1 ← get_limbz a (Z.shiftr bit_offset 6);
  v2 ← get_bits (tab b) (zlen (tab b)) (bit_offset + b_offset);
  if negb (v1 =? v2) then Ret (inr (n, bit_offset, v1, v2))
  else Ret (inl (n + LIMB_BITS, bit_offset - LIMB_BITS)).

(** The loop over the limbs that are [0] in [a] and all ones in [b]. *)
Definition cancel_borrow (a b : bf_t) (b_offset : Z) (st : Z * Z) : outcome ((Z * Z) + Z) :=
  let '(n, bit_offset) := st in
  v1 ← get_limbz a (Z.shiftr bit_offset 6);
  v2 ← get_bits (tab b) (zlen (tab b)) (bit_offset + b_offset);
  if negb (v1 =? 0) || negb (v2 =? u64 (-1)) then
    let p1 := Z.min (clz v1) (clz (Z.lxor v2 (u64 (-1)))) in
    Ret (inr (n + p1))
  else Ret (inl (n + LIMB_BITS, bit_offset - LIMB_BITS)).

(** [count_cancelled_bits(a, b)]; the fuel is above the number of limbs of
    both. *)
Definition cancel_fuel (a b : bf_t) : nat := length (tab a) + length (tab b) + 6.

Definition count_cancelled_bits (a b : bf_t) : outcome Z :=
  let bit_offset := zlen (tab a) * LIMB_BITS - 1 in
  let b_offset := (zlen (tab b) - zlen (tab a)) * LIMB_BITS - (LIMB_BITS - 1) + expn a - expn b in
  '(n, bit_offset, v1, v2) ← loop (cancel_fuel a b) (cancel_equal a b b_offset) (0, bit_offset);
  let p := clz (Z.lxor v1 v2) + 1 in
  let n := n + p in
  let p := LIMB_BITS - p in
  '(n, stop) ←
    (if 0 <? p then
       let mask := limb_mask 0 (p - 1) in
       let p1 := Z.min (clz (Z.land v1 mask)) (clz (Z.land (Z.lxor v2 (u64 (-1))) mask)) - (LIMB_BITS - p) in
       Ret (n + p1, negb (p1 =? p))
     else Ret (n, false));
  if (stop : bool) then Ret n
  else loop (cancel_fuel a b) (cancel_borrow a b b_offset) (n, bit_offset - LIMB_BITS).

(** ** The sum of the limbs *)

(** The limb of the sum, and the carry. *)
Definition add_limb (v1 v2 sub_mask carry : Z) : Z * Z :=
  let v2 := Z.lxor v2 sub_mask in
  let u := u64 (v1 + v2) in
  let carry1 := b2z (u <? v1) in
  let u := u64 (u + carry) in
  (u, Z.lor (b2z (u <? carry)) carry1).

(** The loop over the limbs below the result. *)
Definition add_rest (a b : bf_t) (a_offset b_bit_offset sub_mask : Z) (st : Z * Z * Z) : outcome ((Z * Z * Z) + (Z * Z)) :=
  let '(i, carry, z) := st in
  if negb (i <? 0) then Ret (inr (carry, z))
  else
    let ap := a_offset + i in
    let bp := b_bit_offset + i * LIMB_BITS in
    '(v1, in1) ← (if (0 <=? ap) && (ap <? zlen (tab a)) then v ← rd (tab a) ap; Ret (v, true) else Ret (0, false));
    '(v2, in2) ← (if (0 <? bp + LIMB_BITS) && (bp <? zlen (tab b) * LIMB_BITS) then v ← get_bits (tab b) (zlen (tab b)) bp; Ret (v, true) else Ret (0, false));
    let i :=
      if negb (in1 || in2) then
        let i := 0 in
        let i := if ap <? 0 then Z.min i (- a_offset) else i in
        if bp + LIMB_BITS <=? 0 then Z.min i (Z.shiftr (- b_bit_offset) 6) else i
      else i + 1 in
    let '(u, carry) := add_limb v1 v2 sub_mask carry in
    Ret (inl (i, carry, Z.lor z u)).

(** The loop over the limbs of the result. *)
Definition add_result (a b : bf_t) (a_offset b_bit_offset sub_mask : Z) (st : list Z * Z) (i : Z) : outcome (list Z * Z) :=
  let '(t, carry) := st in
  v1 ← get_limbz a (a_offset + i);
  v2 ← get_bits (tab b) (zlen (tab b)) (b_bit_offset + i * LIMB_BITS);
  let '(u, carry) := add_limb v1 v2 sub_mask carry in
  t ← wr t i u;
  Ret (t, carry).

(** The last part of [bf_add_internal]: both operands have limbs, and the
    absolute value of [a] is not less than that of [b]. *)
Definition add_finite (r a b : bf_t) (prec flags a_sign is_sub : Z) : outcome (Z * bf_t) :=
  let d := i64 (expn a - expn b) in
  cancelled_bits ← (if negb (is_sub =? 0) then if d <=? 1 then count_cancelled_bits a b else Ret 1 else Ret 0);
  let precl := u64 (cancelled_bits + prec + 2 + LIMB_BITS - 1) / LIMB_BITS in
  let tot_len := Z.max (zlen (tab a)) (zlen (tab b) + (d + LIMB_BITS - 1) / LIMB_BITS) in
  let r_len := Z.min precl tot_len in
  let '(ok, r) := bf_resize (mkBf a_sign (expn a) (tab r)) r_len in
  if negb ok then Ret (BF_ST_MEM_ERROR, bf_set_nan r)
  else
    let a_offset := zlen (tab a) - r_len in
    let b_bit_offset := (zlen (tab b) - r_len) * LIMB_BITS + d in
    let sub_mask := u64 (- is_sub) in
    '(carry, z) ← loop (cancel_fuel a b) (add_rest a b a_offset b_bit_offset sub_mask) (r_len - tot_len, is_sub, 0);
    '(t, carry) ← foldM (add_result a b a_offset b_bit_offset sub_mask) (tab r, carry) (seqZ 0 r_len);
    x ← rd t 0;
    t ← wr t 0 (Z.lor x (b2z (negb (z =? 0))));
    if (is_sub =? 0) && negb (carry =? 0) then
      let '(ok, r) := bf_resize (mkBf (sign r) (expn r) t) (r_len + 1) in
      if negb ok then Ret (BF_ST_MEM_ERROR, bf_set_nan r)
      else
        t ← wr (tab r) r_len 1;
        bf_normalize_and_round (mkBf (sign r) (i64 (expn r + LIMB_BITS)) t) prec flags
    else bf_normalize_and_round (mkBf (sign r) (expn r) t) prec flags.

(** The rest of [bf_add_internal], once [a] is the operand whose absolute value
    is not less than that of the other. *)
Definition add_ordered (r a b : bf_t) (prec flags cmp_res a_sign is_sub : Z) : outcome (Z * bf_t) :=
  if (cmp_res =? 0) && negb (is_sub =? 0) && (expn a <? BF_EXP_INF) then
    Ret (0, bf_set_zero r (b2z (Z.land flags BF_RND_MASK =? BF_RNDD)))
  else if (zlen (tab a) =? 0) || (zlen (tab b) =? 0) then
    if BF_EXP_INF <=? expn a then
      if expn a =? BF_EXP_NAN then Ret (0, bf_set_nan r)
      else if (expn b =? BF_EXP_INF) && negb (is_sub =? 0) then Ret (BF_ST_INVALID_OP, bf_set_nan r)
      else Ret (0, bf_set_inf r a_sign)
    else
      '(_, r) ← bf_set r a;
      bf_normalize_and_round (mkBf a_sign (expn r) (tab r)) prec flags
  else add_finite r a b prec flags a_sign is_sub.

(** [bf_add_internal(r, a, b, prec, flags, b_neg)] with [r] different from [a]
    and [b] *)
Definition bf_add_internal (r a b : bf_t) (prec flags b_neg : Z) : outcome (Z * bf_t) :=
  let a_sign := sign a in
  let b_sign := Z.lxor (sign b) b_neg in
  let is_sub := Z.lxor a_sign b_sign in
  cmp_res ← bf_cmpu a b;
  if cmp_res <? 0 then add_ordered r b a prec flags cmp_res b_sign is_sub
  else add_ordered r a b prec flags cmp_res a_sign is_sub.

(** [bf_op2(r, a, b, prec, flags, func)]: a result that is also an operand is
    computed in a new number, which is then moved. *)
Definition bf_init : bf_t := mkBf 0 BF_EXP_ZERO [].

Definition bf_op2 {A} (overlap : bool) (r : bf_t) (func : bf_t -> outcome A) : outcome A :=
  if overlap then func bf_init else func r.

(** [bf_add(r, a, b, prec, flags)] and [bf_sub(r, a, b, prec, flags)];
    [overlap] tells whether [r] is [a] or [b]. *)
Definition bf_add (overlap : bool) (r a b : bf_t) (prec flags : Z) : outcome (Z * bf_t) :=
  bf_op2 overlap r (fun r => bf_add_internal r a b prec flags 0).
Definition bf_sub (overlap : bool) (r a b : bf_t) (prec flags : Z) : outcome (Z * bf_t) :=
  bf_op2 overlap r (fun r => bf_add_internal r a b prec flags 1).
End Add.

(** ** The sum of two values *)

Definition neg_value (v : bf_val) : bf_val :=
  match v with
  | V_nan => V_nan
  | V_zero s => V_zero (1 - s)
  | V_inf s => V_inf (1 - s)
  | V_fin s m x => V_fin (1 - s) m x
  end.

(** The sum of two values, rounded; an exact zero has a sign of its own. *)
Definition add_value (flags prec : Z) (v w : bf_val) : Z * bf_val :=
  match v, w with
  | V_nan, _ | _, V_nan => (0, V_nan)
  | V_inf s, V_inf t => if s =? t then (0, V_inf s) else (BF_ST_INVALID_OP, V_nan)
  | V_inf s, _ | _, V_inf s => (0, V_inf s)
  | V_zero s, V_zero t => (0, V_zero (if s =? t then s else b2z (Z.land flags BF_RND_MASK =? BF_RNDD)))
  | V_zero _, V_fin s m x | V_fin s m x, V_zero _ => round_value flags prec s m x
  | V_fin s m x, V_fin t m' x' =>
      let x0 := Z.min x x' in
      let n := signed s (m * 2 ^ (x - x0)) + signed t (m' * 2 ^ (x' - x0)) in
      if n =? 0 then (0, V_zero (b2z (Z.land flags BF_RND_MASK =? BF_RNDD)))
      else round_value flags prec (b2z (n <? 0)) (Z.abs n) x0
  end.

(** ** The sticky bit *)

Definition sticky (n k : Z) : Z := Z.lor (n / 2 ^ k) (b2z (negb (n mod 2 ^ k =? 0))).

Lemma lor_bit q (b : bool) : 0 <= q -> Z.lor q (b2z b) / 2 = q / 2 /\ Z.lor q (b2z b) = 2 * (q / 2) + b2z (Z.odd q || b).
Proof.
  intros Hq. assert (E : Z.lor q (b2z b) / 2 = q / 2).
  { change 2 with (2 ^ 1). rewrite <- !Z.shiftr_div_pow2, Z.shiftr_lor by lia. destruct b; cbn [b2z]; by rewrite Z.lor_0_r. }
  split; [done|]. rewrite (Z.div_mod (Z.lor q (b2z b)) 2) at 1 by lia. rewrite E. f_equal. rewrite <- !Z.bit0_mod, Z.lor_spec, Z.bit0_odd. destruct (Z.odd q), b; done.
Qed.

(** The remainder of a number with a sticky bit compares like the whole one. *)
Lemma sticky_parts n k s : 0 <= n -> 0 <= k -> 2 <= s -> exists g bit low,
  sticky n k / 2 ^ s = n / 2 ^ (s + k) /\ sticky n k mod 2 ^ s = 2 * g + b2z bit /\ n mod 2 ^ (s + k) = 2 ^ (k + 1) * g + low /\
  0 <= g /\ 0 <= low < 2 ^ (k + 1) /\ (bit = false <-> low = 0).
Proof.
  intros Hn Hk Hs. set (q := n / 2 ^ k). assert (H2k : 0 < 2 ^ k) by (apply Z.pow_pos_nonneg; lia). assert (Hq : 0 <= q) by (apply Z.div_pos; lia).
  destruct (lor_bit q (negb (n mod 2 ^ k =? 0)) Hq) as [Ed El]. assert (H2s : 0 < 2 ^ (s - 1)) by (apply Z.pow_pos_nonneg; lia).
  assert (Es : 2 ^ s = 2 * 2 ^ (s - 1)) by (rewrite <- Z.pow_succ_r by lia; f_equal; lia). assert (Ek : 2 ^ (k + 1) = 2 ^ k * 2) by (by rewrite Z.pow_add_r by lia).
  assert (Esk : 2 ^ (s + k) = 2 ^ (k + 1) * 2 ^ (s - 1)) by (rewrite <- Z.pow_add_r by lia; f_equal; lia).
  assert (Eh : n / 2 ^ (k + 1) = q / 2) by (rewrite Ek, <- Z.div_div by lia; done).
  exists ((q / 2) mod 2 ^ (s - 1)), (Z.odd q || negb (n mod 2 ^ k =? 0)), (n mod 2 ^ (k + 1)). unfold sticky. fold q. split_and!.
  - rewrite Es, <- Z.div_div, Ed by lia. rewrite Esk, <- Z.div_div, Eh by lia. done.
  - rewrite Es, Z.rem_mul_r, Ed by lia. rewrite El at 1. rewrite (Z.add_comm (2 * _)), (Z.mul_comm 2), Z.mod_add by lia. rewrite (Z.mod_small (b2z _)) by (destruct (_ || _); cbn; lia). lia.
  - rewrite Esk, Z.rem_mul_r, Eh by lia. lia.
  - apply Z.mod_pos_bound. lia.
  - apply Z.mod_pos_bound. lia.
  - apply Z.mod_pos_bound. lia.
  - rewrite Ek, Z.rem_mul_r by lia. fold q. pose proof (Z.mod_pos_bound n (2 ^ k) H2k). rewrite <- Z.bit0_mod, Z.bit0_odd. destruct (Z.odd q), (Z.eqb_spec (n mod 2 ^ k) 0); cbn; split; (done || lia).
Qed.

Lemma rnd_sticky mode sg n k s : 0 <= n -> 0 <= k -> 2 <= s ->
  rnd_up mode sg (sticky n k) s = rnd_up mode sg n (s + k) /\ rnd_inexact mode (sticky n k) s = rnd_inexact mode n (s + k).
Proof.
  intros Hn Hk Hs. destruct (sticky_parts n k s Hn Hk Hs) as (g & bit & low & Eq & Er & En & Hg & Hlow & Hbit). unfold rnd_up, rnd_inexact. rewrite Eq, Er, En.
  assert (Eh : 2 ^ (s - 1) = 2 * 2 ^ (s - 2)) by (rewrite <- Z.pow_succ_r by lia; f_equal; lia). assert (Ehk : 2 ^ (s + k - 1) = 2 ^ (k + 1) * 2 ^ (s - 2)) by (rewrite <- Z.pow_add_r by lia; f_equal; lia).
  rewrite Eh, Ehk. assert (Hh : 0 < 2 ^ (s - 2)) by (apply Z.pow_pos_nonneg; lia). set (h := 2 ^ (s - 2)) in *. set (K := 2 ^ (k + 1)) in *. clearbody h K.
  assert (Hb : 0 <= b2z bit <= 1) by (destruct bit; cbn; lia). assert (Hbl : b2z bit = 0 <-> low = 0) by (destruct Hbit as [Hb1 Hb2]; destruct bit; cbn; split; intros Hx; [discriminate|discriminate (Hb2 Hx)|by apply Hb1|done]).
  assert (Htri : (g < h /\ K * g + K <= K * h) \/ (g = h /\ K * g = K * h) \/ (h < g /\ K * h + K <= K * g)) by (destruct (Z.lt_trichotomy g h) as [|[->|]]; [left|right; left|right; right]; (split; [done|nia])).
  assert (HKg : g = 0 /\ K * g = 0 \/ 0 < g /\ K <= K * g) by (destruct (Z.eq_dec g 0) as [->|]; [left|right]; (split; [lia|nia])).
  assert (E0 : (2 * g + b2z bit =? 0) = (K * g + low =? 0)) by (destruct (Z.eqb_spec (2 * g + b2z bit) 0), (Z.eqb_spec (K * g + low) 0); (done || lia)).
  assert (E1 : (2 * h <? 2 * g + b2z bit) = (K * h <? K * g + low)) by (destruct (Z.ltb_spec (2 * h) (2 * g + b2z bit)), (Z.ltb_spec (K * h) (K * g + low)); (done || lia)).
  assert (E2 : (2 * g + b2z bit =? 2 * h) = (K * g + low =? K * h)) by (destruct (Z.eqb_spec (2 * g + b2z bit) (2 * h)), (Z.eqb_spec (K * g + low) (K * h)); (done || lia)).
  assert (E3 : (2 * h <=? 2 * g + b2z bit) = (K * h <=? K * g + low)) by (destruct (Z.leb_spec (2 * h) (2 * g + b2z bit)), (Z.leb_spec (K * h) (K * g + low)); (done || lia)).
  by rewrite E0, E1, E2, E3.
Qed.

Lemma sticky_log2 n k : 0 <= k -> k + 1 <= Z.log2 n -> 0 < sticky n k /\ Z.log2 (sticky n k) = Z.log2 n - k.
Proof.
  intros Hk Hl. assert (Hn : 0 < n) by (destruct (Z.lt_ge_cases 0 n); [done|]; rewrite Z.log2_nonpos in Hl by done; lia).
  assert (Hq : 0 <= n / 2 ^ k) by (apply Z.div_pos; [lia|apply Z.pow_pos_nonneg; lia]). destruct (lor_bit (n / 2 ^ k) (negb (n mod 2 ^ k =? 0)) Hq) as [Ed _]. fold (sticky n k) in Ed.
  assert (Eq : Z.log2 (n / 2 ^ k / 2) = Z.log2 n - k - 1).
  { rewrite Z.div_div by (try apply Z.pow_nonzero; lia). replace (2 ^ k * 2) with (2 ^ (k + 1)) by (rewrite Z.pow_add_r by lia; done). rewrite <- Z.shiftr_div_pow2, Z.log2_shiftr by lia. lia. }
  assert (Hs : 0 <= sticky n k) by (apply Z.lor_nonneg; split; [done|destruct (negb _); cbn; lia]).
  assert (Hs2 : 2 <= sticky n k).
  { destruct (Z.lt_ge_cases (sticky n k) 2); [|done]. rewrite <- Ed, Z.div_small in Eq by lia. cbn in Eq. exfalso. enough (n / 2 ^ (k + 1) <> 0).
    - apply H0. replace (2 ^ (k + 1)) with (2 ^ k * 2) by (rewrite Z.pow_add_r by lia; done). rewrite <- Z.div_div by (try apply Z.pow_nonzero; lia). rewrite <- Ed. apply Z.div_small. lia.
    - intros E. apply Z.div_small_iff in E; [|apply Z.pow_nonzero; lia]. assert (2 ^ (k + 1) <= 2 ^ Z.log2 n) by (apply Z.pow_le_mono_r; lia). pose proof (Z.log2_spec n Hn). lia. }
  split; [lia|]. rewrite <- Ed in Eq. change 2 with (2 ^ 1) in Eq. rewrite <- Z.shiftr_div_pow2, Z.log2_shiftr in Eq by lia. pose proof (Z.log2_le_mono 2 (sticky n k) Hs2) as Hl2. cbn in Hl2. lia.
Qed.

Lemma round_prec_le flags prec e e_min : Z.land flags BF_FLAG_RADPNT_PREC = 0 -> round_prec flags prec e e_min <= prec.
Proof. intros E. unfold round_prec. rewrite E. cbn. destruct (Z.ltb_spec e e_min), (Z.land flags BF_FLAG_SUBNORMAL =? 0); cbn; lia. Qed.

(** Bits at least two places below the precision count only as a sticky bit. *)
Lemma round_value_sticky flags prec sg n x k : Z.land flags BF_FLAG_RADPNT_PREC = 0 -> 1 <= prec -> 0 <= k -> prec + k + 1 <= Z.log2 n ->
  round_value flags prec sg (sticky n k) (x + k) = round_value flags prec sg n x.
Proof.
  intros Hr Hp Hk Hl. destruct (sticky_log2 n k Hk ltac:(lia)) as [_ El]. assert (Hn : 0 < n) by (destruct (Z.lt_ge_cases 0 n); [done|]; rewrite Z.log2_nonpos in Hl by done; lia).
  unfold round_value. rewrite El. replace (x + k + (Z.log2 n - k + 1)) with (x + (Z.log2 n + 1)) by lia. unfold round_spec. set (e := x + (Z.log2 n + 1)).
  set (P := round_prec flags prec e (- 2 ^ (bf_get_exp_bits flags - 1) + 3)). pose proof (round_prec_le flags prec e (- 2 ^ (bf_get_exp_bits flags - 1) + 3) Hr) as HP. fold P in HP.
  set (s := Z.log2 n - k + 1 - P). replace (Z.log2 n + 1 - P) with (s + k) by lia. destruct (rnd_sticky (Z.land flags BF_RND_MASK) sg n k s ltac:(lia) Hk ltac:(lia)) as [-> ->].
  destruct (sticky_parts n k s ltac:(lia) Hk ltac:(lia)) as (_ & _ & _ & -> & _). rewrite (proj2 (Z.leb_gt s 0)), (proj2 (Z.leb_gt (s + k) 0)), (proj2 (Z.ltb_lt 0 s)), (proj2 (Z.ltb_lt 0 (s + k))) by lia. done.
Qed.

(** ** The bits that cancel *)

Lemma div_limb n j : 0 <= j -> n / B ^ j = B * (n / B ^ (j + 1)) + limb_at n j.
Proof.
  intros Hj. pose proof B_pos. rewrite Z.pow_add_r, Z.pow_1_r, <- Z.div_div by (try apply Z.pow_nonzero; lia). unfold limb_at, bits_at. rewrite Z.shiftr_div_pow2 by lia.
  replace (2 ^ (64 * j)) with (B ^ j) by (rewrite B_64, <- Z.pow_mul_r by lia; done). apply Z.div_mod. lia.
Qed.

Lemma clz_pos w : 0 < w -> clz w = 63 - Z.log2 w.
Proof. intros Hw. unfold clz. rewrite (proj2 (Z.eqb_neq w 0)) by lia. unfold Bits.clz64, Bits.builtin_clz. lia. Qed.

Lemma clz_range w : limb w -> 0 <= clz w <= 64.
Proof.
  intros Hw. destruct (Z.eq_dec w 0) as [->|]; [done|]. unfold limb in Hw. rewrite B_64 in Hw. rewrite clz_pos by lia. pose proof (Z.log2_nonneg w). assert (Z.log2 w < 64) by (apply Z.log2_lt_pow2; lia). lia.
Qed.

Lemma min_clz u v : limb u -> limb v -> Z.min (clz u) (clz v) = clz (Z.max u v).
Proof.
  intros Hu Hv. pose proof (clz_range u Hu). pose proof (clz_range v Hv). unfold limb in *. destruct (Z.eq_dec u 0) as [->|]; [rewrite Z.max_r, Z.min_r by (change (clz 0) with 64; lia); done|].
  destruct (Z.eq_dec v 0) as [->|]; [rewrite Z.max_l, Z.min_l by (change (clz 0) with 64; lia); done|]. rewrite !clz_pos by lia.
  destruct (Z.le_gt_cases u v); [rewrite (Z.max_r u v) by lia; pose proof (Z.log2_le_mono u v)|rewrite (Z.max_l u v) by lia; pose proof (Z.log2_le_mono v u)]; lia.
Qed.

(** Two limbs that differ first at bit [q]. *)
Lemma first_difference v1 v2 : limb v1 -> limb v2 -> v2 < v1 -> let q := Z.log2 (Z.lxor v1 v2) in
  0 < Z.lxor v1 v2 /\ 0 <= q < 64 /\ v1 - v2 = 2 ^ q + v1 mod 2 ^ q - v2 mod 2 ^ q.
Proof.
  intros H1 H2 Hlt q. unfold limb in *. rewrite B_64 in *. assert (Hne : Z.lxor v1 v2 <> 0) by (rewrite Z.lxor_eq_0_iff; lia). assert (Hnn : 0 <= Z.lxor v1 v2) by (apply Z.lxor_nonneg; lia).
  assert (Hpos : 0 < Z.lxor v1 v2) by lia. assert (Hq : 0 <= q) by apply Z.log2_nonneg.
  assert (Eh : v1 / 2 ^ (q + 1) = v2 / 2 ^ (q + 1)).
  { rewrite <- !Z.shiftr_div_pow2 by lia. apply Z.lxor_eq. rewrite <- Z.shiftr_lxor, Z.shiftr_div_pow2 by lia. apply Z.div_small. split; [done|]. unfold q. rewrite Z.add_1_r. apply Z.log2_spec. done. }
  assert (Eb : forall v, v / 2 ^ q = 2 * (v / 2 ^ (q + 1)) + (v / 2 ^ q) mod 2).
  { intros v. rewrite Z.pow_add_r, <- Z.div_div by (try apply Z.pow_nonzero; lia). change (2 ^ 1) with 2. apply Z.div_mod. lia. }
  assert (Hp : 0 < 2 ^ q) by (apply Z.pow_pos_nonneg; lia). split_and!; [done|done| |].
  - unfold q. destruct (Z.lt_ge_cases (Z.log2 (Z.lxor v1 v2)) 64); [done|]. exfalso. pose proof (Z.log2_lxor v1 v2 ltac:(lia) ltac:(lia)) as Hl.
    assert (Hb : forall v, 0 <= v < 2 ^ 64 -> Z.log2 v < 64) by (intros v Hv; destruct (Z.eq_dec v 0) as [->|]; [done|apply Z.log2_lt_pow2; lia]). pose proof (Hb v1 H1). pose proof (Hb v2 H2). lia.
  - pose proof (Z.div_mod v1 (2 ^ q) ltac:(lia)) as E1. pose proof (Z.div_mod v2 (2 ^ q) ltac:(lia)) as E2. pose proof (Z.mod_pos_bound v1 (2 ^ q) Hp). pose proof (Z.mod_pos_bound v2 (2 ^ q) Hp).
    pose proof (Eb v1) as F1. pose proof (Eb v2) as F2. rewrite <- Eh in F2.
    assert (Hbit : (v1 / 2 ^ q) mod 2 <> (v2 / 2 ^ q) mod 2).
    { rewrite <- !Z.testbit_spec' by lia. pose proof (Z.bit_log2 _ Hpos) as Hb. fold q in Hb. rewrite Z.lxor_spec in Hb. by destruct (Z.testbit v1 q), (Z.testbit v2 q). }
    pose proof (Z.mod_pos_bound (v1 / 2 ^ q) 2 ltac:(lia)). pose proof (Z.mod_pos_bound (v2 / 2 ^ q) 2 ltac:(lia)). enough (v1 / 2 ^ q = v2 / 2 ^ q + 1) by nia.
    assert (v2 / 2 ^ q <= v1 / 2 ^ q) by (apply Z.div_le_mono; lia). lia.
Qed.

(** The complement of a limb, and its low bits. *)
Lemma lxor_ones v : limb v -> Z.lxor v (u64 (-1)) = B - 1 - v.
Proof.
  intros Hv. change (u64 (-1)) with (Z.ones 64). apply Z.add_move_l. rewrite Z.add_nocarry_lxor.
  - rewrite <- Z.lxor_assoc, Z.lxor_nilpotent, Z.lxor_0_l. done.
  - apply Z.bits_inj'. intros n Hn. rewrite Z.land_spec, Z.lxor_spec, Z.bits_0. destruct (Z.lt_ge_cases n 64); [rewrite Z.ones_spec_low by lia; by destruct (Z.testbit v n)|].
    rewrite <- (Z.mod_small v B) by exact Hv. rewrite B_64, Z.mod_pow2_bits_high by lia. done.
Qed.

Lemma low_complement v q : limb v -> 0 <= q <= 64 -> (B - 1 - v) mod 2 ^ q = 2 ^ q - 1 - v mod 2 ^ q.
Proof.
  intros Hv Hq. assert (EB : B = 2 ^ (64 - q) * 2 ^ q) by (rewrite <- Z.pow_add_r, B_64 by lia; f_equal; lia). assert (Hp : 0 < 2 ^ q) by (apply Z.pow_pos_nonneg; lia).
  pose proof (Z.mod_pos_bound v (2 ^ q) Hp). pose proof (Z.div_mod v (2 ^ q) ltac:(lia)). symmetry. apply (Z.mod_unique_pos _ _ (2 ^ (64 - q) - 1 - v / 2 ^ q)); [lia|]. rewrite EB. nia.
Qed.

Section Aligned.
Context (a b : bf_t) (d T : Z).
Context (Ha : bf_normal (tab a)) (Hb : bf_normal (tab b)) (Hla : zlen (tab a) < 2 ^ 54) (Hlb : zlen (tab b) < 2 ^ 54).
Context (Hd : 0 <= d <= 2 ^ 62) (HT : T = Z.max (zlen (tab a)) (zlen (tab b) + (d + 63) / 64)).

Notation la := (zlen (tab a)).
Notation lb := (zlen (tab b)).
Notation A := (aligned a T).

(** The number of [b], aligned with that of [a] in [T] limbs. *)
Definition aligned_b : Z := Z.shiftl (lval (tab b)) (64 * (T - lb) - d).
Notation Bv := aligned_b.

Lemma T_bounds : la <= T /\ 0 < la /\ 0 < lb /\ 64 * lb + d <= 64 * T /\ T <= la + lb + (d + 63) / 64 /\ T <= 2 ^ 56 + 2 ^ 54 + 1.
Proof. pose proof (normal_pos _ Ha). pose proof (normal_pos _ Hb). subst T. Z.to_euclidean_division_equations. lia. Qed.

Lemma A_limb j : - 2 ^ 60 <= j < 2 ^ 60 -> get_limbz a (la - T + j) = Ret (limb_at A j).
Proof. intros Hj. pose proof T_bounds. apply aligned_limb; [apply Ha|lia..]. Qed.

Lemma B_limb j : -1 <= j <= T -> get_bits (tab b) lb (64 * j - (64 * (T - lb) - d)) = Ret (limb_at Bv j).
Proof. intros Hj. pose proof T_bounds. rewrite get_bits_spec by (try apply Hb; lia). unfold limb_at, aligned_b. rewrite bits_at_shiftl by lia. done. Qed.

Lemma A_bounds : 2 ^ (64 * T - 1) <= A < B ^ T.
Proof.
  pose proof T_bounds. pose proof (normal_pos _ Ha) as [_ Hm]. split; [|apply aligned_bounds; [apply Ha|lia]]. rewrite aligned_mul by lia.
  replace (64 * T - 1) with (64 * la - 1 + 64 * (T - la)) by lia. rewrite Z.pow_add_r by lia. apply Z.mul_le_mono_nonneg_r; [apply Z.pow_nonneg; lia|apply Hm].
Qed.

Lemma B_bounds : 0 < Bv < 2 ^ (64 * T - d).
Proof.
  pose proof T_bounds. pose proof (normal_pos _ Hb) as [_ Hm]. pose proof (normal_lval _ Hb). unfold aligned_b. rewrite Z.shiftl_mul_pow2 by lia. assert (0 < 2 ^ (64 * (T - lb) - d)) by (apply Z.pow_pos_nonneg; lia).
  replace (64 * T - d) with (64 * lb + (64 * (T - lb) - d)) by lia. rewrite Z.pow_add_r by lia. nia.
Qed.

Lemma limb_at_neg n : limb_at n (-1) = 0.
Proof. unfold limb_at, bits_at. rewrite Z.shiftr_opp_r || idtac. change (Z.shiftr n (64 * -1)) with (Z.shiftl n 64). rewrite Z.shiftl_mul_pow2 by lia. rewrite <- B_64. apply Z.mod_mul. pose proof B_pos. lia. Qed.

(** A difference of the upper limbs bounds that of the numbers. *)
Lemma diff_lower j w : 0 <= j -> 0 <= w -> 2 ^ w + 1 <= A / B ^ j - Bv / B ^ j -> 2 ^ (64 * j + w) <= A - Bv.
Proof.
  intros Hj Hw Hdiff. assert (0 < B ^ j) by (apply Z.pow_pos_nonneg; [done|lia]). pose proof (Z.div_mod A (B ^ j) ltac:(lia)). pose proof (Z.div_mod Bv (B ^ j) ltac:(lia)). pose proof (Z.mod_pos_bound A (B ^ j) ltac:(lia)). pose proof (Z.mod_pos_bound Bv (B ^ j) ltac:(lia)).
  rewrite Z.pow_add_r by lia. replace (2 ^ (64 * j)) with (B ^ j) by (rewrite B_64, <- Z.pow_mul_r by lia; done). nia.
Qed.

Hypothesis Hgt : Bv < A.
Hypothesis Hd1 : d <= 1.
Hypothesis Hed : expn a - expn b = d.

Notation b_offset := ((lb - la) * LIMB_BITS - (LIMB_BITS - 1) + expn a - expn b).

Lemma wp_cancel_equal :
  wp (loop (cancel_fuel a b) (cancel_equal a b b_offset) (0, la * LIMB_BITS - 1)) (fun '(n, bit_offset, v1, v2) => exists j, 0 <= j < T /\ n = 64 * (T - 1 - j) /\ bit_offset = 64 * (la - (T - 1 - j)) - 1 /\
    v1 = limb_at A j /\ v2 = limb_at Bv j /\ v2 < v1 /\ A / B ^ j - Bv / B ^ j = v1 - v2).
Proof.
  pose proof T_bounds as HTb. unfold LIMB_BITS.
  apply (wp_loop_ghost (fun '(n, bo) m => exists j, m = j /\ 0 <= j < T /\ n = 64 * (T - 1 - j) /\ bo = 64 * (la - (T - 1 - j)) - 1 /\ A / B ^ (j + 1) = Bv / B ^ (j + 1))) with (m := T - 1).
  - intros [n bo] m (j & -> & Hj & -> & -> & Eu). unfold cancel_equal. rewrite shiftr_6. replace ((64 * (la - (T - 1 - j)) - 1) / 64) with (la - T + j) by (Z.to_euclidean_division_equations; lia).
    rewrite A_limb by lia. cbn [mbind outcome_bind]. replace (64 * (la - (T - 1 - j)) - 1 + ((lb - la) * 64 - (64 - 1) + expn a - expn b)) with (64 * j - (64 * (T - lb) - d)) by lia. rewrite B_limb by lia. cbn [mbind outcome_bind].
    pose proof (div_limb A j ltac:(lia)) as EA. pose proof (div_limb Bv j ltac:(lia)) as EB. rewrite Eu in EA. pose proof (Z.div_le_mono Bv A (B ^ j) ltac:(apply Z.pow_pos_nonneg; [done|lia]) ltac:(lia)) as Hle.
    destruct (Z.eqb_spec (limb_at A j) (limb_at Bv j)) as [El|Hne]; cbn [negb]; apply wp_ret.
    + assert (j <> 0) by (intros ->; rewrite Z.pow_0_r, !Z.div_1_r in EA, EB; lia). exists (j - 1). split; [|lia]. exists (j - 1). unfold LIMB_BITS. split_and!; [lia..|]. rewrite Z.sub_add. lia.
    + exists j. split_and!; (done || lia).
  - exists (T - 1). split_and!; [lia..|]. rewrite Z.sub_add. pose proof A_bounds. pose proof B_bounds. assert (Bv < B ^ T) by lia. assert (0 < 2 ^ (64 * T - 1)) by (apply Z.pow_pos_nonneg; lia). rewrite !Z.div_small by lia. done.
  - unfold cancel_fuel. unfold zlen in *. Z.to_euclidean_division_equations. lia.
Qed.

(** Two limbs whose difference is one more than the larger of [w1] and [w2]. *)
Lemma diff_max j w1 w2 : 0 <= j -> 0 <= w1 -> 0 <= w2 -> A / B ^ j - Bv / B ^ j = 1 + w1 + w2 -> 0 < Z.max w1 w2 -> 2 ^ (64 * j + Z.log2 (Z.max w1 w2)) <= A - Bv.
Proof. intros Hj H1 H2 E Hm. apply diff_lower; [done|apply Z.log2_nonneg|]. pose proof (Z.log2_spec _ Hm) as [Hl _]. lia. Qed.

Lemma wp_cancel_borrow j : 0 <= j < T -> A / B ^ j - Bv / B ^ j = 1 ->
  wp (loop (cancel_fuel a b) (cancel_borrow a b b_offset) (64 * (T - j), 64 * (la - (T - j)) - 1)) (fun n => 0 <= n <= 64 * T /\ 2 ^ (64 * T - 1 - n) <= A - Bv).
Proof.
  intros Hj0 Hdiff. pose proof T_bounds as HTb. unfold LIMB_BITS.
  apply (wp_loop_ghost (fun '(n, bo) m => exists j, m = j /\ 0 <= j < T /\ n = 64 * (T - j) /\ bo = 64 * (la - (T - j)) - 1 /\ A / B ^ j - Bv / B ^ j = 1)) with (m := j).
  - clear j Hj0 Hdiff. intros [n bo] m (j & -> & Hj & -> & -> & Ed). unfold cancel_borrow. rewrite shiftr_6. replace ((64 * (la - (T - j)) - 1) / 64) with (la - T + (j - 1)) by (Z.to_euclidean_division_equations; lia).
    rewrite A_limb by lia. cbn [mbind outcome_bind]. replace (64 * (la - (T - j)) - 1 + ((lb - la) * 64 - (64 - 1) + expn a - expn b)) with (64 * (j - 1) - (64 * (T - lb) - d)) by lia. rewrite B_limb by lia. cbn [mbind outcome_bind].
    destruct (Z.eq_dec j 0) as [->|Hj1].
    { change (0 - 1) with (-1). rewrite !limb_at_neg. cbn [Z.eqb negb orb]. change (0 =? u64 (-1)) with false. cbn [negb]. apply wp_ret. change (Z.min (clz 0) (clz (Z.lxor 0 (u64 (-1))))) with 0. split; [lia|].
      replace (64 * T - 1 - (64 * (T - 0) + 0)) with (-1) by lia. change (2 ^ -1) with 0. lia. }
    pose proof (div_limb A (j - 1) ltac:(lia)) as EA. pose proof (div_limb Bv (j - 1) ltac:(lia)) as EB. rewrite Z.sub_add in EA, EB.
    pose proof (bits_at_limb A (64 * (j - 1))) as L1. pose proof (bits_at_limb Bv (64 * (j - 1))) as L2. fold (limb_at A (j - 1)) in L1. fold (limb_at Bv (j - 1)) in L2. set (v1 := limb_at A (j - 1)) in *. set (v2 := limb_at Bv (j - 1)) in *.
    change (u64 (-1)) with (B - 1) at 1. destruct (negb (v1 =? 0) || negb (v2 =? B - 1)) eqn:Ev; apply wp_ret.
    + rewrite lxor_ones by done. assert (Lc : limb (B - 1 - v2)) by (unfold limb in *; lia). rewrite min_clz by done. assert (Hmax : 0 < Z.max v1 (B - 1 - v2)) by (unfold limb in *; destruct (Z.eqb_spec v1 0), (Z.eqb_spec v2 (B - 1)); cbn in Ev; try done; lia).
      pose proof (clz_range (Z.max v1 (B - 1 - v2)) ltac:(unfold limb in *; lia)) as Hc. split; [rewrite clz_pos in * by done; pose proof (Z.log2_nonneg (Z.max v1 (B - 1 - v2))); lia|].
      replace (64 * T - 1 - (64 * (T - j) + clz (Z.max v1 (B - 1 - v2)))) with (64 * (j - 1) + Z.log2 (Z.max v1 (B - 1 - v2))) by (rewrite clz_pos by done; lia). apply diff_max; unfold limb in *; lia.
    + apply orb_false_iff in Ev as [E1 E2]. apply negb_false_iff, Z.eqb_eq in E1, E2. exists (j - 1). split; [|lia]. exists (j - 1). unfold LIMB_BITS. split_and!; [lia..|]. lia.
  - exists j. split_and!; (done || lia).
  - unfold cancel_fuel. unfold zlen in *. Z.to_euclidean_division_equations. lia.
Qed.

(** What is left after the bits that cancel has its top bit at the place
    counted, or one above. *)
Lemma wp_count_cancelled_bits : wp (count_cancelled_bits a b) (fun n => 0 <= n <= 64 * T /\ 2 ^ (64 * T - 1 - n) <= A - Bv).
Proof.
  unfold count_cancelled_bits. apply wp_bind. eapply wp_mono; [exact wp_cancel_equal|]. intros [[[n bo] v1] v2] (j & Hj & -> & -> & E1 & E2 & Hlt & Ediff).
  pose proof (bits_at_limb A (64 * j)) as L1. pose proof (bits_at_limb Bv (64 * j)) as L2. fold (limb_at A j) in L1. fold (limb_at Bv j) in L2. rewrite <- E1 in L1. rewrite <- E2 in L2. clear E1 E2.
  destruct (first_difference v1 v2 L1 L2 Hlt) as (Hpos & Hq & Ev). set (q := Z.log2 (Z.lxor v1 v2)) in *. rewrite clz_pos by done. fold q. unfold LIMB_BITS. replace (64 - (63 - q + 1)) with q by lia.
  rewrite Ev in Ediff. set (w1 := v1 mod 2 ^ q) in *. set (w2 := 2 ^ q - 1 - v2 mod 2 ^ q). assert (Hp : 0 < 2 ^ q) by (apply Z.pow_pos_nonneg; lia).
  pose proof (Z.mod_pos_bound v1 (2 ^ q) Hp) as H1. pose proof (Z.mod_pos_bound v2 (2 ^ q) Hp) as H2. fold w1 in H1.
  assert (Hend : w1 = 0 -> w2 = 0 -> wp (loop (cancel_fuel a b) (cancel_borrow a b b_offset) (64 * (T - j), 64 * (la - (T - 1 - j)) - 1 - 64)) (fun n => 0 <= n <= 64 * T /\ 2 ^ (64 * T - 1 - n) <= A - Bv)).
  { intros Ew1 Ew2. replace (64 * (la - (T - 1 - j)) - 1 - 64) with (64 * (la - (T - j)) - 1) by lia. apply wp_cancel_borrow; [done|]. lia. }
  destruct (Z.ltb_spec 0 q) as [Hq0|Hq0]; cbn [mbind outcome_bind].
  - rewrite limb_mask_low by lia. rewrite Z.sub_add, !Z.land_ones by lia. fold w1. rewrite lxor_ones, low_complement by (done || lia). fold w2.
    assert (H2q : 2 ^ q <= B) by (rewrite B_64; apply Z.pow_le_mono_r; lia). rewrite min_clz by (unfold limb; lia). destruct (Z.eq_dec (Z.max w1 w2) 0) as [Em|Hm].
    + rewrite Em. change (clz 0) with 64. replace (64 - (64 - q)) with q by lia. rewrite Z.eqb_refl. cbn [negb]. replace (64 * (T - 1 - j) + (63 - q + 1) + q) with (64 * (T - j)) by lia. apply Hend; lia.
    + rewrite clz_pos by lia. pose proof (Z.log2_nonneg (Z.max w1 w2)). rewrite (proj2 (Z.eqb_neq _ q)) by lia. cbn [negb]. apply wp_ret.
      assert (Z.log2 (Z.max w1 w2) < q) by (apply Z.log2_lt_pow2; lia). split; [lia|].
      replace (64 * T - 1 - _) with (64 * j + Z.log2 (Z.max w1 w2)) by lia. apply diff_max; lia.
  - assert (q = 0) as Eq by lia. assert (E1 : 2 ^ q = 1) by (by rewrite Eq). assert (E0 : w1 = 0 /\ w2 = 0) by (unfold w2; lia). replace (64 * (T - 1 - j) + (63 - q + 1)) with (64 * (T - j)) by lia. apply Hend; apply E0.
Qed.
End Aligned.

(** ** The sum *)

Lemma bits_at_low n p : p <= -64 -> bits_at n p = 0.
Proof.
  intros Hp. unfold bits_at. rewrite <- (Z.opp_involutive p), Z.shiftr_opp_r, Z.shiftl_mul_pow2 by lia. replace (- p) with (- p - 64 + 64) by lia. rewrite Z.pow_add_r, <- B_64, Z.mul_assoc by lia.
  apply Z.mod_mul. pose proof B_pos. lia.
Qed.
Lemma bits_at_high n p : 0 <= p -> 0 <= n < 2 ^ p -> bits_at n p = 0.
Proof. intros Hp Hn. unfold bits_at. rewrite Z.shiftr_div_pow2, Z.div_small by lia. done. Qed.

Lemma mod_zero_limbs n k k' : 0 <= k <= k' -> (forall j, k <= j < k' -> limb_at n j = 0) -> n mod B ^ k' = n mod B ^ k.
Proof.
  intros Hk Hz. remember (Z.to_nat (k' - k)) as m eqn:Em. revert k' Hk Hz Em. induction m as [|m IH]; intros k' Hk Hz Em; [f_equal; f_equal; lia|].
  replace k' with (k' - 1 + 1) by lia. rewrite mod_limb, Hz, IH by (try lia; intros; apply Hz; lia). lia.
Qed.

Section Sum.
Context (a b : bf_t) (d T : Z) (sub : bool).
Context (Ha : bf_normal (tab a)) (Hb : bf_normal (tab b)) (Hla : zlen (tab a) < 2 ^ 54) (Hlb : zlen (tab b) < 2 ^ 54).
Context (Hd : 0 <= d <= 2 ^ 62) (HT : T = Z.max (zlen (tab a)) (zlen (tab b) + (d + 63) / 64)).

Notation la := (zlen (tab a)).
Notation lb := (zlen (tab b)).
Notation A := (aligned a T).
Notation Bv := (aligned_b b d T).
Notation mask := (if sub then B - 1 else 0).

Definition partial (k : Z) : Z := if sub then A mod B ^ k - Bv mod B ^ k + B ^ k else A mod B ^ k + Bv mod B ^ k.
Definition sum_inv (k carry low : Z) : Prop := partial k = carry * B ^ k + low /\ 0 <= low < B ^ k /\ 0 <= carry <= 1.

Lemma add_limb_spec v1 v2 carry : limb v1 -> limb v2 -> 0 <= carry <= 1 ->
  let w := if sub then B - 1 - v2 else v2 in
  let '(u, c) := add_limb v1 v2 mask carry in v1 + w + carry = u + B * c /\ limb u /\ 0 <= c <= 1.
Proof.
  intros H1 H2 Hc w. unfold add_limb. assert (Ew : Z.lxor v2 mask = w) by (unfold w; destruct sub; [change (B - 1) with (u64 (-1)); by apply lxor_ones|apply Z.lxor_0_r]). rewrite Ew.
  assert (Hw : limb w) by (unfold w, limb in *; destruct sub; lia). pose proof (add_step v1 w carry H1 Hw Hc) as E. cbv zeta in E. rewrite E.
  assert (El : forall x y : bool, Z.lor (b2z x) (b2z y) = b2z (x || y)) by (by intros [] []). rewrite El. split_and!; [done|apply limb_u64..|apply b2z_01|apply b2z_01].
Qed.

Lemma sum_step k carry low : 0 <= k -> sum_inv k carry low ->
  let '(u, c) := add_limb (limb_at A k) (limb_at Bv k) mask carry in limb u /\ sum_inv (k + 1) c (low + B ^ k * u).
Proof.
  intros Hk (E & Hlow & Hc). pose proof (add_limb_spec (limb_at A k) (limb_at Bv k) carry (bits_at_limb _ _) (bits_at_limb _ _) Hc) as Hs. destruct (add_limb _ _ _ _) as [u c]. destruct Hs as (Es & Hu & Hc').
  split; [done|]. assert (Hp : 0 < B ^ k) by (apply Z.pow_pos_nonneg; [done|lia]). assert (EB : B ^ (k + 1) = B * B ^ k) by (rewrite Z.pow_add_r, Z.pow_1_r by lia; lia).
  split_and!; [| |unfold limb in Hu; rewrite EB; nia|lia..].
  - unfold partial in *. rewrite !mod_limb by done. rewrite EB. destruct sub; nia.
  - unfold limb in Hu. nia.
Qed.

(** Limbs that are zero in both are passed at once. *)
Lemma sum_skip k k' carry low : 0 <= k < k' -> sum_inv k carry low -> (forall j, k <= j < k' -> limb_at A j = 0) -> (forall j, k <= j < k' -> limb_at Bv j = 0) ->
  let '(u, c) := add_limb 0 0 mask carry in limb u /\ exists low', sum_inv k' c low' /\ (low' = 0 <-> low = 0 /\ u = 0).
Proof.
  intros Hk (E & Hlow & Hc) HzA HzB. pose proof (mod_zero_limbs A k k' ltac:(lia) HzA) as EA. pose proof (mod_zero_limbs Bv k k' ltac:(lia) HzB) as EB.
  pose proof (add_limb_spec 0 0 carry ltac:(done) ltac:(done) Hc) as Hs. destruct (add_limb _ _ _ _) as [u c]. destruct Hs as (Es & Hu & Hc'). split; [done|]. unfold sum_inv, partial in *. rewrite EA, EB.
  assert (Hp : 0 < B ^ k) by (apply Z.pow_pos_nonneg; [done|lia]). assert (Hpp : B ^ k < B ^ k') by (apply Z.pow_lt_mono_r; [done|lia..]). pose proof B_pos. unfold limb in Hu.
  assert (Hcc : carry = 0 \/ carry = 1) by lia. destruct sub, Hcc as [->| ->].
  - assert (c = 0 /\ u = B - 1) as [-> ->] by (assert (Hc2 : c = 0 \/ c = 1) by lia; clear -Hc2 Es Hu H; destruct Hc2 as [->| ->]; lia). exists (B ^ k' + low - B ^ k). split_and!; lia.
  - assert (c = 1 /\ u = 0) as [-> ->] by (assert (Hc2 : c = 0 \/ c = 1) by lia; clear -Hc2 Es Hu H; destruct Hc2 as [->| ->]; lia). exists low. split_and!; lia.
  - assert (c = 0 /\ u = 0) as [-> ->] by (assert (Hc2 : c = 0 \/ c = 1) by lia; clear -Hc2 Es Hu H; destruct Hc2 as [->| ->]; lia). exists low. split_and!; lia.
  - assert (c = 0 /\ u = 1) as [-> ->] by (assert (Hc2 : c = 0 \/ c = 1) by lia; clear -Hc2 Es Hu H; destruct Hc2 as [->| ->]; lia). exists (B ^ k + low). assert (B ^ k <= B ^ (k' - 1)) by (apply Z.pow_le_mono_r; lia).
    assert (E' : B ^ k' = B * B ^ (k' - 1)) by (rewrite <- Z.pow_succ_r by lia; f_equal; lia). assert (2 * B ^ k <= B ^ k') by (rewrite E'; clear -H H0 Hp; nia). split_and!; lia.
Qed.

(** The limbs that the loops read. *)
Lemma sum_bounds : la <= T /\ 0 < la /\ 0 < lb /\ 64 * lb + d <= 64 * T /\ T <= la + lb + (d + 63) / 64 /\ T <= 2 ^ 56 + 2 ^ 54 + 1.
Proof. exact (T_bounds a b d T Ha Hb Hla Hlb Hd HT). Qed.

Lemma A_limb_low j : la - T + j < 0 -> limb_at A j = 0.
Proof. intros Hj. pose proof sum_bounds. unfold limb_at, aligned. rewrite bits_at_shiftl by lia. apply bits_at_low. lia. Qed.

Lemma A_limb_rd j : 0 <= la - T + j < la -> rd (tab a) (la - T + j) = Ret (limb_at A j).
Proof.
  intros Hj. pose proof sum_bounds. pose proof (aligned_limb a T j (proj1 Ha) ltac:(lia) ltac:(lia) ltac:(lia)) as E. revert E. unfold get_limbz. cbv zeta. rewrite u64_small by lia. by rewrite (proj2 (Z.leb_gt _ _)) by lia.
Qed.

Lemma B_limb_zero j : 64 * j - (64 * (T - lb) - d) + 64 <= 0 \/ lb * 64 <= 64 * j - (64 * (T - lb) - d) -> limb_at Bv j = 0.
Proof.
  intros Hj. pose proof sum_bounds. pose proof (normal_pos _ Hb) as [_ Hm]. unfold limb_at, aligned_b. rewrite bits_at_shiftl by lia. destruct Hj as [Hj|Hj]; [apply bits_at_low; lia|].
  apply bits_at_high; [lia|]. pose proof (normal_lval _ Hb). assert (2 ^ (64 * lb) <= 2 ^ (64 * j - (64 * (T - lb) - d))) by (apply Z.pow_le_mono_r; lia). lia.
Qed.

Context (r : Z) (Hr : 1 <= r <= T).

Notation a_offset := (la - r).
Notation b_bit_offset := ((lb - r) * LIMB_BITS + d).

(** The limbs still to be read, and the gaps still to be passed. *)
Definition rest_a (i : Z) : Z := if a_offset + i <? 0 then la + 1 else la - (a_offset + i).
Definition rest_b (i : Z) : Z := if b_bit_offset + i * 64 + 64 <=? 0 then lb + 2 else Z.max 0 (lb + (63 - (b_bit_offset + i * 64)) / 64).
Definition rest_measure (i : Z) : Z := rest_a i + rest_b i + (if i <? 0 then 1 else 0).

Lemma rest_a_le i i' : i <= i' <= 0 -> 0 <= rest_a i' <= rest_a i /\ rest_a i <= la + 1.
Proof. intros Hi. pose proof sum_bounds. unfold rest_a. destruct (Z.ltb_spec (a_offset + i) 0), (Z.ltb_spec (a_offset + i') 0); lia. Qed.

Lemma rest_b_le i i' : i <= i' -> 0 <= rest_b i' <= rest_b i /\ rest_b i <= lb + 2.
Proof.
  intros Hi. pose proof sum_bounds as (_ & _ & Hb0 & _). clear -Hi Hb0. unfold rest_b. set (x := b_bit_offset). destruct (Z.leb_spec (x + i * 64 + 64) 0), (Z.leb_spec (x + i' * 64 + 64) 0); Z.to_euclidean_division_equations; lia.
Qed.

Lemma rest_b_lt i i' : i < i' -> (0 < b_bit_offset + i * 64 + 64 /\ b_bit_offset + i * 64 < lb * 64) \/ (b_bit_offset + i * 64 + 64 <= 0 < b_bit_offset + i' * 64 + 64) -> rest_b i' < rest_b i.
Proof.
  intros Hi. pose proof sum_bounds as (_ & _ & Hb0 & _). clear -Hi Hb0. unfold rest_b. set (x := b_bit_offset). clearbody x. intros Hx. destruct (Z.leb_spec (x + i * 64 + 64) 0), (Z.leb_spec (x + i' * 64 + 64) 0); Z.to_euclidean_division_equations; lia.
Qed.

Lemma rest_a_lt i i' : i < i' <= 0 -> 0 <= a_offset + i' -> rest_a i' < rest_a i.
Proof. intros Hi Ha0. unfold rest_a. rewrite (proj2 (Z.ltb_ge (a_offset + i') 0)) by lia. destruct (Z.ltb_spec (a_offset + i) 0); lia. Qed.

(** Where the loop goes from [i]. *)
Definition rest_next (i : Z) : Z :=
  let ap := a_offset + i in
  let bp := b_bit_offset + i * LIMB_BITS in
  if negb ((0 <=? ap) && (ap <? la) || (0 <? bp + LIMB_BITS) && (bp <? lb * LIMB_BITS)) then
    let i := 0 in
    let i := if ap <? 0 then Z.min i (- a_offset) else i in
    if bp + LIMB_BITS <=? 0 then Z.min i (Z.shiftr (- b_bit_offset) 6) else i
  else i + 1.

Lemma rest_progress i : i < 0 -> i < rest_next i <= 0 /\ 0 <= rest_measure (rest_next i) < rest_measure i /\
  (rest_next i = i + 1 \/ forall k, i <= k < rest_next i -> a_offset + k < 0 /\ (b_bit_offset + k * 64 + 64 <= 0 \/ lb * 64 <= b_bit_offset + k * 64)).
Proof.
  intros Hi. pose proof sum_bounds as (HlaT & _). unfold rest_next, LIMB_BITS. rewrite shiftr_6. cbv zeta. set (x := (lb - r) * 64 + d).
  assert (Hm : forall i', i < i' <= 0 -> i' = 0 \/ rest_a i' < rest_a i \/ rest_b i' < rest_b i -> 0 <= rest_measure i' < rest_measure i).
  { intros i' Hi' Hor. pose proof (rest_a_le i i' ltac:(lia)). pose proof (rest_b_le i i' ltac:(lia)). unfold rest_measure. rewrite (proj2 (Z.ltb_lt i 0)) by lia. destruct (Z.ltb_spec i' 0); lia. }
  rewrite (proj2 (Z.ltb_lt (a_offset + i) la)) by lia. rewrite andb_true_r. destruct (Z.leb_spec 0 (a_offset + i)) as [Hin|Hout]; cbn [orb negb].
  { split_and!; [lia..| | |by left]; apply Hm; try lia; right; left; apply rest_a_lt; lia. }
  rewrite (proj2 (Z.ltb_lt (a_offset + i) 0)) by lia. destruct (Z.ltb_spec 0 (x + i * 64 + 64)) as [Hb1|Hb1]; cbn [andb].
  - destruct (Z.ltb_spec (x + i * 64) (lb * 64)) as [Hb2|Hb2]; cbn [negb].
    + split_and!; [lia..| | |by left]; apply Hm; try lia; right; right; apply rest_b_lt; [lia|left; unfold LIMB_BITS; fold x; lia|lia|left; unfold LIMB_BITS; fold x; lia].
    + rewrite (proj2 (Z.leb_gt (x + i * 64 + 64) 0)) by lia. split; [lia|]. split; [|right; intros k Hk; lia]. apply Hm; [lia|]. destruct (Z.min_spec 0 (- a_offset)) as [[_ ->]|[Hle ->]]; [by left|]. right; left. apply rest_a_lt; lia.
  - cbn [negb]. rewrite (proj2 (Z.leb_le (x + i * 64 + 64) 0)) by lia. assert (Hdiv : 64 * (- x / 64) <= - x < 64 * (- x / 64) + 64) by (Z.to_euclidean_division_equations; lia). split; [lia|]. split; [|right; intros k Hk; lia].
    apply Hm; [lia|]. destruct (Z.min_spec (Z.min 0 (- a_offset)) (- x / 64)) as [[Hlt ->]|[Hle ->]].
    + destruct (Z.min_spec 0 (- a_offset)) as [[_ ->]|[Hle ->]]; [by left|]. right; left. apply rest_a_lt; lia.
    + right; right. apply rest_b_lt; [lia|right; unfold LIMB_BITS; fold x; lia].
Qed.

Lemma lor_zero z u : 0 <= z -> 0 <= u -> (Z.lor z u = 0 <-> z = 0 /\ u = 0) /\ 0 <= Z.lor z u.
Proof. intros Hz Hu. split; [apply Z.lor_eq_0_iff|by apply Z.lor_nonneg]. Qed.

Lemma wp_add_rest :
  wp (loop (cancel_fuel a b) (add_rest a b a_offset b_bit_offset mask) (r - T, b2z sub, 0)) (fun '(carry, z) => exists low, sum_inv (T - r) carry low /\ (z = 0 <-> low = 0)).
Proof.
  pose proof sum_bounds as HTb.
  apply (wp_loop_ghost (fun '(i, carry, z) m => m = rest_measure i /\ r - T <= i <= 0 /\ 0 <= z /\ exists low, sum_inv (i + (T - r)) carry low /\ (z = 0 <-> low = 0))) with (m := rest_measure (r - T)).
  - intros [[i carry] z] m (-> & Hi & Hz & low & Hs & Hzl). unfold add_rest. destruct (Z.ltb_spec i 0) as [Hneg|]; cbn [negb]; [|apply wp_ret; assert (i = 0) as -> by lia; by exists low].
    destruct (rest_progress i Hneg) as (Hnext & Hmeas & Hskip). set (k := i + (T - r)) in *.
    assert (Eap : la - T + k = a_offset + i) by (unfold k; lia). assert (Ebp : 64 * k - (64 * (T - lb) - d) = b_bit_offset + i * 64) by (unfold k, LIMB_BITS; lia).
    apply (wp_bind (if (0 <=? a_offset + i) && (a_offset + i <? la) then _ else _)).
    apply (wp_mono _ (fun '(v1, in1) => v1 = limb_at A k /\ in1 = (0 <=? a_offset + i) && (a_offset + i <? la))).
    { destruct (Z.leb_spec 0 (a_offset + i)), (Z.ltb_spec (a_offset + i) la); cbn [andb]; try lia; [|apply wp_ret; split; [symmetry; apply A_limb_low; lia|done]..]. rewrite <- Eap, A_limb_rd by lia. done. }
    intros [v1 in1] [-> ->].
    apply (wp_bind (if (0 <? b_bit_offset + i * LIMB_BITS + LIMB_BITS) && (b_bit_offset + i * LIMB_BITS <? lb * LIMB_BITS) then _ else _)).
    apply (wp_mono _ (fun '(v2, in2) => v2 = limb_at Bv k /\ in2 = (0 <? b_bit_offset + i * LIMB_BITS + LIMB_BITS) && (b_bit_offset + i * LIMB_BITS <? lb * LIMB_BITS))).
    { change (i * LIMB_BITS) with (i * 64). rewrite <- Ebp. unfold LIMB_BITS. destruct (Z.ltb_spec 0 (64 * k - (64 * (T - lb) - d) + 64)), (Z.ltb_spec (64 * k - (64 * (T - lb) - d)) (lb * 64)); cbn [andb]; try (apply wp_ret; split; [symmetry; apply B_limb_zero; lia|done]).
      rewrite (B_limb a b d T) by (try done; unfold k; lia). done. }
    intros [v2 in2] [-> ->]. change (if negb _ then _ else i + 1) with (rest_next i).
    assert (Hstep : let '(u, c) := add_limb (limb_at A k) (limb_at Bv k) mask carry in limb u /\ exists low', sum_inv (rest_next i + (T - r)) c low' /\ (low' = 0 <-> low = 0 /\ u = 0)).
    { destruct Hskip as [->|Hskip].
      - pose proof (sum_step k carry low ltac:(unfold k; lia) Hs) as Hst. destruct (add_limb _ _ _ _) as [u c]. destruct Hst as [Hu Hst]. split; [done|]. exists (low + B ^ k * u). replace (i + 1 + (T - r)) with (k + 1) by (unfold k; lia).
        split; [done|]. destruct Hs as (_ & Hlow & _). assert (0 < B ^ k) by lia. unfold limb in Hu. split; [intros E; split; nia|intros [-> ->]; lia].
      - assert (HzA : forall j, k <= j < rest_next i + (T - r) -> limb_at A j = 0) by (intros j Hj; destruct (Hskip (j - (T - r)) ltac:(unfold k in *; lia)) as [H1 _]; apply A_limb_low; lia).
        assert (HzB : forall j, k <= j < rest_next i + (T - r) -> limb_at Bv j = 0) by (intros j Hj; destruct (Hskip (j - (T - r)) ltac:(unfold k in *; lia)) as [_ H2]; apply B_limb_zero; unfold LIMB_BITS in H2; lia).
        rewrite (HzA k), (HzB k) by (unfold k; lia). apply (sum_skip k); [unfold k; lia|done..]. }
    destruct (add_limb _ _ _ _) as [u c]. destruct Hstep as (Hu & low' & Hs' & Hl'). apply wp_ret. exists (rest_measure (rest_next i)). split; [|lia]. destruct (lor_zero z u Hz ltac:(apply Hu)) as [Hz1 Hz2].
    split_and!; [done|lia..|done|]. exists low'. split; [done|]. rewrite Hz1, Hzl. symmetry. exact Hl'.
  - split_and!; [done|lia..|]. exists 0. rewrite Z.sub_add_simpl_r_l || idtac. replace (r - T + (T - r)) with 0 by lia. split; [|done]. unfold sum_inv, partial. rewrite Z.pow_0_r, !Z.mod_1_r. destruct sub; cbn; lia.
  - pose proof (rest_a_le (r - T) 0 ltac:(lia)). pose proof (rest_b_le (r - T) 0 ltac:(lia)). unfold cancel_fuel, rest_measure. destruct (r - T <? 0); unfold zlen in *; lia.
Qed.

Lemma wp_add_result t0 carry low : zlen t0 = r -> sum_inv (T - r) carry low ->
  wp (foldM (add_result a b a_offset b_bit_offset mask) (t0, carry) (seqZ 0 r)) (fun '(t, c) => zlen t = r /\ Forall limb t /\ sum_inv T c (low + B ^ (T - r) * lval t)).
Proof.
  intros Hz Hs. pose proof sum_bounds as HTb.
  apply (wp_foldM (fun '(t, c) rest => exists i, rest = seqZ i (r - i) /\ 0 <= i <= r /\ zlen t = r /\ Forall limb (take (Z.to_nat i) t) /\ sum_inv (T - r + i) c (low + B ^ (T - r) * lval (take (Z.to_nat i) t)))).
  - intros [t c] j rest (i & Er & Hi & Hzt & Hf & Hsi). destruct (Z.lt_ge_cases i r) as [Hlt|]; [|rewrite seqZ_nil in Er by lia; done]. rewrite seqZ_cons in Er by lia. injection Er as -> ->.
    unfold add_result. replace (a_offset + i) with (la - T + (T - r + i)) by lia. rewrite (A_limb a b d T) by (try done; lia). cbn [mbind outcome_bind].
    replace (b_bit_offset + i * LIMB_BITS) with (64 * (T - r + i) - (64 * (T - lb) - d)) by (unfold LIMB_BITS; lia). rewrite (B_limb a b d T) by (try done; lia). cbn [mbind outcome_bind].
    pose proof (sum_step (T - r + i) c _ ltac:(lia) Hsi) as Hst. destruct (add_limb _ _ _ _) as [u c']. destruct Hst as [Hu Hst].
    apply wp_bind, wp_wr; [lia|]. apply wp_ret. exists (i + 1). assert (Hlt' : (Z.to_nat i < length t)%nat) by (unfold zlen in *; lia).
    assert (Et : take (Z.to_nat (i + 1)) (<[Z.to_nat i := u]> t) = take (Z.to_nat i) t ++ [u]).
    { replace (Z.to_nat (i + 1)) with (S (Z.to_nat i)) by lia. rewrite (take_S_r _ _ u) by (by apply list_lookup_insert_eq). by rewrite take_insert_ge by lia. }
    rewrite Et. split_and!; [f_equal; lia|lia..|by rewrite zlen_insert|apply Forall_app; split; [done|by constructor]|].
    rewrite lval_app, lval_cons, lval_nil, length_take, Nat.min_l by lia. replace (T - r + (i + 1)) with (T - r + i + 1) by lia.
    replace (low + B ^ (T - r) * (lval (take (Z.to_nat i) t) + B ^ Z.of_nat (Z.to_nat i) * (u + B * 0))) with (low + B ^ (T - r) * lval (take (Z.to_nat i) t) + B ^ (T - r + i) * u); [done|].
    rewrite Z2Nat.id, Z.pow_add_r by lia. ring.
  - intros [t c] (i & Er & Hi & Hzt & Hf & Hsi). assert (i = r) as -> by (destruct (Z.lt_ge_cases i r); [rewrite seqZ_cons in Er by lia; done|lia]). rewrite Z.sub_add in Hsi. rewrite take_ge in Hf, Hsi by (unfold zlen in *; lia). done.
  - exists 0. rewrite Z.sub_0_r, Z.add_0_r. cbn [Z.to_nat take]. rewrite take_0, lval_nil, Z.mul_0_r, Z.add_0_r. split_and!; [done|lia..|done|constructor|done].
Qed.
End Sum.

(** ** The sum of two finite numbers *)

Lemma lor_limb x y (c : bool) : limb x -> 0 <= y -> Z.lor (x + B * y) (b2z c) = Z.lor x (b2z c) + B * y /\ limb (Z.lor x (b2z c)).
Proof.
  intros Hx Hy. unfold limb in Hx. rewrite (proj2 (lor_bit x c ltac:(lia))), (proj2 (lor_bit (x + B * y) c ltac:(pose proof B_pos; nia))).
  assert (E1 : (x + B * y) / 2 = x / 2 + 2 ^ 63 * y) by (rewrite half_B; replace (x + 2 * 2 ^ 63 * y) with (x + 2 ^ 63 * y * 2) by lia; apply Z.div_add; lia).
  assert (E2 : Z.odd (x + B * y) = Z.odd x) by (rewrite half_B, <- Z.mul_assoc, Z.odd_add_mul_2; done). rewrite E1, E2. split; [rewrite half_B; lia|].
  pose proof (b2z_01 (Z.odd x || c)). rewrite half_B in *. unfold limb. rewrite half_B. Z.to_euclidean_division_equations. lia.
Qed.

Lemma lor_limb_add x y w (c : bool) : limb x -> 0 <= y -> 0 <= w -> Z.lor (x + B * y + B * w) (b2z c) = Z.lor (x + B * y) (b2z c) + B * w.
Proof.
  intros Hx Hy Hw. rewrite <- Z.add_assoc, <- Z.mul_add_distr_l. rewrite (proj1 (lor_limb x (y + w) c Hx ltac:(lia))), (proj1 (lor_limb x y c Hx Hy)). lia.
Qed.

Lemma sticky_parts_eq s k q low : 0 <= k -> 0 <= low < 2 ^ k -> s = low + 2 ^ k * q -> sticky s k = Z.lor q (b2z (negb (low =? 0))).
Proof.
  intros Hk Hlow ->. unfold sticky. assert (Ed : (low + 2 ^ k * q) / 2 ^ k = q) by (symmetry; apply (Z.div_unique_pos _ _ _ low); lia).
  assert (Em : (low + 2 ^ k * q) mod 2 ^ k = low) by (symmetry; apply (Z.mod_unique_pos _ _ q); lia). by rewrite Ed, Em.
Qed.

Lemma carry_out D N X c : D + N = c * N + X -> 0 < D -> 0 <= X < N -> 0 <= c <= 1 -> D = X.
Proof. intros E HD HX Hc. assert (c = 0 \/ c = 1) as [->| ->] by lia; lia. Qed.

Section AddFinite.
Context `{BfAllocator} (a b : bf_t) (prec flags a_sign : Z) (sub : bool).
Context (Ha : bf_normal (tab a)) (Hb : bf_normal (tab b)) (Hla : zlen (tab a) < 2 ^ 54) (Hlb : zlen (tab b) < 2 ^ 54).
Context (Hea : - 2 ^ 61 < expn a <= 2 ^ 61 - 4) (Heb : - 2 ^ 61 < expn b <= expn a) (Hsg : a_sign = 0 \/ a_sign = 1).
Context (Hop : op_args flags prec) (Hrad : Z.land flags BF_FLAG_RADPNT_PREC = 0) (Hbig : prec <= 2 ^ 59 \/ expn a - expn b <= 2 ^ 59).

Definition sum_d : Z := expn a - expn b.
Definition sum_T : Z := Z.max (zlen (tab a)) (zlen (tab b) + (sum_d + 63) / 64).
Notation T := sum_T.
Notation A := (aligned a T).
Notation Bv := (aligned_b b sum_d T).
Definition sum_S : Z := if sub then A - Bv else A + Bv.
Context (Hgt : sub = true -> Bv < A).

Lemma sum_d_range : 0 <= sum_d <= 2 ^ 62.
Proof. unfold sum_d. lia. Qed.

Lemma wp_cancelled : wp (if negb (b2z sub =? 0) then if sum_d <=? 1 then count_cancelled_bits a b else Ret 1 else Ret 0) (fun n => 0 <= n <= 64 * T /\ (n = 0 \/ n = 1 \/ sum_d <= 1) /\ 2 ^ (64 * T - 1 - n) <= sum_S).
Proof.
  pose proof sum_d_range as Hd. pose proof (T_bounds a b sum_d T Ha Hb Hla Hlb Hd eq_refl) as HTb. pose proof (A_bounds a b sum_d T Ha Hb Hla Hlb Hd eq_refl) as HA. pose proof (B_bounds a b sum_d T Ha Hb Hla Hlb Hd eq_refl) as HB.
  unfold sum_S. destruct sub; cbn [b2z Z.eqb negb].
  - specialize (Hgt eq_refl). destruct (Z.leb_spec sum_d 1) as [H1|H1].
    + eapply wp_mono; [apply (wp_count_cancelled_bits a b sum_d T); done|]. cbn beta. intros n [Hn1 Hn2]. split_and!; [lia..|by right; right|done].
    + apply wp_ret. split_and!; [lia..|by right; left|]. assert (2 ^ (64 * T - sum_d) <= 2 ^ (64 * T - 2)) by (apply Z.pow_le_mono_r; lia).
      replace (64 * T - 1) with (1 + (64 * T - 2)) in HA by lia. rewrite Z.pow_add_r in HA by lia. replace (64 * T - 1 - 1) with (64 * T - 2) by lia. change (2 ^ 1) with 2 in HA. lia.
  - apply wp_ret. split_and!; [lia..|by left|]. rewrite Z.sub_0_r. lia.
Qed.

Definition sum_r (n : Z) : Z := Z.min ((n + prec + 65) / 64) T.

Lemma sum_r_bounds n : 0 <= n <= 64 * T -> n = 0 \/ n = 1 \/ sum_d <= 1 -> 1 <= sum_r n <= T /\ sum_r n < 2 ^ 55 - 1 /\ u64 (n + prec + 2 + LIMB_BITS - 1) = n + prec + 65 /\ (sum_r n = T \/ n + prec + 2 <= 64 * sum_r n).
Proof.
  intros Hn Hc. pose proof sum_d_range as Hd. pose proof (T_bounds a b sum_d T Ha Hb Hla Hlb Hd eq_refl) as HTb. pose proof (oa_prec _ _ Hop) as Hp. unfold BF_PREC_INF, BF_PREC_MAX, LIMB_BITS in *.
  unfold sum_r. rewrite u64_small by lia. assert (HT : sum_T <= zlen (tab a) \/ sum_T <= zlen (tab b) + (sum_d + 63) / 64) by (unfold sum_T; lia). unfold sum_d in *. Z.to_euclidean_division_equations. lia.
Qed.

(** The value of the limbs, with the sticky bit and the last carry. *)
Lemma sum_value n carry low t c z : 1 <= sum_r n <= T -> sum_inv a b sum_d T sub (T - sum_r n) carry low -> (z = 0 <-> low = 0) -> zlen t = sum_r n -> Forall limb t -> sum_inv a b sum_d T sub T c (low + B ^ (T - sum_r n) * lval t) ->
  exists x t2, t = x :: t2 /\ let t' := Z.lor x (b2z (negb (z =? 0))) :: t2 in Forall limb t' /\
    sticky sum_S (64 * (T - sum_r n)) = lval t' + (if sub then 0 else c * B ^ sum_r n) /\ 0 <= c <= 1.
Proof.
  intros Hr (_ & Hlow & _) Hz Hzt Hft (E & Hlt & Hc). pose proof sum_d_range as Hd. pose proof (T_bounds a b sum_d T Ha Hb Hla Hlb Hd eq_refl) as HTb. pose proof (A_bounds a b sum_d T Ha Hb Hla Hlb Hd eq_refl) as HA. pose proof (B_bounds a b sum_d T Ha Hb Hla Hlb Hd eq_refl) as HB.
  assert (HBT : Bv < B ^ T) by (rewrite B_64, <- Z.pow_mul_r by lia; apply Z.lt_le_trans with (2 ^ (64 * T - sum_d)); [lia|apply Z.pow_le_mono_r; lia]). assert (HA0 : 0 <= A) by (pose proof (aligned_bounds a T (proj1 Ha)); lia).
  set (r := sum_r n) in *. destruct t as [|x t2]; [unfold zlen in Hzt; cbn in Hzt; lia|]. exists x, t2. split; [done|]. cbv zeta. apply Forall_cons in Hft as [Hx Hft]. pose proof (lval_nonneg t2 Hft) as Hn2.
  rewrite lval_cons in *. destruct (lor_limb x (lval t2) (negb (z =? 0)) Hx Hn2) as [El Hlx]. split; [by apply Forall_cons|]. split; [|done]. rewrite <- El.
  assert (EP : 2 ^ (64 * (T - r)) = B ^ (T - r)) by (rewrite B_64, <- Z.pow_mul_r by lia; done). assert (EBT : B ^ T = B ^ (T - r) * B ^ r) by (rewrite <- Z.pow_add_r by lia; f_equal; lia).
  assert (Ez : (low =? 0) = (z =? 0)) by (destruct (Z.eqb_spec low 0), (Z.eqb_spec z 0); tauto).
  unfold partial in E. rewrite !Z.mod_small in E by lia. set (q := x + B * lval t2) in *.
  rewrite (sticky_parts_eq sum_S _ (q + (if sub then 0 else c * B ^ r)) low); [|clear -Hr; lia|by rewrite EP|].
  - rewrite Ez. destruct sub; [by rewrite !Z.add_0_r|]. assert (Hev : c * B ^ r = B * (c * B ^ (r - 1))) by (replace r with (1 + (r - 1)) at 1 by lia; rewrite Z.pow_add_r, Z.pow_1_r by lia; lia). rewrite Hev. apply lor_limb_add; [done|done|].
    apply Z.mul_nonneg_nonneg; [apply Hc|]. apply Z.pow_nonneg. pose proof B_pos. clear -H0. lia.
  - rewrite EP. unfold sum_S. destruct sub.
    + rewrite Z.add_0_r. apply (carry_out _ (B ^ T) _ c); [exact E|specialize (Hgt eq_refl); lia|exact Hlt|exact Hc].
    + rewrite E, EBT. ring.
Qed.

(** The normalization of the limbs of the sum gives the rounded sum. *)
Lemma wp_sum_round n t : 0 <= n <= 64 * T -> n = 0 \/ n = 1 \/ sum_d <= 1 -> 2 ^ (64 * T - 1 - n) <= sum_S -> Forall limb t -> 1 <= zlen t < 2 ^ 55 ->
  lval t = sticky sum_S (64 * (T - sum_r n)) -> forall e, e = expn a - 64 * sum_r n + 64 * zlen t -> e <= 2 ^ 61 + 64 ->
  wp (bf_normalize_and_round (mkBf a_sign e t) prec flags) (op_post (round_value flags prec a_sign sum_S (expn a - 64 * T))).
Proof.
  intros Hn Hc HS Hft Hlen Ev e Ee He. destruct (sum_r_bounds n Hn Hc) as (Hr & Hr55 & _ & Hprec). set (r := sum_r n) in *. pose proof (oa_prec _ _ Hop) as Hp.
  assert (HS0 : 0 < sum_S).
  { destruct (Z.le_gt_cases 0 (64 * T - 1 - n)); [assert (0 < 2 ^ (64 * T - 1 - n)) by (apply Z.pow_pos_nonneg; lia); lia|]. unfold sum_S in *. pose proof sum_d_range as Hd. pose proof (A_bounds a b sum_d T Ha Hb Hla Hlb Hd eq_refl) as HA.
    pose proof (B_bounds a b sum_d T Ha Hb Hla Hlb Hd eq_refl) as HB. assert (0 <= 2 ^ (64 * T - 1)) by (apply Z.pow_nonneg; lia). destruct sub; [specialize (Hgt eq_refl)|]; lia. }
  assert (Hround : round_value flags prec a_sign (lval t) (expn a - 64 * r) = round_value flags prec a_sign sum_S (expn a - 64 * T) /\ 0 < lval t).
  { rewrite Ev. destruct Hprec as [Er|Hprec].
    - rewrite Er, Z.sub_diag, Z.mul_0_r. unfold sticky. change (2 ^ 0) with 1. rewrite Z.mod_1_r, Z.div_1_r. cbn [Z.eqb negb b2z]. rewrite Z.lor_0_r. done.
    - assert (Hlog : 64 * T - 1 - n <= Z.log2 sum_S) by (apply Z.log2_le_pow2; done). destruct (sticky_log2 sum_S (64 * (T - r)) ltac:(lia) ltac:(lia)) as [Hpos _]. split; [|done].
      replace (expn a - 64 * r) with (expn a - 64 * T + 64 * (T - r)) by lia. apply round_value_sticky; [done|lia..]. }
  destruct Hround as [Hround Hpos]. pose proof (wp_bf_normalize_and_round (mkBf a_sign e t) prec flags) as Hw. cbn [tab sign expn] in Hw. replace (e - 64 * zlen t) with (expn a - 64 * r) in Hw by lia. rewrite Hround in Hw.
  eapply wp_mono; [apply Hw; try done; try lia|].
  - pose proof (lval_bounds t Hft) as Hb2. rewrite Bpow_2 in Hb2. fold (zlen t) in Hb2. pose proof (Z.log2_nonneg (lval t)). assert (Z.log2 (lval t) < 64 * zlen t) by (apply Z.log2_lt_pow2; lia). apply op_args_round; [done|lia].
  - intros out. apply round_op_post.
Qed.

Lemma wp_add_finite r0 : wp (add_finite r0 a b prec flags a_sign (b2z sub)) (op_post (round_value flags prec a_sign sum_S (expn a - 64 * T))).
Proof.
  pose proof sum_d_range as Hd. unfold add_finite. rewrite i64_id by lia. fold sum_d. apply wp_bind. eapply wp_mono; [exact wp_cancelled|]. cbn beta. intros n (Hn & Hc & HS).
  destruct (sum_r_bounds n Hn Hc) as (Hr & Hr55 & -> & _). replace ((n + prec + 65) / LIMB_BITS) with ((n + prec + 65) / 64) by done. replace (sum_d + LIMB_BITS - 1) with (sum_d + 63) by (unfold LIMB_BITS; lia). change ((sum_d + 63) / LIMB_BITS) with ((sum_d + 63) / 64).
  fold sum_T. fold (sum_r n). destruct (bf_resize _ (sum_r n)) as [ok r1] eqn:Er. destruct ok; cbn [negb]; [|apply wp_ret; right; split_and!; [done|by eapply resize_fails|apply repr_nan]].
  assert (Er1 : sign r1 = a_sign /\ expn r1 = expn a) by (unfold bf_resize in Er; cbn [tab sign expn] in Er; destruct (_ =? _); [by simplify_eq|]; destruct (bf_realloc _ _); by simplify_eq). destruct Er1 as [Es1 Ee1].
  apply resize_length in Er; [|lia]. assert (Emask : u64 (- b2z sub) = if sub then B - 1 else 0) by (destruct sub; reflexivity). rewrite Emask.
  apply wp_bind. eapply wp_mono; [apply (wp_add_rest a b sum_d T sub); done|]. intros [carry z] (low & Hs & Hz). apply wp_bind. eapply wp_mono; [apply (wp_add_result a b sum_d T sub Ha Hb Hla Hlb Hd eq_refl (sum_r n) Hr (tab r1) carry low Er Hs)|]. intros [t c] (Hzt & Hft & Hst).
  destruct (sum_value n carry low t c z Hr Hs Hz Hzt Hft Hst) as (x & t2 & -> & Hft' & Ev & Hc01). change (rd (x :: t2) 0) with (Ret x). cbn [mbind outcome_bind].
  set (y := Z.lor x (b2z (negb (z =? 0)))) in *. change (wr (x :: t2) 0 y) with (Ret (y :: t2)). cbn [mbind outcome_bind]. assert (Hzy : zlen (y :: t2) = sum_r n) by (rewrite zlen_cons in *; done). rewrite Es1, Ee1.
  assert (Hsmall : sub = true \/ c = 0 -> wp (bf_normalize_and_round (mkBf a_sign (expn a) (y :: t2)) prec flags) (op_post (round_value flags prec a_sign sum_S (expn a - 64 * T)))).
  { intros Hsc. apply (wp_sum_round n); try done; try lia. rewrite Ev. destruct Hsc as [Esub|Ec]; [rewrite Esub|rewrite Ec; destruct sub]; lia. }
  assert (Esub : (b2z sub =? 0) = negb sub) by (by destruct sub). rewrite Esub. destruct (Sumbool.sumbool_of_bool sub) as [Et|Ef]; [rewrite Et; by apply Hsmall; left|rewrite Ef in Ev |- *; cbn [negb andb]]. destruct (Z.eqb_spec c 0) as [->|Hc0]; cbn [negb]; [by apply Hsmall; right|].
  assert (c = 1) as -> by lia. unfold bf_resize at 1. cbn [tab sign expn]. rewrite (proj2 (Z.eqb_neq _ _)) by lia. destruct (bf_realloc (y :: t2) (sum_r n + 1)) as [t3|] eqn:Ea; cbn [negb]; [|apply wp_ret; right; split_and!; [done|by exists (y :: t2), (sum_r n + 1)|apply repr_nan]].
  pose proof (bf_realloc_length (y :: t2) (sum_r n + 1) t3 ltac:(lia) Ea) as Hl3. destruct (bf_realloc_keeps (y :: t2) (sum_r n + 1) t3 ltac:(lia) Ea) as [k Ek]. assert (Hk : exists w, k = [w]).
  { subst t3. rewrite zlen_app, Hzy in Hl3. assert (Hk1 : zlen k = 1) by lia. destruct k as [|w [|w2 k]]; [discriminate|eauto|]. rewrite !zlen_cons in Hk1. pose proof (zlen_nonneg k). lia. }
  destruct Hk as [w ->]. cbn [tab sign expn]. rewrite Ek, (wr_app (y :: t2) [] w 1) by lia. cbn [mbind outcome_bind]. rewrite i64_id by (unfold LIMB_BITS; lia).
  apply (wp_sum_round n); try done; try lia.
  - apply Forall_app. split; [done|by constructor].
  - rewrite zlen_app, Hzy. change (zlen [1]) with 1. lia.
  - rewrite Ev, lval_app, (lval_cons 1), lval_nil. rewrite <- Hzy. unfold zlen. lia.
  - rewrite zlen_app, Hzy. change (zlen [1]) with 1. unfold LIMB_BITS. lia.
  - unfold LIMB_BITS. lia.
Qed.
End AddFinite.

(** ** Every case of the addition *)

Lemma round_value_scale flags prec sg m x k : 0 < m -> 0 <= k ->
  let a := round_value flags prec sg (m * 2 ^ k) (x - k) in let b := round_value flags prec sg m x in a.1 = b.1 /\ bf_veq a.2 b.2.
Proof.
  intros Hm Hk. unfold round_value. rewrite Z.log2_mul_pow2 by lia. replace (k + Z.log2 m + 1) with (Z.log2 m + 1 + k) by lia. replace (x - k + (Z.log2 m + 1 + k)) with (x + (Z.log2 m + 1)) by lia.
  pose proof (Z.log2_spec m Hm) as Hl. pose proof (Z.log2_nonneg m). apply round_spec_scale; [done|lia|]. rewrite Z.add_1_r. lia.
Qed.

Lemma op_post_veq `{BfAllocator} u v out : u.1 = v.1 -> bf_veq u.2 v.2 -> op_post u out -> op_post v out.
Proof. destruct out as [ret r]. intros E1 E2 [[-> Hr]|Hm]; [left; by rewrite <- E2|by right]. Qed.

Lemma add_value_comm flags prec v w : add_value flags prec v w = add_value flags prec w v.
Proof.
  destruct v, w; cbn; try done.
  - rewrite (Z.eqb_sym sg0). by destruct (Z.eqb_spec sg sg0) as [->|].
  - rewrite (Z.eqb_sym sg0). by destruct (Z.eqb_spec sg sg0) as [->|].
  - rewrite (Z.min_comm e0 e), (Z.add_comm (signed sg0 _)). done.
Qed.

(** The sum of finite values, in the terms of the algorithm. *)
Lemma add_value_finite flags prec a b s t : bf_normal (tab a) -> bf_normal (tab b) -> zlen (tab a) < 2 ^ 54 -> zlen (tab b) < 2 ^ 54 -> 0 <= expn a - expn b <= 2 ^ 62 -> s = 0 \/ s = 1 -> t = 0 \/ t = 1 ->
  let T := sum_T a b in let sub := negb (s =? t) in
  let m := lval (tab a) in let m' := lval (tab b) in let x := expn a - 64 * zlen (tab a) in let x' := expn b - 64 * zlen (tab b) in
  cmp_dyadic m x m' x' = Z.sgn (aligned a T - aligned_b b (sum_d a b) T) /\
  (0 < sum_S a b sub -> let u := round_value flags prec s (sum_S a b sub) (expn a - 64 * T) in let v := add_value flags prec (V_fin s m x) (V_fin t m' x') in u.1 = v.1 /\ bf_veq u.2 v.2).
Proof.
  intros Ha Hb Hla Hlb Hd Hs Ht T sub m m' x x'. pose proof (T_bounds a b (sum_d a b) T Ha Hb Hla Hlb Hd eq_refl) as HTb. set (x1 := expn a - 64 * T).
  assert (Hx : x1 <= x /\ x1 <= x') by (unfold x1, x, x', sum_d in *; lia). assert (EA : aligned a T = m * 2 ^ (x - x1)) by (rewrite aligned_mul by lia; unfold m, x, x1; do 2 f_equal; lia).
  assert (EB : aligned_b b (sum_d a b) T = m' * 2 ^ (x' - x1)) by (unfold aligned_b; rewrite Z.shiftl_mul_pow2 by lia; unfold m', x', x1, sum_d; do 2 f_equal; lia).
  split; [rewrite EA, EB; apply cmp_dyadic_at; lia|]. intros HS. cbv zeta. cbn [add_value]. cbv zeta. set (x0 := Z.min x x'). set (n := signed s (m * 2 ^ (x - x0)) + signed t (m' * 2 ^ (x' - x0))). set (k := x0 - x1).
  assert (En : n * 2 ^ k = signed s (sum_S a b sub)).
  { unfold n. rewrite Z.mul_add_distr_r, !signed_mul, <- !Z.mul_assoc, <- !Z.pow_add_r by (unfold k, x0; lia). replace (x - x0 + k) with (x - x1) by (unfold k; lia). replace (x' - x0 + k) with (x' - x1) by (unfold k; lia).
    rewrite <- EA, <- EB. unfold sum_S, sub. fold T. unfold signed. destruct Hs as [->| ->], Ht as [->| ->]; cbn; lia. }
  assert (H2 : 0 < 2 ^ k) by (apply Z.pow_pos_nonneg; unfold k, x0; lia). assert (Hn : n <> 0) by (intros E; rewrite E in En; unfold signed in En; destruct (s =? 1); lia). rewrite (proj2 (Z.eqb_neq n 0) Hn).
  assert (Hsn : b2z (n <? 0) = s /\ Z.abs n * 2 ^ k = sum_S a b sub) by (unfold signed in En; destruct Hs as [->| ->]; cbn in En; destruct (Z.ltb_spec n 0); cbn; split; nia).
  destruct Hsn as [-> EabsS]. rewrite <- EabsS. fold x1. replace x1 with (x0 - k) by (unfold k; lia). apply round_value_scale; [lia|unfold k, x0; lia].
Qed.

Section AddAll.
Context `{BfAllocator}.

(** The result of an addition: when a request for memory is refused, also a zero,
    if one of the operands is zero. *)
Definition add_post (v w : bf_val) (res : Z * bf_val) : Z * bf_t -> Prop := fun '(ret, r') =>
  op_post res (ret, r') \/ (no_memory /\ ret = 0 /\ exists s t m x, bf_repr r' (V_zero s) /\ (v = V_zero t /\ w = V_fin s m x \/ v = V_fin s m x /\ w = V_zero t)).

(** One operand is zero. *)
Lemma wp_add_zero r a s prec flags : op_args flags prec -> bf_normal (tab a) -> zlen (tab a) < 2 ^ 54 -> - 2 ^ 61 < expn a <= 2 ^ 61 - 4 -> s = 0 \/ s = 1 ->
  wp ('(_, r) ← bf_set r a; bf_normalize_and_round (mkBf s (expn r) (tab r)) prec flags)
    (fun '(ret, r') => op_post (round_value flags prec s (lval (tab a)) (expn a - 64 * zlen (tab a))) (ret, r') \/ (no_memory /\ ret = 0 /\ bf_repr r' (V_zero s))).
Proof.
  intros Hop Hn Hl He Hs. destruct (normal_pos _ Hn) as [Hz Hm]. unfold bf_set. destruct (bf_resize r (zlen (tab a))) as [ok r1] eqn:Er. destruct ok; cbn [negb].
  - apply resize_length in Er; [|lia]. rewrite wr_range_ok by lia. cbn [mbind outcome_bind]. rewrite take_0, app_nil_l, drop_ge, app_nil_r by (unfold zlen in *; lia). cbn [expn tab].
    pose proof (wp_bf_normalize_and_round (mkBf s (expn a) (tab a)) prec flags) as Hw. cbn [tab sign expn] in Hw. eapply wp_mono; [apply Hw|].
    + apply Hn.
    + by apply normal_lval.
    + lia.
    + done.
    + lia.
    + assert (Z.log2 (lval (tab a)) = 64 * zlen (tab a) - 1) as -> by (apply Z.log2_unique; [lia|]; by replace (Z.succ (64 * zlen (tab a) - 1)) with (64 * zlen (tab a)) by lia). apply op_args_round; [done|lia].
    + intros [ret r'] Hp. left. by apply round_op_post in Hp.
  - pose proof (resize_fails _ _ _ Er) as Hno. cbn [mbind outcome_bind]. unfold bf_set_nan. rewrite bf_resize_0. cbn [tab expn]. unfold bf_normalize_and_round. cbn [tab length trim_len mbind outcome_bind]. change (Z.of_nat 0 =? 0) with true. cbn iota.
    rewrite bf_resize_0. cbn [sign expn tab]. apply wp_ret. right. done.
Qed.

(** Both operands are finite and not zero. *)
Lemma wp_add_ordered r a b s t prec flags : op_args flags prec -> Z.land flags BF_FLAG_RADPNT_PREC = 0 -> bf_normal (tab a) -> bf_normal (tab b) -> zlen (tab a) < 2 ^ 54 -> zlen (tab b) < 2 ^ 54 ->
  - 2 ^ 61 < expn a <= 2 ^ 61 - 4 -> - 2 ^ 61 < expn b <= 2 ^ 61 - 4 -> s = 0 \/ s = 1 -> t = 0 \/ t = 1 -> prec <= 2 ^ 59 \/ Z.abs (expn a - expn b) <= 2 ^ 59 ->
  let va := V_fin s (lval (tab a)) (expn a - 64 * zlen (tab a)) in let vb := V_fin t (lval (tab b)) (expn b - 64 * zlen (tab b)) in
  let c := cmp_dyadic (lval (tab a)) (expn a - 64 * zlen (tab a)) (lval (tab b)) (expn b - 64 * zlen (tab b)) in
  0 <= c -> (s <> t -> c <> 0) -> wp (add_finite r a b prec flags s (b2z (negb (s =? t)))) (op_post (add_value flags prec va vb)).
Proof.
  intros Hop Hrad Ha Hb Hla Hlb Hea Heb Hs Ht Hbig va vb c Hc Hne. assert (Hle : expn b <= expn a) by (destruct (Z.le_gt_cases (expn b) (expn a)); [done|]; unfold c in Hc; rewrite exponent_order in Hc by (done || lia); lia).
  destruct (add_value_finite flags prec a b s t Ha Hb Hla Hlb ltac:(lia) Hs Ht) as [Ecmp Hval]. fold c in Ecmp. set (sub := negb (s =? t)) in *.
  pose proof (A_bounds a b (sum_d a b) (sum_T a b) Ha Hb Hla Hlb ltac:(unfold sum_d; lia) eq_refl) as HA. pose proof (B_bounds a b (sum_d a b) (sum_T a b) Ha Hb Hla Hlb ltac:(unfold sum_d; lia) eq_refl) as HB.
  assert (Hgt : sub = true -> aligned_b b (sum_d a b) (sum_T a b) < aligned a (sum_T a b)) by (unfold sub; intros E; apply negb_true_iff, Z.eqb_neq in E; specialize (Hne E); lia).
  assert (H0 : 0 <= 2 ^ (64 * sum_T a b - 1)) by (apply Z.pow_nonneg; lia). assert (HS : 0 < sum_S a b sub) by (unfold sum_S; destruct sub; [specialize (Hgt eq_refl)|]; lia).
  destruct (Hval HS) as [E1 E2]. eapply wp_mono; [apply (wp_add_finite a b prec flags s sub); try done; lia|]. intros out. by apply op_post_veq.
Qed.
End AddAll.

Lemma lxor_01 s t : s = 0 \/ s = 1 -> t = 0 \/ t = 1 -> Z.lxor s t = b2z (negb (s =? t)).
Proof. intros [->| ->] [->| ->]; done. Qed.

Lemma value_sign s m : s = 0 \/ s = 1 -> 0 < m -> b2z (signed s m <? 0) = s /\ Z.abs (signed s m) = m.
Proof. intros [->| ->] Hm; unfold signed; cbn; [destruct (Z.ltb_spec m 0)|destruct (Z.ltb_spec (- m) 0)]; cbn; lia. Qed.

(** A value with another sign. *)
Definition with_sign (s : Z) (v : bf_val) : bf_val :=
  match v with V_nan => V_nan | V_zero _ => V_zero s | V_inf _ => V_inf s | V_fin _ m x => V_fin s m x end.

Lemma wf_exp a : bf_wf a -> bf_normal (tab a) -> - 2 ^ 61 < expn a <= 2 ^ 61 - 4.
Proof. intros [_ [[E _]|(_ & He & _)]] Hn; [|done]. destruct (normal_pos _ Hn) as [Hz _]. rewrite E in Hz. done. Qed.

Lemma add_value_cancel flags prec s t m m' x x' : s = 0 \/ s = 1 -> t = 0 \/ t = 1 -> s <> t -> cmp_dyadic m x m' x' = 0 ->
  add_value flags prec (V_fin s m x) (V_fin t m' x') = (0, V_zero (b2z (Z.land flags BF_RND_MASK =? BF_RNDD))).
Proof.
  intros Hs Ht Hne Hc. unfold cmp_dyadic in Hc. apply Z.sgn_null_iff in Hc. cbn [add_value]. rewrite (proj2 (Z.eqb_eq _ 0)); [done|]. destruct Hs as [->| ->], Ht as [->| ->]; unfold signed; cbn; lia.
Qed.

Section AddInternal.
Context `{BfAllocator}.

Lemma wp_add_ordered_all r a b s t c prec flags : op_args flags prec -> Z.land flags BF_FLAG_RADPNT_PREC = 0 -> bf_wf a -> bf_wf b -> s = 0 \/ s = 1 -> t = 0 \/ t = 1 ->
  (tab a <> [] -> tab b <> [] -> prec <= 2 ^ 59 \/ Z.abs (expn a - expn b) <= 2 ^ 59) ->
  0 <= value_cmpu (bf_value a) (bf_value b) -> (c = 0 <-> value_cmpu (bf_value a) (bf_value b) = 0) ->
  let v := with_sign s (bf_value a) in let w := with_sign t (bf_value b) in
  wp (add_ordered r a b prec flags c s (b2z (negb (s =? t)))) (add_post v w (add_value flags prec v w)).
Proof.
  intros Hop Hrad Ha Hb Hs Ht Hbig Hc Hc0 v w. subst v w. unfold add_ordered.
  assert (Hret : forall v w res st r', res = (st, r') -> forall val, st = val.1 -> bf_repr r' val.2 -> wp (Ret res) (add_post v w val)) by (intros v w res st r' -> val E Hr; left; by left).
  assert (Hisub : (b2z (negb (s =? t)) =? 0) = (s =? t)) by (by destruct (s =? t)). 
  destruct (wf_cases a Ha) as [(Ea & Xa & Va)|[(Ea & Xa & Va)|[(Ea & Xa & Va)|(Na & Xa & La & Va)]]], (wf_cases b Hb) as [(Eb & Xb & Vb)|[(Eb & Xb & Vb)|[(Eb & Xb & Vb)|(Nb & Xb & Lb & Vb)]]];
    rewrite Va, Vb in *; cbn [value_cmpu] in Hc, Hc0; try lia; cbn [with_sign]; rewrite ?Ea, ?Eb, ?Xa, ?Xb, Hisub; change (zlen [] =? 0) with true; rewrite ?orb_true_r, ?orb_true_l.
  1-7: change (BF_EXP_NAN <? BF_EXP_INF) with false; change (BF_EXP_INF <? BF_EXP_INF) with false; rewrite andb_false_r; change (BF_EXP_INF <=? BF_EXP_NAN) with true; change (BF_EXP_INF <=? BF_EXP_INF) with true; cbn iota.
  1-4: change (BF_EXP_NAN =? BF_EXP_NAN) with true; cbn iota; eapply Hret; [reflexivity|reflexivity|apply repr_nan].
  1-3: change (BF_EXP_INF =? BF_EXP_NAN) with false; cbn iota.
  - change (BF_EXP_INF =? BF_EXP_INF) with true. cbn [andb add_value]. destruct (s =? t); cbn [negb]; eapply Hret; [reflexivity|reflexivity|apply repr_inf|reflexivity|reflexivity|apply repr_nan].
  - change (BF_EXP_ZERO =? BF_EXP_INF) with false. cbn [andb add_value]. eapply Hret; [reflexivity|reflexivity|apply repr_inf].
  - rewrite (proj2 (Z.eqb_neq (expn b) BF_EXP_INF)) by lia. cbn [andb add_value]. eapply Hret; [reflexivity|reflexivity|apply repr_inf].
  - change (BF_EXP_ZERO <? BF_EXP_INF) with true. rewrite (proj2 (Z.eqb_eq c 0)) by (by apply Hc0). rewrite andb_true_r. cbn [andb add_value]. destruct (s =? t); cbn [negb]; [|eapply Hret; [reflexivity|reflexivity|apply repr_zero]].
    change (BF_EXP_INF <=? BF_EXP_ZERO) with false. cbn iota. unfold bf_set. rewrite Ea. change (zlen []) with 0. rewrite bf_resize_0. cbn [negb tab]. change (wr_range [] 0 []) with (@Ret (list Z) []). cbn [mbind outcome_bind expn tab]. unfold bf_normalize_and_round. cbn [tab length trim_len mbind outcome_bind]. change (Z.of_nat 0 =? 0) with true. cbn iota.
    rewrite bf_resize_0. eapply Hret; [reflexivity|reflexivity|done].
  - rewrite (proj2 (Z.eqb_neq c 0)) by (intros E; apply Hc0 in E; done). cbn [andb]. rewrite (proj2 (Z.leb_gt BF_EXP_INF (expn a))) by lia. cbn [add_value].
    eapply wp_mono; [apply (wp_add_zero r a s); try done; by apply wf_exp|]. intros [ret r'] [Hp|(Hno & -> & Hr)]; [by left|right]. split_and!; [done..|]. do 4 eexists. split; [exact Hr|]. by right.
  - destruct (normal_pos _ Na) as [Hza _]. destruct (normal_pos _ Nb) as [Hzb _]. rewrite (proj2 (Z.eqb_neq (zlen (tab a)) 0)), (proj2 (Z.eqb_neq (zlen (tab b)) 0)), (proj2 (Z.ltb_lt (expn a) BF_EXP_INF)) by lia. rewrite andb_true_r. cbn [orb].
    assert (Hb3 : prec <= 2 ^ 59 \/ Z.abs (expn a - expn b) <= 2 ^ 59) by (apply Hbig; intros E; rewrite E in *; change (zlen []) with 0 in *; lia).
    destruct (decide (c = 0 /\ s <> t)) as [[Ec Est]|Hno].
    + rewrite (proj2 (Z.eqb_eq c 0) Ec), (proj2 (Z.eqb_neq s t) Est). cbn [andb negb]. apply Hc0 in Ec. rewrite add_value_cancel by done. eapply Hret; [reflexivity|reflexivity|apply repr_zero].
    + assert (((c =? 0) && negb (s =? t)) = false) as -> by (destruct (Z.eqb_spec c 0), (Z.eqb_spec s t); tauto).
      eapply wp_mono; [apply (wp_add_ordered r a b s t); try done; try (by apply wf_exp); intros Hne E; apply Hno; split; [by apply Hc0|done]|]. intros [ret r'] Hp. by left.
Qed.

Lemma value_cmpu_swap v w : value_cmpu w v = - value_cmpu v w.
Proof. destruct v, w; cbn; try done. apply cmp_dyadic_swap. Qed.

Lemma with_sign_self a : bf_wf a -> with_sign (sign a) (bf_value a) = bf_value a.
Proof. intros Ha. destruct (wf_cases a Ha) as [(_ & _ & ->)|[(_ & _ & ->)|[(_ & _ & ->)|(_ & _ & _ & ->)]]]; done. Qed.

Lemma add_post_comm v w res out : add_post v w res out -> add_post w v res out.
Proof. destruct out as [ret r']. intros [?|(Hno & -> & s & t & m & x & Hr & Hin)]; [by left|right]. split_and!; [done..|]. exists s, t, m, x. split; [done|]. tauto. Qed.

Lemma wp_bf_add_internal r a b prec flags neg : op_args flags prec -> Z.land flags BF_FLAG_RADPNT_PREC = 0 -> bf_wf a -> bf_wf b -> neg = 0 \/ neg = 1 ->
  (tab a <> [] -> tab b <> [] -> prec <= 2 ^ 59 \/ Z.abs (expn a - expn b) <= 2 ^ 59) ->
  let v := bf_value a in let w := with_sign (Z.lxor (sign b) neg) (bf_value b) in wp (bf_add_internal r a b prec flags neg) (add_post v w (add_value flags prec v w)).
Proof.
  intros Hop Hrad Ha Hb Hneg Hbig v w. unfold bf_add_internal. rewrite bf_cmpu_value by done. cbn [mbind outcome_bind]. pose proof (wf_sign _ Ha) as Hsa. pose proof (wf_sign _ Hb) as Hsb.
  pose proof (lxor_sign _ _ Hsb Hneg) as Ht. subst v w. set (t := Z.lxor (sign b) neg) in *. rewrite (lxor_01 (sign a) t) by done. pose proof (value_cmpu_swap (bf_value a) (bf_value b)) as Hsw. pose proof (with_sign_self a Ha) as Eself.
  destruct (Z.ltb_spec (value_cmpu (bf_value a) (bf_value b)) 0) as [Hlt|Hge].
  - pose proof (wp_add_ordered_all r b a t (sign a) (value_cmpu (bf_value a) (bf_value b)) prec flags Hop Hrad Hb Ha Ht Hsa) as Hw. cbv zeta in Hw. rewrite Eself in Hw. rewrite add_value_comm, (Z.eqb_sym (sign a) t).
    eapply wp_mono; [apply Hw; try lia; intros Hnb Hna; destruct (Hbig Hna Hnb); [by left|right; lia]|]. intros out. apply add_post_comm.
  - pose proof (wp_add_ordered_all r a b (sign a) t (value_cmpu (bf_value a) (bf_value b)) prec flags Hop Hrad Ha Hb Hsa Ht Hbig) as Hw. cbv zeta in Hw. rewrite Eself in Hw. apply Hw; lia.
Qed.
End AddInternal.

(** ** Theorems *)

Lemma with_sign_neg b : bf_wf b -> with_sign (Z.lxor (sign b) 0) (bf_value b) = bf_value b /\ with_sign (Z.lxor (sign b) 1) (bf_value b) = neg_value (bf_value b).
Proof.
  intros Hb. rewrite Z.lxor_0_r. split; [by apply with_sign_self|]. assert (Z.lxor (sign b) 1 = 1 - sign b) as -> by (by destruct (wf_sign _ Hb) as [-> | ->]).
  destruct (wf_cases b Hb) as [(_ & _ & ->)|[(_ & _ & ->)|[(_ & _ & ->)|(_ & _ & _ & ->)]]]; done.
Qed.



(** The error of [bf_set] is lost: [0 + 1] without memory is zero, with no error. *)
Example bf_add_loses_memory_error : exists r', bf_add (H := no_growth) false bf_init (mkBf 0 BF_EXP_ZERO []) (mkBf 0 1 [2 ^ 63]) 53 BF_RNDN = Ret (0, r') /\ tab r' = [] /\ expn r' = BF_EXP_ZERO.
Proof. eexists. split_and!; vm_compute; reflexivity. Qed.
