(* ===== verification/AtomTable.v ===== *)
(** * Atoms: the table ([quickjs.c])

    An atom is an index into [atom_array], or an integer with its top bit set.
    The array holds the strings of the atoms; the entries that are not in use
    form a list.  Strings and [Symbol.for] symbols are in a hash table too, in
    chains through [hash_next], so that equal strings are one atom.  The heap
    maps the addresses of the strings (atoms or not) to their structures; a
    read of one that has been released is a fault.  [DUMP_LEAKS] is not
    defined. *)

From S2P Require Import Prelude Cutils JsValues.
From stdpp Require Export gmap.
#[global] Open Scope Z_scope.

Definition ptr := positive.

(** [JSString], alias [JSAtomStruct]: [text] has [is_wide_char], [len] and the
    units. *)
Record JSAtomStruct := mkStruct { ref_count : Z; text : JSString; hash : Z; atom_type : Z; hash_next : Z }.

Definition JS_ATOM_TYPE_STRING : Z := 1.
Definition JS_ATOM_TYPE_GLOBAL_SYMBOL : Z := 2.
Definition JS_ATOM_TYPE_SYMBOL : Z := 3.
Definition JS_ATOM_TYPE_PRIVATE : Z := 4.
Definition JS_ATOM_HASH_SYMBOL : Z := 0.
Definition JS_ATOM_HASH_PRIVATE : Z := 1.
Definition JS_ATOM_HASH_MASK : Z := Z.shiftl 1 30 - 1.
Definition JS_ATOM_NULL : Z := 0.
Definition JS_ATOM_TAG_INT : Z := Z.shiftl 1 31.
Definition JS_ATOM_MAX_INT : Z := JS_ATOM_TAG_INT - 1.
Definition JS_ATOM_MAX : Z := Z.shiftl 1 30 - 1.
Definition JS_ATOM_COUNT_RESIZE (n : Z) : Z := i32 (n * 2).

Inductive JSAtomKindEnum := JS_ATOM_KIND_STRING | JS_ATOM_KIND_SYMBOL | JS_ATOM_KIND_PRIVATE.

(** An entry of [atom_array]: a string, the next free index (an odd pointer), or
    a cell that [realloc] has not initialised. *)
Inductive slot := Undef | Free (next : Z) | Atom (p : ptr).

#[export] Instance slot_eq_dec : EqDecision slot.
Proof. solve_decision. Defined.

Definition atom_is_free (s : slot) : outcome bool :=
  match s with Undef => Fault Uninitialised | Free _ => Ret true | Atom _ => Ret false end.
Definition atom_get_free (s : slot) : outcome Z :=
  match s with Free v => Ret v | _ => Fault Uninitialised end.
Definition atom_set_free (v : Z) : slot := Free v.

Record JSRuntime := mkRT {
  strings : gmap ptr JSAtomStruct;
  atom_hash_size : Z;
  atom_count : Z;
  atom_size : Z;
  atom_count_resize : Z;
  atom_hash : list Z;
  atom_array : list slot;
  atom_free_index : Z;
}.

Definition set_strings (rt : JSRuntime) (m : gmap ptr JSAtomStruct) : JSRuntime :=
  mkRT m (atom_hash_size rt) (atom_count rt) (atom_size rt) (atom_count_resize rt) (atom_hash rt) (atom_array rt) (atom_free_index rt).
Definition set_hash (rt : JSRuntime) (t : list Z) : JSRuntime :=
  mkRT (strings rt) (atom_hash_size rt) (atom_count rt) (atom_size rt) (atom_count_resize rt) t (atom_array rt) (atom_free_index rt).
Definition set_array (rt : JSRuntime) (a : list slot) (free : Z) : JSRuntime :=
  mkRT (strings rt) (atom_hash_size rt) (atom_count rt) (atom_size rt) (atom_count_resize rt) (atom_hash rt) a free.
Definition set_count (rt : JSRuntime) (n : Z) : JSRuntime :=
  mkRT (strings rt) (atom_hash_size rt) n (atom_size rt) (atom_count_resize rt) (atom_hash rt) (atom_array rt) (atom_free_index rt).

Definition get_str (rt : JSRuntime) (p : ptr) : outcome JSAtomStruct :=
  match strings rt !! p with Some s => Ret s | None => Fault Uninitialised end.
Definition set_str (rt : JSRuntime) (p : ptr) (s : JSAtomStruct) : JSRuntime := set_strings rt (<[p := s]> (strings rt)).
Definition with_refs (s : JSAtomStruct) (n : Z) : JSAtomStruct := mkStruct n (text s) (hash s) (atom_type s) (hash_next s).
Definition with_next (s : JSAtomStruct) (i : Z) : JSAtomStruct := mkStruct (ref_count s) (text s) (hash s) (atom_type s) i.
Definition add_ref (rt : JSRuntime) (p : ptr) (d : Z) : outcome JSRuntime :=
  s ← get_str rt p; Ret (set_str rt p (with_refs s (ref_count s + d))).

(** [rt->atom_array[i]] where the code uses it as a string. *)
Definition get_atom (rt : JSRuntime) (i : Z) : outcome ptr :=
  s ← rd (atom_array rt) i;
  match s with Atom p => Ret p | _ => Fault Uninitialised end.

(** ** The predefined atoms ([quickjs-atom.h]) *)

Class AtomConfig := { CONFIG_BIGNUM : bool; CONFIG_ATOMICS : bool; CONFIG_JSX : bool }.

Section Names.
Context `{AtomConfig}.
Local Definition D (s : string) : string * string := (s, s).

(** The identifiers and the texts. *)
Definition js_atom_init : list (string * string) :=
    [D "null"; D "false"; D "true"; D "if"; D "else"; D "return"; D "var"; D "this"; D "delete"; D "void"; D "typeof";
      D "new"; D "in"; D "instanceof"; D "do"; D "while"; D "for"; D "break"; D "continue"; D "switch"; D "case"; D "default";
      D "throw"; D "try"; D "catch"; D "finally"; D "function"; D "debugger"; D "with"; D "class"; D "const"; D "enum";
      D "export"; D "extends"; D "import"; D "super"; D "implements"; D "interface"; D "let"; D "package"; D "private";
      D "protected"; D "public"; D "static"; D "yield"; D "await"; ("empty_string", "")%string; D "length"; D "fileName";
      D "lineNumber"; D "message"; D "errors"; D "stack"; D "name"; D "toString"; D "toLocaleString"; D "valueOf"; D "eval";
      D "prototype"; D "constructor"; D "configurable"; D "writable"; D "enumerable"; D "value"; D "get"; D "set"; D "of";
      D "__proto__"; D "undefined"; D "number"; D "boolean"; D "string"; D "object"; D "symbol"; D "integer"; D "unknown";
      D "arguments"; D "callee"; D "caller"; ("_eval_", "<eval>")%string; ("_ret_", "<ret>")%string; ("_var_", "<var>")%string;
      ("_with_", "<with>")%string; D "lastIndex"; D "target"; D "index"; D "input"; D "defineProperties"; D "apply"; D "join";
      D "concat"; D "split"; D "construct"; D "getPrototypeOf"; D "setPrototypeOf"; D "isExtensible"; D "preventExtensions";
      D "has"; D "deleteProperty"; D "defineProperty"; D "getOwnPropertyDescriptor"; D "ownKeys"; D "add"; D "done"; D "next";
      D "values"; D "source"; D "flags"; D "global"; D "unicode"; D "raw"; ("new_target", "new.target")%string;
      ("this_active_func", "this.active_func")%string; ("home_object", "<home_object>")%string; ("computed_field", "<computed_field>")%string;
      ("static_computed_field", "<static_computed_field>")%string; ("class_fields_init", "<class_fields_init>")%string;
      ("brand", "<brand>")%string; ("hash_constructor", "#constructor")%string; D "as"; D "from"; D "meta"; ("_default_", "*default*")%string;
      ("_star_", "*")%string; D "Module"; D "then"; D "resolve"; D "reject"; D "promise"; D "proxy"; D "revoke"; D "async"; D "exec";
      D "groups"; D "status"; D "reason"; D "globalThis"] ++
    (if CONFIG_BIGNUM then [D "bigint"; D "bigfloat"; D "bigdecimal"; D "roundingMode"; D "maximumSignificantDigits"; D "maximumFractionDigits"] else []) ++
    (if CONFIG_ATOMICS then [("not_equal", "not-equal")%string; ("timed_out", "timed-out")%string; D "ok"] else []) ++
    [D "toJSON"; D "Object"; D "Array"; D "Error"; D "Number"; D "String"; D "Boolean"; D "Symbol"; D "Arguments"; D "Math";
      D "JSON"; D "Date"; D "Function"; D "GeneratorFunction"; D "ForInIterator"; D "RegExp"; D "ArrayBuffer";
      D "SharedArrayBuffer"; D "Uint8ClampedArray"; D "Int8Array"; D "Uint8Array"; D "Int16Array"; D "Uint16Array";
      D "Int32Array"; D "Uint32Array"] ++
    (if CONFIG_BIGNUM then [D "BigInt64Array"; D "BigUint64Array"] else []) ++
    [D "Float32Array"; D "Float64Array"; D "DataView"] ++
    (if CONFIG_BIGNUM then [D "BigInt"; D "BigFloat"; D "BigFloatEnv"; D "BigDecimal"; D "OperatorSet"; D "Operators"] else []) ++
    (if CONFIG_JSX then [D "JSX"] else []) ++
    [D "Map"; D "Set"; D "WeakMap"; D "WeakSet"; ("Map_Iterator", "Map Iterator")%string; ("Set_Iterator", "Set Iterator")%string;
      ("Array_Iterator", "Array Iterator")%string; ("String_Iterator", "String Iterator")%string;
      ("RegExp_String_Iterator", "RegExp String Iterator")%string; D "Generator"; D "Proxy"; D "Promise"; D "PromiseResolveFunction";
      D "PromiseRejectFunction"; D "AsyncFunction"; D "AsyncFunctionResolve"; D "AsyncFunctionReject";
      D "AsyncGeneratorFunction"; D "AsyncGenerator"; D "EvalError"; D "RangeError"; D "ReferenceError"; D "SyntaxError";
      D "TypeError"; D "URIError"; D "InternalError"; ("Private_brand", "<brand>")%string;
      ("Symbol_toPrimitive", "Symbol.toPrimitive")%string; ("Symbol_iterator", "Symbol.iterator")%string; ("Symbol_match", "Symbol.match")%string;
      ("Symbol_matchAll", "Symbol.matchAll")%string; ("Symbol_replace", "Symbol.replace")%string; ("Symbol_search", "Symbol.search")%string;
      ("Symbol_split", "Symbol.split")%string; ("Symbol_toStringTag", "Symbol.toStringTag")%string;
      ("Symbol_isConcatSpreadable", "Symbol.isConcatSpreadable")%string; ("Symbol_hasInstance", "Symbol.hasInstance")%string;
      ("Symbol_species", "Symbol.species")%string; ("Symbol_unscopables", "Symbol.unscopables")%string;
      ("Symbol_asyncIterator", "Symbol.asyncIterator")%string] ++
    (if CONFIG_BIGNUM then [("Symbol_operatorSet", "Symbol.operatorSet")%string] else []).

(** [JS_ATOM_x] *)
Fixpoint atom_position (x : string) (l : list (string * string)) : Z :=
  match l with
  | [] => 1
  | (y, _) :: l => if String.eqb x y then 1 else 1 + atom_position x l
  end.
Definition JS_ATOM (x : string) : Z := atom_position x js_atom_init.
Definition JS_ATOM_END : Z := 1 + zlen js_atom_init.
Definition JS_ATOM_empty_string : Z := JS_ATOM "empty_string".
Definition JS_ATOM_Private_brand : Z := JS_ATOM "Private_brand".
Definition JS_ATOM_Symbol_toPrimitive : Z := JS_ATOM "Symbol_toPrimitive".

Definition __JS_AtomIsConst (v : Z) : bool := i32 v <? JS_ATOM_END.
End Names.

Definition __JS_AtomIsTaggedInt (v : Z) : bool := negb (Z.land v JS_ATOM_TAG_INT =? 0).
Definition __JS_AtomFromUInt32 (v : Z) : Z := Z.lor v JS_ATOM_TAG_INT.
Definition __JS_AtomToUInt32 (atom : Z) : Z := Z.land atom (JS_ATOM_TAG_INT - 1).

(** ** Numbers *)

Definition is_num (c : Z) : bool := (ch "0" <=? c) && (c <=? ch "9").

(** The digits after the first one. *)
Fixpoint is_num_loop (l : list Z) (n : Z) : option Z :=
  match l with
  | [] => Some n
  | c :: l =>
      if negb (is_num c) then None
      else
        let n64 := n * 10 + (c - ch "0") in
        if negb (Z.shiftr n64 32 =? 0) then None else is_num_loop l n64
  end.

(** [is_num_string(&n, p)] *)
Definition is_num_string (p : JSString) : option Z :=
  if (zlen (units p) =? 0) || (10 <? zlen (units p)) then None
  else
    match units p with
    | [] => None
    | c :: l =>
        if is_num c then
          if c =? ch "0" then if negb (zlen (units p) =? 1) then None else Some 0
          else is_num_loop l (c - ch "0")
        else None
    end.

(** [snprintf(buf, _, "%u", n)]: the digits of the C library. *)
Fixpoint digits (fuel : nat) (n : Z) (acc : list Z) : list Z :=
  match fuel with
  | O => acc
  | S fuel =>
      let acc := (ch "0" + n mod 10) :: acc in
      if n / 10 =? 0 then acc else digits fuel (n / 10) acc
  end.
Definition print_u (n : Z) : list Z := digits 20 n [].
(** [snprintf(buf, _, "%" PRId64, n)] *)
Definition print_d (n : Z) : list Z := if n <? 0 then ch "-" :: print_u (- n) else print_u n.

(** ** Memory *)

(** The addresses of new strings, and the growth of the two arrays, by their
    sizes in bytes; any request may be refused. *)
Class AtomAllocator := {
  string_alloc : gmap ptr JSAtomStruct -> Z -> option ptr;
  string_fresh : forall m n p, string_alloc m n = Some p -> m !! p = None;
  array_realloc : gmap ptr JSAtomStruct -> Z -> bool;
  hash_alloc : gmap ptr JSAtomStruct -> Z -> bool;
}.

Definition sizeof_text (t : JSString) : Z :=
  sizeof_JSString + Z.shiftl (zlen (units t)) (b2z (is_wide_char t)) + 1 - b2z (is_wide_char t).

(** The length of the loops over a chain. *)
Definition chain_fuel (rt : JSRuntime) : nat := S (length (atom_array rt)).

Section Table.
Context `{AtomConfig} `{AtomAllocator}.

(** [js_alloc_string_rt(rt, max_len, is_wide_char)] with the copy of the text
    that each caller makes. *)
Definition js_alloc_string_rt (rt : JSRuntime) (t : JSString) : option (ptr * JSRuntime) :=
  match string_alloc (strings rt) (sizeof_text t) with
  | None => None
  | Some p => Some (p, set_str rt p (mkStruct 1 t 0 0 0))
  end.

(** ** Atoms that are released *)

(** The chain of [p] from the entry [i], of string [p1], that is not [p]. *)
Definition unchain (rt : JSRuntime) (p : ptr) (i : Z) (p1 : ptr) : outcome (Z * JSRuntime) :=
  loop (chain_fuel rt) (fun '(i, p1) =>
    _ ← c_assert (negb (i =? 0));
    let p0 := p1 in
    s1 ← get_str rt p1;
    let i := hash_next s1 in
    p1 ← get_atom rt i;
    if decide (p1 = p) then
      s1 ← get_str rt p1;
      s0 ← get_str rt p0;
      Ret (inr (i, set_str rt p0 (with_next s0 (hash_next s1))))
    else Ret (inl (i, p1))) (i, p1).

(** The index of [p], that leaves its chain. *)
Definition unhash (rt : JSRuntime) (p : ptr) : outcome (Z * JSRuntime) :=
  s ← get_str rt p;
  if negb (atom_type s =? JS_ATOM_TYPE_SYMBOL) then
    let h0 := Z.land (hash s) (u32 (atom_hash_size rt - 1)) in
    i ← rd (atom_hash rt) h0;
    p1 ← get_atom rt i;
    if decide (p1 = p) then
      s1 ← get_str rt p1;
      t ← wr (atom_hash rt) h0 (hash_next s1);
      Ret (i, set_hash rt t)
    else unchain rt p i p1
  else Ret (hash_next s, rt).

(** [JS_FreeAtomStruct(rt, p)] *)
Definition JS_FreeAtomStruct (rt : JSRuntime) (p : ptr) : outcome JSRuntime :=
  '(i, rt) ← unhash rt p;
  a ← wr (atom_array rt) i (atom_set_free (atom_free_index rt));
  let rt := set_array rt a i in
  let rt := set_strings rt (delete p (strings rt)) in
  let rt := set_count rt (atom_count rt - 1) in
  _ ← c_assert (0 <=? atom_count rt);
  Ret rt.

(** [js_free_string(rt, str)] *)
Definition js_free_string (rt : JSRuntime) (p : ptr) : outcome JSRuntime :=
  rt ← add_ref rt p (-1);
  s ← get_str rt p;
  if ref_count s <=? 0 then
    if negb (atom_type s =? 0) then JS_FreeAtomStruct rt p
    else Ret (set_strings rt (delete p (strings rt)))
  else Ret rt.

Definition free_string_opt (rt : JSRuntime) (str : option ptr) : outcome JSRuntime :=
  match str with Some p => js_free_string rt p | None => Ret rt end.

(** [__JS_FreeAtom(rt, i)] *)
Definition __JS_FreeAtom (rt : JSRuntime) (i : Z) : outcome JSRuntime :=
  p ← get_atom rt i;
  rt ← add_ref rt p (-1);
  s ← get_str rt p;
  if 0 <? ref_count s then Ret rt else JS_FreeAtomStruct rt p.

(** [JS_FreeAtom(ctx, v)] and [JS_FreeAtomRT(rt, v)] *)
Definition JS_FreeAtom (rt : JSRuntime) (v : Z) : outcome JSRuntime :=
  if negb (__JS_AtomIsConst v) then __JS_FreeAtom rt v else Ret rt.

(** [JS_DupAtom(ctx, v)] and [JS_DupAtomRT(rt, v)] *)
Definition JS_DupAtom (rt : JSRuntime) (v : Z) : outcome (Z * JSRuntime) :=
  if negb (__JS_AtomIsConst v) then
    p ← get_atom rt v;
    rt ← add_ref rt p 1;
    Ret (v, rt)
  else Ret (v, rt).

(** ** The hash table *)

(** The entries of one chain go to the new table. *)
Definition rehash_chain (rt : JSRuntime) (new_hash_mask h : Z) (new_hash : list Z) : outcome (JSRuntime * list Z) :=
  loop (chain_fuel rt) (fun '(h, rt, new_hash) =>
    if h =? 0 then Ret (inr (rt, new_hash))
    else
      p ← get_atom rt h;
      s ← get_str rt p;
      let hash_next1 := hash_next s in
      let j := Z.land (hash s) new_hash_mask in
      n ← rd new_hash j;
      let rt := set_str rt p (with_next s n) in
      new_hash ← wr new_hash j h;
      Ret (inl (hash_next1, rt, new_hash))) (h, rt, new_hash).

(** [JS_ResizeAtomHash(rt, new_hash_size)]: false for -1. *)
Definition JS_ResizeAtomHash (rt : JSRuntime) (new_hash_size : Z) : outcome (bool * JSRuntime) :=
  _ ← c_assert (Z.land new_hash_size (new_hash_size - 1) =? 0);
  let new_hash_mask := u32 (new_hash_size - 1) in
  if hash_alloc (strings rt) (4 * new_hash_size) then
    '(rt, new_hash) ← foldM (fun '(rt, new_hash) (i : nat) =>
        h ← rd (atom_hash rt) (Z.of_nat i);
        rehash_chain rt new_hash_mask h new_hash)
      (rt, replicate (Z.to_nat new_hash_size) 0) (seq 0 (Z.to_nat (atom_hash_size rt)));
    Ret (true, mkRT (strings rt) new_hash_size (atom_count rt) (atom_size rt) (JS_ATOM_COUNT_RESIZE new_hash_size)
                    new_hash (atom_array rt) (atom_free_index rt))
  else Ret (false, rt).

(** [js_get_atom_index(rt, p)] *)
Definition js_get_atom_index (rt : JSRuntime) (p : ptr) : outcome Z :=
  s ← get_str rt p;
  if negb (atom_type s =? JS_ATOM_TYPE_SYMBOL) then
    i ← rd (atom_hash rt) (Z.land (hash s) (u32 (atom_hash_size rt - 1)));
    p1 ← get_atom rt i;
    loop (chain_fuel rt) (fun '(i, p1) =>
      if decide (p1 = p) then Ret (inr i)
      else
        _ ← c_assert (negb (i =? 0));
        s1 ← get_str rt p1;
        let i := hash_next s1 in
        p1 ← get_atom rt i;
        Ret (inl (i, p1))) (i, p1)
  else Ret (hash_next s).

(** The search of a chain for an entry that satisfies a test. *)
Definition find_in_chain (rt : JSRuntime) (i : Z) (test : JSAtomStruct -> outcome bool) : outcome (option (Z * ptr)) :=
  loop (chain_fuel rt) (fun i =>
    if i =? 0 then Ret (inr None)
    else
      p ← get_atom rt i;
      s ← get_str rt p;
      b ← test s;
      if (b : bool) then Ret (inr (Some (i, p))) else Ret (inl (hash_next s))) i.

(** ** New atoms *)

(** [max_int(211, rt->atom_size * 3 / 2)] *)
Definition grown_size (size : Z) : Z := Bits.max_int 211 (Z.quot (i32 (size * 3)) 2).

(** The new entries become a list of free entries. *)
Definition link_free (a : list slot) (start new_size : Z) : outcome (list slot) :=
  foldM (fun a (k : nat) =>
    let i := start + Z.of_nat k in
    let next := if i =? new_size - 1 then 0 else i + 1 in
    wr a i (atom_set_free next)) a (seq 0 (Z.to_nat (new_size - start))).

(** The growth of [atom_array], false when it fails. *)
Definition grow_atom_array (rt : JSRuntime) : outcome (bool * JSRuntime) :=
  let new_size := grown_size (atom_size rt) in
  if JS_ATOM_MAX <? new_size then Ret (false, rt)
  else if array_realloc (strings rt) (8 * new_size) then
    let new_array := take (Z.to_nat new_size) (atom_array rt) ++
                     replicate (Z.to_nat (new_size - zlen (atom_array rt))) Undef in
    let start := atom_size rt in
    if start =? 0 then
      (* JS_ATOM_NULL entry *)
      match string_alloc (strings rt) sizeof_JSString with
      | None => Ret (false, rt)
      | Some p =>
          let rt := set_str rt p (mkStruct 1 (mkString false []) 0 JS_ATOM_TYPE_SYMBOL 0) in
          new_array ← wr new_array 0 (Atom p);
          a ← link_free new_array 1 new_size;
          Ret (true, mkRT (strings rt) (atom_hash_size rt) (atom_count rt + 1) new_size (atom_count_resize rt) (atom_hash rt) a 1)
      end
    else
      a ← link_free new_array start new_size;
      Ret (true, mkRT (strings rt) (atom_hash_size rt) (atom_count rt) new_size (atom_count_resize rt) (atom_hash rt) a start)
  else Ret (false, rt).

(** The string of the new atom: [str] itself, if it is not an atom yet, else a
    copy; without [str] an empty wide string. *)
Definition atom_string (rt : JSRuntime) (str : option ptr) : outcome (option (ptr * JSRuntime)) :=
  match str with
  | Some q =>
      s ← get_str rt q;
      if atom_type s =? 0 then Ret (Some (q, rt))
      else
        match string_alloc (strings rt) (sizeof_text (text s)) with
        | None => Ret None
        | Some p =>
            let rt := set_str rt p (mkStruct 1 (text s) 0 0 0) in
            rt ← js_free_string rt q;
            Ret (Some (p, rt))
        end
  | None =>
      match string_alloc (strings rt) sizeof_JSString with
      | None => Ret None
      | Some p => Ret (Some (p, set_str rt p (mkStruct 1 (mkString true []) 0 0 0)))
      end
  end.

(** The new entry of the table. *)
Definition insert_atom (rt : JSRuntime) (p : ptr) (h h1 atom_type : Z) : outcome (Z * JSRuntime) :=
  let i := atom_free_index rt in
  sl ← rd (atom_array rt) i;
  free ← atom_get_free sl;
  a ← wr (atom_array rt) i (Atom p);
  let rt := set_array rt a free in
  s ← get_str rt p;
  let rt := set_count rt (atom_count rt + 1) in
  if negb (atom_type =? JS_ATOM_TYPE_SYMBOL) then
    n ← rd (atom_hash rt) h1;
    let rt := set_str rt p (mkStruct (ref_count s) (text s) h atom_type n) in
    t ← wr (atom_hash rt) h1 i;
    let rt := set_hash rt t in
    if atom_count_resize rt <=? atom_count rt then
      '(_, rt) ← JS_ResizeAtomHash rt (i32 (atom_hash_size rt * 2));
      Ret (i, rt)
    else Ret (i, rt)
  else Ret (i, set_str rt p (mkStruct (ref_count s) (text s) h atom_type i)).

(** The rest of [__JS_NewAtom] when no atom has been found. *)
Definition new_entry (rt : JSRuntime) (str : option ptr) (h h1 atom_type : Z) : outcome (Z * JSRuntime) :=
  '(ok, rt) ← (if atom_free_index rt =? 0 then grow_atom_array rt else Ret (true, rt));
  if negb ok then rt ← free_string_opt rt str; Ret (JS_ATOM_NULL, rt)
  else
    r ← atom_string rt str;
    match r with
    | None => rt ← free_string_opt rt str; Ret (JS_ATOM_NULL, rt)
    | Some (p, rt) => insert_atom rt p h h1 atom_type
    end.

(** [__JS_NewAtom(rt, str, atom_type)] *)
Definition __JS_NewAtom (rt : JSRuntime) (str : option ptr) (ty : Z) : outcome (Z * JSRuntime) :=
  if ty <? JS_ATOM_TYPE_SYMBOL then
    match str with
    | None => Fault NullDeref
    | Some q =>
        s ← get_str rt q;
        if atom_type s =? ty then
          i ← js_get_atom_index rt q;
          if __JS_AtomIsConst i then rt ← add_ref rt q (-1); Ret (i, rt) else Ret (i, rt)
        else
          let len := zlen (units (text s)) in
          let h := Z.land (hash_string (text s) ty) JS_ATOM_HASH_MASK in
          let h1 := Z.land h (u32 (atom_hash_size rt - 1)) in
          i ← rd (atom_hash rt) h1;
          r ← find_in_chain rt i (fun s1 =>
            if (hash s1 =? h) && (atom_type s1 =? ty) && (zlen (units (text s1)) =? len)
            then c ← js_string_memcmp (text s1) (text s) len; Ret (c =? 0)
            else Ret false);
          match r with
          | Some (i, p) =>
              rt ← (if negb (__JS_AtomIsConst i) then add_ref rt p 1 else Ret rt);
              rt ← js_free_string rt q;
              Ret (i, rt)
          | None => new_entry rt str h h1 ty
          end
    end
  else if ty =? JS_ATOM_TYPE_SYMBOL then new_entry rt str JS_ATOM_HASH_SYMBOL 0 ty
  else new_entry rt str JS_ATOM_HASH_PRIVATE 0 JS_ATOM_TYPE_SYMBOL.

(** [__JS_NewAtomInit(rt, str, len, atom_type)] *)
Definition __JS_NewAtomInit (rt : JSRuntime) (s : list Z) (ty : Z) : outcome (Z * JSRuntime) :=
  match js_alloc_string_rt rt (mkString false s) with
  | None => Ret (JS_ATOM_NULL, rt)
  | Some (p, rt) => __JS_NewAtom rt (Some p) ty
  end.

(** [__JS_FindAtom(rt, str, len, atom_type)]; [memcmp] of equal lengths. *)
Definition __JS_FindAtom (rt : JSRuntime) (s : list Z) : outcome (Z * JSRuntime) :=
  let h := Z.land (hash_string16 s JS_ATOM_TYPE_STRING) JS_ATOM_HASH_MASK in
  i ← rd (atom_hash rt) (Z.land h (u32 (atom_hash_size rt - 1)));
  r ← find_in_chain rt i (fun s1 =>
    if (hash s1 =? h) && (atom_type s1 =? JS_ATOM_TYPE_STRING) && (zlen (units (text s1)) =? zlen s) &&
       negb (is_wide_char (text s1))
    then c ← memcmp16 (units (text s1)) s (length s); Ret (c =? 0)
    else Ret false);
  match r with
  | Some (i, p) =>
      rt ← (if negb (__JS_AtomIsConst i) then add_ref rt p 1 else Ret rt);
      Ret (i, rt)
  | None => Ret (JS_ATOM_NULL, rt)
  end.

(** ** The start and the end of a runtime *)

Definition init_type (i : Z) : Z :=
  if i =? JS_ATOM_Private_brand then JS_ATOM_TYPE_PRIVATE
  else if JS_ATOM_Symbol_toPrimitive <=? i then JS_ATOM_TYPE_SYMBOL
  else JS_ATOM_TYPE_STRING.

(** One name of [js_atom_init]. *)
Fixpoint init_names (rt : JSRuntime) (i : Z) (l : list (string * string)) : outcome (bool * JSRuntime) :=
  match l with
  | [] => Ret (true, rt)
  | (_, name) :: l =>
      '(a, rt) ← __JS_NewAtomInit rt (str name) (init_type i);
      if a =? JS_ATOM_NULL then Ret (false, rt) else init_names rt (i + 1) l
  end.

(** [JS_InitAtoms(rt)]: false for -1. *)
Definition JS_InitAtoms (m : gmap ptr JSAtomStruct) : outcome (bool * JSRuntime) :=
  let rt := mkRT m 0 0 0 0 [] [] 0 in
  '(ok, rt) ← JS_ResizeAtomHash rt 256;
  if negb ok then Ret (false, rt) else init_names rt 1 js_atom_init.

(** The strings of the atoms are released with the runtime ([JS_FreeRuntime]). *)
Definition free_atoms (rt : JSRuntime) : outcome JSRuntime :=
  foldM (fun rt (i : nat) =>
    sl ← rd (atom_array rt) (Z.of_nat i);
    b ← atom_is_free sl;
    if (b : bool) then Ret rt
    else
      p ← get_atom rt (Z.of_nat i);
      _ ← get_str rt p;
      Ret (set_strings rt (delete p (strings rt)))) rt (seq 0 (Z.to_nat (atom_size rt))).
End Table.
