(* ===== verification/AtomInv.v ===== *)
(** * Atoms: the invariant of the table

    The chains of the hash table and the list of the free entries are ghost
    lists of indices.  [view] is the heap without the links of the hash table:
    what the operations do is stated on it. *)

From S2P Require Import Prelude Cutils JsValues AtomTable.

(** ** Chains of indices *)

Fixpoint linked (nx : Z -> option Z) (h : Z) (l : list Z) : Prop :=
  match l with
  | [] => h = 0
  | i :: l => h = i /\ i <> 0 /\ exists n, nx i = Some n /\ linked nx n l
  end.

Lemma linked_ext nx nx' l : forall h, (forall i, i ∈ l -> nx' i = nx i) -> linked nx h l -> linked nx' h l.
Proof.
  induction l as [|i l IH]; intros h Hx; [done|]. intros (-> & Hi & n & E & Hl). split_and!; [done..|]. exists n.
  split; [rewrite Hx; [done|by constructor]|]. apply IH; [|done]. intros j Hj. apply Hx. by constructor.
Qed.

Lemma linked_app nx l1 i l2 : forall h, linked nx h (l1 ++ i :: l2) -> linked nx i (i :: l2).
Proof.
  induction l1 as [|j l1 IH]; intros h; cbn [app].
  - intros (-> & Hi & Hl). by split.
  - intros (-> & Hi & n & _ & Hl). eauto.
Qed.

Lemma linked_det nx l : forall h l', linked nx h l -> linked nx h l' -> l = l'.
Proof.
  induction l as [|i l IH]; intros h [|i' l']; cbn; [done|naive_solver..|].
  intros (-> & Hi & n & E & Hl) (<- & _ & n' & E' & Hl'). f_equal. rewrite E in E'. injection E' as <-. eauto.
Qed.

Lemma linked_NoDup nx l : forall h, linked nx h l -> NoDup l.
Proof.
  induction l as [|i l IH]; intros h Hl; [constructor|]. pose proof Hl as Hl0. destruct Hl as (-> & Hi & n & E & Hl). constructor; [|eauto].
  intros (l1 & l2 & ->)%list_elem_of_split.
  pose proof (linked_app nx (i :: l1) i l2 i Hl0) as H2. pose proof (linked_det _ _ _ _ Hl0 H2) as [= Hlen%(f_equal length)].
  rewrite length_app in Hlen. cbn in Hlen. lia.
Qed.

Lemma linked_some nx l : forall h i, linked nx h l -> i ∈ l -> is_Some (nx i) /\ i <> 0.
Proof.
  induction l as [|j l IH]; intros h i; [by intros _ ?%not_elem_of_nil|]. intros (-> & Hj & n & E & Hl) [->|Hi]%elem_of_cons; [by rewrite E|eauto].
Qed.

(** The element after [p0] leaves the chain. *)
Lemma linked_remove nx nx' l1 p0 i l2 : forall h, linked nx h (l1 ++ p0 :: i :: l2) -> nx' p0 = nx i ->
  (forall j, j ∈ l1 ++ l2 -> nx' j = nx j) -> linked nx' h (l1 ++ p0 :: l2).
Proof.
  induction l1 as [|j l1 IH]; intros h; cbn [app].
  - intros (-> & Hp & n & E & -> & Hi & n' & E' & Hl) Hx Hj. split_and!; [done..|]. exists n'. split; [by rewrite Hx|]. by eapply linked_ext.
  - intros (-> & Hj & n & E & Hl) Hx Hk. split_and!; [done..|]. exists n. split; [rewrite Hk; [done|by constructor]|].
    apply IH; [done..|]. intros k H. apply Hk. by constructor.
Qed.

(** ** Entries *)

Definition slot_at (a : list slot) (i : Z) : option slot := if i <? 0 then None else a !! Z.to_nat i.

Lemma rd_slot a i sl : slot_at a i = Some sl -> rd a i = Ret sl.
Proof. unfold slot_at, rd. destruct (i <? 0); [done|]. by intros ->. Qed.

Lemma atom_slot_bounds a i sl : slot_at a i = Some sl -> 0 <= i < zlen a.
Proof. unfold slot_at. destruct (Z.ltb_spec i 0); [done|]. intros Hl%lookup_lt_Some. unfold zlen. lia. Qed.

Lemma slot_some a i : 0 <= i < zlen a -> exists sl, slot_at a i = Some sl.
Proof.
  unfold slot_at, zlen. intros Hi. rewrite (proj2 (Z.ltb_ge i 0)) by lia. apply lookup_lt_is_Some_2. lia.
Qed.

Lemma slot_at_insert a i sl j : 0 <= i < zlen a -> slot_at (<[Z.to_nat i := sl]> a) j = if j =? i then Some sl else slot_at a j.
Proof.
  unfold slot_at, zlen. intros Hi. destruct (Z.eqb_spec j i) as [->|Hj].
  - rewrite (proj2 (Z.ltb_ge i 0)) by lia. rewrite list_lookup_insert_eq by lia. done.
  - destruct (Z.ltb_spec j 0); [done|]. rewrite list_lookup_insert_ne by lia. done.
Qed.

(** A list of different indices is no longer than the array. *)
Lemma indices_length a l : NoDup l -> (forall i, i ∈ l -> is_Some (slot_at a i)) -> (length l <= length a)%nat.
Proof.
  intros Hnd Hl. rewrite <- (length_fmap Z.to_nat l), <- (length_seq (length a) 0). apply submseteq_length, NoDup_submseteq.
  - apply NoDup_fmap_2_strong; [|done]. intros i j Hi Hj E. destruct (Hl i Hi) as [x Hx%atom_slot_bounds], (Hl j Hj) as [y Hy%atom_slot_bounds]. lia.
  - intros n (i & -> & Hi)%list_elem_of_fmap. apply elem_of_seq. destruct (Hl i Hi) as [x Hx%atom_slot_bounds]. unfold zlen in Hx. lia.
Qed.

Lemma get_str_ok rt p s : strings rt !! p = Some s -> get_str rt p = Ret s.
Proof. unfold get_str. by intros ->. Qed.

Lemma get_atom_ok rt i p : slot_at (atom_array rt) i = Some (Atom p) -> get_atom rt i = Ret p.
Proof. unfold get_atom. intros Hs. by rewrite (rd_slot _ _ _ Hs). Qed.

Lemma wp_get_str rt p s Q : strings rt !! p = Some s -> Q s -> wp (get_str rt p) Q.
Proof. unfold get_str. by intros ->. Qed.

Lemma wp_get_atom rt i p Q : slot_at (atom_array rt) i = Some (Atom p) -> Q p -> wp (get_atom rt i) Q.
Proof. unfold get_atom. intros Hs HQ. rewrite (rd_slot _ _ _ Hs). done. Qed.

Lemma wp_add_ref rt p d s Q : strings rt !! p = Some s -> Q (set_str rt p (with_refs s (ref_count s + d))) -> wp (add_ref rt p d) Q.
Proof. unfold add_ref. intros Hs HQ. apply wp_bind. by eapply wp_get_str. Qed.

(** The links of the hash table and those of the free entries. *)
Definition hnext (m : gmap ptr JSAtomStruct) (a : list slot) (i : Z) : option Z :=
  match slot_at a i with Some (Atom p) => hash_next <$> m !! p | _ => None end.
Definition fnext (a : list slot) (i : Z) : option Z :=
  match slot_at a i with Some (Free n) => Some n | _ => None end.

Lemma hnext_some m a i n : hnext m a i = Some n -> exists p s, slot_at a i = Some (Atom p) /\ m !! p = Some s /\ hash_next s = n.
Proof. unfold hnext. destruct (slot_at a i) as [[| |p]|]; try done. intros (s & Hs & E)%fmap_Some. eauto. Qed.

Lemma hnext_at m a i p s : slot_at a i = Some (Atom p) -> m !! p = Some s -> hnext m a i = Some (hash_next s).
Proof. unfold hnext. by intros -> ->. Qed.

(** ** The view *)

Definition hashed (s : JSAtomStruct) : bool := (0 <? atom_type s) && (atom_type s <? JS_ATOM_TYPE_SYMBOL).
Definition erase (s : JSAtomStruct) : JSAtomStruct := if hashed s then with_next s 0 else s.
Definition view (rt : JSRuntime) : gmap ptr JSAtomStruct := erase <$> strings rt.

Lemma erase_refs s : ref_count (erase s) = ref_count s.
Proof. unfold erase. by destruct (hashed s). Qed.
Lemma erase_text s : text (erase s) = text s.
Proof. unfold erase. by destruct (hashed s). Qed.
Lemma erase_hash s : hash (erase s) = hash s.
Proof. unfold erase. by destruct (hashed s). Qed.
Lemma erase_type s : atom_type (erase s) = atom_type s.
Proof. unfold erase. by destruct (hashed s). Qed.
Lemma erase_hashed s : hashed (erase s) = hashed s.
Proof. unfold hashed. by rewrite erase_type. Qed.
Lemma erase_next s : hashed s = false -> hash_next (erase s) = hash_next s.
Proof. unfold erase. by intros ->. Qed.
Lemma erase_with_refs s n : erase (with_refs s n) = with_refs (erase s) n.
Proof. unfold erase. change (hashed (with_refs s n)) with (hashed s). by destruct (hashed s). Qed.
Lemma erase_with_next s n : hashed s = true -> erase (with_next s n) = erase s.
Proof. unfold erase. change (hashed (with_next s n)) with (hashed s). by intros ->. Qed.

Lemma view_some rt p v : view rt !! p = Some v <-> exists s, strings rt !! p = Some s /\ v = erase s.
Proof. unfold view. rewrite lookup_fmap, fmap_Some. naive_solver. Qed.

Lemma view_of rt p s : strings rt !! p = Some s -> view rt !! p = Some (erase s).
Proof. intros Hs. apply view_some. eauto. Qed.

Lemma view_set_str rt p s : view (set_str rt p s) = <[p := erase s]> (view rt).
Proof. apply fmap_insert. Qed.

Lemma view_ref rt p s n : strings rt !! p = Some s -> view (set_str rt p (with_refs s n)) = <[p := with_refs (erase s) n]> (view rt).
Proof. intros _. by rewrite view_set_str, erase_with_refs. Qed.

Lemma view_next rt p s n : strings rt !! p = Some s -> hashed s = true -> view (set_str rt p (with_next s n)) = view rt.
Proof.
  intros Hs Hh. rewrite view_set_str, erase_with_next by done. apply insert_id. by apply view_of.
Qed.

(** ** The invariant *)

Definition text_hash (t : JSString) (ty : Z) : Z := Z.land (hash_string t ty) JS_ATOM_HASH_MASK.
Definition is_atom (sl : slot) : Z := match sl with Atom _ => 1 | _ => 0 end.

Record str_ok (a : list slot) (p : ptr) (s : JSAtomStruct) : Prop := mkStrOk {
  t_range : 0 <= atom_type s <= 3;
  t_slot : atom_type s <> 0 -> exists i, slot_at a i = Some (Atom p);
  t_hash : hashed s = true -> hash s = text_hash (text s) (atom_type s);
  t_symbol : atom_type s = JS_ATOM_TYPE_SYMBOL ->
    slot_at a (hash_next s) = Some (Atom p) /\ (hash s = JS_ATOM_HASH_SYMBOL \/ hash s = JS_ATOM_HASH_PRIVATE);
}.

(** The entries and the strings, on the view [v] of the heap. *)
Record slots_ok (v : gmap ptr JSAtomStruct) (a : list slot) : Prop := mkSlots {
  s_defined : forall i, slot_at a i <> Some Undef;
  s_atom : forall i p, slot_at a i = Some (Atom p) -> exists s, v !! p = Some s /\ atom_type s <> 0;
  s_inj : forall i j p, slot_at a i = Some (Atom p) -> slot_at a j = Some (Atom p) -> i = j;
  s_str : forall p s, v !! p = Some s -> str_ok a p s;
  s_canon : forall p q s t, v !! p = Some s -> v !! q = Some t -> hashed s = true -> atom_type s = atom_type t ->
    units (text s) = units (text t) -> p = q;
  s_null : 0 < zlen a -> exists p s, slot_at a 0 = Some (Atom p) /\ v !! p = Some s /\ atom_type s = JS_ATOM_TYPE_SYMBOL;
}.

(** The index [i] is the atom of a hashed string of hash [x]. *)
Definition hentry (v : gmap ptr JSAtomStruct) (a : list slot) (i x : Z) : Prop :=
  exists p s, slot_at a i = Some (Atom p) /\ v !! p = Some s /\ hashed s = true /\ hash s = x.

(** The hash table [t] of [size] chains with the links [nx] has the entries [E]. *)
Record hash_ok (nx : Z -> option Z) (E : Z -> Z -> Prop) (t : list Z) (size : Z) (chains : list (list Z)) : Prop := mkHash {
  h_size : zlen t = size;
  h_pow : exists k, 0 <= k <= 29 /\ size = 2 ^ k;
  h_chains : length chains = length t;
  h_chain : forall j c, chains !! j = Some c -> exists h, t !! j = Some h /\ linked nx h c;
  h_in : forall j c i, chains !! j = Some c -> (i ∈ c <-> exists x, E i x /\ Z.land x (size - 1) = Z.of_nat j);
}.

Record free_ok (a : list slot) (fi : Z) (free : list Z) : Prop := mkFree {
  f_list : linked (fnext a) fi free;
  f_in : forall i, i ∈ free <-> exists n, slot_at a i = Some (Free n);
}.

Record table_ok (rt : JSRuntime) (chains : list (list Z)) (free : list Z) : Prop := mkTable {
  k_size : zlen (atom_array rt) = atom_size rt;
  k_max : atom_size rt <= 2 ^ 29;
  k_count : atom_count rt = lsum is_atom (atom_array rt);
  k_resize : atom_count_resize rt = 2 * atom_hash_size rt;
  k_slots : slots_ok (view rt) (atom_array rt);
  k_hash : hash_ok (hnext (strings rt) (atom_array rt)) (hentry (view rt) (atom_array rt)) (atom_hash rt) (atom_hash_size rt) chains;
  k_free : free_ok (atom_array rt) (atom_free_index rt) free;
}.

Lemma lsum_is_atom a : 0 <= lsum is_atom a <= zlen a.
Proof. induction a as [|x a IH]; [done|]. rewrite lsum_cons, zlen_cons. destruct x; cbn; lia. Qed.

Lemma hashed_type s : hashed s = true <-> atom_type s = JS_ATOM_TYPE_STRING \/ atom_type s = JS_ATOM_TYPE_GLOBAL_SYMBOL.
Proof. unfold hashed, JS_ATOM_TYPE_SYMBOL, JS_ATOM_TYPE_STRING, JS_ATOM_TYPE_GLOBAL_SYMBOL. rewrite andb_true_iff, !Z.ltb_lt. lia. Qed.

Lemma hashed_not_symbol s : 0 < atom_type s <= 3 -> hashed s = negb (atom_type s =? JS_ATOM_TYPE_SYMBOL).
Proof. unfold hashed, JS_ATOM_TYPE_SYMBOL. intros H. destruct (Z.ltb_spec 0 (atom_type s)), (Z.ltb_spec (atom_type s) 3), (Z.eqb_spec (atom_type s) 3); cbn; lia. Qed.

Lemma u32_mask size k : 0 <= k <= 29 -> size = 2 ^ k -> u32 (size - 1) = size - 1 /\ 0 < size <= 2 ^ 29.
Proof.
  intros Hk ->. assert (0 < 2 ^ k <= 2 ^ 29) by (split; [lia|apply Z.pow_le_mono_r; lia]). split; [|done]. apply u32_small. lia.
Qed.

Lemma land_mask x k : 0 <= k -> 0 <= Z.land x (2 ^ k - 1) < 2 ^ k.
Proof.
  intros Hk. replace (2 ^ k - 1) with (Z.ones k) by (rewrite Z.ones_equiv; lia). rewrite Z.land_ones by done. apply Z.mod_pos_bound. lia.
Qed.

Section Facts.
Context {rt : JSRuntime} {chains : list (list Z)} {free : list Z} (HT : table_ok rt chains free).

Let HS : slots_ok (view rt) (atom_array rt) := k_slots _ _ _ HT.
Let HH := k_hash _ _ _ HT.

Lemma entry_string i p : slot_at (atom_array rt) i = Some (Atom p) -> exists s, strings rt !! p = Some s /\ atom_type s <> 0.
Proof.
  intros (v & Hv & Hty)%(s_atom _ _ HS). apply view_some in Hv as (s & Hs & ->). rewrite erase_type in Hty. eauto.
Qed.

Lemma string_ok p s : strings rt !! p = Some s -> str_ok (atom_array rt) p (erase s).
Proof. intros Hs%view_of. by apply (s_str _ _ HS). Qed.

Lemma type_range p s : strings rt !! p = Some s -> 0 <= atom_type s <= 3.
Proof. intros [Ht _ _ _]%string_ok. by rewrite erase_type in Ht. Qed.

Lemma mask_eq : u32 (atom_hash_size rt - 1) = atom_hash_size rt - 1.
Proof. destruct (h_pow _ _ _ _ _ HH) as (k & Hk & E). by apply (u32_mask _ k). Qed.

Lemma chain_of x : exists c, chains !! Z.to_nat (Z.land x (atom_hash_size rt - 1)) = Some c /\
  0 <= Z.land x (atom_hash_size rt - 1) < zlen (atom_hash rt).
Proof.
  destruct (h_pow _ _ _ _ _ HH) as (k & Hk & E). pose proof (land_mask x k (proj1 Hk)) as Hr. rewrite <- E in Hr.
  pose proof (h_size _ _ _ _ _ HH) as Hsz. pose proof (h_chains _ _ _ _ _ HH) as Hl. unfold zlen in *.
  destruct (lookup_lt_is_Some_2 chains (Z.to_nat (Z.land x (atom_hash_size rt - 1)))) as [c Hc]; [lia|]. exists c. split; [done|lia].
Qed.

Lemma chain_length j c : chains !! j = Some c -> (length c < chain_fuel rt)%nat.
Proof.
  intros Hc. destruct (h_chain _ _ _ _ _ HH _ _ Hc) as (h & _ & Hl). unfold chain_fuel. apply Nat.lt_succ_r, indices_length.
  - by eapply linked_NoDup.
  - intros i Hi. apply (h_in _ _ _ _ _ HH _ _ _ Hc) in Hi as (x & (p & s & E & _) & _). eauto.
Qed.

Lemma in_chain i p s c : slot_at (atom_array rt) i = Some (Atom p) -> strings rt !! p = Some s -> hashed s = true ->
  chains !! Z.to_nat (Z.land (hash s) (atom_hash_size rt - 1)) = Some c -> i ∈ c.
Proof.
  intros Hi Hs Hh Hc. apply (h_in _ _ _ _ _ HH _ _ _ Hc). exists (hash s). split.
  - exists p, (erase s). rewrite erase_hashed, erase_hash. split_and!; [done|by apply view_of|done..].
  - destruct (chain_of (hash s)) as (_ & _ & Hr). lia.
Qed.

Lemma wp_chain_head x c Q : chains !! Z.to_nat (Z.land x (atom_hash_size rt - 1)) = Some c ->
  (forall h, linked (hnext (strings rt) (atom_array rt)) h c -> Q h) -> wp (rd (atom_hash rt) (Z.land x (atom_hash_size rt - 1))) Q.
Proof.
  intros Hc HQ. destruct (h_chain _ _ _ _ _ HH _ _ Hc) as (h & Eh & Hl). destruct (chain_of x) as (_ & _ & Hr).
  rewrite (proj2 (rd_Ret _ _ h)); [by apply HQ|]. split; [lia|done].
Qed.

(** ** Searches *)

Lemma wp_find_in_atom_chain j c h test (P : JSAtomStruct -> bool) : chains !! j = Some c -> linked (hnext (strings rt) (atom_array rt)) h c ->
  (forall i p s, i ∈ c -> slot_at (atom_array rt) i = Some (Atom p) -> strings rt !! p = Some s -> test s = Ret (P s)) ->
  wp (find_in_chain rt h test) (fun r =>
    match r with
    | Some (i, p) => exists s, i ∈ c /\ slot_at (atom_array rt) i = Some (Atom p) /\ strings rt !! p = Some s /\ P s = true
    | None => forall i p s, i ∈ c -> slot_at (atom_array rt) i = Some (Atom p) -> strings rt !! p = Some s -> P s = false
    end).
Proof.
  intros Hc. pose proof (chain_length _ _ Hc) as Hlen. unfold find_in_chain. clear Hc. revert h Hlen. generalize (chain_fuel rt) as fuel.
  induction c as [|i c IH]; intros [|fuel] h Hlen Hl Ht; cbn [length] in Hlen; try lia; cbn [loop].
  - cbn in Hl. subst h. cbn. by intros ? ? ? ?%not_elem_of_nil.
  - destruct Hl as (-> & Hi0 & n & E & Hl). destruct (Z.eqb_spec i 0) as [|_]; [done|]. apply hnext_some in E as (p & s & Hi & Hs & En).
    unfold get_atom. rewrite (rd_slot _ _ _ Hi). unfold get_str. cbn [mbind outcome_bind]. rewrite Hs. cbn [mbind outcome_bind].
    rewrite (Ht i p s) by (done || by constructor). cbn [mbind outcome_bind]. destruct (P s) eqn:HP.
    + cbn. exists s. split_and!; [by constructor|done..].
    + rewrite En. eapply wp_mono; [apply (IH fuel n); [lia|done|intros; eapply Ht; [by constructor|done..]]|].
      intros [[i' p']|]; [intros (s' & ? & ?); exists s'; split; [by constructor|done]|].
      intros Hn i' p' s' [->|Hin]%elem_of_cons Hi' Hs'; [|by eauto]. by simplify_eq.
Qed.

Lemma wp_js_get_atom_index p s i Q : strings rt !! p = Some s -> slot_at (atom_array rt) i = Some (Atom p) -> Q i -> wp (js_get_atom_index rt p) Q.
Proof.
  intros Hs Hi HQ. destruct (entry_string _ _ Hi) as (s' & Hs' & Hty). assert (s' = s) as -> by congruence.
  unfold js_get_atom_index. apply wp_bind. eapply wp_get_str; [done|]. pose proof (type_range _ _ Hs).
  destruct (negb (atom_type s =? JS_ATOM_TYPE_SYMBOL)) eqn:Ety.
  - assert (Hh : hashed s = true) by (rewrite hashed_not_symbol; [done|lia]). rewrite mask_eq.
    destruct (chain_of (hash s)) as (c & Hc & _). pose proof (in_chain _ _ _ _ Hi Hs Hh Hc) as Hin.
    apply wp_bind. eapply wp_chain_head; [done|]. intros h Hl. pose proof (chain_length _ _ Hc) as Hlen. clear Hc.
    revert h Hlen Hin Hl. generalize (chain_fuel rt) as fuel.
    assert (Hgen : forall c fuel j p1, (length c < fuel)%nat -> i ∈ c -> linked (hnext (strings rt) (atom_array rt)) j c ->
      slot_at (atom_array rt) j = Some (Atom p1) ->
      wp (loop fuel (fun '(i, p1) =>
        if decide (p1 = p) then Ret (inr i)
        else
          _ ← c_assert (negb (i =? 0));
          s1 ← get_str rt p1;
          let i := hash_next s1 in
          p1 ← get_atom rt i;
          Ret (inl (i, p1))) (j, p1)) Q).
    { clear c. induction c as [|k c IH]; intros [|fuel] j p1 Hlen Hin Hl Hj; cbn [length] in Hlen; try lia; [by apply not_elem_of_nil in Hin|].
      destruct Hl as (-> & Hj0 & n & E & Hl). apply hnext_some in E as (p1' & s1 & Hj' & Hs1 & En).
      assert (p1' = p1) as -> by congruence. cbn [loop]. destruct (decide (p1 = p)) as [->|Hne].
      - cbn. by rewrite <- (s_inj _ _ HS _ _ _ Hi Hj).
      - rewrite (proj2 (Z.eqb_neq k 0)) by done. cbn [negb c_assert mbind outcome_bind]. unfold get_str. rewrite Hs1. cbn [mbind outcome_bind].
        rewrite En. apply elem_of_cons in Hin as [->|Hin]; [congruence|]. destruct c as [|k' c]; [by apply not_elem_of_nil in Hin|].
        pose proof Hl as (-> & _ & n' & E' & _). apply hnext_some in E' as (p2 & s2 & Hk' & Hs2 & _).
        unfold get_atom. rewrite (rd_slot _ _ _ Hk'). cbn [mbind outcome_bind]. apply IH; [lia|done..]. }
    intros fuel h Hlen Hin Hl. destruct c as [|k c]; [by apply not_elem_of_nil in Hin|].
    pose proof Hl as (-> & _ & n & E & _). apply hnext_some in E as (p1 & s1 & Hk & _). apply wp_bind. eapply wp_get_atom; [done|]. by eapply Hgen.
  - cbn. apply negb_false_iff, Z.eqb_eq in Ety. destruct (t_symbol _ _ _ (string_ok _ _ Hs)) as [Hsl _]; [by rewrite erase_type|].
    rewrite erase_next in Hsl by (unfold hashed; rewrite Ety; done). by rewrite <- (s_inj _ _ HS _ _ _ Hi Hsl).
Qed.
End Facts.

(** ** Changes of the hash table *)

Lemma hash_ok_ext nx E nx' E' t size chains : hash_ok nx E t size chains -> (forall i x, E i x <-> E' i x) ->
  (forall i x, E i x -> nx' i = nx i) -> hash_ok nx' E' t size chains.
Proof.
  intros [H1 H2 H3 H4 H5] HE Hx. constructor; [done..| |].
  - intros j c Hc. destruct (H4 j c Hc) as (h & Eh & Hl). exists h. split; [done|]. eapply linked_ext; [|done].
    intros i (x & Hi & _)%(H5 j c i Hc). by eapply Hx.
  - intros j c i Hc. rewrite (H5 j c i Hc). split; intros (x & Hi & Ex); exists x; (split; [by apply HE|done]).
Qed.

(** The chain [j] becomes [c'], the others stay. *)
Lemma hash_ok_chain nx E nx' E' t size chains j h c' : hash_ok nx E t size chains -> (j < length t)%nat -> linked nx' h c' ->
  (forall k, k ∈ c' <-> exists x, E' k x /\ Z.land x (size - 1) = Z.of_nat j) ->
  (forall k x, Z.land x (size - 1) <> Z.of_nat j -> E k x <-> E' k x) ->
  (forall k x, Z.land x (size - 1) <> Z.of_nat j -> E k x -> nx' k = nx k) ->
  hash_ok nx' E' (<[j := h]> t) size (<[j := c']> chains).
Proof.
  intros [H1 H2 H3 H4 H5] Hj Hl Hin HE Hx. constructor; [by rewrite zlen_insert|done|by rewrite !length_insert| |].
  - intros j' c0 [(<- & -> & _)|[Hne Hc]]%list_lookup_insert_Some.
    + exists h. split; [by apply list_lookup_insert_eq|done].
    + destruct (H4 j' c0 Hc) as (h0 & Eh & Hl0). exists h0. split; [by rewrite list_lookup_insert_ne|]. eapply linked_ext; [|done].
      intros k (x & Hk & Ex)%(H5 j' c0 k Hc). eapply Hx; [|done]. rewrite Ex. lia.
  - intros j' c0 i [(<- & -> & _)|[Hne Hc]]%list_lookup_insert_Some; [done|]. rewrite (H5 j' c0 i Hc).
    split; intros (x & Hk & Ex); exists x; (split; [apply (HE i x); [rewrite Ex; lia|done]|done]).
Qed.

Lemma hentry_det v a i x y : hentry v a i x -> hentry v a i y -> x = y.
Proof. intros (p & s & Hp & Hs & _ & <-) (q & u & Hq & Hu & _ & <-). congruence. Qed.

(** ** Changes of one string *)

Lemma slots_ok_refs v a p s n : slots_ok v a -> v !! p = Some s -> slots_ok (<[p := with_refs s n]> v) a.
Proof.
  intros [H1 H2 H3 H4 H5 H6] Hp.
  assert (Hlk : forall q u, <[p := with_refs s n]> v !! q = Some u -> exists u', v !! q = Some u' /\ atom_type u' = atom_type u /\
    text u' = text u /\ hash u' = hash u /\ hash_next u' = hash_next u).
  { intros q u [[<- <-]|[_ Hq]]%lookup_insert_Some; eauto 10. }
  assert (Hkl : forall q u', v !! q = Some u' -> exists u, <[p := with_refs s n]> v !! q = Some u /\ atom_type u' = atom_type u).
  { intros q u' Hq. destruct (decide (q = p)) as [->|Hne]; [rewrite lookup_insert_eq; simplify_eq; eauto|rewrite lookup_insert_ne by done; eauto]. }
  constructor; [done| |done| | |].
  - intros i q Hi. destruct (H2 i q Hi) as (u' & Hu & Ht). destruct (Hkl q u' Hu) as (u & Hu' & E). exists u. split; [done|]. by rewrite <- E.
  - intros q u (u' & Hu & Ety & Etx & Eh & En)%Hlk. destruct (H4 q u' Hu) as [G1 G2 G3 G4]. unfold hashed in G3.
    rewrite Ety, Etx, Eh, ?En in *. constructor; done.
  - intros q r u w (u' & Hu & Ety & Etx & _)%Hlk (w' & Hw & Ety' & Etx' & _)%Hlk Hh Et Eu. eapply (H5 q r u' w'); unfold hashed in *; congruence.
  - intros Ha. destruct (H6 Ha) as (q & u' & Hq & Hu & Ht). destruct (Hkl q u' Hu) as (u & Hu' & E). exists q, u. by rewrite <- E.
Qed.

Lemma hnext_refs m a p s n i : m !! p = Some s -> hnext (<[p := with_refs s n]> m) a i = hnext m a i.
Proof.
  intros Hp. unfold hnext. destruct (slot_at a i) as [[| |q]|]; [done..| |done]. destruct (decide (q = p)) as [->|Hne].
  - by rewrite lookup_insert_eq, Hp.
  - by rewrite lookup_insert_ne.
Qed.

Lemma hentry_refs v a p s n i x : v !! p = Some s -> hentry v a i x <-> hentry (<[p := with_refs s n]> v) a i x.
Proof.
  intros Hp. split; intros (q & u & Hi & Hu & Hh & Hx).
  - destruct (decide (q = p)) as [->|Hne].
    + exists p, (with_refs s n). rewrite lookup_insert_eq. by simplify_eq.
    + exists q, u. by rewrite lookup_insert_ne.
  - apply lookup_insert_Some in Hu as [[<- <-]|[_ Hu]]; [by exists p, s|by exists q, u].
Qed.

Lemma table_refs rt chains free p s n : table_ok rt chains free -> strings rt !! p = Some s ->
  table_ok (set_str rt p (with_refs s n)) chains free.
Proof.
  intros [H1 H2 H3 H4 H5 H6 H7] Hp. constructor; [done..| | |done].
  - rewrite (view_ref rt p s n Hp). apply slots_ok_refs; [done|by apply view_of].
  - rewrite (view_ref rt p s n Hp). eapply hash_ok_ext; [done|intros; by apply hentry_refs, view_of|]. intros i x _. by apply hnext_refs.
Qed.

(** Strings that are not atoms come and go. *)
Lemma table_other rt chains free p m : table_ok rt chains free -> (forall i, slot_at (atom_array rt) i <> Some (Atom p)) ->
  (forall q, q <> p -> m !! q = strings rt !! q) -> (forall s, m !! p = Some s -> atom_type s = 0) ->
  table_ok (set_strings rt m) chains free.
Proof.
  intros [H1 H2 H3 H4 H5 H6 H7] Hp Hm H0.
  assert (Hv : forall q, q <> p -> view (set_strings rt m) !! q = view rt !! q) by (intros q Hq; unfold view; cbn; by rewrite !lookup_fmap, Hm).
  assert (Hv0 : forall s, view (set_strings rt m) !! p = Some s -> atom_type s = 0) by (intros s (s' & Hs & ->)%view_some; rewrite erase_type; auto).
  assert (Hslot : forall i q, slot_at (atom_array rt) i = Some (Atom q) -> q <> p) by (intros i q Hi ->; by apply (Hp i)).
  constructor; [done..| | |done].
  - destruct H5 as [G1 G2 G3 G4 G5 G6]. constructor; [done| |done| | |].
    + intros i q Hi. destruct (G2 i q Hi) as (s & Hs & Ht). exists s. by rewrite Hv by eauto.
    + intros q s Hs. destruct (decide (q = p)) as [->|Hq].
      * specialize (Hv0 s Hs). constructor; [lia|lia|unfold hashed; rewrite Hv0; done|rewrite Hv0; done].
      * apply G4. by rewrite <- Hv.
    + intros q r s t Hs Ht Hh Ety Eu. assert (q <> p) by (intros ->; specialize (Hv0 s Hs); unfold hashed in Hh; by rewrite Hv0 in Hh).
      assert (r <> p) by (intros ->; specialize (Hv0 t Ht); unfold hashed in Hh; by rewrite Ety, Hv0 in Hh). rewrite Hv in Hs, Ht by done. eauto.
    + intros Ha. destruct (G6 Ha) as (q & s & Hq & Hs & Ht). exists q, s. cbn. split_and!; [done| |done]. by rewrite Hv by eauto.
  - eapply hash_ok_ext; [done| |].
    + intros i x. split; intros (q & s & Hi & Hs & Hh & Hx); exists q, s; (split_and!; [done| |done..]); [by rewrite Hv by eauto|by rewrite <- Hv by eauto].
    + intros i x (q & s & Hi & _). unfold hnext. cbn [strings set_strings atom_array]. rewrite Hi, Hm by eauto. done.
Qed.

Lemma not_atom rt chains free p : table_ok rt chains free -> (forall s, strings rt !! p = Some s -> atom_type s = 0) ->
  forall i, slot_at (atom_array rt) i <> Some (Atom p).
Proof. intros HT H0 i Hi. destruct (entry_string HT i p Hi) as (s & Hs & Ht). by apply Ht, H0. Qed.
