(* ===== verification/AtomHash.v ===== *)
(** * Atoms: chains of the hash table ([quickjs.c])

    The search of a chain for the atom that leaves it, the release of an atom,
    and the move of the chains to a table of another size. *)

From S2P Require Import Prelude Cutils JsValues AtomTable AtomInv.

(** ** The release of an atom *)

Section Release.
Context `{AtomConfig} `{AtomAllocator}.
Context {rt : JSRuntime} {chains : list (list Z)} {free : list Z} (HT : table_ok rt chains free).

Lemma wp_unchain (p : ptr) s i (c2 : list Z) : strings rt !! p = Some s -> slot_at (atom_array rt) i = Some (Atom p) ->
  forall fuel j p1, (length c2 < fuel)%nat -> slot_at (atom_array rt) j = Some (Atom p1) ->
  linked (hnext (strings rt) (atom_array rt)) j (j :: c2) -> i ∈ c2 ->
  wp (loop fuel (fun '(i, p1) =>
    _ ← c_assert (negb (i =? 0));
    let p0 := p1 in
    s1 ← get_str rt p1;
    let i := hash_next s1 in
    p1 ← get_atom rt i;
    if decide (p1 = p) then
      s1 ← get_str rt p1;
      s0 ← get_str rt p0;
      Ret (inr (i, set_str rt p0 (with_next s0 (hash_next s1))))
    else Ret (inl (i, p1))) (j, p1))
  (fun '(i', rt') => i' = i /\ exists l1 j0 l3 p0 s0, j :: c2 = l1 ++ j0 :: i :: l3 /\ slot_at (atom_array rt) j0 = Some (Atom p0) /\
     strings rt !! p0 = Some s0 /\ rt' = set_str rt p0 (with_next s0 (hash_next s))).
Proof.
  intros Hs Hi. induction c2 as [|k c2 IH]; intros [|fuel] j p1 Hlen Hj Hl Hin; cbn [length] in Hlen; try lia; [by apply not_elem_of_nil in Hin|].
  destruct Hl as (_ & Hj0 & n & E & Hl). apply hnext_some in E as (p1' & s1 & Hj' & Hs1 & En). assert (p1' = p1) as -> by congruence.
  cbn [loop]. rewrite (proj2 (Z.eqb_neq j 0)) by done. cbn [negb c_assert mbind outcome_bind]. rewrite (get_str_ok _ _ _ Hs1). cbn [mbind outcome_bind].
  pose proof Hl as (-> & _ & n2 & E2 & _). rewrite En. apply hnext_some in E2 as (p2 & s2 & Hk & Hs2 & _).
  rewrite (get_atom_ok _ _ _ Hk). cbn [mbind outcome_bind]. destruct (decide (p2 = p)) as [->|Hne].
  - rewrite (get_str_ok _ _ _ Hs). cbn [mbind outcome_bind wp]. assert (k = i) as -> by (eapply (s_inj _ _ (k_slots _ _ _ HT)); done).
    split; [done|]. exists [], j, c2, p1, s1. done.
  - cbn [wp]. apply elem_of_cons in Hin as [->|Hin]; [congruence|]. eapply wp_mono; [apply (IH fuel k p2); [lia|done..]|].
    intros [i' rt'] (-> & l1 & j0 & l3 & p0 & s0 & Ec & ?). split; [done|]. exists (j :: l1), j0, l3, p0, s0. by rewrite Ec.
Qed.

Lemma wp_unhash p s i : strings rt !! p = Some s -> slot_at (atom_array rt) i = Some (Atom p) ->
  wp (unhash rt p) (fun '(i', rt') => i' = i /\ exists m t chains', rt' = set_hash (set_strings rt m) t /\ erase <$> m = view rt /\
    hash_ok (hnext m (atom_array rt)) (fun k x => hentry (view rt) (atom_array rt) k x /\ k <> i) t (atom_hash_size rt) chains').
Proof.
  intros Hs Hi. destruct (entry_string HT _ _ Hi) as (s' & Hs' & Hty). assert (s' = s) as -> by congruence. clear Hs'.
  unfold unhash. apply wp_bind. eapply wp_get_str; [done|]. pose proof (type_range HT _ _ Hs). pose proof (k_hash _ _ _ HT) as HH.
  destruct (negb (atom_type s =? JS_ATOM_TYPE_SYMBOL)) eqn:Ety.
  2:{ apply negb_false_iff, Z.eqb_eq in Ety. destruct (t_symbol _ _ _ (string_ok HT _ _ Hs)) as [Hsl _]; [by rewrite erase_type|].
      assert (Hh : hashed s = false) by (unfold hashed; by rewrite Ety). rewrite erase_next in Hsl by done.
      cbn. split; [by eapply (s_inj _ _ (k_slots _ _ _ HT))|]. exists (strings rt), (atom_hash rt), chains. split_and!; [by destruct rt|done|].
      eapply hash_ok_ext; [done| |done]. intros k x. split; [|by intros [? _]]. intros Hk. split; [done|]. intros ->.
      destruct Hk as (q & u & Hq & (u' & Hu & ->)%view_some & Hhu & _). rewrite erase_hashed in Hhu. congruence. }
  assert (Hh : hashed s = true) by (rewrite hashed_not_symbol; [done|lia]). rewrite (mask_eq HT).
  destruct (chain_of HT (hash s)) as (c & Hc & Hr). set (j := Z.land (hash s) (atom_hash_size rt - 1)) in *.
  pose proof (in_chain HT _ _ _ _ Hi Hs Hh Hc) as Hin. destruct (h_chain _ _ _ _ _ HH _ _ Hc) as (h & Eh & Hl).
  pose proof (linked_NoDup _ _ _ Hl) as Hnd. pose proof (chain_length HT _ _ Hc) as Hlen.
  apply wp_bind. rewrite (proj2 (rd_Ret _ _ h)) by (split; [lia|done]). cbn [wp].
  destruct c as [|k c]; [by apply not_elem_of_nil in Hin|]. pose proof Hl as (-> & Hk0 & n & E & Hl'). apply hnext_some in E as (p1 & s1 & Hk & Hs1 & En).
  apply wp_bind. eapply wp_get_atom; [done|].
  (* the new chain [c'] from the head [h'] *)
  assert (Hfin : forall m h' c', erase <$> m = view rt -> linked (hnext m (atom_array rt)) h' c' ->
    (forall k', k' ∈ c' <-> k' ∈ k :: c /\ k' <> i) -> (forall k', k' ∉ c -> k' <> k -> hnext m (atom_array rt) k' = hnext (strings rt) (atom_array rt) k') ->
    hash_ok (hnext m (atom_array rt)) (fun k x => hentry (view rt) (atom_array rt) k x /\ k <> i) (<[Z.to_nat j := h']> (atom_hash rt)) (atom_hash_size rt) (<[Z.to_nat j := c']> chains)).
  { intros m h' c' Hm Hl2 Hc' Hx. eapply hash_ok_chain; [done|unfold zlen in Hr; lia|done|..].
    - intros k'. rewrite Hc', (h_in _ _ _ _ _ HH _ _ k' Hc). naive_solver.
    - intros k' x Hb. split; [|by intros [? _]]. intros Hk'. split; [done|]. intros ->. apply Hb. rewrite Z2Nat.id by lia. unfold j. f_equal.
      eapply hentry_det; [done|]. exists p, (erase s). split_and!; [done|by apply view_of|by rewrite erase_hashed|apply erase_hash].
    - intros k' x Hb Hk'. assert (Hout : k' ∉ k :: c).
      { intros (y & Hy & Ey)%(h_in _ _ _ _ _ HH _ _ k' Hc). apply Hb. by rewrite (hentry_det _ _ _ _ _ Hk' Hy). }
      apply Hx; [|]; intros ?; apply Hout; set_solver. }
  destruct (decide (p1 = p)) as [->|Hne].
  - assert (k = i) as -> by (eapply (s_inj _ _ (k_slots _ _ _ HT)); done). assert (s1 = s) as -> by congruence.
    apply wp_bind. eapply wp_get_str; [done|]. apply wp_bind. rewrite wr_ok by lia. cbn [wp]. split; [done|].
    exists (strings rt), (<[Z.to_nat j := hash_next s]> (atom_hash rt)), (<[Z.to_nat j := c]> chains). split_and!; [by destruct rt|done|].
    apply Hfin; [done|by rewrite En| |done]. apply NoDup_cons in Hnd as [Hn _]. set_solver.
  - cbn [length] in Hlen. apply elem_of_cons in Hin as [->|Hin]; [congruence|]. unfold unchain.
    eapply wp_mono; [apply (wp_unchain p s i c Hs Hi); [lia|done|done|done]|].
    intros [i' rt'] (-> & l1 & j0 & l3 & p0 & s0 & Ec & Hj0 & Hs0 & ->). split; [done|].
    exists (<[p0 := with_next s0 (hash_next s)]> (strings rt)), (<[Z.to_nat j := k]> (atom_hash rt)), (<[Z.to_nat j := l1 ++ j0 :: l3]> chains).
    rewrite Ec in Hnd. assert (Hhs0 : hashed s0 = true).
    { destruct (proj1 (h_in _ _ _ _ _ HH _ _ j0 Hc)) as (x & (q & u & Hq & Hu & Hhu & _) & _); [rewrite Ec; set_solver|].
      assert (q = p0) as -> by congruence. rewrite (view_of _ _ _ Hs0) in Hu. injection Hu as <-. by rewrite erase_hashed in Hhu. }
    assert (Ev : erase <$> <[p0 := with_next s0 (hash_next s)]> (strings rt) = view rt) by (by apply (view_next rt p0 s0)).
    split_and!; [rewrite list_insert_id by done; by destruct rt|done|].
    assert (Hxo : forall k', k' <> j0 -> hnext (<[p0 := with_next s0 (hash_next s)]> (strings rt)) (atom_array rt) k' = hnext (strings rt) (atom_array rt) k').
    { intros k' Hk'. unfold hnext. destruct (slot_at (atom_array rt) k') as [[| |q]|] eqn:Eq; try done. rewrite lookup_insert_ne; [done|].
      intros ->. apply Hk'. by eapply (s_inj _ _ (k_slots _ _ _ HT)). }
    apply NoDup_app in Hnd as (Hn1 & Hn2 & Hn3). apply NoDup_cons in Hn3 as [Hn3 Hn4]. apply NoDup_cons in Hn4 as [Hn4 Hn5].
    apply Hfin; [done| |rewrite Ec; set_solver|].
    + rewrite Ec in Hl. eapply linked_remove; [exact Hl| |].
      * rewrite (hnext_at _ _ i p s Hi Hs). unfold hnext. by rewrite Hj0, lookup_insert_eq.
      * intros k' Hk'. apply Hxo. set_solver.
    + intros k' Hk' Hk''. apply Hxo. intros ->. assert (j0 ∈ k :: c) by (rewrite Ec; set_solver). set_solver.
Qed.
End Release.

Lemma slot_lookup a i sl : slot_at a i = Some sl -> a !! Z.to_nat i = Some sl.
Proof. unfold slot_at. by destruct (i <? 0). Qed.

Lemma slots_ok_free v a i p n : slots_ok v a -> slot_at a i = Some (Atom p) -> i <> 0 ->
  slots_ok (delete p v) (<[Z.to_nat i := Free n]> a).
Proof.
  intros [H1 H2 H3 H4 H5 H6] Hi Hi0. pose proof (atom_slot_bounds _ _ _ Hi) as Hb.
  assert (Hsl : forall j q, slot_at (<[Z.to_nat i := Free n]> a) j = Some (Atom q) <-> slot_at a j = Some (Atom q) /\ q <> p).
  { intros j q. rewrite slot_at_insert by done. destruct (Z.eqb_spec j i) as [->|Hj].
    - split; [done|]. intros [Hq Hne]. congruence.
    - split; [|by intros [? _]]. intros Hq. split; [done|]. intros ->. by apply Hj, (H3 j i p). }
  constructor.
  - intros j. rewrite slot_at_insert by done. by destruct (j =? i).
  - intros j q [Hq Hne]%Hsl. destruct (H2 j q Hq) as (s & Hs & Ht). exists s. by rewrite lookup_delete_ne.
  - intros j k q [Hj _]%Hsl [Hk _]%Hsl. eauto.
  - intros q s [Hne Hs]%lookup_delete_Some. destruct (H4 q s Hs) as [G1 G2 G3 G4]. constructor; [done| |done|].
    + intros Ht. destruct (G2 Ht) as [j Hj]. exists j. by apply Hsl.
    + intros Ht. destruct (G4 Ht) as [Hj Hh]. split; [|done]. by apply Hsl.
  - intros q r s t [_ Hs]%lookup_delete_Some [_ Ht]%lookup_delete_Some. eauto.
  - rewrite zlen_insert. intros Ha. destruct (H6 Ha) as (q & s & Hq & Hs & Ht). exists q, s.
    assert (q <> p) by (intros ->; by apply Hi0, (H3 i 0 p)). split_and!; [by apply Hsl|by rewrite lookup_delete_ne|done].
Qed.

Section Free.
Context `{AtomConfig} `{AtomAllocator}.

Lemma wp_JS_FreeAtomStruct rt chains free p s i : table_ok rt chains free -> strings rt !! p = Some s -> slot_at (atom_array rt) i = Some (Atom p) -> i <> 0 ->
  wp (JS_FreeAtomStruct rt p) (fun rt' => exists chains', table_ok rt' chains' (i :: free) /\ view rt' = delete p (view rt) /\
    atom_array rt' = <[Z.to_nat i := Free (atom_free_index rt)]> (atom_array rt) /\ atom_hash_size rt' = atom_hash_size rt).
Proof.
  intros HT Hs Hi Hi0. pose proof (atom_slot_bounds _ _ _ Hi) as Hb. unfold JS_FreeAtomStruct. apply wp_bind.
  eapply wp_mono; [by apply (wp_unhash HT p s i)|]. intros [i' rt1] (-> & m & t & chains' & -> & Hm & HH).
  apply wp_bind. cbn. rewrite wr_ok by done. cbn [wp mbind outcome_bind].
  set (a' := <[Z.to_nat i := atom_set_free (atom_free_index rt)]> (atom_array rt)).
  assert (Hsum : lsum is_atom a' = atom_count rt - 1) by (unfold a'; rewrite (lsum_insert _ _ _ (Atom p)) by (by apply slot_lookup); rewrite (k_count _ _ _ HT); cbn; lia).
  rewrite (proj2 (Z.leb_le 0 _)) by (pose proof (lsum_is_atom a'); lia). cbn [c_assert wp mbind outcome_bind].
  match goal with |- exists _, table_ok ?r _ _ /\ _ => set (rt' := r) end.
  assert (Hv : view rt' = delete p (view rt)) by (unfold view at 1; cbn; by rewrite fmap_delete, Hm).
  exists chains'. split_and!; [|done..]. destruct HT as [H1 H2 H3 H4 H5 H6 H7]. constructor; [cbn; unfold a'; by rewrite zlen_insert|done|cbn; lia|done| | |].
  - rewrite Hv. by apply slots_ok_free.
  - rewrite Hv. eapply hash_ok_ext; [exact HH| |].
    + intros k x. split.
      * intros [(q & u & Hq & Hu & Hh & Hx) Hk]. assert (q <> p) by (intros ->; by apply Hk, (s_inj _ _ H5 k i p)).
        exists q, u. cbn. unfold a'. rewrite slot_at_insert, (proj2 (Z.eqb_neq k i)), lookup_delete_ne by done. done.
      * intros (q & u & Hq & [Hne Hu]%lookup_delete_Some & Hh & Hx). cbn in Hq. unfold a' in Hq. rewrite slot_at_insert in Hq by done.
        destruct (Z.eqb_spec k i) as [|Hk]; [done|]. split; [|done]. by exists q, u.
    + intros k x [(q & u & Hq & _) Hk]. unfold hnext. cbn. unfold a'. rewrite slot_at_insert, (proj2 (Z.eqb_neq k i)) by done. rewrite Hq.
      rewrite lookup_delete_ne; [done|]. intros <-. by apply Hk, (s_inj _ _ H5 k i p).
  - destruct H7 as [F1 F2]. assert (Hni : i ∉ free) by (intros (n & Hn)%F2; congruence). constructor; cbn; unfold a'.
    + split_and!; [done..|]. exists (atom_free_index rt). split; [unfold fnext; by rewrite slot_at_insert, Z.eqb_refl by done|].
      eapply linked_ext; [|exact F1]. intros k Hk. unfold fnext. rewrite slot_at_insert by done. destruct (Z.eqb_spec k i) as [->|]; [done|done].
    + intros k. rewrite slot_at_insert by done. destruct (Z.eqb_spec k i) as [->|Hk].
      * split; [intros _; eauto|intros _; by constructor].
      * rewrite elem_of_cons, <- F2. naive_solver.
Qed.

(** What releasing a reference to [p] leaves of the view and of the entries. *)
Definition drop_view (v : gmap ptr JSAtomStruct) (p : ptr) : gmap ptr JSAtomStruct :=
  match v !! p with
  | Some s => if ref_count s <=? 1 then delete p v else <[p := with_refs s (ref_count s - 1)]> v
  | None => v
  end.
Definition same_atoms (a a' : list slot) (P : ptr -> Prop) : Prop :=
  forall i p, slot_at a' i = Some (Atom p) <-> slot_at a i = Some (Atom p) /\ P p.

Lemma wp_js_free_string rt chains free p s : table_ok rt chains free -> strings rt !! p = Some s ->
  (slot_at (atom_array rt) 0 = Some (Atom p) -> 1 < ref_count s) ->
  wp (js_free_string rt p) (fun rt' => exists chains' free', table_ok rt' chains' free' /\ view rt' = drop_view (view rt) p /\
    atom_hash_size rt' = atom_hash_size rt /\ (free' = free \/ exists i, free' = i :: free) /\
    same_atoms (atom_array rt) (atom_array rt') (fun q => q = p -> 1 < ref_count s)).
Proof.
  intros HT Hs Hnull. unfold js_free_string. apply wp_bind. eapply wp_add_ref; [done|]. apply wp_bind.
  set (s' := with_refs s (ref_count s + -1)). set (rt1 := set_str rt p s'). assert (Hs1 : strings rt1 !! p = Some s') by (cbn; by rewrite lookup_insert_eq).
  pose proof (table_refs _ _ _ p s (ref_count s + -1) HT Hs : table_ok rt1 chains free) as HT1. eapply wp_get_str; [done|]. cbn [ref_count with_refs s'].
  pose proof (view_of _ _ _ Hs) as Hv. unfold drop_view. rewrite Hv, erase_refs.
  assert (Hv1 : view rt1 = <[p := with_refs (erase s) (ref_count s + -1)]> (view rt)) by (by apply view_ref).
  destruct (Z.leb_spec (ref_count s + -1) 0) as [Hle|Hgt].
  - rewrite (proj2 (Z.leb_le (ref_count s) 1)) by lia. destruct (Z.eqb_spec (atom_type s') 0) as [E0|E0]; cbn [negb].
    + cbn [wp]. exists chains, free. assert (Hn : forall i, slot_at (atom_array rt1) i <> Some (Atom p)) by (eapply not_atom; [done|]; intros u Hu; congruence). split_and!.
      * eapply (table_other _ _ _ p); [done|done| |by rewrite lookup_delete_eq]. intros q Hq. by rewrite lookup_delete_ne.
      * change (view (set_strings rt1 (delete p (strings rt1)))) with (erase <$> delete p (strings rt1)). rewrite fmap_delete. fold (view rt1). by rewrite Hv1, delete_insert_eq.
      * done.
      * by left.
      * intros i q. split; [|by intros [? _]]. intros Hq. split; [done|]. intros ->. by apply Hn in Hq.
    + destruct (t_slot _ _ _ (string_ok HT1 _ _ Hs1)) as [i Hi]; [by rewrite erase_type|]. pose proof (atom_slot_bounds _ _ _ Hi) as Hb.
      eapply wp_mono; [eapply (wp_JS_FreeAtomStruct rt1 chains free p s' i); [done..|intros ->; specialize (Hnull Hi); lia]|].
      intros rt' (chains' & HT' & Hv' & Ha' & Hsz'). exists chains', (i :: free). split_and!; [done|by rewrite Hv', Hv1, delete_insert_eq|done|eauto|].
      intros k q. rewrite Ha', slot_at_insert by done. destruct (Z.eqb_spec k i) as [->|Hk].
      * split; [done|]. intros [Hq HP]. assert (q = p) by (cbn in Hi; congruence). specialize (HP ltac:(done)). lia.
      * split; [|by intros [? _]]. intros Hq. split; [done|]. intros ->. exfalso. by apply Hk, (s_inj _ _ (k_slots _ _ _ HT) k i p).
  - rewrite (proj2 (Z.leb_gt (ref_count s) 1)) by lia. cbn [wp]. exists chains, free. split_and!; [done|by rewrite Hv1|done|by left|].
    intros i q. split; [|by intros [? _]]. intros Hq. split; [done|]. intros _. lia.
Qed.
End Free.

(** ** A new hash table *)

Lemma hash_ok_empty nx size k : 0 <= k <= 29 -> size = 2 ^ k ->
  hash_ok nx (fun _ _ => False) (replicate (Z.to_nat size) 0) size (replicate (Z.to_nat size) []).
Proof.
  intros Hk Hsz. assert (0 < size) by (rewrite Hsz; lia). constructor; [unfold zlen; rewrite length_replicate; lia|eauto|by rewrite !length_replicate| |].
  - intros j c [-> Hj]%lookup_replicate. exists 0. split; [by apply lookup_replicate|done].
  - intros j c i [-> Hj]%lookup_replicate. split; [by intros ?%not_elem_of_nil|by intros (? & [] & _)].
Qed.

Section Resize.
Context `{AtomConfig} `{AtomAllocator}.

Lemma wp_rehash_chain c : forall fuel h rt nh size k nch (E : Z -> Z -> Prop),
  0 <= k <= 29 -> size = 2 ^ k -> (length c < fuel)%nat -> linked (hnext (strings rt) (atom_array rt)) h c ->
  slots_ok (view rt) (atom_array rt) -> (forall i, i ∈ c -> exists x, hentry (view rt) (atom_array rt) i x) ->
  hash_ok (hnext (strings rt) (atom_array rt)) E nh size nch -> (forall i x, i ∈ c -> ~ E i x) ->
  wp (loop fuel (fun '(h, rt, new_hash) =>
      if h =? 0 then Ret (inr (rt, new_hash))
      else
        p ← get_atom rt h;
        s ← get_str rt p;
        let hash_next1 := hash_next s in
        let j := Z.land (hash s) (size - 1) in
        n ← rd new_hash j;
        let rt := set_str rt p (with_next s n) in
        new_hash ← wr new_hash j h;
        Ret (inl (hash_next1, rt, new_hash))) (h, rt, nh))
    (fun '(rt', nh') => exists m nch', rt' = set_strings rt m /\ view rt' = view rt /\
      (forall i, i ∉ c -> hnext m (atom_array rt) i = hnext (strings rt) (atom_array rt) i) /\
      hash_ok (hnext m (atom_array rt)) (fun i x => E i x \/ i ∈ c /\ hentry (view rt) (atom_array rt) i x) nh' size nch').
Proof.
  induction c as [|i c IH]; intros [|fuel] h rt nh size k nch E Hk Hsz Hlen Hl HS Hc HH Hnot; cbn [length] in Hlen; try lia; cbn [loop].
  { cbn in Hl. subst h. cbn. exists (strings rt), nch. split_and!; [by destruct rt|done|done|]. eapply hash_ok_ext; [done| |done].
    intros i x. split; [by left|]. intros [?|[?%not_elem_of_nil _]]; done. }
  pose proof (linked_NoDup _ _ _ Hl) as [Hni Hnd]%NoDup_cons. destruct Hl as (-> & Hi0 & n & En & Hl). rewrite (proj2 (Z.eqb_neq i 0)) by done.
  apply hnext_some in En as (p & s & Hi & Hs & En). rewrite (get_atom_ok _ _ _ Hi). cbn [mbind outcome_bind]. rewrite (get_str_ok _ _ _ Hs). cbn [mbind outcome_bind].
  set (j := Z.land (hash s) (size - 1)). pose proof (land_mask (hash s) k (proj1 Hk)) as Hr. rewrite <- Hsz in Hr. fold j in Hr.
  assert (Hcj : exists cj, nch !! Z.to_nat j = Some cj).
  { apply lookup_lt_is_Some_2. rewrite (h_chains _ _ _ _ _ HH). pose proof (h_size _ _ _ _ _ HH) as Hz. unfold zlen in Hz. lia. }
  destruct Hcj as [cj Hcj]. destruct (h_chain _ _ _ _ _ HH _ _ Hcj) as (hj & Ehj & Hlj). pose proof (h_size _ _ _ _ _ HH) as Hz.
  rewrite (proj2 (rd_Ret _ _ hj)) by (split; [lia|done]). cbn [mbind outcome_bind]. rewrite wr_ok by lia. cbn [mbind outcome_bind].
  assert (Hhs : hashed s = true).
  { destruct (Hc i) as (x & q & u & Hq & Hu & Hhu & _); [by constructor|]. assert (q = p) as -> by congruence. rewrite (view_of _ _ _ Hs) in Hu. injection Hu as <-. by rewrite erase_hashed in Hhu. }
  assert (Hent : forall x, hentry (view rt) (atom_array rt) i x <-> x = hash s).
  { intros x. split.
    - intros (q & u & Hq & Hu & _ & <-). assert (q = p) as -> by congruence. rewrite (view_of _ _ _ Hs) in Hu. injection Hu as <-. apply erase_hash.
    - intros ->. exists p, (erase s). split_and!; [done|by apply view_of|by rewrite erase_hashed|apply erase_hash]. }
  set (rt1 := set_str rt p (with_next s hj)). assert (Hv1 : view rt1 = view rt) by (by apply view_next).
  assert (Hx : forall i', i' <> i -> hnext (strings rt1) (atom_array rt) i' = hnext (strings rt) (atom_array rt) i').
  { intros i' Hne. unfold hnext. destruct (slot_at (atom_array rt) i') as [[| |q]|] eqn:Eq; try done. cbn. rewrite lookup_insert_ne; [done|].
    intros ->. by apply Hne, (s_inj _ _ HS i' i q). }
  assert (Hx1 : hnext (strings rt1) (atom_array rt) i = Some hj) by (unfold hnext; rewrite Hi; cbn; by rewrite lookup_insert_eq).
  assert (Hicj : i ∉ cj) by (intros (x & Hx' & _)%(h_in _ _ _ _ _ HH _ _ _ Hcj); by apply (Hnot i x); [constructor|]).
  assert (HH1 : hash_ok (hnext (strings rt1) (atom_array rt)) (fun i' x => E i' x \/ i' = i /\ x = hash s) (<[Z.to_nat j := i]> nh) size (<[Z.to_nat j := i :: cj]> nch)).
  { eapply hash_ok_chain; [exact HH|unfold zlen in Hz; lia| | | |].
    - split_and!; [done..|]. exists hj. split; [done|]. eapply linked_ext; [|done]. intros i' Hi'. apply Hx. intros ->. done.
    - intros i'. rewrite elem_of_cons, (h_in _ _ _ _ _ HH _ _ i' Hcj). split.
      + intros [->|(x & HE & Hb)]; [exists (hash s)|exists x; by auto]. split; [by right|]. fold j. lia.
      + intros (x & [HE|[-> ->]] & Hb); [right; eauto|by left].
    - intros i' x Hb. split; [by left|]. intros [HE|[-> ->]]; [done|]. exfalso. apply Hb. fold j. lia.
    - intros i' x Hb HE. apply Hx. intros ->. by apply (Hnot i x); [constructor|]. }
  eapply wp_mono; [eapply (IH fuel (hash_next s) rt1 _ size k _ _ Hk Hsz)|].
  - lia.
  - cbn [atom_array set_str set_strings]. rewrite En. eapply linked_ext; [|exact Hl]. intros i' Hi'. apply Hx. by intros ->.
  - by rewrite Hv1.
  - intros i' Hi'. rewrite Hv1. apply Hc. by constructor.
  - exact HH1.
  - intros i' x Hi' [HE|[-> _]]; [|done]. by apply (Hnot i' x); [constructor|].
  - intros [rt' nh'] (m & nch' & -> & Hv' & Hx' & HH'). exists m, nch'. split_and!; [done|by rewrite Hv', Hv1| |].
    + intros i' [Hne Hi']%not_elem_of_cons. etransitivity; [exact (Hx' i' Hi')|]. by apply Hx.
    + eapply hash_ok_ext; [exact HH'| |done]. intros i' x. rewrite Hv1, elem_of_cons. cbn [atom_array set_str set_strings rt1].
      split; [intros [[HE|[-> ->]]|[Hin He]]|intros [HE|[[->|Hin] He]]]; [by left|right; split; [by left|by apply Hent]|right; by split; [right|]|by left; left|left; right; split; [done|by apply Hent]|by right].
Qed.
End Resize.

Section Resize2.
Context `{AtomConfig} `{AtomAllocator}.

Lemma land_pow k : 0 <= k -> Z.land (2 ^ k) (2 ^ k - 1) = 0.
Proof.
  intros Hk. replace (2 ^ k - 1) with (Z.ones k) by (rewrite Z.ones_equiv; lia). rewrite Z.land_ones by done. apply Z_mod_same_full.
Qed.

Lemma wp_JS_ResizeAtomHash rt chains free size k : table_ok rt chains free -> 0 <= k <= 29 -> size = 2 ^ k ->
  wp (JS_ResizeAtomHash rt size) (fun '(_, rt') => exists chains', table_ok rt' chains' free /\ view rt' = view rt /\ atom_array rt' = atom_array rt).
Proof.
  intros HT Hk Hsz. unfold JS_ResizeAtomHash. destruct (u32_mask size k Hk Hsz) as [Hm Hpos]. rewrite Hm.
  apply wp_bind. rewrite Hsz at 1 2. rewrite land_pow by lia. cbn [Z.eqb c_assert wp].
  destruct (hash_alloc _ _); [|cbn; by exists chains]. apply wp_bind. pose proof (k_hash _ _ _ HT) as HH. pose proof (k_slots _ _ _ HT) as HS.
  set (N := length chains). assert (HN : Z.to_nat (atom_hash_size rt) = N).
  { unfold N. rewrite (h_chains _ _ _ _ _ HH). pose proof (h_size _ _ _ _ _ HH) as Hz. unfold zlen in Hz. lia. } rewrite HN.
  apply (wp_foldM (fun '(rt1, nh) rest => exists j m nch, rest = seq j (N - j) /\ (j <= N)%nat /\ rt1 = set_strings rt m /\ view rt1 = view rt /\
    (forall j' c i, (j <= j')%nat -> chains !! j' = Some c -> i ∈ c -> hnext m (atom_array rt) i = hnext (strings rt) (atom_array rt) i) /\
    hash_ok (hnext m (atom_array rt)) (fun i x => hentry (view rt) (atom_array rt) i x /\ Z.land x (atom_hash_size rt - 1) < Z.of_nat j) nh size nch)).
  - intros [rt1 nh] j' rest (j & m & nch & Er & Hj & -> & Hv & Hx & HH1).
    destruct (N - j)%nat as [|d] eqn:Ed; [done|]. cbn [seq] in Er. injection Er as -> ->.
    destruct (lookup_lt_is_Some_2 chains j) as [c Hc]; [fold N; lia|]. destruct (h_chain _ _ _ _ _ HH _ _ Hc) as (h & Eh & Hl).
    cbn [atom_hash set_strings]. rewrite (proj2 (rd_Ret _ _ h)) by (split; [lia|by rewrite Nat2Z.id]). cbn [mbind outcome_bind].
    unfold rehash_chain. eapply wp_mono; [eapply (wp_rehash_chain c _ h (set_strings rt m) nh size k nch _ Hk Hsz)|].
    + by apply (chain_length HT j).
    + cbn. eapply linked_ext; [|exact Hl]. intros i Hi. by apply (Hx j c i).
    + by rewrite Hv.
    + intros i Hi. rewrite Hv. apply (h_in _ _ _ _ _ HH _ _ i Hc) in Hi as (x & Hx' & _). by exists x.
    + exact HH1.
    + intros i x Hi [He Hlt]. apply (h_in _ _ _ _ _ HH _ _ i Hc) in Hi as (y & Hy & Ey). rewrite (hentry_det _ _ _ _ _ He Hy) in Hlt. lia.
    + intros [rt' nh'] (m' & nch' & -> & Hv' & Hx' & HH'). exists (S j), m', nch'. split_and!; [f_equal; lia|lia|done|by rewrite Hv', Hv| |].
      * intros j' c' i Hj' Hc' Hi. etransitivity; [apply Hx'|by eapply Hx; [|done..]; lia].
        intros Hi2. apply (h_in _ _ _ _ _ HH _ _ i Hc) in Hi2 as (x & Hx2 & Ex). apply (h_in _ _ _ _ _ HH _ _ i Hc') in Hi as (y & Hy & Ey).
        rewrite (hentry_det _ _ _ _ _ Hx2 Hy) in Ex. lia.
      * eapply hash_ok_ext; [exact HH'| |done]. intros i x. rewrite Hv. cbn [atom_array set_strings]. rewrite (h_in _ _ _ _ _ HH _ _ i Hc). split.
        -- intros [[He Hlt]|[(y & Hy & Ey) He]]; (split; [done|]); [lia|]. rewrite (hentry_det _ _ _ _ _ He Hy). lia.
        -- intros [He Hlt]. destruct (Z.lt_ge_cases (Z.land x (atom_hash_size rt - 1)) (Z.of_nat j)); [left; by split|right]. split; [|done]. exists x. split; [done|lia].
  - intros [rt1 nh] (j & m & nch & Er & Hj & -> & Hv & _ & HH1). assert (j = N) as -> by (destruct (N - j)%nat eqn:E; [lia|done]).
    cbn [wp]. exists nch. split_and!; [|done|done]. pose proof HT as [H1 H2 H3 H4 H5 H6 H7]. constructor; [done..| | | |done].
    + unfold JS_ATOM_COUNT_RESIZE. cbn [atom_count_resize atom_hash_size]. rewrite i32_small by lia. lia.
    + change (slots_ok (view (set_strings rt m)) (atom_array rt)). by rewrite Hv.
    + change (hash_ok (hnext m (atom_array rt)) (hentry (view (set_strings rt m)) (atom_array rt)) nh size nch). rewrite Hv.
      eapply hash_ok_ext; [exact HH1| |done]. intros i x. split; [by intros [? _]|]. intros He. split; [done|].
      destruct (chain_of HT x) as (_ & _ & Hr). pose proof (h_chains _ _ _ _ _ HH) as Hlen. unfold zlen in Hr. unfold N. lia.
  - exists O, (strings rt), (replicate (Z.to_nat size) []). split_and!; [by rewrite Nat.sub_0_r|lia|by destruct rt|done|done|].
    eapply hash_ok_ext; [by apply (hash_ok_empty _ _ k)| |done]. intros i x. split; [done|]. intros [_ Hlt].
    destruct (chain_of HT x) as (_ & _ & Hr). lia.
Qed.
End Resize2.
