(* ===== verification/AtomNew.v ===== *)
(** * Atoms: new entries ([quickjs.c])

    The growth of the array, the entry of a string that is not an atom yet, and
    [__JS_NewAtom] and [__JS_FindAtom] as a whole. *)

From S2P Require Import Prelude Cutils JsValues AtomTable AtomInv AtomHash.

(** ** The growth of the array *)

(** An array of atoms takes no more than 4 GiB: the size is computed in an
    [int], which overflows beyond that. *)
Class SmallArrays `{AtomAllocator} := small_arrays : forall m n, array_realloc m n = true -> n <= 2 ^ 32.

Lemma lsum_ext {A} (f : A -> Z) (l l' : list A) : length l = length l' ->
  (forall i x y, l !! i = Some x -> l' !! i = Some y -> f x = f y) -> lsum f l = lsum f l'.
Proof.
  revert l'. induction l as [|x l IH]; intros [|y l'] Hlen Hf; cbn in Hlen; try lia. rewrite !lsum_cons. rewrite (Hf O x y eq_refl eq_refl).
  f_equal. apply IH; [lia|]. intros i. apply (Hf (S i)).
Qed.

Lemma grown_size_ok size : 0 <= size <= 2 ^ 29 -> size < grown_size size /\ 211 <= grown_size size.
Proof.
  intros Hs. unfold grown_size, Bits.max_int. rewrite i32_small by lia. assert (Hq : Z.quot (size * 3) 2 = size * 3 / 2) by (apply Z.quot_div_nonneg; lia).
  rewrite Hq. pose proof (Z.div_mod (size * 3) 2 ltac:(lia)). pose proof (Z.mod_pos_bound (size * 3) 2 ltac:(lia)). bcase; breflect; lia.
Qed.

Lemma wp_link_free a start new : 0 <= start <= new -> zlen a = new ->
  wp (link_free a start new) (fun a' => zlen a' = new /\ forall i, slot_at a' i =
    if (start <=? i) && (i <? new) then Some (Free (if i =? new - 1 then 0 else i + 1)) else slot_at a i).
Proof.
  intros Hr Ha. unfold link_free. set (d := Z.to_nat (new - start)).
  apply (wp_foldM (fun a1 rest => exists k, rest = seq k (d - k) /\ (k <= d)%nat /\ zlen a1 = new /\ forall i, slot_at a1 i =
    if (start <=? i) && (i <? start + Z.of_nat k) then Some (Free (if i =? new - 1 then 0 else i + 1)) else slot_at a i)).
  - intros a1 k' rest (k & Er & Hk & Hz & Hi). destruct (d - k)%nat as [|e] eqn:Ed; [done|]. injection Er as -> ->.
    rewrite wr_ok by lia. cbn [wp]. exists (S k). split_and!; [f_equal; lia|lia|by rewrite zlen_insert|].
    intros i. rewrite slot_at_insert by lia. unfold atom_set_free. rewrite Hi. destruct (Z.eqb_spec i (start + Z.of_nat k)) as [->|Hne].
    + rewrite (proj2 (Z.leb_le _ _)), (proj2 (Z.ltb_lt _ _)) by lia. done.
    + destruct (Z.leb_spec start i), (Z.ltb_spec i (start + Z.of_nat k)), (Z.ltb_spec i (start + Z.of_nat (S k))); cbn; done || lia.
  - intros a1 (k & Er & Hk & Hz & Hi). assert (k = d) as -> by (destruct (d - k)%nat eqn:E; [lia|done]). split; [done|]. intros i. rewrite Hi.
    replace (start + Z.of_nat d) with new by lia. done.
  - exists O. rewrite Nat.sub_0_r. split_and!; [done|lia|done|]. intros i. destruct (Z.leb_spec start i), (Z.ltb_spec i (start + Z.of_nat 0)); cbn; done || lia.
Qed.

Lemma linked_seqZ nx n : forall start, 0 < start ->
  (forall i, start <= i < start + Z.of_nat (S n) -> nx i = Some (if i =? start + Z.of_nat n then 0 else i + 1)) ->
  linked nx start (seqZ start (Z.of_nat (S n))).
Proof.
  induction n as [|n IH]; intros start Hs Hx; rewrite seqZ_cons by lia.
  - replace (Z.pred (Z.of_nat 1)) with 0 by lia. split_and!; [done|lia|]. exists 0. split; [|done]. rewrite Hx by lia. by rewrite (proj2 (Z.eqb_eq _ _)) by lia.
  - split_and!; [done|lia|]. exists (start + 1). split; [rewrite Hx, (proj2 (Z.eqb_neq _ _)) by lia; done|].
    replace (Z.pred (Z.of_nat (S (S n)))) with (Z.of_nat (S n)) by lia. apply (IH (Z.succ start)); [lia|]. intros i Hi. rewrite Hx by lia.
    replace (Z.succ start + Z.of_nat n) with (start + Z.of_nat (S n)) by lia. done.
Qed.

Definition null_atom : JSAtomStruct := mkStruct 1 (mkString false []) 0 JS_ATOM_TYPE_SYMBOL 0.

(** [a'] has the atoms of [a] and free entries from [start]. *)
Definition extends (a a' : list slot) (start : Z) : Prop :=
  (forall i, i < zlen a -> slot_at a' i = slot_at a i) /\ (forall i, start <= i < zlen a' -> exists n, slot_at a' i = Some (Free n)).

Lemma slots_ok_extend v a a' start : slots_ok v a -> extends a a' start -> start = zlen a -> 0 < zlen a -> slots_ok v a'.
Proof.
  intros [H1 H2 H3 H4 H5 H6] [Hold Hnew] -> Ha.
  assert (Hsl : forall j q, slot_at a' j = Some (Atom q) <-> slot_at a j = Some (Atom q)).
  { intros j q. destruct (Z.lt_ge_cases j (zlen a)) as [Hj|Hj]; [by rewrite Hold|]. split; intros Hq; pose proof (atom_slot_bounds _ _ _ Hq); [|lia].
    destruct (Hnew j ltac:(lia)) as [n Hn]. congruence. }
  constructor.
  - intros i Hi. destruct (Z.lt_ge_cases i (zlen a)) as [Hj|Hj]; [rewrite Hold in Hi by done; by apply H1 in Hi|].
    pose proof (atom_slot_bounds _ _ _ Hi). destruct (Hnew i ltac:(lia)) as [n Hn]. congruence.
  - intros i p Hi%Hsl. eauto.
  - intros i j p Hi%Hsl Hj%Hsl. eauto.
  - intros p s Hs. destruct (H4 p s Hs) as [G1 G2 G3 G4]. constructor; [done| |done|].
    + intros Ht. destruct (G2 Ht) as [i Hi]. exists i. by apply Hsl.
    + intros Ht. destruct (G4 Ht) as [Hi Hh]. split; [by apply Hsl|done].
  - done.
  - intros _. destruct (H6 Ha) as (p & s & Hp & Hs & Ht). exists p, s. split_and!; [by apply Hsl|done..].
Qed.

Lemma slots_ok_first v a' p0 : slots_ok v [] -> v !! p0 = None -> slot_at a' 0 = Some (Atom p0) ->
  (forall i, 1 <= i < zlen a' -> exists n, slot_at a' i = Some (Free n)) -> slots_ok (<[p0 := null_atom]> v) a'.
Proof.
  intros [H1 H2 H3 H4 H5 H6] Hp0 H0 Hnew. pose proof (atom_slot_bounds _ _ _ H0) as Hb0.
  assert (Hsl : forall j q, slot_at a' j = Some (Atom q) <-> j = 0 /\ q = p0).
  { intros j q. split; [|intros [-> ->]; done]. intros Hq. pose proof (atom_slot_bounds _ _ _ Hq). destruct (decide (j = 0)) as [->|Hne]; [naive_solver|].
    destruct (Hnew j ltac:(lia)) as [n Hn]. congruence. }
  assert (Hty : forall p s, v !! p = Some s -> atom_type s = 0).
  { intros p s Hs. destruct (Z.eq_dec (atom_type s) 0) as [|Hne]; [done|]. destruct (t_slot _ _ _ (H4 p s Hs) Hne) as [i Hi%atom_slot_bounds]. cbn in Hi. unfold zlen in Hi. cbn in Hi. lia. }
  constructor.
  - intros i Hi. pose proof (atom_slot_bounds _ _ _ Hi). destruct (decide (i = 0)) as [->|Hne]; [congruence|]. destruct (Hnew i ltac:(lia)) as [n Hn]. congruence.
  - intros i p [-> ->]%Hsl. exists null_atom. by rewrite lookup_insert_eq.
  - intros i j p [-> ->]%Hsl [-> _]%Hsl. done.
  - intros p s [[<- <-]|[Hne Hs]]%lookup_insert_Some.
    + constructor; cbn; [done|intros _; by exists 0|done|intros _; split; [done|by left]].
    + pose proof (Hty p s Hs) as E. constructor; rewrite ?E; [done|done|unfold hashed; by rewrite E|done].
  - intros p q s t [[<- <-]|[_ Hs]]%lookup_insert_Some; [done|]. intros _ Hh. exfalso. unfold hashed in Hh. by rewrite (Hty p s Hs) in Hh.
  - intros _. exists p0, null_atom. by rewrite lookup_insert_eq.
Qed.

Lemma free_ok_seq a' a start : free_ok a 0 [] -> 1 <= start < zlen a' -> (forall i, i < start -> ~ exists n, slot_at a' i = Some (Free n)) ->
  (forall i, start <= i < zlen a' -> slot_at a' i = Some (Free (if i =? zlen a' - 1 then 0 else i + 1))) ->
  free_ok a' start (seqZ start (zlen a' - start)).
Proof.
  intros _ Hs Hold Hnew. constructor.
  - destruct (Z.to_nat (zlen a' - start)) as [|n] eqn:En; [lia|]. replace (zlen a' - start) with (Z.of_nat (S n)) by lia. apply linked_seqZ; [lia|].
    intros i Hi. unfold fnext. rewrite Hnew by lia. by replace (start + Z.of_nat n) with (zlen a' - 1) by lia.
  - intros i. rewrite elem_of_seqZ. split.
    + intros Hi. rewrite Hnew by lia. eauto.
    + intros [n Hn]. pose proof (atom_slot_bounds _ _ _ Hn). destruct (Z.lt_ge_cases i start) as [Hlt|]; [|lia]. exfalso. apply (Hold i Hlt). eauto.
Qed.

Section Grow.
Context {CFG : AtomConfig} {ALC : AtomAllocator} {SML : SmallArrays}.

(** The first array gets the null atom. *)
Definition grown (rt rt' : JSRuntime) : Prop :=
  (atom_size rt = 0 /\ exists p0, strings rt !! p0 = None /\ view rt' = <[p0 := null_atom]> (view rt) /\
     forall i q, slot_at (atom_array rt') i = Some (Atom q) <-> i = 0 /\ q = p0) \/
  (0 < atom_size rt /\ view rt' = view rt /\ forall i q, slot_at (atom_array rt') i = Some (Atom q) <-> slot_at (atom_array rt) i = Some (Atom q)).

Lemma wp_grow_atom_array rt chains : table_ok rt chains [] ->
  wp (grow_atom_array rt) (fun '(ok, rt') =>
    if (ok : bool) then let start := Z.max 1 (atom_size rt) in start < atom_size rt' /\ table_ok rt' chains (seqZ start (atom_size rt' - start)) /\ grown rt rt' /\ atom_hash_size rt' = atom_hash_size rt
    else rt' = rt).
Proof.
  intros HT. pose proof HT as [H1 H2 H3 H4 H5 H6 H7]. pose proof (zlen_nonneg (atom_array rt)) as Hz0.
  destruct (grown_size_ok (atom_size rt)) as [Hg1 Hg2]; [lia|]. unfold grow_atom_array. set (new := grown_size (atom_size rt)) in *.
  destruct (JS_ATOM_MAX <? new); [done|]. destruct (array_realloc _ _) eqn:Er; [|done]. apply small_arrays in Er.
  rewrite take_ge by (unfold zlen in *; lia). set (na := atom_array rt ++ replicate (Z.to_nat (new - zlen (atom_array rt))) Undef).
  assert (Hna : zlen na = new) by (unfold na; rewrite zlen_app; unfold zlen at 2; rewrite length_replicate; lia).
  assert (Hna1 : forall i, i < zlen (atom_array rt) -> slot_at na i = slot_at (atom_array rt) i).
  { intros i Hi. unfold slot_at. destruct (Z.ltb_spec i 0); [done|]. unfold na, zlen in *. by rewrite lookup_app_l by lia. }
  assert (Hsum : forall a' start, zlen a' = new -> (forall i, i < start -> slot_at a' i = slot_at na i) -> (forall i, start <= i < new -> exists n, slot_at a' i = Some (Free n)) ->
    zlen (atom_array rt) <= start -> lsum is_atom a' = lsum is_atom (atom_array rt)).
  { intros a' start Ha' Hold Hnew Hst. transitivity (lsum is_atom na).
    - apply lsum_ext; [unfold zlen in *; lia|]. intros i x y Hx Hy. assert (Hlk : forall l, slot_at l (Z.of_nat i) = l !! i) by (intros l; unfold slot_at; rewrite (proj2 (Z.ltb_ge _ 0)) by lia; by rewrite Nat2Z.id).
      pose proof (lookup_lt_Some _ _ _ Hx). destruct (Z.lt_ge_cases (Z.of_nat i) start) as [Hlt|Hge].
      + specialize (Hold _ Hlt). rewrite !Hlk in Hold. congruence.
      + destruct (Hnew (Z.of_nat i)) as [n Hn]; [unfold zlen in *; lia|]. rewrite Hlk in Hn. assert (x = Free n) as -> by congruence.
        unfold na in Hy. rewrite lookup_app_r in Hy by (unfold zlen in *; lia). apply lookup_replicate in Hy as [-> _]. done.
    - unfold na. rewrite lsum_app. assert (lsum is_atom (replicate (Z.to_nat (new - zlen (atom_array rt))) Undef) = 0) as ->; [|lia].
      generalize (Z.to_nat (new - zlen (atom_array rt))). intros m. induction m as [|m IHm]; [done|]. cbn [replicate]. by rewrite lsum_cons, IHm. }
  assert (Hold0 : forall i, ~ exists n, slot_at (atom_array rt) i = Some (Free n)) by (intros i (n & Hn); by apply (not_elem_of_nil i), (f_in _ _ _ H7); eauto).
  destruct (Z.eqb_spec (atom_size rt) 0) as [Es|Es].
  - destruct (string_alloc _ _) as [p|] eqn:Ep; [|done]. apply string_fresh in Ep. set (rt1 := set_str rt p _).
    assert (Hnil : atom_array rt = []) by (destruct (atom_array rt); [done|rewrite zlen_cons in H1; pose proof (zlen_nonneg l); lia]).
    apply wp_bind. rewrite wr_ok by lia. cbn [wp]. apply wp_bind. eapply wp_mono; [apply (wp_link_free _ 1 new); [lia|by rewrite zlen_insert]|].
    intros a' [Ha' Hs']. cbn [wp]. rewrite Es. change (Z.max 1 0) with 1. cbv zeta. cbn [atom_size].
    assert (H0 : slot_at a' 0 = Some (Atom p)) by (rewrite Hs'; cbn [Z.leb andb]; rewrite slot_at_insert by lia; done).
    assert (Hnew : forall i, 1 <= i < new -> slot_at a' i = Some (Free (if i =? new - 1 then 0 else i + 1))).
    { intros i Hi. rewrite Hs'. by rewrite (proj2 (Z.leb_le 1 i)), (proj2 (Z.ltb_lt i new)) by lia. }
    assert (Hvp : view rt !! p = None) by (unfold view; by rewrite lookup_fmap, Ep).
    assert (Hv : view rt1 = <[p := null_atom]> (view rt)) by apply view_set_str.
    assert (Hnone : forall i x, ~ hentry (view rt) (atom_array rt) i x) by (intros i x (q & u & Hq%atom_slot_bounds & _); rewrite Hnil in Hq; cbn in Hq; unfold zlen in Hq; cbn in Hq; lia).
    assert (Hsl : forall j q, slot_at a' j = Some (Atom q) <-> j = 0 /\ q = p).
    { intros j q. split; [|intros [-> ->]; done]. intros Hq. pose proof (atom_slot_bounds _ _ _ Hq). destruct (decide (j = 0)) as [->|Hne]; [split; [done|congruence]|].
      rewrite Hnew in Hq by lia. done. }
    split_and!; [lia| |left; split; [done|]; exists p; split_and!; done|done].
    constructor; [done|cbn; lia| |done| | |].
    + change (atom_count rt + 1 = lsum is_atom a'). rewrite H3, Hnil. destruct a' as [|x a']; [rewrite zlen_nil in Ha'; lia|].
      assert (x = Atom p) as -> by (by injection H0). rewrite lsum_cons. change (is_atom (Atom p)) with 1. assert (E0 : lsum is_atom a' = 0); [|rewrite E0; done].
      clear -Hnew Ha'. enough (Hf : forall y, y ∈ a' -> is_atom y = 0).
      { clear -Hf. induction a' as [|y a' IH]; [done|]. rewrite lsum_cons, (Hf y), IH; [done|intros z Hz; apply Hf; by constructor|by constructor]. }
      intros y (i & Hi)%list_elem_of_lookup. pose proof (lookup_lt_Some _ _ _ Hi). rewrite zlen_cons in Ha'. unfold zlen in Ha'. specialize (Hnew (Z.of_nat (S i)) ltac:(lia)).
      unfold slot_at in Hnew. rewrite (proj2 (Z.ltb_ge _ 0)), Nat2Z.id in Hnew by lia. change ((Atom p :: a') !! S i) with (a' !! i) in Hnew. rewrite Hi in Hnew. injection Hnew as ->. done.
    + change (slots_ok (view rt1) a'). rewrite Hv. apply slots_ok_first; [by rewrite <- Hnil|done|done|]. intros i Hi. rewrite Hnew by lia. eauto.
    + cbn [strings atom_array atom_hash atom_hash_size]. eapply hash_ok_ext; [exact H6| |intros i x Hx; by apply Hnone in Hx].
      intros i x. split; [intros Hx; by apply Hnone in Hx|]. intros (q & u & Hq & Hu & Hh & _). apply Hsl in Hq as [_ ->].
      change (view rt1 !! p = Some u) in Hu. rewrite Hv, lookup_insert_eq in Hu. by simplify_eq.
    + cbn [atom_array atom_free_index]. rewrite <- Ha'. eapply free_ok_seq; [|lia| |].
      * rewrite (f_list _ _ _ H7) in H7. exact H7.
      * intros i Hi (n & Hn). pose proof (atom_slot_bounds _ _ _ Hn). assert (i = 0) as -> by lia. congruence.
      * intros i Hi. rewrite Ha'. apply Hnew. lia.
  - apply wp_bind. eapply wp_mono; [apply (wp_link_free na (atom_size rt) new); [lia|done]|].
    intros a' [Ha' Hs']. cbn [wp]. replace (Z.max 1 (atom_size rt)) with (atom_size rt) by lia. cbv zeta. cbn [atom_size].
    assert (Hold : forall i, i < atom_size rt -> slot_at a' i = slot_at (atom_array rt) i).
    { intros i Hi. rewrite Hs', (proj2 (Z.leb_gt _ _)) by lia. cbn [andb]. apply Hna1. lia. }
    assert (Hnew : forall i, atom_size rt <= i < new -> slot_at a' i = Some (Free (if i =? new - 1 then 0 else i + 1))).
    { intros i Hi. rewrite Hs'. by rewrite (proj2 (Z.leb_le _ i)), (proj2 (Z.ltb_lt i new)) by lia. }
    assert (Hsl : forall i q, slot_at a' i = Some (Atom q) <-> slot_at (atom_array rt) i = Some (Atom q)).
    { intros i q. destruct (Z.lt_ge_cases i (atom_size rt)) as [Hlt|Hge]; [by rewrite Hold|]. split; intros Hq; pose proof (atom_slot_bounds _ _ _ Hq); [|lia].
      rewrite Hnew in Hq by lia. done. }
    split_and!; [done| |right; split_and!; [lia|done|done]|done]. constructor; [done|cbn; lia| |done| | |].
    + cbn [atom_count atom_array]. rewrite H3. symmetry. apply (Hsum a' (atom_size rt)); [done| | |lia].
      * intros i Hi. rewrite Hold by done. symmetry. apply Hna1. lia.
      * intros i Hi. rewrite Hnew by done. eauto.
    + change (slots_ok (view rt) a'). eapply (slots_ok_extend _ (atom_array rt) a' (zlen (atom_array rt))); [done| |done|lia].
      split; [intros i Hi; apply Hold; lia|]. intros i Hi. rewrite Hnew by lia. eauto.
    + cbn [strings atom_array atom_hash atom_hash_size]. change (view _) with (view rt). eapply hash_ok_ext; [exact H6| |].
      * intros i x. split; intros (q & u & Hq%Hsl & Hrest); by exists q, u.
      * intros i x (q & u & Hq & _). unfold hnext. rewrite (proj2 (Hsl i q) Hq), Hq. done.
    + cbn [atom_array atom_free_index]. rewrite <- Ha'. eapply free_ok_seq; [|lia| |].
      * rewrite (f_list _ _ _ H7) in H7. exact H7.
      * intros i Hi (n & Hn). rewrite Hold in Hn by done. apply (Hold0 i). eauto.
      * intros i Hi. rewrite Ha'. apply Hnew. lia.
Qed.
End Grow.

(** ** A new entry *)

Lemma slots_ok_insert v a p s i n s' : slots_ok v a -> slot_at a i = Some (Free n) -> v !! p = Some s -> atom_type s = 0 -> 0 < atom_type s' <= 3 ->
  (hashed s' = true -> hash s' = text_hash (text s') (atom_type s') /\
     forall q t, v !! q = Some t -> atom_type t = atom_type s' -> units (text t) <> units (text s')) ->
  (atom_type s' = JS_ATOM_TYPE_SYMBOL -> hash_next s' = i /\ (hash s' = JS_ATOM_HASH_SYMBOL \/ hash s' = JS_ATOM_HASH_PRIVATE)) ->
  slots_ok (<[p := s']> v) (<[Z.to_nat i := Atom p]> a).
Proof.
  intros [H1 H2 H3 H4 H5 H6] Hi Hp Ht0 Hty Hh Hsy. pose proof (atom_slot_bounds _ _ _ Hi) as Hb.
  assert (Hnp : forall j, slot_at a j <> Some (Atom p)) by (intros j Hj; destruct (H2 j p Hj) as (u & Hu & Htu); naive_solver).
  assert (Hsl : forall j q, slot_at (<[Z.to_nat i := Atom p]> a) j = Some (Atom q) <-> slot_at a j = Some (Atom q) \/ (j = i /\ q = p)).
  { intros j q. rewrite slot_at_insert by done. destruct (Z.eqb_spec j i) as [->|Hj]; [|naive_solver]. rewrite Hi. naive_solver. }
  constructor.
  - intros j. rewrite slot_at_insert by done. by destruct (j =? i).
  - intros j q [Hq|[-> ->]]%Hsl.
    + destruct (H2 j q Hq) as (u & Hu & Htu). exists u. rewrite lookup_insert_ne; [done|]. intros ->. by apply (Hnp j).
    + exists s'. rewrite lookup_insert_eq. split; [done|lia].
  - intros j k q [Hj|[-> ->]]%Hsl [Hk|[-> E]]%Hsl; [eauto|subst q; by apply Hnp in Hj|by apply Hnp in Hk|done].
  - intros q u [[<- <-]|[Hne Hu]]%lookup_insert_Some.
    + constructor; [lia| |by intros [? _]%Hh|].
      * intros _. exists i. apply Hsl. by right.
      * intros [-> ?]%Hsy. split; [|done]. apply Hsl. by right.
    + destruct (H4 q u Hu) as [G1 G2 G3 G4]. constructor; [done| |done|].
      * intros [j Hj]%G2. exists j. apply Hsl. by left.
      * intros [Hj ?]%G4. split; [|done]. apply Hsl. by left.
  - intros q r u w [[<- <-]|[Hne Hu]]%lookup_insert_Some [[<- <-]|[Hne' Hw]]%lookup_insert_Some Hhu Et Eu; [done| | |by eauto].
    + destruct (Hh Hhu) as [_ Hc]. exfalso. by eapply (Hc r w).
    + assert (Hhs : hashed s' = true) by (unfold hashed in *; by rewrite <- Et). destruct (Hh Hhs) as [_ Hc]. exfalso. by eapply (Hc q u).
  - rewrite zlen_insert. intros Ha. destruct (H6 Ha) as (q & u & Hq & Hu & Htu). exists q, u. split_and!; [apply Hsl; by left| |done].
    rewrite lookup_insert_ne; [done|]. intros ->. by apply Hnp in Hq.
Qed.

Lemma hentry_insert v a p s i n s' j x : slots_ok v a -> slot_at a i = Some (Free n) -> v !! p = Some s -> atom_type s = 0 ->
  hentry (<[p := s']> v) (<[Z.to_nat i := Atom p]> a) j x <-> hentry v a j x \/ (j = i /\ hashed s' = true /\ x = hash s').
Proof.
  intros HS Hi Hp Ht0. pose proof (atom_slot_bounds _ _ _ Hi) as Hb.
  assert (Hnp : forall j, slot_at a j <> Some (Atom p)) by (intros k Hk; destruct (s_atom _ _ HS k p Hk) as (u & Hu & Htu); naive_solver).
  split.
  - intros (q & u & Hq & Hu & Hh & Hx). rewrite slot_at_insert in Hq by done. destruct (Z.eqb_spec j i) as [->|Hj].
    + assert (q = p) as -> by congruence. rewrite lookup_insert_eq in Hu. right. naive_solver.
    + left. exists q, u. rewrite lookup_insert_ne in Hu; [done|]. intros ->. by apply Hnp in Hq.
  - intros [(q & u & Hq & Hu & Hh & Hx)|(-> & Hh & ->)].
    + exists q, u. rewrite slot_at_insert by done. destruct (Z.eqb_spec j i) as [->|Hj]; [congruence|].
      rewrite lookup_insert_ne; [done|]. intros ->. by apply Hnp in Hq.
    + exists p, s'. by rewrite slot_at_insert, Z.eqb_refl, lookup_insert_eq by done.
Qed.

Lemma free_ok_insert a i p free : free_ok a i (i :: free) -> slot_at a i <> None -> forall n, fnext a i = Some n -> free_ok (<[Z.to_nat i := Atom p]> a) n free.
Proof.
  intros [F1 F2] Hsome n Hn. pose proof (linked_NoDup _ _ _ F1) as [Hni _]%NoDup_cons. destruct F1 as (_ & _ & n' & E & Hl). assert (n' = n) as -> by congruence.
  destruct (slot_at a i) as [sl|] eqn:Hi; [|done]. apply atom_slot_bounds in Hi. constructor.
  - eapply linked_ext; [|exact Hl]. intros k Hk. unfold fnext. rewrite slot_at_insert by done. destruct (Z.eqb_spec k i) as [->|]; [done|done].
  - intros k. rewrite slot_at_insert by done. destruct (Z.eqb_spec k i) as [->|Hk]; [split; [done|by intros []]|].
    rewrite <- F2, elem_of_cons. naive_solver.
Qed.

(** What the new atom must satisfy. *)
Definition new_ok (rt : JSRuntime) (s : JSAtomStruct) (h h1 ty : Z) : Prop :=
  (ty = JS_ATOM_TYPE_SYMBOL /\ (h = JS_ATOM_HASH_SYMBOL \/ h = JS_ATOM_HASH_PRIVATE)) \/
  (0 < ty < JS_ATOM_TYPE_SYMBOL /\ h = text_hash (text s) ty /\ h1 = Z.land h (atom_hash_size rt - 1) /\
   forall q t, view rt !! q = Some t -> atom_type t = ty -> units (text t) <> units (text s)).

Section Insert.
Context {CFG : AtomConfig} {ALC : AtomAllocator} {SML : SmallArrays}.

Lemma wp_insert_atom rt chains i free p s h h1 ty : table_ok rt chains (i :: free) -> strings rt !! p = Some s -> atom_type s = 0 ->
  new_ok rt s h h1 ty ->
  wp (insert_atom rt p h h1 ty) (fun '(i', rt') => i' = i /\ exists chains', table_ok rt' chains' free /\
    view rt' = <[p := mkStruct (ref_count s) (text s) h ty (if ty =? JS_ATOM_TYPE_SYMBOL then i else 0)]> (view rt) /\
    (forall j q, slot_at (atom_array rt') j = Some (Atom q) <-> slot_at (atom_array rt) j = Some (Atom q) \/ (j = i /\ q = p)) /\
    atom_size rt' = atom_size rt).
Proof.
  intros HT Hs Ht0 Hnew. pose proof HT as [H1 H2 H3 H4 H5 H6 H7]. pose proof (f_list _ _ _ H7) as (Ei & Hi0 & n & Hn & Hl).
  assert (Hi : slot_at (atom_array rt) i = Some (Free n)) by (unfold fnext in Hn; destruct (slot_at (atom_array rt) i) as [[]|]; congruence).
  pose proof (atom_slot_bounds _ _ _ Hi) as Hb. unfold insert_atom. rewrite Ei. apply wp_bind. rewrite (rd_slot _ _ _ Hi). cbn [wp atom_get_free mbind outcome_bind].
  apply wp_bind. rewrite wr_ok by done. cbn [wp]. apply wp_bind. rewrite get_str_ok with (s := s) by done. cbn [wp].
  set (a' := <[Z.to_nat i := Atom p]> (atom_array rt)).
  assert (Hvp : view rt !! p = Some (erase s)) by (by apply view_of).
  assert (Ht0' : atom_type (erase s) = 0) by (by rewrite erase_type).
  assert (Hsl : forall j q, slot_at a' j = Some (Atom q) <-> slot_at (atom_array rt) j = Some (Atom q) \/ (j = i /\ q = p)).
  { intros j q. unfold a'. rewrite slot_at_insert by done. destruct (Z.eqb_spec j i) as [->|Hj]; [|naive_solver]. rewrite Hi. naive_solver. }
  assert (Hsum : lsum is_atom a' = lsum is_atom (atom_array rt) + 1) by (unfold a'; rewrite (lsum_insert _ _ _ (Free n)) by (by apply slot_lookup); cbn; lia).
  assert (Hfree : free_ok a' n free) by (apply free_ok_insert; [by rewrite Ei in H7|by rewrite Hi|done]).
  destruct Hnew as [[-> Hh]|(Hty & Hh & Hh1 & Hc)].
  - cbn [Z.eqb negb]. change (JS_ATOM_TYPE_SYMBOL =? JS_ATOM_TYPE_SYMBOL) with true. cbn [negb wp]. split; [done|].
    set (s' := mkStruct (ref_count s) (text s) h JS_ATOM_TYPE_SYMBOL i). match goal with |- exists _, table_ok ?r _ _ /\ _ => set (rt' := r) end.
    assert (Hv : view rt' = <[p := s']> (view rt)) by apply (view_set_str (set_count (set_array rt a' n) (atom_count rt + 1)) p s').
    exists chains. split_and!; [|done..]. constructor; [cbn; unfold a'; by rewrite zlen_insert|done|cbn; lia|done| | |done].
    + rewrite Hv. eapply (slots_ok_insert _ _ p (erase s) i n s'); [done..|by intros ?|]. by intros _.
    + rewrite Hv. eapply hash_ok_ext; [exact H6| |].
      * intros j x. etransitivity; [|symmetry; by apply (hentry_insert (view rt) (atom_array rt) p (erase s) i n s')]. naive_solver.
      * intros j x (q & u & Hq & Hu & Hhu & _). unfold hnext. cbn [atom_array rt' set_str set_strings set_count set_array strings]. rewrite (proj2 (Hsl j q) (or_introl Hq)), Hq.
        rewrite lookup_insert_ne; [done|]. intros ->. rewrite Hvp in Hu. injection Hu as <-. unfold hashed in Hhu. by rewrite Ht0' in Hhu.
  - assert (Ens : ty =? JS_ATOM_TYPE_SYMBOL = false) by (apply Z.eqb_neq; lia). rewrite Ens. cbn [negb].
    destruct (chain_of HT h) as (c & Hcc & Hr). rewrite <- Hh1 in Hcc, Hr. destruct (h_chain _ _ _ _ _ H6 _ _ Hcc) as (hd & Ehd & Hlc).
    apply wp_bind. cbn [atom_hash set_count set_array]. rewrite (proj2 (rd_Ret _ _ hd)) by (split; [lia|done]). cbn [wp]. apply wp_bind. cbn [atom_hash set_str set_strings]. rewrite wr_ok by done. cbn [wp].
    set (s' := mkStruct (ref_count s) (text s) h ty hd). set (t' := <[Z.to_nat h1 := i]> (atom_hash rt)).
    set (rt' := set_hash (set_str (set_count (set_array rt a' n) (atom_count rt + 1)) p s') t').
    assert (Hhs' : hashed s' = true) by (unfold hashed; cbn; rewrite (proj2 (Z.ltb_lt 0 ty)), (proj2 (Z.ltb_lt ty _)) by lia; done).
    assert (Hv : view rt' = <[p := mkStruct (ref_count s) (text s) h ty 0]> (view rt)).
    { transitivity (<[p := erase s']> (view rt)); [apply (view_set_str (set_count (set_array rt a' n) (atom_count rt + 1)) p s')|]. unfold erase. by rewrite Hhs'. }
    set (s0 := mkStruct (ref_count s) (text s) h ty 0) in *.
    assert (Hic : i ∉ c) by (intros (x & (q & u & Hq & _) & _)%(h_in _ _ _ _ _ H6 _ _ _ Hcc); congruence).
    assert (Hx : forall k x, hentry (view rt) (atom_array rt) k x -> hnext (strings rt') a' k = hnext (strings rt) (atom_array rt) k).
    { intros k x (q & u & Hq & Hu & Hhu & _). unfold hnext. cbn [rt' strings set_hash set_str set_strings set_count set_array]. rewrite (proj2 (Hsl k q) (or_introl Hq)), Hq.
      rewrite lookup_insert_ne; [done|]. intros ->. rewrite Hvp in Hu. injection Hu as <-. unfold hashed in Hhu. by rewrite Ht0' in Hhu. }
    assert (HT' : table_ok rt' (<[Z.to_nat h1 := i :: c]> chains) free).
    { constructor; [cbn; unfold a'; by rewrite zlen_insert|done|cbn; lia|done| | |done].
      - rewrite Hv. eapply (slots_ok_insert _ _ p (erase s) i n s0); [done..|cbn; unfold JS_ATOM_TYPE_SYMBOL in *; lia| |cbn; lia]. intros _. split; [done|]. intros q t Hq Hqt. exact (Hc q t Hq Hqt).
      - rewrite Hv. cbn [rt' atom_array atom_hash atom_hash_size set_hash set_str set_strings set_count set_array]. eapply hash_ok_chain; [exact H6|unfold zlen in Hr; lia| | | |].
        + split_and!; [done..|]. exists hd. split; [unfold hnext; rewrite (proj2 (Hsl i p)) by (by right); cbn; by rewrite lookup_insert_eq|].
          eapply linked_ext; [|exact Hlc]. intros k (x & Hk & _)%(h_in _ _ _ _ _ H6 _ _ _ Hcc). by eapply Hx.
        + intros k. rewrite elem_of_cons, (h_in _ _ _ _ _ H6 _ _ k Hcc). split.
          * intros [->|(x & Hk & Eb)]; [exists h|exists x]; (split; [apply (hentry_insert _ _ p (erase s) i n s0); [done..|]|]); [by right|lia|by left|done].
          * intros (x & [Hk|(-> & _ & _)]%(hentry_insert _ _ p (erase s) i n s0) & Eb); [right; eauto|by left|done..].
        + intros k x Hb'. etransitivity; [|symmetry; by apply (hentry_insert (view rt) (atom_array rt) p (erase s) i n s0)].
          split; [by left|]. intros [Hk|(_ & _ & ->)]; [done|]. exfalso. apply Hb'. change (hash s0) with h. lia.
        + intros k x _. apply Hx. }
    match goal with |- wp (if ?b then ?m else ?m') ?Q => change (wp (if atom_count_resize rt' <=? atom_count rt' then m else m') Q) end.
    destruct (Z.leb_spec (atom_count_resize rt') (atom_count rt')) as [Hle|Hgt].
    + apply wp_bind. destruct (h_pow _ _ _ _ _ H6) as (k & Hk & Ek).
      assert (Hk28 : k <= 28).
      { assert (atom_count rt' <= 2 ^ 29) by (rewrite (k_count _ _ _ HT'); pose proof (lsum_is_atom (atom_array rt')); pose proof (k_size _ _ _ HT'); pose proof (k_max _ _ _ HT'); lia).
        rewrite (k_resize _ _ _ HT') in Hle. change (atom_hash_size rt') with (atom_hash_size rt) in Hle. rewrite Ek in Hle. assert (2 ^ k < 2 ^ 29) as Hlt%Z.pow_lt_mono_r_iff by lia; lia. }
      assert (Es : i32 (atom_hash_size rt' * 2) = 2 ^ (k + 1)).
      { change (atom_hash_size rt') with (atom_hash_size rt). rewrite Ek, Z.pow_add_r by lia. apply i32_small. assert (0 < 2 ^ k <= 2 ^ 28) by (split; [lia|apply Z.pow_le_mono_r; lia]). lia. }
      assert (Hk1 : 0 <= k + 1 <= 29) by lia.
      eapply wp_mono; [exact (wp_JS_ResizeAtomHash rt' _ free _ (k + 1) HT' Hk1 Es)|]. intros [ok rt2] (chains' & HT2 & Hv2 & Ha2). cbn [wp]. split; [done|].
      exists chains'. split_and!; [done|by rewrite Hv2, Hv|by rewrite Ha2|].
      rewrite <- (k_size _ _ _ HT2), Ha2. exact (k_size _ _ _ HT').
    + cbn [wp]. split; [done|]. exists (<[Z.to_nat h1 := i :: c]> chains). by split_and!.
Qed.
End Insert.
