(* ===== verification/AtomNumber.v ===== *)
(** * Atoms: numbers ([quickjs.c])

    [is_num_string] accepts exactly the decimal digits of the 32-bit unsigned
    numbers, as [snprintf] prints them; integer atoms have the top bit set. *)

From S2P Require Import Prelude Cutils JsValues AtomTable.

Lemma digits_app fuel : forall n acc, digits fuel n acc = digits fuel n [] ++ acc.
Proof.
  induction fuel as [|fuel IH]; intros n acc; [done|]. cbn [digits]. destruct (n / 10 =? 0); [done|].
  rewrite (IH _ (_ :: acc)), (IH _ [_]), <- app_assoc. done.
Qed.

Lemma pow10_S f : 10 ^ Z.of_nat (S f) = 10 * 10 ^ Z.of_nat f.
Proof. rewrite Nat2Z.inj_succ, Z.pow_succ_r by lia. done. Qed.

Lemma digits_fuel f : forall f' n, (0 < f)%nat -> (0 < f')%nat -> 0 <= n < 10 ^ Z.of_nat f -> n < 10 ^ Z.of_nat f' -> digits f n [] = digits f' n [].
Proof.
  induction f as [|f IH]; intros [|f'] n H1 H2 Hn Hn'; try lia. rewrite pow10_S in Hn, Hn'. cbn [digits]. destruct (Z.eqb_spec (n / 10) 0) as [E|E]; [done|].
  pose proof (Z.div_pos n 10 ltac:(lia) ltac:(lia)).
  assert (Hd : n / 10 < 10 ^ Z.of_nat f) by (apply Z.div_lt_upper_bound; lia). assert (Hd' : n / 10 < 10 ^ Z.of_nat f') by (apply Z.div_lt_upper_bound; lia).
  rewrite digits_app, (digits_app f'). f_equal. apply IH; [|..|done]; [|destruct f'; [cbn in Hd'; lia|lia]|lia]. destruct f; [cbn in Hd; lia|lia].
Qed.

Lemma print_u_small n : 0 <= n < 10 -> print_u n = [ch "0" + n].
Proof. intros Hn. unfold print_u. cbn [digits]. rewrite Z.div_small, Z.mod_small by lia. done. Qed.

Lemma print_u_step m d : 0 < m -> 0 <= d < 10 -> m * 10 + d < 10 ^ 20 -> print_u (m * 10 + d) = print_u m ++ [ch "0" + d].
Proof.
  intros Hm Hd Hn. unfold print_u. change (digits 20 (m * 10 + d) []) with (if (m * 10 + d) / 10 =? 0 then [ch "0" + (m * 10 + d) mod 10] else digits 19 ((m * 10 + d) / 10) [ch "0" + (m * 10 + d) mod 10]).
  assert (E1 : (m * 10 + d) / 10 = m) by (symmetry; apply (Z.div_unique _ 10 m d); lia).
  assert (E2 : (m * 10 + d) mod 10 = d) by (symmetry; apply (Z.mod_unique _ 10 m d); lia). rewrite E1, E2, (proj2 (Z.eqb_neq m 0)) by lia.
  rewrite digits_app. f_equal. apply digits_fuel; [lia|lia| |]; change (Z.of_nat 19) with 19; change (Z.of_nat 20) with 20; change (10 ^ 20) with (10 * 10 ^ 19) in *; lia.
Qed.

Lemma print_u_length k n : (0 < k)%nat -> 0 <= n < 10 ^ Z.of_nat k -> n < 10 ^ 20 -> (0 < length (print_u n) <= k)%nat.
Proof.
  revert n. induction k as [|k IH]; intros n Hk Hn Hb; [lia|]. rewrite pow10_S in Hn. destruct (Z.lt_ge_cases n 10) as [Hs|Hs]; [rewrite print_u_small by lia; cbn; lia|].
  pose proof (Z.div_mod n 10 ltac:(lia)). pose proof (Z.mod_pos_bound n 10 ltac:(lia)). rewrite (Z.mul_comm 10) in *.
  assert (E : print_u n = print_u (n / 10) ++ [ch "0" + n mod 10]) by (rewrite <- print_u_step by lia; f_equal; lia). rewrite E, length_app. cbn [length].
  destruct k as [|k]; [cbn in Hn; lia|]. specialize (IH (n / 10) ltac:(lia) ltac:(lia) ltac:(lia)). lia.
Qed.

Lemma is_num_digit c : is_num c = true <-> 0 <= c - ch "0" < 10.
Proof. unfold is_num. change (ch "0") with 48. change (ch "9") with 57. rewrite andb_true_iff, !Z.leb_le. lia. Qed.

Lemma shr32_zero x : 0 <= x -> (Z.shiftr x 32 =? 0) = (x <? 2 ^ 32).
Proof.
  intros Hx. rewrite Z.shiftr_div_pow2 by lia. destruct (Z.ltb_spec x (2 ^ 32)).
  - apply Z.eqb_eq, Z.div_small. lia.
  - apply Z.eqb_neq. pose proof (Z.div_le_mono (2 ^ 32) x (2 ^ 32) ltac:(lia) ltac:(lia)) as Hd. rewrite Z.div_same in Hd by lia. lia.
Qed.

Lemma is_num_loop_step l : forall m c, is_num_loop (c :: l) m =
  if is_num c then let n := m * 10 + (c - ch "0") in if negb (Z.shiftr n 32 =? 0) then None else is_num_loop l n else None.
Proof. intros m c. cbn [is_num_loop]. by destruct (is_num c). Qed.

Lemma is_num_loop_app l k : forall m, is_num_loop (l ++ k) m = match is_num_loop l m with Some n => is_num_loop k n | None => None end.
Proof.
  induction l as [|c l IH]; intros m; [done|]. cbn [app]. rewrite !is_num_loop_step. destruct (is_num c); [|done]. cbv zeta. destruct (negb _); [done|]. apply IH.
Qed.

Lemma is_num_loop_sound l : forall m n, 0 < m < 2 ^ 32 -> is_num_loop l m = Some n -> m <= n < 2 ^ 32 /\ print_u n = print_u m ++ l.
Proof.
  induction l as [|c l IH]; intros m n Hm; [intros [= <-]; split; [lia|by rewrite app_nil_r]|]. rewrite is_num_loop_step. destruct (is_num c) eqn:Ec; [|done].
  apply is_num_digit in Ec. cbv zeta. rewrite shr32_zero by lia. destruct (Z.ltb_spec (m * 10 + (c - ch "0")) (2 ^ 32)) as [Hlt|]; [|done]. cbn [negb].
  intros Hl. destruct (IH (m * 10 + (c - ch "0")) n ltac:(lia) Hl) as [Hn ->]. split; [lia|]. rewrite print_u_step by lia. rewrite <- app_assoc. cbn. do 2 f_equal. lia.
Qed.

Lemma is_num_loop_complete k : forall n, 0 < n < 2 ^ 32 -> n < 10 ^ Z.of_nat k -> exists c l, print_u n = c :: l /\ is_num c = true /\ c <> ch "0" /\ is_num_loop l (c - ch "0") = Some n.
Proof.
  induction k as [|k IH]; intros n Hn Hk; [cbn in Hk; lia|]. rewrite pow10_S in Hk. destruct (Z.lt_ge_cases n 10) as [Hs|Hs].
  - rewrite print_u_small by lia. exists (ch "0" + n), []. split_and!; [done|apply is_num_digit; lia|lia|]. cbn [is_num_loop]. f_equal. lia.
  - pose proof (Z.div_mod n 10 ltac:(lia)). pose proof (Z.mod_pos_bound n 10 ltac:(lia)).
    assert (E : print_u n = print_u (n / 10) ++ [ch "0" + n mod 10]) by (rewrite <- print_u_step by lia; f_equal; lia).
    destruct (IH (n / 10) ltac:(lia) ltac:(lia)) as (c & l & Ec & Hc & Hc0 & Hl). exists c, (l ++ [ch "0" + n mod 10]). rewrite E, Ec. split_and!; [done..|].
    rewrite is_num_loop_app, Hl, is_num_loop_step. rewrite (proj2 (is_num_digit _)) by lia. cbv zeta. rewrite shr32_zero by lia.
    replace (n / 10 * 10 + (ch "0" + n mod 10 - ch "0")) with n by lia. rewrite (proj2 (Z.ltb_lt n _)) by lia. done.
Qed.

(** [is_num_string] inverts [snprintf]. *)
Lemma is_num_string_spec t n : is_num_string t = Some n <-> 0 <= n < 2 ^ 32 /\ units t = print_u n.
Proof.
  unfold is_num_string. split.
  - destruct (_ || _); [done|]. destruct (units t) as [|c l]; [done|]. destruct (is_num c) eqn:Ec; [|done]. destruct (Z.eqb_spec c (ch "0")) as [->|Hc].
    + destruct (Z.eqb_spec (zlen (ch "0" :: l)) 1) as [El|]; [|done]. intros [= <-]. rewrite zlen_cons in El. destruct l as [|x l]; [done|].
      rewrite zlen_cons in El. pose proof (zlen_nonneg l). lia.
    + intros Hl. apply is_num_digit in Ec. destruct (is_num_loop_sound l (c - ch "0") n ltac:(lia) Hl) as [Hn ->]. split; [lia|]. rewrite print_u_small by lia. cbn. f_equal. lia.
  - intros [Hn Hu]. destruct (print_u_length 10 n ltac:(lia) ltac:(lia) ltac:(lia)) as [L1 L2]. rewrite Hu. unfold zlen.
    rewrite (proj2 (Z.eqb_neq _ 0)), (proj2 (Z.ltb_ge 10 _)) by lia. cbn [orb]. destruct (decide (n = 0)) as [->|Hn0]; [done|].
    destruct (is_num_loop_complete 10 n ltac:(lia) ltac:(lia)) as (c & l & -> & Hc & Hc0 & Hl). by rewrite Hc, (proj2 (Z.eqb_neq c _)).
Qed.

Lemma print_u_inj n m : 0 <= n < 2 ^ 32 -> 0 <= m < 2 ^ 32 -> print_u n = print_u m -> n = m.
Proof.
  intros Hn Hm E. pose proof (proj2 (is_num_string_spec (mkString false (print_u n)) n) (conj Hn eq_refl)) as E1.
  rewrite E in E1. rewrite (proj2 (is_num_string_spec (mkString false (print_u m)) m) (conj Hm eq_refl)) in E1. by injection E1.
Qed.

(** ** Integer atoms *)

Lemma tag_value : JS_ATOM_TAG_INT = 2 ^ 31.
Proof. done. Qed.

Lemma land_bit31 v : 0 <= v < 2 ^ 31 -> Z.land v (2 ^ 31) = 0.
Proof.
  intros Hv. apply Z.bits_inj'. intros k Hk. rewrite Z.land_spec, Z.bits_0. destruct (decide (k = 31)) as [->|Hne]; [|by rewrite Z.pow2_bits_false, andb_false_r by lia].
  assert (Z.testbit v 31 = false) as ->; [|done]. apply Z.testbit_false; [lia|]. by rewrite Z.div_small by lia.
Qed.

Lemma tagged_spec v : 0 <= v < 2 ^ 32 -> __JS_AtomIsTaggedInt v = (2 ^ 31 <=? v).
Proof.
  intros Hv. unfold __JS_AtomIsTaggedInt. rewrite tag_value. destruct (Z.leb_spec (2 ^ 31) v) as [Hle|Hlt].
  - apply negb_true_iff, Z.eqb_neq. intros E. assert (Ht : Z.testbit (Z.land v (2 ^ 31)) 31 = false) by (by rewrite E). rewrite Z.land_spec, Z.pow2_bits_true, andb_true_r in Ht by lia.
    assert (Z.testbit v 31 = true); [|congruence]. apply Z.testbit_true; [lia|]. replace (v / 2 ^ 31) with 1; [done|]. apply (Z.div_unique v (2 ^ 31) 1 (v - 2 ^ 31)); lia.
  - apply negb_false_iff, Z.eqb_eq, land_bit31. lia.
Qed.

Lemma from_uint32 n : 0 <= n <= JS_ATOM_MAX_INT -> __JS_AtomFromUInt32 n = n + 2 ^ 31.
Proof.
  unfold JS_ATOM_MAX_INT, __JS_AtomFromUInt32. rewrite tag_value. intros Hn. pose proof (land_bit31 n ltac:(lia)) as Hl.
  by rewrite Z.add_nocarry_lxor, Z.lxor_lor.
Qed.

Lemma to_uint32 v : 2 ^ 31 <= v < 2 ^ 32 -> __JS_AtomToUInt32 v = v - 2 ^ 31.
Proof.
  intros Hv. unfold __JS_AtomToUInt32. rewrite tag_value. change (2 ^ 31 - 1) with (Z.ones 31). rewrite Z.land_ones by lia.
  symmetry. apply (Z.mod_unique v (2 ^ 31) 1); lia.
Qed.
