(* ===== verification/AtomCalls.v ===== *)
(** * Atoms: the calls of the engine ([quickjs.c])

    Atoms from strings, numbers and symbols, the values of atoms, and what the
    engine asks of an atom.  A value is the address of a string or of a symbol.
    A string from digits is one byte per character ([JS_NewString] of ASCII
    text). *)

From S2P Require Import Prelude Cutils JsValues AtomTable.

Inductive atom_result :=
  | R_atom (i : Z)
  | R_string (p : ptr)
  | R_symbol (p : ptr)
  | R_undefined
  | R_exception
  | R_kind (k : JSAtomKindEnum)
  | R_index (n : option Z)
  | R_bool (b : bool).

Section Calls.
Context `{AtomConfig} `{AtomAllocator}.

Definition JS_DupValue (rt : JSRuntime) (p : ptr) : outcome JSRuntime := add_ref rt p 1.

(** ** What an atom is *)

(** [JS_AtomGetKind(ctx, v)] *)
Definition JS_AtomGetKind (rt : JSRuntime) (v : Z) : outcome JSAtomKindEnum :=
  if __JS_AtomIsTaggedInt v then Ret JS_ATOM_KIND_STRING
  else
    p ← get_atom rt v;
    s ← get_str rt p;
    if atom_type s =? JS_ATOM_TYPE_STRING then Ret JS_ATOM_KIND_STRING
    else if atom_type s =? JS_ATOM_TYPE_GLOBAL_SYMBOL then Ret JS_ATOM_KIND_SYMBOL
    else if atom_type s =? JS_ATOM_TYPE_SYMBOL then
      if hash s =? JS_ATOM_HASH_SYMBOL then Ret JS_ATOM_KIND_SYMBOL
      else if hash s =? JS_ATOM_HASH_PRIVATE then Ret JS_ATOM_KIND_PRIVATE
      else Fault Aborted
    else Fault Aborted.

(** [JS_AtomIsString(ctx, v)] *)
Definition JS_AtomIsString (rt : JSRuntime) (v : Z) : outcome bool :=
  k ← JS_AtomGetKind rt v;
  Ret (match k with JS_ATOM_KIND_STRING => true | _ => false end).

(** The empty wide string stands for no description. *)
Definition no_description (s : JSAtomStruct) : bool := (zlen (units (text s)) =? 0) && is_wide_char (text s).

(** [JS_AtomSymbolHasDescription(ctx, v)] *)
Definition JS_AtomSymbolHasDescription (rt : JSRuntime) (v : Z) : outcome bool :=
  if __JS_AtomIsTaggedInt v then Ret false
  else
    p ← get_atom rt v;
    s ← get_str rt p;
    Ret ((((atom_type s =? JS_ATOM_TYPE_SYMBOL) && (hash s =? JS_ATOM_HASH_SYMBOL)) || (atom_type s =? JS_ATOM_TYPE_GLOBAL_SYMBOL))
         && negb (no_description s)).

(** [JS_AtomIsArrayIndex(ctx, &val, atom)] *)
Definition JS_AtomIsArrayIndex (rt : JSRuntime) (atom : Z) : outcome (option Z) :=
  if __JS_AtomIsTaggedInt atom then Ret (Some (__JS_AtomToUInt32 atom))
  else
    _ ← c_assert (atom <? atom_size rt);
    p ← get_atom rt atom;
    s ← get_str rt p;
    if atom_type s =? JS_ATOM_TYPE_STRING then
      Ret (match is_num_string (text s) with
           | Some val => if negb (val =? UINT32_MAX) then Some val else None
           | None => None
           end)
    else Ret None.

(** ** Values of atoms *)

(** [js_new_string8(ctx, buf, len)] of a buffer that is not empty, [JS_NewString]
    of ASCII text. *)
Definition js_new_string8 (rt : JSRuntime) (buf : list Z) : atom_result * JSRuntime :=
  match js_alloc_string_rt rt (mkString false buf) with
  | None => (R_exception, rt)
  | Some (p, rt) => (R_string p, rt)
  end.

(** [__JS_AtomToValue(ctx, atom, force_string)] *)
Definition __JS_AtomToValue (rt : JSRuntime) (atom : Z) (force_string : bool) : outcome (atom_result * JSRuntime) :=
  if __JS_AtomIsTaggedInt atom then Ret (js_new_string8 rt (print_u (__JS_AtomToUInt32 atom)))
  else
    _ ← c_assert (atom <? atom_size rt);
    p ← get_atom rt atom;
    s ← get_str rt p;
    if atom_type s =? JS_ATOM_TYPE_STRING then rt ← JS_DupValue rt p; Ret (R_string p, rt)
    else if force_string then
      p ← (if no_description s then get_atom rt JS_ATOM_empty_string else Ret p);
      rt ← JS_DupValue rt p;
      Ret (R_string p, rt)
    else rt ← JS_DupValue rt p; Ret (R_symbol p, rt).

Definition JS_AtomToValue (rt : JSRuntime) (atom : Z) : outcome (atom_result * JSRuntime) := __JS_AtomToValue rt atom false.
Definition JS_AtomToString (rt : JSRuntime) (atom : Z) : outcome (atom_result * JSRuntime) := __JS_AtomToValue rt atom true.

(** ** Atoms of values *)

(** [JS_NewAtomStr(ctx, p)] *)
Definition JS_NewAtomStr (rt : JSRuntime) (p : ptr) : outcome (Z * JSRuntime) :=
  s ← get_str rt p;
  match is_num_string (text s) with
  | Some n =>
      if n <=? JS_ATOM_MAX_INT then rt ← js_free_string rt p; Ret (__JS_AtomFromUInt32 n, rt)
      else __JS_NewAtom rt (Some p) JS_ATOM_TYPE_STRING
  | None => __JS_NewAtom rt (Some p) JS_ATOM_TYPE_STRING
  end.

(** The atom of a text that has been printed. *)
Definition new_printed_atom (rt : JSRuntime) (buf : list Z) : outcome (Z * JSRuntime) :=
  match js_new_string8 rt buf with
  | (R_string p, rt) => __JS_NewAtom rt (Some p) JS_ATOM_TYPE_STRING
  | (_, rt) => Ret (JS_ATOM_NULL, rt)
  end.

(** [JS_NewAtomUInt32(ctx, n)] *)
Definition JS_NewAtomUInt32 (rt : JSRuntime) (n : Z) : outcome (Z * JSRuntime) :=
  if n <=? JS_ATOM_MAX_INT then Ret (__JS_AtomFromUInt32 n, rt) else new_printed_atom rt (print_u n).

(** [JS_NewAtomInt64(ctx, n)] *)
Definition JS_NewAtomInt64 (rt : JSRuntime) (n : Z) : outcome (Z * JSRuntime) :=
  if u64 n <=? JS_ATOM_MAX_INT then Ret (__JS_AtomFromUInt32 (u32 n), rt) else new_printed_atom rt (print_d n).

(** ** Symbols *)

(** [JS_NewSymbol(ctx, p, atom_type)] *)
Definition JS_NewSymbol (rt : JSRuntime) (str : option ptr) (ty : Z) : outcome (atom_result * JSRuntime) :=
  '(atom, rt) ← __JS_NewAtom rt str ty;
  if atom =? JS_ATOM_NULL then Ret (R_exception, rt)
  else p ← get_atom rt atom; Ret (R_symbol p, rt).

(** [JS_NewSymbolFromAtom(ctx, descr, atom_type)] *)
Definition JS_NewSymbolFromAtom (rt : JSRuntime) (descr ty : Z) : outcome (atom_result * JSRuntime) :=
  _ ← c_assert (negb (__JS_AtomIsTaggedInt descr));
  _ ← c_assert (descr <? atom_size rt);
  p ← get_atom rt descr;
  rt ← JS_DupValue rt p;
  JS_NewSymbol rt (Some p) ty.

(** [js_symbol_to_atom(ctx, val)]: the atom has no reference of its own. *)
Definition js_symbol_to_atom (rt : JSRuntime) (p : ptr) : outcome Z := js_get_atom_index rt p.

(** [js_symbol_keyFor(ctx, this_val, 1, &symbol)] *)
Definition js_symbol_keyFor (rt : JSRuntime) (p : ptr) : outcome (atom_result * JSRuntime) :=
  s ← get_str rt p;
  if negb (atom_type s =? JS_ATOM_TYPE_GLOBAL_SYMBOL) then Ret (R_undefined, rt)
  else rt ← JS_DupValue rt p; Ret (R_string p, rt).

(** [js_symbol_get_description] of a symbol, [val] being the reference that
    [js_thisSymbolValue] takes. *)
Definition js_symbol_get_description (rt : JSRuntime) (p : ptr) : outcome (atom_result * JSRuntime) :=
  rt ← JS_DupValue rt p;
  s ← get_str rt p;
  '(ret, rt) ← (if no_description s then Ret (R_undefined, rt) else i ← js_get_atom_index rt p; JS_AtomToString rt i);
  rt ← js_free_string rt p;
  Ret (ret, rt).

(** [JS_ValueToAtom] of a property key that is a string, or a symbol whose
    reference [JS_ToPropertyKey] has taken. *)
Definition key_to_atom (rt : JSRuntime) (p : ptr) (is_symbol : bool) : outcome (Z * JSRuntime) :=
  if is_symbol then i ← js_symbol_to_atom rt p; Ret (i, rt) else JS_NewAtomStr rt p.
End Calls.
