(* ===== verification/AtomSpec.v ===== *)
(** * Atoms: the specification

    A string has a text, a number of references (those of values and those of
    atoms) and, when it is an atom, the kind and the number of the atom.  Two
    strings of the same units are one atom; each symbol is an atom of its own.
    The null atom is not an object of the specification. *)

From S2P Require Import Prelude Cutils JsValues AtomTable AtomCalls.

Inductive akind := A_string | A_global | A_symbol | A_private.

#[export] Instance akind_eq_dec : EqDecision akind.
Proof. solve_decision. Defined.

Record aobj := mkObj { a_text : JSString; a_refs : Z; a_atom : option (akind * Z) }.

Notation heap := (gmap ptr aobj).

(** Strings and [Symbol.for] symbols are shared. *)
Definition shared (k : akind) : bool := match k with A_string | A_global => true | _ => false end.
(** The argument of [__JS_NewAtom]. *)
Definition type_of (k : akind) : Z :=
  match k with
  | A_string => JS_ATOM_TYPE_STRING
  | A_global => JS_ATOM_TYPE_GLOBAL_SYMBOL
  | A_symbol => JS_ATOM_TYPE_SYMBOL
  | A_private => JS_ATOM_TYPE_PRIVATE
  end.

(** [p] is the atom [i] of kind [k]. *)
Definition is_atom_of (σ : heap) (p : ptr) (k : akind) (i : Z) : Prop := exists o, σ !! p = Some o /\ a_atom o = Some (k, i).
(** An atom of kind [k] has the units [l]. *)
Definition interned (σ : heap) (k : akind) (l : list Z) (p : ptr) (i : Z) : Prop :=
  exists o, σ !! p = Some o /\ a_atom o = Some (k, i) /\ units (a_text o) = l.
Definition not_interned (σ : heap) (k : akind) (l : list Z) : Prop := forall p i, ~ interned σ k l p i.
(** The number [i] can be given to a new atom. *)
Definition unused (σ : heap) (i : Z) : Prop := 0 < i < 2 ^ 29 /\ forall p k, ~ is_atom_of σ p k i.

Definition with_arefs (o : aobj) (n : Z) : aobj := mkObj (a_text o) n (a_atom o).
(** One reference more, one less: an object without references is released. *)
Definition bump (σ : heap) (p : ptr) : heap :=
  match σ !! p with Some o => <[p := with_arefs o (a_refs o + 1)]> σ | None => σ end.
Definition drop (σ : heap) (p : ptr) : heap :=
  match σ !! p with
  | Some o => if a_refs o <=? 1 then delete p σ else <[p := with_arefs o (a_refs o - 1)]> σ
  | None => σ
  end.
Definition drop_opt (σ : heap) (str : option ptr) : heap := match str with Some p => drop σ p | None => σ end.

Section Spec.
Context `{AtomConfig}.

(** The predefined atoms keep one reference for ever and are not counted. *)
Definition is_const (i : Z) : bool := i <? JS_ATOM_END.
Definition keeps (σ : heap) (p : ptr) (i : Z) : heap := if is_const i then σ else bump σ p.
Definition gives_up (σ : heap) (p : ptr) (i : Z) : heap := if is_const i then σ else drop σ p.

(** The caller has a reference to [p]. *)
Definition owned (σ : heap) (p : ptr) : Prop :=
  exists o, σ !! p = Some o /\ forall k i, a_atom o = Some (k, i) -> is_const i = true -> 1 < a_refs o.

(** [new_atom σ str k i σ']: the string of the caller (none for a symbol without
    description) becomes the atom [i] of kind [k]; 0 when memory is short. *)
Inductive new_atom (σ : heap) : option ptr -> akind -> Z -> heap -> Prop :=
  | NA_same q k i : shared k = true -> is_atom_of σ q k i ->
      new_atom σ (Some q) k i (if is_const i then drop σ q else σ)
  | NA_found q o k p i : shared k = true -> σ !! q = Some o -> interned σ k (units (a_text o)) p i -> p <> q ->
      new_atom σ (Some q) k i (drop (keeps σ p i) q)
  | NA_self q o k i : σ !! q = Some o -> a_atom o = None -> (shared k = true -> not_interned σ k (units (a_text o))) -> unused σ i ->
      new_atom σ (Some q) k i (<[q := mkObj (a_text o) (a_refs o) (Some (k, i))]> σ)
  | NA_copy q o k p i : σ !! q = Some o -> a_atom o <> None -> (shared k = true -> not_interned σ k (units (a_text o))) ->
      σ !! p = None -> unused (drop σ q) i ->
      new_atom σ (Some q) k i (<[p := mkObj (a_text o) 1 (Some (k, i))]> (drop σ q))
  | NA_none k p i : shared k = false -> σ !! p = None -> unused σ i ->
      new_atom σ None k i (<[p := mkObj (mkString true []) 1 (Some (k, i))]> σ)
  | NA_fail str k : (forall q o, str = Some q -> σ !! q = Some o -> shared k = true -> not_interned σ k (units (a_text o))) ->
      new_atom σ str k 0 (drop_opt σ str).

(** The kind of an atom as the engine sees it. *)
Definition kind_seen (k : akind) : JSAtomKindEnum :=
  match k with A_string => JS_ATOM_KIND_STRING | A_private => JS_ATOM_KIND_PRIVATE | _ => JS_ATOM_KIND_SYMBOL end.
(** The empty wide string stands for no description. *)
Definition undescribed (t : JSString) : bool := (zlen (units t) =? 0) && is_wide_char t.

(** ** Calls *)

Inductive atom_op :=
  | Op_new_string (t : JSString)
  | Op_dup_value (p : ptr)
  | Op_free_value (p : ptr)
  | Op_new_atom (p : ptr) (k : akind)
  | Op_new_atom_str (p : ptr)
  | Op_new_atom_number (is64 : bool) (n : Z)
  | Op_find_atom (l : list Z)
  | Op_dup_atom (i : Z)
  | Op_free_atom (i : Z)
  | Op_new_symbol (str : option ptr) (k : akind)
  | Op_new_symbol_from_atom (i : Z) (k : akind)
  | Op_to_value (i : Z) (force_string : bool)
  | Op_get_kind (i : Z)
  | Op_array_index (i : Z)
  | Op_index_of (p : ptr).

(** Integers below [2^31] are their own atoms. *)
Definition int_atom (n : Z) : Z := n + 2 ^ 31.
Definition is_int_atom (i : Z) : Prop := 2 ^ 31 <= i < 2 ^ 32.
(** The text is the decimal form of the number [n]. *)
Definition numeral (t : JSString) (n : Z) : Prop := 0 <= n < 2 ^ 32 /\ units t = print_u n.
Definition new_obj (t : JSString) : aobj := mkObj t 1 None.

Inductive spec_step (σ : heap) : atom_op -> atom_result -> heap -> Prop :=
  | S_string t p : σ !! p = None -> spec_step σ (Op_new_string t) (R_string p) (<[p := new_obj t]> σ)
  | S_string_oom t : spec_step σ (Op_new_string t) R_exception σ
  | S_dup_value p : spec_step σ (Op_dup_value p) R_undefined (bump σ p)
  | S_free_value p : spec_step σ (Op_free_value p) R_undefined (drop σ p)
  | S_new_atom p k i σ' : new_atom σ (Some p) k i σ' -> spec_step σ (Op_new_atom p k) (R_atom i) σ'
  | S_atom_str_int p o n : σ !! p = Some o -> numeral (a_text o) n -> n < 2 ^ 31 ->
      spec_step σ (Op_new_atom_str p) (R_atom (int_atom n)) (drop σ p)
  | S_atom_str p o i σ' : σ !! p = Some o -> (forall n, numeral (a_text o) n -> 2 ^ 31 <= n) -> new_atom σ (Some p) A_string i σ' ->
      spec_step σ (Op_new_atom_str p) (R_atom i) σ'
  | S_number_int b n : 0 <= n < 2 ^ 31 -> spec_step σ (Op_new_atom_number b n) (R_atom (int_atom n)) σ
  | S_number b n p t i σ' : ~ 0 <= n < 2 ^ 31 -> σ !! p = None -> units t = print_d n -> new_atom (<[p := new_obj t]> σ) (Some p) A_string i σ' ->
      spec_step σ (Op_new_atom_number b n) (R_atom i) σ'
  | S_number_oom b n : ~ 0 <= n < 2 ^ 31 -> spec_step σ (Op_new_atom_number b n) (R_atom 0) σ
  | S_find l p o i : σ !! p = Some o -> a_atom o = Some (A_string, i) -> a_text o = mkString false l ->
      spec_step σ (Op_find_atom l) (R_atom i) (keeps σ p i)
  | S_find_none l : (forall p o i, σ !! p = Some o -> a_atom o = Some (A_string, i) -> a_text o <> mkString false l) ->
      spec_step σ (Op_find_atom l) (R_atom 0) σ
  | S_dup_int i : is_int_atom i -> spec_step σ (Op_dup_atom i) (R_atom i) σ
  | S_dup p k i : is_atom_of σ p k i -> spec_step σ (Op_dup_atom i) (R_atom i) (keeps σ p i)
  | S_free_int i : is_int_atom i -> spec_step σ (Op_free_atom i) R_undefined σ
  | S_free p k i : is_atom_of σ p k i -> spec_step σ (Op_free_atom i) R_undefined (gives_up σ p i)
  | S_symbol str k i p σ' : new_atom σ str k i σ' -> is_atom_of σ' p k i -> spec_step σ (Op_new_symbol str k) (R_symbol p) σ'
  | S_symbol_oom str k σ' : new_atom σ str k 0 σ' -> spec_step σ (Op_new_symbol str k) R_exception σ'
  | S_symbol_from q k' i k j p σ' : is_atom_of σ q k' i -> new_atom (bump σ q) (Some q) k j σ' -> is_atom_of σ' p k j ->
      spec_step σ (Op_new_symbol_from_atom i k) (R_symbol p) σ'
  | S_symbol_from_oom q k' i k σ' : is_atom_of σ q k' i -> new_atom (bump σ q) (Some q) k 0 σ' ->
      spec_step σ (Op_new_symbol_from_atom i k) R_exception σ'
  | S_value_int i b p t : is_int_atom i -> σ !! p = None -> units t = print_u (i - 2 ^ 31) ->
      spec_step σ (Op_to_value i b) (R_string p) (<[p := new_obj t]> σ)
  | S_value_oom i b : is_int_atom i -> spec_step σ (Op_to_value i b) R_exception σ
  | S_value_string p i b : is_atom_of σ p A_string i -> spec_step σ (Op_to_value i b) (R_string p) (bump σ p)
  | S_value_symbol p k i : is_atom_of σ p k i -> k <> A_string -> spec_step σ (Op_to_value i false) (R_symbol p) (bump σ p)
  | S_value_described p o k i : σ !! p = Some o -> a_atom o = Some (k, i) -> k <> A_string -> undescribed (a_text o) = false ->
      spec_step σ (Op_to_value i true) (R_string p) (bump σ p)
  | S_value_undescribed p o k i q : σ !! p = Some o -> a_atom o = Some (k, i) -> k <> A_string -> undescribed (a_text o) = true ->
      is_atom_of σ q A_string JS_ATOM_empty_string -> spec_step σ (Op_to_value i true) (R_string q) (bump σ q)
  | S_kind_int i : is_int_atom i -> spec_step σ (Op_get_kind i) (R_kind JS_ATOM_KIND_STRING) σ
  | S_kind p k i : is_atom_of σ p k i -> spec_step σ (Op_get_kind i) (R_kind (kind_seen k)) σ
  | S_index_int i : is_int_atom i -> spec_step σ (Op_array_index i) (R_index (Some (i - 2 ^ 31))) σ
  | S_index p o i n : σ !! p = Some o -> a_atom o = Some (A_string, i) -> numeral (a_text o) n -> n < UINT32_MAX ->
      spec_step σ (Op_array_index i) (R_index (Some n)) σ
  | S_index_none p o k i : σ !! p = Some o -> a_atom o = Some (k, i) -> (k = A_string -> forall n, numeral (a_text o) n -> n = UINT32_MAX) ->
      spec_step σ (Op_array_index i) (R_index None) σ
  | S_index_of p k i : is_atom_of σ p k i -> spec_step σ (Op_index_of p) (R_atom i) σ.

(** What a caller must respect: it uses values and atoms it has references to,
    and releases no more references than it has. *)
Definition atom_alive (σ : heap) (i : Z) : Prop := is_int_atom i \/ exists p k, is_atom_of σ p k i.
Definition op_ok (σ : heap) (op : atom_op) : Prop :=
  match op with
  | Op_new_string _ | Op_find_atom _ => True
  | Op_dup_value p => is_Some (σ !! p)
  | Op_free_value p | Op_new_atom_str p | Op_new_atom p _ => owned σ p
  | Op_new_atom_number is64 n => if is64 then - 2 ^ 63 <= n < 2 ^ 63 else 0 <= n < 2 ^ 32
  | Op_dup_atom i | Op_free_atom i | Op_to_value i _ | Op_get_kind i | Op_array_index i => atom_alive σ i
  | Op_new_symbol str k => match str with Some p => owned σ p | None => shared k = false end
  | Op_new_symbol_from_atom i _ => exists p k, is_atom_of σ p k i
  | Op_index_of p => exists k i, is_atom_of σ p k i
  end.

(** ** The predefined atoms *)

Definition init_kind (i : Z) : akind :=
  if i =? JS_ATOM_Private_brand then A_private
  else if JS_ATOM_Symbol_toPrimitive <=? i then A_symbol
  else A_string.

(** The atom [JS_ATOM_x] of a name is alive and has its text. *)
Definition constants (σ : heap) : Prop := forall i x name, js_atom_init !! i = Some (x, name) ->
  exists p o, σ !! p = Some o /\ a_atom o = Some (init_kind (1 + Z.of_nat i), 1 + Z.of_nat i) /\ units (a_text o) = str name.

Inductive spec_run (σ : heap) : list (atom_op * atom_result) -> heap -> Prop :=
  | run_nil : spec_run σ [] σ
  | run_step tr σ' op r σ'' : spec_run σ tr σ' -> spec_step σ' op r σ'' -> spec_run σ (tr ++ [(op, r)]) σ''.
End Spec.

(** ** Running the calls *)

Section Exec.
Context `{AtomConfig} `{AtomAllocator}.

Definition exec (rt : JSRuntime) (op : atom_op) : outcome (atom_result * JSRuntime) :=
  match op with
  | Op_new_string t => Ret (match js_alloc_string_rt rt t with Some (p, rt) => (R_string p, rt) | None => (R_exception, rt) end)
  | Op_dup_value p => rt ← JS_DupValue rt p; Ret (R_undefined, rt)
  | Op_free_value p => rt ← js_free_string rt p; Ret (R_undefined, rt)
  | Op_new_atom p k => '(i, rt) ← __JS_NewAtom rt (Some p) (type_of k); Ret (R_atom i, rt)
  | Op_new_atom_str p => '(i, rt) ← JS_NewAtomStr rt p; Ret (R_atom i, rt)
  | Op_new_atom_number is64 n => '(i, rt) ← (if is64 then JS_NewAtomInt64 rt n else JS_NewAtomUInt32 rt n); Ret (R_atom i, rt)
  | Op_find_atom l => '(i, rt) ← __JS_FindAtom rt l; Ret (R_atom i, rt)
  | Op_dup_atom i => '(i, rt) ← JS_DupAtom rt i; Ret (R_atom i, rt)
  | Op_free_atom i => rt ← JS_FreeAtom rt i; Ret (R_undefined, rt)
  | Op_new_symbol str k => JS_NewSymbol rt str (type_of k)
  | Op_new_symbol_from_atom i k => JS_NewSymbolFromAtom rt i (type_of k)
  | Op_to_value i b => __JS_AtomToValue rt i b
  | Op_get_kind i => k ← JS_AtomGetKind rt i; Ret (R_kind k, rt)
  | Op_array_index i => n ← JS_AtomIsArrayIndex rt i; Ret (R_index n, rt)
  | Op_index_of p => i ← js_get_atom_index rt p; Ret (R_atom i, rt)
  end.
End Exec.
