(* ===== verification/AtomRel.v ===== *)
(** * Atoms: the table refines the specification

    [objs] relates the strings of the heap and the entries of the array to the
    objects of the specification; every operation of the table is a step of
    it. *)

From S2P Require Import Prelude Cutils JsValues AtomTable AtomInv AtomHash AtomNew AtomCalls AtomSpec.

Definition kind_ok (s : JSAtomStruct) (k : akind) : Prop :=
  match k with
  | A_string => atom_type s = JS_ATOM_TYPE_STRING
  | A_global => atom_type s = JS_ATOM_TYPE_GLOBAL_SYMBOL
  | A_symbol => atom_type s = JS_ATOM_TYPE_SYMBOL /\ hash s = JS_ATOM_HASH_SYMBOL
  | A_private => atom_type s = JS_ATOM_TYPE_SYMBOL /\ hash s = JS_ATOM_HASH_PRIVATE
  end.

Definition obj_of (a : list slot) (p : ptr) (s : JSAtomStruct) (o : aobj) : Prop :=
  a_text o = text s /\ a_refs o = ref_count s /\
  match a_atom o with
  | None => atom_type s = 0
  | Some (k, i) => kind_ok s k /\ slot_at a i = Some (Atom p)
  end.

Record objs (v : gmap ptr JSAtomStruct) (a : list slot) (σ : heap) : Prop := mkObjs {
  o_in : forall p s, v !! p = Some s -> slot_at a 0 <> Some (Atom p) -> exists o, σ !! p = Some o /\ obj_of a p s o;
  o_out : forall p o, σ !! p = Some o -> exists s, v !! p = Some s /\ slot_at a 0 <> Some (Atom p) /\ obj_of a p s o;
  o_refs : forall p o, σ !! p = Some o -> 1 <= a_refs o;
}.

Definition refines (rt : JSRuntime) (σ : heap) : Prop :=
  (exists chains free, table_ok rt chains free) /\ objs (view rt) (atom_array rt) σ.

Lemma kind_hashed s k : kind_ok s k -> hashed s = shared k.
Proof. unfold hashed. destruct k; cbn; intros H; [by rewrite H|by rewrite H|by rewrite (proj1 H)|by rewrite (proj1 H)]. Qed.

Lemma kind_shared_type s k : shared k = true -> kind_ok s k <-> atom_type s = type_of k.
Proof. destruct k; done. Qed.

Lemma kind_det s k k' : kind_ok s k -> kind_ok s k' -> k = k'.
Proof. destruct k, k'; cbn; unfold JS_ATOM_TYPE_STRING, JS_ATOM_TYPE_GLOBAL_SYMBOL, JS_ATOM_TYPE_SYMBOL, JS_ATOM_HASH_SYMBOL, JS_ATOM_HASH_PRIVATE; intros; try done; lia. Qed.

Lemma kind_type s k : kind_ok s k -> 0 < atom_type s <= 3.
Proof. destruct k; cbn; intros H; [rewrite H|rewrite H|rewrite (proj1 H)|rewrite (proj1 H)]; by cbn. Qed.

Lemma obj_of_slots a a' p s o : obj_of a p s o -> (forall i, slot_at a i = Some (Atom p) -> slot_at a' i = Some (Atom p)) -> obj_of a' p s o.
Proof. intros (H1 & H2 & H3) Ha. split_and!; [done..|]. destruct (a_atom o) as [[k i]|]; [|done]. naive_solver. Qed.

Lemma obj_of_refs a p s o n : obj_of a p s o -> obj_of a p (with_refs s n) (with_arefs o n).
Proof. intros (H1 & H2 & H3). split_and!; [done..|]. cbn. destruct (a_atom o) as [[k i]|]; [|done]. by destruct k. Qed.

Lemma obj_some rt σ p o : objs (view rt) (atom_array rt) σ -> σ !! p = Some o ->
  exists s, strings rt !! p = Some s /\ slot_at (atom_array rt) 0 <> Some (Atom p) /\ obj_of (atom_array rt) p (erase s) o /\
    a_text o = text s /\ a_refs o = ref_count s.
Proof.
  intros HO Ho. destruct (o_out _ _ _ HO p o Ho) as (v & (s & Hs & ->)%view_some & Hn & Hob). exists s. split_and!; [done..| |].
  - destruct Hob as (-> & _). apply erase_text.
  - destruct Hob as (_ & -> & _). apply erase_refs.
Qed.

Lemma objs_none v a σ p : objs v a σ -> v !! p = None -> σ !! p = None.
Proof. intros HO Hv. apply eq_None_not_Some. intros [o Ho]. destruct (o_out _ _ _ HO p o Ho) as (s & Hs & _). congruence. Qed.

(** ** Changes *)

Lemma objs_drop v a a' σ p s o : objs v a σ -> v !! p = Some s -> σ !! p = Some o ->
  same_atoms a a' (fun q => q = p -> 1 < ref_count s) -> objs (drop_view v p) a' (drop σ p).
Proof.
  intros [H1 H2 H3] Hs Ho Ha. destruct (H2 p o Ho) as (s' & Hs' & Hn & Hob). assert (s' = s) as -> by congruence. clear Hs'.
  assert (Er : a_refs o = ref_count s) by apply Hob.
  assert (Hsl : forall q, q <> p -> forall i, slot_at a' i = Some (Atom q) <-> slot_at a i = Some (Atom q)) by (intros q Hq i; rewrite (Ha i q); naive_solver).
  assert (Hn0 : slot_at a' 0 <> Some (Atom p)) by (intros [? _]%Ha; done).
  unfold drop_view, drop. rewrite Hs, Ho, Er. destruct (Z.leb_spec (ref_count s) 1) as [Hle|Hgt]; constructor.
  - intros q u [Hne Hu]%lookup_delete_Some Hq0. rewrite Hsl in Hq0 by done. destruct (H1 q u Hu Hq0) as (o' & Ho' & Hob'). exists o'.
    rewrite lookup_delete_ne by done. split; [done|]. eapply obj_of_slots; [done|]. intros i. by apply Hsl.
  - intros q o' [Hne Ho']%lookup_delete_Some. destruct (H2 q o' Ho') as (u & Hu & Hq0 & Hob'). exists u. rewrite lookup_delete_ne by done.
    split_and!; [done|by rewrite Hsl|]. eapply obj_of_slots; [done|]. intros i. by apply Hsl.
  - intros q o' [Hne Ho']%lookup_delete_Some. eauto.
  - intros q u [[<- <-]|[Hne Hu]]%lookup_insert_Some Hq0.
    + exists (with_arefs o (ref_count s - 1)). rewrite lookup_insert_eq. split; [done|]. apply obj_of_refs. eapply obj_of_slots; [done|]. intros i Hi. by apply Ha.
    + rewrite Hsl in Hq0 by done. destruct (H1 q u Hu Hq0) as (o' & Ho' & Hob'). exists o'. rewrite lookup_insert_ne by done. split; [done|].
      eapply obj_of_slots; [done|]. intros i. by apply Hsl.
  - intros q o' [[<- <-]|[Hne Ho']]%lookup_insert_Some.
    + exists (with_refs s (ref_count s - 1)). rewrite lookup_insert_eq. split_and!; [done..|]. apply obj_of_refs. eapply obj_of_slots; [done|]. intros i Hi. by apply Ha.
    + destruct (H2 q o' Ho') as (u & Hu & Hq0 & Hob'). exists u. rewrite lookup_insert_ne by done. split_and!; [done|by rewrite Hsl|].
      eapply obj_of_slots; [done|]. intros i. by apply Hsl.
  - intros q o' [[<- <-]|[Hne Ho']]%lookup_insert_Some; [cbn; lia|eauto].
Qed.

Lemma objs_refs v a σ p s o n : objs v a σ -> v !! p = Some s -> σ !! p = Some o -> 1 <= n ->
  objs (<[p := with_refs s n]> v) a (<[p := with_arefs o n]> σ).
Proof.
  intros [H1 H2 H3] Hs Ho Hn. destruct (H2 p o Ho) as (s' & Hs' & Hn0 & Hob). assert (s' = s) as -> by congruence. constructor.
  - intros q u [[<- <-]|[Hne Hu]]%lookup_insert_Some Hq0.
    + exists (with_arefs o n). rewrite lookup_insert_eq. split; [done|]. by apply obj_of_refs.
    + rewrite lookup_insert_ne by done. eauto.
  - intros q o' [[<- <-]|[Hne Ho']]%lookup_insert_Some.
    + exists (with_refs s n). rewrite lookup_insert_eq. split_and!; [done..|]. by apply obj_of_refs.
    + rewrite lookup_insert_ne by done. eauto.
  - intros q o' [[<- <-]|[Hne Ho']]%lookup_insert_Some; [done|eauto].
Qed.

(** A new string. *)
Lemma objs_string v a σ p s : slots_ok v a -> objs v a σ -> v !! p = None -> atom_type s = 0 -> ref_count s = 1 ->
  objs (<[p := s]> v) a (<[p := mkObj (text s) 1 None]> σ).
Proof.
  intros HS [H1 H2 H3] Hv Ht Hr. assert (Hnp : forall i, slot_at a i <> Some (Atom p)) by (intros i Hi; destruct (s_atom _ _ HS i p Hi) as (u & Hu & _); congruence). constructor.
  - intros q u [[<- <-]|[Hne Hu]]%lookup_insert_Some Hq0; [|rewrite lookup_insert_ne by done; eauto].
    exists (mkObj (text s) 1 None). by rewrite lookup_insert_eq.
  - intros q o' [[<- <-]|[Hne Ho']]%lookup_insert_Some; [|rewrite lookup_insert_ne by done; eauto].
    exists s. rewrite lookup_insert_eq. by split_and!.
  - intros q o' [[<- <-]|[Hne Ho']]%lookup_insert_Some; [done|eauto].
Qed.

(** A string becomes an atom. *)
Lemma objs_entry v a a' σ p o s' k i : objs v a σ -> σ !! p = Some o -> i <> 0 ->
  (forall j q, slot_at a' j = Some (Atom q) <-> slot_at a j = Some (Atom q) \/ (j = i /\ q = p)) ->
  kind_ok s' k -> text s' = a_text o -> ref_count s' = a_refs o -> a_atom o = None ->
  objs (<[p := s']> v) a' (<[p := mkObj (a_text o) (a_refs o) (Some (k, i))]> σ).
Proof.
  intros [H1 H2 H3] Ho Hi0 Ha Hk Htx Hrf Hno. destruct (H2 p o Ho) as (s & Hs & Hn0 & Hob).
  assert (Hob' : obj_of a' p s' (mkObj (a_text o) (a_refs o) (Some (k, i)))) by (split_and!; [done..|cbn; split; [done|apply Ha; by right]]).
  assert (H0 : forall q, slot_at a' 0 = Some (Atom q) <-> slot_at a 0 = Some (Atom q)) by (intros q; rewrite Ha; naive_solver).
  constructor.
  - intros q u [[<- <-]|[Hne Hu]]%lookup_insert_Some Hq0; [by rewrite lookup_insert_eq; eauto|].
    rewrite H0 in Hq0. destruct (H1 q u Hu Hq0) as (o' & Ho' & Hobq). exists o'. rewrite lookup_insert_ne by done. split; [done|].
    eapply obj_of_slots; [done|]. intros j Hj. apply Ha. by left.
  - intros q o' [[<- <-]|[Hne Ho']]%lookup_insert_Some.
    + exists s'. rewrite lookup_insert_eq, H0. done.
    + destruct (H2 q o' Ho') as (u & Hu & Hq0 & Hobq). exists u. rewrite lookup_insert_ne, H0 by done. split_and!; [done..|].
      eapply obj_of_slots; [done|]. intros j Hj. apply Ha. by left.
  - intros q o' [[<- <-]|[Hne Ho']]%lookup_insert_Some; [cbn; by apply (H3 p)|eauto].
Qed.

Lemma objs_grown rt rt' σ chains free : table_ok rt chains free -> objs (view rt) (atom_array rt) σ -> grown rt rt' -> objs (view rt') (atom_array rt') σ.
Proof.
  intros HT [H1 H2 H3] [(Es & p0 & Hp0 & Hv & Ha)|(Es & Hv & Ha)]; rewrite Hv.
  - assert (Hnil : atom_array rt = []) by (pose proof (k_size _ _ _ HT) as Hz; destruct (atom_array rt) as [|x l]; [done|rewrite zlen_cons in Hz; pose proof (zlen_nonneg l); lia]).
    assert (Hsl : forall q i, slot_at (atom_array rt) i <> Some (Atom q)) by (intros q i Hi%atom_slot_bounds; rewrite Hnil in Hi; cbn in Hi; unfold zlen in Hi; cbn in Hi; lia).
    assert (Hvp : view rt !! p0 = None) by (unfold view; by rewrite lookup_fmap, Hp0). constructor; [| |done].
    + intros q u [[<- <-]|[Hne Hu]]%lookup_insert_Some Hq0; [by rewrite Ha in Hq0; naive_solver|]. destruct (H1 q u Hu (Hsl q 0)) as (o & Ho & Hob).
      exists o. split; [done|]. eapply obj_of_slots; [done|]. intros i Hi. by apply Hsl in Hi.
    + intros q o Ho. destruct (H2 q o Ho) as (u & Hu & _ & Hob). exists u. assert (q <> p0) by congruence. rewrite lookup_insert_ne by done.
      split_and!; [done|rewrite Ha; naive_solver|]. eapply obj_of_slots; [done|]. intros i Hi. by apply Hsl in Hi.
  - constructor; [| |done].
    + intros q u Hu Hq0. rewrite Ha in Hq0. destruct (H1 q u Hu Hq0) as (o & Ho & Hob). exists o. split; [done|]. eapply obj_of_slots; [done|]. intros i Hi. by apply Ha.
    + intros q o Ho. destruct (H2 q o Ho) as (u & Hu & Hq0 & Hob). exists u. rewrite Ha. split_and!; [done..|]. eapply obj_of_slots; [done|]. intros i Hi. by apply Ha.
Qed.

(** ** References *)

Section Sim.
Context {CFG : AtomConfig} {ALC : AtomAllocator} {SML : SmallArrays}.

Lemma sim_js_free_string rt chains free σ p : table_ok rt chains free -> objs (view rt) (atom_array rt) σ -> is_Some (σ !! p) ->
  wp (js_free_string rt p) (fun rt' => exists chains' free', table_ok rt' chains' free' /\ objs (view rt') (atom_array rt') (drop σ p) /\
    atom_hash_size rt' = atom_hash_size rt /\ (free' = free \/ exists i, free' = i :: free)).
Proof.
  intros HT HO [o Ho]. destruct (obj_some _ _ _ _ HO Ho) as (s & Hs & Hn & Hob & _ & Er).
  eapply wp_mono; [by eapply wp_js_free_string|]. intros rt' (chains' & free' & HT' & Hv & Hsz & Hf & Ha).
  exists chains', free'. split_and!; [done| |done..]. rewrite Hv. eapply objs_drop; [done|by apply view_of|done|by rewrite erase_refs].
Qed.

Lemma sim_add_ref rt chains free σ p o d : table_ok rt chains free -> objs (view rt) (atom_array rt) σ -> σ !! p = Some o -> 1 <= a_refs o + d ->
  wp (add_ref rt p d) (fun rt' => table_ok rt' chains free /\ objs (view rt') (atom_array rt') (<[p := with_arefs o (a_refs o + d)]> σ) /\
    atom_hash_size rt' = atom_hash_size rt /\ atom_size rt' = atom_size rt).
Proof.
  intros HT HO Ho Hd. destruct (obj_some _ _ _ _ HO Ho) as (s & Hs & Hn & Hob & _ & Er). eapply wp_add_ref; [done|]. split_and!; [by apply table_refs| |done..].
  cbn [atom_array set_str set_strings]. rewrite (view_ref rt p s) by done. rewrite Er in *. apply objs_refs; [done|by apply view_of|done|done].
Qed.

Lemma bump_some σ p o : σ !! p = Some o -> bump σ p = <[p := with_arefs o (a_refs o + 1)]> σ.
Proof. unfold bump. by intros ->. Qed.

Lemma drop_keep σ p o : σ !! p = Some o -> 1 < a_refs o -> drop σ p = <[p := with_arefs o (a_refs o - 1)]> σ.
Proof. unfold drop. intros -> Hr. by rewrite (proj2 (Z.leb_gt _ _)) by lia. Qed.

Lemma drop_ne σ p q : q <> p -> drop σ p !! q = σ !! q.
Proof. intros Hne. unfold drop. destruct (σ !! p) as [o|]; [|done]. destruct (_ <=? _); [by rewrite lookup_delete_ne|by rewrite lookup_insert_ne]. Qed.

Lemma drop_some σ p q o : drop σ p !! q = Some o -> exists o', σ !! q = Some o' /\ a_atom o' = a_atom o /\ a_text o' = a_text o.
Proof.
  intros Hd. destruct (decide (q = p)) as [->|Hne]; [|rewrite drop_ne in Hd by done; eauto]. unfold drop in Hd.
  destruct (σ !! p) as [o'|] eqn:E; [|congruence]. destruct (_ <=? _); [by rewrite lookup_delete_eq in Hd|]. rewrite lookup_insert_eq in Hd. injection Hd as <-. eauto.
Qed.

Lemma bump_ne σ p q : q <> p -> bump σ p !! q = σ !! q.
Proof. intros Hne. unfold bump. destruct (σ !! p) as [o|]; [|done]. by rewrite lookup_insert_ne. Qed.

Lemma drop_not_interned σ p k l : not_interned σ k l -> not_interned (drop σ p) k l.
Proof. intros Hn q i (o & (o' & Ho & Ea & Et)%drop_some & Ek & El). apply (Hn q i). exists o'. by rewrite Ea, Et. Qed.

(** ** New entries *)

Lemma new_ok_of rt chains free σ s k : table_ok rt chains free -> objs (view rt) (atom_array rt) σ ->
  (shared k = true -> not_interned σ k (units (text s))) ->
  new_ok rt s (if shared k then text_hash (text s) (type_of k) else match k with A_private => JS_ATOM_HASH_PRIVATE | _ => JS_ATOM_HASH_SYMBOL end)
    (if shared k then Z.land (text_hash (text s) (type_of k)) (atom_hash_size rt - 1) else 0) (if shared k then type_of k else JS_ATOM_TYPE_SYMBOL).
Proof.
  intros HT HO Hn. destruct (shared k) eqn:Ek.
  - right. split_and!; [by destruct k..|done|done|]. intros q t Ht Hty Eu. destruct (decide (slot_at (atom_array rt) 0 = Some (Atom q))) as [H0|H0].
    + destruct (s_null _ _ (k_slots _ _ _ HT)) as (p & u & Hp & Hu & Hty'); [pose proof (atom_slot_bounds _ _ _ H0); lia|].
      assert (p = q) as -> by congruence. assert (u = t) as -> by congruence. rewrite Hty' in Hty. by destruct k.
    + destruct (o_in _ _ _ HO q t Ht H0) as (o & Ho & Et & _ & Hat). destruct (a_atom o) as [[k' i]|] eqn:Ea.
      * destruct Hat as [Hk' Hi]. assert (k' = k) as -> by (eapply kind_det; [done|by apply kind_shared_type]).
        apply (Hn eq_refl q i). exists o. by rewrite Et.
      * rewrite Hat in Hty. by destruct k.
  - left. split; [done|]. destruct k; try done; [by left|by right].
Qed.

(** The string of a new atom. *)
Inductive string_of (σ : heap) : option ptr -> ptr -> heap -> Prop :=
  | SO_self q o : σ !! q = Some o -> a_atom o = None -> string_of σ (Some q) q σ
  | SO_copy q o p : σ !! q = Some o -> a_atom o <> None -> σ !! p = None -> string_of σ (Some q) p (<[p := mkObj (a_text o) 1 None]> (drop σ q))
  | SO_none p : σ !! p = None -> string_of σ None p (<[p := mkObj (mkString true []) 1 None]> σ).

Lemma sim_new_string rt chains free σ n p t : table_ok rt chains free -> objs (view rt) (atom_array rt) σ -> string_alloc (strings rt) n = Some p ->
  let rt' := set_str rt p (mkStruct 1 t 0 0 0) in
  table_ok rt' chains free /\ objs (view rt') (atom_array rt') (<[p := mkObj t 1 None]> σ) /\ σ !! p = None.
Proof.
  intros HT HO Hp%string_fresh rt'. assert (Hv : view rt !! p = None) by (unfold view; by rewrite lookup_fmap, Hp). split_and!.
  - eapply (table_other _ _ _ p); [done|eapply not_atom; [done|congruence]|intros q Hq; by rewrite lookup_insert_ne|].
    intros s. rewrite lookup_insert_eq. by intros [= <-].
  - unfold rt'. rewrite view_set_str. apply objs_string; [apply HT|done..].
  - by eapply objs_none.
Qed.

Lemma sim_atom_string rt chains free σ str : table_ok rt chains free -> objs (view rt) (atom_array rt) σ -> (forall q, str = Some q -> is_Some (σ !! q)) ->
  wp (atom_string rt str) (fun r =>
    match r with
    | None => True
    | Some (p, rt') => exists chains' free' σ', table_ok rt' chains' free' /\ objs (view rt') (atom_array rt') σ' /\ string_of σ str p σ' /\
        atom_hash_size rt' = atom_hash_size rt /\ (free' = free \/ exists i, free' = i :: free) /\
        (forall q o, str = Some q -> σ !! q = Some o -> a_atom o = None -> rt' = rt /\ free' = free)
    end).
Proof.
  intros HT HO Hstr. unfold atom_string. destruct str as [q|].
  - destruct (Hstr q eq_refl) as [o Ho]. destruct (obj_some _ _ _ _ HO Ho) as (s & Hs & Hn & Hob & Et & Er). apply wp_bind. eapply wp_get_str; [done|].
    assert (Hat : a_atom o = None <-> atom_type s = 0).
    { destruct Hob as (_ & _ & Ha). destruct (a_atom o) as [[k i]|]; rewrite erase_type in * || idtac; [|done].
      destruct Ha as [Hk%kind_type _]. rewrite erase_type in Hk. split; [done|lia]. }
    destruct (Z.eqb_spec (atom_type s) 0) as [E0|E0].
    + cbn. exists chains, free, σ. split_and!; [done|done| |done|by left|done]. econstructor; [done|by apply Hat].
    + destruct (string_alloc _ _) as [p|] eqn:Ep; [|done]. destruct (sim_new_string _ _ _ _ _ _ (text s) HT HO Ep) as (HT1 & HO1 & Hp).
      assert (Hpq : p <> q) by congruence. apply wp_bind. eapply wp_mono; [eapply sim_js_free_string; [exact HT1|exact HO1|rewrite lookup_insert_ne by done; eauto]|].
      intros rt' (chains' & free' & HT' & HO' & Hsz & Hf). cbn [wp]. exists chains', free'. eexists. split_and!; [done|exact HO'| |done|done|intros q' o' [= <-] Ho'; assert (o' = o) as -> by congruence; by intros ?%Hat].
      assert (Ed : drop (<[p := mkObj (text s) 1 None]> σ) q = <[p := mkObj (a_text o) 1 None]> (drop σ q)).
      { unfold drop. rewrite lookup_insert_ne, Ho, Et by done. destruct (_ <=? _); [by rewrite delete_insert_ne|by rewrite insert_insert_ne]. }
      rewrite Ed. econstructor; [done|by rewrite Hat|done].
  - destruct (string_alloc _ _) as [p|] eqn:Ep; [|done]. destruct (sim_new_string _ _ _ _ _ _ (mkString true []) HT HO Ep) as (HT1 & HO1 & Hp).
    cbn [wp]. exists chains, free. eexists. split_and!; [done|exact HO1|by constructor|done|by left|done].
Qed.

(** The free entries from [cur] to the end of the array, as at the start of a
    runtime. *)
Definition fresh_from (rt : JSRuntime) (free : list Z) (cur : Z) : Prop :=
  1 <= cur <= Z.max 1 (atom_size rt) /\ free = seqZ cur (atom_size rt - cur).

Lemma free_head_unused rt chains i free σ : table_ok rt chains (i :: free) -> objs (view rt) (atom_array rt) σ -> unused σ i.
Proof.
  intros HT HO. pose proof (f_list _ _ _ (k_free _ _ _ HT)) as (_ & Hi0 & n & Hn & _). unfold fnext in Hn.
  destruct (slot_at (atom_array rt) i) as [sl|] eqn:Hi; [|done]. pose proof (atom_slot_bounds _ _ _ Hi). rewrite (k_size _ _ _ HT) in *. pose proof (k_max _ _ _ HT).
  split; [lia|]. intros p k (o & Ho & Ea). destruct (obj_some _ _ _ _ HO Ho) as (s & _ & _ & (_ & _ & Hob) & _). rewrite Ea in Hob. destruct Hob as [_ Hob].
  rewrite Hi in Hob. by destruct sl.
Qed.

Definition new_hash_of (k : akind) (t : JSString) : Z :=
  if shared k then text_hash t (type_of k) else match k with A_private => JS_ATOM_HASH_PRIVATE | _ => JS_ATOM_HASH_SYMBOL end.
Definition new_type_of (k : akind) : Z := if shared k then type_of k else JS_ATOM_TYPE_SYMBOL.

Lemma sim_insert rt chains i free σ p t n k h1 : table_ok rt chains (i :: free) -> objs (view rt) (atom_array rt) σ -> σ !! p = Some (mkObj t n None) ->
  (shared k = true -> not_interned σ k (units t) /\ h1 = Z.land (text_hash t (type_of k)) (atom_hash_size rt - 1)) ->
  wp (insert_atom rt p (new_hash_of k t) h1 (new_type_of k)) (fun '(i', rt') => i' = i /\ exists chains', table_ok rt' chains' free /\
    objs (view rt') (atom_array rt') (<[p := mkObj t n (Some (k, i))]> σ) /\ atom_size rt' = atom_size rt).
Proof.
  intros HT HO Hp Hk. destruct (obj_some _ _ _ _ HO Hp) as (s & Hs & Hn0 & Hob & Et & Er). cbn in Et, Er. assert (Ht0 : atom_type s = 0).
  { destruct Hob as (_ & _ & Ha). cbn in Ha. by rewrite erase_type in Ha. }
  assert (Hnew : new_ok rt s (new_hash_of k t) h1 (new_type_of k)).
  { rewrite Et in Hk |- *. unfold new_hash_of, new_type_of. pose proof (new_ok_of rt chains (i :: free) σ s k HT HO (fun E => proj1 (Hk E))) as Hok.
    destruct (shared k) eqn:Ek; [|destruct Hok as [?|(Hlt & _)]; [by left|lia]]. by rewrite (proj2 (Hk eq_refl)). }
  eapply wp_mono; [by eapply wp_insert_atom|]. intros [i' rt'] (-> & chains' & HT' & Hv & Ha & Hsz). split; [done|]. exists chains'. split_and!; [done| |done].
  rewrite Hv. pose proof (f_list _ _ _ (k_free _ _ _ HT)) as (_ & Hi0 & _).
  eapply (objs_entry (view rt) (atom_array rt) (atom_array rt') σ p (mkObj t n None) _ k i HO Hp); [done|done| |cbn; congruence|cbn; congruence|done]. by destruct k.
Qed.

(** The case that no atom of this text exists. *)
Lemma sim_new_entry rt chains free σ str k t h1 : table_ok rt chains free -> objs (view rt) (atom_array rt) σ ->
  (forall q, str = Some q -> exists o, σ !! q = Some o /\ a_text o = t) ->
  (shared k = true -> str <> None /\ not_interned σ k (units t) /\ h1 = Z.land (text_hash t (type_of k)) (atom_hash_size rt - 1)) ->
  (shared k = false -> forall t', new_hash_of k t' = new_hash_of k t) ->
  wp (new_entry rt str (new_hash_of k t) h1 (new_type_of k)) (fun '(i, rt') => exists σ' chains' free', table_ok rt' chains' free' /\
    objs (view rt') (atom_array rt') σ' /\ new_atom σ str k i σ' /\
    (i <> 0 -> forall q o cur, str = Some q -> σ !! q = Some o -> a_atom o = None -> fresh_from rt free cur -> i = cur /\ fresh_from rt' free' (cur + 1))).
Proof.
  intros HT HO Hstr Hk Hh. unfold new_entry.
  assert (Hfail : forall rt1 chains1 free1, table_ok rt1 chains1 free1 -> objs (view rt1) (atom_array rt1) σ ->
    wp (rt ← free_string_opt rt1 str; Ret (JS_ATOM_NULL, rt)) (fun '(i, rt') => exists σ' chains' free', table_ok rt' chains' free' /\
      objs (view rt') (atom_array rt') σ' /\ new_atom σ str k i σ' /\
      (i <> 0 -> forall q o cur, str = Some q -> σ !! q = Some o -> a_atom o = None -> fresh_from rt free cur -> i = cur /\ fresh_from rt' free' (cur + 1)))).
  { intros rt1 chains1 free1 HT1 HO1. apply wp_bind. assert (Hna : new_atom σ str k 0 (drop_opt σ str)).
    { constructor. intros q o -> Ho Hsh. destruct (Hstr q eq_refl) as (o' & Ho' & <-). assert (o' = o) as -> by congruence. by apply Hk. }
    destruct str as [q|].
    - destruct (Hstr q eq_refl) as (o & Ho & _). eapply wp_mono; [eapply sim_js_free_string; [done..|by rewrite Ho]|].
      intros rt' (chains' & free' & HT' & HO' & _). exists (drop σ q), chains', free'. split_and!; [done..|by intros ?].
    - exists σ, chains1, free1. split_and!; [done..|by intros ?]. }
  apply wp_bind.
  assert (Hgo : forall rt1 chains1 free1, table_ok rt1 chains1 free1 -> objs (view rt1) (atom_array rt1) σ -> free1 <> [] -> atom_hash_size rt1 = atom_hash_size rt ->
    (forall cur, fresh_from rt free cur -> fresh_from rt1 free1 cur) ->
    wp (r ← atom_string rt1 str;
        match r with
        | None => rt ← free_string_opt rt1 str; Ret (JS_ATOM_NULL, rt)
        | Some (p, rt) => insert_atom rt p (new_hash_of k t) h1 (new_type_of k)
        end) (fun '(i, rt') => exists σ' chains' free', table_ok rt' chains' free' /\ objs (view rt') (atom_array rt') σ' /\ new_atom σ str k i σ' /\
      (i <> 0 -> forall q o cur, str = Some q -> σ !! q = Some o -> a_atom o = None -> fresh_from rt free cur -> i = cur /\ fresh_from rt' free' (cur + 1)))).
  { intros rt1 chains1 free1 HT1 HO1 Hne Hsz Hcur. apply wp_bind. eapply wp_mono; [eapply sim_atom_string; [done..|intros q Eq; destruct (Hstr q Eq) as (o & Ho & _); eauto]|].
    intros [[p rt2]|] Hr; [|by eapply Hfail]. destruct Hr as (chains2 & free2 & σ2 & HT2 & HO2 & Hso & Hsz2 & Hf2 & Hself).
    destruct free2 as [|i free2]; [naive_solver|]. pose proof (free_head_unused _ _ _ _ _ HT2 HO2) as Hun.
    assert (Hins : forall t' n, σ2 !! p = Some (mkObj t' n None) -> (shared k = true -> t' = t /\ not_interned σ2 k (units t)) ->
      wp (insert_atom rt2 p (new_hash_of k t) h1 (new_type_of k)) (fun '(i', rt') => i' = i /\ exists chains', table_ok rt' chains' free2 /\
        objs (view rt') (atom_array rt') (<[p := mkObj t' n (Some (k, i))]> σ2) /\ atom_size rt' = atom_size rt2)).
    { intros t' n Hp Hni. assert (Eh : new_hash_of k t = new_hash_of k t') by (destruct (shared k) eqn:Ek; [by rewrite (proj1 (Hni eq_refl))|by rewrite (Hh eq_refl t')]).
      rewrite Eh. eapply sim_insert; [done..|]. intros Ek. destruct (Hni Ek) as [-> Hn]. split; [done|]. rewrite Hsz2, Hsz. by apply Hk. }
    inversion Hso as [q o Hq Ea|q o p' Hq Ea Hp|p' Hp]; subst.
    - destruct (Hself p o eq_refl Hq Ea) as [-> E2]. destruct (Hstr p eq_refl) as (o' & Ho' & <-). assert (o' = o) as -> by congruence. destruct o as [t' n at']. cbn in Ea. subst at'.
      eapply wp_mono; [apply (Hins t' n Hq)|].
      + intros Ek. split; [done|]. by apply Hk.
      + intros [i' rt'] (-> & chains' & HT' & HO' & Hsz'). eexists _, chains', free2. split_and!; [done|exact HO'| |].
        * apply (NA_self σ2 p (mkObj t' n None) k i Hq eq_refl); [intros Ek; by apply Hk|done].
        * intros _ q o cur _ _ _ [Hc Ef]%Hcur. rewrite <- E2 in Ef. destruct (Z.le_gt_cases (atom_size rt1 - cur) 0) as [Hle|Hgt]; [by rewrite seqZ_nil in Ef by lia|].
          rewrite seqZ_cons in Ef by lia. injection Ef as -> Ef. split; [done|]. unfold fresh_from. rewrite Hsz'. split; [lia|]. rewrite Ef. f_equal; lia.
    - destruct (Hstr q eq_refl) as (o' & Ho' & <-). assert (o' = o) as -> by congruence. eapply wp_mono; [apply (Hins (a_text o) 1 (lookup_insert_eq _ _ _))|].
      + intros Ek. split; [done|]. intros q' j (o1 & [[<- <-]|[_ Ho1]]%lookup_insert_Some & Ej & El); [done|]. destruct (Hk Ek) as (_ & Hni & _).
        apply (drop_not_interned σ q k _ Hni q' j). by exists o1.
      + intros [i' rt'] (-> & chains' & HT' & HO' & Hsz'). rewrite insert_insert_eq in HO'. eexists _, chains', free2. split_and!; [done|exact HO'| |].
        * econstructor; [done|done|intros Ek; by apply Hk|done|]. split; [apply Hun|]. intros q' k' (o1 & Ho1 & E1). apply (proj2 Hun q' k').
          exists o1. rewrite lookup_insert_ne; [done|]. intros <-. rewrite drop_ne in Ho1 by congruence. congruence.
        * intros _ q' o1 cur [= <-] Hq' Ea'. congruence.
    - eapply wp_mono; [apply (Hins (mkString true []) 1 (lookup_insert_eq _ _ _))|].
      + intros Ek. by destruct (proj1 (Hk Ek)).
      + intros [i' rt'] (-> & chains' & HT' & HO' & Hsz'). rewrite insert_insert_eq in HO'. eexists _, chains', free2. split_and!; [done|exact HO'| |done].
        constructor; [destruct (shared k) eqn:Ek; [by destruct (proj1 (Hk eq_refl))|done]|done|]. split; [apply Hun|]. intros q' k' (o1 & Ho1 & E1). apply (proj2 Hun q' k').
        exists o1. rewrite lookup_insert_ne; [done|]. congruence. }
  destruct (Z.eqb_spec (atom_free_index rt) 0) as [E0|E0].
  - assert (free = []) as ->. { pose proof (f_list _ _ _ (k_free _ _ _ HT)) as Hl. rewrite E0 in Hl. destruct free as [|i f]; [done|]. by destruct Hl as (? & ? & _). }
    eapply wp_mono; [by eapply wp_grow_atom_array|]. intros [ok rt1]. destruct ok; cbn [negb].
    + intros (Hlt & HT1 & Hg & Hsz). eapply Hgo; [exact HT1|exact (objs_grown _ _ _ _ _ HT HO Hg)| |done|].
      * rewrite seqZ_cons by lia. done.
      * intros cur [Hc Ef]. unfold fresh_from. assert (cur = Z.max 1 (atom_size rt)) as ->; [|split; [lia|done]].
        destruct (Z.le_gt_cases (atom_size rt) cur); [lia|]. by rewrite seqZ_cons in Ef by lia.
    + intros ->. by eapply Hfail.
  - cbn [wp negb]. eapply Hgo; [done|done| |done|done]. intros ->. by pose proof (f_list _ _ _ (k_free _ _ _ HT)).
Qed.

(** ** [__JS_NewAtom] *)

Lemma wp_find_shared {B} rt chains free (x : Z) (test : JSAtomStruct -> outcome bool) (P : JSAtomStruct -> bool) (K : option (Z * ptr) -> outcome B) (Q : B -> Prop) :
  table_ok rt chains free -> (forall s p, strings rt !! p = Some s -> test s = Ret (P s)) -> (forall s, P s = true -> hash s = x) ->
  (forall i p s, slot_at (atom_array rt) i = Some (Atom p) -> strings rt !! p = Some s -> P s = true -> wp (K (Some (i, p))) Q) ->
  ((forall i p s, slot_at (atom_array rt) i = Some (Atom p) -> strings rt !! p = Some s -> hashed s = true -> P s = false) -> wp (K None) Q) ->
  wp (i ← rd (atom_hash rt) (Z.land x (u32 (atom_hash_size rt - 1))); r ← find_in_chain rt i test; K r) Q.
Proof.
  intros HT Ht HP Hf Hn. rewrite (mask_eq HT). destruct (chain_of HT x) as (c & Hc & Hr). apply wp_bind.
  eapply (wp_chain_head HT); [done|]. intros h Hl. apply wp_bind. eapply wp_mono; [eapply (wp_find_in_atom_chain HT _ c h test P Hc Hl)|]; [by eauto|].
  intros [[i p]|].
  - intros (s & _ & Hi & Hs & HPs). by eapply Hf.
  - intros Hnone. apply Hn. intros i p s Hi Hs Hh. destruct (P s) eqn:EP; [|done]. rewrite <- EP. apply (Hnone i p s); [|done..].
    apply (in_chain HT i p s c Hi Hs Hh). by rewrite (HP s EP).
Qed.

Lemma keeps_some σ p i o : σ !! p = Some o -> keeps σ p i = if is_const i then σ else <[p := with_arefs o (a_refs o + 1)]> σ.
Proof. intros Ho. unfold keeps. by rewrite (bump_some σ p o Ho). Qed.

Lemma const_small i : 0 <= i < 2 ^ 29 -> __JS_AtomIsConst i = is_const i.
Proof. intros Hi. unfold __JS_AtomIsConst, is_const. by rewrite i32_small by lia. Qed.

Lemma slot_small rt chains free i sl : table_ok rt chains free -> slot_at (atom_array rt) i = Some sl -> 0 <= i < atom_size rt /\ 0 <= i < 2 ^ 29.
Proof. intros HT Hb%atom_slot_bounds. rewrite (k_size _ _ _ HT) in Hb. pose proof (k_max _ _ _ HT). lia. Qed.

Lemma atom_slot rt σ p k i : objs (view rt) (atom_array rt) σ -> is_atom_of σ p k i -> slot_at (atom_array rt) i = Some (Atom p) /\ i <> 0.
Proof.
  intros HO (o & Ho & Ea). destruct (obj_some _ _ _ _ HO Ho) as (s & _ & Hn & (_ & _ & Hob) & _). rewrite Ea in Hob. destruct Hob as [_ Hi].
  split; [done|]. by intros ->.
Qed.

(** The entry of an object. *)
Lemma slot_atom rt chains free σ i p s : table_ok rt chains free -> objs (view rt) (atom_array rt) σ -> slot_at (atom_array rt) i = Some (Atom p) -> i <> 0 ->
  strings rt !! p = Some s -> exists o k, σ !! p = Some o /\ a_atom o = Some (k, i) /\ kind_ok (erase s) k /\ a_text o = text s /\ a_refs o = ref_count s.
Proof.
  intros HT HO Hi Hi0 Hs. assert (Hn0 : slot_at (atom_array rt) 0 <> Some (Atom p)) by (intros H0; apply Hi0; by eapply (s_inj _ _ (k_slots _ _ _ HT))).
  destruct (o_in _ _ _ HO p _ (view_of _ _ _ Hs) Hn0) as (o & Ho & Et & Er & Ha). rewrite erase_text in Et. rewrite erase_refs in Er.
  destruct (entry_string HT i p Hi) as (s' & Hs' & Hty). assert (s' = s) as -> by congruence.
  destruct (a_atom o) as [[k j]|] eqn:Ea; [|by rewrite erase_type in Ha]. destruct Ha as [Hk Hj]. exists o, k.
  by rewrite (s_inj _ _ (k_slots _ _ _ HT) _ _ _ Hi Hj).
Qed.

Lemma sim_keeps rt chains free σ p i k : table_ok rt chains free -> objs (view rt) (atom_array rt) σ -> is_atom_of σ p k i ->
  wp (if negb (__JS_AtomIsConst i) then add_ref rt p 1 else Ret rt) (fun rt' => table_ok rt' chains free /\ objs (view rt') (atom_array rt') (keeps σ p i)).
Proof.
  intros HT HO Hat. destruct (atom_slot _ _ _ _ _ HO Hat) as [Hi _]. destruct (slot_small _ _ _ _ _ HT Hi) as [_ Hb]. rewrite (const_small _ Hb).
  destruct Hat as (o & Ho & _). rewrite (keeps_some σ p i o Ho). destruct (is_const i); [done|]. cbn [negb].
  eapply wp_mono; [eapply sim_add_ref; [done..|]|]; [pose proof (o_refs _ _ _ HO p o Ho); lia|naive_solver].
Qed.

Lemma sim_get_atom_index rt chains free σ p k i Q : table_ok rt chains free -> objs (view rt) (atom_array rt) σ -> is_atom_of σ p k i -> Q i -> wp (js_get_atom_index rt p) Q.
Proof.
  intros HT HO Hat HQ. destruct (atom_slot _ _ _ _ _ HO Hat) as [Hi _]. destruct Hat as (o & Ho & _).
  destruct (obj_some _ _ _ _ HO Ho) as (s & Hs & _). by eapply (wp_js_get_atom_index HT).
Qed.

(** The comparison of the code: same kind and same units. *)
Lemma shared_test s (t : JSString) k h : shared k = true -> hash s = text_hash (text s) (atom_type s) \/ hashed s = false -> h = text_hash t (type_of k) ->
  (if (hash s =? h) && (atom_type s =? type_of k) && (zlen (units (text s)) =? zlen (units t))
   then c ← js_string_memcmp (text s) t (zlen (units t)); Ret (c =? 0) else Ret false) =
  Ret (bool_decide (atom_type s = type_of k /\ units (text s) = units t)) .
Proof.
  intros Ek Hh ->. destruct ((hash s =? _) && _ && _) eqn:E; breflect.
  - match goal with H : zlen (units (text s)) = _ |- _ => rename H into El end. match goal with H : atom_type s = _ |- _ => rename H into Et end.
    destruct (js_string_memcmp_zero (text s) t (zlen (units t))) as (c & -> & Hc); [rewrite El; pose proof (zlen_nonneg (units t)); lia|lia|].
    cbn. f_equal. unfold zlen in *. rewrite !take_ge in Hc by lia. destruct (Z.eqb_spec c 0) as [Ez|Ez].
    + symmetry. apply bool_decide_eq_true_2. split; [done|by apply Hc].
    + symmetry. apply bool_decide_eq_false_2. intros [_ Eu]. by apply Ez, Hc.
  - f_equal. symmetry. apply bool_decide_eq_false_2. intros [Et Eu]. rewrite Et, Eu, !Z.eqb_refl, !andb_true_r in E. apply Z.eqb_neq in E. apply E.
    destruct Hh as [->|Hh]; [|unfold hashed in Hh; rewrite Et in Hh; by destruct k]. rewrite Et. unfold text_hash, hash_string. by rewrite Eu.
Qed.

Lemma sim_NewAtom rt chains free σ str k : table_ok rt chains free -> objs (view rt) (atom_array rt) σ ->
  (forall q, str = Some q -> owned σ q) -> (shared k = true -> str <> None) ->
  wp (__JS_NewAtom rt str (type_of k)) (fun '(i, rt') => exists σ' chains' free', table_ok rt' chains' free' /\
    objs (view rt') (atom_array rt') σ' /\ new_atom σ str k i σ' /\
    (i <> 0 -> forall q o cur, str = Some q -> σ !! q = Some o -> a_atom o = None -> (shared k = true -> not_interned σ k (units (a_text o))) ->
       fresh_from rt free cur -> i = cur /\ fresh_from rt' free' (cur + 1))).
Proof.
  intros HT HO Hown Hstr. unfold __JS_NewAtom. destruct (shared k) eqn:Ek.
  - assert (Ety : type_of k <? JS_ATOM_TYPE_SYMBOL = true) by (by destruct k). rewrite Ety. destruct str as [q|]; [|by destruct (Hstr eq_refl)].
    destruct (Hown q eq_refl) as (o & Ho & Hone). destruct (obj_some _ _ _ _ HO Ho) as (s & Hs & Hn0 & Hob & Et & Er). apply wp_bind. eapply wp_get_str; [done|].
    destruct (Z.eqb_spec (atom_type s) (type_of k)) as [Esame|Ediff].
    + destruct Hob as (_ & _ & Hob). destruct (a_atom o) as [[k' i]|] eqn:Ea; [|rewrite erase_type, Esame in Hob; by destruct k].
      destruct Hob as [Hk' Hi]. assert (k' = k) as -> by (eapply kind_det; [done|]; apply kind_shared_type; [done|by rewrite erase_type]).
      assert (Hat : is_atom_of σ q k i) by (by exists o). apply wp_bind. eapply (sim_get_atom_index _ _ _ _ _ _ _ _ HT HO Hat).
      destruct (slot_small _ _ _ _ _ HT Hi) as [_ Hb]. rewrite (const_small _ Hb). pose proof (NA_same σ q k i Ek Hat) as Hna. destruct (is_const i) eqn:Ec.
      * apply wp_bind. pose proof (Hone k i eq_refl Ec). eapply wp_mono; [eapply sim_add_ref; [done..|lia]|]. intros rt' (HT' & HO' & _). cbn [wp].
        exists (drop σ q), chains, free. split_and!; [done| |done|]; [by rewrite (drop_keep σ q o)|]. intros _ q' o' cur [= <-] Ho'. congruence.
      * cbn [wp]. exists σ, chains, free. split_and!; [done..|]. intros _ q' o' cur [= <-] Ho'. congruence.
    + cbv zeta. rewrite <- Et. change (Z.land (hash_string (a_text o) (type_of k)) JS_ATOM_HASH_MASK) with (text_hash (a_text o) (type_of k)). set (h := text_hash (a_text o) (type_of k)).
      set (test := fun s1 : JSAtomStruct => if (hash s1 =? h) && (atom_type s1 =? type_of k) && (zlen (units (text s1)) =? zlen (units (a_text o)))
        then c ← js_string_memcmp (text s1) (a_text o) (zlen (units (a_text o))); Ret (c =? 0) else Ret false).
      set (P := fun s1 => bool_decide (atom_type s1 = type_of k /\ units (text s1) = units (a_text o))).
      assert (Hhash : forall s1 p, strings rt !! p = Some s1 -> hash s1 = text_hash (text s1) (atom_type s1) \/ hashed s1 = false).
      { intros s1 p Hs1. destruct (hashed s1) eqn:Eh; [left|by right]. pose proof (t_hash _ _ _ (string_ok HT p s1 Hs1)) as Hth. rewrite erase_hashed, erase_hash, erase_text, erase_type in Hth. auto. }
      assert (Htest : forall s1 p, strings rt !! p = Some s1 -> test s1 = Ret (P s1)) by (intros s1 p Hs1; unfold test, P; by apply shared_test; [|eapply Hhash|]).
      assert (HPh : forall p s1, strings rt !! p = Some s1 -> P s1 = true -> hash s1 = h).
      { intros p s1 Hs1 [Ety1 Eu]%bool_decide_eq_true. destruct (Hhash s1 p Hs1) as [->|Hh]; [|unfold hashed in Hh; rewrite Ety1 in Hh; by destruct k].
        rewrite Ety1. unfold h, text_hash, hash_string. by rewrite Eu. }
      apply (wp_find_shared rt chains free h test (fun s1 => P s1 && (hash s1 =? h))); [done| | | |].
      * intros s1 p Hs1. rewrite (Htest s1 p Hs1). f_equal. destruct (P s1) eqn:EP; [|done]. by rewrite (HPh p s1 Hs1 EP), Z.eqb_refl.
      * intros s1 E. breflect. done.
      * intros i p s1 Hi Hs1 E. breflect. match goal with H : P s1 = true |- _ => apply bool_decide_eq_true in H as [Ety1 Eu] end.
        assert (Hi0 : i <> 0).
        { intros ->. destruct (s_null _ _ (k_slots _ _ _ HT)) as (p0 & u & Hp0 & Hu & Hty); [pose proof (atom_slot_bounds _ _ _ Hi); lia|].
          assert (p0 = p) as -> by congruence. rewrite (view_of _ _ _ Hs1) in Hu. injection Hu as <-. rewrite erase_type, Ety1 in Hty. by destruct k. }
        destruct (slot_atom _ _ _ _ _ _ _ HT HO Hi Hi0 Hs1) as (o1 & k1 & Ho1 & Ea1 & Hk1 & Et1 & Er1).
        assert (k1 = k) as -> by (eapply kind_det; [done|]; apply kind_shared_type; [done|by rewrite erase_type]).
        assert (Hint : interned σ k (units (a_text o)) p i) by (exists o1; split_and!; [done|done|by rewrite Et1]).
        assert (Hpq : p <> q) by (intros ->; congruence). assert (Hat : is_atom_of σ p k i) by (by exists o1).
        apply wp_bind. eapply wp_mono; [by eapply sim_keeps|]. intros rt1 [HT1 HO1]. apply wp_bind.
        eapply wp_mono; [eapply sim_js_free_string; [done..|]|].
        { unfold keeps. destruct (is_const i); [by rewrite Ho|]. rewrite bump_ne by done. by rewrite Ho. }
        intros rt' (chains' & free' & HT' & HO' & _). cbn [wp]. eexists _, chains', free'. split_and!; [done|exact HO'|by econstructor|].
        intros _ q' o' cur [= <-] Ho' _ Hni. assert (o' = o) as -> by congruence. by destruct (Hni eq_refl p i).
      * intros Hnone. assert (Hni : not_interned σ k (units (a_text o))).
        { intros p i (o1 & Ho1 & Ea1 & Eu1). destruct (atom_slot _ _ p k i HO) as [Hi _]; [by exists o1|]. destruct (obj_some _ _ _ _ HO Ho1) as (s1 & Hs1 & _ & (_ & _ & Hob1) & Et1 & _).
          rewrite Ea1 in Hob1. destruct Hob1 as [Hk1 _]. assert (Hty1 : atom_type s1 = type_of k) by (rewrite <- erase_type; by apply kind_shared_type).
          assert (Hh1 : hashed s1 = true) by (unfold hashed; rewrite Hty1; by destruct k). assert (EP : P s1 = true) by (apply bool_decide_eq_true_2; split; [done|by rewrite <- Et1]).
          specialize (Hnone i p s1 Hi Hs1 Hh1). by rewrite EP, (HPh p s1 Hs1 EP), Z.eqb_refl in Hnone. }
        rewrite (mask_eq HT). replace h with (new_hash_of k (a_text o)) by (unfold new_hash_of; by rewrite Ek). replace (type_of k) with (new_type_of k) by (unfold new_type_of; by rewrite Ek).
        eapply wp_mono; [eapply (sim_new_entry rt chains free σ (Some q) k (a_text o)); [done|done|intros q' [= <-]; by exists o| |by rewrite Ek]|].
        { intros _. split_and!; [done|done|]. unfold new_hash_of. by rewrite Ek. }
        intros [i rt'] (σ' & chains' & free' & HT' & HO' & Hna & Hfr). exists σ', chains', free'. split_and!; [done..|]. intros Hi q' o' cur E1 E2 E3 _. by eapply Hfr.
  - assert (Ety : type_of k <? JS_ATOM_TYPE_SYMBOL = false) by (by destruct k). rewrite Ety.
    assert (E : (if type_of k =? JS_ATOM_TYPE_SYMBOL then new_entry rt str JS_ATOM_HASH_SYMBOL 0 (type_of k) else new_entry rt str JS_ATOM_HASH_PRIVATE 0 JS_ATOM_TYPE_SYMBOL) =
      new_entry rt str (new_hash_of k (mkString true [])) 0 (new_type_of k)) by (by destruct k).
    rewrite E. destruct str as [q|].
    + destruct (Hown q eq_refl) as (o & Ho & _). replace (new_hash_of k (mkString true [])) with (new_hash_of k (a_text o)) by (by destruct k).
      eapply wp_mono; [eapply (sim_new_entry rt chains free σ (Some q) k (a_text o)); [done|done|intros q' [= <-]; by exists o|by rewrite Ek|intros _ t'; by destruct k]|].
      intros [i rt'] (σ' & chains' & free' & HT' & HO' & Hna & Hfr). exists σ', chains', free'. split_and!; [done..|]. intros Hi q' o' cur E1 E2 E3 _. by eapply Hfr.
    + eapply wp_mono; [eapply (sim_new_entry rt chains free σ None k (mkString true [])); [done|done|done|by rewrite Ek|intros _ t'; by destruct k]|].
      intros [i rt'] (σ' & chains' & free' & HT' & HO' & Hna & Hfr). exists σ', chains', free'. split_and!; [done..|]. intros Hi q' o' cur E1. done.
Qed.
End Sim.
