(* ===== verification/AtomRefine.v ===== *)
(** * Atoms: the calls refine the specification

    Each call is a step of [AtomSpec], the predefined atoms stay, and the
    specification follows every run of a runtime. *)

From S2P Require Import Prelude Cutils JsValues AtomTable AtomInv AtomHash AtomNew AtomNumber AtomCalls AtomSpec AtomRel.

(** ** The predefined atoms stay *)

Section Constants.
Context {CFG : AtomConfig}.

(** Constant atoms keep their strings. *)
Definition preserves (σ σ' : heap) : Prop := forall p o k i, σ !! p = Some o -> a_atom o = Some (k, i) -> is_const i = true ->
  exists o', σ' !! p = Some o' /\ a_atom o' = a_atom o /\ a_text o' = a_text o.

Lemma preserves_refl σ : preserves σ σ.
Proof. intros p o k i Ho _ _. eauto. Qed.

Lemma preserves_trans σ1 σ2 σ3 : preserves σ1 σ2 -> preserves σ2 σ3 -> preserves σ1 σ3.
Proof.
  intros H1 H2 p o k i Ho Ea Hc. destruct (H1 p o k i Ho Ea Hc) as (o2 & Ho2 & Ea2 & Et2). rewrite Ea in Ea2.
  destruct (H2 p o2 k i Ho2 Ea2 Hc) as (o3 & Ho3 & Ea3 & Et3). exists o3. by rewrite Ea3, Et3, Ea2.
Qed.

Lemma preserves_constants σ σ' : preserves σ σ' -> constants σ -> constants σ'.
Proof.
  intros Hp Hc i x name Hi. destruct (Hc i x name Hi) as (p & o & Ho & Ea & Eu).
  destruct (Hp p o _ _ Ho Ea) as (o' & Ho' & Ea' & Et').
  - apply Z.ltb_lt. unfold JS_ATOM_END, zlen. apply lookup_lt_Some in Hi. lia.
  - exists p, o'. by rewrite Ea', Et'.
Qed.

Lemma preserves_bump σ p : preserves σ (bump σ p).
Proof.
  intros q o k i Ho Ea _. destruct (decide (q = p)) as [->|Hne]; [|rewrite bump_ne by done; eauto].
  rewrite (bump_some σ p o Ho), lookup_insert_eq. eauto.
Qed.

Lemma preserves_keeps σ p i : preserves σ (keeps σ p i).
Proof. unfold keeps. destruct (is_const i); [apply preserves_refl|apply preserves_bump]. Qed.

Lemma preserves_drop σ p : owned σ p -> preserves σ (drop σ p).
Proof.
  intros (op & Hop & Hone) q o k i Ho Ea Hc. destruct (decide (q = p)) as [->|Hne]; [|rewrite drop_ne by done; eauto].
  assert (op = o) as -> by congruence. rewrite (drop_keep σ p o Ho), lookup_insert_eq by (by eapply Hone). eauto.
Qed.

Lemma preserves_insert σ p o : (forall o', σ !! p = Some o' -> a_atom o' = None) -> preserves σ (<[p := o]> σ).
Proof.
  intros Hp q o' k i Ho Ea _. destruct (decide (q = p)) as [->|Hne]; [by rewrite (Hp o' Ho) in Ea|rewrite lookup_insert_ne by done; eauto].
Qed.

Lemma owned_keeps σ p q i : q <> p -> owned σ q -> owned (keeps σ p i) q.
Proof. intros Hne (o & Ho & Hone). exists o. split; [|done]. unfold keeps. destruct (is_const i); [done|]. by rewrite bump_ne. Qed.

Lemma owned_bump σ p o : σ !! p = Some o -> 1 <= a_refs o -> owned (bump σ p) p.
Proof. intros Ho Hr. exists (with_arefs o (a_refs o + 1)). rewrite (bump_some σ p o Ho), lookup_insert_eq. split; [done|]. intros. cbn. lia. Qed.

Lemma owned_new σ p t : owned (<[p := new_obj t]> σ) p.
Proof. exists (new_obj t). by rewrite lookup_insert_eq. Qed.

Lemma preserves_new_atom σ str k i σ' : new_atom σ str k i σ' -> (forall q, str = Some q -> owned σ q) -> preserves σ σ'.
Proof.
  intros Hn Hown. destruct Hn as [q k i Ek Hat|q o k p i Ek Ho Hint Hpq|q o k i Ho Ea Hni Hun|q o k p i Ho Ea Hni Hp Hun|k p i Ek Hp Hun|str k Hf].
  - destruct (is_const i); [apply preserves_drop; auto|apply preserves_refl].
  - eapply preserves_trans; [apply (preserves_keeps σ p i)|]. apply preserves_drop, owned_keeps; auto.
  - apply preserves_insert. intros o' Ho'. congruence.
  - eapply preserves_trans; [apply (preserves_drop σ q); auto|]. apply preserves_insert. intros o' Ho'.
    assert (Hpq : p <> q) by congruence. rewrite drop_ne in Ho' by done. congruence.
  - apply preserves_insert. intros o' Ho'. congruence.
  - destruct str as [q|]; [apply preserves_drop; auto|apply preserves_refl].
Qed.

Lemma step_preserves σ op r σ' : spec_step σ op r σ' -> op_ok σ op -> (forall p o, σ !! p = Some o -> 1 <= a_refs o) -> preserves σ σ'.
Proof.
  intros Hs Hop Hrefs. destruct Hs; cbn [op_ok] in Hop; try apply preserves_refl; try apply preserves_bump; try apply preserves_keeps.
  - apply preserves_insert. congruence.
  - by apply preserves_drop.
  - eapply preserves_new_atom; [done|]. by intros q [= <-].
  - by apply preserves_drop.
  - eapply preserves_new_atom; [done|]. by intros q [= <-].
  - eapply preserves_trans; [apply (preserves_insert _ p (new_obj t)); congruence|]. eapply preserves_new_atom; [done|]. intros q [= <-]. apply owned_new.
  - unfold gives_up. destruct (is_const i) eqn:Ec; [apply preserves_refl|]. destruct H as (o & Ho & Ea).
    apply preserves_drop. exists o. split; [done|]. intros k' i' E. congruence.
  - eapply preserves_new_atom; [done|]. intros q ->. done.
  - eapply preserves_new_atom; [done|]. intros q ->. done.
  - destruct H as (o & Ho & _). eapply preserves_trans; [apply (preserves_bump σ q)|]. eapply preserves_new_atom; [done|]. intros q' [= <-]. eapply owned_bump; eauto.
  - destruct H as (o & Ho & _). eapply preserves_trans; [apply (preserves_bump σ q)|]. eapply preserves_new_atom; [done|]. intros q' [= <-]. eapply owned_bump; eauto.
  - apply preserves_insert. congruence.
Qed.
End Constants.

(** ** The calls *)

Section Calls.
Context {CFG : AtomConfig} {ALC : AtomAllocator} {SML : SmallArrays}.

(** The answer of a call is a step of the specification. *)
Definition steps (σ : heap) (op : atom_op) (m : outcome (atom_result * JSRuntime)) : Prop :=
  wp m (fun '(r, rt') => exists σ', spec_step σ op r σ' /\ refines rt' σ').

Lemma steps_intro σ op r rt' σ' : spec_step σ op r σ' -> refines rt' σ' -> steps σ op (Ret (r, rt')).
Proof. intros Hs HR. by exists σ'. Qed.

Lemma steps_atom σ op m : wp m (fun '(i, rt') => steps σ op (Ret (R_atom i, rt'))) -> steps σ op ('(i, rt) ← m; Ret (R_atom i, rt)).
Proof. unfold steps. destruct m as [[i rt']|]; [by intros H|done]. Qed.

Lemma ref_free rt σ p : refines rt σ -> is_Some (σ !! p) -> wp (js_free_string rt p) (fun rt' => refines rt' (drop σ p)).
Proof.
  intros [(chains & free & HT) HO] Hp. eapply wp_mono; [by eapply sim_js_free_string|]. intros rt' (chains' & free' & HT' & HO' & _). split; eauto.
Qed.

Lemma ref_dup rt σ p : refines rt σ -> is_Some (σ !! p) -> wp (JS_DupValue rt p) (fun rt' => refines rt' (bump σ p) /\ atom_size rt' = atom_size rt).
Proof.
  intros [(chains & free & HT) HO] [o Ho]. eapply wp_mono; [eapply sim_add_ref; [done..|]|]; [pose proof (o_refs _ _ _ HO p o Ho); lia|].
  intros rt' (HT' & HO' & _ & Hsz). rewrite (bump_some σ p o Ho). split; [split; eauto|done].
Qed.

Lemma ref_new_atom rt σ str k : refines rt σ -> (forall q, str = Some q -> owned σ q) -> (shared k = true -> str <> None) ->
  wp (__JS_NewAtom rt str (type_of k)) (fun '(i, rt') => exists σ', refines rt' σ' /\ new_atom σ str k i σ').
Proof.
  intros [(chains & free & HT) HO] Hown Hs. eapply wp_mono; [by eapply sim_NewAtom|]. intros [i rt'] (σ' & chains' & free' & HT' & HO' & Hn & _).
  exists σ'. split; [|done]. split; eauto.
Qed.

Lemma ref_new_string rt σ t : refines rt σ ->
  match js_alloc_string_rt rt t with Some (p, rt') => σ !! p = None /\ refines rt' (<[p := new_obj t]> σ) | None => True end.
Proof.
  intros [(chains & free & HT) HO]. unfold js_alloc_string_rt. destruct (string_alloc _ _) as [p|] eqn:Ep; [|done].
  destruct (sim_new_string _ _ _ _ _ _ t HT HO Ep) as (HT' & HO' & Hp). split; [done|]. split; eauto.
Qed.

(** An atom of the specification in the table. *)
Lemma ref_atom rt σ p k i : refines rt σ -> is_atom_of σ p k i -> exists s o, slot_at (atom_array rt) i = Some (Atom p) /\ strings rt !! p = Some s /\
  σ !! p = Some o /\ a_atom o = Some (k, i) /\ kind_ok s k /\ a_text o = text s /\ 0 < i < atom_size rt /\ i < 2 ^ 29.
Proof.
  intros [(chains & free & HT) HO] Hat. destruct (atom_slot _ _ _ _ _ HO Hat) as [Hi Hi0]. destruct (slot_small _ _ _ _ _ HT Hi) as [Hb1 Hb2]. destruct Hat as (o & Ho & Ea).
  destruct (obj_some _ _ _ _ HO Ho) as (s & Hs & _ & (_ & _ & Hob) & Et & _). rewrite Ea in Hob. destruct Hob as [Hk _]. exists s, o. split_and!; try done; [|lia..].
  destruct k; cbn in *; rewrite ?erase_type, ?erase_hash in Hk; done.
Qed.

Lemma not_tagged i : 0 < i < 2 ^ 29 -> __JS_AtomIsTaggedInt i = false.
Proof. intros Hi. rewrite tagged_spec by lia. apply Z.leb_gt. lia. Qed.

Lemma int_tagged i : is_int_atom i -> __JS_AtomIsTaggedInt i = true.
Proof. intros Hi. unfold is_int_atom in Hi. rewrite tagged_spec by lia. apply Z.leb_le. lia. Qed.

Lemma int_const i : is_int_atom i -> __JS_AtomIsConst i = true.
Proof.
  unfold is_int_atom. intros Hi. unfold __JS_AtomIsConst. apply Z.ltb_lt. assert (Hneg : i32 i < 0).
  { unfold i32, swrap. change (2 ^ (32 - 1)) with (2 ^ 31). rewrite Z.mod_small by lia. rewrite (proj2 (Z.ltb_ge i (2 ^ 31))) by lia. lia. }
  unfold JS_ATOM_END. pose proof (zlen_nonneg js_atom_init). lia.
Qed.

Lemma numeral_num t n : is_num_string t = Some n <-> numeral t n.
Proof. apply is_num_string_spec. Qed.

Lemma numeral_det t n m : numeral t n -> numeral t m -> n = m.
Proof. intros Hn%numeral_num Hm%numeral_num. congruence. Qed.

(** ** Strings and atoms *)

Lemma steps_new_atom rt σ p k : refines rt σ -> owned σ p -> steps σ (Op_new_atom p k) (exec rt (Op_new_atom p k)).
Proof.
  intros HR Hown. cbn [exec]. apply steps_atom. eapply wp_mono; [eapply ref_new_atom; [done|by intros q [= <-]|done]|].
  intros [i rt'] (σ' & HR' & Hn). eapply steps_intro; [by constructor|done].
Qed.

Lemma steps_new_atom_str rt σ p : refines rt σ -> owned σ p -> steps σ (Op_new_atom_str p) (exec rt (Op_new_atom_str p)).
Proof.
  intros HR Hown. pose proof Hown as (o & Ho & _). cbn [exec]. apply steps_atom. unfold JS_NewAtomStr. pose proof HR as [_ HO].
  destruct (obj_some _ _ _ _ HO Ho) as (s & Hs & _ & _ & Et & _). apply wp_bind. eapply wp_get_str; [done|].
  assert (Hstr : (forall n, numeral (a_text o) n -> 2 ^ 31 <= n) -> wp (__JS_NewAtom rt (Some p) JS_ATOM_TYPE_STRING) (fun '(i, rt') => steps σ (Op_new_atom_str p) (Ret (R_atom i, rt')))).
  { intros Hnum. eapply wp_mono; [apply (ref_new_atom rt σ (Some p) A_string HR); [by intros q [= <-]|done]|]. intros [i rt'] (σ' & HR' & Hn). eapply steps_intro; [by eapply S_atom_str|done]. }
  destruct (is_num_string (text s)) as [n|] eqn:En.
  - rewrite <- Et in En. apply numeral_num in En. unfold JS_ATOM_MAX_INT. rewrite tag_value. destruct (Z.leb_spec n (2 ^ 31 - 1)) as [Hle|Hgt].
    + apply wp_bind. eapply wp_mono; [apply (ref_free rt σ p HR); by rewrite Ho|]. intros rt' HR'. cbn [wp]. destruct (En) as [Hn _].
      rewrite from_uint32 by (unfold JS_ATOM_MAX_INT; rewrite tag_value; lia). exists (drop σ p). split; [|exact HR']. eapply S_atom_str_int; [done..|lia].
    + apply Hstr. intros m Hm. rewrite (numeral_det _ _ _ Hm En). lia.
  - apply Hstr. intros m Hm%numeral_num. rewrite Et in Hm. congruence.
Qed.

Lemma new_printed_steps rt σ b n buf : refines rt σ -> ~ 0 <= n < 2 ^ 31 -> buf = print_d n ->
  wp (new_printed_atom rt buf) (fun '(i, rt') => steps σ (Op_new_atom_number b n) (Ret (R_atom i, rt'))).
Proof.
  intros HR Hn ->. unfold new_printed_atom, js_new_string8. pose proof (ref_new_string rt σ (mkString false (print_d n)) HR) as Hnew.
  destruct (js_alloc_string_rt _ _) as [[p rt1]|].
  - destruct Hnew as [Hp HR1]. eapply wp_mono; [apply (ref_new_atom rt1 _ (Some p) A_string HR1); [intros q [= <-]; apply owned_new|done]|].
    intros [i rt'] (σ' & HR' & Hna). eapply steps_intro; [|done]. eapply S_number; [done..| |exact Hna]. done.
  - eapply steps_intro; [by apply S_number_oom|done].
Qed.

Lemma steps_new_atom_number rt σ b n : refines rt σ -> op_ok σ (Op_new_atom_number b n) -> steps σ (Op_new_atom_number b n) (exec rt (Op_new_atom_number b n)).
Proof.
  intros HR Hn. cbn [exec op_ok] in *. apply steps_atom. unfold JS_NewAtomInt64, JS_NewAtomUInt32, JS_ATOM_MAX_INT. rewrite tag_value.
  assert (Hint : 0 <= n < 2 ^ 31 -> steps σ (Op_new_atom_number b n) (Ret (R_atom (__JS_AtomFromUInt32 n), rt))).
  { intros Hi. rewrite from_uint32 by (unfold JS_ATOM_MAX_INT; rewrite tag_value; lia). eapply steps_intro; [by apply S_number_int|done]. }
  destruct b.
  - assert (Hu : (u64 n <=? 2 ^ 31 - 1) = bool_decide (0 <= n < 2 ^ 31)).
    { destruct (decide (0 <= n)) as [H0|H0].
      - rewrite u64_small by lia. destruct (Z.leb_spec n (2 ^ 31 - 1)); symmetry; [apply bool_decide_eq_true_2|apply bool_decide_eq_false_2]; lia.
      - rewrite bool_decide_eq_false_2 by lia. apply Z.leb_gt. unfold u64, uwrap. replace n with (n + 2 ^ 64 + (-1) * 2 ^ 64) by lia. rewrite Z.mod_add, Z.mod_small by lia. lia. }
    rewrite Hu. case_bool_decide as Hi; [cbn [wp]; rewrite u32_small by lia; by apply Hint|]. by apply new_printed_steps.
  - destruct (Z.leb_spec n (2 ^ 31 - 1)) as [Hle|Hgt]; [cbn [wp]; apply Hint; lia|]. apply new_printed_steps; [done|lia|].
    unfold print_d. by rewrite (proj2 (Z.ltb_ge n 0)) by lia.
Qed.

Lemma memcmp16_same (l1 l2 : list Z) : length l1 = length l2 -> exists c, memcmp16 l1 l2 (length l2) = Ret c /\ (c = 0 <-> l1 = l2).
Proof.
  intros Hl. destruct (memcmp16_zero l1 l2 (length l2)) as (c & -> & Hc); [lia..|]. exists c. split; [done|].
  rewrite <- Hl in Hc at 1. by rewrite !firstn_all in Hc.
Qed.

Lemma steps_find_atom rt σ l : refines rt σ -> steps σ (Op_find_atom l) (exec rt (Op_find_atom l)).
Proof.
  intros HR. pose proof HR as [(chains & free & HT) HO]. cbn [exec]. apply steps_atom. unfold __JS_FindAtom.
  change (Z.land (hash_string16 l JS_ATOM_TYPE_STRING) JS_ATOM_HASH_MASK) with (text_hash (mkString false l) JS_ATOM_TYPE_STRING). set (h := text_hash _ _). cbv zeta.
  apply (wp_find_shared rt chains free h _ (fun s1 => bool_decide (hash s1 = h /\ atom_type s1 = JS_ATOM_TYPE_STRING /\ text s1 = mkString false l))); [done| | | |].
  - intros s1 p _. destruct (_ && _ && _ && _) eqn:E; breflect.
    + match goal with H : zlen _ = zlen l |- _ => unfold zlen in H; destruct (memcmp16_same (units (text s1)) l ltac:(lia)) as (c & -> & Hc) end. cbn [mbind outcome_bind]. f_equal.
      destruct (Z.eqb_spec c 0) as [Ez|Ez]; symmetry; [apply bool_decide_eq_true_2|apply bool_decide_eq_false_2].
      * split_and!; [done..|]. destruct (text s1) as [w u]. cbn in *. subst w. f_equal. by apply Hc.
      * intros (_ & _ & Et). apply Ez, Hc. by rewrite Et.
    + f_equal. symmetry. apply bool_decide_eq_false_2. intros (E1 & E2 & E3). by rewrite E1, E2, E3, !Z.eqb_refl in E.
  - intros s1 [Hh _]%bool_decide_eq_true. done.
  - intros i p s1 Hi Hs1 (_ & Ety & Etx)%bool_decide_eq_true.
    assert (Hi0 : i <> 0).
    { intros ->. destruct (s_null _ _ (k_slots _ _ _ HT)) as (p0 & u & Hp0 & Hu & Hty); [pose proof (atom_slot_bounds _ _ _ Hi); lia|].
      assert (p0 = p) as -> by congruence. rewrite (view_of _ _ _ Hs1) in Hu. injection Hu as <-. by rewrite erase_type, Ety in Hty. }
    destruct (slot_atom _ _ _ _ _ _ _ HT HO Hi Hi0 Hs1) as (o1 & k1 & Ho1 & Ea1 & Hk1 & Et1 & _).
    assert (k1 = A_string) as -> by (eapply kind_det; [done|]; cbn; by rewrite erase_type).
    apply wp_bind. eapply wp_mono; [eapply (sim_keeps _ _ _ _ p i A_string); [done..|by exists o1]|]. intros rt1 [HT1 HO1]. cbn [wp].
    eapply steps_intro; [eapply S_find; [done..|congruence]|split; eauto].
  - intros Hnone. cbn [wp]. eapply steps_intro; [|done]. apply S_find_none. intros p o i Ho Ea Et.
    destruct (ref_atom rt σ p A_string i HR) as (s & o' & Hi & Hs & Ho' & _ & Hk & Et' & _); [by exists o|]. assert (o' = o) as -> by congruence. cbn in Hk.
    assert (Hh : hashed s = true) by (unfold hashed; by rewrite Hk). specialize (Hnone i p s Hi Hs Hh). apply bool_decide_eq_false in Hnone. apply Hnone.
    assert (Ets : text s = mkString false l) by congruence. split_and!; [|done|done]. pose proof (t_hash _ _ _ (string_ok HT p s Hs)) as Hth.
    rewrite erase_hashed, erase_hash, erase_text, erase_type in Hth. rewrite (Hth Hh), Ets, Hk. done.
Qed.

Lemma steps_dup_atom rt σ i : refines rt σ -> atom_alive σ i -> steps σ (Op_dup_atom i) (exec rt (Op_dup_atom i)).
Proof.
  intros HR Ha. cbn [exec]. apply steps_atom. unfold JS_DupAtom. destruct Ha as [Hi|(p & k & Hat)].
  - rewrite (int_const i Hi). cbn [negb wp]. eapply steps_intro; [by apply S_dup_int|done].
  - pose proof (S_dup σ p k i Hat) as Hst. destruct (ref_atom rt σ p k i HR Hat) as (s & o & Hi & Hs & Ho & _ & _ & _ & Hb & Hb').
    rewrite (const_small i) in * by lia. unfold keeps in Hst. destruct (is_const i) eqn:Ec; cbn [negb].
    + eapply steps_intro; [exact Hst|done].
    + apply wp_bind. eapply wp_get_atom; [done|]. apply wp_bind. eapply wp_mono; [apply (ref_dup rt σ p HR); by rewrite Ho|]. intros rt' [HR' _].
      eapply steps_intro; [exact Hst|done].
Qed.

(** [__JS_FreeAtom] and [js_free_string] are the same for a live atom. *)
Lemma free_atom_string rt chains free i p s : table_ok rt chains free -> slot_at (atom_array rt) i = Some (Atom p) -> strings rt !! p = Some s ->
  __JS_FreeAtom rt i = js_free_string rt p.
Proof.
  intros HT Hi Hs. unfold __JS_FreeAtom, js_free_string. rewrite (get_atom_ok _ _ _ Hi). cbn [mbind outcome_bind]. unfold add_ref. rewrite (get_str_ok _ _ _ Hs). cbn [mbind outcome_bind].
  unfold get_str. cbn [strings set_str set_strings]. rewrite lookup_insert_eq. cbn [mbind outcome_bind ref_count with_refs atom_type].
  destruct (entry_string HT i p Hi) as (s' & Hs' & Hty). assert (s' = s) as -> by congruence. rewrite (proj2 (Z.eqb_neq _ 0)) by done. cbn [negb].
  rewrite Z.ltb_antisym. by destruct (_ <=? 0).
Qed.

Lemma steps_free_atom rt σ i : refines rt σ -> atom_alive σ i -> steps σ (Op_free_atom i) (exec rt (Op_free_atom i)).
Proof.
  intros HR Ha. cbn [exec]. apply wp_bind. unfold JS_FreeAtom. destruct Ha as [Hi|(p & k & Hat)].
  - rewrite (int_const i Hi). cbn [negb wp]. eexists. split; [by apply S_free_int|done].
  - pose proof (S_free σ p k i Hat) as Hst. destruct (ref_atom rt σ p k i HR Hat) as (s & o & Hi & Hs & Ho & _ & _ & _ & Hb & Hb').
    rewrite (const_small i) in * by lia. unfold gives_up in Hst. destruct (is_const i) eqn:Ec; cbn [negb].
    + eexists. split; [exact Hst|done].
    + pose proof HR as [(chains & free & HT) _]. rewrite (free_atom_string _ _ _ _ _ _ HT Hi Hs). eapply wp_mono; [apply (ref_free rt σ p HR); by rewrite Ho|].
      intros rt' HR'. eexists. split; [exact Hst|exact HR'].
Qed.

(** ** Symbols *)

Lemma new_symbol_wp rt σ str k (Q : atom_result * JSRuntime -> Prop) : refines rt σ -> (forall q, str = Some q -> owned σ q) -> (shared k = true -> str <> None) ->
  (forall i p σ' rt', new_atom σ str k i σ' -> is_atom_of σ' p k i -> refines rt' σ' -> Q (R_symbol p, rt')) ->
  (forall σ' rt', new_atom σ str k 0 σ' -> refines rt' σ' -> Q (R_exception, rt')) -> wp (JS_NewSymbol rt str (type_of k)) Q.
Proof.
  intros HR Hown Hs H1 H2. unfold JS_NewSymbol. apply wp_bind. eapply wp_mono; [by eapply ref_new_atom|]. intros [i rt'] (σ' & HR' & Hn).
  destruct (Z.eqb_spec i JS_ATOM_NULL) as [->|Hi0]; [by eapply H2|].
  assert (Hat : exists p, is_atom_of σ' p k i).
  { destruct Hn as [q k i Ek Hat|q o k p i Ek Ho (o1 & Ho1 & Ea1 & _) Hpq|q o k i Ho Ea Hni Hun|q o k p i Ho Ea Hni Hp Hun|k p i Ek Hp Hun|str k Hf]; [| | | | |done].
    - exists q. destruct Hat as (o & Ho & Ea). destruct (Hown q eq_refl) as (o' & Ho' & Hone). assert (o' = o) as -> by congruence.
      destruct (is_const i) eqn:Ec; [|by exists o]. rewrite (drop_keep σ q o Ho (Hone k i Ea Ec)). exists (with_arefs o (a_refs o - 1)). by rewrite lookup_insert_eq.
    - exists p. unfold is_atom_of. rewrite drop_ne by done. rewrite (keeps_some σ p i o1 Ho1). destruct (is_const i); [by exists o1|]. eexists. by rewrite lookup_insert_eq.
    - exists q. eexists. by rewrite lookup_insert_eq.
    - exists p. eexists. by rewrite lookup_insert_eq.
    - exists p. eexists. by rewrite lookup_insert_eq. }
  destruct Hat as [p Hat]. destruct (ref_atom rt' σ' p k i HR' Hat) as (s & o & Hi & _). apply wp_bind. eapply wp_get_atom; [done|]. by eapply H1.
Qed.

Lemma steps_new_symbol rt σ str k : refines rt σ -> op_ok σ (Op_new_symbol str k) -> steps σ (Op_new_symbol str k) (exec rt (Op_new_symbol str k)).
Proof.
  intros HR Hop. cbn [exec op_ok] in *. eapply new_symbol_wp; [done| | | |].
  - intros q ->. done.
  - intros Ek ->. congruence.
  - intros i p σ' rt' Hn Hat HR'. exists σ'. split; [by eapply S_symbol|done].
  - intros σ' rt' Hn HR'. exists σ'. split; [by apply S_symbol_oom|done].
Qed.

Lemma steps_new_symbol_from_atom rt σ i k : refines rt σ -> op_ok σ (Op_new_symbol_from_atom i k) ->
  steps σ (Op_new_symbol_from_atom i k) (exec rt (Op_new_symbol_from_atom i k)).
Proof.
  intros HR (q & k' & Hat). cbn [exec]. destruct (ref_atom rt σ q k' i HR Hat) as (s & o & Hi & Hs & Ho & Ea & _ & _ & Hb & Hb').
  unfold JS_NewSymbolFromAtom. rewrite not_tagged by lia. rewrite (proj2 (Z.ltb_lt i _)) by lia. cbn [negb c_assert mbind outcome_bind]. apply wp_bind. eapply wp_get_atom; [done|].
  apply wp_bind. eapply wp_mono; [apply (ref_dup rt σ q HR); by rewrite Ho|]. intros rt1 [HR1 _]. pose proof (proj2 HR) as HO.
  eapply new_symbol_wp; [done| |done| |].
  - intros q' [= <-]. eapply owned_bump; [done|]. by eapply (o_refs _ _ _ HO).
  - intros j p σ' rt' Hn Hat' HR'. exists σ'. split; [by eapply S_symbol_from|done].
  - intros σ' rt' Hn HR'. exists σ'. split; [by eapply S_symbol_from_oom|done].
Qed.

(** ** Values and kinds of atoms *)

Lemma empty_string_position : js_atom_init !! (46 : nat) = Some ("empty_string"%string, ""%string).
Proof. unfold js_atom_init. by destruct CONFIG_BIGNUM, CONFIG_ATOMICS, CONFIG_JSX. Qed.

Lemma empty_string_atom σ : constants σ -> exists q, is_atom_of σ q A_string JS_ATOM_empty_string.
Proof.
  intros Hc. destruct (Hc _ _ _ empty_string_position) as (q & o & Ho & Ea & _). exists q, o. split; [done|]. rewrite Ea.
  unfold init_kind, JS_ATOM_Private_brand, JS_ATOM_Symbol_toPrimitive, JS_ATOM_empty_string, JS_ATOM, js_atom_init. by destruct CONFIG_BIGNUM, CONFIG_ATOMICS, CONFIG_JSX.
Qed.

Lemma steps_to_value rt σ i b : refines rt σ -> constants σ -> atom_alive σ i -> steps σ (Op_to_value i b) (exec rt (Op_to_value i b)).
Proof.
  intros HR Hc Ha. cbn [exec]. unfold __JS_AtomToValue. destruct Ha as [Hi|(p & k & Hat)].
  - rewrite (int_tagged i Hi), to_uint32 by exact Hi. unfold js_new_string8. pose proof (ref_new_string rt σ (mkString false (print_u (i - 2 ^ 31))) HR) as Hnew.
    destruct (js_alloc_string_rt _ _) as [[p rt1]|].
    + destruct Hnew as [Hp HR1]. eapply steps_intro; [|exact HR1]. by apply S_value_int.
    + eapply steps_intro; [by apply S_value_oom|done].
  - destruct (ref_atom rt σ p k i HR Hat) as (s & o & Hi & Hs & Ho & Ea & Hk & Et & Hb & Hb'). rewrite not_tagged by lia. rewrite (proj2 (Z.ltb_lt i _)) by lia. cbn [c_assert mbind outcome_bind].
    apply wp_bind. eapply wp_get_atom; [done|]. apply wp_bind. eapply wp_get_str; [done|].
    assert (Hdup : forall r q, spec_step σ (Op_to_value i b) r (bump σ q) -> is_Some (σ !! q) -> steps σ (Op_to_value i b) (rt ← JS_DupValue rt q; Ret (r, rt))).
    { intros r q Hst Hq. apply wp_bind. eapply wp_mono; [by apply (ref_dup rt σ q HR)|]. intros rt' [HR' _]. by eapply steps_intro. }
    assert (Hkt : (atom_type s =? JS_ATOM_TYPE_STRING) = bool_decide (k = A_string)).
    { destruct k; cbn in Hk; [by rewrite Hk|by rewrite Hk|by rewrite (proj1 Hk)|by rewrite (proj1 Hk)]. }
    rewrite Hkt. case_bool_decide as Ek; [subst k; apply Hdup; [by apply S_value_string|by rewrite Ho]|]. destruct b.
    + assert (Hud : no_description s = undescribed (a_text o)) by (by rewrite Et). rewrite Hud. destruct (undescribed (a_text o)) eqn:Eu.
      * destruct (empty_string_atom σ Hc) as [q Hq]. destruct (ref_atom rt σ q _ _ HR Hq) as (sq & oq & Hiq & _ & Hoq & _). apply wp_bind. eapply wp_get_atom; [done|].
        apply Hdup; [by apply (S_value_undescribed σ p o k i q)|by rewrite Hoq].
      * cbn [mbind outcome_bind]. apply Hdup; [by apply (S_value_described σ p o k i)|by rewrite Ho].
    + apply Hdup; [by apply (S_value_symbol σ p k i)|by rewrite Ho].
Qed.

Lemma steps_get_kind rt σ i : refines rt σ -> atom_alive σ i -> steps σ (Op_get_kind i) (exec rt (Op_get_kind i)).
Proof.
  intros HR Ha. cbn [exec]. unfold JS_AtomGetKind. destruct Ha as [Hi|(p & k & Hat)].
  - rewrite (int_tagged i Hi). cbn [mbind outcome_bind]. eapply steps_intro; [by apply S_kind_int|done].
  - destruct (ref_atom rt σ p k i HR Hat) as (s & o & Hi & Hs & Ho & Ea & Hk & Et & Hb & Hb'). rewrite not_tagged by lia.
    rewrite (get_atom_ok _ _ _ Hi). cbn [mbind outcome_bind]. rewrite (get_str_ok _ _ _ Hs). cbn [mbind outcome_bind].
    pose proof (S_kind σ p k i Hat) as Hst. destruct k; cbn in Hk; [rewrite Hk|rewrite Hk|destruct Hk as [-> ->]|destruct Hk as [-> ->]]; cbn; eexists; (split; [exact Hst|done]).
Qed.

Lemma steps_array_index rt σ i : refines rt σ -> atom_alive σ i -> steps σ (Op_array_index i) (exec rt (Op_array_index i)).
Proof.
  intros HR Ha. cbn [exec]. unfold JS_AtomIsArrayIndex. destruct Ha as [Hi|(p & k & Hat)].
  - rewrite (int_tagged i Hi), to_uint32 by exact Hi. cbn [mbind outcome_bind]. eapply steps_intro; [by apply S_index_int|done].
  - destruct (ref_atom rt σ p k i HR Hat) as (s & o & Hi & Hs & Ho & Ea & Hk & Et & Hb & Hb'). rewrite not_tagged by lia. rewrite (proj2 (Z.ltb_lt i _)) by lia. cbn [c_assert mbind outcome_bind].
    rewrite (get_atom_ok _ _ _ Hi). cbn [mbind outcome_bind]. rewrite (get_str_ok _ _ _ Hs). cbn [mbind outcome_bind].
    assert (Hkt : (atom_type s =? JS_ATOM_TYPE_STRING) = bool_decide (k = A_string)).
    { destruct k; cbn in Hk; [by rewrite Hk|by rewrite Hk|by rewrite (proj1 Hk)|by rewrite (proj1 Hk)]. }
    rewrite Hkt, <- Et. case_bool_decide as Ek; cbn [mbind outcome_bind].
    + subst k. destruct (is_num_string (a_text o)) as [n|] eqn:En.
      * apply numeral_num in En. destruct (Z.eqb_spec n UINT32_MAX) as [E|E]; cbn [negb]; (eapply steps_intro; [|done]).
        -- eapply S_index_none; [done..|]. intros _ m Hm. by rewrite (numeral_det _ _ _ Hm En).
        -- eapply S_index; [done..|]. destruct En as [En _]. unfold UINT32_MAX in *. lia.
      * eapply steps_intro; [|done]. eapply S_index_none; [done..|]. intros _ m Hm%numeral_num. congruence.
    + eapply steps_intro; [|done]. by eapply S_index_none.
Qed.

Lemma steps_exec rt σ op : refines rt σ -> constants σ -> op_ok σ op -> steps σ op (exec rt op).
Proof.
  intros HR Hc Hop. destruct op; cbn [op_ok] in Hop.
  - cbn [exec]. pose proof (ref_new_string rt σ t HR) as Hnew. destruct (js_alloc_string_rt _ _) as [[p rt1]|].
    + destruct Hnew as [Hp HR1]. eapply steps_intro; [by apply S_string|done].
    + eapply steps_intro; [by apply S_string_oom|done].
  - cbn [exec]. apply wp_bind. eapply wp_mono; [by apply (ref_dup rt σ p HR)|]. intros rt' [HR' _]. eapply steps_intro; [by apply S_dup_value|done].
  - cbn [exec]. apply wp_bind. destruct Hop as (o & Ho & _). eapply wp_mono; [apply (ref_free rt σ p HR); by rewrite Ho|]. intros rt' HR'. eapply steps_intro; [by apply S_free_value|done].
  - by apply steps_new_atom.
  - by apply steps_new_atom_str.
  - by apply steps_new_atom_number.
  - by apply steps_find_atom.
  - by apply steps_dup_atom.
  - by apply steps_free_atom.
  - by apply steps_new_symbol.
  - by apply steps_new_symbol_from_atom.
  - by apply steps_to_value.
  - by apply steps_get_kind.
  - by apply steps_array_index.
  - destruct Hop as (k & i & Hat). pose proof HR as [(chains & free & HT) HO]. cbn [exec]. apply wp_bind. eapply (sim_get_atom_index _ _ _ _ _ _ _ _ HT HO Hat).
    eapply steps_intro; [by apply (S_index_of σ p k i)|done].
Qed.
End Calls.
