(* ===== verification/AtomVerified.v ===== *)
(** * Atoms: the theorems

    The start of a runtime, runs of calls, and what they show. *)

From S2P Require Import Prelude Cutils JsValues AtomTable AtomInv AtomHash AtomNew AtomNumber AtomCalls AtomSpec AtomRel AtomRefine.

(** ** The predefined atoms *)

(** No two string atoms have the same name. *)
Fixpoint same_text (l k : list Z) : bool :=
  match l, k with
  | [], [] => true
  | x :: l, y :: k => (x =? y) && same_text l k
  | _, _ => false
  end.
Fixpoint distinct (l : list (list Z)) : bool :=
  match l with [] => true | x :: l => negb (existsb (same_text x) l) && distinct l end.

Lemma same_text_refl l : same_text l l = true.
Proof. induction l as [|x l IH]; [done|]. cbn. by rewrite Z.eqb_refl. Qed.

Lemma distinct_lookup l : distinct l = true -> forall i j x, l !! i = Some x -> l !! j = Some x -> i = j.
Proof.
  assert (Hin : forall (l : list (list Z)) x i, existsb (same_text x) l = false -> l !! i <> Some x).
  { clear l. intros l x i He Hi. assert (existsb (same_text x) l = true); [|congruence]. apply existsb_exists. exists x. split; [|apply same_text_refl].
    apply list_elem_of_In. by apply list_elem_of_lookup_2 in Hi. }
  induction l as [|y l IH]; cbn [distinct]; [done|]. intros [Hy Hd]%andb_true_iff [|i] [|j] x Hi Hj; cbn in Hi, Hj; [done| | |f_equal; eauto].
  - apply negb_true_iff in Hy. injection Hi as ->. by apply (Hin l x j) in Hy.
  - apply negb_true_iff in Hy. injection Hj as ->. by apply (Hin l x i) in Hy.
Qed.

Definition name_key `{AtomConfig} (i : nat) (n : string * string) : list Z :=
  if decide (init_kind (1 + Z.of_nat i) = A_string) then str n.2 else [-1; Z.of_nat i].

Lemma names_distinct (CFG : AtomConfig) : distinct (imap name_key js_atom_init) = true.
Proof. destruct CFG as [[] [] []]; vm_compute; reflexivity. Qed.

Lemma name_key_inj `{AtomConfig} i j x n y m : js_atom_init !! i = Some (x, n) -> js_atom_init !! j = Some (y, m) -> init_kind (1 + Z.of_nat i) = A_string ->
  init_kind (1 + Z.of_nat j) = A_string -> str n = str m -> i = j.
Proof.
  intros Hi Hj Ki Kj E. eapply (distinct_lookup _ (names_distinct _) i j (str n)); rewrite list_lookup_imap.
  - rewrite Hi. cbn. unfold name_key. by rewrite decide_True.
  - rewrite Hj. cbn. unfold name_key. rewrite decide_True by done. by rewrite E.
Qed.

Section Init.
Context {CFG : AtomConfig} {ALC : AtomAllocator} {SML : SmallArrays}.

Definition init_obj (i : nat) (name : string) : aobj :=
  mkObj (mkString false (str name)) 1 (Some (init_kind (1 + Z.of_nat i), 1 + Z.of_nat i)).

(** The first [j] names, and nothing else. *)
Definition predefined (j : nat) (σ : heap) : Prop :=
  (forall i x name, (i < j)%nat -> js_atom_init !! i = Some (x, name) -> exists p, σ !! p = Some (init_obj i name)) /\
  (forall p o, σ !! p = Some o -> exists i x name, (i < j)%nat /\ js_atom_init !! i = Some (x, name) /\ o = init_obj i name).

Lemma predefined_constants j σ : (length js_atom_init <= j)%nat -> predefined j σ -> constants σ.
Proof.
  intros Hj [H1 _] i x name Hi. pose proof (lookup_lt_Some _ _ _ Hi). destruct (H1 i x name ltac:(lia) Hi) as [p Hp]. by exists p, (init_obj i name).
Qed.

Lemma init_type_of i : init_type i = type_of (init_kind i).
Proof. unfold init_type, init_kind. destruct (_ =? _); [done|]. by destruct (_ <=? _). Qed.

Lemma wp_init_names l : forall j rt chains free σ, l = skipn j js_atom_init -> (j <= length js_atom_init)%nat ->
  table_ok rt chains free -> objs (view rt) (atom_array rt) σ -> fresh_from rt free (1 + Z.of_nat j) -> predefined j σ ->
  wp (init_names rt (1 + Z.of_nat j) l) (fun '(ok, rt') => ok = true -> exists σ', refines rt' σ' /\ predefined (length js_atom_init) σ').
Proof.
  induction l as [|[x name] l IH]; intros j rt chains free σ El Hj HT HO Hf Hp; cbn [init_names].
  - cbn [wp]. intros _. exists σ. split; [split; eauto|]. assert (j = length js_atom_init) as <-; [|done].
    pose proof (length_drop js_atom_init j) as Hd. rewrite <- El in Hd. cbn [length] in Hd. lia.
  - assert (Hlk : js_atom_init !! j = Some (x, name)) by (rewrite <- (Nat.add_0_r j), <- lookup_drop, <- El; done).
    assert (El' : l = skipn (S j) js_atom_init) by (rewrite <- Nat.add_1_r, <- drop_drop, <- El; done).
    unfold __JS_NewAtomInit, js_alloc_string_rt. destruct (string_alloc _ _) as [p|] eqn:Ep; [|done].
    destruct (sim_new_string _ _ _ _ _ _ (mkString false (str name)) HT HO Ep) as (HT1 & HO1 & Hpn). set (k := init_kind (1 + Z.of_nat j)). set (t := mkString false (str name)) in *.
    assert (Hni : shared k = true -> not_interned (<[p := mkObj t 1 None]> σ) k (units t)).
    { intros Ek q i (o & [[<- <-]|[_ Ho]]%lookup_insert_Some & Ea & Eu); [done|]. destruct (proj2 Hp q o Ho) as (i' & x' & n' & Hi' & Hlk' & ->).
      cbn in Ea, Eu. injection Ea as Ek' _. assert (k = A_string) as Eks by (unfold k, init_kind in *; destruct (_ =? JS_ATOM_Private_brand); [done|]; by destruct (JS_ATOM_Symbol_toPrimitive <=? _)).
      assert (i' = j) as ->; [|lia]. eapply name_key_inj; [done|done|congruence|done|done]. }
    rewrite init_type_of. fold k. apply wp_bind. eapply wp_mono; [eapply (sim_NewAtom _ chains free _ (Some p) k HT1 HO1); [intros q [= <-]; apply owned_new|done]|].
    intros [i rt'] (σ' & chains' & free' & HT' & HO' & Hna & Hfr). destruct (Z.eqb_spec i JS_ATOM_NULL) as [->|Hi0]; [done|].
    destruct (Hfr Hi0 p (mkObj t 1 None) (1 + Z.of_nat j) eq_refl (lookup_insert_eq _ _ _) eq_refl Hni Hf) as [-> Hf'].
    assert (Hp' : predefined (S j) σ').
    { inversion Hna as [q k0 i0 Ek (o & Ho & Ea)|q o k0 p1 i0 Ek Ho Hint Hpq|q o k0 i0 Ho Ea Hn1 Hun|q o k0 p1 i0 Ho Ea Hn1 Hp1 Hun|k0 p1 i0 Ek Hp1 Hun|str0 k0 Hfl]; subst.
      - rewrite lookup_insert_eq in Ho. by injection Ho as <-.
      - rewrite lookup_insert_eq in Ho. injection Ho as <-. by apply (Hni Ek) in Hint.
      - rewrite lookup_insert_eq in Ho. injection Ho as <-. rewrite insert_insert_eq. cbn [a_text a_refs]. split.
        + intros i x' n' Hi Hlk'. destruct (decide (i = j)) as [->|Hne].
          * exists p. rewrite lookup_insert_eq. rewrite Hlk in Hlk'. injection Hlk' as <- <-. done.
          * destruct (proj1 Hp i x' n' ltac:(lia) Hlk') as [q Hq]. exists q. rewrite lookup_insert_ne; [done|]. congruence.
        + intros q o [[<- <-]|[_ Ho]]%lookup_insert_Some; [exists j, x, name; split_and!; [lia|done|done]|].
          destruct (proj2 Hp q o Ho) as (i & x' & n' & Hi & Hrest). exists i, x', n'. split; [lia|done].
      - rewrite lookup_insert_eq in Ho. by injection Ho as <-.
      - done. }
    replace (1 + Z.of_nat j + 1) with (1 + Z.of_nat (S j)) in * by lia. pose proof (lookup_lt_Some _ _ _ Hlk). eapply (IH (S j)); [done|lia|done..].
Qed.

Lemma wp_JS_InitAtoms : wp (JS_InitAtoms ∅) (fun '(ok, rt) => ok = true -> exists σ, refines rt σ /\ predefined (length js_atom_init) σ).
Proof.
  unfold JS_InitAtoms. apply wp_bind. unfold JS_ResizeAtomHash. cbn [Z.land Z.sub Z.eqb c_assert mbind outcome_bind atom_hash_size strings].
  change (Z.land 256 (256 - 1) =? 0) with true. cbn [c_assert mbind outcome_bind]. destruct (hash_alloc _ _); [|done].
  change (Z.to_nat 0) with O. cbn [seq foldM mbind outcome_bind]. set (rt1 := mkRT _ _ _ _ _ _ _ _). cbn [wp negb].
  assert (HT : table_ok rt1 (replicate 256 []) []).
  { constructor; [done|done|done|done| | |].
    - constructor; try done. all: unfold slot_at; cbn; intros i; destruct (i <? 0); done.
    - eapply hash_ok_ext; [apply (hash_ok_empty (fun _ => None) 256 8); [lia|done]| |done]. intros i x. split; [done|]. intros (p & s & _ & Hs & _). done.
    - constructor; [done|]. intros i. split; [by intros ?%not_elem_of_nil|]. intros (n & Hn). unfold slot_at in Hn. cbn in Hn. by destruct (i <? 0). }
  eapply (wp_init_names js_atom_init 0 rt1 _ _ ∅ eq_refl ltac:(lia) HT).
  - constructor; intros p; by rewrite ?lookup_empty.
  - split; [cbn; lia|done].
  - split; [intros; lia|]. intros p o. by rewrite lookup_empty.
Qed.
End Init.

(** ** Runs *)

Section Runs.
Context {CFG : AtomConfig} {ALC : AtomAllocator} {SML : SmallArrays}.

(** The relation determines the state of the specification. *)
Lemma refines_det rt σ σ' : refines rt σ -> refines rt σ' -> σ = σ'.
Proof.
  intros [(chains & free & HT) [I1 O1 _]] [_ [I2 O2 _]].
  assert (Heq : forall p o o' s, obj_of (atom_array rt) p s o -> obj_of (atom_array rt) p s o' -> o = o').
  { intros p [t r a] [t' r' a'] s (H1 & H2 & H3) (G1 & G2 & G3). cbn in *. subst. f_equal. destruct a as [[k i]|], a' as [[k' i']|]; [|..|done].
    - destruct H3 as [Hk Hi], G3 as [Hk' Hi']. by rewrite (kind_det _ _ _ Hk Hk'), (s_inj _ _ (k_slots _ _ _ HT) _ _ _ Hi Hi').
    - destruct H3 as [Hk%kind_type _]. lia.
    - destruct G3 as [Hk%kind_type _]. lia. }
  apply map_eq. intros p. destruct (σ !! p) as [o|] eqn:Eo, (σ' !! p) as [o'|] eqn:Eo'; [|..|done].
  - destruct (O1 p o Eo) as (s & Hs & _ & Hob), (O2 p o' Eo') as (s' & Hs' & _ & Hob'). assert (s' = s) as -> by congruence. f_equal. eauto.
  - destruct (O1 p o Eo) as (s & Hs & Hn & _). destruct (I2 p s Hs Hn) as (o2 & Ho2 & _). congruence.
  - destruct (O2 p o' Eo') as (s & Hs & Hn & _). destruct (I1 p s Hs Hn) as (o2 & Ho2 & _). congruence.
Qed.

(** The calls that a caller makes on a runtime that has started, with their
    answers. *)
Inductive calls (rt0 : JSRuntime) : list (atom_op * atom_result) -> JSRuntime -> Prop :=
  | calls_nil : calls rt0 [] rt0
  | calls_step tr rt σ op r rt' : calls rt0 tr rt -> refines rt σ -> op_ok σ op -> exec rt op = Ret (r, rt') -> calls rt0 (tr ++ [(op, r)]) rt'.

Lemma atom_runs_refine rt0 tr rt : JS_InitAtoms ∅ = Ret (true, rt0) -> calls rt0 tr rt ->
  exists σ0 σ, refines rt0 σ0 /\ predefined (length js_atom_init) σ0 /\ spec_run σ0 tr σ /\ refines rt σ /\ constants σ.
Proof.
  intros H0. pose proof wp_JS_InitAtoms as Hi. rewrite H0 in Hi. destruct (Hi eq_refl) as (σ0 & HR0 & Hp0). exists σ0.
  enough (exists σ, spec_run σ0 tr σ /\ refines rt σ /\ constants σ) as (σ & ? & ? & ?) by eauto 10.
  induction H as [|tr rt σ1 op r rt' _ (σ & Hs & HR & Hc) HR1 Hop He].
  - exists σ0. split_and!; [constructor|done|]. by eapply predefined_constants.
  - assert (σ1 = σ) as -> by (by eapply refines_det). pose proof (steps_exec rt σ op HR Hc Hop) as Hst. unfold steps in Hst. rewrite He in Hst.
    destruct Hst as (σ' & Hst & HR'). exists σ'. split_and!; [by econstructor|done|]. eapply preserves_constants; [|done].
    eapply step_preserves; [done..|]. intros p o Ho. destruct HR as [_ HO]. by eapply (o_refs _ _ _ HO).
Qed.


(** C15: after any calls the table is well formed: each entry of the array is a
    free one, in the list of the free entries and only there, or the string of
    one atom; a string or [Symbol.for] symbol is in the chain of its hash and in
    no other, a symbol knows its number; the counters are those of the arrays;
    and no two strings of a kind have the same units. *)
Theorem atom_table_ok rt0 tr rt : JS_InitAtoms ∅ = Ret (true, rt0) -> calls rt0 tr rt -> exists chains free, table_ok rt chains free.
Proof. intros H0 Hc. by destruct (atom_runs_refine rt0 tr rt H0 Hc) as (_ & σ & _ & _ & _ & [HT _] & _). Qed.

(** ** Interning *)

Lemma atom_unique rt σ p q k i : refines rt σ -> is_atom_of σ p k i -> forall k', is_atom_of σ q k' i -> p = q /\ k = k'.
Proof.
  intros HR Hp k' Hq. destruct (ref_atom rt σ p k i HR Hp) as (s & o & Hi & _ & Ho & Ea & _), (ref_atom rt σ q k' i HR Hq) as (s' & o' & Hi' & _ & Ho' & Ea' & _).
  assert (p = q) as -> by congruence. split; [done|]. congruence.
Qed.

Lemma interned_unique rt σ p q k l i j : refines rt σ -> shared k = true -> interned σ k l p i -> interned σ k l q j -> p = q /\ i = j.
Proof.
  intros HR Ek (o & Ho & Ea & Eu) (o' & Ho' & Ea' & Eu'). assert (p = q) as ->.
  { destruct (ref_atom rt σ p k i HR) as (s & o1 & _ & Hs & Ho1 & _ & Hk & Et & _); [by exists o|]. destruct (ref_atom rt σ q k j HR) as (s' & o1' & _ & Hs' & Ho1' & _ & Hk' & Et' & _); [by exists o'|].
    destruct HR as [(chains & free & HT) _]. apply (s_canon _ _ (k_slots _ _ _ HT) p q (erase s) (erase s')); [by apply view_of|by apply view_of|rewrite erase_hashed; by rewrite (kind_hashed s k)| |].
    - rewrite !erase_type. apply (kind_shared_type s k Ek) in Hk. apply (kind_shared_type s' k Ek) in Hk'. congruence.
    - rewrite !erase_text. congruence. }
  split; [done|]. congruence.
Qed.

(** The atom of a string, as the specification sees it. *)
Lemma new_atom_interned σ q o i σ' : new_atom σ (Some q) A_string i σ' -> σ !! q = Some o -> owned σ q -> i <> 0 ->
  exists p, interned σ' A_string (units (a_text o)) p i.
Proof.
  intros Hn Ho Hown Hi. inversion Hn as [q0 k0 i0 Ek Hat|q0 o0 k0 p i0 Ek Ho0 Hint Hpq|q0 o0 k0 i0 Ho0 Ea Hni Hun|q0 o0 k0 p i0 Ho0 Ea Hni Hp Hun| |]; subst; try done.
  - destruct Hat as (o1 & Ho1 & Ea). assert (o1 = o) as -> by congruence. exists q. destruct Hown as (o1 & Ho1' & Hone). assert (o1 = o) as -> by congruence.
    destruct (is_const i) eqn:Ec; [|by exists o]. rewrite (drop_keep σ q o Ho (Hone _ _ Ea Ec)). exists (with_arefs o (a_refs o - 1)). by rewrite lookup_insert_eq.
  - assert (o0 = o) as -> by congruence. destruct Hint as (o1 & Ho1 & Ea1 & Eu1). exists p. unfold interned. rewrite drop_ne by done. rewrite (keeps_some σ p i o1 Ho1).
    destruct (is_const i); [by exists o1|]. eexists. by rewrite lookup_insert_eq.
  - assert (o0 = o) as -> by congruence. exists q. eexists. by rewrite lookup_insert_eq.
  - assert (o0 = o) as -> by congruence. exists p. eexists. by rewrite lookup_insert_eq.
Qed.
End Runs.

Section Theorems.
Context {CFG : AtomConfig} {ALC : AtomAllocator} {SML : SmallArrays}.

Lemma new_atom_other σ q k i σ' r o : new_atom σ (Some q) k i σ' -> r <> q -> σ !! r = Some o ->
  exists o', σ' !! r = Some o' /\ a_atom o' = a_atom o /\ a_text o' = a_text o.
Proof.
  intros Hn Hr Ho. inversion Hn as [q0 k0 i0 Ek Hat|q0 o0 k0 p i0 Ek Ho0 Hint Hpq|q0 o0 k0 i0 Ho0 Ea Hni Hun|q0 o0 k0 p i0 Ho0 Ea Hni Hp Hun| |]; subst.
  - destruct (is_const i); [rewrite drop_ne by done|]; eauto.
  - rewrite drop_ne by done. destruct (decide (r = p)) as [->|Hne].
    + rewrite (keeps_some σ p i o Ho). destruct (is_const i); [eauto|]. rewrite lookup_insert_eq. eauto.
    + unfold keeps. destruct (is_const i); [eauto|]. rewrite bump_ne by done. eauto.
  - rewrite lookup_insert_ne by done. eauto.
  - rewrite lookup_insert_ne by congruence. rewrite drop_ne by done. eauto.
  - cbn [drop_opt]. rewrite drop_ne by done. eauto.
Qed.

Definition small_number (t : JSString) (n : Z) : Prop := numeral t n /\ n < 2 ^ 31.

(** The two kinds of atoms of a string. *)
Lemma atom_str_cases rt σ σ' p o i : refines rt σ' -> spec_step σ (Op_new_atom_str p) (R_atom i) σ' -> σ !! p = Some o -> owned σ p -> i <> 0 ->
  (exists n, small_number (a_text o) n /\ i = int_atom n /\ σ' = drop σ p) \/
  ((forall n, ~ small_number (a_text o) n) /\ new_atom σ (Some p) A_string i σ' /\ 0 < i < 2 ^ 29 /\ exists q, interned σ' A_string (units (a_text o)) q i).
Proof.
  intros HR Hst Ho Hown Hi. inversion Hst as [ |  |  |  |  | p0 o0 n Ho0 Hn Hlt | p0 o0 i0 σ0 Ho0 Hnum Hna |  |  |  |  |  |  |  |  |  |  |  |  |  |  |  |  |  |  |  |  |  |  |  |  | ]; subst.
  - assert (o0 = o) as -> by congruence. left. by exists n.
  - assert (o0 = o) as -> by congruence. right. destruct (new_atom_interned _ _ _ _ _ Hna Ho Hown Hi) as [q Hq]. split_and!; [|done| | |by exists q].
    + intros n [Hn%Hnum Hlt]. lia.
    + destruct Hq as (oq & Hoq & Eaq & _). destruct (ref_atom rt σ' q A_string i HR) as (s & o1 & _ & _ & _ & _ & _ & _ & Hb & _); [by exists oq|lia].
    + destruct Hq as (oq & Hoq & Eaq & _). destruct (ref_atom rt σ' q A_string i HR) as (s & o1 & _ & _ & _ & _ & _ & _ & _ & Hb); [by exists oq|lia].
Qed.

Lemma atom_str_step rt σ p i rt' : refines rt σ -> constants σ -> owned σ p -> JS_NewAtomStr rt p = Ret (i, rt') ->
  exists σ', spec_step σ (Op_new_atom_str p) (R_atom i) σ' /\ refines rt' σ'.
Proof.
  intros HR Hc Hown E. pose proof (steps_new_atom_str rt σ p HR Hown) as Hst. unfold steps in Hst. cbn [exec] in Hst. rewrite E in Hst. exact Hst.
Qed.

(** C8: atoms compare like strings.  In any state that calls reach, the atoms of
    two strings that are made one after the other are equal exactly if the
    strings have the same units, whatever the width of their characters, whether
    they are numbers or not, and whether atoms of these texts existed before. *)
Theorem atoms_canonical rt0 tr rt σ σ1 p1 p2 o1 o2 i1 i2 rt1 rt2 : JS_InitAtoms ∅ = Ret (true, rt0) -> calls rt0 tr rt ->
  refines rt σ -> σ !! p1 = Some o1 -> owned σ p1 -> JS_NewAtomStr rt p1 = Ret (i1, rt1) -> i1 <> JS_ATOM_NULL ->
  refines rt1 σ1 -> σ1 !! p2 = Some o2 -> owned σ1 p2 -> JS_NewAtomStr rt1 p2 = Ret (i2, rt2) -> i2 <> JS_ATOM_NULL ->
  (i1 = i2 <-> units (a_text o1) = units (a_text o2)).
Proof.
  intros H0 Hcalls HR Ho1 Hown1 E1 Hi1 HR1 Ho2 Hown2 E2 Hi2. destruct (atom_runs_refine rt0 tr rt H0 Hcalls) as (_ & σ' & _ & _ & _ & HR' & Hk).
  assert (σ' = σ) as -> by (by eapply refines_det). destruct (atom_str_step rt σ p1 i1 rt1 HR Hk Hown1 E1) as (σ1' & Hst1 & HR1').
  assert (σ1' = σ1) as -> by (by eapply refines_det). assert (Hk1 : constants σ1).
  { eapply preserves_constants; [|exact Hk]. eapply step_preserves; [exact Hst1|exact Hown1|]. intros p o Ho. destruct HR as [_ HO]. by eapply (o_refs _ _ _ HO). }
  destruct (atom_str_step rt1 σ1 p2 i2 rt2 HR1 Hk1 Hown2 E2) as (σ2 & Hst2 & HR2).
  assert (Hsame : forall n, small_number (a_text o1) n -> units (a_text o1) = units (a_text o2) -> small_number (a_text o2) n) by (intros n [[Hn Hu] Hlt] E; unfold small_number, numeral; by rewrite <- E).
  assert (Hsame' : forall n, small_number (a_text o2) n -> units (a_text o1) = units (a_text o2) -> small_number (a_text o1) n) by (intros n [[Hn Hu] Hlt] E; unfold small_number, numeral; by rewrite E).
  destruct (atom_str_cases _ _ _ _ _ _ HR1 Hst1 Ho1 Hown1 Hi1) as [(n1 & Hn1 & -> & _)|(Hnn1 & Hna1 & Hb1 & q1 & Hq1)];
    destruct (atom_str_cases _ _ _ _ _ _ HR2 Hst2 Ho2 Hown2 Hi2) as [(n2 & Hn2 & -> & _)|(Hnn2 & Hna2 & Hb2 & q2 & Hq2)].
  - split; [unfold int_atom; intros E; assert (n1 = n2) as -> by lia; destruct Hn1 as [[_ ->] _], Hn2 as [[_ ->] _]; done|].
    intros E. destruct (Hsame n1 Hn1 E) as [Hn1' _], Hn2 as [Hn2 _]. by rewrite (numeral_det _ _ _ Hn1' Hn2).
  - split; [|intros E; by destruct (Hnn2 n1 (Hsame n1 Hn1 E))]. destruct Hn1 as [[Hn1 _] _]. unfold int_atom. lia.
  - split; [|intros E; by destruct (Hnn1 n2 (Hsame' n2 Hn2 E))]. destruct Hn2 as [[Hn2 _] _]. unfold int_atom. lia.
  - destruct (decide (q1 = p2)) as [->|Hne].
    + destruct Hq1 as (oq & Hoq & Eaq & Euq). assert (oq = o2) as -> by congruence. split; [done|]. intros _.
      assert (Hint : interned σ1 A_string (units (a_text o2)) p2 i1) by (by exists o2).
      inversion Hna2 as [q0 k0 i0 Ek Hat|q0 o0 k0 p i0 Ek Ho0 Hint' Hpq|q0 o0 k0 i0 Ho0 Ea Hni Hun|q0 o0 k0 p i0 Ho0 Ea Hni Hp Hun| |]; subst; [| | | |done].
      * destruct Hat as (o & Ho & Ea). congruence.
      * assert (o0 = o2) as -> by congruence. by destruct (interned_unique rt1 σ1 p p2 A_string _ i2 i1 HR1 eq_refl Hint' Hint).
      * congruence.
      * assert (o0 = o2) as -> by congruence. by destruct (Hni eq_refl p2 i1).
    + destruct Hq1 as (oq & Hoq & Eaq & Euq). destruct (new_atom_other _ _ _ _ _ q1 oq Hna2 Hne Hoq) as (oq' & Hoq' & Eaq' & Etq').
      assert (Hint : interned σ2 A_string (units (a_text o1)) q1 i1) by (exists oq'; by rewrite Eaq', Etq').
      split.
      * intros ->. destruct Hint as (oa & Hoa & Eaa & <-), Hq2 as (ob & Hob & Eab & <-).
        destruct (atom_unique rt2 σ2 q1 q2 A_string i2 HR2 ltac:(by exists oa) A_string ltac:(by exists ob)) as [-> _]. congruence.
      * intros E. rewrite E in Hint. by destruct (interned_unique rt2 σ2 q1 q2 A_string _ i1 i2 HR2 eq_refl Hint Hq2).
Qed.

(** C21: numbers survive.  In any state that calls reach, the atom of an unsigned
    32-bit number [n] (unless memory is short) is an array index with the value
    [n], but for 2^32 - 1 which is none, and the string of the atom is the
    decimal text of [n]. *)
Theorem atom_number_roundtrip rt0 tr rt n : JS_InitAtoms ∅ = Ret (true, rt0) -> calls rt0 tr rt -> 0 <= n < 2 ^ 32 ->
  exists i rt1, JS_NewAtomUInt32 rt n = Ret (i, rt1) /\
    (i <> JS_ATOM_NULL ->
      JS_AtomIsArrayIndex rt1 i = Ret (if n =? UINT32_MAX then None else Some n) /\
      exists r rt2, JS_AtomToString rt1 i = Ret (r, rt2) /\
        (r = R_exception \/ exists p s, r = R_string p /\ strings rt2 !! p = Some s /\ units (text s) = print_u n)).
Proof.
  intros H0 Hcalls Hn. destruct (atom_runs_refine rt0 tr rt H0 Hcalls) as (_ & σ & _ & _ & _ & HR & Hk).
  assert (Hop : op_ok σ (Op_new_atom_number false n)) by exact Hn. pose proof (steps_exec rt σ _ HR Hk Hop) as Hst. unfold steps in Hst. cbn [exec] in Hst.
  destruct (JS_NewAtomUInt32 rt n) as [[i rt1]|] eqn:E; [|done]. exists i, rt1. split; [done|]. intros Hi. cbn in Hst. destruct Hst as (σ1 & Hst & HR1).
  assert (Hk1 : constants σ1).
  { eapply preserves_constants; [|exact Hk]. eapply step_preserves; [exact Hst|exact Hop|]. intros p o Ho. destruct HR as [_ HO]. by eapply (o_refs _ _ _ HO). }
  (* what the atom is *)
  assert (Hcase : (is_int_atom i /\ n = i - 2 ^ 31) \/ exists p o, σ1 !! p = Some o /\ a_atom o = Some (A_string, i) /\ units (a_text o) = print_u n).
  { inversion Hst as [ |  |  |  |  |  |  | b m Hm | b m p t i0 σ0 Hm Hp Ht Hna |  |  |  |  |  |  |  |  |  |  |  |  |  |  |  |  |  |  |  |  |  |  | ]; subst; [| |done].
    - left. unfold is_int_atom, int_atom. lia.
    - right. destruct (new_atom_interned _ _ _ _ _ Hna (lookup_insert_eq _ _ _) (owned_new _ _ _) Hi) as (q & o & Ho & Ea & Eu). exists q, o. split_and!; [done..|].
      rewrite Eu. cbn. rewrite Ht. unfold print_d. by rewrite (proj2 (Z.ltb_ge n 0)) by lia. }
  assert (Hal : atom_alive σ1 i) by (destruct Hcase as [[Hint _]|(p & o & Ho & Ea & _)]; [by left|right; exists p, A_string; by exists o]). split.
  - pose proof (steps_array_index rt1 σ1 i HR1 Hal) as Hix. unfold steps in Hix. cbn [exec] in Hix. destruct (JS_AtomIsArrayIndex rt1 i) as [v|]; [|done]. cbn in Hix.
    destruct Hix as (σ2 & Hix & _). f_equal. destruct Hcase as [[Hint ->]|(p & o & Ho & Ea & Eu)].
    + unfold is_int_atom in Hint. rewrite (proj2 (Z.eqb_neq _ UINT32_MAX)) by (unfold UINT32_MAX; lia).
      inversion Hix as [ |  |  |  |  |  |  |  |  |  |  |  |  |  |  |  |  |  |  |  |  |  |  |  |  |  |  |  | i0 Hi0 | p o i0 m Ho Ea Hm Hlt | p o k i0 Ho Ea Hm | ]; subst; [done| |].
      * destruct (ref_atom rt1 σ2 p A_string i HR1) as (s & o1 & _ & _ & _ & _ & _ & _ & _ & Hb); [by exists o|lia].
      * destruct (ref_atom rt1 σ2 p k i HR1) as (s & o1 & _ & _ & _ & _ & _ & _ & _ & Hb); [by exists o|lia].
    + assert (Hnum : numeral (a_text o) n) by done. destruct (ref_atom rt1 σ1 p A_string i HR1) as (s & o1 & _ & _ & _ & _ & _ & _ & _ & Hb); [by exists o|].
      inversion Hix as [ |  |  |  |  |  |  |  |  |  |  |  |  |  |  |  |  |  |  |  |  |  |  |  |  |  |  |  | i0 Hi0 | p' o' i0 m Ho' Ea' Hm Hlt | p' o' k i0 Ho' Ea' Hm | ]; subst; [unfold is_int_atom in Hi0; lia| |].
      * destruct (atom_unique rt1 σ2 p p' A_string i HR1 ltac:(by exists o) A_string ltac:(by exists o')) as [<- _]. assert (o' = o) as -> by congruence.
        rewrite (numeral_det _ _ _ Hnum Hm). by rewrite (proj2 (Z.eqb_neq _ _)) by lia.
      * destruct (atom_unique rt1 σ2 p p' A_string i HR1 ltac:(by exists o) k ltac:(by exists o')) as [<- <-]. assert (o' = o) as -> by congruence.
        rewrite (Hm eq_refl n Hnum). done.
  - pose proof (steps_to_value rt1 σ1 i true HR1 Hk1 Hal) as Hv. unfold steps in Hv. cbn [exec] in Hv. unfold JS_AtomToString.
    destruct (__JS_AtomToValue rt1 i true) as [[r rt2]|]; [|done]. exists r, rt2. split; [done|]. cbn in Hv. destruct Hv as (σ2 & Hv & HR2).
    assert (Hstr : forall p o, r = R_string p -> σ2 !! p = Some o -> units (a_text o) = print_u n ->
      exists p s, r = R_string p /\ strings rt2 !! p = Some s /\ units (text s) = print_u n).
    { intros p o -> Ho Eu. destruct (obj_some _ _ _ _ (proj2 HR2) Ho) as (s & Hs & _ & _ & Et & _). exists p, s. by rewrite <- Et. }
    destruct Hcase as [[Hint ->]|(p & o & Ho & Ea & Eu)].
    + unfold is_int_atom in Hint.
      assert (Hno : forall p k, ~ is_atom_of σ1 p k i) by (intros p k Hat; destruct (ref_atom rt1 σ1 p k i HR1 Hat) as (s & o1 & _ & _ & _ & _ & _ & _ & _ & Hb); lia).
      inversion Hv; subst; try (exfalso; eapply Hno; eassumption || (eexists; split; eassumption)); [|by left].
      right. eapply Hstr; [done|apply lookup_insert_eq|done].
    + destruct (ref_atom rt1 σ1 p A_string i HR1) as (s & o1 & _ & _ & _ & _ & _ & _ & _ & Hb); [by exists o|].
      assert (Hu : forall q k, is_atom_of σ1 q k i -> q = p /\ k = A_string) by (intros q k Hq; by destruct (atom_unique rt1 σ1 p q A_string i HR1 ltac:(by exists o) k Hq) as [-> ->]).
      inversion Hv as [ |  |  |  |  |  |  |  |  |  |  |  |  |  |  |  |  |  |  |  | i0 b q t Hi0 Hq Hu0 | i0 b Hi0 | q i0 b Hq | q k i0 Hq Hk0 | q o' k i0 Hq Ea' Hk0 Hd | q o' k i0 q' Hq Ea' Hk0 Hd Hq' |  |  |  |  |  | ]; subst; try (unfold is_int_atom in *; lia).
      * destruct (Hu _ _ Hq) as [-> _]. right. eapply (Hstr p); [done|by rewrite (bump_some σ1 p o Ho), lookup_insert_eq|done].
      * destruct (Hu q k) as [_ ->]; [by exists o'|done].
      * destruct (Hu q k) as [_ ->]; [by exists o'|done].
Qed.

(** ** The end of a runtime *)

Lemma wp_free_atoms rt chains free : table_ok rt chains free ->
  wp (free_atoms rt) (fun rt' => strings rt' = filter (fun ps => atom_type ps.2 = 0) (strings rt)).
Proof.
  intros HT. unfold free_atoms. pose proof (k_slots _ _ _ HT) as HS. pose proof (zlen_nonneg (atom_array rt)). rewrite <- (k_size _ _ _ HT).
  set (N := Z.to_nat (zlen (atom_array rt))).
  apply (wp_foldM (fun rt1 rest => exists j m, rest = seq j (N - j) /\ (j <= N)%nat /\ rt1 = set_strings rt m /\
    (forall i p, slot_at (atom_array rt) i = Some (Atom p) -> i < Z.of_nat j -> m !! p = None) /\
    forall p, (forall i, slot_at (atom_array rt) i = Some (Atom p) -> Z.of_nat j <= i) -> m !! p = strings rt !! p)).
  - intros rt1 j' rest (j & m & Er & Hj & -> & Hgone & Hleft). destruct (N - j)%nat as [|d] eqn:Ed; [done|]. injection Er as -> ->.
    destruct (slot_some (atom_array rt) (Z.of_nat j)) as [sl Hsl]; [lia|]. cbn [atom_array set_strings]. rewrite (rd_slot _ _ _ Hsl). cbn [mbind outcome_bind].
    destruct sl as [|n|p]; cbn [atom_is_free mbind outcome_bind]; [by apply (s_defined _ _ HS) in Hsl| |].
    + exists (S j), m. split_and!; [f_equal; lia|lia|done| |].
      * intros i p Hi Hlt. apply (Hgone i p Hi). assert (i <> Z.of_nat j) by congruence. lia.
      * intros p Hp. apply Hleft. intros i Hi. specialize (Hp i Hi). lia.
    + rewrite (get_atom_ok (set_strings rt m) (Z.of_nat j) p Hsl). cbn [mbind outcome_bind]. destruct (entry_string HT _ _ Hsl) as (s & Hs & _).
      assert (Hone : forall i, slot_at (atom_array rt) i = Some (Atom p) -> i = Z.of_nat j) by (intros i Hi; by eapply (s_inj _ _ HS)).
      rewrite (get_str_ok (set_strings rt m) p s) by (cbn; rewrite Hleft; [done|]; intros i ->%Hone; lia). cbn [mbind outcome_bind wp strings set_strings].
      exists (S j), (delete p m). split_and!; [f_equal; lia|lia|done| |].
      * intros i q Hi Hlt. destruct (decide (q = p)) as [->|Hne]; [by rewrite lookup_delete_eq|]. rewrite lookup_delete_ne by done. apply (Hgone i q Hi).
        assert (i <> Z.of_nat j) by congruence. lia.
      * intros q Hq. assert (q <> p) by (intros ->; specialize (Hq _ Hsl); lia). rewrite lookup_delete_ne by done. apply Hleft. intros i Hi. specialize (Hq i Hi). lia.
  - intros rt1 (j & m & Er & Hj & -> & Hgone & Hleft). cbn [strings set_strings]. assert (j = N) as -> by (destruct (N - j)%nat eqn:E; [lia|done]).
    apply map_eq. intros p. destruct (strings rt !! p) as [s|] eqn:Es.
    + destruct (Z.eq_dec (atom_type s) 0) as [Ht|Ht].
      * rewrite (map_lookup_filter_Some_2 _ _ _ s) by done. rewrite Hleft; [done|]. intros i Hi. destruct (entry_string HT i p Hi) as (s' & Hs' & Hty). congruence.
      * rewrite map_lookup_filter_None_2 by (right; intros s' Es'; cbn; congruence). destruct (t_slot _ _ _ (string_ok HT p s Es)) as [i Hi]; [by rewrite erase_type|].
        apply (Hgone i p Hi). apply atom_slot_bounds in Hi. lia.
    + rewrite map_lookup_filter_None_2 by (by left). rewrite Hleft; [done|]. intros i Hi. destruct (entry_string HT i p Hi) as (s' & Hs' & _). congruence.
  - exists O, (strings rt). split_and!; [by rewrite Nat.sub_0_r|lia|by destruct rt|intros i p Hi%atom_slot_bounds; lia|done].
Qed.

(** C16: the end of a runtime releases every atom, each once, and only atoms: after
    any calls the strings that are left are those that have not become atoms and
    that the caller still has references to. *)
Theorem free_atoms_releases rt0 tr rt : JS_InitAtoms ∅ = Ret (true, rt0) -> calls rt0 tr rt ->
  exists σ rt', refines rt σ /\ free_atoms rt = Ret rt' /\
    forall p s, strings rt' !! p = Some s <-> strings rt !! p = Some s /\ exists n, 1 <= n /\ σ !! p = Some (mkObj (text s) n None).
Proof.
  intros H0 Hcalls. destruct (atom_runs_refine rt0 tr rt H0 Hcalls) as (_ & σ & _ & _ & _ & HR & _). pose proof HR as [(chains & free & HT) HO].
  pose proof (wp_free_atoms rt chains free HT) as Hw. apply wp_elim in Hw as (rt' & E & Hm). exists σ, rt'. split_and!; [done..|]. intros p s. rewrite Hm, map_lookup_filter_Some. cbn. split.
  - intros [Hs Ht]. split; [done|]. assert (Hn0 : slot_at (atom_array rt) 0 <> Some (Atom p)) by (eapply not_atom; [done|]; intros s' Hs'; congruence).
    destruct (o_in _ _ _ HO p _ (view_of _ _ _ Hs) Hn0) as ([t n a] & Ho & Et & En & Ea). exists n. pose proof (o_refs _ _ _ HO p _ Ho) as Hr. cbn in *. rewrite erase_text in Et. subst t.
    split; [done|]. destruct a as [[k i]|]; [|done]. destruct Ea as [Hk%kind_type _]. rewrite erase_type in Hk. lia.
  - intros [Hs (n & Hn & Ho)]. split; [done|]. destruct (obj_some _ _ _ _ HO Ho) as (s' & Hs' & _ & (_ & _ & Ha) & _). cbn in Ha. rewrite erase_type in Ha. congruence.
Qed.

(** The other strings stay. *)
Lemma atom_str_other σ p i σ' q o : spec_step σ (Op_new_atom_str p) (R_atom i) σ' -> q <> p -> σ !! q = Some o ->
  exists o', σ' !! q = Some o' /\ a_atom o' = a_atom o /\ a_text o' = a_text o.
Proof.
  intros Hst Hne Ho. inversion Hst as [ |  |  |  |  | p0 o0 n Ho0 Hn0 Hlt | p0 o0 i0 σ2 Ho0 Hnum Hna |  |  |  |  |  |  |  |  |  |  |  |  |  |  |  |  |  |  |  |  |  |  |  |  | ]; subst.
  - exists o. by rewrite drop_ne.
  - by eapply new_atom_other.
Qed.

Lemma atom_str_runs rt σ p : refines rt σ -> owned σ p ->
  exists i rt' σ', JS_NewAtomStr rt p = Ret (i, rt') /\ spec_step σ (Op_new_atom_str p) (R_atom i) σ' /\ refines rt' σ'.
Proof.
  intros HR Hown. pose proof (steps_new_atom_str rt σ p HR Hown) as Hst. unfold steps in Hst. cbn [exec] in Hst.
  destruct (JS_NewAtomStr rt p) as [[i rt']|]; [|done]. cbn in Hst. destruct Hst as (σ' & Hst & HR'). by exists i, rt', σ'.
Qed.
End Theorems.

(** ** Examples *)

(** The array of atoms grows to 1034394552 entries; the next size is computed in
    an [int] that overflows, and the array shrinks to 211 entries instead of the
    failure that the test against [JS_ATOM_MAX] is there for. *)
Lemma atom_array_size_overflows : Nat.iter 39 grown_size 0 = 1034394552 /\ 1034394552 <= JS_ATOM_MAX /\ grown_size 1034394552 = 211.
Proof. by vm_compute. Qed.

#[program] Definition demo_alloc : AtomAllocator :=
  {| string_alloc m n := Some (fresh (dom m)); array_realloc m n := n <=? 2 ^ 32; hash_alloc m n := true |}.
Next Obligation. intros m n p [= <-]. apply not_elem_of_dom, is_fresh. Qed.
Definition demo_config : AtomConfig := {| CONFIG_BIGNUM := true; CONFIG_ATOMICS := true; CONFIG_JSX := false |}.
Lemma demo_small : @SmallArrays demo_alloc.
Proof. intros m n H. by apply Z.leb_le. Qed.

(** A symbol that [JS_ToPropertyKey] returns gives its reference to the atom; a
    predefined symbol is not counted as an atom, and nothing gives that
    reference back. *)
Lemma key_to_atom_keeps_reference `{AtomConfig} `{AtomAllocator} rt p i : js_get_atom_index rt p = Ret i -> __JS_AtomIsConst i = true ->
  key_to_atom rt p true = Ret (i, rt) /\ JS_FreeAtom rt i = Ret rt.
Proof. intros Hi Hc. unfold key_to_atom, js_symbol_to_atom, JS_FreeAtom. by rewrite Hi, Hc. Qed.

Section Demo.
Local Existing Instances demo_config demo_alloc demo_small.

Definition foo : JSString := mkString false (str "foo").
Definition wide_foo : JSString := mkString true (str "foo").
Lemma demo_start : exists rt0, JS_InitAtoms ∅ = Ret (true, rt0).
Proof.
  assert (E : fst <$> JS_InitAtoms ∅ = Ret true) by (vm_compute; reflexivity). destruct (JS_InitAtoms ∅) as [[ok rt0]|]; [|done].
  exists rt0. cbn in E. congruence.
Qed.

(** A string and the same string of wide characters. *)
Lemma demo_state : exists rt0 rt σ p1 p2, JS_InitAtoms ∅ = Ret (true, rt0) /\
  calls rt0 [(Op_new_string foo, R_string p1); (Op_new_string wide_foo, R_string p2)] rt /\
  refines rt σ /\ σ !! p1 = Some (new_obj foo) /\ σ !! p2 = Some (new_obj wide_foo) /\ p1 <> p2.
Proof.
  destruct demo_start as [rt0 E0]. pose proof (wp_JS_InitAtoms) as Hi. rewrite E0 in Hi. destruct (Hi eq_refl) as (σ0 & HR0 & Hp0).
  pose proof (predefined_constants _ _ (le_n _) Hp0) as Hk0.
  pose proof (ref_new_string rt0 σ0 foo HR0) as H1. destruct (js_alloc_string_rt rt0 foo) as [[p1 rt1]|] eqn:E1; [|by vm_compute in E1].
  destruct H1 as [Hp1 HR1]. pose proof (ref_new_string rt1 _ wide_foo HR1) as H2. destruct (js_alloc_string_rt rt1 wide_foo) as [[p2 rt2]|] eqn:E2; [|done].
  destruct H2 as [Hp2 HR2]. exists rt0, rt2. eexists. exists p1, p2. assert (Hne : p1 <> p2) by (intros ->; by rewrite lookup_insert_eq in Hp2).
  split_and!; [done| |exact HR2|rewrite lookup_insert_ne by done; apply lookup_insert_eq|apply lookup_insert_eq|done].
  apply (calls_step rt0 [(Op_new_string foo, R_string p1)] rt1 (<[p1:=new_obj foo]> σ0) (Op_new_string wide_foo) (R_string p2) rt2); [|exact HR1|done|cbn [exec]; by rewrite E2].
  apply (calls_step rt0 [] rt0 σ0 (Op_new_string foo) (R_string p1) rt1); [constructor|done|done|cbn [exec]; by rewrite E1].
Qed.

Lemma owned_plain σ p t : σ !! p = Some (new_obj t) -> owned σ p.
Proof. intros Ho. by exists (new_obj t). Qed.


Lemma atom_table_ok_witness : exists rt chains free, 0 < zlen (atom_array rt) /\ table_ok rt chains free.
Proof.
  destruct demo_start as [rt0 E0]. destruct (atom_table_ok rt0 [] rt0 E0 (calls_nil rt0)) as (chains & free & HT). exists rt0, chains, free. split; [|exact HT].
  assert (E : (fun '(_, rt) => zlen (atom_array rt)) <$> JS_InitAtoms ∅ = Ret 316) by (vm_compute; reflexivity). rewrite E0 in E. cbn in E. injection E as ->. lia.
Defined.

(** The atoms of the two strings are equal. *)
Lemma atoms_canonical_witness : exists i1 i2 rt rt1 rt2 p1 p2, p1 <> p2 /\ JS_NewAtomStr rt p1 = Ret (i1, rt1) /\ JS_NewAtomStr rt1 p2 = Ret (i2, rt2) /\
  (i1 <> JS_ATOM_NULL -> i2 <> JS_ATOM_NULL -> i1 = i2).
Proof.
  destruct demo_state as (rt0 & rt & σ & p1 & p2 & E0 & Hc & HR & Hp1 & Hp2 & Hne).
  destruct (atom_runs_refine rt0 _ rt E0 Hc) as (_ & σ' & _ & _ & _ & HR' & Hk). assert (σ' = σ) as -> by (by eapply refines_det).
  destruct (atom_str_runs rt σ p1 HR (owned_plain _ _ _ Hp1)) as (i1 & rt1 & σ1 & E1 & Hst & HR1).
  destruct (atom_str_other σ p1 i1 σ1 p2 _ Hst (not_eq_sym Hne) Hp2) as (o2 & Ho2 & Ea2 & Et2). assert (Hown2 : owned σ1 p2) by (exists o2; split; [exact Ho2|]; rewrite Ea2; discriminate).
  destruct (atom_str_runs rt1 σ1 p2 HR1 Hown2) as (i2 & rt2 & σ2 & E2 & _ & _). exists i1, i2, rt, rt1, rt2, p1, p2. split; [exact Hne|]. split; [exact E1|]. split; [exact E2|]. intros H1 H2.
  pose proof (owned_plain _ _ _ Hp1) as Hown1.
  destruct (atoms_canonical rt0 _ rt σ σ1 p1 p2 (new_obj foo) o2 i1 i2 rt1 rt2 E0 Hc HR Hp1 Hown1 E1 H1 HR1 Ho2 Hown2 E2 H2) as [_ Heq].
  apply Heq. rewrite Et2. reflexivity.
Defined.

Lemma atom_number_roundtrip_witness : exists i rt rt1, JS_NewAtomUInt32 rt 4294967295 = Ret (i, rt1) /\ (i <> JS_ATOM_NULL -> JS_AtomIsArrayIndex rt1 i = Ret None).
Proof.
  destruct demo_start as [rt0 E0]. destruct (atom_number_roundtrip rt0 [] rt0 4294967295 E0 (calls_nil rt0) ltac:(lia)) as (i & rt1 & E & H).
  exists i, rt0, rt1. split; [exact E|]. intros Hi. exact (proj1 (H Hi)).
Defined.

Lemma free_atoms_releases_witness : exists rt rt' p1, free_atoms rt = Ret rt' /\ is_Some (strings rt' !! p1).
Proof.
  destruct demo_state as (rt0 & rt & σ & p1 & p2 & E0 & Hc & HR & Hp1 & Hp2 & Hne).
  destruct (free_atoms_releases rt0 _ rt E0 Hc) as (σ' & rt' & HR' & E & Hiff). assert (σ' = σ) as -> by (by eapply refines_det).
  exists rt, rt', p1. split; [exact E|]. destruct (obj_some _ _ _ _ (proj2 HR) Hp1) as (s & Hs & _ & _ & Et & _). exists s. apply Hiff. split; [exact Hs|].
  exists 1. rewrite <- Et. by split.
Defined.
End Demo.
