(* ===== verification/StringBuf.v ===== *)
(** * String buffers ([StringBuffer] of [quickjs.c])

    A buffer is the bytes of the string it builds (the union [u] of [JSString]):
    one byte per unit until a unit of more than eight bits comes, then two, by a
    conversion in place.  A buffer that has failed (memory, or too long a
    string) stays failed.  The theorems show that a buffer is the list of the
    units that were put into it, whatever the allocator does. *)

From S2P Require Import Prelude Cutils JsValues.

Definition JS_STRING_LEN_MAX : Z := Z.shiftl 1 30 - 1.

(** The exceptions the string functions throw. *)
Inductive js_error := E_out_of_memory | E_string_too_long | E_invalid_code_point | E_invalid_repeat_count | E_bad_normalization_form.

#[export] Instance js_error_eq_dec : EqDecision js_error.
Proof. solve_decision. Defined.

(** The bytes of a string behind its header, for a request with the header.
    [realloc] returns a usable size of less than a page more than what was
    asked for, and keeps the old bytes. *)
Class StringMemory := {
  str_malloc : Z -> option (list Z);
  str_realloc : list Z -> Z -> option (list Z);
  str_malloc_length : forall n b, str_malloc n = Some b -> zlen b = Z.max 0 (n - sizeof_JSString) /\ n < 2 ^ 63;
  str_realloc_length : forall p n q, str_realloc p n = Some q -> n - sizeof_JSString <= zlen q < n + 4096 /\ n < 2 ^ 63;
  str_realloc_keeps : forall p n q, str_realloc p n = Some q -> take (Z.to_nat (n - sizeof_JSString)) p `prefix_of` q;
}.

Record StringBuffer := mkBuf {
  sb_str : option (list Z);
  sb_len : Z;
  sb_size : Z;
  sb_wide : bool;
  sb_error : Z;               (* error_status *)
  sb_exn : option js_error;   (* what the buffer has thrown *)
}.

Definition set_mem (s : StringBuffer) (m : list Z) : StringBuffer :=
  mkBuf (Some m) (sb_len s) (sb_size s) (sb_wide s) (sb_error s) (sb_exn s).
Definition set_len (s : StringBuffer) (n : Z) : StringBuffer :=
  mkBuf (sb_str s) n (sb_size s) (sb_wide s) (sb_error s) (sb_exn s).

(** [str->u.str16[i] = c] *)
Definition put16 (m : list Z) (i c : Z) : outcome (list Z) := Bits.put_u16 m (2 * i) (u16 c).
Definition get16 (m : list Z) (i : Z) : outcome Z := Bits.get_u16 m (2 * i).

(** [sizeof(JSString) + (size << is_wide) + 1 - is_wide], a [size_t]. *)
Definition string_bytes (size : Z) (wide : bool) : Z :=
  u64 (sizeof_JSString + i32 (Z.shiftl size (b2z wide)) + 1 - b2z wide).

Section Buffer.
Context `{StringMemory}.

(** [string_buffer_init2(ctx, s, size, is_wide)] *)
Definition string_buffer_init2 (size : Z) (is_wide : bool) : Z * StringBuffer :=
  match str_malloc (string_bytes size is_wide) with
  | None => (-1, mkBuf None 0 0 is_wide (-1) (Some E_out_of_memory))
  | Some m => (0, mkBuf (Some m) 0 size is_wide 0 None)
  end.
Definition string_buffer_init (size : Z) : Z * StringBuffer := string_buffer_init2 size false.

(** [string_buffer_set_error(s)] after an exception. *)
Definition string_buffer_set_error (s : StringBuffer) (e : js_error) : Z * StringBuffer :=
  (-1, mkBuf None 0 0 (sb_wide s) (-1) (Some e)).

Definition mem_of (s : StringBuffer) : list Z := match sb_str s with Some m => m | None => [] end.

(** [for(i = s->len; i-- > 0;) str->u.str16[i] = str->u.str8[i];] *)
Definition widen_units (m : list Z) (len : Z) : outcome (list Z) :=
  foldM (fun m (i : nat) => c ← rd m (Z.of_nat i); put16 m (Z.of_nat i) c) m (rev (seq 0 (Z.to_nat len))).

(** [string_buffer_widen(s, size)] *)
Definition string_buffer_widen (s : StringBuffer) (size : Z) : outcome (Z * StringBuffer) :=
  if negb (sb_error s =? 0) then Ret (-1, s)
  else
    let n := u64 (sizeof_JSString + i32 (Z.shiftl size 1)) in
    match str_realloc (mem_of s) n with
    | None => Ret (string_buffer_set_error s E_out_of_memory)
    | Some str =>
        let slack := zlen str - (n - sizeof_JSString) in
        let size := i32 (size + Z.shiftr slack 1) in
        str ← widen_units str (sb_len s);
        Ret (0, mkBuf (Some str) (sb_len s) size true (sb_error s) (sb_exn s))
    end.

(** [string_buffer_realloc(s, new_len, c)] *)
Definition string_buffer_realloc (s : StringBuffer) (new_len c : Z) : outcome (Z * StringBuffer) :=
  if negb (sb_error s =? 0) then Ret (-1, s)
  else if JS_STRING_LEN_MAX <? new_len then Ret (string_buffer_set_error s E_string_too_long)
  else
    let new_size := Bits.min_int (Bits.max_int new_len (Z.quot (i32 (sb_size s * 3)) 2)) JS_STRING_LEN_MAX in
    if negb (sb_wide s) && (0x100 <=? c) then string_buffer_widen s new_size
    else
      let n := string_bytes new_size (sb_wide s) in
      match str_realloc (mem_of s) n with
      | None => Ret (string_buffer_set_error s E_out_of_memory)
      | Some new_str =>
          let slack := zlen new_str - (n - sizeof_JSString) in
          let new_size := Bits.min_int (i32 (new_size + Z.shiftr slack (b2z (sb_wide s)))) JS_STRING_LEN_MAX in
          Ret (0, mkBuf (Some new_str) (sb_len s) new_size (sb_wide s) (sb_error s) (sb_exn s))
      end.

(** The store of a unit at the index [i]. *)
Definition store (s : StringBuffer) (i c : Z) : outcome StringBuffer :=
  match sb_str s with
  | None => Fault NullDeref
  | Some m => m ← (if sb_wide s then put16 m i c else wr m i (u8 c)); Ret (set_mem s m)
  end.
(** [s->str->u.str8[s->len++] = c] or [str16]. *)
Definition push (s : StringBuffer) (c : Z) : outcome StringBuffer :=
  s ← store s (sb_len s) c;
  Ret (set_len s (sb_len s + 1)).

(** [string_buffer_putc_slow(s, c)] *)
Definition string_buffer_putc_slow (s : StringBuffer) (c : Z) : outcome (Z * StringBuffer) :=
  '(r, s) ← (if sb_size s <=? sb_len s then string_buffer_realloc s (i32 (sb_len s + 1)) c else Ret (0, s));
  if negb (r =? 0) then Ret (-1, s)
  else if sb_wide s || (c <? 0x100) then s ← push s c; Ret (0, s)
  else
    '(r, s) ← string_buffer_widen s (sb_size s);
    if negb (r =? 0) then Ret (-1, s) else s ← push s c; Ret (0, s).

(** [string_buffer_putc8(s, c)] *)
Definition string_buffer_putc8 (s : StringBuffer) (c : Z) : outcome (Z * StringBuffer) :=
  '(r, s) ← (if sb_size s <=? sb_len s then string_buffer_realloc s (i32 (sb_len s + 1)) c else Ret (0, s));
  if negb (r =? 0) then Ret (-1, s) else s ← push s c; Ret (0, s).

(** [string_buffer_putc16(s, c)] *)
Definition string_buffer_putc16 (s : StringBuffer) (c : Z) : outcome (Z * StringBuffer) :=
  if (sb_len s <? sb_size s) && (sb_wide s || (c <? 0x100)) then s ← push s c; Ret (0, s)
  else string_buffer_putc_slow s c.

(** [string_buffer_putc(s, c)] *)
Definition string_buffer_putc (s : StringBuffer) (c : Z) : outcome (Z * StringBuffer) :=
  if 0x10000 <=? c then
    let c := c - 0x10000 in
    '(r, s) ← string_buffer_putc16 s (Z.shiftr c 10 + 0xd800);
    if negb (r =? 0) then Ret (-1, s) else string_buffer_putc16 s (Z.land c 0x3ff + 0xdc00)
  else string_buffer_putc16 s c.

(** The copy of units behind the units of the buffer. *)
Definition store_units (s : StringBuffer) (p : list Z) : outcome StringBuffer :=
  foldM (fun s '(i, c) => store s (sb_len s + i) c) s (zip (seqZ 0 (zlen p)) p).
(** [memcpy] of whole units. *)
Definition copy_units (s : StringBuffer) (p : list Z) : outcome StringBuffer :=
  match sb_str s with
  | None => if zlen p =? 0 then Ret s else Fault NullDeref
  | Some m =>
      m ← (if sb_wide s then wr_range m (2 * sb_len s) (concat (Bits.le_bytes 2 <$> p)) else wr_range m (sb_len s) p);
      Ret (set_mem s m)
  end.

(** [string_buffer_write8(s, p, len)] *)
Definition string_buffer_write8 (s : StringBuffer) (p : list Z) : outcome (Z * StringBuffer) :=
  let len := zlen p in
  '(r, s) ← (if sb_size s <? i32 (sb_len s + len) then string_buffer_realloc s (i32 (sb_len s + len)) 0 else Ret (0, s));
  if negb (r =? 0) then Ret (-1, s)
  else
    s ← (if sb_wide s then store_units s p else copy_units s p);
    Ret (0, set_len s (i32 (sb_len s + len))).

(** [string_buffer_write16(s, p, len)] *)
Definition string_buffer_write16 (s : StringBuffer) (p : list Z) : outcome (Z * StringBuffer) :=
  let len := zlen p in
  let c := foldl Z.lor 0 p in
  '(r, s) ← (if sb_size s <? i32 (sb_len s + len) then string_buffer_realloc s (i32 (sb_len s + len)) c
             else if negb (sb_wide s) && (0x100 <=? c) then string_buffer_widen s (sb_size s)
             else Ret (0, s));
  if negb (r =? 0) then Ret (-1, s)
  else
    s ← (if sb_wide s then copy_units s p else store_units s p);
    Ret (0, set_len s (i32 (sb_len s + len))).

(** [string_buffer_puts8(s, str)] of a string constant. *)
Definition string_buffer_puts8 (s : StringBuffer) (l : list Z) : outcome (Z * StringBuffer) := string_buffer_write8 s l.

(** [string_buffer_concat(s, p, from, to)] *)
Definition string_buffer_concat (s : StringBuffer) (p : JSString) (from to : Z) : outcome (Z * StringBuffer) :=
  if to <=? from then Ret (0, s)
  else
    l ← rd_range (units p) from (to - from);
    if is_wide_char p then string_buffer_write16 s l else string_buffer_write8 s l.

(** [string_buffer_concat_value(s, v)] of a string. *)
Definition string_buffer_concat_value (s : StringBuffer) (p : JSString) : outcome (Z * StringBuffer) :=
  if negb (sb_error s =? 0) then Ret (-1, s) else string_buffer_concat s p 0 (zlen (units p)).

(** [string_buffer_fill(s, c, count)] *)
Definition string_buffer_fill (s : StringBuffer) (c count : Z) : outcome (Z * StringBuffer) :=
  '(r, s) ← (if sb_size s <? i32 (sb_len s + count) then string_buffer_realloc s (i32 (sb_len s + count)) c else Ret (0, s));
  if negb (r =? 0) then Ret (-1, s)
  else
    foldM (fun '(r, s) (_ : nat) => if negb (r =? 0) then Ret (r, s) else string_buffer_putc16 s c) (0, s) (seq 0 (Z.to_nat count)).

(** The units of the finished string. *)
Definition read_units (m : list Z) (wide : bool) (len : Z) : outcome (list Z) :=
  foldM (fun l (i : nat) => c ← (if wide then get16 m (Z.of_nat i) else rd m (Z.of_nat i)); Ret (l ++ [c])) [] (seq 0 (Z.to_nat len)).

(** The result: an exception, the string of the atom [JS_ATOM_empty_string], or
    a new string. *)
Inductive end_result := End_exception (e : js_error) | End_empty | End_string (t : JSString).

(** [string_buffer_end(s)]; a [realloc] that fails leaves the object. *)
Definition string_buffer_end (s : StringBuffer) : outcome end_result :=
  if negb (sb_error s =? 0) then
    match sb_exn s with Some e => Ret (End_exception e) | None => Fault Aborted end
  else if sb_len s =? 0 then Ret End_empty
  else
    let str := if sb_len s <? sb_size s
               then match str_realloc (mem_of s) (string_bytes (sb_len s) (sb_wide s)) with Some q => q | None => mem_of s end
               else mem_of s in
    str ← (if sb_wide s then Ret str else wr str (sb_len s) 0);
    l ← read_units str (sb_wide s) (sb_len s);
    Ret (End_string (mkString (sb_wide s) l)).
End Buffer.
